(* ===== verification/_CoqProject ===== *)
-Q . S2P
Prelude.v
Sanitize.v
Text.v
ErrorCodes.v
Scram.v
ScramFacts.v
ApiKeys.v
Sasl.v
SaslFacts.v
Tls.v
Retry.v
Effects.v
Oidc.v
Reask.v
Partition.v
BatchDecode.v
BatchDecodeFacts.v
Rpc.v
Connection.v
Connect.v
ConnectionFacts.v
ConnectionInvariants.v
ConnectionSessions.v
ConnectionEnds.v
ConnectionProperties.v
ConnectFacts.v
Metadata.v
Cluster.v
ClusterFacts.v
ClusterProperties.v
AdminTypes.v
AdminMessages.v
AdminTopics.v
AdminSizes.v
AdminGroups.v
AdminSecurity.v
AdminAuthentication.v
AdminFacts.v
AdminProperties.v
Fetch.v
FetchFacts.v
Coordinator.v
Consumer.v
ConsumerFacts.v
ConsumerProperties.v
Group.v
GroupProperties.v
Assignors.v
AssignorsFacts.v
Classic.v
ClassicFacts.v
ClassicProperties.v
Scan.v
ScanFacts.v
ScanRounds.v
ScanYield.v
ScanOrder.v
ScanEnds.v
ScanProperties.v
Backward.v
BackwardFacts.v
BackwardLog.v
BackwardProperties.v
Idempotence.v
Transactions.v
TransactionsFacts.v
Encode.v
Dispatch.v
DispatchFacts.v
Accumulator.v
AccumulatorFacts.v
TurnFacts.v
ProducerSystem.v
ProducerSystemFacts.v
ProducerProperties.v
Producer.v
ExactlyOnce.v
PoolSteps.v
PoolStepsFacts.v
PoolRefinement.v
