(* ===== verification/Prelude.v ===== *)
(** * A verification of kaas-lib, a Kafka client in Rust

    This library models the parts of the repository that carry its own logic and
    proves what makes them correct.  Paths below are under [src/crates/].

    ** The program

    - [kafka-conn] is one connection and what every request needs: api keys and
      versions, the broker's error codes, the client's error type, the mutation
      gates.  A connection opens a socket, wraps it in TLS, negotiates versions and
      logs in; then its calls share the socket through a channel, a writer, a reader
      and a map of waiters, and a task logs in again before the session ends.
      Bearer tokens come from a provider, one of which asks an OIDC endpoint and caches.
      [kafka-meta] is the cluster handle over connections: a pool with a slot per
      broker, a metadata snapshot, a cache of coordinators, routing and retries.
    - [kafka-admin] is the admin client over the handle: an operation per thing an operator
      asks or changes, each a few requests to the controller, a coordinator, a leader or
      every broker.  Items that fail for a reason that passes are asked for again.
    - [kafka-produce] is the producer.  A caller's handle chooses a record's partition,
      charges the record to a memory semaphore and queues it; an actor owns every partition's batches and
      runs in turns (one event, then expiry, identity, enrolment, dispatch,
      flushes); each dispatch spawns send tasks, which encode their batches, hand
      them to the dispatcher's retry loop, resolve every record, and report back
      to the actor.  Idempotence and transactions give batches their identity; a
      transaction ends after a flush, and carries a consumer's offsets along.
    - [kafka-consume] and [kafka-read] are the consumer.  A consumer asks the leader
      of each assigned partition through an incremental fetch session, decodes the
      record batches for a visibility, and keeps a position per partition.  Where
      the assignment comes from is the caller, a KIP-848 group, whose coordinator
      computes it, or a classic group, one of whose members does, with an
      assignor; a negotiated consumer chooses between the two.  Outside any group, a
      forward scan merges the partitions of a topic by timestamp into a stream of
      events, and a backward read walks down from an anchor for the last records.

    ** The files, and the code each models

    - [Prelude]: results and [let?], machine integers with their wrap-around and
      saturation, bytes, sums, minima, grouping by key, tactics and hints.
    - [Sanitize]: [kafka-conn/src/sanitize.rs].
    - [ErrorCodes]: [ErrorCode] is [error_code.rs], [Error] is [error.rs].
    - [ApiKeys]: [ApiKey] and [ApiKeySet] are [api_key.rs], [Routing] is
      [kafka-meta/src/routing.rs], [Versions] is [versions.rs], [Gate] is the
      request gate of [kafka-conn/src/config.rs], [kafka-meta/src/cluster.rs]
      and [kafka-admin/src/ops.rs].
    - [Text]: the parts of Rust's [str] the code uses, over code points.
    - [Scram] (with [ScramFacts]): [kafka-conn/src/scram.rs].  [Sasl] (with
      [SaslFacts]): [OAuth] is [oauth.rs], [Sasl] is [sasl.rs].  [Tls] is [tls.rs].
      [Oidc]: [oidc.rs].
    - [Rpc]: [Rpc] is [kafka-conn/src/rpc.rs] with the version choice of [conn.rs],
      [Codec] is [codec.rs], [Stats] is [stats.rs].
    - [Connection]: [ConnectionConfig] is [config.rs], [Pending] and [Connection] are
      those of [conn.rs] once it is open: one [act]ion per step a call or a task can
      take.  [ConnectionFacts] has the parts of a step, [ConnectionInvariants],
      [ConnectionSessions] and [ConnectionEnds] the invariants, the turns of
      re-authentication and the way out, [ConnectionProperties] what they give.
    - [Connect] (with [ConnectFacts]): how a connection opens, the rest of [conn.rs]
      and [transport.rs].
    - [Metadata]: [kafka-meta/src/snapshot.rs], [group.rs] and the
      requests and decoding of [cluster.rs].
    - [Cluster] (with [ClusterFacts], [ClusterProperties]): [pool.rs] and [cluster.rs] of
      [kafka-meta/src], a call at a time.  [PoolSteps] (with [PoolStepsFacts]): the calls of
      [pool.rs] again, taken apart at their awaits, for any number of tasks;
      [PoolRefinement] shows that an undisturbed call is the one of [Cluster].
    - [Retry]: [kafka-meta/src/retry.rs].
    - [Effects]: calls that read and change a state and may fail, with their notation; the
      cluster handle and the admin client are written in it.
    - [Reask]: [kafka-admin/src/reask.rs].
    - [AdminTypes]: [types.rs] of [kafka-admin/src] and the data the other files
      declare, [Security] that of [security.rs].  [AdminMessages]: [Wire] has the
      requests, typed by their answers, and [Admin] is [admin.rs] with the calls and
      readings of answers that the operations share.
    - [AdminTopics]: [topics.rs], [offsets.rs], [configs.rs] and [partitions.rs].
      [AdminSizes]: [cluster_info.rs].  [AdminGroups]:
      [groups.rs] and [transactions.rs].  [AdminSecurity]: [security.rs],
      [tokens.rs] and [principal.rs].  [AdminAuthentication]: [authentication.rs].
      [AdminFacts] lists the operations with what each declares ([Operation]) and has
      the lemmas on what a call asks and answers; [AdminProperties] what they give.
    - [Partition]: [kafka-produce/src/partition.rs], with Java's [murmur2] as the
      reference it is compared with.
    - [BatchDecode] (with [BatchDecodeFacts]): [kafka-read/src/batch.rs],
      [record.rs] and [decompress.rs].
    - [Fetch] (with [FetchFacts]): [kafka-consume/src/session.rs] and
      [fetcher.rs].
    - [Coordinator]: [kafka-consume/src/coordinator.rs] and the re-asked
      [ListOffsets] of [kafka-read/src/offsets.rs].
    - [Consumer] (with [ConsumerFacts], [ConsumerProperties]):
      [kafka-consume/src/offsets.rs] and [Consumer] of [consumer.rs].
    - [Group] (with [GroupProperties]): [Membership] is [group.rs],
      [GroupConsumer] is that of [consumer.rs] with [rebalance.rs].
    - [Assignors] (with [AssignorsFacts]): the three
      assignors of [classic.rs].  [Classic] (with [ClassicFacts],
      [ClassicProperties]): [Wire] and [ClassicMembership] are the rest of
      [classic.rs], [ClassicConsumer] and [NegotiatedConsumer] those of
      [consumer.rs].
    - [Scan]: [ReadFetch] is [kafka-read/src/fetch.rs], [Scan] is [scan.rs] with
      [bounds] of [offsets.rs].  [ScanFacts] has the parts of a round and the
      induction over a stream's polls, [ScanRounds] what a round does to the
      cursors, [ScanYield], [ScanOrder] and [ScanEnds] the three invariants, and
      [ScanProperties] what they give.
    - [Backward] (with [BackwardFacts], [BackwardLog], [BackwardProperties]):
      [Tail] is [kafka-read/src/backward.rs].
    - [Idempotence], [Transactions] (with [TransactionsFacts]), [Encode],
      [Dispatch] (with [DispatchFacts]): the files of these names in
      [kafka-produce/src], [Encode] also holding [config.rs] and [record.rs].
    - [Accumulator] (with [AccumulatorFacts] and [TurnFacts]): the actor of
      [kafka-produce/src/accumulator.rs], one definition per method, up to the
      whole turn of [run].
    - [ProducerSystem] (with [ProducerSystemFacts]): the send task and the handle
      of the same file, and the step relation of the system they form with the
      actor.  [ProducerProperties] holds what that system promises.
    - [Producer]: [Producer] is [kafka-produce/src/producer.rs],
      [Front] the calls that end a transaction, at their awaits, over the producing system.
    - [ExactlyOnce]: what the four consumers of [kafka-consume/src/consumer.rs] say of
      themselves to a transactional producer ([Standalone], [Member], [ClassicMember],
      [Negotiated]), and what the producer commits for them.

    A file [XFacts], or the end of [X], holds the lemmas of [X]; a module [XProperties], at
    its end or in a file of its own, has the properties and, for each property with a
    hypothesis, a witness at a concrete input.

    ** How code becomes definitions

    A method is a function of its object that returns the object and its result;
    [Result] is [Prelude.result], [?] is [let?].  Integers are [Z] with the
    wrapping or saturation the code writes; instants and durations are
    nanoseconds, and their sums, like those of sizes in memory, have no bound, where
    Rust would panic at the end of time.  A [HashMap] is a [gmap]: the code's order of iteration is then
    the map's own, and no property depends on it.  A [BTreeMap] is one too, iterated
    in key order ([Assignor.entries]).  A channel that answers a
    caller is a number, and answering it is an entry of a list of deliveries.  An
    [async] method that calls the cluster takes the calls as functions, of a
    world that every call may change where several calls happen ([Dispatch.Net],
    [Fetch.Fetcher.Cluster]), or of the attempt ([Transactions.CallEnv],
    [Retry.Env]).

    Code that is not in the repository is a class or an argument: the decoding of
    [kafka_protocol::ResponseError] ([KafkaProtocol]) and its schema ranges
    ([Schemas]), the record batch encoder and decoder, the compression codecs
    ([RecordEncoder], [RecordCodec]), the codec of the classic group's payloads
    ([GroupCodec]), the clock, the jitter, and the brokers.
    What a theorem needs of them is a hypothesis of that theorem or of its
    section, with a witness that instantiates it: brokers that keep fetch
    sessions as KIP-227 says, codecs that honour a declared length, a clock that
    does not go back and passes while a batch is routed
    ([DispatchSpec.Clocked]).

    Sockets and brokers are a list of turns ([Connect.RawConn]), a class over a world
    ([Cluster.Network]) or the environment's actions ([Connection.Action]); rustls,
    base64, the hashes, [stringprep] and the JSON parser are the classes [Rustls],
    [Base64], [Crypto], [StringPrep] and [Json]; the form encoder, the JSON values, the
    URIs and the HTTP client of the token source [FormUrlencoded], [SerdeJson],
    [UriParser] and [Http].

    Concurrency is explicit where the code is concurrent.  [Connection.step] has one
    rule per step between two awaits of a call, the writer, the reader and the
    re-authentication task, and for deadlines, drops, the socket's failures and frames.
    [System.step] has one
    rule per thing that can happen next (a caller's append or flush, the actor's
    turn on a command, a completion, a deadline or the end of the handles, a send
    task's end), with the command and completion queues as lists; [Front.step] adds the
    callers that flush, commit and abort.  [PoolSteps.step] has one rule per step of a pool
    call between two awaits, with the lock of each slot, for calls that begin and are dropped
    and for connections that end.
    [TransactionSteps] has one step per critical section under the transaction
    lock, and the whole operations are shown to be sequences of them.  Within one
    round, requests to several leaders are made one after the other.  [turn]
    takes the transactional state as each of its phases finds it, so a change by
    another task between two phases is covered.

    ** Interfaces

    [ProducerSystem.Dispatches] is what a send task asks of a dispatcher: one
    result per batch, under its key.  The system's theorems are proved against
    it; [ProducerSystemFacts.Dispatcher] discharges it with [Dispatch.dispatch]
    over any net whose calls take time, and the witnesses of [ProducerProperties]
    run a send task on that instance.  [Sasl.SaslTransport] is what a login asks of a
    transport: [Sasl.authenticate] is written against it, and [Connect] implements it
    twice, over the bare socket and over a live connection.  [ExactlyOnce.Commits], with its
    laws [CommitsLaws], is what a consume-and-produce loop asks of its consumer; the four
    consumers are instances.  [Producer.ProducerWorld] is what is around the producer's handle:
    the cluster, the random draw, the accumulator and the coordinators.  [Rpc.Messages] and
    [Connect.HandshakeMessages] are the message codecs, and [ConnectionWire.HeaderLaws] what
    is relied on of them: a header carries the id it was encoded with.
    [AdminMessages.AdminCluster] is what an admin operation asks of a cluster handle, and
    [Reask.Pacing], with the laws [Reask.ReaskFacts.PacingLaws], what the re-ask asks of a clock:
    the theorems on the admin client hold whatever a cluster answers.
    [ClusterFacts.Clock] and [ClusterFacts.Dialled] are what is relied on of
    [Cluster.Network]: time passes, and a connection is for whom it was dialled.  [ClassicFacts.GroupCodecLaws] is what is relied
    on of [GroupCodec]: a payload decodes to what was encoded.  [RecordCodec],
    [RecordEncoder], [KafkaProtocol] and [Schemas] are the other interfaces to
    third-party code.

    ** What the theorems show

    - The producing system: every accepted record is in one place until it is
      resolved, exactly once; order is kept per partition; one batch per partition
      is in flight; memory and batch bounds hold in every reachable state; an
      append never waits for memory that cannot exist; a flush is answered only
      when everything before it is resolved; the actor always has a deadline to
      wake for; batches are stamped with contiguous sequence numbers, and their
      records are told the offsets the broker assigned.
    - One connection: an answer reaches the call it answers, a dead connection
      lets every call go, permits are neither lost nor made up, what is written is
      permitted and at the highest common version, and a re-authentication has the
      socket to itself.  Opening one sends the handshake in its order and no password in
      the clear; the SCRAM login is mutual and its messages carry the credential as
      it was configured; the trust anchors are the configured ones.
    - The token source: a token that is handed out is one its endpoint sent and has not
      expired by the endpoint's word, a valid one is reused without asking, the client secret goes nowhere in the
      clear that was not opted into, and what an endpoint answers to is bounded.
    - The pool: however calls interleave and are dropped, a slot has one live connection
      and one connection attempt at most, attempts keep the distance that failures set, and
      every call comes back.
    - The cluster handle: a call comes back, and a request goes to the broker that the
      metadata names; the name a broker is verified under is the one it advertised,
      and a targeted refresh keeps the rest.
    - The admin client: an operation hands the cluster only reads and what its constant in
      [ops.rs] declares, and to whom the routing table wants it; every item that is
      given is answered, by the last round that asked for it, where rounds answer what they
      are asked, and the re-ask ends; a
      reset commits only to a group that was just described as empty; a credential that
      was written is found for its user and logs in; an exact filter names what was described; the size of a topic is the sum
      of its copies; and a verdict on how a principal logs in names what is offered and
      stored.
    - Dispatching: the retry loop ends with one result per batch, and without
      idempotence an ambiguous failure is never repeated.
    - Transactions: fencing is permanent, an open transaction has an identity,
      enrolment is all or nothing, ending adopts the next identity, and the
      re-asked coordinator call returns within its budget.  A transaction is ended only
      when every record accepted before is resolved, and the offsets that travel with it are
      those the consumer would commit itself, under the same membership.
    - The producer's handle: an accepted record goes to a partition that the topic has,
      the one it names, its key's, or the sticky one.
    - Reading: the aborted-span walk computes the committed view of the log wherever a
      fetch cuts it off, the header peek inverts the wire layout, decoding any bytes ends, a truncated
      tail costs one batch, decompression stays within its limit; the incremental
      fetch session refines a full fetch from its opening until a fetch fails on it.
    - Consuming: each partition delivers rising offsets from its position on, strictly
      until the position saturates, only assigned partitions deliver, a reassignment moves exactly what it says, and a
      commit carries the positions.
    - Groups: a KIP-848 member acknowledges only what it has revoked and announces
      what it revokes; a classic leader's answer covers the group, each partition
      once but for those a cooperative round withholds, whatever the order of its members,
      and never hands over a partition that is still owned; a classic consumer reads what it was answered, lets go when it
      is evicted, and is chosen instead of a KIP-848 one only before joining.
    - Scans: a scan yields what was asked, up to its limit and nothing after its end;
      within a partition in log order, and across partitions by timestamp while
      the reorder window is 0; a browse ends.  A backward read returns whatever the
      leaders answer, within its limit, and gives the newest records of a log.
    - The shared pieces: negotiation, gates, error taxonomy, the backoff curve
      and the re-ask loop, sequence arithmetic, the partitioner.
    - Some theorems and examples state where the code departs from what it means to
      do: [failed_fetch_keeps_claim], [last_offset_again], [answers_ignore_topics],
      [appended_rejection_is_resent], [refusal_never_names_partition],
      [straggler_survives_reset], [corrupt_batch_is_reread],
      [aborted_run_holds_position], [unstable_offset_starts_over],
      [buffered_records_are_lost], [lost_membership_keeps_reading],
      [unknown_topics_revoke_everything], [balance_stops_early],
      [others_topics_are_unassigned], [protocol_switch_is_silent],
      [eager_eviction_announces_twice], [pinned_consumer_is_downgraded],
      [failed_downgrade_loses_the_listener], [compacted_tail_is_yielded_again],
      [empty_answer_ends_a_partition], [small_budget_misorders_silently],
      [browse_chases_the_end], [tail_repeats_a_compacted_batch],
      [tail_stops_at_a_control_batch], [no_further_page_not_reported],
      [refused_topic_is_empty], [zero_step_panics],
      [new_leader_waits_for_a_full_refresh], [last_handle_keeps_the_socket],
      [no_deadline_in_the_queue], [permits_do_not_count_late_requests],
      [dropped_in_the_queue], [short_session_ends_first],
      [late_failure_forgets_successes], [failed_listing_passes_the_guard],
      [unknown_types_widen_a_filter], [counts_no_login_accepts_are_written],
      [commit_without_its_record], [refused_topic_has_no_partitions],
      [body_outlives_the_timeout], [relearnt_broker_has_two_connections],
      [moved_broker_keeps_its_connection], [close_leaves_a_connection],
      [eviction_closes_the_new_connection], [dropped_attempt_sets_no_pause].

    ** Fuel

    Some loops take fuel, and each has a theorem that enough fuel exists.
    [Batch.decode_partition] passes the buffer's length plus one, and every
    iteration consumes a batch of at least its prefix ([decode_always_returns]).
    [Retry.reask] needs more fuel than the attempt whose clock is past the budget
    ([reask_returns]).  [Dispatch.dispatch] needs one unit per nanosecond left
    before the latest deadline, as every round that goes on takes time
    ([dispatch_resolves_every_batch]).  [Cluster.dispatch] needs one for each
    attempt the policy counts and each nanosecond of the coordinator's time, twice, as
    the search for a coordinator is a loop of its own ([dispatch_returns]).
    [Reask.per_item_retrying] needs one for each nanosecond of its budget
    ([reask_comes_back]).  The pages of [Topics.describe_topics] have no bound in the code
    either: a broker that repeats a cursor is asked for ever, so there fuel stands for the
    pages a broker answers with.   [Scan.next_event] needs a round for every offset
    a browse still has to ask for and every record it buffers ([browse_ends]; a scan
    that follows has no such bound), and [Tail.tail] the offsets of its windows and
    a round per partition ([tail_returns]).  The bounds of the code itself are kept as
    they are: the six cycles of a classic poll, and twice the partitions as the
    rounds of balancing.

    ** Not modelled

    The reads and writes of sockets, [Debug] output, the command-line live tests
    ([livetest], [interop]) and the test harness ([testkit], [testkit-macros]) are left
    out.  Tracing and metrics are dropped.  Poisoning of the transaction lock is a flag; other
    locks are not poisoned.  A cancelled future is modelled for the calls of a
    connection ([Connection.drop_step]) and of the pool ([PoolSteps.dropped]) and where it
    leaves what an error at the same await leaves ([GroupRun.reachable]), not elsewhere.
    Above the pool the calls of a cluster handle run one at a time: how two refreshes of
    the metadata interleave is not modelled.  The HTTP client of the token source
    is one exchange after the other, as its lock has it.  Requests of the admin client have no
    wire format; quotas' values are opaque. *)

From stdpp Require Export base tactics option list gmap strings fin_maps fin_sets sorting pretty.
From Stdlib Require Export ZArith Lia.
From Stdlib Require Export Strings.Byte.

Open Scope Z_scope.

(** ** Results

    Rust's [Result<T, E>], with the early return of [?] as a notation. *)

Inductive result (T E : Type) : Type :=
  | Ok (value : T)
  | Err (error : E).
Arguments Ok {T E} value.
Arguments Err {T E} error.

Declare Scope kaas_scope.
Delimit Scope kaas_scope with kaas.

Definition result_bind {T U E} (r : result T E) (k : T -> result U E) : result U E :=
  match r with
  | Ok value => k value
  | Err error => Err error
  end.

Notation "'let?' x ':=' r 'in' k" := (result_bind r (fun x => k))
  (at level 10, x pattern, r at level 200, k at level 200) : kaas_scope.
Open Scope kaas_scope.

(** [Option::ok_or_else]. *)
Definition ok_or {T E} (o : option T) (e : E) : result T E :=
  match o with
  | Some value => Ok value
  | None => Err e
  end.

Definition is_ok {T E} (r : result T E) : bool :=
  match r with Ok _ => true | Err _ => false end.

#[export] Instance result_eq_dec {T E} `{EqDecision T, EqDecision E} : EqDecision (result T E).
Proof. solve_decision. Defined.

(** ** Machine integers

    A fixed-width integer is a [Z]; each operation of the source that wraps or
    saturates is written out with the bound it wraps or saturates at. [usize]
    is 64 bits wide. *)

Definition I16_MAX : Z := 2 ^ 15 - 1.
Definition I32_MAX : Z := 2 ^ 31 - 1.
Definition I32_MIN : Z := - 2 ^ 31.
Definition I64_MAX : Z := 2 ^ 63 - 1.
Definition I64_MIN : Z := - 2 ^ 63.
Definition U32_MAX : Z := 2 ^ 32 - 1.
Definition USIZE_MAX : Z := 2 ^ 64 - 1.

Definition in_i16 (z : Z) : Prop := - 2 ^ 15 <= z <= I16_MAX.
Definition in_i32 (z : Z) : Prop := I32_MIN <= z <= I32_MAX.
Definition in_i64 (z : Z) : Prop := I64_MIN <= z <= I64_MAX.
Definition in_u32 (z : Z) : Prop := 0 <= z <= U32_MAX.
Definition in_usize (z : Z) : Prop := 0 <= z <= USIZE_MAX.

(** Two's complement reinterpretation of the low 32 bits, and the wrapping and
    saturating operations built on it. *)
Definition i32_wrap (z : Z) : Z := (z + 2 ^ 31) mod 2 ^ 32 - 2 ^ 31.
Definition u32_wrap (z : Z) : Z := z mod 2 ^ 32.
Definition i64_wrap (z : Z) : Z := (z + 2 ^ 63) mod 2 ^ 64 - 2 ^ 63.
Definition clamp (lo hi z : Z) : Z := Z.max lo (Z.min z hi).

Definition i32_wrapping_add (a b : Z) : Z := i32_wrap (a + b).
Definition i32_saturating_add (a b : Z) : Z := clamp I32_MIN I32_MAX (a + b).
Definition i32_saturating_sub (a b : Z) : Z := clamp I32_MIN I32_MAX (a - b).
Definition i64_saturating_add (a b : Z) : Z := clamp I64_MIN I64_MAX (a + b).
Definition U64_MAX : Z := 2 ^ 64 - 1.
Definition u64_saturating_add (a b : Z) : Z := clamp 0 U64_MAX (a + b).
Definition i64_saturating_sub (a b : Z) : Z := clamp I64_MIN I64_MAX (a - b).
Definition u32_saturating_add (a b : Z) : Z := Z.min (a + b) U32_MAX.
Definition u32_saturating_sub (a b : Z) : Z := Z.max 0 (a - b).
Definition usize_saturating_add (a b : Z) : Z := Z.min (a + b) USIZE_MAX.
Definition usize_saturating_sub (a b : Z) : Z := Z.max 0 (a - b).
Definition u32_wrapping_mul (a b : Z) : Z := u32_wrap (a * b).

(** [i32::try_from(n).unwrap_or(d)] and its siblings, for a source that is
    never below the target's range. *)
Definition try_from_or (bound default n : Z) : Z := if n <=? bound then n else default.

Lemma i32_wrap_range z : in_i32 (i32_wrap z).
Proof. unfold in_i32, i32_wrap, I32_MIN, I32_MAX. pose proof (Z.mod_pos_bound (z + 2 ^ 31) (2 ^ 32)). lia. Qed.

Lemma i32_wrap_small z : in_i32 z -> i32_wrap z = z.
Proof. unfold in_i32, i32_wrap, I32_MIN, I32_MAX. intros H. rewrite Z.mod_small; lia. Qed.

Lemma i32_wrap_add_l a b : i32_wrap (i32_wrap a + b) = i32_wrap (a + b).
Proof.
  unfold i32_wrap. f_equal.
  replace ((a + 2 ^ 31) mod 2 ^ 32 - 2 ^ 31 + b + 2 ^ 31)
    with ((a + 2 ^ 31) mod 2 ^ 32 + b) by lia.
  rewrite Zplus_mod_idemp_l. f_equal. lia.
Qed.

Lemma i32_wrap_cong a b : u32_wrap a = u32_wrap b -> i32_wrap a = i32_wrap b.
Proof.
  unfold u32_wrap, i32_wrap. intros H. f_equal.
  rewrite <- (Zplus_mod_idemp_l a), H, Zplus_mod_idemp_l. done.
Qed.

Lemma u32_of_i32_wrap z : u32_wrap (i32_wrap z) = u32_wrap z.
Proof.
  unfold u32_wrap, i32_wrap. rewrite Zminus_mod_idemp_l. f_equal. lia.
Qed.

Lemma u32_wrap_range z : in_u32 (u32_wrap z).
Proof. unfold in_u32, u32_wrap, U32_MAX. pose proof (Z.mod_pos_bound z (2 ^ 32)). lia. Qed.

Lemma clamp_small lo hi z : lo <= z <= hi -> clamp lo hi z = z.
Proof. unfold clamp. lia. Qed.

Lemma clamp_range lo hi z : lo <= hi -> lo <= clamp lo hi z <= hi.
Proof. unfold clamp. lia. Qed.

(** ** Bytes *)

Abbreviation bytes := (list Byte.byte).

#[export] Instance byte_eq_dec : EqDecision Byte.byte := Byte.byte_eq_dec.

Definition b2z (b : Byte.byte) : Z := Z.of_N (Byte.to_N b).

Lemma b2z_range b : 0 <= b2z b < 256.
Proof. unfold b2z. pose proof (Byte.to_N_bounded b). lia. Qed.

(** The byte with a given value; values past 255 keep their low eight bits. *)
Definition z2b (z : Z) : Byte.byte :=
  default Byte.x00 (Byte.of_N (Z.to_N (z mod 256))).

Lemma b2z_z2b z : b2z (z2b z) = z mod 256.
Proof.
  unfold b2z, z2b. pose proof (Z.mod_pos_bound z 256 ltac:(lia)) as Hb.
  destruct (Byte.of_N (Z.to_N (z mod 256))) as [b|] eqn:E; simpl.
  - apply Byte.to_of_N in E. rewrite E. lia.
  - apply Byte.of_N_None_iff in E. lia.
Qed.

Lemma z2b_b2z b : z2b (b2z b) = b.
Proof.
  unfold z2b. rewrite Z.mod_small by apply b2z_range.
  unfold b2z. rewrite N2Z.id, Byte.of_to_N. done.
Qed.

#[export] Program Instance byte_countable : Countable Byte.byte :=
  inj_countable' b2z z2b z2b_b2z.

(** ** Lists *)

Definition sum_with {A} (f : A -> Z) (l : list A) : Z := foldr (fun x acc => f x + acc) 0 l.

Lemma sum_with_app {A} (f : A -> Z) l1 l2 :
  sum_with f (l1 ++ l2) = sum_with f l1 + sum_with f l2.
Proof. unfold sum_with. induction l1; simpl in *; lia. Qed.

Lemma sum_with_nonneg {A} (f : A -> Z) l : (forall x, 0 <= f x) -> 0 <= sum_with f l.
Proof. intros Hf. unfold sum_with. induction l as [|x l IH]; simpl; [lia|]. specialize (Hf x). lia. Qed.

Lemma sum_with_snoc {A} (f : A -> Z) l x : sum_with f (l ++ [x]) = sum_with f l + f x.
Proof. rewrite sum_with_app. unfold sum_with. simpl. lia. Qed.

(** The smallest element: [Iterator::min]. *)
Definition list_min (l : list Z) : option Z :=
  match l with
  | [] => None
  | x :: l => Some (foldr Z.min x l)
  end.

Lemma list_min_spec l m :
  list_min l = Some m -> m ∈ l /\ Forall (fun x => m <= x) l.
Proof.
  destruct l as [|x l]; simpl; [done|]. intros [= <-].
  induction l as [|y l IH]; simpl.
  - split; [left|]. constructor; [lia|constructor].
  - destruct IH as [Hin Hall]. inversion Hall as [|? ? Hx Hl]; subst. split.
    + destruct (Z.min_spec y (foldr Z.min x l)) as [[_ ->]|[_ ->]].
      * right. left.
      * apply list_elem_of_In in Hin. apply list_elem_of_In. simpl in *. tauto.
    + constructor; [lia|]. constructor; [lia|].
      eapply Forall_impl; [exact Hl|]. simpl. lia.
Qed.

Lemma list_min_None l : list_min l = None <-> l = [].
Proof. destruct l; simpl; split; done. Qed.

Lemma list_filter_all {A} (P : A -> Prop) `{!forall x, Decision (P x)} l :
  Forall P l -> filter P l = l.
Proof. induction 1; [done|]. rewrite filter_cons_True by done. by f_equal. Qed.

Lemma list_filter_none {A} (P : A -> Prop) `{!forall x, Decision (P x)} l :
  Forall (fun x => ~ P x) l -> filter P l = [].
Proof. induction 1; [done|]. by rewrite filter_cons_False. Qed.

Lemma flat_map_nil {A B} (f : A -> list B) l : flat_map f l = [] <-> Forall (fun x => f x = []) l.
Proof.
  induction l as [|x l IH]; simpl; [split; [constructor|done]|].
  rewrite Forall_cons, <- IH. split; [apply app_eq_nil|]. by intros [-> ->].
Qed.

(** ** Grouping

    A [HashMap] from a topic to a [Vec], filled one entry at a time. *)

(** [map.entry(key).or_default().push(value)]. *)
Definition push_to {K A} `{Countable K} (m : gmap K (list A)) (key : K) (value : A)
    : gmap K (list A) :=
  partial_alter (fun l => Some (default [] l ++ [value])) key m.

(** The entries of the groups. *)
Section group.
Context {K A : Type} `{Countable K}.

Definition flat (m : gmap K (list A)) : list (K * A) :=
  flat_map (fun '(k, l) => map (pair k) l) (map_to_list m).

Lemma flat_empty : flat ∅ = [].
Proof. unfold flat. by rewrite map_to_list_empty. Qed.

Lemma flat_insert m k l : m !! k = None -> flat (<[k := l]> m) ≡ₚ map (pair k) l ++ flat m.
Proof. intros Hk. unfold flat. rewrite map_to_list_insert by done. done. Qed.

Lemma flat_push m k x : flat (push_to m k x) ≡ₚ flat m ++ [(k, x)].
Proof.
  assert (Hp : push_to m k x = <[k := default [] (m !! k) ++ [x]]> (delete k m)).
  { unfold push_to. apply map_eq. intros j. destruct (decide (j = k)) as [->|Hj].
    - by rewrite lookup_partial_alter, lookup_insert_eq, decide_True.
    - by rewrite lookup_partial_alter_ne, lookup_insert_ne, lookup_delete_ne. }
  rewrite Hp, flat_insert, map_app by apply lookup_delete_eq.
  destruct (m !! k) as [l|] eqn:E.
  - rewrite <- (insert_delete_id m k l E) at 2.
    rewrite flat_insert by apply lookup_delete_eq. simpl. solve_Permutation.
  - rewrite delete_id by done. simpl. solve_Permutation.
Qed.

Lemma flat_foldl {B} (step : gmap K (list A) -> B -> gmap K (list A))
    (key : B -> K) (val : B -> A) l :
  (forall m x, step m x = push_to m (key x) (val x)) ->
  forall m, flat (foldl step m l) ≡ₚ flat m ++ map (fun x => (key x, val x)) l.
Proof.
  intros Hstep. induction l as [|x l IH]; intros m; cbn [foldl map]; [by rewrite app_nil_r|].
  rewrite IH, Hstep, flat_push. solve_Permutation.
Qed.

End group.

(** The smallest of a list is there when the list has an element, and is below it. *)
Lemma list_min_le l x : x ∈ l -> exists m, list_min l = Some m /\ m <= x.
Proof.
  intros Hin. destruct (list_min l) as [m|] eqn:E.
  - exists m. split; [done|]. apply list_min_spec in E as [_ Hall].
    rewrite Forall_forall in Hall. by apply Hall.
  - apply list_min_None in E. subst. by apply elem_of_nil in Hin.
Qed.

(** A sum over a list, one entry of which changes. *)
Lemma sum_insert {A} (f : A -> nat) (l : list A) i x y :
  l !! i = Some x -> (sum_list_with f (<[i := y]> l) + f x = sum_list_with f l + f y)%nat.
Proof.
  revert i. induction l as [|z l IH]; intros [|i] Hi; simplify_eq/=; [lia|].
  specialize (IH _ Hi). lia.
Qed.

(** ** Automation shared by the components *)

(** Splits every boolean or option test the goal branches on. *)
Ltac branch := repeat (case_match || case_decide); simplify_eq/=.

Create HintDb kaas.
Create Rewrite HintDb kaas.
#[export] Hint Resolve i32_wrap_range u32_wrap_range b2z_range : kaas.
#[export] Hint Rewrite @sum_with_app @sum_with_snoc : kaas.
