(* ===== verification/Sanitize.v ===== *)
(** Escaping of untrusted text before it reaches a log line
    ([crates/kafka-conn/src/sanitize.rs]).

    A Rust [str] is modelled by the list of its characters, a character by its
    Unicode scalar value. *)

From S2P Require Import Prelude.

Abbreviation text := (list Z).

(** The characters of an ASCII literal. *)
Definition text_of_string (s : string) : text :=
  map (fun a => Z.of_nat (Ascii.nat_of_ascii a)) (String.list_ascii_of_string s).

(** [char::is_control]: Unicode's [Cc] category. *)
Definition is_control (c : Z) : bool := (c <? 32) || ((127 <=? c) && (c <=? 159)).

(** One lowercase hexadecimal digit. *)
Definition hex_digit (d : Z) : Z := if d <? 10 then 48 + d else 87 + d.

(** The shortest lowercase hexadecimal numeral of a scalar value; a scalar
    value has at most six digits. *)
Fixpoint hex_digits (fuel : nat) (z : Z) : text :=
  match fuel with
  | O => []
  | S fuel =>
      if z <? 16 then [hex_digit z] else hex_digits fuel (z / 16) ++ [hex_digit (z mod 16)]
  end.

(** [char::escape_unicode]: a backslash, [u], and the numeral in braces. *)
Definition escape_unicode (c : Z) : text := [92; 117; 123] ++ hex_digits 6 c ++ [125].

(** [char::escape_default]. *)
Definition escape_default (c : Z) : text :=
  if c =? 9 then [92; 116]
  else if c =? 13 then [92; 114]
  else if c =? 10 then [92; 110]
  else if (c =? 39) || (c =? 34) || (c =? 92) then [92; c]
  else if (32 <=? c) && (c <=? 126) then [c]
  else escape_unicode c.

(** [control_safe]: the clean path borrows, the other rewrites each control
    character to its escape. *)
Definition control_safe (s : text) : text :=
  if negb (existsb is_control s) then s
  else concat (map (fun c => if is_control c then escape_default c else [c]) s).

Definition scalar (c : Z) : Prop := 0 <= c <= 1114111.

Lemma hex_digit_printable d : 0 <= d < 16 -> is_control (hex_digit d) = false.
Proof. intros H. unfold hex_digit, is_control. destruct (d <? 10) eqn:?; lia. Qed.

Lemma hex_digits_printable fuel z :
  0 <= z -> Forall (fun c => is_control c = false) (hex_digits fuel z).
Proof.
  revert z. induction fuel as [|fuel IH]; intros z Hz; simpl; [constructor|].
  destruct (z <? 16) eqn:E.
  - constructor; [apply hex_digit_printable; lia|constructor].
  - apply Forall_app. split; [apply IH; apply Z.div_pos; lia|].
    constructor; [|constructor]. apply hex_digit_printable. apply Z.mod_pos_bound. lia.
Qed.

Lemma escape_default_printable c :
  0 <= c -> Forall (fun c => is_control c = false) (escape_default c).
Proof.
  intros Hc. unfold escape_default, escape_unicode.
  repeat case_match; repeat (constructor; [unfold is_control; lia|]); try constructor.
  apply Forall_app. split; [by apply hex_digits_printable|].
  constructor; [done|constructor].
Qed.

Lemma existsb_is_control_false s :
  existsb is_control s = false <-> Forall (fun c => is_control c = false) s.
Proof.
  induction s as [|c s IH]; simpl; [split; [constructor|done]|].
  rewrite orb_false_iff, IH, Forall_cons. done.
Qed.

Lemma control_safe_clean s :
  Forall (fun c => is_control c = false) s -> control_safe s = s.
Proof. intros H. unfold control_safe. apply existsb_is_control_false in H. by rewrite H. Qed.

Lemma control_safe_no_control s :
  Forall (fun c => 0 <= c) s -> Forall (fun c => is_control c = false) (control_safe s).
Proof.
  intros Hs. unfold control_safe. destruct (existsb is_control s) eqn:E; simpl.
  - clear E. induction Hs as [|c s Hc _ IH]; simpl; [constructor|].
    apply Forall_app. split; [|done].
    destruct (is_control c) eqn:Ec; [by apply escape_default_printable|].
    constructor; [done|constructor].
  - by apply existsb_is_control_false.
Qed.

Lemma control_safe_idempotent s :
  Forall (fun c => 0 <= c) s -> control_safe (control_safe s) = control_safe s.
Proof. intros Hs. by apply control_safe_clean, control_safe_no_control. Qed.

(** The audit's example: ["ok" ESC "[2Jha" BEL] renders inert and visible. *)
Example control_safe_ansi :
  control_safe [111; 107; 27; 91; 50; 74; 104; 97; 7]
  = [111; 107; 92; 117; 123; 49; 98; 125; 91; 50; 74; 104; 97; 92; 117; 123; 55; 125].
Proof. reflexivity. Qed.
