(* ===== verification/Text.v ===== *)
(** Rust's [str] as the code uses it: UTF-8, splitting at a character, replacing
    a character, and parsing an unsigned integer (the Standard Library of Rust,
    used by [crates/kafka-conn/src/scram.rs], [sasl.rs], [oauth.rs] and
    [conn.rs]).

    A [str] is the list of its characters ([Sanitize.text]); its bytes are its
    UTF-8 encoding. *)

From S2P Require Import Prelude Sanitize.

Module Utf8.

(** A Unicode scalar value, which is what a [char] is. *)
Definition is_scalar (c : Z) : bool :=
  ((0 <=? c) && (c <? 55296)) || ((57344 <=? c) && (c <=? 1114111)).

Definition valid (s : text) : Prop := Forall (fun c => is_scalar c = true) s.

(** The bytes of one character. *)
Definition encode_char (c : Z) : list Z :=
  if c <? 128 then [c]
  else if c <? 2048 then [192 + c / 64; 128 + c mod 64]
  else if c <? 65536 then [224 + c / 4096; 128 + c / 64 mod 64; 128 + c mod 64]
  else [240 + c / 262144; 128 + c / 4096 mod 64; 128 + c / 64 mod 64; 128 + c mod 64].

Definition encode (s : text) : list Z := concat (map encode_char s).

(** [str::as_bytes]. *)
Definition as_bytes (s : text) : bytes := map z2b (encode s).

(** [str::len]: in bytes. *)
Definition len (s : text) : Z := Z.of_nat (length (as_bytes s)).

(** A continuation byte. *)
Definition is_cont (b : Z) : bool := (128 <=? b) && (b <? 192).

(** The second bytes that may follow the first byte of a three- or four-byte
    character: neither an overlong form nor a surrogate, nor past the last
    scalar value. *)
Definition second_of_three (first b : Z) : bool :=
  if first =? 224 then (160 <=? b) && (b <? 192)
  else if first =? 237 then (128 <=? b) && (b <? 160)
  else is_cont b.
Definition second_of_four (first b : Z) : bool :=
  if first =? 240 then (144 <=? b) && (b <? 192)
  else if first =? 244 then (128 <=? b) && (b <? 144)
  else is_cont b.

(** What the validation of the standard library finds at the front of some bytes:
    a character, or a maximal part of an invalid one ([None]); and what is left. *)
Definition next_char (first : Z) (rest : list Z) : option Z * list Z :=
  if first <? 128 then (Some first, rest)
  else if first <? 194 then (None, rest)
  else if first <? 224 then
    match rest with
    | b1 :: r1 => if is_cont b1 then (Some ((first - 192) * 64 + (b1 - 128)), r1) else (None, rest)
    | [] => (None, rest)
    end
  else if first <? 240 then
    match rest with
    | b1 :: r1 =>
        if second_of_three first b1 then
          match r1 with
          | b2 :: r2 =>
              if is_cont b2
              then (Some ((first - 224) * 4096 + (b1 - 128) * 64 + (b2 - 128)), r2)
              else (None, r1)
          | [] => (None, r1)
          end
        else (None, rest)
    | [] => (None, rest)
    end
  else if first <? 245 then
    match rest with
    | b1 :: r1 =>
        if second_of_four first b1 then
          match r1 with
          | b2 :: r2 =>
              if is_cont b2 then
                match r2 with
                | b3 :: r3 =>
                    if is_cont b3
                    then (Some ((first - 240) * 262144 + (b1 - 128) * 4096
                                + (b2 - 128) * 64 + (b3 - 128)), r3)
                    else (None, r2)
                | [] => (None, r2)
                end
              else (None, r1)
          | [] => (None, r1)
          end
        else (None, rest)
    | [] => (None, rest)
    end
  else (None, rest).

(** The characters of some bytes, and where they are invalid; fuelled by their
    number, as each step takes a byte. *)
Fixpoint chunks (fuel : nat) (l : list Z) : list (option Z) :=
  match fuel, l with
  | S fuel, first :: rest => let '(c, rest) := next_char first rest in c :: chunks fuel rest
  | _, _ => []
  end.

Definition decode (b : bytes) : list (option Z) := chunks (length b) (map b2z b).

(** [str::from_utf8], and [String::from_utf8_lossy] with its replacement
    character. *)
Definition from_utf8 (b : bytes) : option text := mapM id (decode b).
Definition from_utf8_lossy (b : bytes) : text := map (default 65533) (decode b).

End Utf8.

Module Str.

(** [str::split] at a character: at least one piece. *)
Fixpoint split (sep : Z) (s : text) : list text :=
  match s with
  | [] => [[]]
  | c :: s =>
      if c =? sep then [] :: split sep s
      else match split sep s with
           | piece :: pieces => (c :: piece) :: pieces
           | [] => [[c]]
           end
  end.

(** [join]. *)
Fixpoint join (sep : text) (pieces : list text) : text :=
  match pieces with
  | [] => []
  | [piece] => piece
  | piece :: pieces => piece ++ sep ++ join sep pieces
  end.

(** [str::replace] of one character. *)
Definition replace (from : Z) (to : text) (s : text) : text :=
  concat (map (fun c => if c =? from then to else [c]) s).

(** [str::contains] of a character. *)
Definition contains (s : text) (c : Z) : bool := existsb (Z.eqb c) s.

(** [str::starts_with]. *)
Fixpoint starts_with (s prefix : text) {struct prefix} : bool :=
  match prefix, s with
  | [], _ => true
  | p :: prefix, c :: s => (c =? p) && starts_with s prefix
  | _ :: _, [] => false
  end.

Definition is_ascii_alphabetic (c : Z) : bool :=
  ((65 <=? c) && (c <=? 90)) || ((97 <=? c) && (c <=? 122)).
Definition is_ascii_digit (c : Z) : bool := (48 <=? c) && (c <=? 57).
Definition is_ascii_alphanumeric (c : Z) : bool := is_ascii_alphabetic c || is_ascii_digit c.
Definition to_ascii_lowercase (s : text) : text :=
  map (fun c => if (65 <=? c) && (c <=? 90) then c + 32 else c) s.
Definition eq_ignore_ascii_case (a b : text) : bool :=
  bool_decide (to_ascii_lowercase a = to_ascii_lowercase b).

(** A [str] as the bytes of a Rocq string. *)
Definition string_of_text (s : text) : string :=
  String.string_of_list_byte (Utf8.as_bytes s).

(** [ParseIntError]. *)
Inductive ParseIntError := Empty | InvalidDigit | PosOverflow.

#[export] Instance ParseIntError_eq_dec : EqDecision ParseIntError.
Proof. solve_decision. Defined.

Definition display_parse_error (e : ParseIntError) : text :=
  text_of_string
    match e with
    | Empty => "cannot parse integer from empty string"
    | InvalidDigit => "invalid digit found in string"
    | PosOverflow => "number too large to fit in target type"
    end.

(** The digits of an unsigned integer of at most [bound], from the left. *)
Fixpoint parse_digits (bound acc : Z) (s : text) : result Z ParseIntError :=
  match s with
  | [] => Ok acc
  | c :: s =>
      if negb (is_ascii_digit c) then Err InvalidDigit
      else
        let value := acc * 10 + (c - 48) in
        if bound <? value then Err PosOverflow else parse_digits bound value s
  end.

(** [str::parse::<u32>]: an optional plus sign, then digits. *)
Definition parse_u32 (s : text) : result Z ParseIntError :=
  match s with
  | [] => Err Empty
  | [c] => if (c =? 43) || (c =? 45) then Err InvalidDigit else parse_digits U32_MAX 0 s
  | 43 :: digits => parse_digits U32_MAX 0 digits
  | _ => parse_digits U32_MAX 0 s
  end.

(** [str::parse::<u64>]. *)
Definition parse_u64 (s : text) : result Z ParseIntError :=
  match s with
  | [] => Err Empty
  | [c] => if (c =? 43) || (c =? 45) then Err InvalidDigit else parse_digits U64_MAX 0 s
  | 43 :: digits => parse_digits U64_MAX 0 digits
  | _ => parse_digits U64_MAX 0 s
  end.

(** [str::trim]: the white space of Unicode. *)
Definition is_whitespace (c : Z) : bool :=
  ((9 <=? c) && (c <=? 13)) || existsb (Z.eqb c) [32; 133; 160; 5760; 8232; 8233; 8239; 8287; 12288]
  || ((8192 <=? c) && (c <=? 8202)).
Fixpoint trim_start (s : text) : text :=
  match s with [] => [] | c :: rest => if is_whitespace c then trim_start rest else s end.
Definition trim (s : text) : text := rev (trim_start (rev (trim_start s))).

(** [Display] of an integer. *)
Definition display_int (z : Z) : text := text_of_string (pretty z).

End Str.

(** ** Lemmas *)

Module TextFacts.
Import Utf8 Str.

(** A decidable fact about closed data. *)
Ltac by_evaluation :=
  refine (bool_decide_unpack _ _); vm_compute; exact I.

(** [lia] with division and remainder by constants. *)
Ltac div_lia := Z.to_euclidean_division_equations; lia.

Lemma is_cont_mod z : is_cont (128 + z mod 64) = true.
Proof. unfold is_cont. pose proof (Z.mod_pos_bound z 64). lia. Qed.

Lemma encode_char_bytes c : is_scalar c = true -> Forall (fun b => 0 <= b < 256) (encode_char c).
Proof.
  unfold is_scalar, encode_char. intros Hc.
  repeat case_match; repeat constructor; div_lia.
Qed.

(** Decoding finds the character that was encoded, and nothing more. *)
Lemma next_char_encoded c rest :
  is_scalar c = true ->
  match encode_char c ++ rest with
  | first :: tail => next_char first tail = (Some c, rest)
  | [] => False
  end.
Proof.
  unfold is_scalar, encode_char. intros Hc.
  destruct (c <? 128) eqn:E1; [unfold next_char; simpl; by rewrite E1|].
  destruct (c <? 2048) eqn:E2; simpl; [|destruct (c <? 65536) eqn:E3; simpl].
  - unfold next_char. rewrite is_cont_mod.
    rewrite (proj2 (Z.ltb_ge _ 128)), (proj2 (Z.ltb_ge _ 194)), (proj2 (Z.ltb_lt _ 224)) by div_lia.
    repeat f_equal. div_lia.
  - unfold next_char.
    assert (second_of_three (224 + c / 4096) (128 + c / 64 mod 64) = true) as ->.
    { unfold second_of_three. destruct (_ =? 224) eqn:?; [div_lia|].
      destruct (_ =? 237) eqn:?; [div_lia|apply is_cont_mod]. }
    rewrite (proj2 (Z.ltb_ge _ 128)), (proj2 (Z.ltb_ge _ 194)), (proj2 (Z.ltb_ge _ 224)),
      (proj2 (Z.ltb_lt _ 240)) by div_lia.
    rewrite is_cont_mod. repeat f_equal. div_lia.
  - unfold next_char.
    assert (second_of_four (240 + c / 262144) (128 + c / 4096 mod 64) = true) as ->.
    { unfold second_of_four. destruct (_ =? 240) eqn:?; [div_lia|].
      destruct (_ =? 244) eqn:?; [div_lia|apply is_cont_mod]. }
    rewrite (proj2 (Z.ltb_ge _ 128)), (proj2 (Z.ltb_ge _ 194)), (proj2 (Z.ltb_ge _ 224)),
      (proj2 (Z.ltb_ge _ 240)), (proj2 (Z.ltb_lt _ 245)) by div_lia.
    rewrite !is_cont_mod. repeat f_equal. div_lia.
Qed.

Lemma encode_char_nonempty c : (1 <= length (encode_char c))%nat.
Proof. unfold encode_char. repeat case_match; simpl; lia. Qed.

Lemma chunks_encode s fuel :
  valid s -> (length (encode s) <= fuel)%nat -> chunks fuel (encode s) = map Some s.
Proof.
  intros Hs. revert fuel. induction Hs as [|c s Hc Hs IH]; intros fuel Hf; simpl.
  - by destruct fuel.
  - unfold encode in *. simpl in *.
    pose proof (next_char_encoded c (concat (map encode_char s)) Hc) as Hn.
    rewrite length_app in Hf. pose proof (encode_char_nonempty c).
    destruct (encode_char c ++ concat (map encode_char s)) as [|first tail]; [done|].
    destruct fuel as [|fuel]; [lia|]. cbn [chunks]. rewrite Hn. f_equal. apply IH. lia.
Qed.

Lemma encode_range s : valid s -> Forall (fun b => 0 <= b < 256) (encode s).
Proof.
  induction 1 as [|c s Hc _ IH]; [constructor|].
  unfold encode. simpl. apply Forall_app. split; [by apply encode_char_bytes|done].
Qed.

Lemma b2z_z2b_range l : Forall (fun b => 0 <= b < 256) l -> map b2z (map z2b l) = l.
Proof.
  induction 1 as [|b l Hb _ IH]; simpl; [done|]. rewrite b2z_z2b, Z.mod_small by lia. by f_equal.
Qed.

Lemma decode_as_bytes s : valid s -> decode (as_bytes s) = map Some s.
Proof.
  intros Hs. unfold decode, as_bytes. rewrite b2z_z2b_range by by apply encode_range.
  apply chunks_encode; [done|]. by rewrite length_map.
Qed.

Lemma mapM_Some (s : text) : mapM id (map Some s) = Some s.
Proof. induction s as [|c s IH]; [done|]. simpl. by rewrite IH. Qed.

(** Text survives its bytes. *)
Lemma from_utf8_as_bytes s : valid s -> from_utf8 (as_bytes s) = Some s.
Proof. intros Hs. unfold from_utf8. rewrite decode_as_bytes by done. apply mapM_Some. Qed.

Lemma as_bytes_app s t : as_bytes (s ++ t) = as_bytes s ++ as_bytes t.
Proof. unfold as_bytes, encode. by rewrite map_app, concat_app, map_app. Qed.

Lemma as_bytes_inj s t : valid s -> valid t -> as_bytes s = as_bytes t -> s = t.
Proof.
  intros Hs Ht E. apply (f_equal from_utf8) in E.
  rewrite !from_utf8_as_bytes in E by done. by injection E.
Qed.

Lemma valid_app s t : valid (s ++ t) <-> valid s /\ valid t.
Proof. apply Forall_app. Qed.

Lemma len_app s t : len (s ++ t) = len s + len t.
Proof. unfold len. rewrite as_bytes_app, length_app. lia. Qed.

Lemma len_pos c s : 1 <= len (c :: s).
Proof.
  unfold len, as_bytes, encode. simpl. rewrite length_map, length_app.
  pose proof (encode_char_nonempty c). lia.
Qed.

(** *** Splitting *)

Lemma split_nonempty sep s : split sep s <> [].
Proof. destruct s as [|c s]; simpl; [done|]. by repeat case_match. Qed.

Lemma split_plain sep s : sep ∉ s -> split sep s = [s].
Proof.
  induction s as [|c s IH]; simpl; [done|].
  rewrite not_elem_of_cons. intros [Hc Hs]. rewrite (IH Hs).
  destruct (c =? sep) eqn:E; [lia|done].
Qed.

Lemma split_app sep s t :
  sep ∉ s -> split sep (s ++ sep :: t) = s :: split sep t.
Proof.
  induction s as [|c s IH]; simpl; [by rewrite Z.eqb_refl|].
  rewrite not_elem_of_cons. intros [Hc Hs]. rewrite (IH Hs).
  destruct (c =? sep) eqn:E; [lia|done].
Qed.

(** Splitting undoes joining pieces that hold no separator. *)
Lemma split_join sep p pieces :
  Forall (fun piece => sep ∉ piece) (p :: pieces) ->
  split sep (join [sep] (p :: pieces)) = p :: pieces.
Proof.
  revert p. induction pieces as [|q pieces IH]; intros p Hp; inversion_clear Hp.
  - simpl. by apply split_plain.
  - cbn [join]. simpl ([sep] ++ _). rewrite split_app by done. f_equal. by apply IH.
Qed.

Lemma elem_of_replace x from to s :
  x ∈ replace from to s -> (x ∈ s /\ x <> from) \/ x ∈ to.
Proof.
  unfold replace. induction s as [|c s IH]; simpl; [set_solver|].
  rewrite elem_of_app. intros [H|H].
  - destruct (c =? from) eqn:E; [by right|]. apply list_elem_of_singleton in H as ->.
    left. split; [left|lia].
  - destruct (IH H) as [[]|]; [left; split; [by right|done]|by right].
Qed.

Lemma str_contains_spec s c : contains s c = true <-> c ∈ s.
Proof.
  unfold contains. rewrite existsb_exists. split.
  - intros (x & Hx & ->%Z.eqb_eq). by apply list_elem_of_In.
  - intros H. exists c. split; [by apply list_elem_of_In|lia].
Qed.

Lemma starts_with_spec s p : starts_with s p = true <-> exists rest, s = p ++ rest.
Proof.
  revert s. induction p as [|c p IH]; intros s; simpl.
  - split; [by exists s|done].
  - destruct s as [|d s]; [split; [discriminate|intros [? [=]]]|].
    rewrite andb_true_iff, IH, Z.eqb_eq. naive_solver.
Qed.

End TextFacts.

Module TextProperties.
Import Utf8 TextFacts.

(** Text read back from its bytes is the text, strictly and lossily, and
    two texts with the same bytes are the same. *)
Theorem utf8_round_trip (s t : text) :
  valid s -> valid t ->
  from_utf8 (as_bytes s) = Some s /\ from_utf8_lossy (as_bytes s) = s
  /\ (as_bytes s = as_bytes t -> s = t).
Proof.
  intros Hs Ht. split_and!.
  - by apply from_utf8_as_bytes.
  - unfold from_utf8_lossy. rewrite decode_as_bytes by done. rewrite map_map.
    simpl. apply map_id.
  - by apply as_bytes_inj.
Qed.

Lemma utf8_round_trip_witness :
  let s := [97; 233; 8364; 128512] in
  valid s /\ from_utf8 (as_bytes s) = Some s /\ length (as_bytes s) = 10%nat.
Proof.
  assert (H : valid [97; 233; 8364; 128512]) by (repeat constructor).
  destruct (utf8_round_trip _ _ H H) as (? & _ & _). by split_and!.
Defined.

End TextProperties.
