(* ===== verification/ErrorCodes.v ===== *)
(** The broker error-code table and the client error type
    ([crates/kafka-conn/src/error_code.rs], [crates/kafka-conn/src/error.rs]).

    [ErrorCode::from_code] and [ErrorCode::retriable] are derived from
    [kafka_protocol::ResponseError], which is third-party: its decoding of a
    wire code and its [is_retriable] are the fields of the class
    [KafkaProtocol].  The variants of [ResponseError] are the ones the
    exhaustive match of [from_response_error] lists. *)

From S2P Require Import Prelude Sanitize.

Module ResponseError.

Inductive ResponseError : Type :=
  | UnknownServerError
  | OffsetOutOfRange
  | CorruptMessage
  | UnknownTopicOrPartition
  | InvalidFetchSize
  | LeaderNotAvailable
  | NotLeaderOrFollower
  | RequestTimedOut
  | BrokerNotAvailable
  | ReplicaNotAvailable
  | MessageTooLarge
  | StaleControllerEpoch
  | OffsetMetadataTooLarge
  | NetworkException
  | CoordinatorLoadInProgress
  | CoordinatorNotAvailable
  | NotCoordinator
  | InvalidTopicException
  | RecordListTooLarge
  | NotEnoughReplicas
  | NotEnoughReplicasAfterAppend
  | InvalidRequiredAcks
  | IllegalGeneration
  | InconsistentGroupProtocol
  | InvalidGroupId
  | UnknownMemberId
  | InvalidSessionTimeout
  | RebalanceInProgress
  | InvalidCommitOffsetSize
  | TopicAuthorizationFailed
  | GroupAuthorizationFailed
  | ClusterAuthorizationFailed
  | InvalidTimestamp
  | UnsupportedSaslMechanism
  | IllegalSaslState
  | UnsupportedVersion
  | TopicAlreadyExists
  | InvalidPartitions
  | InvalidReplicationFactor
  | InvalidReplicaAssignment
  | InvalidConfig
  | NotController
  | InvalidRequest
  | UnsupportedForMessageFormat
  | PolicyViolation
  | OutOfOrderSequenceNumber
  | DuplicateSequenceNumber
  | InvalidProducerEpoch
  | InvalidTxnState
  | InvalidProducerIdMapping
  | InvalidTransactionTimeout
  | ConcurrentTransactions
  | TransactionCoordinatorFenced
  | TransactionalIdAuthorizationFailed
  | SecurityDisabled
  | OperationNotAttempted
  | KafkaStorageError
  | LogDirNotFound
  | SaslAuthenticationFailed
  | UnknownProducerId
  | ReassignmentInProgress
  | DelegationTokenAuthDisabled
  | DelegationTokenNotFound
  | DelegationTokenOwnerMismatch
  | DelegationTokenRequestNotAllowed
  | DelegationTokenAuthorizationFailed
  | DelegationTokenExpired
  | InvalidPrincipalType
  | NonEmptyGroup
  | GroupIdNotFound
  | FetchSessionIdNotFound
  | InvalidFetchSessionEpoch
  | ListenerNotFound
  | TopicDeletionDisabled
  | FencedLeaderEpoch
  | UnknownLeaderEpoch
  | UnsupportedCompressionType
  | StaleBrokerEpoch
  | OffsetNotAvailable
  | MemberIdRequired
  | PreferredLeaderNotAvailable
  | GroupMaxSizeReached
  | FencedInstanceId
  | EligibleLeadersNotAvailable
  | ElectionNotNeeded
  | NoReassignmentInProgress
  | GroupSubscribedToTopic
  | InvalidRecord
  | UnstableOffsetCommit
  | ThrottlingQuotaExceeded
  | ProducerFenced
  | ResourceNotFound
  | DuplicateResource
  | UnacceptableCredential
  | InconsistentVoterSet
  | InvalidUpdateVersion
  | FeatureUpdateFailed
  | PrincipalDeserializationFailure
  | SnapshotNotFound
  | PositionOutOfRange
  | UnknownTopicId
  | DuplicateBrokerRegistration
  | BrokerIdNotRegistered
  | InconsistentTopicId
  | InconsistentClusterId
  | TransactionalIdNotFound
  | FetchSessionTopicIdError
  | IneligibleReplica
  | NewLeaderElected
  | OffsetMovedToTieredStorage
  | FencedMemberEpoch
  | UnreleasedInstanceId
  | UnsupportedAssignor
  | StaleMemberEpoch
  | MismatchedEndpointType
  | UnsupportedEndpointType
  | UnknownControllerId
  | UnknownSubscriptionId
  | TelemetryTooLarge
  | InvalidRegistration
  | TransactionAbortable
  | InvalidRecordState
  | ShareSessionNotFound
  | InvalidShareSessionEpoch
  | FencedStateEpoch
  | InvalidVoterKey
  | DuplicateVoter
  | VoterNotFound
  | InvalidRegularExpression
  | RebootstrapRequired
  | StreamsInvalidTopology
  | StreamsInvalidTopologyEpoch
  | StreamsTopologyFenced
  | ShareSessionLimitReached
  | Unknown (code : Z).

End ResponseError.

(** What the crate takes from [kafka_protocol::ResponseError]. *)
Class KafkaProtocol : Type := {
  try_from_code : Z -> option ResponseError.ResponseError;
  is_retriable : ResponseError.ResponseError -> bool;
}.

Module ErrorCode.

(** A Kafka broker error code. *)
Inductive ErrorCode : Type :=
  | UnknownServerError
  | OffsetOutOfRange
  | CorruptMessage
  | UnknownTopicOrPartition
  | InvalidFetchSize
  | LeaderNotAvailable
  | NotLeaderOrFollower
  | RequestTimedOut
  | BrokerNotAvailable
  | ReplicaNotAvailable
  | MessageTooLarge
  | StaleControllerEpoch
  | OffsetMetadataTooLarge
  | NetworkException
  | CoordinatorLoadInProgress
  | CoordinatorNotAvailable
  | NotCoordinator
  | InvalidTopicException
  | RecordListTooLarge
  | NotEnoughReplicas
  | NotEnoughReplicasAfterAppend
  | InvalidRequiredAcks
  | IllegalGeneration
  | InconsistentGroupProtocol
  | InvalidGroupId
  | UnknownMemberId
  | InvalidSessionTimeout
  | RebalanceInProgress
  | InvalidCommitOffsetSize
  | TopicAuthorizationFailed
  | GroupAuthorizationFailed
  | ClusterAuthorizationFailed
  | InvalidTimestamp
  | UnsupportedSaslMechanism
  | IllegalSaslState
  | UnsupportedVersion
  | TopicAlreadyExists
  | InvalidPartitions
  | InvalidReplicationFactor
  | InvalidReplicaAssignment
  | InvalidConfig
  | NotController
  | InvalidRequest
  | UnsupportedForMessageFormat
  | PolicyViolation
  | OutOfOrderSequenceNumber
  | DuplicateSequenceNumber
  | InvalidProducerEpoch
  | InvalidTxnState
  | InvalidProducerIdMapping
  | InvalidTransactionTimeout
  | ConcurrentTransactions
  | TransactionCoordinatorFenced
  | TransactionalIdAuthorizationFailed
  | SecurityDisabled
  | OperationNotAttempted
  | KafkaStorageError
  | LogDirNotFound
  | SaslAuthenticationFailed
  | UnknownProducerId
  | ReassignmentInProgress
  | DelegationTokenAuthDisabled
  | DelegationTokenNotFound
  | DelegationTokenOwnerMismatch
  | DelegationTokenRequestNotAllowed
  | DelegationTokenAuthorizationFailed
  | DelegationTokenExpired
  | InvalidPrincipalType
  | NonEmptyGroup
  | GroupIdNotFound
  | FetchSessionIdNotFound
  | InvalidFetchSessionEpoch
  | ListenerNotFound
  | TopicDeletionDisabled
  | FencedLeaderEpoch
  | UnknownLeaderEpoch
  | UnsupportedCompressionType
  | StaleBrokerEpoch
  | OffsetNotAvailable
  | MemberIdRequired
  | PreferredLeaderNotAvailable
  | GroupMaxSizeReached
  | FencedInstanceId
  | EligibleLeadersNotAvailable
  | ElectionNotNeeded
  | NoReassignmentInProgress
  | GroupSubscribedToTopic
  | InvalidRecord
  | UnstableOffsetCommit
  | ThrottlingQuotaExceeded
  | ProducerFenced
  | ResourceNotFound
  | DuplicateResource
  | UnacceptableCredential
  | InconsistentVoterSet
  | InvalidUpdateVersion
  | FeatureUpdateFailed
  | PrincipalDeserializationFailure
  | SnapshotNotFound
  | PositionOutOfRange
  | UnknownTopicId
  | DuplicateBrokerRegistration
  | BrokerIdNotRegistered
  | InconsistentTopicId
  | InconsistentClusterId
  | TransactionalIdNotFound
  | FetchSessionTopicIdError
  | IneligibleReplica
  | NewLeaderElected
  | OffsetMovedToTieredStorage
  | FencedMemberEpoch
  | UnreleasedInstanceId
  | UnsupportedAssignor
  | StaleMemberEpoch
  | MismatchedEndpointType
  | UnsupportedEndpointType
  | UnknownControllerId
  | UnknownSubscriptionId
  | TelemetryTooLarge
  | InvalidRegistration
  | TransactionAbortable
  | InvalidRecordState
  | ShareSessionNotFound
  | InvalidShareSessionEpoch
  | FencedStateEpoch
  | InvalidVoterKey
  | DuplicateVoter
  | VoterNotFound
  | InvalidRegularExpression
  | RebootstrapRequired
  | StreamsInvalidTopology
  | StreamsInvalidTopologyEpoch
  | StreamsTopologyFenced
  | ShareSessionLimitReached
  | Unknown (code : Z).

#[export] Instance ErrorCode_eq_dec : EqDecision ErrorCode.
Proof. solve_decision. Defined.

(** The wire code. *)
Definition code (self : ErrorCode) : Z :=
  match self with
  | UnknownServerError => -1
  | OffsetOutOfRange => 1
  | CorruptMessage => 2
  | UnknownTopicOrPartition => 3
  | InvalidFetchSize => 4
  | LeaderNotAvailable => 5
  | NotLeaderOrFollower => 6
  | RequestTimedOut => 7
  | BrokerNotAvailable => 8
  | ReplicaNotAvailable => 9
  | MessageTooLarge => 10
  | StaleControllerEpoch => 11
  | OffsetMetadataTooLarge => 12
  | NetworkException => 13
  | CoordinatorLoadInProgress => 14
  | CoordinatorNotAvailable => 15
  | NotCoordinator => 16
  | InvalidTopicException => 17
  | RecordListTooLarge => 18
  | NotEnoughReplicas => 19
  | NotEnoughReplicasAfterAppend => 20
  | InvalidRequiredAcks => 21
  | IllegalGeneration => 22
  | InconsistentGroupProtocol => 23
  | InvalidGroupId => 24
  | UnknownMemberId => 25
  | InvalidSessionTimeout => 26
  | RebalanceInProgress => 27
  | InvalidCommitOffsetSize => 28
  | TopicAuthorizationFailed => 29
  | GroupAuthorizationFailed => 30
  | ClusterAuthorizationFailed => 31
  | InvalidTimestamp => 32
  | UnsupportedSaslMechanism => 33
  | IllegalSaslState => 34
  | UnsupportedVersion => 35
  | TopicAlreadyExists => 36
  | InvalidPartitions => 37
  | InvalidReplicationFactor => 38
  | InvalidReplicaAssignment => 39
  | InvalidConfig => 40
  | NotController => 41
  | InvalidRequest => 42
  | UnsupportedForMessageFormat => 43
  | PolicyViolation => 44
  | OutOfOrderSequenceNumber => 45
  | DuplicateSequenceNumber => 46
  | InvalidProducerEpoch => 47
  | InvalidTxnState => 48
  | InvalidProducerIdMapping => 49
  | InvalidTransactionTimeout => 50
  | ConcurrentTransactions => 51
  | TransactionCoordinatorFenced => 52
  | TransactionalIdAuthorizationFailed => 53
  | SecurityDisabled => 54
  | OperationNotAttempted => 55
  | KafkaStorageError => 56
  | LogDirNotFound => 57
  | SaslAuthenticationFailed => 58
  | UnknownProducerId => 59
  | ReassignmentInProgress => 60
  | DelegationTokenAuthDisabled => 61
  | DelegationTokenNotFound => 62
  | DelegationTokenOwnerMismatch => 63
  | DelegationTokenRequestNotAllowed => 64
  | DelegationTokenAuthorizationFailed => 65
  | DelegationTokenExpired => 66
  | InvalidPrincipalType => 67
  | NonEmptyGroup => 68
  | GroupIdNotFound => 69
  | FetchSessionIdNotFound => 70
  | InvalidFetchSessionEpoch => 71
  | ListenerNotFound => 72
  | TopicDeletionDisabled => 73
  | FencedLeaderEpoch => 74
  | UnknownLeaderEpoch => 75
  | UnsupportedCompressionType => 76
  | StaleBrokerEpoch => 77
  | OffsetNotAvailable => 78
  | MemberIdRequired => 79
  | PreferredLeaderNotAvailable => 80
  | GroupMaxSizeReached => 81
  | FencedInstanceId => 82
  | EligibleLeadersNotAvailable => 83
  | ElectionNotNeeded => 84
  | NoReassignmentInProgress => 85
  | GroupSubscribedToTopic => 86
  | InvalidRecord => 87
  | UnstableOffsetCommit => 88
  | ThrottlingQuotaExceeded => 89
  | ProducerFenced => 90
  | ResourceNotFound => 91
  | DuplicateResource => 92
  | UnacceptableCredential => 93
  | InconsistentVoterSet => 94
  | InvalidUpdateVersion => 95
  | FeatureUpdateFailed => 96
  | PrincipalDeserializationFailure => 97
  | SnapshotNotFound => 98
  | PositionOutOfRange => 99
  | UnknownTopicId => 100
  | DuplicateBrokerRegistration => 101
  | BrokerIdNotRegistered => 102
  | InconsistentTopicId => 103
  | InconsistentClusterId => 104
  | TransactionalIdNotFound => 105
  | FetchSessionTopicIdError => 106
  | IneligibleReplica => 107
  | NewLeaderElected => 108
  | OffsetMovedToTieredStorage => 109
  | FencedMemberEpoch => 110
  | UnreleasedInstanceId => 111
  | UnsupportedAssignor => 112
  | StaleMemberEpoch => 113
  | MismatchedEndpointType => 114
  | UnsupportedEndpointType => 115
  | UnknownControllerId => 116
  | UnknownSubscriptionId => 117
  | TelemetryTooLarge => 118
  | InvalidRegistration => 119
  | TransactionAbortable => 120
  | InvalidRecordState => 121
  | ShareSessionNotFound => 122
  | InvalidShareSessionEpoch => 123
  | FencedStateEpoch => 124
  | InvalidVoterKey => 125
  | DuplicateVoter => 126
  | VoterNotFound => 127
  | InvalidRegularExpression => 128
  | RebootstrapRequired => 129
  | StreamsInvalidTopology => 130
  | StreamsInvalidTopologyEpoch => 131
  | StreamsTopologyFenced => 132
  | ShareSessionLimitReached => 133
  | Unknown code => code
  end.

(** The code's protocol name, or [None] for an unrecognised code. *)
Definition name (self : ErrorCode) : option string :=
  match self with
  | UnknownServerError => Some "UNKNOWN_SERVER_ERROR"%string
  | OffsetOutOfRange => Some "OFFSET_OUT_OF_RANGE"%string
  | CorruptMessage => Some "CORRUPT_MESSAGE"%string
  | UnknownTopicOrPartition => Some "UNKNOWN_TOPIC_OR_PARTITION"%string
  | InvalidFetchSize => Some "INVALID_FETCH_SIZE"%string
  | LeaderNotAvailable => Some "LEADER_NOT_AVAILABLE"%string
  | NotLeaderOrFollower => Some "NOT_LEADER_OR_FOLLOWER"%string
  | RequestTimedOut => Some "REQUEST_TIMED_OUT"%string
  | BrokerNotAvailable => Some "BROKER_NOT_AVAILABLE"%string
  | ReplicaNotAvailable => Some "REPLICA_NOT_AVAILABLE"%string
  | MessageTooLarge => Some "MESSAGE_TOO_LARGE"%string
  | StaleControllerEpoch => Some "STALE_CONTROLLER_EPOCH"%string
  | OffsetMetadataTooLarge => Some "OFFSET_METADATA_TOO_LARGE"%string
  | NetworkException => Some "NETWORK_EXCEPTION"%string
  | CoordinatorLoadInProgress => Some "COORDINATOR_LOAD_IN_PROGRESS"%string
  | CoordinatorNotAvailable => Some "COORDINATOR_NOT_AVAILABLE"%string
  | NotCoordinator => Some "NOT_COORDINATOR"%string
  | InvalidTopicException => Some "INVALID_TOPIC_EXCEPTION"%string
  | RecordListTooLarge => Some "RECORD_LIST_TOO_LARGE"%string
  | NotEnoughReplicas => Some "NOT_ENOUGH_REPLICAS"%string
  | NotEnoughReplicasAfterAppend => Some "NOT_ENOUGH_REPLICAS_AFTER_APPEND"%string
  | InvalidRequiredAcks => Some "INVALID_REQUIRED_ACKS"%string
  | IllegalGeneration => Some "ILLEGAL_GENERATION"%string
  | InconsistentGroupProtocol => Some "INCONSISTENT_GROUP_PROTOCOL"%string
  | InvalidGroupId => Some "INVALID_GROUP_ID"%string
  | UnknownMemberId => Some "UNKNOWN_MEMBER_ID"%string
  | InvalidSessionTimeout => Some "INVALID_SESSION_TIMEOUT"%string
  | RebalanceInProgress => Some "REBALANCE_IN_PROGRESS"%string
  | InvalidCommitOffsetSize => Some "INVALID_COMMIT_OFFSET_SIZE"%string
  | TopicAuthorizationFailed => Some "TOPIC_AUTHORIZATION_FAILED"%string
  | GroupAuthorizationFailed => Some "GROUP_AUTHORIZATION_FAILED"%string
  | ClusterAuthorizationFailed => Some "CLUSTER_AUTHORIZATION_FAILED"%string
  | InvalidTimestamp => Some "INVALID_TIMESTAMP"%string
  | UnsupportedSaslMechanism => Some "UNSUPPORTED_SASL_MECHANISM"%string
  | IllegalSaslState => Some "ILLEGAL_SASL_STATE"%string
  | UnsupportedVersion => Some "UNSUPPORTED_VERSION"%string
  | TopicAlreadyExists => Some "TOPIC_ALREADY_EXISTS"%string
  | InvalidPartitions => Some "INVALID_PARTITIONS"%string
  | InvalidReplicationFactor => Some "INVALID_REPLICATION_FACTOR"%string
  | InvalidReplicaAssignment => Some "INVALID_REPLICA_ASSIGNMENT"%string
  | InvalidConfig => Some "INVALID_CONFIG"%string
  | NotController => Some "NOT_CONTROLLER"%string
  | InvalidRequest => Some "INVALID_REQUEST"%string
  | UnsupportedForMessageFormat => Some "UNSUPPORTED_FOR_MESSAGE_FORMAT"%string
  | PolicyViolation => Some "POLICY_VIOLATION"%string
  | OutOfOrderSequenceNumber => Some "OUT_OF_ORDER_SEQUENCE_NUMBER"%string
  | DuplicateSequenceNumber => Some "DUPLICATE_SEQUENCE_NUMBER"%string
  | InvalidProducerEpoch => Some "INVALID_PRODUCER_EPOCH"%string
  | InvalidTxnState => Some "INVALID_TXN_STATE"%string
  | InvalidProducerIdMapping => Some "INVALID_PRODUCER_ID_MAPPING"%string
  | InvalidTransactionTimeout => Some "INVALID_TRANSACTION_TIMEOUT"%string
  | ConcurrentTransactions => Some "CONCURRENT_TRANSACTIONS"%string
  | TransactionCoordinatorFenced => Some "TRANSACTION_COORDINATOR_FENCED"%string
  | TransactionalIdAuthorizationFailed => Some "TRANSACTIONAL_ID_AUTHORIZATION_FAILED"%string
  | SecurityDisabled => Some "SECURITY_DISABLED"%string
  | OperationNotAttempted => Some "OPERATION_NOT_ATTEMPTED"%string
  | KafkaStorageError => Some "KAFKA_STORAGE_ERROR"%string
  | LogDirNotFound => Some "LOG_DIR_NOT_FOUND"%string
  | SaslAuthenticationFailed => Some "SASL_AUTHENTICATION_FAILED"%string
  | UnknownProducerId => Some "UNKNOWN_PRODUCER_ID"%string
  | ReassignmentInProgress => Some "REASSIGNMENT_IN_PROGRESS"%string
  | DelegationTokenAuthDisabled => Some "DELEGATION_TOKEN_AUTH_DISABLED"%string
  | DelegationTokenNotFound => Some "DELEGATION_TOKEN_NOT_FOUND"%string
  | DelegationTokenOwnerMismatch => Some "DELEGATION_TOKEN_OWNER_MISMATCH"%string
  | DelegationTokenRequestNotAllowed => Some "DELEGATION_TOKEN_REQUEST_NOT_ALLOWED"%string
  | DelegationTokenAuthorizationFailed => Some "DELEGATION_TOKEN_AUTHORIZATION_FAILED"%string
  | DelegationTokenExpired => Some "DELEGATION_TOKEN_EXPIRED"%string
  | InvalidPrincipalType => Some "INVALID_PRINCIPAL_TYPE"%string
  | NonEmptyGroup => Some "NON_EMPTY_GROUP"%string
  | GroupIdNotFound => Some "GROUP_ID_NOT_FOUND"%string
  | FetchSessionIdNotFound => Some "FETCH_SESSION_ID_NOT_FOUND"%string
  | InvalidFetchSessionEpoch => Some "INVALID_FETCH_SESSION_EPOCH"%string
  | ListenerNotFound => Some "LISTENER_NOT_FOUND"%string
  | TopicDeletionDisabled => Some "TOPIC_DELETION_DISABLED"%string
  | FencedLeaderEpoch => Some "FENCED_LEADER_EPOCH"%string
  | UnknownLeaderEpoch => Some "UNKNOWN_LEADER_EPOCH"%string
  | UnsupportedCompressionType => Some "UNSUPPORTED_COMPRESSION_TYPE"%string
  | StaleBrokerEpoch => Some "STALE_BROKER_EPOCH"%string
  | OffsetNotAvailable => Some "OFFSET_NOT_AVAILABLE"%string
  | MemberIdRequired => Some "MEMBER_ID_REQUIRED"%string
  | PreferredLeaderNotAvailable => Some "PREFERRED_LEADER_NOT_AVAILABLE"%string
  | GroupMaxSizeReached => Some "GROUP_MAX_SIZE_REACHED"%string
  | FencedInstanceId => Some "FENCED_INSTANCE_ID"%string
  | EligibleLeadersNotAvailable => Some "ELIGIBLE_LEADERS_NOT_AVAILABLE"%string
  | ElectionNotNeeded => Some "ELECTION_NOT_NEEDED"%string
  | NoReassignmentInProgress => Some "NO_REASSIGNMENT_IN_PROGRESS"%string
  | GroupSubscribedToTopic => Some "GROUP_SUBSCRIBED_TO_TOPIC"%string
  | InvalidRecord => Some "INVALID_RECORD"%string
  | UnstableOffsetCommit => Some "UNSTABLE_OFFSET_COMMIT"%string
  | ThrottlingQuotaExceeded => Some "THROTTLING_QUOTA_EXCEEDED"%string
  | ProducerFenced => Some "PRODUCER_FENCED"%string
  | ResourceNotFound => Some "RESOURCE_NOT_FOUND"%string
  | DuplicateResource => Some "DUPLICATE_RESOURCE"%string
  | UnacceptableCredential => Some "UNACCEPTABLE_CREDENTIAL"%string
  | InconsistentVoterSet => Some "INCONSISTENT_VOTER_SET"%string
  | InvalidUpdateVersion => Some "INVALID_UPDATE_VERSION"%string
  | FeatureUpdateFailed => Some "FEATURE_UPDATE_FAILED"%string
  | PrincipalDeserializationFailure => Some "PRINCIPAL_DESERIALIZATION_FAILURE"%string
  | SnapshotNotFound => Some "SNAPSHOT_NOT_FOUND"%string
  | PositionOutOfRange => Some "POSITION_OUT_OF_RANGE"%string
  | UnknownTopicId => Some "UNKNOWN_TOPIC_ID"%string
  | DuplicateBrokerRegistration => Some "DUPLICATE_BROKER_REGISTRATION"%string
  | BrokerIdNotRegistered => Some "BROKER_ID_NOT_REGISTERED"%string
  | InconsistentTopicId => Some "INCONSISTENT_TOPIC_ID"%string
  | InconsistentClusterId => Some "INCONSISTENT_CLUSTER_ID"%string
  | TransactionalIdNotFound => Some "TRANSACTIONAL_ID_NOT_FOUND"%string
  | FetchSessionTopicIdError => Some "FETCH_SESSION_TOPIC_ID_ERROR"%string
  | IneligibleReplica => Some "INELIGIBLE_REPLICA"%string
  | NewLeaderElected => Some "NEW_LEADER_ELECTED"%string
  | OffsetMovedToTieredStorage => Some "OFFSET_MOVED_TO_TIERED_STORAGE"%string
  | FencedMemberEpoch => Some "FENCED_MEMBER_EPOCH"%string
  | UnreleasedInstanceId => Some "UNRELEASED_INSTANCE_ID"%string
  | UnsupportedAssignor => Some "UNSUPPORTED_ASSIGNOR"%string
  | StaleMemberEpoch => Some "STALE_MEMBER_EPOCH"%string
  | MismatchedEndpointType => Some "MISMATCHED_ENDPOINT_TYPE"%string
  | UnsupportedEndpointType => Some "UNSUPPORTED_ENDPOINT_TYPE"%string
  | UnknownControllerId => Some "UNKNOWN_CONTROLLER_ID"%string
  | UnknownSubscriptionId => Some "UNKNOWN_SUBSCRIPTION_ID"%string
  | TelemetryTooLarge => Some "TELEMETRY_TOO_LARGE"%string
  | InvalidRegistration => Some "INVALID_REGISTRATION"%string
  | TransactionAbortable => Some "TRANSACTION_ABORTABLE"%string
  | InvalidRecordState => Some "INVALID_RECORD_STATE"%string
  | ShareSessionNotFound => Some "SHARE_SESSION_NOT_FOUND"%string
  | InvalidShareSessionEpoch => Some "INVALID_SHARE_SESSION_EPOCH"%string
  | FencedStateEpoch => Some "FENCED_STATE_EPOCH"%string
  | InvalidVoterKey => Some "INVALID_VOTER_KEY"%string
  | DuplicateVoter => Some "DUPLICATE_VOTER"%string
  | VoterNotFound => Some "VOTER_NOT_FOUND"%string
  | InvalidRegularExpression => Some "INVALID_REGULAR_EXPRESSION"%string
  | RebootstrapRequired => Some "REBOOTSTRAP_REQUIRED"%string
  | StreamsInvalidTopology => Some "STREAMS_INVALID_TOPOLOGY"%string
  | StreamsInvalidTopologyEpoch => Some "STREAMS_INVALID_TOPOLOGY_EPOCH"%string
  | StreamsTopologyFenced => Some "STREAMS_TOPOLOGY_FENCED"%string
  | ShareSessionLimitReached => Some "SHARE_SESSION_LIMIT_REACHED"%string
  | Unknown _ => None
  end.

(** The protocol's own description of the code. *)
Definition description (self : ErrorCode) : option string :=
  match self with
  | UnknownServerError => Some "The server experienced an unexpected error when processing the request."%string
  | OffsetOutOfRange => Some "The requested offset is not within the range of offsets maintained by the server."%string
  | CorruptMessage => Some "This message has failed its CRC checksum, exceeds the valid size, has a null key for a compacted topic, or is otherwise corrupt."%string
  | UnknownTopicOrPartition => Some "This server does not host this topic-partition."%string
  | InvalidFetchSize => Some "The requested fetch size is invalid."%string
  | LeaderNotAvailable => Some "There is no leader for this topic-partition as we are in the middle of a leadership election."%string
  | NotLeaderOrFollower => Some "For requests intended only for the leader, this error indicates that the broker is not the current leader. For requests intended for any replica, this error indicates that the broker is not a replica of the topic partition."%string
  | RequestTimedOut => Some "The request timed out."%string
  | BrokerNotAvailable => Some "The broker is not available."%string
  | ReplicaNotAvailable => Some "The replica is not available for the requested topic-partition. Produce/Fetch requests and other requests intended only for the leader or follower return NOT_LEADER_OR_FOLLOWER if the broker is not a replica of the topic-partition."%string
  | MessageTooLarge => Some "The request included a message larger than the max message size the server will accept."%string
  | StaleControllerEpoch => Some "The controller moved to another broker."%string
  | OffsetMetadataTooLarge => Some "The metadata field of the offset request was too large."%string
  | NetworkException => Some "The server disconnected before a response was received."%string
  | CoordinatorLoadInProgress => Some "The coordinator is loading and hence can't process requests."%string
  | CoordinatorNotAvailable => Some "The coordinator is not available."%string
  | NotCoordinator => Some "This is not the correct coordinator."%string
  | InvalidTopicException => Some "The request attempted to perform an operation on an invalid topic."%string
  | RecordListTooLarge => Some "The request included message batch larger than the configured segment size on the server."%string
  | NotEnoughReplicas => Some "Messages are rejected since there are fewer in-sync replicas than required."%string
  | NotEnoughReplicasAfterAppend => Some "Messages are written to the log, but to fewer in-sync replicas than required."%string
  | InvalidRequiredAcks => Some "Produce request specified an invalid value for required acks."%string
  | IllegalGeneration => Some "Specified group generation id is not valid."%string
  | InconsistentGroupProtocol => Some "The group member's supported protocols are incompatible with those of existing members or first group member tried to join with empty protocol type or empty protocol list."%string
  | InvalidGroupId => Some "The configured groupId is invalid."%string
  | UnknownMemberId => Some "The coordinator is not aware of this member."%string
  | InvalidSessionTimeout => Some "The session timeout is not within the range allowed by the broker (as configured by group.min.session.timeout.ms and group.max.session.timeout.ms)."%string
  | RebalanceInProgress => Some "The group is rebalancing, so a rejoin is needed."%string
  | InvalidCommitOffsetSize => Some "The committing offset data size is not valid."%string
  | TopicAuthorizationFailed => Some "Topic authorization failed."%string
  | GroupAuthorizationFailed => Some "Group authorization failed."%string
  | ClusterAuthorizationFailed => Some "Cluster authorization failed."%string
  | InvalidTimestamp => Some "The timestamp of the message is out of acceptable range."%string
  | UnsupportedSaslMechanism => Some "The broker does not support the requested SASL mechanism."%string
  | IllegalSaslState => Some "Request is not valid given the current SASL state."%string
  | UnsupportedVersion => Some "The version of API is not supported."%string
  | TopicAlreadyExists => Some "Topic with this name already exists."%string
  | InvalidPartitions => Some "Number of partitions is below 1."%string
  | InvalidReplicationFactor => Some "Replication factor is below 1 or larger than the number of available brokers."%string
  | InvalidReplicaAssignment => Some "Replica assignment is invalid."%string
  | InvalidConfig => Some "Configuration is invalid."%string
  | NotController => Some "This is not the correct controller for this cluster."%string
  | InvalidRequest => Some "This most likely occurs because of a request being malformed by the client library or the message was sent to an incompatible broker. See the broker logs for more details."%string
  | UnsupportedForMessageFormat => Some "The message format version on the broker does not support the request."%string
  | PolicyViolation => Some "Request parameters do not satisfy the configured policy."%string
  | OutOfOrderSequenceNumber => Some "The broker received an out of order sequence number."%string
  | DuplicateSequenceNumber => Some "The broker received a duplicate sequence number."%string
  | InvalidProducerEpoch => Some "Producer attempted to produce with an old epoch."%string
  | InvalidTxnState => Some "The producer attempted a transactional operation in an invalid state."%string
  | InvalidProducerIdMapping => Some "The producer attempted to use a producer id which is not currently assigned to its transactional id."%string
  | InvalidTransactionTimeout => Some "The transaction timeout is larger than the maximum value allowed by the broker (as configured by transaction.max.timeout.ms)."%string
  | ConcurrentTransactions => Some "The producer attempted to update a transaction while another concurrent operation on the same transaction was ongoing."%string
  | TransactionCoordinatorFenced => Some "Indicates that the transaction coordinator sending a WriteTxnMarker is no longer the current coordinator for a given producer."%string
  | TransactionalIdAuthorizationFailed => Some "Transactional Id authorization failed."%string
  | SecurityDisabled => Some "Security features are disabled."%string
  | OperationNotAttempted => Some "The broker did not attempt to execute this operation. This may happen for batched RPCs where some operations in the batch failed, causing the broker to respond without trying the rest."%string
  | KafkaStorageError => Some "Disk error when trying to access log file on the disk."%string
  | LogDirNotFound => Some "The user-specified log directory is not found in the broker config."%string
  | SaslAuthenticationFailed => Some "SASL Authentication failed."%string
  | UnknownProducerId => Some "This exception is raised by the broker if it could not locate the producer metadata associated with the producerId in question. This could happen if, for instance, the producer's records were deleted because their retention time had elapsed. Once the last records of the producerId are removed, the producer's metadata is removed from the broker, and future appends by the producer will return this exception."%string
  | ReassignmentInProgress => Some "A partition reassignment is in progress."%string
  | DelegationTokenAuthDisabled => Some "Delegation Token feature is not enabled."%string
  | DelegationTokenNotFound => Some "Delegation Token is not found on server."%string
  | DelegationTokenOwnerMismatch => Some "Specified Principal is not valid Owner/Renewer."%string
  | DelegationTokenRequestNotAllowed => Some "Delegation Token requests are not allowed on PLAINTEXT/1-way SSL channels and on delegation token authenticated channels."%string
  | DelegationTokenAuthorizationFailed => Some "Delegation Token authorization failed."%string
  | DelegationTokenExpired => Some "Delegation Token is expired."%string
  | InvalidPrincipalType => Some "Supplied principalType is not supported."%string
  | NonEmptyGroup => Some "The group is not empty."%string
  | GroupIdNotFound => Some "The group id does not exist."%string
  | FetchSessionIdNotFound => Some "The fetch session ID was not found."%string
  | InvalidFetchSessionEpoch => Some "The fetch session epoch is invalid."%string
  | ListenerNotFound => Some "There is no listener on the leader broker that matches the listener on which metadata request was processed."%string
  | TopicDeletionDisabled => Some "Topic deletion is disabled."%string
  | FencedLeaderEpoch => Some "The leader epoch in the request is older than the epoch on the broker."%string
  | UnknownLeaderEpoch => Some "The leader epoch in the request is newer than the epoch on the broker."%string
  | UnsupportedCompressionType => Some "The requesting client does not support the compression type of given partition."%string
  | StaleBrokerEpoch => Some "Broker epoch has changed."%string
  | OffsetNotAvailable => Some "The leader high watermark has not caught up from a recent leader election so the offsets cannot be guaranteed to be monotonically increasing."%string
  | MemberIdRequired => Some "The group member needs to have a valid member id before actually entering a consumer group."%string
  | PreferredLeaderNotAvailable => Some "The preferred leader was not available."%string
  | GroupMaxSizeReached => Some "The consumer group has reached its max size."%string
  | FencedInstanceId => Some "The broker rejected this static consumer since another consumer with the same group.instance.id has registered with a different member.id."%string
  | EligibleLeadersNotAvailable => Some "Eligible topic partition leaders are not available."%string
  | ElectionNotNeeded => Some "Leader election not needed for topic partition."%string
  | NoReassignmentInProgress => Some "No partition reassignment is in progress."%string
  | GroupSubscribedToTopic => Some "Deleting offsets of a topic is forbidden while the consumer group is actively subscribed to it."%string
  | InvalidRecord => Some "This record has failed the validation on broker and hence will be rejected."%string
  | UnstableOffsetCommit => Some "There are unstable offsets that need to be cleared."%string
  | ThrottlingQuotaExceeded => Some "The throttling quota has been exceeded."%string
  | ProducerFenced => Some "There is a newer producer with the same transactionalId which fences the current one."%string
  | ResourceNotFound => Some "A request illegally referred to a resource that does not exist."%string
  | DuplicateResource => Some "A request illegally referred to the same resource twice."%string
  | UnacceptableCredential => Some "Requested credential would not meet criteria for acceptability."%string
  | InconsistentVoterSet => Some "Indicates that the either the sender or recipient of a voter-only request is not one of the expected voters"%string
  | InvalidUpdateVersion => Some "The given update version was invalid."%string
  | FeatureUpdateFailed => Some "Unable to update finalized features due to an unexpected server error."%string
  | PrincipalDeserializationFailure => Some "Request principal deserialization failed during forwarding. This indicates an internal error on the broker cluster security setup."%string
  | SnapshotNotFound => Some "Requested snapshot was not found"%string
  | PositionOutOfRange => Some "Requested position is not greater than or equal to zero, and less than the size of the snapshot."%string
  | UnknownTopicId => Some "This server does not host this topic ID."%string
  | DuplicateBrokerRegistration => Some "This broker ID is already in use."%string
  | BrokerIdNotRegistered => Some "The given broker ID was not registered."%string
  | InconsistentTopicId => Some "The log's topic ID did not match the topic ID in the request"%string
  | InconsistentClusterId => Some "The clusterId in the request does not match that found on the server"%string
  | TransactionalIdNotFound => Some "The transactionalId could not be found"%string
  | FetchSessionTopicIdError => Some "The fetch session encountered inconsistent topic ID usage"%string
  | IneligibleReplica => Some "The new ISR contains at least one ineligible replica."%string
  | NewLeaderElected => Some "The AlterPartition request successfully updated the partition state but the leader has changed."%string
  | OffsetMovedToTieredStorage => Some "The requested offset is moved to tiered storage."%string
  | FencedMemberEpoch => Some "The member epoch is fenced by the group coordinator. The member must abandon all its partitions and rejoin."%string
  | UnreleasedInstanceId => Some "The instance ID is still used by another member in the consumer group. That member must leave first."%string
  | UnsupportedAssignor => Some "The assignor or its version range is not supported by the consumer group."%string
  | StaleMemberEpoch => Some "The member epoch is stale. The member must retry after receiving its updated member epoch via the ConsumerGroupHeartbeat API."%string
  | MismatchedEndpointType => Some "The request was sent to an endpoint of the wrong type."%string
  | UnsupportedEndpointType => Some "This endpoint type is not supported yet."%string
  | UnknownControllerId => Some "This controller ID is not known."%string
  | UnknownSubscriptionId => Some "Client sent a push telemetry request with an invalid or outdated subscription ID."%string
  | TelemetryTooLarge => Some "Client sent a push telemetry request larger than the maximum size the broker will accept."%string
  | InvalidRegistration => Some "The controller has considered the broker registration to be invalid."%string
  | TransactionAbortable => Some "The server encountered an error with the transaction. The client can abort the transaction to continue using this transactional ID."%string
  | InvalidRecordState => Some "The record state is invalid. The acknowledgement of delivery could not be completed."%string
  | ShareSessionNotFound => Some "The share session was not found."%string
  | InvalidShareSessionEpoch => Some "The share session epoch is invalid."%string
  | FencedStateEpoch => Some "The share coordinator rejected the request because the share-group state epoch did not match."%string
  | InvalidVoterKey => Some "The voter key doesn't match the receiving replica's key."%string
  | DuplicateVoter => Some "The voter is already part of the set of voters."%string
  | VoterNotFound => Some "The voter is not part of the set of voters."%string
  | InvalidRegularExpression => Some "The regular expression is not valid."%string
  | RebootstrapRequired => Some "Client metadata is stale, client should rebootstrap to obtain new metadata."%string
  | StreamsInvalidTopology => Some "The supplied topology is invalid."%string
  | StreamsInvalidTopologyEpoch => Some "The supplied topology epoch is invalid."%string
  | StreamsTopologyFenced => Some "The supplied topology epoch is outdated."%string
  | ShareSessionLimitReached => Some "The limit of share sessions has been reached."%string
  | Unknown _ => None
  end.

(** Convert an upstream [ResponseError]; the source's match is exhaustive. *)
Definition from_response_error (err : ResponseError.ResponseError) : ErrorCode :=
  match err with
  | ResponseError.UnknownServerError => UnknownServerError
  | ResponseError.OffsetOutOfRange => OffsetOutOfRange
  | ResponseError.CorruptMessage => CorruptMessage
  | ResponseError.UnknownTopicOrPartition => UnknownTopicOrPartition
  | ResponseError.InvalidFetchSize => InvalidFetchSize
  | ResponseError.LeaderNotAvailable => LeaderNotAvailable
  | ResponseError.NotLeaderOrFollower => NotLeaderOrFollower
  | ResponseError.RequestTimedOut => RequestTimedOut
  | ResponseError.BrokerNotAvailable => BrokerNotAvailable
  | ResponseError.ReplicaNotAvailable => ReplicaNotAvailable
  | ResponseError.MessageTooLarge => MessageTooLarge
  | ResponseError.StaleControllerEpoch => StaleControllerEpoch
  | ResponseError.OffsetMetadataTooLarge => OffsetMetadataTooLarge
  | ResponseError.NetworkException => NetworkException
  | ResponseError.CoordinatorLoadInProgress => CoordinatorLoadInProgress
  | ResponseError.CoordinatorNotAvailable => CoordinatorNotAvailable
  | ResponseError.NotCoordinator => NotCoordinator
  | ResponseError.InvalidTopicException => InvalidTopicException
  | ResponseError.RecordListTooLarge => RecordListTooLarge
  | ResponseError.NotEnoughReplicas => NotEnoughReplicas
  | ResponseError.NotEnoughReplicasAfterAppend => NotEnoughReplicasAfterAppend
  | ResponseError.InvalidRequiredAcks => InvalidRequiredAcks
  | ResponseError.IllegalGeneration => IllegalGeneration
  | ResponseError.InconsistentGroupProtocol => InconsistentGroupProtocol
  | ResponseError.InvalidGroupId => InvalidGroupId
  | ResponseError.UnknownMemberId => UnknownMemberId
  | ResponseError.InvalidSessionTimeout => InvalidSessionTimeout
  | ResponseError.RebalanceInProgress => RebalanceInProgress
  | ResponseError.InvalidCommitOffsetSize => InvalidCommitOffsetSize
  | ResponseError.TopicAuthorizationFailed => TopicAuthorizationFailed
  | ResponseError.GroupAuthorizationFailed => GroupAuthorizationFailed
  | ResponseError.ClusterAuthorizationFailed => ClusterAuthorizationFailed
  | ResponseError.InvalidTimestamp => InvalidTimestamp
  | ResponseError.UnsupportedSaslMechanism => UnsupportedSaslMechanism
  | ResponseError.IllegalSaslState => IllegalSaslState
  | ResponseError.UnsupportedVersion => UnsupportedVersion
  | ResponseError.TopicAlreadyExists => TopicAlreadyExists
  | ResponseError.InvalidPartitions => InvalidPartitions
  | ResponseError.InvalidReplicationFactor => InvalidReplicationFactor
  | ResponseError.InvalidReplicaAssignment => InvalidReplicaAssignment
  | ResponseError.InvalidConfig => InvalidConfig
  | ResponseError.NotController => NotController
  | ResponseError.InvalidRequest => InvalidRequest
  | ResponseError.UnsupportedForMessageFormat => UnsupportedForMessageFormat
  | ResponseError.PolicyViolation => PolicyViolation
  | ResponseError.OutOfOrderSequenceNumber => OutOfOrderSequenceNumber
  | ResponseError.DuplicateSequenceNumber => DuplicateSequenceNumber
  | ResponseError.InvalidProducerEpoch => InvalidProducerEpoch
  | ResponseError.InvalidTxnState => InvalidTxnState
  | ResponseError.InvalidProducerIdMapping => InvalidProducerIdMapping
  | ResponseError.InvalidTransactionTimeout => InvalidTransactionTimeout
  | ResponseError.ConcurrentTransactions => ConcurrentTransactions
  | ResponseError.TransactionCoordinatorFenced => TransactionCoordinatorFenced
  | ResponseError.TransactionalIdAuthorizationFailed => TransactionalIdAuthorizationFailed
  | ResponseError.SecurityDisabled => SecurityDisabled
  | ResponseError.OperationNotAttempted => OperationNotAttempted
  | ResponseError.KafkaStorageError => KafkaStorageError
  | ResponseError.LogDirNotFound => LogDirNotFound
  | ResponseError.SaslAuthenticationFailed => SaslAuthenticationFailed
  | ResponseError.UnknownProducerId => UnknownProducerId
  | ResponseError.ReassignmentInProgress => ReassignmentInProgress
  | ResponseError.DelegationTokenAuthDisabled => DelegationTokenAuthDisabled
  | ResponseError.DelegationTokenNotFound => DelegationTokenNotFound
  | ResponseError.DelegationTokenOwnerMismatch => DelegationTokenOwnerMismatch
  | ResponseError.DelegationTokenRequestNotAllowed => DelegationTokenRequestNotAllowed
  | ResponseError.DelegationTokenAuthorizationFailed => DelegationTokenAuthorizationFailed
  | ResponseError.DelegationTokenExpired => DelegationTokenExpired
  | ResponseError.InvalidPrincipalType => InvalidPrincipalType
  | ResponseError.NonEmptyGroup => NonEmptyGroup
  | ResponseError.GroupIdNotFound => GroupIdNotFound
  | ResponseError.FetchSessionIdNotFound => FetchSessionIdNotFound
  | ResponseError.InvalidFetchSessionEpoch => InvalidFetchSessionEpoch
  | ResponseError.ListenerNotFound => ListenerNotFound
  | ResponseError.TopicDeletionDisabled => TopicDeletionDisabled
  | ResponseError.FencedLeaderEpoch => FencedLeaderEpoch
  | ResponseError.UnknownLeaderEpoch => UnknownLeaderEpoch
  | ResponseError.UnsupportedCompressionType => UnsupportedCompressionType
  | ResponseError.StaleBrokerEpoch => StaleBrokerEpoch
  | ResponseError.OffsetNotAvailable => OffsetNotAvailable
  | ResponseError.MemberIdRequired => MemberIdRequired
  | ResponseError.PreferredLeaderNotAvailable => PreferredLeaderNotAvailable
  | ResponseError.GroupMaxSizeReached => GroupMaxSizeReached
  | ResponseError.FencedInstanceId => FencedInstanceId
  | ResponseError.EligibleLeadersNotAvailable => EligibleLeadersNotAvailable
  | ResponseError.ElectionNotNeeded => ElectionNotNeeded
  | ResponseError.NoReassignmentInProgress => NoReassignmentInProgress
  | ResponseError.GroupSubscribedToTopic => GroupSubscribedToTopic
  | ResponseError.InvalidRecord => InvalidRecord
  | ResponseError.UnstableOffsetCommit => UnstableOffsetCommit
  | ResponseError.ThrottlingQuotaExceeded => ThrottlingQuotaExceeded
  | ResponseError.ProducerFenced => ProducerFenced
  | ResponseError.ResourceNotFound => ResourceNotFound
  | ResponseError.DuplicateResource => DuplicateResource
  | ResponseError.UnacceptableCredential => UnacceptableCredential
  | ResponseError.InconsistentVoterSet => InconsistentVoterSet
  | ResponseError.InvalidUpdateVersion => InvalidUpdateVersion
  | ResponseError.FeatureUpdateFailed => FeatureUpdateFailed
  | ResponseError.PrincipalDeserializationFailure => PrincipalDeserializationFailure
  | ResponseError.SnapshotNotFound => SnapshotNotFound
  | ResponseError.PositionOutOfRange => PositionOutOfRange
  | ResponseError.UnknownTopicId => UnknownTopicId
  | ResponseError.DuplicateBrokerRegistration => DuplicateBrokerRegistration
  | ResponseError.BrokerIdNotRegistered => BrokerIdNotRegistered
  | ResponseError.InconsistentTopicId => InconsistentTopicId
  | ResponseError.InconsistentClusterId => InconsistentClusterId
  | ResponseError.TransactionalIdNotFound => TransactionalIdNotFound
  | ResponseError.FetchSessionTopicIdError => FetchSessionTopicIdError
  | ResponseError.IneligibleReplica => IneligibleReplica
  | ResponseError.NewLeaderElected => NewLeaderElected
  | ResponseError.OffsetMovedToTieredStorage => OffsetMovedToTieredStorage
  | ResponseError.FencedMemberEpoch => FencedMemberEpoch
  | ResponseError.UnreleasedInstanceId => UnreleasedInstanceId
  | ResponseError.UnsupportedAssignor => UnsupportedAssignor
  | ResponseError.StaleMemberEpoch => StaleMemberEpoch
  | ResponseError.MismatchedEndpointType => MismatchedEndpointType
  | ResponseError.UnsupportedEndpointType => UnsupportedEndpointType
  | ResponseError.UnknownControllerId => UnknownControllerId
  | ResponseError.UnknownSubscriptionId => UnknownSubscriptionId
  | ResponseError.TelemetryTooLarge => TelemetryTooLarge
  | ResponseError.InvalidRegistration => InvalidRegistration
  | ResponseError.TransactionAbortable => TransactionAbortable
  | ResponseError.InvalidRecordState => InvalidRecordState
  | ResponseError.ShareSessionNotFound => ShareSessionNotFound
  | ResponseError.InvalidShareSessionEpoch => InvalidShareSessionEpoch
  | ResponseError.FencedStateEpoch => FencedStateEpoch
  | ResponseError.InvalidVoterKey => InvalidVoterKey
  | ResponseError.DuplicateVoter => DuplicateVoter
  | ResponseError.VoterNotFound => VoterNotFound
  | ResponseError.InvalidRegularExpression => InvalidRegularExpression
  | ResponseError.RebootstrapRequired => RebootstrapRequired
  | ResponseError.StreamsInvalidTopology => StreamsInvalidTopology
  | ResponseError.StreamsInvalidTopologyEpoch => StreamsInvalidTopologyEpoch
  | ResponseError.StreamsTopologyFenced => StreamsTopologyFenced
  | ResponseError.ShareSessionLimitReached => ShareSessionLimitReached
  | ResponseError.Unknown code => Unknown code
  end.

(** Every code this build names. *)
Definition KNOWN_ERROR_CODES : list ErrorCode :=
  [ UnknownServerError; OffsetOutOfRange; CorruptMessage; UnknownTopicOrPartition;
    InvalidFetchSize; LeaderNotAvailable; NotLeaderOrFollower; RequestTimedOut;
    BrokerNotAvailable; ReplicaNotAvailable; MessageTooLarge; StaleControllerEpoch;
    OffsetMetadataTooLarge; NetworkException; CoordinatorLoadInProgress;
    CoordinatorNotAvailable; NotCoordinator; InvalidTopicException; RecordListTooLarge;
    NotEnoughReplicas; NotEnoughReplicasAfterAppend; InvalidRequiredAcks;
    IllegalGeneration; InconsistentGroupProtocol; InvalidGroupId; UnknownMemberId;
    InvalidSessionTimeout; RebalanceInProgress; InvalidCommitOffsetSize;
    TopicAuthorizationFailed; GroupAuthorizationFailed; ClusterAuthorizationFailed;
    InvalidTimestamp; UnsupportedSaslMechanism; IllegalSaslState; UnsupportedVersion;
    TopicAlreadyExists; InvalidPartitions; InvalidReplicationFactor;
    InvalidReplicaAssignment; InvalidConfig; NotController; InvalidRequest;
    UnsupportedForMessageFormat; PolicyViolation; OutOfOrderSequenceNumber;
    DuplicateSequenceNumber; InvalidProducerEpoch; InvalidTxnState;
    InvalidProducerIdMapping; InvalidTransactionTimeout; ConcurrentTransactions;
    TransactionCoordinatorFenced; TransactionalIdAuthorizationFailed; SecurityDisabled;
    OperationNotAttempted; KafkaStorageError; LogDirNotFound; SaslAuthenticationFailed;
    UnknownProducerId; ReassignmentInProgress; DelegationTokenAuthDisabled;
    DelegationTokenNotFound; DelegationTokenOwnerMismatch;
    DelegationTokenRequestNotAllowed; DelegationTokenAuthorizationFailed;
    DelegationTokenExpired; InvalidPrincipalType; NonEmptyGroup; GroupIdNotFound;
    FetchSessionIdNotFound; InvalidFetchSessionEpoch; ListenerNotFound;
    TopicDeletionDisabled; FencedLeaderEpoch; UnknownLeaderEpoch;
    UnsupportedCompressionType; StaleBrokerEpoch; OffsetNotAvailable; MemberIdRequired;
    PreferredLeaderNotAvailable; GroupMaxSizeReached; FencedInstanceId;
    EligibleLeadersNotAvailable; ElectionNotNeeded; NoReassignmentInProgress;
    GroupSubscribedToTopic; InvalidRecord; UnstableOffsetCommit; ThrottlingQuotaExceeded;
    ProducerFenced; ResourceNotFound; DuplicateResource; UnacceptableCredential;
    InconsistentVoterSet; InvalidUpdateVersion; FeatureUpdateFailed;
    PrincipalDeserializationFailure; SnapshotNotFound; PositionOutOfRange; UnknownTopicId;
    DuplicateBrokerRegistration; BrokerIdNotRegistered; InconsistentTopicId;
    InconsistentClusterId; TransactionalIdNotFound; FetchSessionTopicIdError;
    IneligibleReplica; NewLeaderElected; OffsetMovedToTieredStorage; FencedMemberEpoch;
    UnreleasedInstanceId; UnsupportedAssignor; StaleMemberEpoch; MismatchedEndpointType;
    UnsupportedEndpointType; UnknownControllerId; UnknownSubscriptionId;
    TelemetryTooLarge; InvalidRegistration; TransactionAbortable; InvalidRecordState;
    ShareSessionNotFound; InvalidShareSessionEpoch; FencedStateEpoch; InvalidVoterKey;
    DuplicateVoter; VoterNotFound; InvalidRegularExpression; RebootstrapRequired;
    StreamsInvalidTopology; StreamsInvalidTopologyEpoch; StreamsTopologyFenced;
    ShareSessionLimitReached ].

Section classify.
Context `{KafkaProtocol}.

(** Classify a wire code: [0] is success and has no [ErrorCode]. *)
Definition from_code (code : Z) : option ErrorCode :=
  from_response_error <$> try_from_code code.

(** Whether the protocol considers this code worth retrying. *)
Definition retriable (self : ErrorCode) : bool :=
  match self with
  | Unknown _ => false
  | named =>
      match try_from_code (code named) with
      | Some e => is_retriable e
      | None => false
      end
  end.

(** Whether retrying is worthwhile when the request named a specific resource
    that the broker says does not exist. *)
Definition retriable_for_named_resource (self : ErrorCode) : bool :=
  negb
    match self with
    | UnknownTopicOrPartition | UnknownTopicId | GroupIdNotFound | TransactionalIdNotFound |
        UnknownMemberId | ResourceNotFound | LogDirNotFound => true
    | _ => false
    end && retriable self.

End classify.

(** Whether seeing this code should invalidate the metadata snapshot. *)
Definition needs_metadata_refresh (self : ErrorCode) : bool :=
  match self with
  | UnknownTopicOrPartition | LeaderNotAvailable | NotLeaderOrFollower |
      BrokerNotAvailable | ReplicaNotAvailable | NetworkException | NotController |
      KafkaStorageError | ListenerNotFound | FencedLeaderEpoch | UnknownLeaderEpoch |
      OffsetNotAvailable | PreferredLeaderNotAvailable | UnknownTopicId |
      InconsistentTopicId | FetchSessionTopicIdError | NewLeaderElected |
      RebootstrapRequired => true
  | _ => false
  end.

(** Whether seeing this code should invalidate a cached coordinator. *)
Definition needs_coordinator_refresh (self : ErrorCode) : bool :=
  match self with
  | CoordinatorLoadInProgress | CoordinatorNotAvailable | NotCoordinator => true
  | _ => false
  end.

(** Whether this code means the credentials were rejected. *)
Definition is_authentication (self : ErrorCode) : bool :=
  match self with
  | UnsupportedSaslMechanism | IllegalSaslState | SaslAuthenticationFailed => true
  | _ => false
  end.

(** Whether this code means the principal lacked permission. *)
Definition is_authorization (self : ErrorCode) : bool :=
  match self with
  | TopicAuthorizationFailed | GroupAuthorizationFailed | ClusterAuthorizationFailed |
      TransactionalIdAuthorizationFailed | DelegationTokenAuthorizationFailed => true
  | _ => false
  end.

End ErrorCode.

(** ** The client error type ([error.rs]) *)

Module Error.
Import ErrorCode.

(** What is kept of a [std::io::Error]: its kind, its rendering and the raw OS
    code. *)
Record IoError := { io_kind : Z; io_text : string; io_raw_os_error : option Z }.

(** A boxed decode failure: its rendering, and the concrete type a downcast
    would find. *)
Record Source := { src_text : string; src_type : option string }.

(** Anything that can go wrong talking to a broker.  An [ApiKey] is carried by
    its wire code, a [Duration] in nanoseconds. *)
Inductive Error : Type :=
  | Transport (context : string) (source : IoError)
  | ConnectionClosed (peer : string)
  | Timeout (api_key : Z) (elapsed : Z)
  | Authentication (message : text)
  | Authorization (code : ErrorCode) (detail : option text)
  | Broker (code : ErrorCode) (message : option text)
  | Decode (context : string) (source : Source)
  | ReadOnly (api_key : Z)
  | UnsupportedApi (api_key : Z) (broker ours : option (Z * Z))
  | Unsupported (message : string)
  | InvalidRequest (message : string)
  | TokenEndpoint (endpoint : string) (status : option Z) (detail : string).

#[export] Instance IoError_eq_dec : EqDecision IoError.
Proof. solve_decision. Defined.
#[export] Instance Source_eq_dec : EqDecision Source.
Proof. solve_decision. Defined.
#[export] Instance Error_eq_dec : EqDecision Error.
Proof. solve_decision. Defined.

(** [ErrorCode]'s [Display]. *)
Definition display_code (c : ErrorCode) : text :=
  text_of_string
    match name c with
    | Some name => name +:+ "(" +:+ pretty (code c) +:+ ")"
    | None => "UNKNOWN(" +:+ pretty (code c) +:+ ")"
    end.

(** Build the right variant for a broker error code. *)
Definition from_code (c : ErrorCode) (message : option text) : Error :=
  let message := control_safe <$> message in
  if is_authentication c then Authentication (default (display_code c) message)
  else if is_authorization c then Authorization c message
  else Broker c message.

(** The broker code, when there is one. *)
Definition code_of (self : Error) : option ErrorCode :=
  match self with
  | Broker c _ | Authorization c _ => Some c
  | _ => None
  end.

(** Whether retrying could plausibly succeed. *)
Definition retriable `{KafkaProtocol} (self : Error) : bool :=
  match self with
  | Transport _ _ | ConnectionClosed _ | Timeout _ _ => true
  | Broker c _ => ErrorCode.retriable c
  | TokenEndpoint _ status _ =>
      match status with
      | None => true
      | Some status => (500 <=? status) || (status =? 429)
      end
  | Authorization _ _ | Authentication _ | Decode _ _ | ReadOnly _
  | UnsupportedApi _ _ _ | Unsupported _ | InvalidRequest _ => false
  end.

(** Whether handling this error should refresh the metadata snapshot. *)
Definition needs_metadata_refresh (self : Error) : bool :=
  match self with
  | Transport _ _ | ConnectionClosed _ => true
  | Broker c _ => ErrorCode.needs_metadata_refresh c
  | _ => false
  end.

(** Whether handling this error should invalidate a cached coordinator. *)
Definition needs_coordinator_refresh (self : Error) : bool :=
  match self with
  | Broker c _ => ErrorCode.needs_coordinator_refresh c
  | _ => false
  end.

(** [Clone]: a transport error loses its raw OS code, a decode error its
    concrete source type. *)
Definition clone (self : Error) : Error :=
  match self with
  | Transport context source =>
      Transport context
        {| io_kind := io_kind source; io_text := io_text source; io_raw_os_error := None |}
  | Decode context source =>
      Decode context {| src_text := src_text source; src_type := None |}
  | other => other
  end.

End Error.

(** ** Lemmas about the table *)

Module ErrorCodeFacts.
Import ErrorCode Error.

Lemma known_errors_complete e : (exists c, e = ErrorCode.Unknown c) \/ e ∈ KNOWN_ERROR_CODES.
Proof.
  destruct e; try (right; apply (bool_decide_unpack _); vm_compute; exact I).
  left. by eexists.
Qed.

Lemma known_codes_NoDup : NoDup (map code KNOWN_ERROR_CODES).
Proof. apply (bool_decide_unpack _). vm_compute. exact I. Qed.

Lemma known_names_NoDup : NoDup (map name KNOWN_ERROR_CODES).
Proof. apply (bool_decide_unpack _). vm_compute. exact I. Qed.

(** The codes this build names are exactly [-1] and [1] to [133]. *)
Lemma known_codes_range :
  map code KNOWN_ERROR_CODES = -1 :: map Z.of_nat (seq 1 133).
Proof. vm_compute. reflexivity. Qed.

Lemma NoDup_map_inj {A B} (f : A -> B) l x y :
  NoDup (map f l) -> x ∈ l -> y ∈ l -> f x = f y -> x = y.
Proof.
  induction l as [|z l IH]; simpl; intros Hnd Hx Hy Hf; [by apply elem_of_nil in Hx|].
  apply NoDup_cons in Hnd as [Hz Hnd].
  apply elem_of_cons in Hx, Hy.
  destruct Hx as [->|Hx], Hy as [->|Hy]; [done| | |by apply IH]; exfalso; apply Hz.
  - rewrite Hf. by apply list_elem_of_fmap_2.
  - rewrite <- Hf. by apply list_elem_of_fmap_2.
Qed.

Lemma named_known e : name e <> None -> e ∈ KNOWN_ERROR_CODES.
Proof. intros Hn. by destruct (known_errors_complete e) as [[c ->]|]. Qed.

Lemma axes_disjoint c :
  ErrorCode.needs_metadata_refresh c = true -> ErrorCode.needs_coordinator_refresh c = false.
Proof. by destruct c. Qed.

Lemma auth_axes_disjoint c :
  is_authentication c = true ->
  is_authorization c = false /\ ErrorCode.needs_metadata_refresh c = false
  /\ ErrorCode.needs_coordinator_refresh c = false.
Proof. by destruct c. Qed.

Lemma authz_axes_disjoint c :
  is_authorization c = true ->
  is_authentication c = false /\ ErrorCode.needs_metadata_refresh c = false
  /\ ErrorCode.needs_coordinator_refresh c = false.
Proof. by destruct c. Qed.

Lemma code_of_from_code c m :
  code_of (from_code c m) = if is_authentication c then None else Some c.
Proof. unfold from_code. by destruct (is_authentication c), (is_authorization c). Qed.

Lemma refresh_from_code c m :
  needs_metadata_refresh (from_code c m) = ErrorCode.needs_metadata_refresh c
  /\ needs_coordinator_refresh (from_code c m) = ErrorCode.needs_coordinator_refresh c.
Proof.
  unfold from_code.
  destruct (is_authentication c) eqn:Ea; [by apply auth_axes_disjoint in Ea as (_ & -> & ->)|].
  destruct (is_authorization c) eqn:Eb; [by apply authz_axes_disjoint in Eb as (_ & -> & ->)|].
  done.
Qed.

(** What a broker's error says, in the broker's words. *)
Definition said (self : Error) : option text :=
  match self with
  | Authentication message => Some message
  | Authorization _ message | Broker _ message => message
  | _ => None
  end.

Lemma said_from_code c m : said (from_code c (Some m)) = Some (control_safe m).
Proof. unfold from_code. by destruct (is_authentication c), (is_authorization c). Qed.

End ErrorCodeFacts.

(** ** Properties *)

Module ErrorCodeProperties.
Import ErrorCode Error ErrorCodeFacts.

(** A named code is told apart by its number and by its name. *)
Theorem named_codes_identify (e1 e2 : ErrorCode) :
  name e1 <> None -> name e2 <> None ->
  (code e1 = code e2 \/ name e1 = name e2) -> e1 = e2.
Proof.
  intros H1%named_known H2%named_known [Hc|Hn].
  - by apply (NoDup_map_inj code KNOWN_ERROR_CODES); [apply known_codes_NoDup| | |].
  - by apply (NoDup_map_inj name KNOWN_ERROR_CODES); [apply known_names_NoDup| | |].
Qed.

Lemma named_codes_identify_witness : from_response_error ResponseError.NotCoordinator = NotCoordinator.
Proof. apply named_codes_identify; [done|done|left; reflexivity]. Defined.

(** A broker code becomes the error of its class: an authentication code is
    an error without a code, every other code is kept; the refresh axes of the
    error are those of the code; authentication and authorization are never
    retriable, anything else exactly as the code is; a clone of such an error is
    the error itself; and the broker's message reaches the error without any
    control character, unchanged when it had none. *)
Theorem from_code_taxonomy `{KafkaProtocol} (c : ErrorCode) (m : option text) :
  let e := from_code c m in
  code_of e = (if is_authentication c then None else Some c)
  /\ needs_metadata_refresh e = ErrorCode.needs_metadata_refresh c
  /\ needs_coordinator_refresh e = ErrorCode.needs_coordinator_refresh c
  /\ retriable e
     = (if is_authentication c || is_authorization c then false else ErrorCode.retriable c)
  /\ clone e = e
  /\ (forall message, m = Some message -> Forall scalar message ->
       exists t, said e = Some t /\ Forall (fun ch => is_control ch = false) t
         /\ (Forall (fun ch => is_control ch = false) message -> t = message)).
Proof.
  intros e. split_and!.
  - apply code_of_from_code.
  - apply refresh_from_code.
  - apply refresh_from_code.
  - subst e. unfold from_code. by destruct (is_authentication c), (is_authorization c).
  - subst e. unfold from_code. by destruct (is_authentication c), (is_authorization c).
  - intros message -> Hs. exists (control_safe message). split_and!.
    + apply said_from_code.
    + apply control_safe_no_control. eapply Forall_impl; [exact Hs|]. unfold scalar. simpl. lia.
    + apply control_safe_clean.
Qed.

End ErrorCodeProperties.
