(* ===== verification/Scram.v ===== *)
(** The SCRAM-SHA-256 and SCRAM-SHA-512 client, RFC 5802
    ([crates/kafka-conn/src/scram.rs]).

    The primitives are other crates: [base64], [pbkdf2], [hmac], [sha2], [subtle]
    and [stringprep] are the fields of the classes below, and so is the
    escaping of [Debug] for a [str], which depends on Unicode's tables. *)

From S2P Require Import Prelude Sanitize Text ErrorCodes.

(** The standard base64 engine; a decoding error is its [Display]. *)
Class Base64 : Type := {
  B64_encode : bytes -> text;
  B64_decode : text -> result bytes text;
}.

(** [stringprep::saslprep], an error being its [Display]. *)
Class StringPrep : Type := { stringprep_saslprep : text -> result text text }.

(** [{:?}] of a [str]. *)
Class StrDebug : Type := { debug_str : text -> text }.

Module Scram.
Import Str Error.

(** Which SCRAM hash to use. *)
Inductive ScramHash : Type := Sha256 | Sha512.

#[export] Instance ScramHash_eq_dec : EqDecision ScramHash.
Proof. solve_decision. Defined.

(** The mechanism name as it appears in [SaslHandshake]. *)
Definition mechanism (self : ScramHash) : text :=
  text_of_string match self with Sha256 => "SCRAM-SHA-256" | Sha512 => "SCRAM-SHA-512" end.

(** [pbkdf2_hmac_array], [Hmac::new_from_slice] with [update] and [finalize],
    [Digest::digest], and [ct_eq].  A key [Hmac] would reject gives its error. *)
Class Crypto : Type := {
  pbkdf2_hmac : ScramHash -> bytes -> bytes -> Z -> bytes;
  hmac_rejects : ScramHash -> bytes -> option text;
  hmac_finalize : ScramHash -> bytes -> bytes -> bytes;
  sha_digest : ScramHash -> bytes -> bytes;
  ct_eq : bytes -> bytes -> bool;
}.

(** No channel binding, no authzid. *)
Definition GS2_HEADER : text := text_of_string "n,,".
Definition MIN_ITERATIONS : Z := 4096.
Definition MAX_ITERATIONS : Z := 1000000.

(** A SCRAM conversation in progress. *)
Record ScramClient : Type := {
  hash : ScramHash;
  password : text;
  client_nonce : text;
  client_first_bare : text;
  expected_server_signature : option bytes;
}.

Definition authentication (s : string) : Error := Authentication (text_of_string s).

Section scram.
Context `{Base64, StringPrep, StrDebug, Crypto}.

(** [saslprep]: the detail is kept for the user name and dropped for the password. *)
Definition saslprep (value : text) (what : string) : result text Error :=
  match stringprep_saslprep value with
  | Ok s => Ok s
  | Err e =>
      Err (if bool_decide (what = "password"%string)
           then authentication ("password is not valid under SASLprep (RFC 4013); it contains a "
                                +:+ "prohibited character")
           else Authentication (text_of_string (what +:+ " is not valid under SASLprep: ") ++ e))
  end.

(** The separators of RFC 5802 are escaped in the user name. *)
Definition escape_username (username : text) : text :=
  replace 44 (text_of_string "=2C") (replace 61 (text_of_string "=3D") username).

Definition RESERVED : list text :=
  map text_of_string ["a"; "c"; "e"; "i"; "m"; "n"; "p"; "r"; "s"; "v"]%string.

(** Reject an extension that would corrupt [client-first-message-bare]. *)
Definition validate_extension (key value : text) : result unit Error :=
  let named tail :=
    Err (InvalidRequest ("SCRAM extension key " +:+ string_of_text (debug_str key) +:+ tail)) in
  if bool_decide (key = []) || negb (forallb is_ascii_alphabetic key) then
    named " must be one or more ASCII letters"%string
  else if bool_decide (to_ascii_lowercase key ∈ RESERVED) then
    named " is a reserved RFC 5802 attribute and cannot be set"%string
  else if bool_decide (value = []) || existsb (fun c => (c =? 44) || is_control c) value then
    Err (InvalidRequest ("SCRAM extension " +:+ string_of_text (debug_str key)
           +:+ " has a value that is empty or contains a character "
           +:+ "RFC 5802 does not permit in one"))
  else Ok tt.

(** [,key=value] for each extension, all of them valid. *)
Fixpoint push_extensions (bare : text) (extensions : list (text * text)) : result text Error :=
  match extensions with
  | [] => Ok bare
  | (key, value) :: extensions =>
      let? _ := validate_extension key value in
      push_extensions (bare ++ [44] ++ key ++ [61] ++ value) extensions
  end.

(** Start a conversation. *)
Definition new (hash : ScramHash) (username password nonce : text)
    (extensions : list (text * text)) : result ScramClient Error :=
  let? username := saslprep username "username" in
  let? password := saslprep password "password" in
  if contains nonce 44 then Err (authentication "SCRAM nonce may not contain a comma")
  else
    let bare := text_of_string "n=" ++ escape_username username ++ text_of_string ",r=" ++ nonce in
    let? bare := push_extensions bare extensions in
    Ok {| hash := hash; password := password; client_nonce := nonce;
          client_first_bare := bare; expected_server_signature := None |}.

(** [client-first-message]. *)
Definition client_first (self : ScramClient) : bytes :=
  Utf8.as_bytes (GS2_HEADER ++ client_first_bare self).

Definition salted_password_of (self : ScramClient) (salt : bytes) (iterations : Z) : bytes :=
  pbkdf2_hmac (hash self) (Utf8.as_bytes (password self)) salt iterations.

Definition hmac (self : ScramClient) (key data : bytes) : result bytes Error :=
  match hmac_rejects (hash self) key with
  | Some e =>
      Err (Authentication (text_of_string "HMAC rejected a " ++ display_int (Z.of_nat (length key))
                           ++ text_of_string " byte key: " ++ e))
  | None => Ok (hmac_finalize (hash self) key data)
  end.

Definition digest (self : ScramClient) (data : bytes) : bytes := sha_digest (hash self) data.

Definition rejected (value : text) : Error :=
  Authentication (text_of_string "server rejected SCRAM: " ++ control_safe value).

(** The attributes of [server-first-message]: the last of each wins, an [e=]
    ends the exchange. *)
Record ServerFirst : Type := {
  sf_nonce : option text; sf_salt : option text; sf_iterations : option text }.

Fixpoint server_first_fields (acc : ServerFirst) (fields : list text) : result ServerFirst Error :=
  match fields with
  | [] => Ok acc
  | field :: fields =>
      match field with
      | 114 :: 61 :: value =>
          server_first_fields {| sf_nonce := Some value; sf_salt := sf_salt acc;
                                 sf_iterations := sf_iterations acc |} fields
      | 115 :: 61 :: value =>
          server_first_fields {| sf_nonce := sf_nonce acc; sf_salt := Some value;
                                 sf_iterations := sf_iterations acc |} fields
      | 105 :: 61 :: value =>
          server_first_fields {| sf_nonce := sf_nonce acc; sf_salt := sf_salt acc;
                                 sf_iterations := Some value |} fields
      | 101 :: 61 :: value => Err (rejected value)
      | _ => server_first_fields acc fields
      end
  end.

Definition no_fields : ServerFirst :=
  {| sf_nonce := None; sf_salt := None; sf_iterations := None |}.

(** What [server-first-message] says, checked: the nonce, the salt and the
    iteration count. *)
Definition read_server_first (self : ScramClient) (server_first : text)
    : result (text * bytes * Z) Error :=
  let? fields := server_first_fields no_fields (split 44 server_first) in
  let? nonce := ok_or (sf_nonce fields) (authentication "server-first-message had no nonce") in
  if negb (starts_with nonce (client_nonce self))
     || (Utf8.len nonce <=? Utf8.len (client_nonce self))
  then Err (authentication "server nonce does not extend the client nonce")
  else
    let? salt := ok_or (sf_salt fields) (authentication "server-first-message had no salt") in
    let? salt :=
      match B64_decode salt with
      | Ok salt => Ok salt
      | Err e => Err (Authentication (text_of_string "undecodable SCRAM salt: " ++ e))
      end in
    let? iterations :=
      ok_or (sf_iterations fields)
        (authentication "server-first-message had no iteration count") in
    let? iterations :=
      match parse_u32 iterations with
      | Ok iterations => Ok iterations
      | Err e =>
          Err (Authentication (text_of_string "bad SCRAM iteration count: " ++ display_parse_error e))
      end in
    if iterations <? MIN_ITERATIONS then
      Err (Authentication (text_of_string "SCRAM iteration count " ++ display_int iterations
             ++ text_of_string " is below the RFC 7677 minimum of " ++ display_int MIN_ITERATIONS
             ++ text_of_string "; refusing what is either a broken broker or a downgrade attack"))
    else if MAX_ITERATIONS <? iterations then
      Err (Authentication (text_of_string "SCRAM iteration count " ++ display_int iterations
             ++ text_of_string " exceeds the supported maximum of " ++ display_int MAX_ITERATIONS
             ++ text_of_string ("; refusing to burn unbounded CPU on a broker-chosen "
                                +:+ "work factor")))
    else Ok (nonce, salt, iterations).

Definition client_final_without_proof (nonce : text) : text :=
  text_of_string "c=" ++ B64_encode (Utf8.as_bytes GS2_HEADER) ++ text_of_string ",r=" ++ nonce.

Definition auth_message (self : ScramClient) (server_first nonce : text) : text :=
  client_first_bare self ++ [44] ++ server_first ++ [44] ++ client_final_without_proof nonce.

Definition ascii (s : string) : bytes := Utf8.as_bytes (text_of_string s).

(** [k ^ s], byte by byte, as long as the shorter. *)
Definition xor_bytes (a b : bytes) : bytes :=
  zip_with (fun k s => z2b (Z.lxor (b2z k) (b2z s))) a b.

(** Consume [server-first-message] and produce [client-final-message]. *)
Definition client_final (self : ScramClient) (server_first : bytes)
    : result bytes Error * ScramClient :=
  let outcome :=
    match Utf8.from_utf8 server_first with
    | None => Err (authentication "server-first-message is not UTF-8")
    | Some server_first =>
        let? (nonce, salt, iterations) := read_server_first self server_first in
        let without_proof := client_final_without_proof nonce in
        let message := Utf8.as_bytes (auth_message self server_first nonce) in
        let salted := salted_password_of self salt iterations in
        let? client_key := hmac self salted (ascii "Client Key") in
        let stored_key := digest self client_key in
        let? client_signature := hmac self stored_key message in
        let proof := xor_bytes client_key client_signature in
        let? server_key := hmac self salted (ascii "Server Key") in
        let? expected := hmac self server_key message in
        Ok (Utf8.as_bytes (without_proof ++ text_of_string ",p=" ++ B64_encode proof), expected)
    end in
  match outcome with
  | Ok (final, expected) =>
      (Ok final,
       {| hash := hash self; password := password self; client_nonce := client_nonce self;
          client_first_bare := client_first_bare self;
          expected_server_signature := Some expected |})
  | Err error => (Err error, self)
  end.

(** The attributes of [server-final-message], up to the first that decides. *)
Fixpoint verify_fields (expected : bytes) (fields : list text) : result unit Error :=
  match fields with
  | [] => Err (authentication "server-final-message had no verifier")
  | field :: fields =>
      match field with
      | 101 :: 61 :: value => Err (rejected value)
      | 118 :: 61 :: value =>
          match B64_decode value with
          | Err e => Err (Authentication (text_of_string "undecodable server signature: " ++ e))
          | Ok signature =>
              if ct_eq signature expected then Ok tt
              else Err (Authentication
                          (text_of_string "server signature did not verify " ++ [8212]
                           ++ text_of_string " the peer does not know the password"))
          end
      | _ => verify_fields expected fields
      end
  end.

(** Verify [server-final-message], completing mutual authentication. *)
Definition verify_server_final (self : ScramClient) (server_final : bytes) : result unit Error :=
  let? expected :=
    ok_or (expected_server_signature self)
      (authentication "server-final-message arrived before client-final") in
  match Utf8.from_utf8 server_final with
  | None => Err (authentication "server-final-message is not UTF-8")
  | Some server_final => verify_fields expected (split 44 server_final)
  end.

(** Salt and hash a password for [AlterUserScramCredentials]. *)
Definition salted_password (hash : ScramHash) (password : text) (salt : bytes) (iterations : Z)
    : result bytes Error :=
  let? prepared := saslprep password "password" in
  Ok (pbkdf2_hmac hash (Utf8.as_bytes prepared) salt iterations).

End scram.

End Scram.
