(* ===== verification/ScramFacts.v ===== *)
(** What the SCRAM client guarantees: the exchange with a server that follows
    RFC 5802, what an accepted server has shown, and the unambiguity of the first
    message. *)

From S2P Require Import Prelude Sanitize Text ErrorCodes Scram.

(** What is relied on of [base64]: it decodes what it encoded, and its alphabet is
    the letters, the digits, [+], [/] and [=]. *)
Class Base64Laws `{Base64} : Prop := {
  b64_round_trip : forall b, B64_decode (B64_encode b) = Ok b;
  b64_alphabet : forall b,
    Forall (fun c => Str.is_ascii_alphanumeric c || (c =? 43) || (c =? 47) || (c =? 61) = true)
      (B64_encode b);
}.

(** What is relied on of the primitives: a MAC takes a key of any length and has one
    length per hash, and [ct_eq] is equality. *)
Class CryptoLaws `{Scram.Crypto} : Prop := {
  hmac_accepts : forall h key, Scram.hmac_rejects h key = None;
  hmac_length : forall h key data key' data',
    length (Scram.hmac_finalize h key data) = length (Scram.hmac_finalize h key' data');
  ct_eq_spec : forall a b, Scram.ct_eq a b = true <-> a = b;
}.

(** The other side of the exchange, as RFC 5802 section 3 defines it. *)
Module ScramServer.
Import Str Scram.

Section server.
Context `{Base64, Crypto}.

(** What a server stores for a user: never the password. *)
Record Credential : Type := {
  cr_hash : ScramHash;
  cr_salt : bytes;
  stored_key : bytes;
  server_key : bytes;
}.

Definition store (h : ScramHash) (password : text) (salt : bytes) (iterations : Z) : Credential :=
  let salted := pbkdf2_hmac h (Utf8.as_bytes password) salt iterations in
  {| cr_hash := h; cr_salt := salt;
     stored_key := sha_digest h (hmac_finalize h salted (ascii "Client Key"));
     server_key := hmac_finalize h salted (ascii "Server Key") |}.

(** [server-first-message], for a server whose iteration count reads [count]. *)
Definition server_first (cred : Credential) (client_nonce server_nonce count : text) : text :=
  text_of_string "r=" ++ (client_nonce ++ server_nonce)
    ++ [44] ++ (text_of_string "s=" ++ B64_encode (cr_salt cred))
    ++ [44] ++ (text_of_string "i=" ++ count).

(** Check the proof in [client-final-message] and answer with the server's
    signature. *)
Definition respond (cred : Credential) (client_first_bare first nonce : text)
    (client_final : bytes) : option text :=
  match split 44 <$> Utf8.from_utf8 client_final with
  | Some [c; r; 112 :: 61 :: proof] =>
      if bool_decide (c = text_of_string "c=" ++ B64_encode (Utf8.as_bytes GS2_HEADER))
         && bool_decide (r = text_of_string "r=" ++ nonce) then
        match B64_decode proof with
        | Ok proof =>
            let message := Utf8.as_bytes
              (client_first_bare ++ [44] ++ first ++ [44] ++ join [44] [c; r]) in
            let signature := hmac_finalize (cr_hash cred) (stored_key cred) message in
            if bool_decide (sha_digest (cr_hash cred) (xor_bytes proof signature)
                            = stored_key cred)
            then Some (text_of_string "v="
                         ++ B64_encode (hmac_finalize (cr_hash cred) (server_key cred) message))
            else None
        | Err _ => None
        end
      else None
  | _ => None
  end.

End server.

(** The user name of an [n=] attribute. *)
Fixpoint unescape (s : text) : text :=
  match s with
  | 61 :: 50 :: 67 :: s => 44 :: unescape s
  | 61 :: 51 :: 68 :: s => 61 :: unescape s
  | c :: s => c :: unescape s
  | [] => []
  end.

End ScramServer.

Module ScramFacts.
Import Str Scram ScramServer TextFacts.

Lemma xor_byte_involutive k s : z2b (Z.lxor (b2z (z2b (Z.lxor (b2z k) (b2z s)))) (b2z s)) = k.
Proof. destruct k, s; vm_compute; reflexivity. Qed.

(** Unmasking with the mask gives the masked bytes. *)
Lemma xor_bytes_involutive a b :
  length a = length b -> xor_bytes (xor_bytes a b) b = a.
Proof.
  revert b. induction a as [|k a IH]; intros [|s b] Hl; try done.
  cbn. rewrite xor_byte_involutive. f_equal. apply IH. by injection Hl.
Qed.

Lemma valid_ascii s : Utf8.valid (text_of_string s).
Proof.
  unfold text_of_string. apply Forall_forall. intros x Hx.
  apply list_elem_of_fmap in Hx as (a & -> & _).
  pose proof (Ascii.nat_ascii_bounded a). unfold Utf8.is_scalar. lia.
Qed.

Lemma escape_chars u :
  escape_username u
  = concat (map (fun c => if c =? 61 then text_of_string "=3D"
                          else if c =? 44 then text_of_string "=2C" else [c]) u).
Proof.
  unfold escape_username, replace. induction u as [|c u IH]; [done|]. simpl.
  rewrite map_app, concat_app, IH. f_equal. destruct (c =? 61) eqn:E; [done|].
  simpl. by destruct (c =? 44).
Qed.

Lemma escape_no_comma u : 44 ∉ escape_username u.
Proof.
  intros Hin. unfold escape_username in Hin.
  apply elem_of_replace in Hin as [[_ ?]|Hin]; [done|]. revert Hin. change (44 ∉ text_of_string "=2C"). by_evaluation.
Qed.

Lemma unescape_escape u : unescape (escape_username u) = u.
Proof.
  rewrite escape_chars. induction u as [|c u IH]; [done|]. cbn [map concat].
  remember (concat _) as rest eqn:Hr. clear Hr.
  destruct (c =? 61) eqn:E1; [change (61 :: unescape rest = c :: u); rewrite IH; f_equal; lia|].
  destruct (c =? 44) eqn:E2; [change (44 :: unescape rest = c :: u); rewrite IH; f_equal; lia|].
  assert (unescape ([c] ++ rest) = c :: unescape rest) as ->; [|by f_equal].
  simpl. repeat (case_match; try done); lia.
Qed.

(** The extensions of a first message, one attribute each. *)
Definition attribute (e : text * text) : text := e.1 ++ [61] ++ e.2.

Lemma join_snoc sep p pieces q :
  join sep ((p :: pieces) ++ [q]) = join sep (p :: pieces) ++ sep ++ q.
Proof.
  revert p. induction pieces as [|r pieces IH]; intros p; [done|].
  change (p ++ sep ++ join sep ((r :: pieces) ++ [q]) = (p ++ sep ++ join sep (r :: pieces)) ++ sep ++ q).
  by rewrite IH, <- !app_assoc.
Qed.

Section facts.
Context `{Base64, StringPrep, StrDebug, Crypto}.

Lemma validate_extension_attribute key value :
  validate_extension key value = Ok tt -> 44 ∉ attribute (key, value).
Proof.
  unfold validate_extension, attribute. cbn [fst snd].
  destruct (_ || negb _) eqn:E1; [done|].
  destruct (bool_decide (_ ∈ RESERVED)); [done|].
  destruct (_ || existsb _ _) eqn:E2; [done|]. intros _.
  apply orb_false_iff in E1 as [_ Hk%negb_false_iff]. apply orb_false_iff in E2 as [_ Hv].
  rewrite !not_elem_of_app. split_and!.
  - rewrite forallb_forall in Hk. intros Hin. apply list_elem_of_In, Hk in Hin. done.
  - by_evaluation.
  - intros Hin. apply not_true_iff_false in Hv. apply Hv, existsb_exists.
    exists 44. split; [by apply list_elem_of_In|done].
Qed.

Lemma push_extensions_join p pieces extensions bare :
  push_extensions (join [44] (p :: pieces)) extensions = Ok bare ->
  bare = join [44] (p :: pieces ++ map attribute extensions)
  /\ Forall (fun e => 44 ∉ attribute e) extensions.
Proof.
  revert p pieces. induction extensions as [|[key value] extensions IH]; intros p pieces; simpl.
  - intros [= <-]. by rewrite app_nil_r.
  - destruct (validate_extension key value) as [[]|] eqn:E; [|done]. simpl.
    intros Hp.
    assert (join [44] (p :: pieces) ++ 44 :: key ++ 61 :: value
            = join [44] (p :: (pieces ++ [attribute (key, value)]))) as Hj.
    { change (p :: pieces ++ [attribute (key, value)]) with ((p :: pieces) ++ [attribute (key, value)]).
      by rewrite join_snoc. }
    simpl in Hj. rewrite Hj in Hp. clear Hj.
    apply IH in Hp as [-> Hall]. rewrite <- app_assoc. split; [done|].
    constructor; [by apply validate_extension_attribute|done].
Qed.

(** What [new] builds. *)
Lemma new_Ok h username password nonce extensions client :
  new h username password nonce extensions = Ok client ->
  exists username' password',
    stringprep_saslprep username = Ok username' /\ stringprep_saslprep password = Ok password'
    /\ (44 ∉ nonce) /\ Forall (fun e => 44 ∉ attribute e) extensions
    /\ client = {|
         hash := h; password := password'; client_nonce := nonce;
         client_first_bare :=
           join [44] ((text_of_string "n=" ++ escape_username username')
                      :: (text_of_string "r=" ++ nonce) :: map attribute extensions);
         expected_server_signature := None |}.
Proof.
  unfold new, saslprep.
  destruct (stringprep_saslprep username) as [u|]; [|done].
  destruct (stringprep_saslprep password) as [p|]; [|done]. cbn [result_bind].
  destruct (contains nonce 44) eqn:Hc; [done|]. intros Hnew.
  assert (text_of_string "n=" ++ escape_username u ++ text_of_string ",r=" ++ nonce
          = join [44] [text_of_string "n=" ++ escape_username u; text_of_string "r=" ++ nonce])
    as Hbare by (cbn [join]; by rewrite <- !app_assoc).
  rewrite Hbare in Hnew. clear Hbare.
  destruct (push_extensions _ extensions) as [bare|] eqn:Hp; [|done].
  apply push_extensions_join in Hp as [-> Hall]. injection Hnew as <-.
  exists u, p. split_and!; try done.
  intros Hin. apply str_contains_spec in Hin. congruence.
Qed.

Lemma hmac_Ok `{!CryptoLaws} client key data :
  hmac client key data = Ok (hmac_finalize (hash client) key data).
Proof. unfold hmac. by rewrite hmac_accepts. Qed.

(** What a [client-final-message] was made of. *)
Lemma client_final_Ok client sf final client' :
  client_final client sf = (Ok final, client') ->
  exists first nonce salt iterations client_key client_signature server_key expected,
    Utf8.from_utf8 sf = Some first
    /\ read_server_first client first = Ok (nonce, salt, iterations)
    /\ let salted := salted_password_of client salt iterations in
       let message := Utf8.as_bytes (auth_message client first nonce) in
       hmac client salted (ascii "Client Key") = Ok client_key
       /\ hmac client (digest client client_key) message = Ok client_signature
       /\ hmac client salted (ascii "Server Key") = Ok server_key
       /\ hmac client server_key message = Ok expected
       /\ final = Utf8.as_bytes (client_final_without_proof nonce ++ text_of_string ",p="
                                 ++ B64_encode (xor_bytes client_key client_signature))
       /\ expected_server_signature client' = Some expected.
Proof.
  unfold client_final. destruct (Utf8.from_utf8 sf) as [first|] eqn:Hu; [|done].
  destruct (read_server_first client first) as [[[nonce salt] iterations]|] eqn:Hr; [|done].
  cbn [result_bind].
  destruct (hmac client (salted_password_of client salt iterations) (ascii "Client Key"))
    as [client_key|] eqn:Hm1; [|done]. cbn [result_bind].
  destruct (hmac client (digest client client_key) _) as [client_signature|] eqn:Hm2; [|done].
  cbn [result_bind].
  destruct (hmac client _ (ascii "Server Key")) as [server_key|] eqn:Hm3; [|done].
  cbn [result_bind].
  destruct (hmac client server_key _) as [expected|] eqn:Hm4; [|done].
  cbn [result_bind]. intros [= <- <-].
  by exists first, nonce, salt, iterations, client_key, client_signature, server_key, expected.
Qed.

Lemma client_final_Err client sf e client' : client_final client sf = (Err e, client') -> client' = client.
Proof. unfold client_final. intros. by repeat case_match; simplify_eq. Qed.

Section laws.
Context `{!Base64Laws, !CryptoLaws}.

Lemma verify_fields_Ok expected fields :
  verify_fields expected fields = Ok tt ->
  exists signature, (118 :: 61 :: signature) ∈ fields /\ B64_decode signature = Ok expected.
Proof.
  induction fields as [|field fields IH]; [done|]. intros Hv.
  assert (Hrest : verify_fields expected fields = Ok tt ->
    exists signature, (118 :: 61 :: signature) ∈ field :: fields /\ B64_decode signature = Ok expected).
  { intros (signature & Hin & Hd)%IH. exists signature. split; [by right|done]. }
  revert Hv. cbn [verify_fields].
  repeat (case_match; try done; try exact Hrest). intros _.
  match goal with E : ct_eq _ _ = true |- _ => apply ct_eq_spec in E; subst end.
  eexists. split; [left|done].
Qed.

Lemma b64_valid b : Utf8.valid (B64_encode b).
Proof.
  apply (Forall_impl _ _ _ (b64_alphabet b)). intros c.
  unfold is_ascii_alphanumeric, is_ascii_alphabetic, is_ascii_digit, Utf8.is_scalar. lia.
Qed.

Lemma b64_no_comma b : 44 ∉ B64_encode b.
Proof.
  intros Hin. pose proof (proj1 (Forall_forall _ _) (b64_alphabet b) _ Hin) as Hc. by vm_compute in Hc.
Qed.

Lemma verify_fields_signature expected :
  verify_fields expected [text_of_string "v=" ++ B64_encode expected] = Ok tt.
Proof.
  cbn. rewrite b64_round_trip. by rewrite (proj2 (ct_eq_spec expected expected) eq_refl).
Qed.

(** The keys and signatures of an exchange, as both sides compute them. *)
Definition exchange_keys (h : ScramHash) (salted : bytes) (message : bytes) : bytes * bytes :=
  let client_key := hmac_finalize h salted (ascii "Client Key") in
  (client_key, hmac_finalize h (sha_digest h client_key) message).
Definition server_signature (h : ScramHash) (salted : bytes) (message : bytes) : bytes :=
  hmac_finalize h (hmac_finalize h salted (ascii "Server Key")) message.

Lemma client_final_computes client sf first nonce salt iterations :
  Utf8.from_utf8 sf = Some first ->
  read_server_first client first = Ok (nonce, salt, iterations) ->
  let salted := salted_password_of client salt iterations in
  let message := Utf8.as_bytes (auth_message client first nonce) in
  let '(client_key, client_signature) := exchange_keys (hash client) salted message in
  exists client',
    client_final client sf
    = (Ok (Utf8.as_bytes (client_final_without_proof nonce ++ text_of_string ",p="
                          ++ B64_encode (xor_bytes client_key client_signature))), client')
    /\ expected_server_signature client' = Some (server_signature (hash client) salted message).
Proof.
  intros Hu Hr. unfold exchange_keys, client_final. rewrite Hu, Hr. cbn [result_bind].
  repeat (rewrite hmac_Ok; cbn [result_bind]). eexists. split; reflexivity.
Qed.

Lemma read_server_first_of client cred nonce server_nonce count iterations :
  client_nonce client = nonce -> 44 ∉ nonce -> 44 ∉ server_nonce -> server_nonce <> [] ->
  44 ∉ count -> parse_u32 count = Ok iterations ->
  MIN_ITERATIONS <= iterations <= MAX_ITERATIONS ->
  read_server_first client (server_first cred nonce server_nonce count)
  = Ok (nonce ++ server_nonce, cr_salt cred, iterations).
Proof.
  intros Hn Hcn Hcs Hne Hcc Hp Hi. unfold read_server_first.
  assert (server_first cred nonce server_nonce count
          = (text_of_string "r=" ++ nonce ++ server_nonce)
            ++ 44 :: (text_of_string "s=" ++ B64_encode (cr_salt cred))
            ++ 44 :: (text_of_string "i=" ++ count)) as ->
    by (unfold server_first; by rewrite <- !app_assoc).
  rewrite split_app by (rewrite !not_elem_of_app; split_and!; [by_evaluation|done|done]).
  rewrite split_app by (rewrite !not_elem_of_app; split_and!; [by_evaluation|apply b64_no_comma]).
  rewrite split_plain by (rewrite !not_elem_of_app; split_and!; [by_evaluation|done]).
  match goal with |- context [server_first_fields no_fields ?l] =>
    change (server_first_fields no_fields l) with
      (@Ok _ Error.Error {| sf_nonce := Some (nonce ++ server_nonce);
             sf_salt := Some (B64_encode (cr_salt cred)); sf_iterations := Some count |}) end.
  cbn [result_bind ok_or sf_nonce sf_salt sf_iterations]. rewrite Hn, b64_round_trip, Hp.
  rewrite (proj2 (starts_with_spec (nonce ++ server_nonce) nonce)) by by exists server_nonce.
  cbn [result_bind negb orb]. destruct server_nonce as [|c rest]; [done|].
  rewrite len_app. pose proof (len_pos c rest).
  rewrite (proj2 (Z.leb_gt _ _)), !(proj2 (Z.ltb_ge _ _)) by lia. reflexivity.
Qed.

Lemma server_first_valid cred nonce server_nonce count :
  Utf8.valid nonce -> Utf8.valid server_nonce -> Utf8.valid count ->
  Utf8.valid (server_first cred nonce server_nonce count).
Proof.
  intros. unfold server_first. rewrite !valid_app.
  split_and!; try apply valid_ascii; try apply b64_valid; try done; by repeat constructor.
Qed.

(** A server that stored the credential of a password accepts the proof made with
    it. *)
Lemma respond_accepts client first nonce salt iterations :
  Utf8.valid nonce -> 44 ∉ nonce ->
  let salted := salted_password_of client salt iterations in
  let message := Utf8.as_bytes (auth_message client first nonce) in
  let '(client_key, client_signature) := exchange_keys (hash client) salted message in
  respond (store (hash client) (Scram.password client) salt iterations)
    (client_first_bare client) first nonce
    (Utf8.as_bytes (client_final_without_proof nonce ++ text_of_string ",p="
                    ++ B64_encode (xor_bytes client_key client_signature)))
  = Some (text_of_string "v=" ++ B64_encode (server_signature (hash client) salted message)).
Proof.
  intros Hv Hc salted message. unfold exchange_keys, respond.
  set (client_key := hmac_finalize (hash client) salted (ascii "Client Key")).
  set (proof := xor_bytes _ _).
  rewrite from_utf8_as_bytes.
  2: { unfold client_final_without_proof. rewrite !valid_app.
       split_and!; try apply valid_ascii; try apply b64_valid; done. }
  set (c := text_of_string "c=" ++ B64_encode (Utf8.as_bytes GS2_HEADER)).
  set (r := text_of_string "r=" ++ nonce).
  assert (Hsplit : split 44 (client_final_without_proof nonce ++ text_of_string ",p=" ++ B64_encode proof)
                   = [c; r; text_of_string "p=" ++ B64_encode proof]).
  { assert (client_final_without_proof nonce ++ text_of_string ",p=" ++ B64_encode proof
            = c ++ 44 :: r ++ 44 :: (text_of_string "p=" ++ B64_encode proof)) as ->.
    { unfold client_final_without_proof, c, r. by rewrite <- !app_assoc. }
    rewrite !split_app, split_plain; [done| | |]; unfold c, r; rewrite not_elem_of_app;
      (split; [by_evaluation|]); [apply b64_no_comma|done|apply b64_no_comma]. }
  change (?f <$> Some ?x) with (Some (f x)). rewrite Hsplit.
  change (text_of_string "p=" ++ B64_encode proof) with (112 :: 61 :: B64_encode proof). cbv beta iota.
  rewrite !bool_decide_true by done. cbn [andb]. rewrite b64_round_trip.
  cbn [cr_hash stored_key server_key store].
  assert (Utf8.as_bytes (client_first_bare client ++ [44] ++ first ++ [44] ++ join [44] [c; r])
          = message) as ->.
  { unfold message, auth_message, client_final_without_proof, c, r. cbn [join].
    by rewrite <- !app_assoc. }
  change (pbkdf2_hmac (hash client) (Utf8.as_bytes (Scram.password client)) salt iterations)
    with salted. fold client_key. unfold proof.
  rewrite xor_bytes_involutive by apply hmac_length. by rewrite bool_decide_true.
Qed.

End laws.

(** A server's first message that is accepted extends the client's nonce and
    keeps the iteration count between the bounds. *)
Lemma read_server_first_Ok client first nonce salt iterations :
  read_server_first client first = Ok (nonce, salt, iterations) ->
  MIN_ITERATIONS <= iterations <= MAX_ITERATIONS
  /\ exists extra, nonce = client_nonce client ++ extra /\ extra <> [].
Proof.
  unfold read_server_first.
  destruct (server_first_fields no_fields _) as [fields|]; [|done]. cbn [result_bind].
  destruct (sf_nonce fields) as [n|]; [|done]. cbn [result_bind ok_or].
  destruct (negb _ || _) eqn:Hn; [done|].
  destruct (sf_salt fields) as [s|]; [|done]. cbn [result_bind ok_or].
  destruct (B64_decode s); [|done]. cbn [result_bind].
  destruct (sf_iterations fields) as [i|]; [|done]. cbn [result_bind ok_or].
  destruct (parse_u32 i); [|done]. cbn [result_bind].
  destruct (_ <? MIN_ITERATIONS) eqn:Hlo; [done|].
  destruct (MAX_ITERATIONS <? _) eqn:Hhi; [done|]. intros [= <- <- <-].
  apply orb_false_iff in Hn as [Hs%negb_false_iff Hl]. apply starts_with_spec in Hs as [extra ->].
  split; [lia|]. exists extra. split; [done|]. intros ->. rewrite app_nil_r in Hl. lia.
Qed.

(** The peer has signed this exchange: with the salt and the count it announced in
    its first message [sf], its last message [final] carries the signature, under
    the server key of the client's password, of a message that holds the client's own
    first message, its own, and a nonce that strictly extends the client's; and the
    password was hashed between [MIN_ITERATIONS] and [MAX_ITERATIONS] times. *)
Definition has_signed (client : ScramClient) (sf final : bytes) : Prop :=
  exists first nonce extra salt iterations answer signature,
    Utf8.from_utf8 sf = Some first
    /\ read_server_first client first = Ok (nonce, salt, iterations)
    /\ MIN_ITERATIONS <= iterations <= MAX_ITERATIONS
    /\ nonce = client_nonce client ++ extra /\ extra <> []
    /\ Utf8.from_utf8 final = Some answer
    /\ (118 :: 61 :: signature) ∈ split 44 answer
    /\ B64_decode signature
       = Ok (hmac_finalize (hash client)
               (hmac_finalize (hash client) (salted_password_of client salt iterations)
                  (ascii "Server Key"))
               (Utf8.as_bytes (auth_message client first nonce))).

Lemma accepted_has_signed `{!Base64Laws, !CryptoLaws} client sf outcome client' final :
  expected_server_signature client = None ->
  client_final client sf = (outcome, client') ->
  verify_server_final client' final = Ok tt ->
  has_signed client sf final.
Proof.
  intros Hnone Hcf Hv. destruct outcome as [m|e].
  - apply client_final_Ok in Hcf
      as (first & nonce & salt & i & ck & cs & sk & expected & Hu & Hr & _ & _ & Hsk & He & _ & Hx).
    rewrite !hmac_Ok in *. injection Hsk as <-. injection He as <-.
    destruct (read_server_first_Ok _ _ _ _ _ Hr) as (Hi & extra & Hn & Hne).
    unfold verify_server_final in Hv. rewrite Hx in Hv. cbn [ok_or result_bind] in Hv.
    destruct (Utf8.from_utf8 final) as [t|] eqn:Ht; [|done].
    apply verify_fields_Ok in Hv as (signature & Hin & Hd).
    exists first, nonce, extra, salt, i, t, signature. by do 7 (split; [done|]).
  - apply client_final_Err in Hcf as ->. unfold verify_server_final in Hv. by rewrite Hnone in Hv.
Qed.

End facts.

End ScramFacts.

(** A concrete choice of the other crates, to evaluate the definitions on: bytes
    written as pairs of letters, and primitives that mix their inputs. *)
Module ScramDemo.
Import Str Scram.

Definition letter (n : Z) : Z := 65 + n.

Definition encode (b : bytes) : text :=
  concat (map (fun x => [letter (b2z x / 16); letter (b2z x mod 16)]) b).

Fixpoint decode (s : text) : result bytes text :=
  match s with
  | [] => Ok []
  | hi :: lo :: s => let? b := decode s in Ok (z2b ((hi - 65) * 16 + (lo - 65)) :: b)
  | _ => Err (text_of_string "odd")
  end.

#[export] Instance demo_base64 : Base64 := {| B64_encode := encode; B64_decode := decode |}.
#[export] Instance demo_prep : StringPrep := {| stringprep_saslprep := Ok |}.
#[export] Instance demo_debug : StrDebug := {| debug_str := fun s => s |}.

(** Eight bytes of a sum over the input, each byte weighted by its place. *)
Definition mix (seed : Z) (data : bytes) : bytes :=
  let total := foldl (fun acc b => (acc * 31 + b2z b + 7) mod 2 ^ 64) seed data in
  map (fun i => z2b (total / 2 ^ (8 * i))) [0; 1; 2; 3; 4; 5; 6; 7].

#[export] Instance demo_crypto : Crypto := {|
  pbkdf2_hmac h password salt i := mix i (password ++ salt);
  hmac_rejects h key := None;
  hmac_finalize h key data := mix 5 (key ++ data);
  sha_digest h data := mix 11 data;
  ct_eq a b := bool_decide (a = b) |}.

#[export] Instance demo_base64_laws : Base64Laws.
Proof.
  split; intros b.
  - induction b as [|x b IH]; [done|].
    change (decode (letter (b2z x / 16) :: letter (b2z x mod 16) :: encode b) = Ok (x :: b)).
    cbn [decode]. simpl in IH. rewrite IH. cbn [result_bind]. repeat f_equal.
    rewrite <- (z2b_b2z x) at 3. f_equal. unfold letter. pose proof (b2z_range x). TextFacts.div_lia.
  - apply Forall_concat, Forall_map, Forall_forall. intros x _.
    pose proof (b2z_range x). unfold letter, is_ascii_alphanumeric, is_ascii_alphabetic.
    repeat constructor; TextFacts.div_lia.
Qed.

#[export] Instance demo_crypto_laws : CryptoLaws.
Proof. split; [done|done|]. intros a b. apply bool_decide_eq_true. Qed.

Definition pencil : result ScramClient Error.Error :=
  new Sha256 (text_of_string "us=er,") (text_of_string "pencil") (text_of_string "rOprNG")
    [(text_of_string "tokenauth", text_of_string "true")].

Definition pencil_client : ScramClient :=
  match pencil with
  | Ok client => client
  | Err _ => {| hash := Sha256; password := []; client_nonce := []; client_first_bare := [];
                expected_server_signature := None |}
  end.

Definition pencil_server : ScramServer.Credential :=
  ScramServer.store Sha256 (text_of_string "pencil") [z2b 1; z2b 2] 4096.

Definition pencil_first : text :=
  ScramServer.server_first pencil_server (text_of_string "rOprNG") (text_of_string "%hvYD")
    (text_of_string "4096").

(** A server that echoes the client's nonce, one whose count is below the floor, one
    whose count is above the ceiling, and one that reports an error, are all refused
    and leave the client waiting for nothing. *)
Example refused_server_firsts :
  Forall (fun s => match client_final pencil_client (ascii s) with
                   | (Err (Error.Authentication _), client) => client = pencil_client
                   | _ => False
                   end)
    ["r=rOprNG,s=,i=4096"; "r=other,s=,i=4096"; "r=rOprNGx,s=,i=4095"; "r=rOprNGx,s=,i=1000001";
     "r=rOprNGx,s=,i=4294967296"; "e=invalid-proof"; "s=,i=4096"; "r=rOprNGx,i=4096";
     "r=rOprNGx,s="]%string.
Proof. repeat constructor. Qed.

End ScramDemo.

Module ScramProperties.
Import Str Scram ScramServer ScramFacts TextFacts.

Section properties.
Context `{Base64, StringPrep, StrDebug, Crypto, !Base64Laws, !CryptoLaws}.

(** The first message a SCRAM client sends has exactly the attributes that
    were asked for: split at its commas it is the user name, the nonce and the
    extensions, in order, and the user name unescapes to the prepared one, so no user
    name or extension can add an attribute or end another. *)
Theorem client_first_has_its_attributes h username password nonce extensions client :
  new h username password nonce extensions = Ok client ->
  exists escaped,
    split 44 (client_first_bare client)
    = (text_of_string "n=" ++ escaped) :: (text_of_string "r=" ++ nonce)
      :: map attribute extensions
    /\ Ok (unescape escaped) = stringprep_saslprep username.
Proof.
  intros (u & p & -> & _ & Hn & Hx & ->)%new_Ok. exists (escape_username u).
  split; [|by rewrite unescape_escape]. cbn [client_first_bare].
  apply split_join. repeat constructor.
  - rewrite not_elem_of_app. split; [by_evaluation|apply escape_no_comma].
  - rewrite not_elem_of_app. split; [by_evaluation|done].
  - by apply Forall_map.
Qed.

(** The client and a server that follows RFC 5802 authenticate each other
    when the server stores the credential of the client's password: the server
    accepts the proof, and the client accepts the server's answer. *)
Theorem scram_exchange_succeeds h username password nonce extensions client
    server_nonce salt count iterations :
  new h username password nonce extensions = Ok client ->
  Utf8.valid nonce -> Utf8.valid server_nonce -> 44 ∉ server_nonce -> server_nonce <> [] ->
  Utf8.valid count -> 44 ∉ count -> parse_u32 count = Ok iterations ->
  MIN_ITERATIONS <= iterations <= MAX_ITERATIONS ->
  let cred := store h (Scram.password client) salt iterations in
  let first := server_first cred nonce server_nonce count in
  exists proof answer client',
    client_final client (Utf8.as_bytes first) = (Ok proof, client')
    /\ respond cred (client_first_bare client) first (nonce ++ server_nonce) proof = Some answer
    /\ verify_server_final client' (Utf8.as_bytes answer) = Ok tt.
Proof.
  intros Hnew Hvn Hvs Hcs Hns Hvc Hcc Hp Hi cred first.
  apply new_Ok in Hnew as (u & p & _ & _ & Hcn & _ & Hclient).
  assert (Hc : client_nonce client = nonce /\ hash client = h /\ expected_server_signature client = None)
    by (by rewrite Hclient). clear Hclient. destruct Hc as (Hc & Hh & Hnone).
  assert (Hread : read_server_first client first = Ok (nonce ++ server_nonce, salt, iterations)).
  { by apply read_server_first_of. }
  assert (Hu : Utf8.from_utf8 (Utf8.as_bytes first) = Some first)
    by (apply from_utf8_as_bytes; by apply server_first_valid).
  destruct (client_final_computes client (Utf8.as_bytes first) first _ _ _ Hu Hread)
    as (client' & Hcf & Hx).
  eexists _, _, client'. split; [exact Hcf|]. split.
  - unfold cred at 1. rewrite <- Hh.
    apply (respond_accepts client first (nonce ++ server_nonce) salt iterations).
    + apply valid_app. by split.
    + by rewrite not_elem_of_app.
  - unfold verify_server_final. rewrite Hx. cbn [ok_or result_bind].
    rewrite from_utf8_as_bytes by (apply valid_app; split; [apply valid_ascii|apply b64_valid]).
    rewrite split_plain by (rewrite not_elem_of_app; split; [by_evaluation|apply b64_no_comma]).
    apply verify_fields_signature.
Qed.

End properties.

Import ScramDemo.

Lemma client_first_has_its_attributes_witness :
  exists escaped,
    split 44 (client_first_bare pencil_client)
    = [text_of_string "n=" ++ escaped; text_of_string "r=rOprNG"; text_of_string "tokenauth=true"]
    /\ unescape escaped = text_of_string "us=er,".
Proof.
  destruct (client_first_has_its_attributes Sha256 (text_of_string "us=er,")
              (text_of_string "pencil") (text_of_string "rOprNG")
              [(text_of_string "tokenauth", text_of_string "true")] pencil_client)
    as (escaped & Hs & Hu); [vm_compute; reflexivity|].
  exists escaped. split; [exact Hs|]. by injection Hu.
Defined.

Lemma scram_exchange_succeeds_witness :
  exists proof answer client',
    client_final pencil_client (Utf8.as_bytes pencil_first) = (Ok proof, client')
    /\ respond pencil_server (client_first_bare pencil_client) pencil_first
         (text_of_string "rOprNG%hvYD") proof = Some answer
    /\ verify_server_final client' (Utf8.as_bytes answer) = Ok tt.
Proof.
  apply (scram_exchange_succeeds Sha256 (text_of_string "us=er,") (text_of_string "pencil")
           (text_of_string "rOprNG") [(text_of_string "tokenauth", text_of_string "true")]
           pencil_client (text_of_string "%hvYD") [z2b 1; z2b 2] (text_of_string "4096") 4096);
    try apply valid_ascii; try (vm_compute; reflexivity); try by_evaluation; done.
Defined.

End ScramProperties.
