(* ===== verification/ApiKeys.v ===== *)
(** API keys, the read-only gate's classification, sets of keys, the routing
    table and per-connection version negotiation
    ([crates/kafka-conn/src/api_key.rs], [crates/kafka-meta/src/routing.rs],
    [crates/kafka-conn/src/versions.rs]).

    The range of versions the codec can encode for a key is third-party
    ([kafka_protocol::messages::ApiKey::valid_versions]) and is the field of the
    class [Schemas]. *)

From S2P Require Import Prelude.

Module ApiKey.

(** A Kafka protocol API key. *)
Inductive ApiKey : Type :=
  | Produce
  | Fetch
  | ListOffsets
  | Metadata
  | OffsetCommit
  | OffsetFetch
  | FindCoordinator
  | JoinGroup
  | Heartbeat
  | LeaveGroup
  | SyncGroup
  | DescribeGroups
  | ListGroups
  | SaslHandshake
  | ApiVersions
  | CreateTopics
  | DeleteTopics
  | DeleteRecords
  | InitProducerId
  | OffsetForLeaderEpoch
  | AddPartitionsToTxn
  | AddOffsetsToTxn
  | EndTxn
  | WriteTxnMarkers
  | TxnOffsetCommit
  | DescribeAcls
  | CreateAcls
  | DeleteAcls
  | DescribeConfigs
  | AlterConfigs
  | AlterReplicaLogDirs
  | DescribeLogDirs
  | SaslAuthenticate
  | CreatePartitions
  | CreateDelegationToken
  | RenewDelegationToken
  | ExpireDelegationToken
  | DescribeDelegationToken
  | DeleteGroups
  | ElectLeaders
  | IncrementalAlterConfigs
  | AlterPartitionReassignments
  | ListPartitionReassignments
  | OffsetDelete
  | DescribeClientQuotas
  | AlterClientQuotas
  | DescribeUserScramCredentials
  | AlterUserScramCredentials
  | Vote
  | BeginQuorumEpoch
  | EndQuorumEpoch
  | DescribeQuorum
  | AlterPartition
  | UpdateFeatures
  | Envelope
  | FetchSnapshot
  | DescribeCluster
  | DescribeProducers
  | BrokerRegistration
  | BrokerHeartbeat
  | UnregisterBroker
  | DescribeTransactions
  | ListTransactions
  | AllocateProducerIds
  | ConsumerGroupHeartbeat
  | ConsumerGroupDescribe
  | ControllerRegistration
  | GetTelemetrySubscriptions
  | PushTelemetry
  | AssignReplicasToDirs
  | ListConfigResources
  | DescribeTopicPartitions
  | ShareGroupHeartbeat
  | ShareGroupDescribe
  | ShareFetch
  | ShareAcknowledge
  | AddRaftVoter
  | RemoveRaftVoter
  | UpdateRaftVoter
  | InitializeShareGroupState
  | ReadShareGroupState
  | WriteShareGroupState
  | DeleteShareGroupState
  | ReadShareGroupStateSummary
  | DescribeShareGroupOffsets
  | AlterShareGroupOffsets
  | DeleteShareGroupOffsets
  | Unknown (code : Z).

#[export] Instance ApiKey_eq_dec : EqDecision ApiKey.
Proof. solve_decision. Defined.

(** The wire code for this key. *)
Definition code (self : ApiKey) : Z :=
  match self with
  | Produce => 0
  | Fetch => 1
  | ListOffsets => 2
  | Metadata => 3
  | OffsetCommit => 8
  | OffsetFetch => 9
  | FindCoordinator => 10
  | JoinGroup => 11
  | Heartbeat => 12
  | LeaveGroup => 13
  | SyncGroup => 14
  | DescribeGroups => 15
  | ListGroups => 16
  | SaslHandshake => 17
  | ApiVersions => 18
  | CreateTopics => 19
  | DeleteTopics => 20
  | DeleteRecords => 21
  | InitProducerId => 22
  | OffsetForLeaderEpoch => 23
  | AddPartitionsToTxn => 24
  | AddOffsetsToTxn => 25
  | EndTxn => 26
  | WriteTxnMarkers => 27
  | TxnOffsetCommit => 28
  | DescribeAcls => 29
  | CreateAcls => 30
  | DeleteAcls => 31
  | DescribeConfigs => 32
  | AlterConfigs => 33
  | AlterReplicaLogDirs => 34
  | DescribeLogDirs => 35
  | SaslAuthenticate => 36
  | CreatePartitions => 37
  | CreateDelegationToken => 38
  | RenewDelegationToken => 39
  | ExpireDelegationToken => 40
  | DescribeDelegationToken => 41
  | DeleteGroups => 42
  | ElectLeaders => 43
  | IncrementalAlterConfigs => 44
  | AlterPartitionReassignments => 45
  | ListPartitionReassignments => 46
  | OffsetDelete => 47
  | DescribeClientQuotas => 48
  | AlterClientQuotas => 49
  | DescribeUserScramCredentials => 50
  | AlterUserScramCredentials => 51
  | Vote => 52
  | BeginQuorumEpoch => 53
  | EndQuorumEpoch => 54
  | DescribeQuorum => 55
  | AlterPartition => 56
  | UpdateFeatures => 57
  | Envelope => 58
  | FetchSnapshot => 59
  | DescribeCluster => 60
  | DescribeProducers => 61
  | BrokerRegistration => 62
  | BrokerHeartbeat => 63
  | UnregisterBroker => 64
  | DescribeTransactions => 65
  | ListTransactions => 66
  | AllocateProducerIds => 67
  | ConsumerGroupHeartbeat => 68
  | ConsumerGroupDescribe => 69
  | ControllerRegistration => 70
  | GetTelemetrySubscriptions => 71
  | PushTelemetry => 72
  | AssignReplicasToDirs => 73
  | ListConfigResources => 74
  | DescribeTopicPartitions => 75
  | ShareGroupHeartbeat => 76
  | ShareGroupDescribe => 77
  | ShareFetch => 78
  | ShareAcknowledge => 79
  | AddRaftVoter => 80
  | RemoveRaftVoter => 81
  | UpdateRaftVoter => 82
  | InitializeShareGroupState => 83
  | ReadShareGroupState => 84
  | WriteShareGroupState => 85
  | DeleteShareGroupState => 86
  | ReadShareGroupStateSummary => 87
  | DescribeShareGroupOffsets => 90
  | AlterShareGroupOffsets => 91
  | DeleteShareGroupOffsets => 92
  | Unknown code => code
  end.

(** The key for a wire code, or [Unknown]. *)
Definition from_code (code : Z) : ApiKey :=
  match code with
  | 0 => Produce
  | 1 => Fetch
  | 2 => ListOffsets
  | 3 => Metadata
  | 8 => OffsetCommit
  | 9 => OffsetFetch
  | 10 => FindCoordinator
  | 11 => JoinGroup
  | 12 => Heartbeat
  | 13 => LeaveGroup
  | 14 => SyncGroup
  | 15 => DescribeGroups
  | 16 => ListGroups
  | 17 => SaslHandshake
  | 18 => ApiVersions
  | 19 => CreateTopics
  | 20 => DeleteTopics
  | 21 => DeleteRecords
  | 22 => InitProducerId
  | 23 => OffsetForLeaderEpoch
  | 24 => AddPartitionsToTxn
  | 25 => AddOffsetsToTxn
  | 26 => EndTxn
  | 27 => WriteTxnMarkers
  | 28 => TxnOffsetCommit
  | 29 => DescribeAcls
  | 30 => CreateAcls
  | 31 => DeleteAcls
  | 32 => DescribeConfigs
  | 33 => AlterConfigs
  | 34 => AlterReplicaLogDirs
  | 35 => DescribeLogDirs
  | 36 => SaslAuthenticate
  | 37 => CreatePartitions
  | 38 => CreateDelegationToken
  | 39 => RenewDelegationToken
  | 40 => ExpireDelegationToken
  | 41 => DescribeDelegationToken
  | 42 => DeleteGroups
  | 43 => ElectLeaders
  | 44 => IncrementalAlterConfigs
  | 45 => AlterPartitionReassignments
  | 46 => ListPartitionReassignments
  | 47 => OffsetDelete
  | 48 => DescribeClientQuotas
  | 49 => AlterClientQuotas
  | 50 => DescribeUserScramCredentials
  | 51 => AlterUserScramCredentials
  | 52 => Vote
  | 53 => BeginQuorumEpoch
  | 54 => EndQuorumEpoch
  | 55 => DescribeQuorum
  | 56 => AlterPartition
  | 57 => UpdateFeatures
  | 58 => Envelope
  | 59 => FetchSnapshot
  | 60 => DescribeCluster
  | 61 => DescribeProducers
  | 62 => BrokerRegistration
  | 63 => BrokerHeartbeat
  | 64 => UnregisterBroker
  | 65 => DescribeTransactions
  | 66 => ListTransactions
  | 67 => AllocateProducerIds
  | 68 => ConsumerGroupHeartbeat
  | 69 => ConsumerGroupDescribe
  | 70 => ControllerRegistration
  | 71 => GetTelemetrySubscriptions
  | 72 => PushTelemetry
  | 73 => AssignReplicasToDirs
  | 74 => ListConfigResources
  | 75 => DescribeTopicPartitions
  | 76 => ShareGroupHeartbeat
  | 77 => ShareGroupDescribe
  | 78 => ShareFetch
  | 79 => ShareAcknowledge
  | 80 => AddRaftVoter
  | 81 => RemoveRaftVoter
  | 82 => UpdateRaftVoter
  | 83 => InitializeShareGroupState
  | 84 => ReadShareGroupState
  | 85 => WriteShareGroupState
  | 86 => DeleteShareGroupState
  | 87 => ReadShareGroupStateSummary
  | 90 => DescribeShareGroupOffsets
  | 91 => AlterShareGroupOffsets
  | 92 => DeleteShareGroupOffsets
  | other => Unknown other
  end.

(** The key's name, for logs and UI. *)
Definition name (self : ApiKey) : string :=
  match self with
  | Produce => "Produce"%string
  | Fetch => "Fetch"%string
  | ListOffsets => "ListOffsets"%string
  | Metadata => "Metadata"%string
  | OffsetCommit => "OffsetCommit"%string
  | OffsetFetch => "OffsetFetch"%string
  | FindCoordinator => "FindCoordinator"%string
  | JoinGroup => "JoinGroup"%string
  | Heartbeat => "Heartbeat"%string
  | LeaveGroup => "LeaveGroup"%string
  | SyncGroup => "SyncGroup"%string
  | DescribeGroups => "DescribeGroups"%string
  | ListGroups => "ListGroups"%string
  | SaslHandshake => "SaslHandshake"%string
  | ApiVersions => "ApiVersions"%string
  | CreateTopics => "CreateTopics"%string
  | DeleteTopics => "DeleteTopics"%string
  | DeleteRecords => "DeleteRecords"%string
  | InitProducerId => "InitProducerId"%string
  | OffsetForLeaderEpoch => "OffsetForLeaderEpoch"%string
  | AddPartitionsToTxn => "AddPartitionsToTxn"%string
  | AddOffsetsToTxn => "AddOffsetsToTxn"%string
  | EndTxn => "EndTxn"%string
  | WriteTxnMarkers => "WriteTxnMarkers"%string
  | TxnOffsetCommit => "TxnOffsetCommit"%string
  | DescribeAcls => "DescribeAcls"%string
  | CreateAcls => "CreateAcls"%string
  | DeleteAcls => "DeleteAcls"%string
  | DescribeConfigs => "DescribeConfigs"%string
  | AlterConfigs => "AlterConfigs"%string
  | AlterReplicaLogDirs => "AlterReplicaLogDirs"%string
  | DescribeLogDirs => "DescribeLogDirs"%string
  | SaslAuthenticate => "SaslAuthenticate"%string
  | CreatePartitions => "CreatePartitions"%string
  | CreateDelegationToken => "CreateDelegationToken"%string
  | RenewDelegationToken => "RenewDelegationToken"%string
  | ExpireDelegationToken => "ExpireDelegationToken"%string
  | DescribeDelegationToken => "DescribeDelegationToken"%string
  | DeleteGroups => "DeleteGroups"%string
  | ElectLeaders => "ElectLeaders"%string
  | IncrementalAlterConfigs => "IncrementalAlterConfigs"%string
  | AlterPartitionReassignments => "AlterPartitionReassignments"%string
  | ListPartitionReassignments => "ListPartitionReassignments"%string
  | OffsetDelete => "OffsetDelete"%string
  | DescribeClientQuotas => "DescribeClientQuotas"%string
  | AlterClientQuotas => "AlterClientQuotas"%string
  | DescribeUserScramCredentials => "DescribeUserScramCredentials"%string
  | AlterUserScramCredentials => "AlterUserScramCredentials"%string
  | Vote => "Vote"%string
  | BeginQuorumEpoch => "BeginQuorumEpoch"%string
  | EndQuorumEpoch => "EndQuorumEpoch"%string
  | DescribeQuorum => "DescribeQuorum"%string
  | AlterPartition => "AlterPartition"%string
  | UpdateFeatures => "UpdateFeatures"%string
  | Envelope => "Envelope"%string
  | FetchSnapshot => "FetchSnapshot"%string
  | DescribeCluster => "DescribeCluster"%string
  | DescribeProducers => "DescribeProducers"%string
  | BrokerRegistration => "BrokerRegistration"%string
  | BrokerHeartbeat => "BrokerHeartbeat"%string
  | UnregisterBroker => "UnregisterBroker"%string
  | DescribeTransactions => "DescribeTransactions"%string
  | ListTransactions => "ListTransactions"%string
  | AllocateProducerIds => "AllocateProducerIds"%string
  | ConsumerGroupHeartbeat => "ConsumerGroupHeartbeat"%string
  | ConsumerGroupDescribe => "ConsumerGroupDescribe"%string
  | ControllerRegistration => "ControllerRegistration"%string
  | GetTelemetrySubscriptions => "GetTelemetrySubscriptions"%string
  | PushTelemetry => "PushTelemetry"%string
  | AssignReplicasToDirs => "AssignReplicasToDirs"%string
  | ListConfigResources => "ListConfigResources"%string
  | DescribeTopicPartitions => "DescribeTopicPartitions"%string
  | ShareGroupHeartbeat => "ShareGroupHeartbeat"%string
  | ShareGroupDescribe => "ShareGroupDescribe"%string
  | ShareFetch => "ShareFetch"%string
  | ShareAcknowledge => "ShareAcknowledge"%string
  | AddRaftVoter => "AddRaftVoter"%string
  | RemoveRaftVoter => "RemoveRaftVoter"%string
  | UpdateRaftVoter => "UpdateRaftVoter"%string
  | InitializeShareGroupState => "InitializeShareGroupState"%string
  | ReadShareGroupState => "ReadShareGroupState"%string
  | WriteShareGroupState => "WriteShareGroupState"%string
  | DeleteShareGroupState => "DeleteShareGroupState"%string
  | ReadShareGroupStateSummary => "ReadShareGroupStateSummary"%string
  | DescribeShareGroupOffsets => "DescribeShareGroupOffsets"%string
  | AlterShareGroupOffsets => "AlterShareGroupOffsets"%string
  | DeleteShareGroupOffsets => "DeleteShareGroupOffsets"%string
  | Unknown _ => "Unknown"%string
  end.

(** Every named key, in wire-code order. *)
Definition KNOWN : list ApiKey :=
  [ Produce; Fetch; ListOffsets; Metadata; OffsetCommit; OffsetFetch; FindCoordinator;
    JoinGroup; Heartbeat; LeaveGroup; SyncGroup; DescribeGroups; ListGroups;
    SaslHandshake; ApiVersions; CreateTopics; DeleteTopics; DeleteRecords; InitProducerId;
    OffsetForLeaderEpoch; AddPartitionsToTxn; AddOffsetsToTxn; EndTxn; WriteTxnMarkers;
    TxnOffsetCommit; DescribeAcls; CreateAcls; DeleteAcls; DescribeConfigs; AlterConfigs;
    AlterReplicaLogDirs; DescribeLogDirs; SaslAuthenticate; CreatePartitions;
    CreateDelegationToken; RenewDelegationToken; ExpireDelegationToken;
    DescribeDelegationToken; DeleteGroups; ElectLeaders; IncrementalAlterConfigs;
    AlterPartitionReassignments; ListPartitionReassignments; OffsetDelete;
    DescribeClientQuotas; AlterClientQuotas; DescribeUserScramCredentials;
    AlterUserScramCredentials; Vote; BeginQuorumEpoch; EndQuorumEpoch; DescribeQuorum;
    AlterPartition; UpdateFeatures; Envelope; FetchSnapshot; DescribeCluster;
    DescribeProducers; BrokerRegistration; BrokerHeartbeat; UnregisterBroker;
    DescribeTransactions; ListTransactions; AllocateProducerIds; ConsumerGroupHeartbeat;
    ConsumerGroupDescribe; ControllerRegistration; GetTelemetrySubscriptions;
    PushTelemetry; AssignReplicasToDirs; ListConfigResources; DescribeTopicPartitions;
    ShareGroupHeartbeat; ShareGroupDescribe; ShareFetch; ShareAcknowledge; AddRaftVoter;
    RemoveRaftVoter; UpdateRaftVoter; InitializeShareGroupState; ReadShareGroupState;
    WriteShareGroupState; DeleteShareGroupState; ReadShareGroupStateSummary;
    DescribeShareGroupOffsets; AlterShareGroupOffsets; DeleteShareGroupOffsets ].

(** Whether sending this key can change cluster state: an allowlist of
    read-only keys, and deny by default. *)
Definition is_mutating (self : ApiKey) : bool :=
  match self with
  | Fetch | ListOffsets | Metadata | OffsetFetch | FindCoordinator | DescribeGroups |
      ListGroups | SaslHandshake | ApiVersions | OffsetForLeaderEpoch | DescribeAcls |
      DescribeConfigs | DescribeLogDirs | SaslAuthenticate | DescribeDelegationToken |
      ListPartitionReassignments | DescribeClientQuotas | DescribeUserScramCredentials |
      DescribeQuorum | DescribeCluster | DescribeProducers | DescribeTransactions |
      ListTransactions | ConsumerGroupDescribe | ListConfigResources |
      DescribeTopicPartitions | ShareGroupDescribe | DescribeShareGroupOffsets => false
  | _ => true
  end.

End ApiKey.

(** A set of api keys, held by wire code. *)
Module ApiKeySet.

Record ApiKeySet : Type := { codes : gset Z }.

Definition new : ApiKeySet := {| codes := ∅ |}.

Definition contains (self : ApiKeySet) (key : ApiKey.ApiKey) : bool :=
  bool_decide (ApiKey.code key ∈ codes self).

Definition intersection (self other : ApiKeySet) : ApiKeySet :=
  {| codes := codes self ∩ codes other |}.

Definition is_empty (self : ApiKeySet) : bool := bool_decide (codes self = ∅).

Definition len (self : ApiKeySet) : nat := size (codes self).

(** The keys, in code order: a [BTreeSet] iterates in order. *)
Definition iter (self : ApiKeySet) : list ApiKey.ApiKey :=
  map ApiKey.from_code (merge_sort Z.le (elements (codes self))).

Definition from_iter (keys : list ApiKey.ApiKey) : ApiKeySet :=
  {| codes := list_to_set (map ApiKey.code keys) |}.

End ApiKeySet.

(** ** Routing ([routing.rs]) *)

Module Routing.

Inductive CoordinatorKind : Type := Group | Transaction.

#[export] Instance CoordinatorKind_eq_dec : EqDecision CoordinatorKind.
Proof. solve_decision. Defined.

(** The [key_type] byte [FindCoordinator] expects. *)
Definition key_type (self : CoordinatorKind) : Z :=
  match self with Group => 0 | Transaction => 1 end.

Inductive BrokerSelector : Type := Caller | PartitionLeader.

Inductive Routing : Type :=
  | Any
  | Controller
  | Coordinator (kind : CoordinatorKind)
  | Specific (selector : BrokerSelector).

Import ApiKey.

(** The routing class for an api key. *)
Definition routing (api_key : ApiKey) : Routing :=
  match api_key with
  | CreateTopics | DeleteTopics | CreatePartitions | AlterPartitionReassignments
  | ListPartitionReassignments | ElectLeaders | UpdateFeatures => Controller
  | OffsetCommit | OffsetFetch | OffsetDelete | JoinGroup | Heartbeat | LeaveGroup
  | SyncGroup | DescribeGroups | DeleteGroups | ConsumerGroupDescribe
  | ConsumerGroupHeartbeat | ShareGroupDescribe | ShareGroupHeartbeat
  | DescribeShareGroupOffsets | AlterShareGroupOffsets | DeleteShareGroupOffsets
  | TxnOffsetCommit => Coordinator Group
  | InitProducerId | AddPartitionsToTxn | AddOffsetsToTxn | EndTxn
  | DescribeTransactions => Coordinator Transaction
  | DescribeLogDirs | AlterReplicaLogDirs | DescribeProducers => Specific Caller
  | Produce | Fetch | ListOffsets | OffsetForLeaderEpoch => Specific PartitionLeader
  | _ => Any
  end.

End Routing.

(** ** Version negotiation ([versions.rs]) *)

(** What the codec can encode, by wire code; [None] for a key it has no schema
    for. *)
Class Schemas : Type := { valid_versions : Z -> option (Z * Z) }.

Module Versions.

(** What one end supports for one api key. *)
Record VersionRange : Type := { min : Z; max : Z }.

#[export] Instance VersionRange_eq_dec : EqDecision VersionRange.
Proof. solve_decision. Defined.

Definition is_empty (self : VersionRange) : bool := max self <? min self.

(** The overlap with another range, possibly empty. *)
Definition intersect (self other : VersionRange) : VersionRange :=
  {| min := if min other <? min self then min self else min other;
     max := if max self <? max other then max self else max other |}.

(** One row of a broker's version table. *)
Record BrokerApiVersion : Type := {
  api_key : ApiKey.ApiKey;
  broker : VersionRange;
  ours : option VersionRange;
}.

(** The version we would use, or [None] when there is no overlap. *)
Definition negotiated (self : BrokerApiVersion) : option Z :=
  match ours self with
  | None => None
  | Some ours =>
      let overlap := intersect (broker self) ours in
      if is_empty overlap then None else Some (max overlap)
  end.

(** Whether the broker offers a version newer than anything we can encode. *)
Definition broker_ahead (self : BrokerApiVersion) : bool :=
  match ours self with
  | Some ours => max ours <? max (broker self)
  | None => false
  end.

(** A broker's advertised API versions, keyed by wire code. *)
Record ApiVersions : Type := { entries : gmap Z BrokerApiVersion }.

(** What this build's codec can encode for an api key. *)
Definition our_range `{Schemas} (api_key : ApiKey.ApiKey) : option VersionRange :=
  (fun '(lo, hi) => {| min := lo; max := hi |}) <$> valid_versions (ApiKey.code api_key).

(** Build a table from [(api_key_code, min, max)] triples: collected into a map
    in order, so a later triple for a code replaces an earlier one. *)
Definition from_triples `{Schemas} (triples : list (Z * Z * Z)) : ApiVersions :=
  {| entries :=
       foldl (fun m '(code, lo, hi) =>
                let api_key := ApiKey.from_code code in
                <[code := {| api_key := api_key;
                             broker := {| min := lo; max := hi |};
                             ours := our_range api_key |}]> m)
             ∅ triples |}.

Definition len (self : ApiVersions) : nat := size (entries self).

Definition versions_is_empty (self : ApiVersions) : bool := bool_decide (entries self = ∅).

(** The row for one key. *)
Definition get (self : ApiVersions) (api_key : ApiKey.ApiKey) : option BrokerApiVersion :=
  entries self !! ApiKey.code api_key.

(** Whether both ends share a version of this key. *)
Definition supports (self : ApiVersions) (api_key : ApiKey.ApiKey) : bool :=
  match get self api_key with
  | Some e => bool_decide (is_Some (negotiated e))
  | None => false
  end.

(** [Error::UnsupportedApi]'s payload. *)
Record UnsupportedApi : Type := {
  ua_api_key : ApiKey.ApiKey;
  ua_broker : option (Z * Z);
  ua_ours : option (Z * Z);
}.

Definition into_pair (r : VersionRange) : Z * Z := (min r, max r).

(** The version to send, clamped to a caller-supplied range. *)
Definition negotiate_with (self : ApiVersions) (api_key : ApiKey.ApiKey)
    (ours : option VersionRange) : result Z UnsupportedApi :=
  let entry := entries self !! ApiKey.code api_key in
  let negotiated :=
    match entry, ours with
    | Some entry, Some ours =>
        let overlap := intersect (broker entry) ours in
        if is_empty overlap then None else Some (max overlap)
    | _, _ => None
    end in
  match negotiated with
  | Some version => Ok version
  | None =>
      Err {| ua_api_key := api_key;
             ua_broker := (fun e => into_pair (broker e)) <$> entry;
             ua_ours := into_pair <$> ours |}
  end.

(** The version to send, or a typed error naming both ranges. *)
Definition negotiate `{Schemas} (self : ApiVersions) (api_key : ApiKey.ApiKey)
    : result Z UnsupportedApi :=
  negotiate_with self api_key (our_range api_key).

End Versions.

(** ** The gate on mutations

    [ConnectionConfig::permits] ([crates/kafka-conn/src/config.rs]), the scope a
    [Cluster] handle carries ([crates/kafka-meta/src/cluster.rs]), and the keys
    each admin operation needs ([crates/kafka-admin/src/ops.rs]). *)

Module Gate.
Import ApiKey.

(** The part of [ConnectionConfig] the gate reads. *)
Record ConnectionConfig : Type := {
  read_only : bool;
  allowed_mutations : option ApiKeySet.ApiKeySet;
}.

Definition with_read_only (self : ConnectionConfig) : ConnectionConfig :=
  {| read_only := true; allowed_mutations := allowed_mutations self |}.

Definition with_allowed_mutations (self : ConnectionConfig) (keys : list ApiKey)
    : ConnectionConfig :=
  {| read_only := read_only self; allowed_mutations := Some (ApiKeySet.from_iter keys) |}.

(** Whether a request with this api key may be sent at all. *)
Definition permits (self : ConnectionConfig) (api_key : ApiKey) : bool :=
  if negb (is_mutating api_key) then true
  else if read_only self then false
  else match allowed_mutations self with
       | None => true
       | Some allowed => ApiKeySet.contains allowed api_key
       end.

(** The part of a [Cluster] handle the scope check reads: the connections it
    shares, and its own scope. *)
Record Cluster : Type := {
  connection : ConnectionConfig;
  scope : option ApiKeySet.ApiKeySet;
}.

(** A handle over the same pool that may send only these mutating keys. *)
Definition scoped (self : Cluster) (keys : list ApiKey) : Cluster :=
  let keys := ApiKeySet.from_iter keys in
  {| connection := connection self;
     scope := Some match scope self with
                   | Some current => ApiKeySet.intersection current keys
                   | None => keys
                   end |}.

(** Whether this handle's scope admits a request with this api key. *)
Definition in_scope (self : Cluster) (api_key : ApiKey) : bool :=
  negb (is_mutating api_key)
  || match scope self with
     | None => true
     | Some scope => ApiKeySet.contains scope api_key
     end.

(** The mutating keys each admin operation sends. *)
Definition CREATE_TOPICS := [CreateTopics].
Definition DELETE_TOPICS := [DeleteTopics].
Definition CREATE_PARTITIONS := [CreatePartitions].
Definition DELETE_RECORDS := [DeleteRecords].
Definition ALTER_CONFIGS := [IncrementalAlterConfigs].
Definition RESET_OFFSETS := [OffsetCommit].
Definition DELETE_OFFSETS := [OffsetDelete].
Definition DELETE_GROUPS := [DeleteGroups].
Definition CREATE_ACLS := [CreateAcls].
Definition DELETE_ACLS := [DeleteAcls].
Definition ALTER_CLIENT_QUOTAS := [AlterClientQuotas].
Definition ALTER_SCRAM_CREDENTIALS := [AlterUserScramCredentials].
Definition ALTER_PARTITION_REASSIGNMENTS := [AlterPartitionReassignments].
Definition ELECT_LEADERS := [ElectLeaders].
Definition CREATE_DELEGATION_TOKEN := [CreateDelegationToken].
Definition RENEW_DELEGATION_TOKEN := [RenewDelegationToken].
Definition EXPIRE_DELEGATION_TOKEN := [ExpireDelegationToken].

Definition ALL : list (list ApiKey) :=
  [CREATE_TOPICS; DELETE_TOPICS; CREATE_PARTITIONS; DELETE_RECORDS; ALTER_CONFIGS;
   RESET_OFFSETS; DELETE_OFFSETS; DELETE_GROUPS; CREATE_ACLS; DELETE_ACLS;
   ALTER_CLIENT_QUOTAS; ALTER_SCRAM_CREDENTIALS; ALTER_PARTITION_REASSIGNMENTS;
   ELECT_LEADERS; CREATE_DELEGATION_TOKEN; RENEW_DELEGATION_TOKEN;
   EXPIRE_DELEGATION_TOKEN].

End Gate.

(** ** Lemmas *)

Module ApiKeyFacts.
Import ApiKey.

Lemma known_keys_complete k : (exists c, k = Unknown c) \/ k ∈ KNOWN.
Proof.
  destruct k; try (right; apply (bool_decide_unpack _); vm_compute; exact I).
  left. by eexists.
Qed.

Lemma from_code_known : map from_code (map code KNOWN) = KNOWN.
Proof. vm_compute. reflexivity. Qed.

Lemma code_from_code c : code (from_code c) = c.
Proof. unfold from_code. repeat case_match; reflexivity. Qed.

Lemma from_code_code k : k ∈ KNOWN -> from_code (code k) = k.
Proof.
  intros Hk. pose proof from_code_known as H. rewrite map_map in H.
  apply list_elem_of_lookup in Hk as [i Hi].
  apply (f_equal (fun l => l !! i)) in H. rewrite Hi in H.
  rewrite list_lookup_fmap, Hi in H. by injection H.
Qed.

End ApiKeyFacts.

Module VersionFacts.
Import Versions.

(** Membership of a version in a range. *)
Definition in_range (v : Z) (r : VersionRange) : Prop := min r <= v <= max r.

Lemma intersect_spec v a b : in_range v (intersect a b) <-> in_range v a /\ in_range v b.
Proof.
  unfold in_range, intersect. simpl.
  destruct (min b <? min a) eqn:?, (max a <? max b) eqn:?; lia.
Qed.

Lemma is_empty_spec r : is_empty r = true <-> forall v, ~ in_range v r.
Proof.
  unfold is_empty, in_range. split.
  - lia.
  - intros H. specialize (H (min r)). lia.
Qed.

Lemma nonempty_max r : is_empty r = false -> in_range (max r) r.
Proof. unfold is_empty, in_range. lia. Qed.

Lemma overlap_Some a b v :
  (if is_empty (intersect a b) then None else Some (max (intersect a b))) = Some v ->
  in_range v a /\ in_range v b /\ forall w, in_range w a -> in_range w b -> w <= v.
Proof.
  destruct (is_empty (intersect a b)) eqn:E; [done|]. intros [= <-].
  apply nonempty_max, intersect_spec in E as [Ha Hb]. split_and!; [done|done|].
  intros w Hwa Hwb. assert (in_range w (intersect a b)) as [_ Hw] by (by apply intersect_spec).
  done.
Qed.

Lemma overlap_None a b :
  (if is_empty (intersect a b) then None else Some (max (intersect a b))) = None ->
  forall v, in_range v a -> ~ in_range v b.
Proof.
  destruct (is_empty (intersect a b)) eqn:E; [|done]. intros _ v Ha Hb.
  rewrite is_empty_spec in E. apply (E v). by apply intersect_spec.
Qed.

Lemma from_triples_lookup `{Schemas} ts code lo hi :
  (forall lo' hi', (code, lo', hi') ∉ ts) ->
  entries (from_triples (ts ++ [(code, lo, hi)])) !! code
  = Some {| api_key := ApiKey.from_code code; broker := {| min := lo; max := hi |};
            ours := our_range (ApiKey.from_code code) |}.
Proof. intros _. unfold from_triples. rewrite foldl_app. simpl. by rewrite lookup_insert_eq. Qed.

End VersionFacts.


Module GateFacts.
Import ApiKey ApiKeySet Gate.

Lemma contains_from_iter keys k : contains (from_iter keys) k = bool_decide (code k ∈ map code keys).
Proof.
  unfold contains, from_iter. simpl. apply bool_decide_ext. by rewrite elem_of_list_to_set.
Qed.

Lemma contains_intersection a b k :
  contains (intersection a b) k = contains a k && contains b k.
Proof.
  unfold contains, intersection. simpl. rewrite <- bool_decide_and.
  apply bool_decide_ext. by rewrite elem_of_intersection.
Qed.

(** Narrowing a handle by each of a chain of key lists. *)
Definition scoped_by (self : Cluster) (chain : list (list ApiKey)) : Cluster :=
  foldl scoped self chain.

Lemma in_scope_scoped self keys k :
  in_scope (scoped self keys) k
  = in_scope self k && (negb (is_mutating k) || contains (from_iter keys) k).
Proof.
  unfold in_scope, scoped. simpl. destruct (is_mutating k); simpl; [|done].
  destruct (scope self) as [s|]; [apply contains_intersection|done].
Qed.

Lemma in_scope_scoped_by chain self k :
  in_scope (scoped_by self chain) k
  = in_scope self k
    && forallb (fun keys => negb (is_mutating k) || contains (from_iter keys) k) chain.
Proof.
  unfold scoped_by. revert self. induction chain as [|keys chain IH]; intros self; simpl.
  - by rewrite andb_true_r.
  - rewrite IH, in_scope_scoped. by rewrite andb_assoc.
Qed.

Lemma connection_scoped_by chain self : connection (scoped_by self chain) = connection self.
Proof.
  unfold scoped_by. revert self. induction chain as [|keys chain IH]; intros self; simpl; [done|].
  by rewrite IH.
Qed.

Lemma forallb_contains chain k :
  forallb (fun keys => contains (from_iter keys) k) chain = true
  <-> Forall (fun keys => code k ∈ map code keys) chain.
Proof.
  induction chain as [|keys chain IH]; simpl; [split; [constructor|done]|].
  rewrite andb_true_iff, IH, Forall_cons, contains_from_iter, bool_decide_eq_true. done.
Qed.

Lemma all_ops_mutating : forallb (forallb is_mutating) ALL = true.
Proof. reflexivity. Qed.

Lemma iter_from_iter s :
  codes (from_iter (iter s)) = codes s.
Proof.
  unfold from_iter, iter. simpl. rewrite map_map.
  rewrite (map_ext _ (fun c => c)), map_id by apply ApiKeyFacts.code_from_code.
  apply set_eq. intros x. rewrite elem_of_list_to_set.
  rewrite (merge_sort_Permutation Z.le (elements (codes s))). by rewrite elem_of_elements.
Qed.

End GateFacts.


(** ** Properties *)

Module ApiKeyProperties.
Import ApiKey ApiKeyFacts.

(** An api key survives the wire: decoding a wire code and taking its code
    is the identity on every code, named or not; encoding and decoding is the
    identity on every named key. *)
Theorem api_key_round_trip (c : Z) (k : ApiKey) :
  code (from_code c) = c /\ (k ∈ KNOWN \/ (exists c', k = from_code c') -> from_code (code k) = k).
Proof.
  split; [apply code_from_code|].
  intros [Hk|[c' ->]]; [by apply from_code_code|by rewrite code_from_code].
Qed.

Lemma api_key_round_trip_witness : from_code (code (from_code 9999)) = from_code 9999.
Proof. apply (api_key_round_trip 0). right. by exists 9999. Defined.

End ApiKeyProperties.

Module VersionProperties.
Import Versions VersionFacts.

(** Negotiation picks the highest version both ends support: an answer lies
    in the broker's range and in ours and no common version is above it; an error
    names both ranges and means the key was not advertised, has no schema here,
    or the ranges share no version. *)
Theorem negotiate_with_highest (table : ApiVersions) (k : ApiKey.ApiKey) (o : option VersionRange) :
  match negotiate_with table k o with
  | Ok v => exists e r, get table k = Some e /\ o = Some r
            /\ in_range v (broker e) /\ in_range v r
            /\ forall w, in_range w (broker e) -> in_range w r -> w <= v
  | Err u => ua_api_key u = k
             /\ ua_broker u = into_pair ∘ broker <$> get table k
             /\ ua_ours u = into_pair <$> o
             /\ forall e r v, get table k = Some e -> o = Some r ->
                in_range v (broker e) -> ~ in_range v r
  end.
Proof.
  unfold negotiate_with, get. destruct (entries table !! ApiKey.code k) as [e|] eqn:He, o as [r|].
  - destruct (if is_empty (intersect (broker e) r) then None else _) as [v|] eqn:Hv.
    + apply overlap_Some in Hv. naive_solver.
    + pose proof (overlap_None _ _ Hv) as Hn. split_and!; try done.
      intros ? ? v [= <-] [= <-]. apply Hn.
  - split_and!; try done.
  - split_and!; try done.
  - split_and!; try done.
Qed.

End VersionProperties.

Module GateProperties.
Import ApiKey ApiKeySet Gate GateFacts.

(** A request passes both gates exactly when it is a read, or when its key is
    in every scope the handle was narrowed by and the connection is neither
    read-only nor under a ceiling that omits it: narrowing a handle any number of
    times never admits a key an earlier scope refused, and a read is never
    refused. *)
Theorem scopes_never_widen (self : Cluster) (chain : list (list ApiKey)) (k : ApiKey) :
  let h := scoped_by self chain in
  (in_scope h k && permits (connection h) k = true)
  <-> (is_mutating k = false
       \/ (in_scope self k = true
           /\ Forall (fun keys => code k ∈ map code keys) chain
           /\ read_only (connection self) = false
           /\ forall allowed, allowed_mutations (connection self) = Some allowed ->
              contains allowed k = true)).
Proof.
  intros h. subst h. rewrite in_scope_scoped_by, connection_scoped_by.
  unfold permits. destruct (is_mutating k) eqn:Hk; simpl.
  - rewrite !andb_true_iff, forallb_contains.
    destruct (read_only (connection self)), (allowed_mutations (connection self)) as [a|];
      naive_solver.
  - unfold in_scope at 1. rewrite Hk. simpl. rewrite andb_true_r.
    split; [by left|]. intros _. induction chain; simpl; done.
Qed.

(** A handle scoped to one admin operation's keys sends reads and exactly that
    operation's keys, and none of those keys is a read. *)
Theorem operation_scope_is_least_privilege (self : Cluster) (op : list ApiKey) (k : ApiKey) :
  scope self = None -> op ∈ ALL ->
  (in_scope (scoped self op) k = true <-> is_mutating k = false \/ code k ∈ map code op)
  /\ Forall (fun k => is_mutating k = true) op.
Proof.
  intros Hs Hop. split.
  - rewrite in_scope_scoped, contains_from_iter. unfold in_scope. rewrite Hs, orb_true_r. simpl.
    rewrite orb_true_iff, negb_true_iff, bool_decide_eq_true. done.
  - pose proof all_ops_mutating as H. rewrite forallb_forall in H.
    apply list_elem_of_In in Hop. specialize (H _ Hop). rewrite forallb_forall in H.
    apply Forall_forall. intros x Hx. by apply H, list_elem_of_In.
Qed.

Lemma operation_scope_is_least_privilege_witness :
  let handle := scoped {| connection := {| read_only := false; allowed_mutations := None |};
                          scope := None |} RESET_OFFSETS in
  in_scope handle OffsetCommit = true /\ in_scope handle DeleteTopics <> true.
Proof.
  assert (Hop : RESET_OFFSETS ∈ ALL) by (apply (bool_decide_unpack _); vm_compute; exact I).
  destruct (operation_scope_is_least_privilege
              {| connection := {| read_only := false; allowed_mutations := None |}; scope := None |}
              RESET_OFFSETS OffsetCommit eq_refl Hop) as [Hin _].
  split; [apply Hin; right; left|]. vm_compute. discriminate.
Defined.

End GateProperties.
