(* ===== verification/Sasl.v ===== *)
(** SASL authentication over an abstract transport, and the OAUTHBEARER messages
    ([crates/kafka-conn/src/sasl.rs], [oauth.rs]).

    An exchange asks two things of where it runs, which is the class
    [SaslTransport]: the bare socket of a connection being opened, or a live
    connection that re-authenticates ([Connect]).  What it takes from elsewhere (random
    bytes, the caller's token source, the blocking pool) is an argument, and so is
    the JSON parser. *)

From S2P Require Import Prelude Sanitize Text ErrorCodes ApiKeys Scram.

(** [serde_json::from_str], for a text that is an object: its string fields. *)
Class Json : Type := { json_object : text -> option (text -> option text) }.

(** *** [oauth.rs] *)

Module OAuth.
Import Str Error.

Definition KVSEP : Byte.byte := x01.
Definition GS2_HEADER : text := text_of_string "n,,".

(** Reject a token that cannot be framed. *)
Definition is_token_char (c : Z) : bool :=
  is_ascii_alphanumeric c
  || existsb (Z.eqb c) (text_of_string "-._~+/=").

Section oauth.
Context `{StrDebug, Json}.

(** [debug_char] is [{:?}] of a [char], quoted with apostrophes. *)
Definition validate_token (debug_char : Z -> text) (token : text) : result unit Error :=
  if bool_decide (token = []) then
    Err (InvalidRequest "the OAUTHBEARER token source returned an empty token")
  else
    match List.find (fun c => negb (is_token_char c)) token with
    | Some bad =>
        Err (InvalidRequest ("OAUTHBEARER token contains " +:+ string_of_text (debug_char bad)
               +:+ ", which RFC 6750 does not permit in a "
               +:+ "bearer token; pass the token alone, without the "
               +:+ string_of_text [34] +:+ "Bearer " +:+ string_of_text [34] +:+ " scheme"))
    | None => Ok tt
    end.

(** Reject an extension that would corrupt the message. *)
Definition validate_extension (key value : text) : result unit Error :=
  if bool_decide (key = []) || negb (forallb is_ascii_alphabetic key) then
    Err (InvalidRequest ("SASL extension key " +:+ string_of_text (debug_str key)
                         +:+ " must be one or more ASCII letters"))
  else if eq_ignore_ascii_case key (text_of_string "auth") then
    Err (InvalidRequest ("the SASL extension key " +:+ string_of_text [34] +:+ "auth"
                         +:+ string_of_text [34]
                         +:+ " carries the bearer token itself and cannot be set"))
  else if bool_decide (value = [])
          || negb (forallb (fun c => ((33 <=? c) && (c <=? 126)) || (c =? 32) || (c =? 9)) value) then
    Err (InvalidRequest ("SASL extension " +:+ string_of_text (debug_str key)
           +:+ " has a value that is empty or contains a character "
           +:+ "RFC 7628 does not permit"))
  else Ok tt.

Fixpoint push_extensions (out : bytes) (extensions : list (text * text)) : result bytes Error :=
  match extensions with
  | [] => Ok out
  | (key, value) :: extensions =>
      let? _ := validate_extension key value in
      push_extensions
        (out ++ Utf8.as_bytes key ++ Utf8.as_bytes [61] ++ Utf8.as_bytes value ++ [KVSEP]) extensions
  end.

(** The initial client response, RFC 7628 section 3.1. *)
Definition initial_client_response (debug_char : Z -> text) (token : text)
    (extensions : list (text * text)) : result bytes Error :=
  let? _ := validate_token debug_char token in
  let? out :=
    push_extensions
      (Utf8.as_bytes GS2_HEADER ++ [KVSEP] ++ Utf8.as_bytes (text_of_string "auth=Bearer ")
       ++ Utf8.as_bytes token ++ [KVSEP]) extensions in
  Ok (out ++ [KVSEP]).

(** Why the broker refused the token. *)
Record TokenRejection : Type := {
  status : option text;
  scope : option text;
  openid_configuration : option text;
  raw : option text;
}.

(** Read a failure challenge; never fails. *)
Definition parse (challenge : bytes) : TokenRejection :=
  let text := Utf8.from_utf8_lossy challenge in
  match json_object text with
  | Some field => {|
      status := field (text_of_string "status");
      scope := field (text_of_string "scope");
      openid_configuration := field (text_of_string "openid-configuration");
      raw := None |}
  | None => {| status := None; scope := None; openid_configuration := None; raw := Some text |}
  end.

Definition is_insufficient_scope (self : TokenRejection) : bool :=
  match status self with
  | Some status => eq_ignore_ascii_case status (text_of_string "insufficient_scope")
  | None => false
  end.

Definition display (self : TokenRejection) : text :=
  let part name o := match o with Some v => [text_of_string name ++ v] | None => [] end in
  match part "status=" (status self) ++ part "scope=" (scope self)
        ++ part "openid-configuration=" (openid_configuration self)
        ++ part "challenge=" (debug_str <$> raw self) with
  | [] => text_of_string "no status in the broker's failure challenge"
  | parts => join (text_of_string ", ") parts
  end.

End oauth.

End OAuth.

(** *** [sasl.rs] *)

Module Sasl.
Import Str Error.

Inductive SaslMechanism : Type := Plain | ScramSha256 | ScramSha512 | OauthBearer.

#[export] Instance SaslMechanism_eq_dec : EqDecision SaslMechanism.
Proof. solve_decision. Defined.

(** The name as it appears in [SaslHandshake]. *)
Definition as_str (self : SaslMechanism) : text :=
  text_of_string
    match self with
    | Plain => "PLAIN"
    | ScramSha256 => "SCRAM-SHA-256"
    | ScramSha512 => "SCRAM-SHA-512"
    | OauthBearer => "OAUTHBEARER"
    end.

(** Whether the mechanism puts a directly reusable credential on the wire. *)
Definition sends_reusable_credential (self : SaslMechanism) : bool :=
  match self with Plain | OauthBearer => true | _ => false end.

(** Where [OAUTHBEARER] gets its token: one token, or the caller's source. *)
Inductive TokenProvider : Type := StaticToken (token : text) | Source.

(** Credentials and mechanism. *)
Record SaslConfig : Type := {
  mechanism : SaslMechanism;
  username : text;
  password : text;
  allow_plaintext_password : bool;
  token_provider : option TokenProvider;
  extensions : list (text * text);
}.

Definition new (mechanism : SaslMechanism) (username password : text) : SaslConfig := {|
  mechanism := mechanism; username := username; password := password;
  allow_plaintext_password := false; token_provider := None; extensions := [] |}.

Definition oauth_bearer (provider : TokenProvider) : SaslConfig := {|
  mechanism := OauthBearer; username := []; password := [];
  allow_plaintext_password := false; token_provider := Some provider; extensions := [] |}.

Definition oauth_bearer_token (token : text) : SaslConfig := oauth_bearer (StaticToken token).

Definition with_extension (self : SaslConfig) (key value : text) : SaslConfig := {|
  mechanism := mechanism self; username := username self; password := password self;
  allow_plaintext_password := allow_plaintext_password self;
  token_provider := token_provider self; extensions := extensions self ++ [(key, value)] |}.

Definition delegation_token (hash : Scram.ScramHash) (token_id hmac : text) : SaslConfig :=
  let mechanism := match hash with Scram.Sha256 => ScramSha256 | Scram.Sha512 => ScramSha512 end in
  with_extension (new mechanism token_id hmac) (text_of_string "tokenauth") (text_of_string "true").

Definition with_allow_plaintext_password (self : SaslConfig) : SaslConfig := {|
  mechanism := mechanism self; username := username self; password := password self;
  allow_plaintext_password := true;
  token_provider := token_provider self; extensions := extensions self |}.

(** Reject a combination that would leak the credential. *)
Definition check_encryption (self : SaslConfig) (encrypted : bool) : result unit Error :=
  if sends_reusable_credential (mechanism self) && negb encrypted then
    if negb (allow_plaintext_password self) then
      Err (Authentication (as_str (mechanism self) ++ text_of_string
             (" over an unencrypted connection would send a reusable credential in the "
              +:+ "clear; use TLS or opt in with SaslConfig::with_allow_plaintext_password")))
    else Ok tt
  else Ok tt.

(** What a [SaslAuthenticate] round trip produced. *)
Record AuthOutcome : Type := { auth_bytes : bytes; session_lifetime_ms : Z }.

(** The two calls an exchange needs, and how long one step may take, in
    nanoseconds. *)
Class SaslTransport (S : Type) : Type := {
  handshake : text -> S -> result (list text) Error * S;
  sasl_authenticate : bytes -> S -> result AuthOutcome Error * S;
  step_timeout : S -> Z;
}.

(** What a caller's token source answers within a budget: a token or an error, or
    nothing in time, after so long. *)
Inductive TokenAnswer : Type := Answered (token : result text Error) | NoAnswer (elapsed : Z).

(** What one exchange takes from outside: the random bytes of a nonce, the token
    source, whether the blocking pool abandoned the proof (with the join
    error), and [{:?}] of a [char]. *)
Record Env : Type := {
  nonce_bytes : bytes;
  provider : Z -> TokenAnswer;
  join_error : option text;
  debug_char : Z -> text;
}.

Section exchange.
Context `{Base64, StringPrep, StrDebug, Scram.Crypto, Json} {S : Type} `{!SaslTransport S}.

(** [?] on a call of the transport. *)
Definition then_ {A B} (step : result A Error * S) (k : A -> S -> result B Error * S)
    : result B Error * S :=
  match step with
  | (Ok a, t) => k a t
  | (Err e, t) => (Err e, t)
  end.

(** A fresh client nonce. *)
Definition random_nonce (env : Env) : text := B64_encode (nonce_bytes env).

Definition ask (env : Env) (source : TokenProvider) (step : Z) : TokenAnswer :=
  match source with StaticToken token => Answered (Ok token) | Source => provider env step end.

(** The OAUTHBEARER half of [authenticate]. *)
Definition oauth_bearer_exchange (config : SaslConfig) (env : Env) (t : S) : result Z Error * S :=
  match token_provider config with
  | None =>
      (Err (InvalidRequest ("OAUTHBEARER needs a token source; build the configuration with "
                            +:+ "SaslConfig::oauth_bearer or SaslConfig::oauth_bearer_token")), t)
  | Some source =>
      match ask env source (step_timeout t) with
      | NoAnswer elapsed => (Err (Timeout (ApiKey.code ApiKey.SaslAuthenticate) elapsed), t)
      | Answered (Err e) => (Err e, t)
      | Answered (Ok token) =>
          match OAuth.initial_client_response (debug_char env) token (extensions config) with
          | Err e => (Err e, t)
          | Ok initial =>
              then_ (sasl_authenticate initial t) (fun outcome t =>
                match auth_bytes outcome with
                | [] => (Ok (session_lifetime_ms outcome), t)
                | _ =>
                    let rejection := OAuth.parse (auth_bytes outcome) in
                    let '(answer, t) := sasl_authenticate [OAuth.KVSEP] t in
                    let refuse (broker_message : option text) :=
                      let message :=
                        text_of_string "broker rejected the OAUTHBEARER token: "
                        ++ control_safe (OAuth.display rejection)
                        ++ match broker_message with
                           | Some (c :: m) =>
                               text_of_string "; broker said: " ++ control_safe (c :: m)
                           | _ => []
                           end in
                      if OAuth.is_insufficient_scope rejection
                      then Err (Authorization ErrorCode.SaslAuthenticationFailed (Some message))
                      else Err (Authentication message) in
                    (match answer with
                     | Err (Authentication message) => refuse (Some message)
                     | Err other => Err other
                     | Ok _ => refuse None
                     end, t)
                end)
          end
      end
  end.

(** The SCRAM half. *)
Definition scram_exchange (hash : Scram.ScramHash) (config : SaslConfig) (env : Env) (t : S)
    : result Z Error * S :=
  match Scram.new hash (username config) (password config) (random_nonce env) (extensions config) with
  | Err e => (Err e, t)
  | Ok client =>
      then_ (sasl_authenticate (Scram.client_first client) t) (fun server_first t =>
        match join_error env with
        | Some e =>
            (Err (Authentication (text_of_string "SCRAM proof computation was aborted: " ++ e)), t)
        | None =>
            match Scram.client_final client (auth_bytes server_first) with
            | (Err e, _) => (Err e, t)
            | (Ok client_final, client) =>
                then_ (sasl_authenticate client_final t) (fun server_final t =>
                  match Scram.verify_server_final client (auth_bytes server_final) with
                  | Err e => (Err e, t)
                  | Ok _ => (Ok (session_lifetime_ms server_final), t)
                  end)
            end
        end)
  end.

(** The PLAIN half, RFC 4616. *)
Definition plain_exchange (config : SaslConfig) (t : S) : result Z Error * S :=
  if contains (username config) 0 || contains (password config) 0 then
    (Err (InvalidRequest ("PLAIN credentials may not contain NUL: it is the RFC 4616 field "
                          +:+ "separator, and a NUL in a relayed value re-frames the message")), t)
  else
    let token := [x00] ++ Utf8.as_bytes (username config) ++ [x00]
                 ++ Utf8.as_bytes (password config) in
    then_ (sasl_authenticate token t) (fun outcome t => (Ok (session_lifetime_ms outcome), t)).

(** Run a complete exchange: the session lifetime in milliseconds. *)
Definition authenticate (config : SaslConfig) (env : Env) (t : S) : result Z Error * S :=
  let name := as_str (mechanism config) in
  if bool_decide (mechanism config = Plain) && negb (bool_decide (extensions config = [])) then
    (Err (InvalidRequest (string_of_text (name
            ++ text_of_string " has no field for SASL extensions, and ["
            ++ join (text_of_string ", ") (map fst (extensions config))
            ++ text_of_string ("] would be silently dropped; "
                               +:+ "use OAUTHBEARER or SCRAM, which do")))), t)
  else
    then_ (handshake name t) (fun enabled t =>
      if negb (bool_decide (enabled = [])) && negb (bool_decide (name ∈ enabled)) then
        (Err (Authentication (text_of_string "broker does not offer " ++ name
                ++ text_of_string "; it enables [" ++ join (text_of_string ", ") enabled
                ++ text_of_string "]")), t)
      else
        match mechanism config with
        | Plain => plain_exchange config t
        | ScramSha256 => scram_exchange Scram.Sha256 config env t
        | ScramSha512 => scram_exchange Scram.Sha512 config env t
        | OauthBearer => oauth_bearer_exchange config env t
        end).

End exchange.

(** When to re-authenticate, given a session lifetime: milliseconds. *)
Definition reauth_delay (session_lifetime_ms : Z) : option Z :=
  if session_lifetime_ms <=? 0 then None
  else Some (Z.max (Z.min (session_lifetime_ms * 8) U64_MAX / 10) 1000).

End Sasl.
