(* ===== verification/SaslFacts.v ===== *)
(** What a SASL exchange sends, when it succeeds, and when the next one is due. *)

From S2P Require Import Prelude Sanitize Text ErrorCodes ApiKeys Scram ScramFacts Sasl.

(** A transport that records what it is asked, with any answers a broker could
    give: those of the handshake, and then one per token; a broker with no answer
    left has gone away. *)
Module Recorder.
Import Error Sasl.

Record Recorder : Type := {
  offered : result (list text) Error;
  replies : list (result AuthOutcome Error);
  budget : Z;
  asked : list text;
  sent : list bytes;
}.

Definition start (offered : result (list text) Error) (replies : list (result AuthOutcome Error))
    (budget : Z) : Recorder :=
  {| offered := offered; replies := replies; budget := budget; asked := []; sent := [] |}.

#[export] Instance recorder_transport : SaslTransport Recorder := {|
  handshake name t :=
    (offered t, {| offered := offered t; replies := replies t; budget := budget t;
                   asked := asked t ++ [name]; sent := sent t |});
  sasl_authenticate token t :=
    (match replies t with reply :: _ => reply | [] => Err (ConnectionClosed "broker") end,
     {| offered := offered t; replies := tl (replies t); budget := budget t;
        asked := asked t; sent := sent t ++ [token] |});
  step_timeout t := budget t |}.

End Recorder.

Module SaslFacts.
Import Str Error OAuth Sasl Recorder TextFacts.

Section facts.
Context `{Base64, StringPrep, StrDebug, Scram.Crypto, Json}.

Lemma push_extensions_bytes out extensions final :
  push_extensions out extensions = Ok final ->
  final = out ++ Utf8.as_bytes (concat (map (fun e => ScramFacts.attribute e ++ [1]) extensions))
  /\ Forall (fun e => (1 ∉ ScramFacts.attribute e) /\ Utf8.valid (ScramFacts.attribute e)) extensions.
Proof.
  revert out. induction extensions as [|[key value] extensions IH]; intros out; simpl.
  - intros [= <-]. split; [symmetry; apply app_nil_r|constructor].
  - destruct (validate_extension key value) as [[]|] eqn:E; [|done]. cbn [result_bind].
    intros Hp. apply IH in Hp as [-> Hall]. split.
    + change (ScramFacts.attribute (key, value)) with (key ++ [61] ++ value).
      rewrite !as_bytes_app, <- !app_assoc. f_equal. f_equal.
      change (z2b 61 :: Utf8.as_bytes value ++ [KVSEP]) with (Utf8.as_bytes [61] ++ Utf8.as_bytes value ++ Utf8.as_bytes [1]).
      by rewrite <- !app_assoc.
    + constructor; [|done]. revert E. unfold validate_extension, ScramFacts.attribute. cbn [fst snd].
      destruct (_ || negb _) eqn:E1; [done|]. destruct (eq_ignore_ascii_case _ _); [done|].
      destruct (_ || negb (forallb _ value)) eqn:E2; [done|]. intros _.
      apply orb_false_iff in E1 as [_ Hk%negb_false_iff], E2 as [_ Hv%negb_false_iff].
      rewrite forallb_forall in Hk, Hv. rewrite !not_elem_of_app, !valid_app. split_and!.
      * intros Hin. apply list_elem_of_In, Hk in Hin. done.
      * by_evaluation.
      * intros Hin. apply list_elem_of_In, Hv in Hin. done.
      * apply Forall_forall. intros c Hin. apply list_elem_of_In, Hk in Hin.
        unfold is_ascii_alphabetic in Hin. unfold Utf8.is_scalar. lia.
      * by repeat constructor.
      * apply Forall_forall. intros c Hin. apply list_elem_of_In, Hv in Hin.
        unfold Utf8.is_scalar. lia.
Qed.

Lemma validate_token_chars debug token :
  validate_token debug token = Ok tt -> Forall (fun c => is_token_char c = true) token.
Proof.
  unfold validate_token. case_bool_decide; [done|].
  destruct (List.find _ token) eqn:E; [done|]. intros _. apply Forall_forall. intros c Hc.
  apply list_elem_of_In in Hc. pose proof (List.find_none _ _ E c Hc) as Hn.
  by apply negb_false_iff in Hn.
Qed.

Lemma token_chars_plain token :
  Forall (fun c => is_token_char c = true) token -> (1 ∉ token) /\ Utf8.valid token.
Proof.
  intros Ht. split.
  - intros Hin. rewrite Forall_forall in Ht. apply Ht in Hin. by vm_compute in Hin.
  - apply (Forall_impl _ _ _ Ht). intros c Hc. unfold is_token_char in Hc.
    apply orb_true_iff in Hc as [Hc|Hc].
    + unfold is_ascii_alphanumeric, is_ascii_alphabetic, is_ascii_digit in Hc.
      unfold Utf8.is_scalar. lia.
    + apply existsb_exists in Hc as (x & Hx & ->%Z.eqb_eq).
      apply list_elem_of_In in Hx.
      exact (proj1 (Forall_forall _ _) (ScramFacts.valid_ascii _) _ Hx).
Qed.

Lemma split_terminated sep pieces rest :
  Forall (fun piece => sep ∉ piece) pieces ->
  split sep (concat (map (fun piece => piece ++ [sep]) pieces) ++ rest) = pieces ++ split sep rest.
Proof.
  induction 1 as [|p pieces Hp _ IH]; [done|]. simpl. rewrite <- !app_assoc. simpl.
  rewrite split_app by done. by f_equal.
Qed.

(** The initial response of OAUTHBEARER, split at its separators. *)
Lemma initial_client_response_pieces debug token extensions out :
  initial_client_response debug token extensions = Ok out ->
  exists message, Utf8.from_utf8 out = Some message
  /\ split 1 message
     = GS2_HEADER :: (text_of_string "auth=Bearer " ++ token)
       :: map ScramFacts.attribute extensions ++ [[]; []].
Proof.
  unfold initial_client_response.
  destruct (validate_token debug token) as [[]|] eqn:Ht; [|done]. cbn [result_bind].
  apply validate_token_chars, token_chars_plain in Ht as [Ht Htv].
  destruct (push_extensions _ extensions) as [pushed|] eqn:Hp; [|done]. cbn [result_bind].
  apply push_extensions_bytes in Hp as [-> Hall]. intros [= <-].
  set (pieces := GS2_HEADER :: (text_of_string "auth=Bearer " ++ token)
                 :: map ScramFacts.attribute extensions).
  exists (concat (map (fun piece => piece ++ [1]) pieces) ++ [1]). split.
  - match goal with |- Utf8.from_utf8 ?l = Some ?t => assert (l = Utf8.as_bytes t) as -> end.
    { unfold pieces. cbn [map concat]. rewrite map_map, !as_bytes_app, <- !app_assoc. reflexivity. }
    apply from_utf8_as_bytes. unfold pieces. cbn [map concat].
    rewrite !valid_app. split_and!; try (apply ScramFacts.valid_ascii); try done;
      try (by repeat constructor).
    apply Forall_concat, Forall_map, Forall_map. apply (Forall_impl _ _ _ Hall). intros e [_ He].
    apply valid_app. by repeat constructor.
  - rewrite split_terminated; [done|]. unfold pieces. repeat constructor.
    + by_evaluation.
    + rewrite not_elem_of_app. split; [by_evaluation|done].
    + apply Forall_map. apply (Forall_impl _ _ _ Hall). by intros e [].
Qed.

Lemma plain_token_pieces username password :
  Utf8.valid username -> Utf8.valid password ->
  contains username 0 || contains password 0 = false ->
  exists message,
    Utf8.from_utf8 ([x00] ++ Utf8.as_bytes username ++ [x00] ++ Utf8.as_bytes password)
    = Some message
    /\ split 0 message = [[]; username; password].
Proof.
  intros Hu Hp Hn. apply orb_false_iff in Hn as [Hun Hpn].
  exists ([0] ++ username ++ [0] ++ password). split.
  - change [x00] with (Utf8.as_bytes [0]). rewrite <- !as_bytes_app. apply from_utf8_as_bytes.
    rewrite !valid_app. split_and!; try done; by repeat constructor.
  - change (split 0 ([] ++ 0 :: username ++ 0 :: password) = [[]; username; password]).
    rewrite !split_app, split_plain; [done| | |apply not_elem_of_nil];
      intros Hin%str_contains_spec; congruence.
Qed.

(** What a SCRAM exchange over the recorder is. *)
Lemma scram_exchange_steps h config env t r t' :
  scram_exchange h config env t = (r, t') -> sent t = [] ->
  (length (sent t') <= 2)%nat
  /\ match Scram.new h (username config) (password config) (random_nonce env) (extensions config) with
     | Err _ => sent t' = []
     | Ok client =>
         head (sent t') = Some (Scram.client_first client)
         /\ forall lifetime, r = Ok lifetime ->
            exists first final proof client' last,
              replies t = Ok first :: Ok final :: last
              /\ Scram.client_final client (auth_bytes first) = (Ok proof, client')
              /\ sent t' = [Scram.client_first client; proof]
              /\ Scram.verify_server_final client' (auth_bytes final) = Ok tt
              /\ session_lifetime_ms final = lifetime
     end.
Proof.
  unfold scram_exchange. intros E Hs.
  destruct (Scram.new _ _ _ _ _) as [client|e]; [|injection E as <- <-; rewrite Hs; simpl; split; [lia|done]].
  revert E. cbn [sasl_authenticate recorder_transport then_]. rewrite Hs.
  destruct (replies t) as [|[first|e] rest] eqn:Hr; cbn [then_ tl];
    [intros [= <- <-]; simpl; split; [lia|done]| |intros [= <- <-]; simpl; split; [lia|done]].
  destruct (join_error env); [intros [= <- <-]; simpl; split; [lia|done]|].
  destruct (Scram.client_final client (auth_bytes first)) as [[proof|e] client'] eqn:Hf;
    [|intros [= <- <-]; simpl; split; [lia|done]].
  cbn [sasl_authenticate recorder_transport then_ replies sent].
  destruct rest as [|[final|e] last]; cbn [then_ tl];
    [intros [= <- <-]; simpl; split; [lia|done]| |intros [= <- <-]; simpl; split; [lia|done]].
  destruct (Scram.verify_server_final client' (auth_bytes final)) as [[]|e] eqn:Hv;
    intros [= <- <-]; simpl; (split; [lia|]; split; [done|]); [|done].
  intros lifetime [= <-]. by exists first, final, proof, client', last.
Qed.

(** What an OAUTHBEARER exchange over the recorder is. *)
Lemma oauth_exchange_steps config env t r t' :
  oauth_bearer_exchange config env t = (r, t') -> sent t = [] ->
  sent t' = []
  \/ exists source token initial,
       token_provider config = Some source
       /\ ask env source (step_timeout t) = Answered (Ok token)
       /\ initial_client_response (debug_char env) token (extensions config) = Ok initial
       /\ (sent t' = [initial] \/ sent t' = [initial; [KVSEP]]).
Proof.
  unfold oauth_bearer_exchange. intros E Hs.
  destruct (token_provider config) as [source|]; [|injection E as <- <-; by left].
  destruct (ask env source _) as [[token|e]|] eqn:Ha;
    [|injection E as <- <-; by left|injection E as <- <-; by left].
  destruct (initial_client_response _ token _) as [initial|] eqn:Hi;
    [|injection E as <- <-; by left].
  right. exists source, token, initial. split_and!; try done.
  revert E. cbn [sasl_authenticate recorder_transport then_]. rewrite Hs.
  destruct (match replies t with [] => _ | _ => _ end) as [outcome|e]; cbn [then_];
    [|intros [= <- <-]; by left].
  destruct (auth_bytes outcome); [intros [= <- <-]; by left|].
  cbn [replies sent]. intros [= <- <-]. by right.
Qed.

End facts.

End SaslFacts.

Module SaslProperties.
Import Str Error OAuth Sasl Recorder SaslFacts TextFacts.

Section properties.
Context `{Base64, StringPrep, StrDebug, Scram.Crypto, Json}.

(** Whatever a broker answers, an exchange sends nothing unless the broker
    enables the mechanism (or names none), and what it sends is framed: PLAIN is one
    token that splits at its NULs into no authorization identity, the user name and the
    password; OAUTHBEARER is one message that splits at its separators into the
    header, the token its source gave, the extensions and the two closing separators,
    and at most the one-byte reply to a refusal after it; SCRAM is at most two
    messages, the first of which is [client-first-message]. *)
Theorem credentials_are_framed config env offer answers step r t' :
  Utf8.valid (username config) -> Utf8.valid (password config) ->
  authenticate config env (start offer answers step) = (r, t') ->
  (sent t' <> [] ->
   exists enabled, offer = Ok enabled /\ (enabled = [] \/ as_str (mechanism config) ∈ enabled))
  /\ match mechanism config with
     | Plain =>
         sent t' = []
         \/ exists token message,
              sent t' = [token] /\ Utf8.from_utf8 token = Some message
              /\ split 0 message = [[]; username config; password config]
              /\ extensions config = []
     | OauthBearer =>
         sent t' = []
         \/ exists source token initial message,
              token_provider config = Some source
              /\ ask env source step = Answered (Ok token)
              /\ (sent t' = [initial] \/ sent t' = [initial; [KVSEP]])
              /\ Utf8.from_utf8 initial = Some message
              /\ split 1 message
                 = GS2_HEADER :: (text_of_string "auth=Bearer " ++ token)
                   :: map ScramFacts.attribute (extensions config) ++ [[]; []]
     | ScramSha256 | ScramSha512 =>
         (length (sent t') <= 2)%nat
         /\ (sent t' = []
             \/ exists h client,
                  Scram.new h (username config) (password config) (random_nonce env)
                    (extensions config) = Ok client
                  /\ head (sent t') = Some (Scram.client_first client))
     end.
Proof.
  intros Hu Hp. unfold authenticate.
  destruct (bool_decide (mechanism config = Plain) && _) eqn:Hext.
  { intros [= <- <-]. split; [done|]. destruct (mechanism config); auto; simpl; split; auto; lia. }
  cbn [handshake recorder_transport then_ start offered].
  destruct offer as [enabled|e]; cbn [then_].
  2: { intros [= <- <-]. split; [done|]. destruct (mechanism config); auto; simpl; split; auto; lia. }
  destruct (negb (bool_decide (enabled = [])) && _) eqn:Hen.
  { intros [= <- <-]. split; [done|]. destruct (mechanism config); auto; simpl; split; auto; lia. }
  intros E. split.
  { intros _. exists enabled. split; [done|].
    apply andb_false_iff in Hen as [Hen|Hen]; apply negb_false_iff, bool_decide_eq_true in Hen; auto. }
  destruct (mechanism config) eqn:Hm.
  - unfold plain_exchange in E.
    destruct (contains _ 0 || _) eqn:Hn; [injection E as <- <-; by left|].
    right. destruct (plain_token_pieces _ _ Hu Hp Hn) as (message & Hf & Hsp).
    eexists _, message. split_and!; [|exact Hf|exact Hsp|].
    + revert E. cbn [sasl_authenticate recorder_transport then_].
      destruct (match _ with [] => _ | _ => _ end); by intros [= <- <-].
    + rewrite bool_decide_true in Hext by done. cbn in Hext.
      by apply negb_false_iff, bool_decide_eq_true in Hext.
  - apply scram_exchange_steps in E as [Hl Hr]; [|done]. split; [done|].
    destruct (Scram.new _ _ _ _ _) as [client|] eqn:Hnew; [|by left].
    right. exists Scram.Sha256, client. by destruct Hr.
  - apply scram_exchange_steps in E as [Hl Hr]; [|done]. split; [done|].
    destruct (Scram.new _ _ _ _ _) as [client|] eqn:Hnew; [|by left].
    right. exists Scram.Sha512, client. by destruct Hr.
  - apply oauth_exchange_steps in E; [|done].
    destruct E as [?|(source & token & initial & Hs & Ha & Hi & Ht)]; [by left|right].
    destruct (initial_client_response_pieces _ _ _ _ Hi) as (message & Hf & Hsp).
    by exists source, token, initial, message.
Qed.

(** C24: A SCRAM login succeeds only against a peer that knows the password's
    keys: if [authenticate] returns a session lifetime, the broker's two answers are those
    of a server that signed this very exchange. *)
Theorem scram_login_is_mutual `{!Base64Laws, !CryptoLaws} h config env offer answers step
    lifetime t' :
  mechanism config = match h with Scram.Sha256 => ScramSha256 | Scram.Sha512 => ScramSha512 end ->
  authenticate config env (start offer answers step) = (Ok lifetime, t') ->
  exists client first final rest,
    Scram.new h (username config) (password config) (random_nonce env) (extensions config)
    = Ok client
    /\ answers = Ok first :: Ok final :: rest
    /\ session_lifetime_ms final = lifetime
    /\ ScramFacts.has_signed client (auth_bytes first) (auth_bytes final).
Proof.
  intros Hm. unfold authenticate.
  destruct (bool_decide (mechanism config = Plain) && _); [done|].
  cbn [handshake recorder_transport then_ start offered].
  destruct offer as [enabled|e]; cbn [then_]; [|done].
  destruct (negb (bool_decide (enabled = [])) && _); [done|]. intros E.
  assert (Hx : scram_exchange h config env
    {| offered := Ok enabled; replies := answers; budget := step;
       asked := [as_str (mechanism config)]; sent := [] |} = (Ok lifetime, t'))
    by (rewrite Hm in *; by destruct h). clear E.
  pose proof Hx as Hsteps. apply scram_exchange_steps in Hsteps as [_ Hsteps]; [|done].
  destruct (Scram.new _ _ _ _ _) as [client|e] eqn:Hnew.
  - destruct Hsteps as [_ Hok].
    destruct (Hok _ eq_refl) as (first & final & proof & client' & last & Hr & Hcf & _ & Hv & Hl).
    exists client, first, final, last. split_and!; try done.
    apply (ScramFacts.accepted_has_signed _ _ (Ok proof) client'); [|done|done].
    by apply ScramFacts.new_Ok in Hnew as (? & ? & _ & _ & _ & _ & ->).
  - unfold scram_exchange in Hx. by rewrite Hnew in Hx.
Qed.

End properties.

Import ScramFacts.ScramDemo.

#[local] Instance demo_json : Json := {| json_object _ := None |}.

Definition demo_env : Env := {|
  nonce_bytes := [z2b 1; z2b 2; z2b 3]; provider _ := NoAnswer 7; join_error := None;
  debug_char c := [c] |}.

(** A PLAIN login whose user name is not ASCII, an OAUTHBEARER login whose token is
    refused, and a SCRAM login. *)
Definition plain_config : SaslConfig := new Plain [233; 108] (text_of_string "secret").

Definition token_config : SaslConfig :=
  with_extension (oauth_bearer_token (text_of_string "mF_9.B5f-4.1JqM"))
    (text_of_string "logicalCluster") (text_of_string "lkc-1").

Definition scram_config : SaslConfig := new ScramSha512 (text_of_string "user") (text_of_string "pencil").

Definition scram_server : ScramServer.Credential :=
  ScramServer.store Scram.Sha512 (text_of_string "pencil") [z2b 9] 5000.

Definition scram_first : text :=
  ScramServer.server_first scram_server (random_nonce demo_env) (text_of_string "more")
    (text_of_string "5000").

Definition scram_answers : list (result AuthOutcome Error) :=
  match Scram.new Scram.Sha512 (text_of_string "user") (text_of_string "pencil")
          (random_nonce demo_env) [] with
  | Err _ => []
  | Ok client =>
      let first := {| auth_bytes := Utf8.as_bytes scram_first; session_lifetime_ms := 0 |} in
      match Scram.client_final client (auth_bytes first) with
      | (Ok proof, _) =>
          match ScramServer.respond scram_server (Scram.client_first_bare client) scram_first
                  (random_nonce demo_env ++ text_of_string "more") proof with
          | Some answer =>
              [Ok first; Ok {| auth_bytes := Utf8.as_bytes answer; session_lifetime_ms := 60000 |}]
          | None => []
          end
      | _ => []
      end
  end.

Lemma scram_login_is_mutual_witness :
  exists client first final rest,
    scram_answers = Ok first :: Ok final :: rest
    /\ session_lifetime_ms final = 60000
    /\ ScramFacts.has_signed client (auth_bytes first) (auth_bytes final).
Proof.
  destruct (authenticate scram_config demo_env (start (Ok []) scram_answers 10)) as [r t'] eqn:E.
  assert (r = Ok 60000) as -> by (vm_compute in E; by injection E).
  destruct (scram_login_is_mutual Scram.Sha512 scram_config demo_env (Ok []) scram_answers 10 60000
              t' eq_refl E) as (client & first & final & rest & _ & Ha & Hl & Hs).
  exists client, first, final, rest. exact (conj Ha (conj Hl Hs)).
Defined.

Lemma credentials_are_framed_witness :
  exists message,
    sent (authenticate plain_config demo_env (start (Ok [text_of_string "PLAIN"]) [] 10)).2
    = [Utf8.as_bytes message]
    /\ split 0 message = [[]; [233; 108]; text_of_string "secret"].
Proof.
  destruct (authenticate plain_config demo_env (start (Ok [text_of_string "PLAIN"]) [] 10))
    as [r t'] eqn:E.
  destruct (credentials_are_framed plain_config demo_env (Ok [text_of_string "PLAIN"]) [] 10 r t')
    as [_ [Hs|(token & message & Hs & Hf & Hsp & _)]];
    [by repeat constructor|apply ScramFacts.valid_ascii|exact E| |].
  - vm_compute in E. injection E as _ <-. discriminate Hs.
  - exists message. split; [|exact Hsp]. vm_compute in E. injection E as _ <-.
    cbn [sent] in *. injection Hs as <-. vm_compute in Hf. injection Hf as <-. vm_compute. reflexivity.
Defined.

(** A refused token is answered with the one byte that ends the exchange. *)
Example refused_token_exchange :
  sent (authenticate token_config demo_env
          (start (Ok [])
             [Ok {| auth_bytes := Scram.ascii "{}"; session_lifetime_ms := 0 |};
              Err (Authentication (text_of_string "Authentication failed"))] 10)).2
  = [Scram.ascii "n,," ++ [KVSEP] ++ Scram.ascii "auth=Bearer mF_9.B5f-4.1JqM" ++ [KVSEP]
     ++ Scram.ascii "logicalCluster=lkc-1" ++ [KVSEP; KVSEP]; [KVSEP]].
Proof. vm_compute. reflexivity. Qed.

(** The next exchange is due strictly before the session it renews ends, at no
    more than four fifths of it where that is a second or more, and never less than a
    second ahead; a session without an end is not renewed.  Sessions of a second or
    less are the exception: [short_session_ends_first]. *)
Theorem reauth_before_expiry (lifetime : Z) :
  in_i64 lifetime ->
  match reauth_delay lifetime with
  | None => lifetime <= 0
  | Some delay =>
      1000 <= delay /\ (1000 < lifetime -> delay < lifetime)
      /\ (1250 <= lifetime -> delay <= lifetime * 4 / 5)
  end.
Proof.
  unfold reauth_delay, in_i64, I64_MIN, I64_MAX, U64_MAX. intros Hl.
  destruct (lifetime <=? 0) eqn:E; [lia|]. split_and!; intros; div_lia.
Qed.

Lemma reauth_before_expiry_witness : reauth_delay 60000 = Some 48000 /\ 48000 <= 60000 * 4 / 5.
Proof.
  pose proof (reauth_before_expiry 60000 ltac:(unfold in_i64, I64_MIN, I64_MAX; lia)) as H.
  change (reauth_delay 60000) with (Some 48000) in *. split; [done|]. apply H. lia.
Defined.

(** A session of half a second is renewed half a second after it ended. *)
Example short_session_ends_first : reauth_delay 500 = Some 1000.
Proof. reflexivity. Qed.

End SaslProperties.
