(* ===== verification/Retry.v ===== *)
(** Capped, jittered backoff and the re-ask loop
    ([crates/kafka-meta/src/retry.rs]).

    A [Duration] and an [Instant] are nanosecond counts.  A [f64] fraction is a
    rational: the two places a float enters, the jitter fraction and the factor
    a delay is multiplied by, are exact rational arithmetic rounded once to a
    whole nanosecond, ties to even. *)

From Stdlib Require Import QArith.
From S2P Require Import Prelude.
Open Scope Z_scope.

Module Retry.

Definition SECOND : Z := 1000000000.
Definition MILLI : Z := 1000000.
(** [Duration::MAX]: [u64::MAX] seconds and 999,999,999 nanoseconds. *)
Definition DURATION_MAX : Z := (2 ^ 64 - 1) * SECOND + 999999999.
(** The last instant [checked_add] can answer: seconds are an [i64]. *)
Definition INSTANT_MAX : Z := (2 ^ 63 - 1) * SECOND + 999999999.

(** How hard to retry. *)
Record RetryPolicy : Type := {
  max_attempts : Z;
  base_delay : Z;
  max_delay : Z;
  jitter : Q;
  coordinator_timeout : Z;
}.

Definition default_policy : RetryPolicy := {|
  max_attempts := 5;
  base_delay := 100 * MILLI;
  max_delay := 5 * SECOND;
  jitter := 3 # 10;
  coordinator_timeout := 30 * SECOND;
|}.

(** Never retry. *)
Definition none : RetryPolicy := {|
  max_attempts := 1;
  base_delay := base_delay default_policy;
  max_delay := max_delay default_policy;
  jitter := jitter default_policy;
  coordinator_timeout := 0;
|}.

(** [n / d] rounded to the nearest integer, ties to even. *)
Definition round_half_even (n d : Z) : Z :=
  let q := n / d in
  let r := n mod d in
  if 2 * r <? d then q
  else if d <? 2 * r then q + 1
  else if Z.even q then q else q + 1.

(** [Duration::mul_f64]. *)
Definition mul_f64 (delay : Z) (factor : Q) : Z :=
  round_half_even (delay * Qnum factor) (Zpos (Qden factor)).

(** [jitter.clamp(0.0, 1.0)]. *)
Definition clamp01 (q : Q) : Q :=
  if Qle_bool q 0 then 0%Q else if Qle_bool 1 q then 1%Q else q.

(** [sample] is what [random_range(0.0..jitter)] returned. *)
Definition apply_jitter (self : RetryPolicy) (sample : Q) (delay : Z) : Z :=
  if Qeq_bool (clamp01 (jitter self)) 0 then delay
  else mul_f64 delay (1 - sample)%Q.

(** The delay before attempt [attempt], one-based, before jitter. *)
Definition scaled_delay (self : RetryPolicy) (attempt : Z) : Z :=
  let exponent := Z.min (u32_saturating_sub attempt 2) 16 in
  let factor := Z.min (2 ^ exponent) U32_MAX in
  Z.min (Z.min (base_delay self * factor) DURATION_MAX) (max_delay self).

Definition delay (self : RetryPolicy) (sample : Q) (attempt : Z) : Z :=
  if attempt <=? 1 then 0 else apply_jitter self sample (scaled_delay self attempt).

(** Whether another attempt is allowed. *)
Definition should_retry (self : RetryPolicy) (attempt : Z) : bool :=
  attempt <? max_attempts self.

(** What one attempt concluded, as the caller's decode saw it. *)
Inductive Verdict (T E : Type) : Type :=
  | Settled (value : T)
  | Reask (as_it_stands : result T E).
Arguments Settled {T E} value.
Arguments Reask {T E} as_it_stands.

(** [Instant::checked_add]. *)
Definition checked_add (now delay : Z) : option Z :=
  if now + delay <=? INSTANT_MAX then Some (now + delay) else None.

Section reask.
Context {T E : Type}.

(** The environment of one run, by loop iteration: what the attempt concluded,
    given the attempt number it was handed; the clock read after it; the jitter
    drawn for the delay that follows. *)
Record Env : Type := {
  attempt_fn : nat -> Z -> result (Verdict T E) E;
  now : nat -> Z;
  sample : nat -> Q;
}.

(** The loop of [reask] from iteration [i]; [None] when the fuel runs out. *)
Fixpoint reask_loop (fuel : nat) (policy : RetryPolicy) (env : Env) (budget : Z)
    (i : nat) (attempt : Z) : option (result T E) :=
  match fuel with
  | O => None
  | S fuel =>
      match attempt_fn env i attempt with
      | Err error => Some (Err error)
      | Ok (Settled value) => Some (Ok value)
      | Ok (Reask as_it_stands) =>
          let delay := delay policy (sample env i) (u32_saturating_add attempt 1) in
          if match checked_add (now env i) delay with
             | None => true
             | Some after => budget <=? after
             end
          then Some as_it_stands
          else reask_loop fuel policy env budget (S i) (u32_saturating_add attempt 1)
      end
  end.

(** [reask]: [started] is the clock when no deadline was given. *)
Definition reask (fuel : nat) (policy : RetryPolicy) (env : Env)
    (deadline : option Z) (started : Z) : option (result T E) :=
  let budget := default (started + coordinator_timeout policy) deadline in
  reask_loop fuel policy env budget 0 1.

End reask.
Arguments Env : clear implicits.

End Retry.

(** ** Lemmas *)

Module RetryFacts.
Import Retry.

Lemma round_half_even_le n d m : 0 < d -> n <= m * d -> round_half_even n d <= m.
Proof.
  intros Hd Hn. unfold round_half_even.
  pose proof (Z.div_mod n d ltac:(lia)) as E. pose proof (Z.mod_pos_bound n d Hd) as Hr.
  assert (n / d <= m) by (apply Z.div_le_upper_bound; lia).
  destruct (2 * (n mod d) <? d) eqn:?; [lia|].
  assert (n / d < m) by nia.
  destruct (d <? 2 * (n mod d)), (Z.even (n / d)); lia.
Qed.

Lemma round_half_even_nonneg n d : 0 < d -> 0 <= n -> 0 <= round_half_even n d.
Proof.
  intros Hd Hn. unfold round_half_even. assert (0 <= n / d) by (apply Z.div_pos; lia).
  repeat case_match; lia.
Qed.

Lemma mul_f64_bounds d q :
  0 <= d -> (0 <= q)%Q -> (q <= 1)%Q -> 0 <= mul_f64 d q <= d.
Proof.
  intros Hd H0 H1. unfold mul_f64, Qle in *. simpl in *. split.
  - apply round_half_even_nonneg; nia.
  - apply round_half_even_le; nia.
Qed.

Definition wf (self : RetryPolicy) : Prop :=
  0 <= base_delay self /\ 0 <= max_delay self /\ 0 <= coordinator_timeout self.

(** A sample [random_range(0.0..jitter)] can return. *)
Definition drawn (self : RetryPolicy) (s : Q) : Prop :=
  (0 <= s)%Q /\ (s <= clamp01 (jitter self))%Q.

Lemma clamp01_le q : (clamp01 q <= 1)%Q.
Proof.
  unfold clamp01. destruct (Qle_bool q 0) eqn:?; [done|].
  destruct (Qle_bool 1 q) eqn:E; [apply Qle_refl|].
  apply Qlt_le_weak, Qnot_le_lt. rewrite <- Qle_bool_iff. by rewrite E.
Qed.

Lemma apply_jitter_bounds self s d :
  drawn self s -> 0 <= d -> 0 <= apply_jitter self s d <= d.
Proof.
  intros [H0 H1] Hd. unfold apply_jitter. destruct (Qeq_bool _ _); [lia|].
  apply mul_f64_bounds; [done| |].
  - apply (Qle_minus_iff s 1). eapply Qle_trans; [exact H1|apply clamp01_le].
  - unfold Qle in *. simpl in *. lia.
Qed.

Lemma scaled_delay_bounds self attempt :
  wf self -> 0 <= scaled_delay self attempt <= max_delay self.
Proof.
  intros (Hb & Hm & _). unfold scaled_delay, DURATION_MAX, SECOND.
  set (e := Z.min _ 16). assert (0 <= 2 ^ e) by (apply Z.pow_nonneg; lia).
  assert (0 <= base_delay self * Z.min (2 ^ e) U32_MAX).
  { apply Z.mul_nonneg_nonneg; [done|unfold U32_MAX; lia]. }
  revert H0. generalize (base_delay self * Z.min (2 ^ e) U32_MAX). lia.
Qed.

Lemma scaled_delay_mono self a b :
  wf self -> a <= b -> scaled_delay self a <= scaled_delay self b.
Proof.
  intros (Hb & Hm & _) Hab. unfold scaled_delay, u32_saturating_sub.
  set (ea := Z.min (Z.max 0 (a - 2)) 16). set (eb := Z.min (Z.max 0 (b - 2)) 16).
  assert (2 ^ ea <= 2 ^ eb) by (apply Z.pow_le_mono_r; lia).
  assert (0 <= 2 ^ ea) by (apply Z.pow_nonneg; lia).
  unfold U32_MAX.
  assert (base_delay self * Z.min (2 ^ ea) (2 ^ 32 - 1)
          <= base_delay self * Z.min (2 ^ eb) (2 ^ 32 - 1)) by (apply Z.mul_le_mono_nonneg_l; lia).
  lia.
Qed.

Lemma delay_bounds self s attempt :
  wf self -> drawn self s -> 0 <= delay self s attempt <= max_delay self.
Proof.
  intros Hwf Hs. unfold delay. pose proof (scaled_delay_bounds self attempt Hwf).
  destruct (attempt <=? 1); [lia|]. pose proof (apply_jitter_bounds self s _ Hs (proj1 H)). lia.
Qed.

Lemma scaled_delay_closed self a :
  2 <= a <= 18 -> base_delay self * 2 ^ (a - 2) <= max_delay self <= DURATION_MAX ->
  scaled_delay self a = base_delay self * 2 ^ (a - 2).
Proof.
  intros Ha Hm. unfold scaled_delay, u32_saturating_sub.
  rewrite (Z.max_r 0 (a - 2)), (Z.min_l (a - 2) 16) by lia.
  assert (2 ^ (a - 2) <= 2 ^ 16) by (apply Z.pow_le_mono_r; lia).
  rewrite (Z.min_l (2 ^ (a - 2))) by (unfold U32_MAX; lia). lia.
Qed.

Lemma checked_add_over now delay budget :
  0 <= delay -> budget <= now ->
  match checked_add now delay with None => true | Some after => budget <=? after end = true.
Proof. intros Hd Hb. unfold checked_add. destruct (_ <=? INSTANT_MAX); [lia|done]. Qed.

Section loop.
Context {T E : Type}.
Implicit Types (env : Env T E).

(** Iteration [i] with attempt number [a] asks again: its verdict was a re-ask
    and its delay ends strictly inside the budget. *)
Definition asks_again policy env budget i a : Prop :=
  exists r, attempt_fn env i a = Ok (Reask r)
  /\ now env i + delay policy (sample env i) (u32_saturating_add a 1) < budget.

(** Iteration [i] ends the loop with [out]. *)
Definition ends policy env budget i a (out : result T E) : Prop :=
  match attempt_fn env i a with
  | Err error => out = Err error
  | Ok (Settled value) => out = Ok value
  | Ok (Reask r) =>
      out = r /\ (budget <= now env i + delay policy (sample env i) (u32_saturating_add a 1)
                  \/ INSTANT_MAX < now env i + delay policy (sample env i) (u32_saturating_add a 1))
  end.

(** The attempt number of iteration [i], from [a]. *)
Definition attempt_at (a : Z) (i : nat) : Z := Nat.iter i (fun a => u32_saturating_add a 1) a.

Lemma reask_loop_ends policy env budget fuel i a out :
  reask_loop fuel policy env budget i a = Some out ->
  exists n, (n < fuel)%nat
    /\ ends policy env budget (i + n) (attempt_at a n) out
    /\ forall k, (k < n)%nat -> asks_again policy env budget (i + k) (attempt_at a k).
Proof.
  revert i a. induction fuel as [|fuel IH]; intros i a; simpl; [done|]. intros H.
  destruct (attempt_fn env i a) as [[value|r]|error] eqn:Ea.
  - exists 0%nat. rewrite Nat.add_0_r. unfold ends. simpl. rewrite Ea.
    split_and!; [lia|naive_solver|lia].
  - unfold checked_add in H. destruct (_ <=? INSTANT_MAX) eqn:Eo; [destruct (budget <=? _) eqn:Eb|].
    + exists 0%nat. rewrite Nat.add_0_r. unfold ends. simpl. rewrite Ea.
      split_and!; [lia|naive_solver lia|naive_solver lia|lia].
    + apply IH in H as (n & Hn & He & Hk). exists (S n).
      unfold attempt_at in *. rewrite <- Nat.add_succ_comm, Nat.iter_succ_r.
      split_and!; [lia|exact He|]. intros [|k] Hlt.
      * rewrite Nat.add_0_r. exists r. simpl. split; [done|lia].
      * rewrite <- Nat.add_succ_comm, Nat.iter_succ_r. apply Hk. lia.
    + exists 0%nat. rewrite Nat.add_0_r. unfold ends. simpl. rewrite Ea.
      split_and!; [lia|naive_solver lia|naive_solver lia|lia].
  - exists 0%nat. rewrite Nat.add_0_r. unfold ends. simpl. rewrite Ea.
    split_and!; [lia|naive_solver|lia].
Qed.

Lemma reask_loop_returns policy env budget n : forall fuel i a,
  (forall k a, 0 <= delay policy (sample env k) a) ->
  budget <= now env (i + n)%nat -> (n < fuel)%nat ->
  is_Some (reask_loop fuel policy env budget i a).
Proof.
  induction n as [|n IH]; intros [|fuel] i a Hd Hb Hf; try lia; simpl;
    destruct (attempt_fn env i a) as [[value|r]|error]; eauto.
  - rewrite checked_add_over; [eauto|apply Hd|by rewrite Nat.add_0_r in Hb].
  - destruct (match checked_add _ _ with None => true | Some _ => _ end); [eauto|].
    apply IH; [done|by rewrite Nat.add_succ_comm|lia].
Qed.

End loop.

(** The default policy waits before each attempt after the first. *)
Lemma default_delay_takes n : 2 <= n -> 1 <= delay default_policy 0%Q n.
Proof.
  intros Hn. unfold delay. rewrite (proj2 (Z.leb_gt _ _)) by lia.
  change (apply_jitter _ _ ?d) with (round_half_even (d * 1) 1).
  unfold round_half_even. rewrite Z.div_1_r, Z.mod_1_r. change (2 * 0 <? 1) with true. cbn match.
  rewrite Z.mul_1_r. unfold scaled_delay, u32_saturating_sub.
  change (base_delay _) with 100000000. change (max_delay _) with 5000000000.
  set (e := Z.min _ 16). assert (0 <= e) by (unfold e; lia).
  pose proof (Z.pow_pos_nonneg 2 e ltac:(lia) ltac:(lia)). unfold DURATION_MAX, U32_MAX, SECOND. lia.
Qed.

End RetryFacts.

(** ** Properties *)

Module RetryProperties.
Import Retry RetryFacts.

(** The backoff curve: before the second attempt there is no delay, jitter only
    shortens, the cap stays a cap, the unjittered curve never decreases, and it is
    the base doubled per attempt up to the cap. *)
Theorem delay_curve (self : RetryPolicy) (s : Q) (a b : Z) :
  wf self -> drawn self s -> a <= b ->
  (a <= 1 -> delay self s a = 0)
  /\ 0 <= delay self s b <= scaled_delay self b
  /\ scaled_delay self a <= scaled_delay self b <= max_delay self
  /\ (2 <= a <= 18 -> base_delay self * 2 ^ (a - 2) <= max_delay self <= DURATION_MAX ->
      scaled_delay self a = base_delay self * 2 ^ (a - 2)).
Proof.
  intros Hwf Hs Hab. pose proof (scaled_delay_bounds self b Hwf) as Hb. split_and!.
  - intros Ha. unfold delay. by rewrite (proj2 (Z.leb_le a 1)).
  - apply delay_bounds; done.
  - unfold delay. destruct (b <=? 1); [lia|]. apply apply_jitter_bounds; [done|lia].
  - by apply scaled_delay_mono.
  - lia.
  - apply scaled_delay_closed.
Qed.

Lemma delay_curve_witness :
  scaled_delay default_policy 5 = 800 * MILLI
  /\ delay default_policy (1 # 10) 5 = 720 * MILLI.
Proof.
  destruct (delay_curve default_policy (1 # 10) 5 6) as (_ & _ & _ & H).
  - unfold wf. vm_compute. repeat split; discriminate.
  - unfold drawn, Qle. vm_compute. split; discriminate.
  - lia.
  - rewrite H by (vm_compute; split; discriminate). vm_compute. split; reflexivity.
Defined.

(** The re-ask loop: once the clock has passed the budget after some attempt, the
    loop has returned by that attempt; what it returns is the first attempt's
    answer that is settled or failed, or the last answer exactly as it came, and
    every earlier attempt was a re-ask whose delay ended inside the budget, so
    the loop never sleeps past it. *)
Theorem reask_returns {T E} (policy : RetryPolicy) (env : Env T E) (deadline : option Z)
    (started : Z) (n fuel : nat) :
  let budget := default (started + coordinator_timeout policy) deadline in
  wf policy -> (forall i, drawn policy (sample env i)) ->
  budget <= now env n -> (n < fuel)%nat ->
  exists out k, reask fuel policy env deadline started = Some out /\ (k < fuel)%nat
    /\ ends policy env budget k (attempt_at 1 k) out
    /\ forall j, (j < k)%nat -> asks_again policy env budget j (attempt_at 1 j).
Proof.
  intros budget Hwf Hs Hb Hf.
  destruct (reask_loop_returns policy env budget n fuel 0 1) as [out Hout]; [|done|done|].
  { intros k a. by apply delay_bounds. }
  exists out. pose proof (reask_loop_ends _ _ _ _ _ _ _ Hout) as (k & Hk & He & Hj).
  exists k. done.
Qed.

(** Two re-asks, then a settled answer. *)
Definition example_env : Env nat string := {|
  attempt_fn := fun i a => if (a <? 3) then Ok (Reask (Err "not coordinator"%string))
                           else Ok (Settled i);
  now := fun i => Z.of_nat i * SECOND;
  sample := fun _ => 0%Q;
|}.

Lemma reask_returns_witness :
  reask 60 default_policy example_env None 0 = Some (Ok 2%nat).
Proof.
  destruct (reask_returns default_policy example_env None 0 31 60) as (out & k & H & _).
  - unfold wf. vm_compute. repeat split; discriminate.
  - intros i. unfold drawn, Qle. vm_compute. split; discriminate.
  - vm_compute. discriminate.
  - lia.
  - transitivity (Some out); [exact H|]. vm_compute in H. symmetry. exact H.
Defined.

End RetryProperties.
