(* ===== verification/Effects.v ===== *)
(** Calls that may change a state, fail, or run out of fuel: a small monad, what such calls keep,
    and that they return. *)

From S2P Require Import Prelude ErrorCodes.

Module Eff.
Import Error.

Section eff.
Context {S : Type}.
Implicit Types (s : S).

(** A call: what it returns and the state after, when the fuel of its loops lasts. *)
Definition M (A : Type) : Type := S -> option (result A Error * S).

Definition ret {A} (r : result A Error) : M A := fun s => Some (r, s).
Definition bind {A B} (m : M A) (k : result A Error -> M B) : M B :=
  fun s => match m s with Some (r, s) => k r s | None => None end.
(** [?]. *)
Definition try_ {A B} (m : M A) (k : A -> M B) : M B :=
  bind m (fun r => match r with Ok a => k a | Err e => ret (Err e) end).
Definition get_state {B} (k : S -> M B) : M B := fun s => k s s.
Definition put (f : S -> S) : M unit := fun s => Some (Ok tt, f s).
Definition out_of_fuel {A} : M A := fun _ => None.

(** A loop over a list that collects what its body returns, and ends at the first error. *)
Fixpoint each {A B} (f : A -> M B) (l : list A) : M (list B) :=
  match l with
  | [] => ret (Ok [])
  | a :: l => try_ (f a) (fun b => try_ (each f l) (fun bs => ret (Ok (b :: bs))))
  end.

(** A loop over a list that threads a value through its body. *)
Fixpoint fold_each {A B} (f : B -> A -> M B) (b : B) (l : list A) : M B :=
  match l with
  | [] => ret (Ok b)
  | a :: l => try_ (f b a) (fun b => fold_each f b l)
  end.

(** *** What calls keep *)

(** A call moves the state along a relation. *)
Definition moves {A} (R : S -> S -> Prop) (m : M A) : Prop :=
  forall s r s', m s = Some (r, s') -> R s s'.

Section moves.
Context (R : S -> S -> Prop) `{!Reflexive R, !Transitive R}.

Lemma moves_ret {A} (r : result A Error) : moves R (ret r).
Proof. by intros s ? ? [= <- <-]. Qed.

Lemma moves_bind {A B} (m : M A) (k : result A Error -> M B) :
  moves R m -> (forall r, moves R (k r)) -> moves R (bind m k).
Proof.
  intros Hm Hk s r s'. unfold bind. destruct (m s) as [[r1 s1]|] eqn:E; [|done].
  intros Hk1. etrans; [by eapply Hm|by eapply Hk].
Qed.

Lemma moves_try {A B} (m : M A) (k : A -> M B) :
  moves R m -> (forall a, moves R (k a)) -> moves R (try_ m k).
Proof. intros Hm Hk. apply moves_bind; [done|]. intros [a|e]; [apply Hk|apply moves_ret]. Qed.

Lemma moves_get {B} (k : S -> M B) : (forall s, moves R (k s)) -> moves R (get_state k).
Proof. intros Hk s. apply Hk. Qed.

Lemma moves_put f : (forall s, R s (f s)) -> moves R (put f).
Proof. intros Hf s ? ? [= <- <-]. apply Hf. Qed.

Lemma moves_none {A} : moves R (out_of_fuel (A := A)).
Proof. by intros s r s'. Qed.

Lemma moves_each {A B} (f : A -> M B) l : (forall a, moves R (f a)) -> moves R (each f l).
Proof.
  intros Hf. induction l as [|a l IH]; cbn; [apply moves_ret|].
  apply moves_try; [apply Hf|]. intros b. apply moves_try; [done|]. intros bs. apply moves_ret.
Qed.

Lemma moves_fold {A B} (f : B -> A -> M B) l b :
  (forall b a, moves R (f b a)) -> moves R (fold_each f b l).
Proof.
  intros Hf. revert b. induction l as [|a l IH]; intros b; cbn; [apply moves_ret|].
  apply moves_try; [apply Hf|done].
Qed.

End moves.

(** *** What a call returned *)

Lemma bind_inv {A B} (m : M A) (k : result A Error -> M B) s r s' :
  bind m k s = Some (r, s') -> exists r1 s1, m s = Some (r1, s1) /\ k r1 s1 = Some (r, s').
Proof. unfold bind. destruct (m s) as [[r1 s1]|]; [|done]. eauto. Qed.

Lemma try_inv {A B} (m : M A) (k : A -> M B) s b s' :
  try_ m k s = Some (Ok b, s') -> exists a s1, m s = Some (Ok a, s1) /\ k a s1 = Some (Ok b, s').
Proof. intros ([a|e] & s1 & Hm & Hk)%bind_inv; [by eauto|done]. Qed.

(** *** Calls that return *)

(** A call returns, and moves the state along a relation. *)
Definition returns_at {A} (R : S -> S -> Prop) (m : M A) s : Prop :=
  exists r s', m s = Some (r, s') /\ R s s'.
Definition returns {A} (R : S -> S -> Prop) (m : M A) : Prop := forall s, returns_at R m s.

Section returns.
Context (R : S -> S -> Prop) `{!Reflexive R, !Transitive R}.

Lemma returns_ret {A} (r : result A Error) : returns R (ret r).
Proof. intros s. by exists r, s. Qed.

Lemma returns_bind_at {A B} (m : M A) (k : result A Error -> M B) s :
  returns_at R m s -> (forall r s', R s s' -> returns_at R (k r) s') -> returns_at R (bind m k) s.
Proof.
  intros (r & s1 & Hm & Hle) Hk. destruct (Hk r s1 Hle) as (r2 & s2 & Hk2 & Hle2).
  exists r2, s2. unfold bind. rewrite Hm. split; [done|by etrans].
Qed.

Lemma returns_bind {A B} (m : M A) (k : result A Error -> M B) :
  returns R m -> (forall r, returns R (k r)) -> returns R (bind m k).
Proof. intros Hm Hk s. apply returns_bind_at; [apply Hm|]. intros r s' _. apply Hk. Qed.

Lemma returns_try {A B} (m : M A) (k : A -> M B) :
  returns R m -> (forall a, returns R (k a)) -> returns R (try_ m k).
Proof. intros Hm Hk. apply returns_bind; [done|]. intros [a|e]; [apply Hk|apply returns_ret]. Qed.

Lemma returns_get {B} (k : S -> M B) : (forall s, returns R (k s)) -> returns R (get_state k).
Proof. intros Hk s. apply Hk. Qed.

Lemma returns_put f : (forall s, R s (f s)) -> returns R (put f).
Proof. intros Hf s. by exists (Ok tt), (f s). Qed.

Lemma returns_each {A B} (f : A -> M B) l : (forall a, returns R (f a)) -> returns R (each f l).
Proof.
  intros Hf. induction l as [|a l IH]; cbn; [apply returns_ret|].
  apply returns_try; [apply Hf|]. intros b. apply returns_try; [done|]. intros bs. apply returns_ret.
Qed.

Lemma returns_fold {A B} (f : B -> A -> M B) l b :
  (forall b a, returns R (f b a)) -> returns R (fold_each f b l).
Proof.
  intros Hf. revert b. induction l as [|a l IH]; intros b; cbn; [apply returns_ret|].
  apply returns_try; [apply Hf|done].
Qed.

End returns.

End eff.

#[global] Arguments M _ _ : clear implicits.

(** Applies a lemma on [moves] or [returns], and finds that the relation is a preorder. *)
Tactic Notation "along" uconstr(lemma) :=
  apply lemma;
  try match goal with |- Reflexive _ => apply _ | |- Transitive _ => apply _ end.

End Eff.

(** [m?] with its value, and a call with its result. *)
Declare Scope eff_scope.
Notation "'let!' x ':=' m 'in' k" := (Eff.try_ m (fun x => k))
  (at level 10, x pattern, m at level 200, k at level 200) : eff_scope.
Notation "'let*' x ':=' m 'in' k" := (Eff.bind m (fun x => k))
  (at level 10, x pattern, m at level 200, k at level 200) : eff_scope.
Open Scope eff_scope.
