(* ===== verification/Oidc.v ===== *)
(** A token source for OAUTHBEARER: [client_credentials] at an OIDC token endpoint, and the token it
    keeps ([crates/kafka-conn/src/oidc.rs]).

    The HTTP client, the form encoder, the JSON parser and base64 are classes.  Durations are
    nanoseconds. *)

From S2P Require Import Prelude Sanitize Text ErrorCodes Scram Tls Effects.

(** [form_urlencoded]: the percent-encoding of bytes, and a form of pairs. *)
Class FormUrlencoded : Type := {
  byte_serialize : bytes -> text;
  form_serialize : list (text * text) -> text;
}.

(** [serde_json::Value], from bytes and from a text; an error is its [Display]. *)
Class SerdeJson : Type := {
  Value : Type;
  from_slice : bytes -> result Value text;
  from_str : text -> option Value;
  json_get : Value -> text -> option Value;
  as_str : Value -> option text;
  as_u64 : Value -> option Z;
}.

(** [hyper::Uri]. *)
Class UriParser : Type := {
  Uri : Type;
  parse_uri : text -> result Uri text;
  scheme_str : Uri -> option text;
  display_uri : Uri -> text;
}.

(** What the HTTP client is asked. *)
Record HttpRequest `{UriParser} : Type := {
  uri : Uri;
  request_headers : list (string * text);
  request_body : text;
}.

(** The head of an answer: a status and the body that is still to be read. *)
Record HttpResponse (Body : Type) : Type := { http_status : Z; incoming : Body }.
#[global] Arguments http_status {Body}.
#[global] Arguments incoming {Body}.

(** The HTTP client over a world.  [build] is the builder's own error; [http_request] is [None] if
    no head arrives within the deadline; [collect_limited] reads a body up to a limit, and
    is [None] if the body never ends. *)
Class Http `{UriParser} (W : Type) : Type := {
  Body : Type;
  now : W -> Z;
  build_error : HttpRequest -> option text;
  http_request : HttpRequest -> Z -> W -> option (result (HttpResponse Body) text) * W;
  collect_limited : Z -> Body -> W -> option (result bytes text * W);
  display_status : Z -> text;
  debug_duration : Z -> text;
}.

Module Oidc.
Import Str Error Eff.

Definition SECONDS : Z := 1000000000.
Definition MILLIS : Z := 1000000.
Definition MAX_RESPONSE_BYTES : Z := 256 * 1024.
Definition ASSUMED_LIFETIME : Z := 300 * SECONDS.
Definition MAX_LIFETIME : Z := 24 * 60 * 60 * SECONDS.

(** How to reach a token endpoint. *)
Record OidcConfig : Type := {
  token_endpoint : text;
  client_id : text;
  client_secret : text;
  scope : option text;
  audience : option text;
  refresh_margin : Z;
  timeout : Z;
  credentials_in_body : bool;
  allow_plaintext_endpoint : bool;
  tls : option Tls.TlsConfig;
}.

Definition new_config (endpoint id secret : text) : OidcConfig := {|
  token_endpoint := endpoint; client_id := id; client_secret := secret; scope := None; audience := None;
  refresh_margin := 60 * SECONDS; timeout := 10 * SECONDS; credentials_in_body := false;
  allow_plaintext_endpoint := false; tls := None |}.

Definition with_maybe_scope (self : OidcConfig) (scope_ : option text) : OidcConfig := {|
  token_endpoint := token_endpoint self; client_id := client_id self; client_secret := client_secret self;
  scope := scope_; audience := audience self; refresh_margin := refresh_margin self; timeout := timeout self;
  credentials_in_body := credentials_in_body self; allow_plaintext_endpoint := allow_plaintext_endpoint self;
  tls := tls self |}.
Definition with_scope (self : OidcConfig) (scope_ : text) : OidcConfig := with_maybe_scope self (Some scope_).

Definition with_maybe_audience (self : OidcConfig) (audience_ : option text) : OidcConfig := {|
  token_endpoint := token_endpoint self; client_id := client_id self; client_secret := client_secret self;
  scope := scope self; audience := audience_; refresh_margin := refresh_margin self; timeout := timeout self;
  credentials_in_body := credentials_in_body self; allow_plaintext_endpoint := allow_plaintext_endpoint self;
  tls := tls self |}.
Definition with_audience (self : OidcConfig) (audience_ : text) : OidcConfig :=
  with_maybe_audience self (Some audience_).

Definition with_refresh_margin (self : OidcConfig) (margin : Z) : OidcConfig := {|
  token_endpoint := token_endpoint self; client_id := client_id self; client_secret := client_secret self;
  scope := scope self; audience := audience self; refresh_margin := margin; timeout := timeout self;
  credentials_in_body := credentials_in_body self; allow_plaintext_endpoint := allow_plaintext_endpoint self;
  tls := tls self |}.

Definition with_timeout (self : OidcConfig) (timeout_ : Z) : OidcConfig := {|
  token_endpoint := token_endpoint self; client_id := client_id self; client_secret := client_secret self;
  scope := scope self; audience := audience self; refresh_margin := refresh_margin self; timeout := timeout_;
  credentials_in_body := credentials_in_body self; allow_plaintext_endpoint := allow_plaintext_endpoint self;
  tls := tls self |}.

Definition with_credentials_in_body (self : OidcConfig) : OidcConfig := {|
  token_endpoint := token_endpoint self; client_id := client_id self; client_secret := client_secret self;
  scope := scope self; audience := audience self; refresh_margin := refresh_margin self; timeout := timeout self;
  credentials_in_body := true; allow_plaintext_endpoint := allow_plaintext_endpoint self; tls := tls self |}.

Definition with_allow_plaintext_endpoint (self : OidcConfig) : OidcConfig := {|
  token_endpoint := token_endpoint self; client_id := client_id self; client_secret := client_secret self;
  scope := scope self; audience := audience self; refresh_margin := refresh_margin self; timeout := timeout self;
  credentials_in_body := credentials_in_body self; allow_plaintext_endpoint := true; tls := tls self |}.

Definition with_tls (self : OidcConfig) (tls_ : Tls.TlsConfig) : OidcConfig := {|
  token_endpoint := token_endpoint self; client_id := client_id self; client_secret := client_secret self;
  scope := scope self; audience := audience self; refresh_margin := refresh_margin self; timeout := timeout self;
  credentials_in_body := credentials_in_body self; allow_plaintext_endpoint := allow_plaintext_endpoint self;
  tls := Some tls_ |}.

(** A token that is kept: when to fetch another, and when it stops working. *)
Record Cached : Type := { token : text; refresh_after : Z; expires_at : Z }.

(** *** Lifetimes *)

(** [Duration::as_millis], as a [u64]. *)
Definition millis_u64 (d : Z) : Z := try_from_or U64_MAX U64_MAX (d / MILLIS).

(** How much of a token's lifetime to use before refreshing. *)
Definition usable_lifetime (lifetime margin : Z) : Z :=
  let by_factor := Z.min (millis_u64 lifetime * 8) U64_MAX / 10 * MILLIS in
  let by_margin := Z.max 0 (lifetime - margin) in
  Z.max (Z.min by_factor by_margin) (lifetime / 2).

Section oidc.
Context `{FormUrlencoded, Scram.Base64, Scram.StrDebug, SerdeJson, UriParser, Tls.Rustls}.

(** *** Answers *)

(** The lifetime a token response claims: a number of seconds, or a string that spells one. *)
Definition claimed_lifetime (json : Value) : option Z :=
  json_get json (text_of_string "expires_in") ≫= fun v =>
    match as_u64 v with
    | Some n => Some n
    | None => as_str v ≫= fun s => match parse_u64 s with Ok n => Some n | Err _ => None end
    end.

(** An answer that cannot be used, of an endpoint that said it was well. *)
Definition unusable (endpoint detail : text) : Error :=
  TokenEndpoint (string_of_text endpoint) (Some 200) (string_of_text detail).

Definition parse_token_response (endpoint : text) (body : bytes) : result (text * Z) Error :=
  match from_slice body with
  | Err e => Err (unusable endpoint (text_of_string "answered with something that is not JSON: " ++ e))
  | Ok json =>
      match json_get json (text_of_string "access_token") ≫= as_str with
      | Some ((_ :: _) as token) =>
          let lifetime :=
            match claimed_lifetime json with
            | Some seconds => if seconds =? 0 then ASSUMED_LIFETIME else seconds * SECONDS
            | None => ASSUMED_LIFETIME
            end in
          Ok (token, if MAX_LIFETIME <? lifetime then MAX_LIFETIME else lifetime)
      | _ => Err (unusable endpoint (text_of_string "answered without an access_token"))
      end
  end.

Definition bounded (s : text) : text := take 200 (control_safe s).

(** What an error answer says. *)
Definition describe_failure (body : bytes) : text :=
  let text := Utf8.from_utf8_lossy body in
  let field json name := json_get json (text_of_string name) ≫= as_str in
  let plain :=
    match trim text with
    | [] => text_of_string "with an empty body"
    | trimmed => bounded trimmed
    end in
  match from_str text with
  | Some json =>
      match field json "error", field json "error_description" with
      | Some error, Some description => bounded (error ++ text_of_string ": " ++ description)
      | Some error, None => bounded error
      | None, Some description => bounded description
      | None, None => plain
      end
  | None => plain
  end.

(** *** The request *)

(** The pair for HTTP Basic, each half encoded. *)
Definition basic_credentials (client_id client_secret : text) : text :=
  byte_serialize (Utf8.as_bytes client_id) ++ [58] ++ byte_serialize (Utf8.as_bytes client_secret).

Definition form_fields (config : OidcConfig) : list (text * text) :=
  let optional name value := match value with Some v => [(text_of_string name, v)] | None => [] end in
  [(text_of_string "grant_type", text_of_string "client_credentials")]
  ++ optional "scope" (scope config) ++ optional "audience" (audience config)
  ++ (if credentials_in_body config
      then [(text_of_string "client_id", client_id config); (text_of_string "client_secret", client_secret config)]
      else []).

Definition form_body (config : OidcConfig) : text := form_serialize (form_fields config).

Definition token_request (config : OidcConfig) (endpoint : Uri) : HttpRequest := {|
  uri := endpoint;
  request_headers :=
    [("content-type"%string, text_of_string "application/x-www-form-urlencoded");
     ("accept"%string, text_of_string "application/json")]
    ++ (if credentials_in_body config then []
        else [("authorization"%string,
               text_of_string "Basic "
               ++ Scram.B64_encode (Utf8.as_bytes (basic_credentials (client_id config) (client_secret config))))]);
  request_body := form_body config |}.

(** *** The provider *)

(** [plaintext] is whether the connector opens connections that are not encrypted; [asked] are the
    requests that were sent. *)
Record OidcTokenProvider (W : Type) : Type := {
  config : OidcConfig;
  endpoint : Uri;
  plaintext : bool;
  cached : option Cached;
  asked : list HttpRequest;
  world : W;
}.
#[global] Arguments config {W}.
#[global] Arguments endpoint {W}.
#[global] Arguments plaintext {W}.
#[global] Arguments cached {W}.
#[global] Arguments asked {W}.
#[global] Arguments world {W}.

Definition bad_endpoint (parts : list text) : Error := InvalidRequest (string_of_text (concat parts)).

(** Plain HTTP would put the client secret on the wire in the clear. *)
Definition check_scheme (config : OidcConfig) (endpoint : Uri) : result unit Error :=
  let named scheme := bool_decide (scheme_str endpoint = Some (text_of_string scheme)) in
  if named "https" then Ok tt
  else if named "http" then
    if allow_plaintext_endpoint config then Ok tt
    else Err (bad_endpoint [text_of_string "token endpoint "; display_uri endpoint;
                text_of_string " is http, which would send the client secret in the clear; use https or opt in with OidcConfig::with_allow_plaintext_endpoint"])
  else
    Err (bad_endpoint [text_of_string "token endpoint "; display_uri endpoint; text_of_string " has scheme ";
           match scheme_str endpoint with
           | Some s => text_of_string "Some(" ++ Scram.debug_str s ++ text_of_string ")"
           | None => text_of_string "None"
           end; text_of_string ", which is not http(s)"]).

(** [native] are the certificates of the system's store. *)
Definition new {W} (native : list Tls.Certificate) (config : OidcConfig) (w : W) : result (OidcTokenProvider W) Error :=
  let? endpoint :=
    match parse_uri (token_endpoint config) with
    | Ok uri => Ok uri
    | Err e => Err (bad_endpoint [text_of_string "token endpoint "; Scram.debug_str (token_endpoint config);
                                  text_of_string " is not a valid uri: "; e])
    end in
  let? _ := check_scheme config endpoint in
  let? _ := Tls.rustls_config (default Tls.system (tls config)) native in
  Ok {| config := config; endpoint := endpoint; plaintext := allow_plaintext_endpoint config; cached := None;
        asked := []; world := w |}.

Section calls.
Context {W : Type} `{!Http W}.
Abbreviation M := (Eff.M (OidcTokenProvider W)).

Definition with_cached (c : Cached) (self : OidcTokenProvider W) : OidcTokenProvider W := {|
  config := config self; endpoint := endpoint self; plaintext := plaintext self; cached := Some c;
  asked := asked self; world := world self |}.
Definition with_world (w : W) (self : OidcTokenProvider W) : OidcTokenProvider W := {|
  config := config self; endpoint := endpoint self; plaintext := plaintext self; cached := cached self;
  asked := asked self; world := w |}.

Definition unreachable (self : OidcTokenProvider W) (detail : text) : Error :=
  TokenEndpoint (string_of_text (display_uri (endpoint self))) None (string_of_text detail).

(** The head of the answer to a request, within the deadline. *)
Definition exchange (request : HttpRequest) : M (HttpResponse Body) :=
  fun self =>
    let '(answer, w) := http_request request (timeout (config self)) (world self) in
    let self := {| config := config self; endpoint := endpoint self; plaintext := plaintext self;
                   cached := cached self; asked := asked self ++ [request]; world := w |} in
    Some (match answer with
          | None => Err (unreachable self (text_of_string "no response within " ++ debug_duration (timeout (config self))))
          | Some (Err e) => Err (unreachable self e)
          | Some (Ok response) => Ok response
          end, self).

(** The body of an answer, with no deadline. *)
Definition read_body (body : Body) : M bytes :=
  fun self =>
    match collect_limited MAX_RESPONSE_BYTES body (world self) with
    | None => None
    | Some (Ok b, w) => Some (Ok b, with_world w self)
    | Some (Err e, w) =>
        Some (Err (unreachable self (text_of_string "reading the response body: " ++ e)), with_world w self)
    end.

Definition is_success (status : Z) : bool := (200 <=? status) && (status <? 300).

(** One round trip. *)
Definition fetch : M Cached :=
  get_state (fun self =>
    let request := token_request (config self) (endpoint self) in
    match build_error request with
    | Some e => ret (Err (unreachable self (text_of_string "could not build the request: " ++ e)))
    | None =>
        let! response := exchange request in
        let status := http_status response in
        let! body := read_body (incoming response) in
        if negb (is_success status) then
          ret (Err (TokenEndpoint (string_of_text (display_uri (endpoint self))) (Some status)
                 (string_of_text (text_of_string "returned HTTP " ++ display_status status
                                  ++ text_of_string ": " ++ describe_failure body))))
        else
          let! (token, lifetime) := ret (parse_token_response (display_uri (endpoint self)) body) in
          let usable := usable_lifetime lifetime (refresh_margin (config self)) in
          get_state (fun self =>
            let now := now (world self) in
            ret (Ok {| token := token; refresh_after := now + usable; expires_at := now + lifetime |}))
    end).

(** A call that fetches: a refresh that failed leaves the token that is kept, while it works. *)
Definition refresh : M text :=
  let* fetched := fetch in
  match fetched with
  | Ok fresh => let! _ := put (with_cached fresh) in ret (Ok (token fresh))
  | Err error =>
      get_state (fun self =>
        match cached self with
        | Some current =>
            if now (world self) <? expires_at current then ret (Ok (token current)) else ret (Err error)
        | None => ret (Err error)
        end)
  end.

(** The current token; the lock is held all along, so calls come one after the other. *)
Definition current_token : M text :=
  get_state (fun self =>
    match cached self with
    | Some current => if now (world self) <? refresh_after current then ret (Ok (token current)) else refresh
    | None => refresh
    end).

End calls.

End oidc.

End Oidc.

(** * Lemmas and properties

    Lemmas on the token source, and its properties: the tokens it hands out are live, one is
    fetched at most once in half its lifetime, and its secret goes where it may. *)

From S2P Require Import ScramFacts.

(** Clocks do not go back, and what is parsed is in range. *)
Class HttpLaws (W : Type) `{UriParser, !Http W} : Prop := {
  head_takes_time : forall r d w, now w <= now (http_request r d w).2;
  body_takes_time : forall n b w r w', collect_limited n b w = Some (r, w') -> now w <= now w';
}.
Class SerdeLaws `{SerdeJson} : Prop := {
  as_u64_range : forall v n, as_u64 v = Some n -> 0 <= n <= U64_MAX;
  as_str_valid : forall v s, as_str v = Some s -> Utf8.valid s;
}.

(** Percent-encoding writes letters, digits, the asterisk, the hyphen, the full stop, the underscore, plus and per cent
    signs, and can be undone. *)
Class FormLaws `{FormUrlencoded} : Prop := {
  serialized_alphabet : forall b,
    Forall (fun c => Str.is_ascii_alphanumeric c || existsb (Z.eqb c) [42; 45; 46; 95; 43; 37] = true) (byte_serialize b);
  serialized_inj : forall b b', byte_serialize b = byte_serialize b' -> b = b';
}.

Module OidcFacts.
Import Error Eff Oidc.

Lemma parse_digits_range bound s : forall acc n,
  0 <= acc <= bound -> Str.parse_digits bound acc s = Ok n -> 0 <= n <= bound.
Proof.
  induction s as [|c s IH]; intros acc n Hacc; cbn; [by intros [= <-]|].
  destruct (Str.is_ascii_digit c) eqn:E; cbn; [|done]. unfold Str.is_ascii_digit in E.
  destruct (bound <? _) eqn:Hb; [done|]. apply IH. lia.
Qed.

Lemma parse_u64_range s n : Str.parse_u64 s = Ok n -> 0 <= n <= U64_MAX.
Proof.
  assert (Hz : 0 <= 0 <= U64_MAX) by by vm_compute.
  unfold Str.parse_u64. intros Hn.
  repeat case_match; try done; by eapply parse_digits_range.
Qed.

(** At least half the lifetime is used, and no more than all of it. *)
Lemma usable_range lifetime margin :
  0 <= lifetime -> lifetime / 2 <= usable_lifetime lifetime margin <= lifetime.
Proof.
  intros Hl. unfold usable_lifetime, millis_u64, try_from_or, MILLIS.
  assert (Hm : 0 <= lifetime / 1000000) by (apply Z.div_pos; lia).
  assert (Hf : Z.min ((if lifetime / 1000000 <=? U64_MAX then lifetime / 1000000 else U64_MAX) * 8) U64_MAX
               / 10 * 1000000 <= lifetime).
  { destruct (_ <=? U64_MAX) eqn:E.
    - assert (Z.min (lifetime / 1000000 * 8) U64_MAX / 10 <= lifetime / 1000000 * 8 / 10) by (apply Z.div_le_mono; lia).
      Z.to_euclidean_division_equations. lia.
    - assert (Z.min (U64_MAX * 8) U64_MAX / 10 <= U64_MAX * 8 / 10) by (apply Z.div_le_mono; lia).
      assert (U64_MAX * 8 / 10 <= U64_MAX) by by vm_compute. Z.to_euclidean_division_equations. lia. }
  Z.to_euclidean_division_equations. lia.
Qed.

Section parsing.
Context `{!FormUrlencoded, !Scram.Base64, !Scram.StrDebug, !SerdeJson, !SerdeLaws, !UriParser, !Tls.Rustls}.

Lemma claimed_range json n : claimed_lifetime json = Some n -> 0 <= n.
Proof.
  unfold claimed_lifetime. destruct (json_get json _) as [v|]; [|done]. cbn.
  destruct (as_u64 v) as [m|] eqn:E.
  - intros [= <-]. apply as_u64_range in E. lia.
  - destruct (as_str v) as [s|]; [|done]. cbn. destruct (Str.parse_u64 s) eqn:Ep; [|done].
    intros [= <-]. apply parse_u64_range in Ep. lia.
Qed.

(** A token that is accepted is not empty, and lives for a while, but not for ever. *)
Lemma parsed_token endpoint body t l :
  parse_token_response endpoint body = Ok (t, l) -> t <> [] /\ 0 < l <= MAX_LIFETIME.
Proof.
  unfold parse_token_response. destruct (from_slice body) as [json|]; [|done].
  destruct (json_get json _ ≫= as_str) as [[|c cs]|]; [done| |done].
  intros [= <- <-]. split; [done|].
  assert (Ha : 0 < ASSUMED_LIFETIME <= MAX_LIFETIME) by by vm_compute.
  pose proof (claimed_range json) as Hc. destruct (claimed_lifetime json) as [n|].
  - specialize (Hc n eq_refl). unfold SECONDS in *.
    destruct (n =? 0) eqn:En; destruct (MAX_LIFETIME <? _) eqn:E; lia.
  - destruct (MAX_LIFETIME <? _) eqn:E; lia.
Qed.

Lemma scheme_checked settings u :
  check_scheme settings u = Ok tt ->
  scheme_str u = Some (text_of_string "https")
  \/ scheme_str u = Some (text_of_string "http") /\ allow_plaintext_endpoint settings = true.
Proof.
  unfold check_scheme. cbv zeta. case_bool_decide; [by left|]. case_bool_decide; [|done].
  destruct (allow_plaintext_endpoint settings); [|done]. by right.
Qed.

(** A provider that was built. *)
Lemma built {W} native settings (w : W) p0 :
  new native settings w = Ok p0 ->
  config p0 = settings /\ plaintext p0 = allow_plaintext_endpoint settings /\ asked p0 = [] /\ cached p0 = None
  /\ parse_uri (token_endpoint settings) = Ok (endpoint p0)
  /\ (scheme_str (endpoint p0) = Some (text_of_string "https")
      \/ scheme_str (endpoint p0) = Some (text_of_string "http") /\ allow_plaintext_endpoint settings = true).
Proof.
  unfold new. destruct (parse_uri (token_endpoint settings)) as [u|] eqn:Eu; [|done]. cbn.
  pose proof (scheme_checked settings u) as Hs. destruct (check_scheme settings u) as [[]|]; [|done]. cbn.
  destruct (Tls.rustls_config _ _); [|done]. intros [= <-]. cbn. split_and!; try done. by apply Hs.
Qed.

Lemma serialized_plain `{!FormLaws} b : 58 ∉ byte_serialize b.
Proof.
  intros Hin. pose proof (serialized_alphabet b) as Ha. rewrite Forall_forall in Ha. by specialize (Ha 58 Hin).
Qed.

Lemma basic_valid `{!FormLaws} id secret : Utf8.valid (basic_credentials id secret).
Proof.
  assert (Hb : forall b, Utf8.valid (byte_serialize b)).
  { intros b. apply (Forall_impl _ _ _ (serialized_alphabet b)). intros c Hc.
    unfold Utf8.is_scalar, Str.is_ascii_alphanumeric, Str.is_ascii_alphabetic, Str.is_ascii_digit in *.
    cbn [existsb] in Hc. lia. }
  unfold basic_credentials. rewrite !TextFacts.valid_app. split_and!; [done|by repeat constructor|done].
Qed.

(** *** Calls *)

Section calls.
Context {W : Type} `{!Http W, !HttpLaws W}.
Implicit Types (p : OidcTokenProvider W).

(** What a call leaves alone, and what it adds: time passes, and requests are for the endpoint. *)
Record stays p p' : Prop := {
  st_config : config p' = config p;
  st_endpoint : endpoint p' = endpoint p;
  st_plaintext : plaintext p' = plaintext p;
  st_time : now (world p) <= now (world p');
  st_asked : exists l, asked p' = asked p ++ l
               /\ Forall (fun r => r = token_request (config p) (endpoint p)) l;
}.

#[export] Instance stays_refl : Reflexive stays.
Proof. intros p. split; [done|done|done|done|]. exists []. by rewrite app_nil_r. Qed.
#[export] Instance stays_trans : Transitive stays.
Proof.
  intros p q r [C1 E1 P1 T1 (l1 & A1 & F1)] [C2 E2 P2 T2 (l2 & A2 & F2)].
  split; [congruence|congruence|congruence|lia|]. exists (l1 ++ l2). rewrite A2, A1, app_assoc. split; [done|].
  apply Forall_app. split; [done|]. by rewrite C1, E1 in F2.
Qed.

(** A fetch keeps the cache. *)
Definition keeps p p' : Prop := stays p p' /\ cached p' = cached p.
#[export] Instance keeps_refl : Reflexive keeps.
Proof. by intros p. Qed.
#[export] Instance keeps_trans : Transitive keeps.
Proof. intros p q r [S1 C1] [S2 C2]. split; [by etrans|congruence]. Qed.

Lemma exchange_keeps p r p' :
  exchange (token_request (config p) (endpoint p)) p = Some (r, p') -> keeps p p'.
Proof.
  unfold exchange. pose proof (head_takes_time (token_request (config p) (endpoint p)) (timeout (config p)) (world p)) as Ht.
  destruct (http_request _ _ _) as [answer w]. intros [= _ <-]. split; [|done].
  split; [done|done|done|done|]. cbn. eexists. split; [done|]. by repeat constructor.
Qed.

Lemma read_body_keeps b : moves keeps (read_body b).
Proof.
  intros p r p'. unfold read_body. destruct (collect_limited _ _ _) as [[[x|e] w]|] eqn:E; [| |done];
    intros [= _ <-]; apply body_takes_time in E; (split; [|done]); (split; [done|done|done|done|]);
    exists []; by rewrite app_nil_r.
Qed.

Lemma fetch_keeps : moves keeps fetch.
Proof.
  intros p r p'. unfold fetch, get_state at 1. destruct (build_error _); [by intros [= _ <-]|].
  intros (r1 & p1 & Hx%exchange_keeps & Hk)%bind_inv. etrans; [exact Hx|].
  destruct r1 as [response|e]; [|by injection Hk as _ <-].
  match type of Hk with ?m p1 = _ => assert (Hm : moves keeps m) end; [|by eapply Hm].
  along moves_try; [apply read_body_keeps|]. intros body. destruct (negb _); [along moves_ret|].
  along moves_try; [along moves_ret|]. intros [t l]. along moves_get. intros q. along moves_ret.
Qed.

(** What was fetched lives from the end of the fetch on. *)
Lemma fetch_lives p c p' :
  fetch p = Some (Ok c, p') ->
  exists l, token c <> [] /\ 0 < l <= MAX_LIFETIME /\ expires_at c = now (world p') + l
    /\ refresh_after c = now (world p') + usable_lifetime l (refresh_margin (config p)).
Proof.
  unfold fetch, get_state at 1. destruct (build_error _); [done|].
  intros (response & p1 & _ & (body & p2 & _ & Hk)%try_inv)%try_inv.
  destruct (negb _); [done|]. apply try_inv in Hk as ([t l] & p3 & [= Hp <-] & [= <- <-]).
  apply parsed_token in Hp as [Ht Hl]. by exists l.
Qed.

(** The three ways a call goes: the token that is kept is fresh; a new one is fetched; the fetch
    failed, and the token that is kept still works or does not. *)
Definition stale p : Prop := forall c, cached p = Some c -> refresh_after c <= now (world p).

Inductive outcome p (r : result text Error) p' : Prop :=
  | kept_fresh c : cached p = Some c -> now (world p) < refresh_after c -> r = Ok (token c) -> p' = p -> outcome p r p'
  | was_fetched c q : stale p -> fetch p = Some (Ok c, q) -> r = Ok (token c) -> p' = with_cached c q -> outcome p r p'
  | kept_live c e : stale p -> fetch p = Some (Err e, p') -> cached p = Some c -> now (world p') < expires_at c ->
      r = Ok (token c) -> outcome p r p'
  | failed e : stale p -> fetch p = Some (Err e, p') -> r = Err e -> outcome p r p'.

Lemma refresh_outcome p r p' : stale p -> refresh p = Some (r, p') -> outcome p r p'.
Proof.
  intros Hs ([c|e] & q & Hf & Hk)%bind_inv.
  - injection Hk as <- <-. by eapply was_fetched.
  - pose proof (fetch_keeps _ _ _ Hf) as [_ Ec]. unfold get_state in Hk. rewrite Ec in Hk.
    destruct (cached p) as [c|] eqn:E; [destruct (_ <? _) eqn:El|]; injection Hk as <- <-;
      [eapply kept_live|eapply failed|eapply failed]; try done. lia.
Qed.

Lemma current_token_outcome p r p' : current_token p = Some (r, p') -> outcome p r p'.
Proof.
  unfold current_token, get_state. destruct (cached p) as [c|] eqn:E; [destruct (_ <? _) eqn:Er|].
  - intros [= <- <-]. eapply kept_fresh; [done|lia|done|done].
  - apply refresh_outcome. unfold stale. rewrite E. intros ? [= <-]. lia.
  - apply refresh_outcome. unfold stale. by rewrite E.
Qed.

(** *** Providers that are used *)

(** A call, time that passes, and a call that is dropped: it may have asked, but keeps nothing. *)
Inductive used p p' : Prop :=
  | used_call r : current_token p = Some (r, p') -> used p p'
  | used_wait w : now (world p) <= now w -> p' = with_world w p -> used p p'
  | used_drop : stale p -> keeps p p' -> used p p'.

(** What is kept is a token that lives longer than it is kept, and not for ever. *)
Definition sound p : Prop :=
  forall c, cached p = Some c -> token c <> [] /\ refresh_after c <= expires_at c <= now (world p) + MAX_LIFETIME.

Lemma sound_keeps p p' : keeps p p' -> sound p -> sound p'.
Proof.
  intros [Hs Hc] Hp c Hc'. rewrite Hc in Hc'. destruct (Hp c Hc') as [Ht He]. split; [done|].
  pose proof (st_time _ _ Hs). lia.
Qed.

Lemma fetch_sound p c q : fetch p = Some (Ok c, q) -> sound (with_cached c q).
Proof.
  intros (l & Ht & Hl & He & Hr)%fetch_lives c' [= <-]. split; [done|]. cbn. rewrite He, Hr.
  pose proof (usable_range l (refresh_margin (config p)) ltac:(lia)). lia.
Qed.

Lemma stays_cached p c q : stays p q -> stays p (with_cached c q).
Proof. by intros [? ? ? ? ?]; split. Qed.

Lemma used_stays p p' : used p p' -> stays p p'.
Proof.
  intros [r Hc%current_token_outcome|w Hw ->|_ Hk].
  - destruct Hc as [c _ _ _ ->|c q _ Hf _ ->|c e _ Hf _ _ _|e _ Hf _]; [done| | |];
      apply fetch_keeps in Hf as [Hs _]; [by apply stays_cached|done|done].
  - split; [done|done|done|done|]. exists []. by rewrite app_nil_r.
  - apply Hk.
Qed.

Lemma used_sound p p' : used p p' -> sound p -> sound p'.
Proof.
  intros [r Hc%current_token_outcome|w Hw ->|_ Hk] Hp.
  - destruct Hc as [c _ _ _ ->|c q _ Hf _ ->|c e _ Hf _ _ _|e _ Hf _];
      [done|by eapply fetch_sound|by eapply sound_keeps; [by eapply fetch_keeps|]..].
  - intros c Hc. destruct (Hp c Hc) as [Ht He]. split; [done|]. cbn. lia.
  - by eapply sound_keeps.
Qed.

Lemma uses_stay p p' : rtc used p p' -> stays p p'.
Proof. induction 1 as [|p q r Hu _ IH]; [done|]. etrans; [by apply used_stays|done]. Qed.
Lemma uses_sound p p' : rtc used p p' -> sound p -> sound p'.
Proof. induction 1 as [|p q r Hu _ IH]; [done|]. intros Hp. by apply IH, (used_sound p). Qed.

(** The run from [p0] to [p'] has a call that asked the endpoint and was answered, with
    a success and a body that was read at the time [received], and that gave [t]: the body's
    [access_token], for which it said, or is taken to have said, that it lives for [l]. *)
Inductive answered p0 p' (t : text) (received l : Z) : Prop :=
  | answered_by p1 response p2 body q json p3 :
      rtc used p0 p1 ->
      exchange (token_request (config p0) (endpoint p0)) p1 = Some (Ok response, p2) ->
      is_success (http_status response) = true ->
      read_body (incoming response) p2 = Some (Ok body, q) -> now (world q) = received ->
      from_slice body = Ok json ->
      json_get json (text_of_string "access_token") ≫= as_str = Some t ->
      parse_token_response (display_uri (endpoint p0)) body = Ok (t, l) ->
      current_token p1 = Some (Ok t, p3) -> world p3 = world q -> rtc used p3 p' ->
      answered p0 p' t received l.

(** Where the token that is kept comes from. *)
Definition sourced p0 p : Prop := forall c, cached p = Some c -> exists received l,
  answered p0 p (token c) received l /\ expires_at c = received + l /\ received <= now (world p).

Lemma answered_on p0 p p' t received l : used p p' -> answered p0 p t received l -> answered p0 p' t received l.
Proof.
  intros Hu [p1 response p2 body q json p3 ? ? ? ? ? ? ? ? ? ? Hr].
  apply (answered_by p0 p' t received l p1 response p2 body q json p3); try done. by eapply rtc_r.
Qed.

Lemma parsed_field uri body t l : parse_token_response uri body = Ok (t, l) ->
  exists json, from_slice body = Ok json
    /\ json_get json (text_of_string "access_token") ≫= as_str = Some t.
Proof.
  unfold parse_token_response. destruct (from_slice body) as [json|]; [|done].
  destruct (json_get json _ ≫= as_str) as [[|c cs]|] eqn:E; [done| |done].
  intros [= <- _]. by exists json.
Qed.

Lemma fetch_answered p0 p c q :
  rtc used p0 p -> current_token p = Some (Ok (token c), with_cached c q) -> fetch p = Some (Ok c, q) ->
  exists l, answered p0 (with_cached c q) (token c) (now (world q)) l /\ expires_at c = now (world q) + l.
Proof.
  intros Hu Hcall. destruct (uses_stay _ _ Hu) as [Ec Ee _ _ _].
  unfold fetch, get_state at 1. rewrite Ec, Ee. destruct (build_error _); [done|].
  intros (response & p1 & Hx & (body & p2 & Hb & Hk)%try_inv)%try_inv.
  destruct (is_success (http_status response)) eqn:Es; [|done]. cbn [negb] in Hk.
  apply try_inv in Hk as ([t l] & p3 & [= Hp <-] & [= <- <-]).
  destruct (parsed_field _ _ _ _ Hp) as (json & Hj & Ht). exists l. split; [|done].
  by eapply (answered_by p0 _ t (now (world p2)) l p response p1 body p2 json).
Qed.

(** Whatever leaves the cache leaves its source. *)
Lemma sourced_on p0 p q : used p q -> keeps p q -> sourced p0 p -> sourced p0 q.
Proof.
  intros Hu [Hs Hc] Hp c Hq. rewrite Hc in Hq. destruct (Hp c Hq) as (r & l & Ha & He & Hr).
  exists r, l. split_and!; [by eapply answered_on|done|]. pose proof (st_time _ _ Hs). lia.
Qed.

Lemma used_sourced p0 p p' : rtc used p0 p -> used p p' -> sourced p0 p -> sourced p0 p'.
Proof.
  intros Hu Hstep Hp. destruct Hstep as [r Hcall|w Hw ->|Hst Hk].
  - pose proof (current_token_outcome _ _ _ Hcall) as [c _ _ _ ->|c q _ Hf -> ->|c e _ Hf _ _ _|e _ Hf _].
    + done.
    + intros c' [= <-]. destruct (fetch_answered _ _ _ _ Hu Hcall Hf) as (l & Ha & He).
      exists (now (world q)), l. split_and!; [done..|cbn; lia].
    + apply (sourced_on p0 p); [by eapply used_call|by eapply fetch_keeps|done].
    + apply (sourced_on p0 p); [by eapply used_call|by eapply fetch_keeps|done].
  - apply (sourced_on p0 p); [by eapply used_wait| |done]. split; [|done].
    split; [done|done|done|done|]. exists []. by rewrite app_nil_r.
  - apply (sourced_on p0 p); [by apply used_drop|done|done].
Qed.

Lemma uses_sourced p0 p : cached p0 = None -> rtc used p0 p -> sourced p0 p.
Proof.
  intros Hn Hu. revert Hu. apply (rtc_ind_r (sourced p0)).
  - intros c Hc. congruence.
  - intros q r Hq Hr IH. by eapply used_sourced.
Qed.

(** While a token is fresh, no call asks for another. *)
Lemma fresh_is_kept p p' c :
  rtc used p p' -> cached p = Some c -> now (world p') < refresh_after c ->
  asked p' = asked p /\ cached p' = Some c.
Proof.
  induction 1 as [|p q r Hu Hqr IH]; [done|]. intros Hc Hn.
  assert (Hq : now (world q) <= now (world r)) by apply (st_time _ _ (uses_stay _ _ Hqr)).
  assert (Hp : now (world p) <= now (world q)) by apply (st_time _ _ (used_stays _ _ Hu)).
  assert (Hns : ~ stale p) by (intros Hs; specialize (Hs c Hc); lia).
  assert (asked q = asked p /\ cached q = Some c) as [Ha Hcq].
  { destruct Hu as [r0 Ho%current_token_outcome|w _ ->|Hs _]; [|done|done].
    by destruct Ho as [c' _ _ _ ->|? ? Hs|? ? Hs|? Hs]. }
  rewrite <- Ha. by apply IH.
Qed.

End calls.
End parsing.
End OidcFacts.

(** *** What error answers show *)

Module FailureText.
Import Oidc.

Lemma next_char_nonneg first rest c rest' :
  0 <= first -> Utf8.next_char first rest = (Some c, rest') -> 0 <= c.
Proof.
  unfold Utf8.next_char, Utf8.second_of_three, Utf8.second_of_four, Utf8.is_cont. intros Hf Hn.
  repeat case_match; simplify_eq/=; lia.
Qed.

Lemma chunks_nonneg fuel : forall l,
  Forall (fun b => 0 <= b) l -> Forall (fun c => 0 <= default 65533 c) (Utf8.chunks fuel l).
Proof.
  induction fuel as [|fuel IH]; intros [|first rest] Hl; cbn; try constructor.
  destruct (Utf8.next_char first rest) as [c rest'] eqn:E. inversion_clear Hl as [|? ? Hf Hr]. constructor.
  - destruct c as [c|]; cbn; [by eapply next_char_nonneg|lia].
  - apply IH. unfold Utf8.next_char in E.
    repeat case_match; simplify_eq/=; rewrite ?Forall_cons, ?Forall_nil in *; tauto.
Qed.

Lemma lossy_nonneg b : Forall (fun c => 0 <= c) (Utf8.from_utf8_lossy b).
Proof.
  unfold Utf8.from_utf8_lossy, Utf8.decode. apply Forall_map, chunks_nonneg.
  apply Forall_map, Forall_forall. intros x _. apply b2z_range.
Qed.

Lemma trim_start_forall P s : Forall P s -> Forall P (Str.trim_start s).
Proof. induction 1 as [|c s Hc Hs IH]; cbn; [constructor|]. destruct (Str.is_whitespace c); [done|by constructor]. Qed.
Lemma trim_forall P s : Forall P s -> Forall P (Str.trim s).
Proof. intros Hs. unfold Str.trim. by apply Forall_rev, trim_start_forall, Forall_rev, trim_start_forall. Qed.

Lemma valid_nonneg s : Utf8.valid s -> Forall (fun c => 0 <= c) s.
Proof. intros Hs. apply (Forall_impl _ _ _ Hs). unfold Utf8.is_scalar. intros c Hc. lia. Qed.

Definition tame (s : text) : Prop := (length s <= 200)%nat /\ Forall (fun c => is_control c = false) s.

Lemma bounded_tame s : Forall (fun c => 0 <= c) s -> tame (bounded s).
Proof.
  intros Hs. unfold bounded. split; [rewrite length_take; lia|].
  by apply Forall_take, control_safe_no_control.
Qed.

Lemma failure_tame `{!SerdeJson, !SerdeLaws} body : tame (describe_failure body).
Proof.
  assert (Hplain : tame match Str.trim (Utf8.from_utf8_lossy body) with
                        | [] => text_of_string "with an empty body"
                        | trimmed => bounded trimmed
                        end).
  { pose proof (trim_forall _ _ (lossy_nonneg body)) as Ht.
    destruct (Str.trim _) as [|c cs]; [|by apply bounded_tame]. split; [cbn; lia|]. by repeat constructor. }
  assert (Hfield : forall json name s, json_get json (text_of_string name) ≫= as_str = Some s ->
                     Forall (fun c => 0 <= c) s).
  { intros json name s. destruct (json_get json _) as [v|]; [|done]. cbn. intros Hv. by eapply valid_nonneg, as_str_valid. }
  unfold describe_failure. destruct (from_str _) as [json|]; [|done].
  destruct (json_get json (text_of_string "error") ≫= as_str) as [e|] eqn:Ee;
    destruct (json_get json (text_of_string "error_description") ≫= as_str) as [d|] eqn:Ed; try done;
    apply bounded_tame; repeat first [apply Forall_app; split|by eapply Hfield|by repeat constructor].
Qed.

End FailureText.

(** ** Properties *)

Module OidcProperties.
Import Error Eff Oidc OidcFacts.

Section properties.
Context `{!FormUrlencoded, !Scram.Base64, !Scram.StrDebug, !SerdeJson, !SerdeLaws, !UriParser, !Tls.Rustls}.
Context {W : Type} `{!Http W, !HttpLaws W}.
Implicit Types (p : OidcTokenProvider W).

(** C25: A token that is handed out works. However calls, time and dropped calls follow each
    other on a provider that was built, a call that gives a token gives the [access_token] of a
    body that the endpoint sent, with a success, in answer to the provider's own request in this
    or an earlier of these calls, which gave the same token; it is not empty, and it is given before its lifetime, counted from when that
    body was read and at most a day, is over. *)
Theorem tokens_are_live native config w p0 p t p' :
  new native config w = Ok p0 -> rtc used p0 p -> current_token p = Some (Ok t, p') ->
  exists c received l, cached p' = Some c /\ token c = t /\ t <> []
    /\ answered p0 p' t received l /\ 0 < l <= MAX_LIFETIME /\ expires_at c = received + l
    /\ received <= now (world p') < received + l.
Proof.
  intros Hnew Hu Hc. destruct (built _ _ _ _ Hnew) as (_ & _ & _ & Hno & _).
  assert (Hu' : rtc used p0 p') by (eapply rtc_r; [done|by eapply used_call]).
  pose proof (uses_sourced p0 p' Hno Hu') as Hsrc.
  assert (Hlive : exists c, cached p' = Some c /\ token c = t /\ now (world p') < expires_at c).
  { assert (Hs : sound p) by (apply (uses_sound _ _ Hu); intros c Hc0; congruence).
    apply current_token_outcome in Hc as [c Hk Hn [= ->] ->|c q _ Hf [= ->] ->|c e _ Hf Hk Hn [= ->]|]; [| | |done].
    - exists c. destruct (Hs c Hk) as [_ He]. split_and!; [done..|lia].
    - exists c. destruct (fetch_lives _ _ _ Hf) as (l & _ & Hl & He & _). split_and!; [done..|cbn; lia].
    - pose proof (fetch_keeps _ _ _ Hf) as [_ Ek]. exists c. by rewrite Ek. }
  destruct Hlive as (c & Hk & <- & Hlt). destruct (Hsrc c Hk) as (received & l & Ha & He & Hr).
  exists c, received, l. assert (Ht : token c <> [] /\ 0 < l <= MAX_LIFETIME).
  { destruct Ha as [? ? ? ? ? ? ? _ _ _ _ _ _ _ Hp]. by apply parsed_token in Hp. }
  destruct Ht as [Ht Hl]. split_and!; try done; lia.
Qed.

(** One fetch serves many calls. When a call has fetched a token that lives for
    some time, no call asks the endpoint again for half of that time: each gives the same token
    at once, however many calls there are. *)
Theorem tokens_are_reused p1 t p2 c :
  current_token p1 = Some (Ok t, p2) -> cached p2 = Some c -> cached p1 <> Some c ->
  exists l, 0 < l <= MAX_LIFETIME
    /\ forall p3, rtc used p2 p3 -> now (world p3) < now (world p2) + l / 2 ->
         asked p3 = asked p2 /\ current_token p3 = Some (Ok t, p3).
Proof.
  intros Ho Hc2 Hne.
  apply current_token_outcome in Ho as [c' Hk _ _ ->|c' q _ Hf [= ->] ->|c' e _ Hf _ _ _|]; [done| | |done].
  2:{ apply fetch_keeps in Hf as [_ Hk]. congruence. }
  injection Hc2 as ->. destruct (fetch_lives _ _ _ Hf) as (l & _ & Hl & _ & Hr). exists l. split; [done|].
  intros p3 Hu Hn. cbn in Hn. pose proof (usable_range l (refresh_margin (config p1)) ltac:(lia)) as Hus.
  destruct (fresh_is_kept _ p3 c Hu eq_refl ltac:(lia)) as [Ha Hk]. split; [done|].
  unfold current_token, get_state. rewrite Hk.
  destruct (now (world p3) <? refresh_after c) eqn:E; [done|lia].
Qed.

(** The client secret goes where it may. Every request of a provider goes to the
    endpoint it was configured with, over TLS unless the operator allowed plain HTTP, and has the
    secret either in the form or in the header that names the scheme Basic, not in both. *)
Theorem secret_goes_where_it_may native settings w p0 p r :
  new native settings w = Ok p0 -> rtc used p0 p -> r ∈ asked p ->
  parse_uri (token_endpoint settings) = Ok (uri r)
  /\ (scheme_str (uri r) = Some (text_of_string "https")
      \/ scheme_str (uri r) = Some (text_of_string "http") /\ allow_plaintext_endpoint settings = true)
  /\ plaintext p = allow_plaintext_endpoint settings
  /\ request_body r = form_serialize (form_fields settings)
  /\ (text_of_string "client_secret" ∈ map fst (form_fields settings) <-> credentials_in_body settings = true)
  /\ omap (fun h => if decide (h.1 = "authorization"%string) then Some h.2 else None) (request_headers r)
     = (if credentials_in_body settings then []
        else [text_of_string "Basic "
              ++ Scram.B64_encode (Utf8.as_bytes (basic_credentials (client_id settings) (client_secret settings)))]).
Proof.
  intros Hnew Hu Hr. destruct (uses_stay _ _ Hu) as [Ec Ee Ep _ (l & Ea & Hl)].
  destruct (built native settings w p0 Hnew) as (Hc & Hpl & Hno & _ & Huri & Hscheme).
  rewrite Hno in Ea. cbn in Ea. rewrite Ea in Hr. rewrite Forall_forall in Hl. specialize (Hl r Hr). subst r. cbn.
  rewrite Hc. split_and!; [done|done|by rewrite Ep|done| |].
  - unfold form_fields. destruct (credentials_in_body settings), (scope settings), (audience settings); cbn;
      (split; [|intros; try done]); rewrite ?elem_of_cons, ?elem_of_nil; intros; naive_solver.
  - unfold token_request. by destruct (credentials_in_body settings).
Qed.

(** What a server reads from the header is what was configured: base64 gives back the
    pair, and no other id and secret are written as that pair. *)
Theorem credentials_are_unambiguous `{!FormLaws, !Base64Laws} id secret id' secret' :
  Utf8.valid id -> Utf8.valid secret -> Utf8.valid id' -> Utf8.valid secret' ->
  Scram.B64_decode (Scram.B64_encode (Utf8.as_bytes (basic_credentials id secret)))
    = Ok (Utf8.as_bytes (basic_credentials id' secret')) ->
  id = id' /\ secret = secret'.
Proof.
  intros Hi Hs Hi' Hs'. rewrite b64_round_trip. intros [= E].
  apply TextFacts.as_bytes_inj in E; [|apply basic_valid..]. unfold basic_credentials in E.
  apply (f_equal (Str.split 58)) in E. cbn [app] in E.
  rewrite !TextFacts.split_app in E by apply serialized_plain.
  rewrite !TextFacts.split_plain in E by apply serialized_plain. injection E as E1 E2.
  apply serialized_inj in E1, E2. split; by apply TextFacts.as_bytes_inj.
Qed.

(** What an endpoint says when it refuses is at most two hundred characters in an
    error, and none of them controls a terminal, whatever its body is. *)
Theorem refusals_are_tame body :
  (length (describe_failure body) <= 200)%nat
  /\ Forall (fun c => is_control c = false) (describe_failure body).
Proof. apply FailureText.failure_tame. Qed.

End properties.

(** *** An issuer that answers with an hour's token, and goes away after three quarters of one *)

Import ScramDemo TlsFacts.

#[local] Instance demo_form : FormUrlencoded := {|
  byte_serialize := ScramDemo.encode;
  form_serialize fields := concat (map (fun f => f.1 ++ [61] ++ f.2 ++ [38]) fields) |}.

Lemma demo_encode_letters b : Forall (fun c => 65 <= c <= 80) (ScramDemo.encode b).
Proof.
  unfold ScramDemo.encode, letter. apply Forall_concat, Forall_map, Forall_forall. intros x _.
  pose proof (b2z_range x). repeat constructor; Z.to_euclidean_division_equations; lia.
Qed.

#[local] Instance demo_form_laws : FormLaws.
Proof.
  split.
  - intros b. apply (Forall_impl _ _ _ (demo_encode_letters b)). intros c Hc.
    unfold Str.is_ascii_alphanumeric, Str.is_ascii_alphabetic. lia.
  - intros b b' E. apply (f_equal ScramDemo.decode) in E.
    assert (Hd : forall x, ScramDemo.decode (ScramDemo.encode x) = Ok x)
      by exact (b64_round_trip (H := demo_base64)).
    change (ScramDemo.decode (ScramDemo.encode b) = ScramDemo.decode (ScramDemo.encode b')) in E.
    rewrite !Hd in E. by injection E.
Qed.

Inductive DemoValue : Type := DemoString (s : text) | DemoNumber (n : Z) 
  | DemoToken (token : text) (seconds : Z) | DemoError (error : text).

#[local] Instance demo_serde : SerdeJson := {|
  Value := DemoValue;
  from_slice body := Ok (DemoToken (Utf8.from_utf8_lossy body) 3600);
  from_str s := Some (DemoError s);
  json_get v name :=
    match v with
    | DemoToken t n =>
        if bool_decide (name = text_of_string "access_token") then Some (DemoString t)
        else if bool_decide (name = text_of_string "expires_in") then Some (DemoNumber n) else None
    | DemoError e => if bool_decide (name = text_of_string "error") then Some (DemoString e) else None
    | _ => None
    end;
  as_str v := match v with DemoString s => if forallb Utf8.is_scalar s then Some s else None | _ => None end;
  as_u64 v := match v with DemoNumber n => if (0 <=? n) && (n <=? U64_MAX) then Some n else None | _ => None end |}.

#[local] Instance demo_serde_laws : SerdeLaws.
Proof.
  split; intros v n; destruct v; cbn; try done.
  - destruct (_ && _) eqn:E; intros [= <-]. lia.
  - destruct (forallb _ _) eqn:E; intros [= <-]. apply Forall_forall. intros c Hc.
    by eapply forallb_forall in E; [|by apply list_elem_of_In].
Qed.

#[local] Instance demo_uri : UriParser := {|
  Uri := text; parse_uri := Ok; scheme_str u := head (Str.split 58 u); display_uri u := u |}.

(** The world is its clock; a head and a body take a second each. *)
#[local] Instance demo_http : Http Z := {|
  Body := bytes; now w := w; build_error _ := None;
  http_request _ _ w :=
    (if w <? 2700 * SECONDS then Some (Ok {| http_status := 200; incoming := [z2b 116] |})
     else Some (Err (text_of_string "connection refused")), w + SECONDS);
  collect_limited _ b w := Some (Ok b, w + SECONDS);
  display_status s := Str.display_int s; debug_duration d := Str.display_int d |}.
#[local] Instance demo_http_laws : HttpLaws Z.
Proof. split; [intros r d w; cbn; unfold SECONDS; lia|]. intros n b w r w'. cbn. intros [= _ <-]. unfold SECONDS. lia. Qed.

Definition demo_settings : OidcConfig :=
  new_config (text_of_string "https://idp/token") (text_of_string "cli ent") (text_of_string "a:b").
Definition demo_provider : OidcTokenProvider Z := {|
  config := demo_settings; endpoint := token_endpoint demo_settings; plaintext := false; cached := None; asked := [];
  world := 0 |}.
Lemma demo_built : new [1] demo_settings 0 = Ok demo_provider.
Proof. vm_compute. reflexivity. Qed.

Definition after_call (p : OidcTokenProvider Z) : OidcTokenProvider Z :=
  match current_token p with Some (_, p') => p' | None => p end.
Definition demo_called : OidcTokenProvider Z := after_call demo_provider.

Lemma demo_call : current_token demo_provider = Some (Ok [116], demo_called).
Proof. vm_compute. reflexivity. Qed.

(** Later than the refresh, and than the issuer's end. *)
Definition demo_late : OidcTokenProvider Z := with_world (3000 * SECONDS) demo_called.
Lemma demo_used : rtc used demo_provider demo_late.
Proof.
  eapply rtc_l; [eapply used_call, demo_call|]. eapply rtc_l; [|apply rtc_refl].
  eapply used_wait; [|reflexivity]. vm_compute. discriminate.
Qed.

Lemma tokens_are_live_witness :
  exists p' c, current_token demo_late = Some (Ok [116], p') /\ length (asked p') = 2%nat
    /\ cached p' = Some c /\ now (world p') < expires_at c.
Proof.
  destruct (current_token demo_late) as [[r p']|] eqn:E; [|vm_compute in E; discriminate].
  assert (r = Ok [116] /\ length (asked p') = 2%nat) as [-> Ha]
    by (vm_compute in E; injection E as <- <-; split; reflexivity).
  destruct (tokens_are_live _ demo_settings 0 demo_provider demo_late [116] p' demo_built demo_used E)
    as (c & received & l & Hc & _ & _ & _ & _ & He & _ & Hl).
  exists p', c. rewrite <- He in Hl. exact (conj eq_refl (conj Ha (conj Hc Hl))).
Defined.

Lemma tokens_are_reused_witness :
  exists l, 0 < l <= MAX_LIFETIME
    /\ (now (world (with_world (1000 * SECONDS) demo_called)) < now (world demo_called) + l / 2 ->
        asked (with_world (1000 * SECONDS) demo_called) = asked demo_called).
Proof.
  destruct (tokens_are_reused demo_provider [116] demo_called
              {| token := [116]; refresh_after := 2882 * SECONDS; expires_at := 3602 * SECONDS |} demo_call)
    as (l & Hl & Hall); [vm_compute; reflexivity|discriminate|].
  exists l. split; [exact Hl|]. intros Hn. apply (Hall _); [|exact Hn].
  eapply rtc_l; [|apply rtc_refl]. eapply used_wait; [|reflexivity]. vm_compute. discriminate.
Defined.

Lemma secret_goes_where_it_may_witness :
  exists r, asked demo_called = [r] /\ parse_uri (token_endpoint demo_settings) = Ok (uri r)
    /\ plaintext demo_called = false.
Proof.
  assert (Hu : rtc used demo_provider demo_called) by (eapply rtc_l; [eapply used_call, demo_call|apply rtc_refl]).
  destruct (asked demo_called) as [|r rest] eqn:E; [vm_compute in E; discriminate|].
  assert (rest = []) as -> by (vm_compute in E; by injection E).
  destruct (secret_goes_where_it_may _ demo_settings 0 demo_provider demo_called r demo_built Hu) as (Hp & _ & Hpl & _);
    [rewrite E; left|].
  exists r. exact (conj eq_refl (conj Hp Hpl)).
Defined.

Lemma credentials_are_unambiguous_witness :
  Scram.B64_decode (Scram.B64_encode (Utf8.as_bytes (basic_credentials (text_of_string "a:") (text_of_string "b"))))
    <> Ok (Utf8.as_bytes (basic_credentials (text_of_string "a") (text_of_string ":b"))).
Proof.
  intros E. destruct (credentials_are_unambiguous (text_of_string "a:") (text_of_string "b") (text_of_string "a")
                        (text_of_string ":b")) as [E1 _]; [repeat constructor..|exact E|discriminate].
Defined.

Lemma refusals_are_tame_witness :
  exists body, Forall (fun c => is_control c = false) (describe_failure body) /\ length (describe_failure body) = 7%nat.
Proof.
  exists [z2b 27; z2b 91]. split; [apply refusals_are_tame|vm_compute; reflexivity].
Defined.

(** The deadline of a fetch ends with the head of the answer. *)
Example body_outlives_the_timeout :
  exists c p', fetch (Http0 := {|
      Body := bytes; now w := w; build_error _ := None;
      http_request _ _ w := (Some (Ok {| http_status := 200; incoming := [z2b 116] |}), w);
      collect_limited _ b w := Some (Ok b, w + 3600 * SECONDS);
      display_status s := Str.display_int s; debug_duration d := Str.display_int d |}) demo_provider
    = Some (Ok c, p') /\ timeout (config demo_provider) = 10 * SECONDS /\ world p' = 3600 * SECONDS.
Proof. eexists _, _. split; [vm_compute; reflexivity|]. split; vm_compute; reflexivity. Qed.

End OidcProperties.
