(* ===== verification/Reask.v ===== *)
(** The result per resource of an admin call and the loop that asks again for those
    whose error may pass ([crates/kafka-admin/src/types.rs], [PerItem], and [reask.rs]). *)

From S2P Require Import Prelude Sanitize ErrorCodes ApiKeys Retry Effects.
From Stdlib Require Import QArith.
Open Scope Z_scope.

(** The clock and the random numbers, as a state reads them. *)
Class Pacing (S : Type) : Type := {
  now : S -> Z;
  jitter_sample : S -> Q * S;
  sleep : Z -> S -> S;
}.

Module Reask.
Import Error Eff.

(** [PerItem]: an outcome under the key of each resource. *)
Definition PerItem (K T : Type) : Type := list (K * result T Error).

Definition oks {K T} (items : PerItem K T) : list (K * T) :=
  omap (fun '(key, value) => match value with Ok v => Some (key, v) | Err _ => None end) items.
Definition errs {K T} (items : PerItem K T) : list (K * Error) :=
  omap (fun '(key, value) => match value with Ok _ => None | Err e => Some (key, e) end) items.

(** What the loop should do about one item's error code. *)
Inductive Disposition : Type := Settle | Reask | RefreshOnce.

#[export] Instance Disposition_eq_dec : EqDecision Disposition.
Proof. solve_decision. Defined.

Definition disposition `{!KafkaProtocol} (code : ErrorCode.ErrorCode) (stale_view_allowance_spent : bool) : Disposition :=
  if ErrorCode.retriable_for_named_resource code then Reask
  else if ErrorCode.needs_metadata_refresh code && negb stale_view_allowance_spent then RefreshOnce
  else Settle.

(** Which cache a retriable code makes stale. *)
Inductive Axis : Type :=
  | Metadata
  | Coordinator (kind : Routing.CoordinatorKind) (key : string).

Section reask.
Context {S K T : Type} `{!Pacing S, !KafkaProtocol}.
(** The policy of the cluster, a refresh whose result is dropped, and a coordinator that is
    forgotten. *)
Context (policy : Retry.RetryPolicy).
Context (refresh : M S unit) (invalidate_coordinator : Routing.CoordinatorKind -> string -> S -> S).

(** What a round's outcomes are sorted into. *)
Record Sorted : Type := {
  settled : PerItem K T;
  latest : PerItem K T;
  refresh_metadata : bool;
  refresh_coordinator : bool;
  spending_allowance : bool;
}.

Definition nothing_sorted (settled : PerItem K T) : Sorted := {|
  settled := settled; latest := []; refresh_metadata := false; refresh_coordinator := false;
  spending_allowance := false |}.

Definition code_of (outcome : result T Error) : option ErrorCode.ErrorCode :=
  match outcome with Err error => Error.code_of error | Ok _ => None end.

Definition disposition_of (spent : bool) (outcome : result T Error) : Disposition :=
  match code_of outcome with Some code => disposition code spent | None => Settle end.

(** One outcome of a round. *)
Definition sort_one (spent : bool) (acc : Sorted) (item : K * result T Error) : Sorted :=
  match disposition_of spent item.2 with
  | Settle => {|
      settled := settled acc ++ [item]; latest := latest acc;
      refresh_metadata := refresh_metadata acc; refresh_coordinator := refresh_coordinator acc;
      spending_allowance := spending_allowance acc |}
  | d => {|
      settled := settled acc; latest := latest acc ++ [item];
      refresh_metadata := refresh_metadata acc
        || match code_of item.2 with Some c => ErrorCode.needs_metadata_refresh c | None => false end;
      refresh_coordinator := refresh_coordinator acc
        || match code_of item.2 with Some c => ErrorCode.needs_coordinator_refresh c | None => false end;
      spending_allowance := spending_allowance acc || bool_decide (d = RefreshOnce) |}
  end.

Definition sort (spent : bool) (before : PerItem K T) (outcomes : PerItem K T) : Sorted :=
  foldl (sort_one spent) (nothing_sorted before) outcomes.

(** [policy.delay(attempt)]. *)
Definition draw_delay (attempt : Z) : M S Z :=
  fun s => let '(q, s) := jitter_sample s in Some (Ok (Retry.delay policy q attempt), s).

(** The caches a round showed to be stale are dropped or fetched again. *)
Definition freshen (axis : Axis) (sorted : Sorted) : M S unit :=
  match axis with
  | Metadata => if refresh_metadata sorted then let* _ := refresh in ret (Ok tt) else ret (Ok tt)
  | Coordinator kind key =>
      let! _ :=
        (if refresh_coordinator sorted then put (invalidate_coordinator kind key) else ret (Ok tt)) in
      if refresh_metadata sorted then let* _ := refresh in ret (Ok tt) else ret (Ok tt)
  end.

(** The loop, from an attempt. *)
Fixpoint reask_loop (fuel : nat) (axis : Axis) (round : list K -> M S (PerItem K T)) (budget : Z)
    (before : PerItem K T) (pending : list K) (attempt : Z) (spent : bool) : M S (PerItem K T) :=
  match fuel with
  | O => out_of_fuel
  | Datatypes.S fuel =>
      let! outcomes := round pending in
      let sorted := sort spent before outcomes in
      let spent := spent || spending_allowance sorted in
      match latest sorted with
      | [] => ret (Ok (settled sorted))
      | _ =>
          let! delay := draw_delay (u32_saturating_add attempt 1) in
          get_state (fun s =>
            if budget <=? now s + delay then ret (Ok (settled sorted ++ latest sorted))
            else
              let! _ := freshen axis sorted in
              let! _ := put (sleep delay) in
              reask_loop fuel axis round budget (settled sorted) (map fst (latest sorted))
                (u32_saturating_add attempt 1) spent)
      end
  end.

(** Run [round] over some items, and then over those that came back with a retriable
    error. *)
Definition per_item_retrying (fuel : nat) (axis : Axis) (items : list K)
    (round : list K -> M S (PerItem K T)) : M S (PerItem K T) :=
  get_state (fun s =>
    reask_loop fuel axis round (now s + Retry.coordinator_timeout policy) [] items 1 false).

End reask.

#[global] Arguments Sorted : clear implicits.

End Reask.

(** * Lemmas and properties

    What the loop over the items of an admin call does: it narrows, every item is answered,
    and it ends. *)

Module ReaskFacts.
Import Error Eff Reask.

Section facts.
Context {S K T : Type} `{!Pacing S, !KafkaProtocol}.
Context (policy : Retry.RetryPolicy).
Context (refresh : M S unit) (invalidate_coordinator : Routing.CoordinatorKind -> string -> S -> S).
Implicit Types (outcomes : PerItem K T).

(** The outcomes of a round that are final, and those that are asked for again. *)
Definition final (spent : bool) outcomes : PerItem K T :=
  List.filter (fun item => bool_decide (disposition_of spent item.2 = Settle)) outcomes.
Definition left_over (spent : bool) outcomes : PerItem K T :=
  List.filter (fun item => negb (bool_decide (disposition_of spent item.2 = Settle))) outcomes.
Definition spends (spent : bool) outcomes : bool :=
  existsb (fun item => bool_decide (disposition_of spent item.2 = RefreshOnce)) outcomes.

Lemma sort_spec spent before outcomes :
  settled (sort spent before outcomes) = before ++ final spent outcomes
  /\ latest (sort spent before outcomes) = left_over spent outcomes
  /\ spending_allowance (sort spent before outcomes) = spends spent outcomes.
Proof.
  unfold sort. assert (Hgen : forall acc,
    settled (foldl (sort_one spent) acc outcomes) = settled acc ++ final spent outcomes
    /\ latest (foldl (sort_one spent) acc outcomes) = latest acc ++ left_over spent outcomes
    /\ spending_allowance (foldl (sort_one spent) acc outcomes)
       = spending_allowance acc || spends spent outcomes).
  { induction outcomes as [|item l IH]; intros acc; cbn [foldl final left_over spends List.filter existsb].
    - by rewrite !app_nil_r, orb_false_r.
    - destruct (IH (sort_one spent acc item)) as (-> & -> & ->). unfold sort_one.
      destruct (disposition_of spent item.2); cbn; rewrite <- ?app_assoc, ?orb_assoc, ?orb_false_r; by split_and!. }
  destruct (Hgen (nothing_sorted before)) as (-> & -> & ->). by split_and!.
Qed.

Lemma final_left_over spent outcomes : final spent outcomes ++ left_over spent outcomes ≡ₚ outcomes.
Proof.
  induction outcomes as [|item l IH]; [done|]. cbn. destruct (bool_decide _); cbn.
  - by rewrite IH.
  - by rewrite <- Permutation_middle, IH.
Qed.

(** The rounds of a call: each asks for what the one before it left over. *)
Fixpoint narrowing (spent : bool) (asked : list K) (rounds : list (list K * PerItem K T)) : Prop :=
  match rounds with
  | [] => False
  | (names, outcomes) :: rest =>
      names = asked
      /\ match rest with
         | [] => True
         | _ => narrowing (spent || spends spent outcomes) (map fst (left_over spent outcomes)) rest
         end
  end.

(** What the rounds answered: the final outcomes of each, and what the last one left over. *)
Fixpoint answers (spent : bool) (rounds : list (list K * PerItem K T)) : PerItem K T :=
  match rounds with
  | [] => []
  | (_, outcomes) :: rest =>
      final spent outcomes
      ++ match rest with
         | [] => left_over spent outcomes
         | _ => answers (spent || spends spent outcomes) rest
         end
  end.

(** A round that was made. *)
Definition made (round : list K -> M S (PerItem K T)) (r : list K * PerItem K T) : Prop :=
  exists s1 s2, round r.1 s1 = Some (Ok r.2, s2).

(** What is final without the allowance is final with it. *)
Lemma settles_spent spent (r : result T Error) : disposition_of spent r = Settle -> disposition_of true r = Settle.
Proof.
  unfold disposition_of. destruct (code_of r) as [c|]; [|done]. unfold disposition.
  destruct (ErrorCode.retriable_for_named_resource c); [done|]. by rewrite andb_false_r.
Qed.

(** An outcome that asking again would not change. *)
Definition settles (item : K * result T Error) : Prop := disposition_of true item.2 = Settle.

Lemma final_settles spent outcomes : Forall settles (final spent outcomes).
Proof.
  apply Forall_forall. intros item Hin.
  apply list_elem_of_In, filter_In in Hin as [_ Hin%bool_decide_eq_true]. by eapply settles_spent.
Qed.

(** The call ended in [s'] because the pause drawn last, the one after [n] rounds,
    would not have ended within the budget. *)
Definition used_up (budget attempt : Z) (n : nat) (s' : S) : Prop := exists drawn_in,
  (jitter_sample drawn_in).2 = s'
  /\ budget <= now s' + Retry.delay policy (jitter_sample drawn_in).1 (RetryFacts.attempt_at attempt n).

Lemma reask_loop_narrows fuel axis round budget before pending attempt spent s results s' :
  reask_loop policy refresh invalidate_coordinator fuel axis round budget before pending attempt spent s
    = Some (Ok results, s') ->
  exists rounds, narrowing spent pending rounds /\ Forall (made round) rounds
    /\ results = before ++ answers spent rounds
    /\ (Forall settles (answers spent rounds) \/ used_up budget attempt (length rounds) s').
Proof.
  revert before pending attempt spent s.
  induction fuel as [|fuel IH]; intros before pending attempt spent s; cbn [reask_loop]; [done|].
  intros (outcomes & s1 & Hround & Hk)%try_inv. revert Hk.
  destruct (sort_spec spent before outcomes) as (-> & -> & ->).
  assert (Hmade : made round (pending, outcomes)) by (by exists s, s1).
  pose proof (final_settles spent outcomes) as Hfin.
  destruct (left_over spent outcomes) as [|item more] eqn:El.
  { intros [= <- <-]. exists [(pending, outcomes)]. cbn. rewrite El, app_nil_r.
    split_and!; [done|done|by repeat constructor|done|by left]. }
  intros (delay & s2 & Hd & Hk)%try_inv. unfold get_state in Hk. revert Hk.
  unfold draw_delay in Hd. destruct (jitter_sample s1) as [q sq] eqn:Ej. injection Hd as <- <-.
  destruct (budget <=? _) eqn:Eb.
  - intros [= <- <-]. exists [(pending, outcomes)]. cbn. rewrite El, <- app_assoc.
    split_and!; [done|done|by repeat constructor|done|]. right. exists s1. rewrite Ej.
    split; [done|]. by apply Z.leb_le in Eb.
  - intros ([] & s3 & _ & Hk)%try_inv. apply try_inv in Hk as ([] & s4 & _ & Hk).
    apply IH in Hk as (rounds & Hn & Hm & -> & Hend).
    destruct rounds as [|r rounds]; [done|].
    exists ((pending, outcomes) :: r :: rounds). cbn [narrowing answers].
    rewrite El, <- app_assoc. split_and!; [done|done|by constructor|done|].
    destruct Hend as [Hend|(sd & E & Hend)]; [left; by apply Forall_app|right].
    exists sd. split; [done|]. unfold RetryFacts.attempt_at in *. cbn [length] in *.
    by rewrite (Nat.iter_succ_r (Datatypes.S (length rounds))).
Qed.

(** A round that answers what it was asked, and nothing else. *)
Definition answering (round : list K -> M S (PerItem K T)) : Prop :=
  forall asked s outcomes s', round asked s = Some (Ok outcomes, s') -> map fst outcomes ≡ₚ asked.

Lemma answers_cover round spent asked rounds :
  answering round -> narrowing spent asked rounds -> Forall (made round) rounds ->
  map fst (answers spent rounds) ≡ₚ asked.
Proof.
  intros Ha. revert spent asked. induction rounds as [|[names outcomes] rest IH]; intros spent asked; [done|].
  intros [-> Hrest] [(s1 & s2 & Hround) Hmade]%Forall_cons.
  cbn [fst snd] in Hround. pose proof (Ha _ _ _ _ Hround) as Hasked. cbn [answers].
  assert (Hboth : map fst (final spent outcomes) ++ map fst (left_over spent outcomes) ≡ₚ asked).
  { rewrite <- map_app. by rewrite final_left_over. }
  rewrite map_app. destruct rest as [|r rest]; [done|].
  by rewrite (IH _ _ Hrest Hmade).
Qed.

(** What is asked for again was left over by every earlier round. *)
Lemma narrowing_left round spent asked rounds i j names outcomes names' outcomes' k :
  answering round -> narrowing spent asked rounds -> Forall (made round) rounds ->
  rounds !! i = Some (names, outcomes) -> rounds !! j = Some (names', outcomes') -> (i < j)%nat ->
  k ∈ names' -> exists spent' r, (k, r) ∈ outcomes /\ disposition_of spent' r <> Settle.
Proof.
  intros Ha. revert spent asked i j. induction rounds as [|[n0 o0] rest IH]; intros spent asked i j; [done|].
  intros [-> Hrest] [_ Hmade]%Forall_cons Hi Hj Hij Hk.
  destruct j as [|j]; [lia|]. destruct rest as [|r rest]; [done|]. cbn in Hj.
  destruct i as [|i]; [|apply (IH _ _ i j Hrest Hmade Hi Hj ltac:(lia) Hk)].
  injection Hi as <- <-. exists spent. clear IH Hij.
  assert (Hsub : k ∈ map fst (left_over spent o0)).
  { revert Hrest Hmade Hj Hk. generalize (map fst (left_over spent o0)) as a, (spent || spends spent o0) as sp.
    generalize (r :: rest) as l. clear r rest. intros l. revert j.
    induction l as [|[n1 o1] l IHl]; intros j a sp; [done|].
    intros [-> Hr] [(s1 & s2 & Hround) Hmade]%Forall_cons Hj Hk.
    destruct j as [|j]; [by injection Hj as <- _|]. destruct l as [|r l]; [done|].
    specialize (IHl j _ _ Hr Hmade Hj Hk).
    rewrite <- (Ha _ _ _ _ Hround). apply list_elem_of_fmap in IHl as ((k' & r') & -> & Hin).
    apply list_elem_of_In, filter_In in Hin as [Hin _]. apply list_elem_of_fmap.
    exists (k', r'). split; [done|]. by apply list_elem_of_In. }
  apply list_elem_of_fmap in Hsub as ((k' & r') & -> & Hin). exists r'.
  apply list_elem_of_In, filter_In in Hin as [Hin Hs]. split; [by apply list_elem_of_In|].
  apply negb_true_iff, bool_decide_eq_false in Hs. done.
Qed.

(** What every part of a call keeps, the call keeps: [Q] holds of the items of each round. *)
Lemma reask_loop_moves (R : S -> S -> Prop) `{!Reflexive R, !Transitive R} (Q : list K -> Prop)
    fuel axis round budget before pending attempt spent :
  (forall s, R s (jitter_sample s).2) -> (forall d s, R s (sleep d s)) -> moves R refresh ->
  (forall kind key s, R s (invalidate_coordinator kind key s)) ->
  (forall names, Q names -> moves R (round names)) ->
  (forall names s outcomes s' spent, Q names -> round names s = Some (Ok outcomes, s') ->
     Q (map fst (left_over spent outcomes))) ->
  Q pending ->
  moves R (reask_loop policy refresh invalidate_coordinator fuel axis round budget before pending attempt spent).
Proof.
  intros Hj Hs Hr Hi Hround Hleft. revert before pending attempt spent.
  assert (Hrefresh : forall b : bool, moves R (if b then let* _ := refresh in ret (Ok tt) else ret (Ok tt))).
  { intros []; [|along moves_ret]. along moves_bind; [done|]. intros ?. along moves_ret. }
  assert (Hfreshen : forall sorted : Sorted K T, moves R (freshen refresh invalidate_coordinator axis sorted)).
  { intros sorted. unfold freshen. destruct axis; [apply Hrefresh|].
    along moves_try; [destruct (refresh_coordinator _); [along moves_put; done|along moves_ret]|].
    intros _. apply Hrefresh. }
  assert (Hdraw : forall n, moves R (draw_delay policy n)).
  { intros n s r s'. unfold draw_delay. pose proof (Hj s) as Hjs. destruct (jitter_sample s) as [q s1].
    by intros [= <- <-]. }
  induction fuel as [|fuel IH]; intros before pending attempt spent HQ; cbn [reask_loop]; [apply moves_none|].
  intros s r s'. unfold try_ at 1, bind at 1.
  destruct (round pending s) as [[[outcomes|e] s1]|] eqn:Er; [| |done].
  2: { intros [= <- <-]. by eapply Hround. }
  intros Hk. etrans; [by eapply Hround|]. revert Hk.
  destruct (sort_spec spent before outcomes) as (_ & Hlatest & _).
  pose proof (Hleft _ _ _ _ spent HQ Er) as HQ'. rewrite <- Hlatest in HQ'.
  destruct (latest (sort spent before outcomes)) as [|item more]; [by intros [= <- <-]|].
  match goal with |- ?m s1 = _ -> _ => enough (Hm : moves R m) by apply Hm end.
  along moves_try; [done|]. intros delay. along moves_get. intros s2.
  destruct (_ <=? _); [along moves_ret|]. along moves_try; [done|]. intros _.
  along moves_try; [along moves_put; apply Hs|]. intros _. by apply IH.
Qed.

(** Each outcome of a round is for an item it was asked for, so it asks for no more. *)
Lemma left_over_submseteq round names s outcomes s' spent :
  answering round -> round names s = Some (Ok outcomes, s') -> map fst (left_over spent outcomes) ⊆+ names.
Proof.
  intros Ha Hr. transitivity (map fst outcomes); [|by rewrite (Ha _ _ _ _ Hr)].
  transitivity (map fst (final spent outcomes ++ left_over spent outcomes)).
  - rewrite map_app. by apply submseteq_inserts_l.
  - by rewrite (final_left_over spent outcomes).
Qed.

End facts.

(** *** The loop ends *)

(** Time passes, and a pause lasts at least as long as it was asked to. *)
Class PacingLaws (S : Type) `{!Pacing S} : Prop := {
  jitter_later s : now s <= now (jitter_sample s).2;
  sleep_later d s : now s + d <= now (sleep d s);
}.

Section ends.
Context {S K T : Type} `{!Pacing S, !PacingLaws S, !KafkaProtocol}.
Context (policy : Retry.RetryPolicy).
Context (refresh : M S unit) (invalidate_coordinator : Routing.CoordinatorKind -> string -> S -> S).

Definition later (s s' : S) : Prop := now s <= now s'.

#[export] Instance later_reflexive : Reflexive later.
Proof. intros s. unfold later. lia. Qed.
#[export] Instance later_transitive : Transitive later.
Proof. intros s1 s2 s3. unfold later. lia. Qed.

(** A policy that backs off, and calls in whose course time does not go back. *)
Record timely (round : list K -> M S (PerItem K T)) : Prop := {
  delay_takes : forall s n, 2 <= n -> 1 <= Retry.delay policy (jitter_sample s).1 n;
  round_returns : forall asked, returns later (round asked);
  refresh_returns : returns later refresh;
  forget_later : forall kind key s, later s (invalidate_coordinator kind key s);
}.

Lemma draw_takes round n s : timely round -> 2 <= n ->
  exists d s', draw_delay policy n s = Some (Ok d, s') /\ later s s' /\ 1 <= d.
Proof.
  intros Ht Hn. unfold draw_delay, later. pose proof (jitter_later s) as Hj.
  pose proof (delay_takes _ Ht s n Hn) as Hd.
  destruct (jitter_sample s) as [q s1]. by eexists _, s1.
Qed.

Lemma freshen_returns round axis (sorted : Sorted K T) :
  timely round -> returns later (freshen refresh invalidate_coordinator axis sorted).
Proof.
  intros [_ _ Hr Hf].
  assert (Hrefresh : returns later (if refresh_metadata sorted then let* _ := refresh in ret (Ok tt) else ret (Ok tt))).
  { destruct (refresh_metadata _); [|along returns_ret]. along returns_bind; [done|]. intros r. along returns_ret. }
  unfold freshen. destruct axis as [|kind key]; [done|]. along returns_try; [|done].
  destruct (refresh_coordinator _); [|along returns_ret]. along returns_put. intros s. apply Hf.
Qed.

Lemma rounds_come_back fuel axis round budget before pending attempt spent s :
  timely round -> 1 <= attempt -> Z.max 0 (budget - now s) < Z.of_nat fuel ->
  returns_at later (reask_loop policy refresh invalidate_coordinator fuel axis round budget before pending
                      attempt spent) s.
Proof.
  intros Ht. revert before pending attempt spent s.
  induction fuel as [|fuel IH]; intros before pending attempt spent s Ha Hf; [lia|]. cbn [reask_loop].
  along returns_bind_at; [apply (round_returns _ Ht)|]. intros [outcomes|e] s1 H1; [|along returns_ret].
  destruct (latest _); [along returns_ret|].
  destruct (draw_takes round (u32_saturating_add attempt 1) s1 Ht) as (delay & s2 & Hd & H2 & Hone);
    [unfold u32_saturating_add, U32_MAX; lia|].
  unfold returns_at, try_ at 1, bind at 1. rewrite Hd. unfold get_state.
  destruct (budget <=? now s2 + delay) eqn:Eb; [by eexists _, s2|].
  destruct (freshen_returns round axis (sort spent before outcomes) Ht s2) as ([[]|e] & s3 & Hfr & H3);
    unfold try_ at 1, bind at 1; rewrite Hfr; [|exists (Err e), s3; split; [done|by etrans]].
  unfold try_ at 1, bind at 1, put. pose proof (sleep_later delay s3) as H4. unfold later in *.
  match goal with |- exists r s', reask_loop _ _ _ _ _ _ _ ?b ?p ?a ?sp _ = _ /\ _ =>
    destruct (IH b p a sp (sleep delay s3)) as (r & s5 & Hr & H5) end.
  { unfold u32_saturating_add, U32_MAX. lia. }
  { lia. }
  exists r, s5. split; [done|]. unfold later in H5. lia.
Qed.

End ends.

End ReaskFacts.

(** ** Properties *)

Module ReaskProperties.
Import Error Eff Reask ReaskFacts.

(** C14: What the loop over the items of an admin call does. A call that succeeds made
    a round of all items and then rounds of exactly what each round left over; its
    result is, for each, the outcome of the last round that asked for it. An error
    that asking again might change is only in it when the budget was used up: when the
    pause drawn after the last round, at most the policy's longest, would not have
    ended within it. If every round answers what it was asked (that of creating and
    growing topics, listing and resetting offsets does; that of [delete_topics] and
    [delete_offsets], which reports what the response mentions, may not), every item
    has exactly one outcome, and no item that was answered is asked for again. *)
Theorem every_item_is_answered {S K T : Type} `{!Pacing S, !KafkaProtocol}
    policy refresh forget fuel axis (items : list K) (round : list K -> M S (PerItem K T)) s results s' :
  RetryFacts.wf policy -> (forall s, RetryFacts.drawn policy (jitter_sample s).1) ->
  per_item_retrying policy refresh forget fuel axis items round s = Some (Ok results, s') ->
  exists rounds, narrowing false items rounds /\ Forall (made round) rounds
    /\ results = answers false rounds
    /\ (Forall settles results
        \/ used_up policy (now s + Retry.coordinator_timeout policy) 1 (length rounds) s'
           /\ now s + Retry.coordinator_timeout policy <= now s' + Retry.max_delay policy)
    /\ (answering round ->
         map fst results ≡ₚ items
         /\ forall i j names outcomes names' outcomes' k,
              rounds !! i = Some (names, outcomes) -> rounds !! j = Some (names', outcomes') -> (i < j)%nat ->
              k ∈ names' -> exists spent r, (k, r) ∈ outcomes /\ disposition_of spent r <> Settle).
Proof.
  intros Hwf Hdrawn Hr. unfold per_item_retrying, get_state in Hr.
  apply reask_loop_narrows in Hr as (rounds & Hn & Hm & -> & Hend).
  exists rounds. split_and!; [done|done|done| |].
  - destruct Hend as [|Hused]; [by left|right]. split; [done|]. destruct Hused as (sd & <- & Hle).
    pose proof (RetryFacts.delay_bounds policy _ (RetryFacts.attempt_at 1 (length rounds)) Hwf (Hdrawn sd)). lia.
  - intros Ha. split; [by eapply answers_cover|]. intros. by eapply narrowing_left.
Qed.

(** The loop ends. With a policy that waits between rounds, rounds that come back
    and a clock that goes on, a call returns; fuel for the ticks of the budget is enough. *)
Theorem reask_comes_back {S K T : Type} `{!Pacing S, !PacingLaws S, !KafkaProtocol}
    policy refresh forget fuel axis (items : list K) (round : list K -> M S (PerItem K T)) s :
  timely policy refresh forget round ->
  Z.max 0 (Retry.coordinator_timeout policy) < Z.of_nat fuel ->
  exists r s', per_item_retrying policy refresh forget fuel axis items round s = Some (r, s')
    /\ now s <= now s'.
Proof.
  intros Ht Hf. unfold per_item_retrying, get_state. apply (rounds_come_back _ _ _ _ _ round); [done..|lia].
Qed.

(** *** Three topics and a clock *)

#[local] Instance demo_codes : KafkaProtocol := {|
  try_from_code c := None;
  is_retriable _ := false |}.

(** The time, and what each round asked for. *)
Record Demo : Type := { time : Z; asked : list (list string) }.

#[local] Instance demo_pacing : Pacing Demo := {|
  now := time;
  jitter_sample s := (0%Q, s);
  sleep d s := {| time := time s + d; asked := asked s |} |}.

#[local] Instance demo_pacing_laws : PacingLaws Demo.
Proof. split; intros; cbn; lia. Qed.

Definition demo_log (names : list string) (s : Demo) : Demo :=
  {| time := time s + 1; asked := asked s ++ [names] |}.

(** The first round leaves "b" over; the second answers it. *)
Definition demo_round (names : list string) : M Demo (PerItem string unit) :=
  get_state (fun s =>
    let! _ := put (demo_log names) in
    ret (Ok (map (fun n =>
      (n, if bool_decide (n = "b" /\ asked s = [])%string
          then Err (from_code ErrorCode.LeaderNotAvailable None) else Ok tt)) names))).

Definition demo_call (round : list string -> M Demo (PerItem string unit)) :=
  per_item_retrying Retry.default_policy (ret (Ok tt)) (fun _ _ s => s) 5 Metadata ["a"; "b"; "c"]%string round
    {| time := 0; asked := [] |}.

Lemma demo_answering : answering demo_round.
Proof.
  intros names s outcomes s'. unfold demo_round, get_state, try_, bind, put, ret. intros [= <- <-].
  rewrite map_map. cbn. by rewrite map_id.
Qed.

Lemma demo_policy_draws : RetryFacts.wf Retry.default_policy
  /\ forall s : Demo, RetryFacts.drawn Retry.default_policy (jitter_sample s).1.
Proof. split; [split_and!; by vm_compute|]. intros s. split; by vm_compute. Qed.

Lemma every_item_is_answered_witness :
  exists results s', demo_call demo_round = Some (Ok results, s')
    /\ map fst results ≡ₚ ["a"; "b"; "c"]%string /\ asked s' = [["a"; "b"; "c"]; ["b"]]%string.
Proof.
  destruct (demo_call demo_round) as [[[results|e] s']|] eqn:E; [|vm_compute in E; discriminate..].
  exists results, s'. split; [done|].
  destruct (every_item_is_answered _ _ _ 5 _ _ _ _ _ _ (proj1 demo_policy_draws) (proj2 demo_policy_draws) E)
    as (rounds & _ & _ & _ & _ & Hall).
  split; [exact (proj1 (Hall demo_answering))|].
  vm_compute in E. by injection E as <- <-.
Defined.

Lemma demo_timely : timely Retry.default_policy (ret (Ok tt)) (fun _ _ s => s) demo_round.
Proof.
  split.
  - intros s n. apply RetryFacts.default_delay_takes.
  - intros names s. unfold demo_round, get_state, try_, bind, put, returns_at, ret. eexists _, _.
    split; [done|]. unfold later. cbn. lia.
  - along returns_ret.
  - intros kind key s. unfold later. lia.
Qed.

Lemma reask_comes_back_witness :
  exists r s', per_item_retrying Retry.default_policy (ret (Ok tt)) (fun _ _ s => s) (Z.to_nat 30000000001)
    Metadata ["a"; "b"]%string demo_round {| time := 0; asked := [] |} = Some (r, s') /\ 0 <= time s'.
Proof.
  apply (reask_comes_back _ _ _ _ _ _ _ {| time := 0; asked := [] |} demo_timely).
  rewrite Z2Nat.id by done. done.
Defined.

(** A later round that fails as a whole takes the earlier answers with it: the caller is
    told of an error, and not that "a" and "c" were done. *)
Example late_failure_forgets_successes :
  (fst <$> demo_call (fun names =>
     if bool_decide (names = ["b"]%string) then ret (Err (ConnectionClosed "broker:9092"))
     else demo_round names))
  = Some (Err (ConnectionClosed "broker:9092")).
Proof. vm_compute. reflexivity. Qed.

End ReaskProperties.
