(* ===== verification/Partition.v ===== *)
(** Choosing a partition ([crates/kafka-produce/src/partition.rs]): murmur2 over
    a record's key, a sticky choice per topic without one.

    [murmur2] follows the Rust code on unsigned 32-bit words; [java_murmur2] is
    Java's [Utils.murmur2], the reference it must agree with, on signed 32-bit
    integers with an index loop and a fall-through [switch]. *)

From S2P Require Import Prelude.

Module Partition.

Definition M : Z := 0x5bd1e995.
Definition R : Z := 24.
Definition SEED : Z := 0x9747b28c.

(** [u32::from_le_bytes] of a four-byte chunk. *)
Definition from_le_bytes (b0 b1 b2 b3 : Byte.byte) : Z :=
  b2z b0 + b2z b1 * 2 ^ 8 + b2z b2 * 2 ^ 16 + b2z b3 * 2 ^ 24.

(** The body of the chunk loop. *)
Definition mix (h k : Z) : Z :=
  let k := u32_wrapping_mul k M in
  let k := Z.lxor k (Z.shiftr k R) in
  let k := u32_wrapping_mul k M in
  let h := u32_wrapping_mul h M in
  Z.lxor h k.

(** [data.chunks_exact(4)] folded through [mix], and its remainder. *)
Fixpoint mix_chunks (h : Z) (data : bytes) : Z * bytes :=
  match data with
  | b0 :: b1 :: b2 :: b3 :: rest => mix_chunks (mix h (from_le_bytes b0 b1 b2 b3)) rest
  | tail => (h, tail)
  end.

(** The three tail steps: [tail.get(2)], [tail.get(1)], [tail.first()]. *)
Definition mix_tail (h : Z) (tail : bytes) : Z :=
  let h := match tail !! 2%nat with
           | Some byte => Z.lxor h (Z.shiftl (b2z byte) 16)
           | None => h
           end in
  let h := match tail !! 1%nat with
           | Some byte => Z.lxor h (Z.shiftl (b2z byte) 8)
           | None => h
           end in
  match tail !! 0%nat with
  | Some byte => u32_wrapping_mul (Z.lxor h (b2z byte)) M
  | None => h
  end.

Definition finish (h : Z) : Z :=
  let h := Z.lxor h (Z.shiftr h 13) in
  let h := u32_wrapping_mul h M in
  Z.lxor h (Z.shiftr h 15).

(** The hash as the unsigned word the code computes. *)
Definition murmur2_word (data : bytes) : Z :=
  let length := try_from_or U32_MAX U32_MAX (Z.of_nat (length data)) in
  let h := Z.lxor SEED length in
  let '(h, tail) := mix_chunks h data in
  finish (mix_tail h tail).

(** [i32::from_ne_bytes(h.to_ne_bytes())]. *)
Definition murmur2 (data : bytes) : Z := i32_wrap (murmur2_word data).

(** The partition a keyed record belongs to. *)
Definition partition_for_key (key : bytes) (partition_count : Z) : Z :=
  let positive := Z.land (u32_wrap (murmur2 key)) 0x7fffffff in
  let count := Z.max (if 0 <=? partition_count then partition_count else 1) 1 in
  try_from_or I32_MAX 0 (positive mod count).

(** The partition each topic is stuck to. *)
Record Partitioner : Type := { sticky : gmap string Z }.

Definition new : Partitioner := {| sticky := ∅ |}.

(** [drawn] is what [rand::rng().random_range(0..partition_count)] returned,
    used when the topic has no entry. *)
Definition sticky_for (self : Partitioner) (topic : string) (partition_count drawn : Z)
    : Z * Partitioner :=
  let chosen := default drawn (sticky self !! topic) in
  let chosen :=
    if partition_count <=? chosen
    then Z.max (i32_saturating_sub partition_count 1) 0
    else chosen in
  (chosen, {| sticky := <[topic := chosen]> (sticky self) |}).

(** The partition for a record, or [None] when the topic has none. *)
Definition assign (self : Partitioner) (topic : string) (key : option bytes)
    (partition_count drawn : Z) : option Z * Partitioner :=
  if partition_count <=? 0 then (None, self)
  else match key with
       | Some key => (Some (partition_for_key key partition_count), self)
       | None =>
           let '(chosen, self) := sticky_for self topic partition_count drawn in
           (Some chosen, self)
       end.

(** Release the topic's stuck partition. *)
Definition rotate (self : Partitioner) (topic : string) : Partitioner :=
  {| sticky := delete topic (sticky self) |}.

End Partition.

(** ** Java's murmur2

    [int] is signed and wraps; [>>>] shifts the bit pattern. *)

Module Java.

Definition imul (a b : Z) : Z := i32_wrap (a * b).
Definition ixor (a b : Z) : Z := i32_wrap (Z.lxor a b).
Definition ishl (a n : Z) : Z := i32_wrap (Z.shiftl a n).
(** [a >>> n]. *)
Definition iushr (a n : Z) : Z := i32_wrap (Z.shiftr (u32_wrap a) n).
(** [data[i] & 0xff]; the index is in range wherever the code reads. *)
Definition at_ (data : bytes) (i : nat) : Z := default 0 (b2z <$> data !! i).

Definition m : Z := 0x5bd1e995.
Definition r : Z := 24.
Definition seed : Z := i32_wrap 0x9747b28c.

(** [for (int i = 0; i < length4; i++)], from [i4 = 4 * i]. *)
Fixpoint java_loop (n : nat) (i4 : nat) (data : bytes) (h : Z) : Z :=
  match n with
  | O => h
  | S n =>
      let k := i32_wrap (at_ data i4 + ishl (at_ data (i4 + 1)) 8
                         + ishl (at_ data (i4 + 2)) 16 + ishl (at_ data (i4 + 3)) 24) in
      let k := imul k m in
      let k := ixor k (iushr k r) in
      let k := imul k m in
      let h := imul h m in
      java_loop n (i4 + 4) data (ixor h k)
  end.

Definition java_murmur2 (data : bytes) : Z :=
  let n := length data in
  let length4 := (n / 4)%nat in
  let h := java_loop length4 0 data (ixor seed (Z.of_nat n)) in
  let base := (length4 * 4)%nat in
  let h := match (n mod 4)%nat with
           | 3%nat =>
               let h := ixor h (ishl (at_ data (base + 2)) 16) in
               let h := ixor h (ishl (at_ data (base + 1)) 8) in
               imul (ixor h (at_ data base)) m
           | 2%nat =>
               let h := ixor h (ishl (at_ data (base + 1)) 8) in
               imul (ixor h (at_ data base)) m
           | 1%nat => imul (ixor h (at_ data base)) m
           | _ => h
           end in
  let h := ixor h (iushr h 13) in
  let h := imul h m in
  ixor h (iushr h 15).

End Java.

(** ** Words *)

Module PartitionFacts.
Import Partition Java.

Lemma u32_wrap_land z : u32_wrap z = Z.land z (Z.ones 32).
Proof. unfold u32_wrap. by rewrite Z.land_ones by lia. Qed.

Lemma u32_wrap_small z : in_u32 z -> u32_wrap z = z.
Proof. unfold in_u32, u32_wrap, U32_MAX. intros H. rewrite Z.mod_small; lia. Qed.

Lemma u32_wrap_lxor a b : u32_wrap (Z.lxor a b) = Z.lxor (u32_wrap a) (u32_wrap b).
Proof.
  rewrite !u32_wrap_land. apply Z.bits_inj. intros i.
  rewrite ?Z.lxor_spec, ?Z.land_spec, ?Z.lxor_spec.
  destruct (Z.testbit (Z.ones 32) i), (Z.testbit a i), (Z.testbit b i); reflexivity.
Qed.

Lemma lxor_u32 a b : in_u32 a -> in_u32 b -> in_u32 (Z.lxor a b).
Proof.
  intros Ha Hb. rewrite <- (u32_wrap_small a Ha), <- (u32_wrap_small b Hb), <- u32_wrap_lxor.
  apply u32_wrap_range.
Qed.

Lemma shiftr_u32 a n : 0 <= n -> in_u32 a -> in_u32 (Z.shiftr a n).
Proof.
  unfold in_u32. intros Hn [H0 H1]. rewrite Z.shiftr_div_pow2 by done.
  split; [apply Z.div_pos; lia|].
  assert (a / 2 ^ n <= a) by (apply Z.div_le_upper_bound; nia). lia.
Qed.

Lemma mul_u32 a b : in_u32 (u32_wrapping_mul a b).
Proof. apply u32_wrap_range. Qed.

Lemma byte_u32 b : in_u32 (b2z b).
Proof. unfold in_u32, U32_MAX. pose proof (b2z_range b). lia. Qed.

Lemma shl_byte_u32 b n : 0 <= n <= 24 -> in_u32 (Z.shiftl (b2z b) n).
Proof.
  intros Hn. unfold in_u32, U32_MAX. rewrite Z.shiftl_mul_pow2 by lia.
  pose proof (b2z_range b).
  assert (0 < 2 ^ n <= 2 ^ 24) by (split; [lia|apply Z.pow_le_mono_r; lia]). nia.
Qed.

Lemma from_le_bytes_u32 b0 b1 b2 b3 : in_u32 (from_le_bytes b0 b1 b2 b3).
Proof.
  unfold from_le_bytes, in_u32, U32_MAX.
  pose proof (b2z_range b0). pose proof (b2z_range b1).
  pose proof (b2z_range b2). pose proof (b2z_range b3). lia.
Qed.

#[export] Hint Resolve lxor_u32 shiftr_u32 mul_u32 byte_u32 shl_byte_u32 from_le_bytes_u32 : kaas.

(** Java's operations on the signed reading of a word agree with the unsigned
    operations on the word. *)

Lemma imul_word a b : imul (i32_wrap a) b = i32_wrap (u32_wrapping_mul a b).
Proof.
  unfold imul, u32_wrapping_mul. apply i32_wrap_cong.
  unfold u32_wrap at 3. unfold u32_wrap at 2.
  rewrite Zmod_mod. unfold u32_wrap.
  rewrite <- Zmult_mod_idemp_l. change (i32_wrap a mod 2 ^ 32) with (u32_wrap (i32_wrap a)).
  rewrite u32_of_i32_wrap. unfold u32_wrap. by rewrite Zmult_mod_idemp_l.
Qed.

Lemma ixor_word a b : ixor (i32_wrap a) (i32_wrap b) = i32_wrap (Z.lxor a b).
Proof.
  unfold ixor. apply i32_wrap_cong. by rewrite !u32_wrap_lxor, !u32_of_i32_wrap.
Qed.

Lemma iushr_word a n : in_u32 a -> iushr (i32_wrap a) n = i32_wrap (Z.shiftr a n).
Proof. intros Ha. unfold iushr. by rewrite u32_of_i32_wrap, u32_wrap_small. Qed.

Lemma byte_word b : b2z b = i32_wrap (b2z b).
Proof. symmetry. apply i32_wrap_small. unfold in_i32, I32_MIN, I32_MAX. pose proof (b2z_range b). lia. Qed.

Lemma load_word b0 b1 b2 b3 :
  i32_wrap (b2z b0 + ishl (b2z b1) 8 + ishl (b2z b2) 16 + ishl (b2z b3) 24)
  = i32_wrap (from_le_bytes b0 b1 b2 b3).
Proof.
  unfold ishl, from_le_bytes. rewrite !Z.shiftl_mul_pow2 by lia.
  pose proof (b2z_range b1). pose proof (b2z_range b2).
  rewrite (i32_wrap_small (b2z b1 * 2 ^ 8)), (i32_wrap_small (b2z b2 * 2 ^ 16))
    by (unfold in_i32, I32_MIN, I32_MAX; lia).
  rewrite Z.add_comm, i32_wrap_add_l. f_equal. lia.
Qed.

Lemma mix_u32 h k : in_u32 (mix h k).
Proof. unfold mix. auto 6 with kaas. Qed.

Lemma java_mix h k :
  in_u32 h -> in_u32 k ->
  ixor (imul (i32_wrap h) m)
       (imul (ixor (imul (i32_wrap k) m) (iushr (imul (i32_wrap k) m) r)) m)
  = i32_wrap (mix h k).
Proof.
  intros Hh Hk. unfold mix. change m with M. change r with R.
  rewrite !imul_word, iushr_word, ixor_word, imul_word, ixor_word by auto with kaas. done.
Qed.

(** Induction over a byte string four bytes at a time. *)
Lemma chunk4_ind (P : bytes -> Prop) :
  (forall l, (length l < 4)%nat -> P l) ->
  (forall b0 b1 b2 b3 l, P l -> P (b0 :: b1 :: b2 :: b3 :: l)) ->
  forall l, P l.
Proof.
  intros Hs Hc l.
  remember (length l) as n eqn:En. revert l En.
  induction n as [n IH] using lt_wf_ind. intros l ->.
  destruct l as [|b0 [|b1 [|b2 [|b3 l]]]]; try (apply Hs; simpl; lia).
  apply Hc. eapply IH; [|reflexivity]. simpl. lia.
Qed.

Lemma mix_chunks_short h l : (length l < 4)%nat -> mix_chunks h l = (h, l).
Proof. intros Hl. destruct l as [|? [|? [|? [|? ?]]]]; simpl in *; first [done|lia]. Qed.

Lemma mix_chunks_u32 l : forall h, in_u32 h -> in_u32 (mix_chunks h l).1.
Proof.
  induction l as [l Hl|b0 b1 b2 b3 l IH] using chunk4_ind; intros h Hh.
  - by rewrite mix_chunks_short.
  - simpl. apply IH, mix_u32.
Qed.

Lemma mix_chunks_rest l : forall h, (mix_chunks h l).2 = drop (length l / 4 * 4) l.
Proof.
  induction l as [l Hl|b0 b1 b2 b3 l IH] using chunk4_ind; intros h.
  - rewrite mix_chunks_short by done. rewrite Nat.div_small by done. done.
  - simpl mix_chunks. rewrite IH. simpl length.
    replace (S (S (S (S (length l)))))%nat with (length l + 1 * 4)%nat by lia.
    rewrite Nat.div_add by lia. rewrite Nat.mul_add_distr_r.
    rewrite (Nat.add_comm _ (1 * 4)). done.
Qed.

Lemma at_app (pre l : bytes) i : at_ (pre ++ l) (length pre + i) = at_ l i.
Proof. unfold at_. by rewrite lookup_app_r, Nat.add_comm, Nat.add_sub by lia. Qed.

Lemma load_at pre l b0 b1 b2 b3 :
  let data := pre ++ b0 :: b1 :: b2 :: b3 :: l in
  let i4 := length pre in
  i32_wrap (at_ data i4 + ishl (at_ data (i4 + 1)) 8
            + ishl (at_ data (i4 + 2)) 16 + ishl (at_ data (i4 + 3)) 24)
  = i32_wrap (from_le_bytes b0 b1 b2 b3).
Proof.
  intros data i4. subst data i4. rewrite !at_app.
  rewrite <- (Nat.add_0_r (length pre)), at_app. apply load_word.
Qed.

Lemma java_loop_chunks l : forall pre h,
  in_u32 h ->
  java_loop (length l / 4) (length pre) (pre ++ l) (i32_wrap h)
  = i32_wrap (mix_chunks h l).1.
Proof.
  induction l as [l Hl|b0 b1 b2 b3 l IH] using chunk4_ind; intros pre h Hh.
  - rewrite mix_chunks_short, Nat.div_small by done. done.
  - simpl length.
    replace (S (S (S (S (length l)))))%nat with (length l + 1 * 4)%nat by lia.
    rewrite Nat.div_add by lia. rewrite Nat.add_comm. cbn [java_loop Nat.add].
    rewrite load_at, java_mix by auto with kaas. cbn [mix_chunks].
    specialize (IH (pre ++ [b0; b1; b2; b3]) (mix h (from_le_bytes b0 b1 b2 b3)) (mix_u32 _ _)).
    rewrite length_app, <- app_assoc in IH. simpl in IH. exact IH.
Qed.

Lemma java_finish h :
  in_u32 h ->
  ixor (imul (ixor (i32_wrap h) (iushr (i32_wrap h) 13)) m)
       (iushr (imul (ixor (i32_wrap h) (iushr (i32_wrap h) 13)) m) 15)
  = i32_wrap (finish h).
Proof.
  intros Hh. unfold finish. change m with M.
  rewrite (iushr_word h), ixor_word, imul_word, iushr_word, ixor_word by auto with kaas. done.
Qed.

Lemma xor_byte h b n :
  0 <= n <= 16 -> ixor (i32_wrap h) (ishl (b2z b) n) = i32_wrap (Z.lxor h (Z.shiftl (b2z b) n)).
Proof. intros Hn. unfold ishl. apply ixor_word. Qed.

Lemma xor_byte0 h b : ixor (i32_wrap h) (b2z b) = i32_wrap (Z.lxor h (b2z b)).
Proof. rewrite byte_word at 1. apply ixor_word. Qed.

Lemma mix_tail_u32 h tail : in_u32 h -> in_u32 (mix_tail h tail).
Proof.
  intros Hh. unfold mix_tail.
  repeat case_match;
    repeat first [assumption | apply mul_u32 | apply lxor_u32 | apply byte_u32
                 | apply shl_byte_u32; lia].
Qed.

(** The fall-through [switch] on the tail, read at any position. *)
Lemma java_tail (pre tail : bytes) h :
  (length tail < 4)%nat ->
  match length tail with
  | 3%nat =>
      imul (ixor (ixor (ixor (i32_wrap h) (ishl (at_ (pre ++ tail) (length pre + 2)) 16))
                       (ishl (at_ (pre ++ tail) (length pre + 1)) 8))
                 (at_ (pre ++ tail) (length pre + 0))) m
  | 2%nat =>
      imul (ixor (ixor (i32_wrap h) (ishl (at_ (pre ++ tail) (length pre + 1)) 8))
                 (at_ (pre ++ tail) (length pre + 0))) m
  | 1%nat => imul (ixor (i32_wrap h) (at_ (pre ++ tail) (length pre + 0))) m
  | _ => i32_wrap h
  end = i32_wrap (mix_tail h tail).
Proof.
  intros Ht. rewrite !at_app. unfold mix_tail. change m with M.
  destruct tail as [|b0 [|b1 [|b2 [|? ?]]]]; simpl in *; [done| | |  |lia];
    unfold at_; simpl; rewrite ?xor_byte, ?xor_byte0, ?imul_word by lia; done.
Qed.

(** The hash of a key of any length Java can hold. *)
Lemma murmur2_java data :
  Z.of_nat (length data) <= U32_MAX -> murmur2 data = java_murmur2 data.
Proof.
  intros Hlen. unfold murmur2, murmur2_word, java_murmur2, try_from_or.
  rewrite (proj2 (Z.leb_le _ _) Hlen).
  set (h0 := Z.lxor SEED (Z.of_nat (length data))).
  assert (Hh0 : in_u32 h0).
  { apply lxor_u32; [unfold in_u32, SEED, U32_MAX; lia|unfold in_u32; lia]. }
  replace (ixor seed (Z.of_nat (length data))) with (i32_wrap h0).
  2:{ unfold seed, ixor, h0. apply i32_wrap_cong. by rewrite !u32_wrap_lxor, u32_of_i32_wrap. }
  pose proof (java_loop_chunks data [] h0 Hh0) as Hloop. cbn [app length] in Hloop.
  rewrite Hloop.
  pose proof (mix_chunks_u32 data h0 Hh0) as Hu.
  pose proof (mix_chunks_rest data h0) as Hrest.
  destruct (mix_chunks h0 data) as [h tail]. cbn [fst snd] in *.
  set (base := (length data / 4 * 4)%nat) in *.
  assert (Hbase : (base <= length data)%nat).
  { subst base. pose proof (Nat.div_mod_eq (length data) 4). lia. }
  assert (Hmod : (length data mod 4)%nat = length tail).
  { rewrite Hrest, length_drop. subst base. pose proof (Nat.div_mod_eq (length data) 4). lia. }
  assert (Ht : (length tail < 4)%nat).
  { rewrite <- Hmod. apply Nat.mod_upper_bound. lia. }
  assert (Hpre : length (take base data) = base) by (rewrite length_take; lia).
  pose proof (java_tail (take base data) tail h Ht) as Htail.
  rewrite Hpre, Hrest, take_drop, Nat.add_0_r in Htail. rewrite <- Hrest in Htail.
  rewrite Hmod.
  match type of Htail with ?lhs = _ => match goal with |- _ = ?rhs =>
    match rhs with context [imul (ixor ?x (iushr ?x 13)) _] => replace x with lhs end end end.
  - rewrite Htail. symmetry. apply java_finish. by apply mix_tail_u32.
  - by destruct (length tail) as [|[|[|[|n]]]].
Qed.

Lemma mask_word z : Z.land (u32_wrap z) 0x7fffffff = Z.land z 0x7fffffff.
Proof. rewrite u32_wrap_land, <- Z.land_assoc. done. Qed.

Lemma mask_range z : 0 <= Z.land z 0x7fffffff <= I32_MAX.
Proof.
  change 0x7fffffff with (Z.ones 31). rewrite Z.land_ones by lia. unfold I32_MAX.
  pose proof (Z.mod_pos_bound z (2 ^ 31)). lia.
Qed.

Lemma partition_for_key_eq key n :
  0 < n <= I32_MAX -> partition_for_key key n = Z.land (murmur2 key) 0x7fffffff mod n.
Proof.
  intros Hn. unfold partition_for_key. rewrite mask_word.
  rewrite (proj2 (Z.leb_le 0 n)), Z.max_l by lia.
  pose proof (Z.mod_pos_bound (Z.land (murmur2 key) 0x7fffffff) n ltac:(lia)).
  unfold try_from_or. rewrite (proj2 (Z.leb_le _ _)); [done|lia].
Qed.

Lemma partition_for_key_range key n :
  0 < n <= I32_MAX -> 0 <= partition_for_key key n < n.
Proof. intros Hn. rewrite partition_for_key_eq by done. apply Z.mod_pos_bound. lia. Qed.

Lemma sticky_for_chosen self topic n drawn :
  0 < n <= I32_MAX -> (forall c, sticky self !! topic = Some c -> 0 <= c) -> 0 <= drawn < n ->
  0 <= (sticky_for self topic n drawn).1 < n.
Proof.
  intros Hn Hs Hd. unfold sticky_for, i32_saturating_sub, clamp, I32_MIN, I32_MAX in *. simpl.
  destruct (sticky self !! topic) as [c|]; simpl.
  - specialize (Hs c eq_refl). destruct (n <=? c) eqn:?; lia.
  - destruct (n <=? drawn) eqn:?; lia.
Qed.

(** Every stuck partition is a partition index. *)
Definition wf (self : Partitioner) : Prop := map_Forall (fun _ c => 0 <= c) (sticky self).

Lemma assign_wf self topic key n drawn :
  wf self -> n <= I32_MAX -> 0 <= drawn < Z.max 1 n -> wf (assign self topic key n drawn).2.
Proof.
  intros Hwf Hn Hd. unfold assign. destruct (n <=? 0) eqn:?; [done|].
  destruct key as [key|]; [done|].
  pose proof (sticky_for_chosen self topic n drawn ltac:(lia) (Hwf topic) ltac:(lia)) as Hc.
  unfold wf, sticky_for in *. simpl in *. apply map_Forall_insert_2; [lia|done].
Qed.

Lemma assign_unkeyed self topic n drawn :
  0 < n ->
  assign self topic None n drawn
  = (Some (sticky_for self topic n drawn).1, (sticky_for self topic n drawn).2).
Proof.
  intros Hn. unfold assign. rewrite (proj2 (Z.leb_gt n 0)) by done.
  by destruct (sticky_for self topic n drawn).
Qed.

Lemma assign_keyed self topic key n drawn :
  0 < n -> assign self topic (Some key) n drawn = (Some (partition_for_key key n), self).
Proof. intros Hn. unfold assign. by rewrite (proj2 (Z.leb_gt n 0)). Qed.

Lemma assign_other self topic other key n drawn :
  topic <> other -> sticky (assign self other key n drawn).2 !! topic = sticky self !! topic.
Proof.
  intros Hne. unfold assign. destruct (n <=? 0), key; simpl; [done..|].
  by rewrite lookup_insert_ne.
Qed.

Lemma assign_stuck self topic n drawn p :
  0 < n -> sticky self !! topic = Some p -> p < n ->
  (assign self topic None n drawn).1 = Some p.
Proof.
  intros Hn Hp Hlt. rewrite assign_unkeyed by done. unfold sticky_for. rewrite Hp. simpl.
  by rewrite (proj2 (Z.leb_gt n p)).
Qed.

Lemma rotate_wf self topic : wf self -> wf (rotate self topic).
Proof. intros Hwf. unfold wf, rotate. simpl. by apply map_Forall_delete. Qed.

End PartitionFacts.

(** ** Properties *)

Module PartitionProperties.
Import Partition Java PartitionFacts.

(** C40: The hash is Java's: for every key whose length fits 32 bits the word-level
    [murmur2] equals Java's signed, index-looped, fall-through original, and the
    partition of a key is [toPositive(murmur2(key)) % numPartitions] of it. *)
Theorem murmur2_is_java (key : bytes) (n : Z) :
  Z.of_nat (length key) <= U32_MAX -> 0 < n <= I32_MAX ->
  murmur2 key = java_murmur2 key
  /\ partition_for_key key n = Z.land (java_murmur2 key) 0x7fffffff mod n
  /\ in_i32 (murmur2 key).
Proof.
  intros Hlen Hn. rewrite partition_for_key_eq, murmur2_java by done.
  split_and!; [done|done|]. rewrite <- murmur2_java by done. apply i32_wrap_range.
Qed.

(** Kafka's own test vector for ["foobar"], over twelve partitions. *)
Lemma murmur2_is_java_witness :
  murmur2 (String.list_byte_of_string "foobar") = -790332482
  /\ partition_for_key (String.list_byte_of_string "foobar") 12 = 6.
Proof.
  destruct (murmur2_is_java (String.list_byte_of_string "foobar") 12) as (H1 & H2 & _);
    [vm_compute; discriminate|vm_compute; split; congruence|].
  rewrite H1, H2. vm_compute. split; reflexivity.
Defined.

(** An assigned partition exists, and stickiness lasts until a rotation: on a
    topic with partitions every record is assigned one in range; an unkeyed record
    gets the same partition again whatever is drawn and whatever other topics were
    assigned in between, and a keyed record leaves every topic's choice alone. *)
Theorem assign_sticks (self : Partitioner) (topic other : string) (key : option bytes)
    (n n' drawn drawn' drawn'' : Z) :
  wf self -> 0 < n <= I32_MAX -> n' <= I32_MAX ->
  0 <= drawn < n -> 0 <= drawn' < Z.max 1 n' -> topic <> other ->
  exists p,
    (assign self topic key n drawn).1 = Some p /\ 0 <= p < n
    /\ (key = None ->
        let self1 := (assign self topic key n drawn).2 in
        let self2 := (assign self1 other None n' drawn').2 in
        (assign self2 topic None n drawn'').1 = Some p)
    /\ (key <> None -> (assign self topic key n drawn).2 = self).
Proof.
  intros Hwf Hn Hn' Hd Hd' Hne. destruct key as [key|].
  - rewrite assign_keyed by lia. eexists.
    split_and!; [done|apply partition_for_key_range; lia..|done|done].
  - rewrite assign_unkeyed by lia. eexists.
    pose proof (sticky_for_chosen self topic n drawn Hn (Hwf topic) Hd) as Hr.
    split_and!; [done|lia|lia| |done]. intros _. cbn [fst snd].
    apply assign_stuck; [lia| |lia].
    rewrite assign_other by done. unfold sticky_for. simpl. by rewrite lookup_insert_eq.
Qed.

Lemma assign_sticks_witness :
  exists p, (assign new "orders" None 12 7).1 = Some p /\ p = 7.
Proof.
  destruct (assign_sticks new "orders" "shipments" None 12 3 7 1 9) as (p & H1 & _);
    [apply map_Forall_empty|vm_compute; split; congruence|vm_compute; congruence|lia|lia|congruence|].
  exists p. split; [exact H1|]. injection H1 as <-. reflexivity.
Defined.

End PartitionProperties.
