(* ===== verification/BatchDecode.v ===== *)
(** Tolerant record-batch decoding ([crates/kafka-read/src/batch.rs]).

    A fetched partition is a byte string of v2 record batches.  The header is
    read at fixed offsets; the records of one batch are decoded by
    [kafka_protocol]'s [RecordBatchDecoder], and the codecs behind
    [decompress::bounded] are third-party too: they are the fields of the class
    [RecordCodec].  The loop over the batches, the span bookkeeping for aborted
    transactions, the bounds on decompression and the ceilings on a claimed
    record count are the code's.  Error messages are the code's without the
    numbers it formats into them. *)

From S2P Require Import Prelude.

Module Batch.

(** ** Header offsets *)

Definition BASE_OFFSET : nat := 0.
Definition BATCH_LENGTH : nat := 8.
Definition MAGIC : nat := 16.
Definition ATTRIBUTES : nat := 21.
Definition LAST_OFFSET_DELTA : nat := 23.
Definition PRODUCER_ID : nat := 43.
Definition RECORD_COUNT : nat := 57.
Definition PREFIX_LEN : nat := 12.
Definition MIN_LEN : nat := 61.

Definition MIN_RECORD_BYTES : Z := 6.
Definition CONTROL_FLAG : Z := 0x20.
Definition TRANSACTIONAL_FLAG : Z := 0x10.
Definition COMPRESSION_MASK : Z := 0x07.

(** ** Big-endian reads *)

(** The unsigned big-endian value of a byte string. *)
Definition be_value (l : bytes) : Z := foldl (fun acc b => acc * 256 + b2z b) 0 l.

(** The two's complement reading of [n] bytes. *)
Definition to_signed (n : nat) (z : Z) : Z :=
  if z <? 2 ^ (8 * Z.of_nat n - 1) then z else z - 2 ^ (8 * Z.of_nat n).

(** [buf.get(at..at + n)], read as a signed integer; [None] out of range. *)
Definition read_int (n : nat) (buf : bytes) (at_ : nat) : option Z :=
  if (at_ + n <=? length buf)%nat
  then Some (to_signed n (be_value (take n (drop at_ buf))))
  else None.

Definition read_i16 := read_int 2.
Definition read_i32 := read_int 4.
Definition read_i64 := read_int 8.

Inductive Compression : Type := NoCompression | Gzip | Snappy | Lz4 | Zstd.

#[global] Instance Compression_eq_dec : EqDecision Compression.
Proof. solve_decision. Defined.

(** What a batch header says, read without decoding the records. *)
Record BatchHeader : Type := {
  base_offset : Z;
  last_offset : Z;
  total_len : nat;
  control : bool;
  transactional : bool;
  producer_id : Z;
  compression : Compression;
  record_count : Z;
}.

(** Why a batch could not even be looked at. *)
Inductive HeaderProblem : Type := Truncated | MalformedHeader.

Definition compression_of (attributes : Z) : Compression :=
  match Z.land attributes COMPRESSION_MASK with
  | 1 => Gzip
  | 2 => Snappy
  | 3 => Lz4
  | 4 => Zstd
  | _ => NoCompression
  end.

(** Read a batch header without consuming the buffer. *)
Definition peek_header (buf : bytes) : result BatchHeader HeaderProblem :=
  if (length buf <? MIN_LEN)%nat then Err Truncated
  else
    let? batch_length := ok_or (read_i32 buf BATCH_LENGTH) Truncated in
    if batch_length <? 0 then Err MalformedHeader
    else
      let total_len := (PREFIX_LEN + Z.to_nat batch_length)%nat in
      if (length buf <? total_len)%nat then Err Truncated
      else
        let? magic := ok_or (buf !! MAGIC) Truncated in
        if negb (b2z magic =? 2) then Err MalformedHeader
        else
          let? attributes := ok_or (read_i16 buf ATTRIBUTES) Truncated in
          let? base_offset := ok_or (read_i64 buf BASE_OFFSET) Truncated in
          let? last_offset_delta := ok_or (read_i32 buf LAST_OFFSET_DELTA) Truncated in
          let? producer_id := ok_or (read_i64 buf PRODUCER_ID) Truncated in
          let? record_count := ok_or (read_i32 buf RECORD_COUNT) Truncated in
          if record_count <? 0 then Err MalformedHeader
          else Ok {|
            base_offset := base_offset;
            last_offset := i64_saturating_add base_offset last_offset_delta;
            total_len := total_len;
            control := negb (Z.land attributes CONTROL_FLAG =? 0);
            transactional := negb (Z.land attributes TRANSACTIONAL_FLAG =? 0);
            producer_id := producer_id;
            compression := compression_of attributes;
            record_count := record_count;
          |}.

(** A producer id whose records were rolled back, with the offset it started at. *)
Record AbortedTransaction : Type := {
  at_producer_id : Z;
  first_offset : Z;
}.

Inductive Visibility : Type := All | CommittedOnly.

Record DecodeOptions : Type := {
  max_decompressed_bytes : Z;
  visibility : Visibility;
}.

Definition default_options : DecodeOptions :=
  {| max_decompressed_bytes := 64 * 1024 * 1024; visibility := All |}.

(** ** Records *)

Inductive TimestampType : Type := Creation | LogAppend.

(** [kafka_protocol::records::Record], as the decoder returns it. *)
Record KpRecord : Type := {
  kp_transactional : bool;
  kp_control : bool;
  kp_partition_leader_epoch : Z;
  kp_producer_id : Z;
  kp_timestamp_type : TimestampType;
  kp_offset : Z;
  kp_timestamp : Z;
  kp_key : option bytes;
  kp_value : option bytes;
  kp_headers : list (string * option bytes);
}.

(** A record as this crate hands it out ([crates/kafka-read/src/record.rs]). *)
Record DRecord : Type := {
  r_topic : string;
  r_partition : Z;
  r_offset : Z;
  r_timestamp : Z;
  r_timestamp_type : TimestampType;
  r_key : option bytes;
  r_value : option bytes;
  r_headers : list (string * option bytes);
  r_producer_id : option Z;
  r_transactional : bool;
  r_leader_epoch : option Z;
}.

Definition DecodeError := string.

(** Either a record, or a place where decoding failed. *)
Inductive RecordOutcome : Type :=
  | Decoded (record : DRecord)
  | Malformed (offset : Z) (last : option Z) (raw : bytes) (reason : DecodeError).

(** What decoding one fetched partition produced. *)
Record DecodedPartition : Type := {
  outcomes : list RecordOutcome;
  control_batches_skipped : Z;
  aborted_records_skipped : Z;
  truncated_tail : bool;
}.

Definition empty_decoded : DecodedPartition :=
  {| outcomes := []; control_batches_skipped := 0; aborted_records_skipped := 0;
     truncated_tail := false |}.

(** The third-party decoders.  [kp_decode] is
    [RecordBatchDecoder::decode_with_custom_compression] over one whole batch,
    given the decompression hook.  A streaming decoder ([flate2], [lz4], [zstd])
    is what reading at most [n] bytes from it gives: an error (of its
    construction or of the stream), or the bytes, at most [n] of them as
    [Read::take] promises.  [snap] reads a declared length and fills a buffer of
    that length; the xerial framing is [kafka_protocol]'s. *)
Class RecordCodec : Type := {
  kp_decode :
    bytes -> (bytes -> Compression -> result bytes DecodeError) ->
    result (list KpRecord) DecodeError;
  gzip_take : bytes -> Z -> result bytes DecodeError;
  lz4_take : bytes -> Z -> result bytes DecodeError;
  zstd_take : bytes -> Z -> result bytes DecodeError;
  xerial_decompress : bytes -> result bytes DecodeError;
  snap_decompress_len : bytes -> result Z DecodeError;
  snap_decompress : bytes -> Z -> result bytes DecodeError;
}.

(** ** Size-bounded decompression ([crates/kafka-read/src/decompress.rs]) *)

Definition SNAPPY_MAX_RATIO : Z := 68.

(** The xerial framing's magic header. *)
Definition XERIAL_MAGIC : bytes :=
  map z2b [0x82; 83; 78; 65; 80; 80; 89; 0; 0; 0; 0; 1; 0; 0; 0; 1].

Definition starts_with (l prefix : bytes) : bool := bool_decide (take (length prefix) l = prefix).

(** Read at most [limit] bytes, and fail rather than truncate: the read asks for
    one byte past the limit, so that hitting it proves the stream had more. *)
Definition read_bounded (reader : Z -> result bytes DecodeError) (limit : Z)
    : result bytes DecodeError :=
  let? out := reader (u64_saturating_add limit 1) in
  if limit <? Z.of_nat (length out) then Err "decompressed past the limit"%string else Ok out.

(** Decompress a snappy batch in either framing. *)
Definition snappy `{RecordCodec} (compressed : bytes) (limit : Z) : result bytes DecodeError :=
  if starts_with compressed XERIAL_MAGIC then
    let max_input := limit / SNAPPY_MAX_RATIO in
    if max_input <? Z.of_nat (length compressed)
    then Err "snappy batch could exceed the decompression limit"%string
    else xerial_decompress compressed
  else
    let? declared := snap_decompress_len compressed in
    if limit <? declared then Err "snappy batch declares more than the limit"%string
    else snap_decompress compressed declared.

(** Decompress a batch's records, refusing to exceed [limit] bytes. *)
Definition bounded `{RecordCodec} (compressed : bytes) (compression : Compression) (limit : Z)
    : result bytes DecodeError :=
  match compression with
  | NoCompression => Ok compressed
  | Gzip => read_bounded (gzip_take compressed) limit
  | Lz4 => read_bounded (lz4_take compressed) limit
  | Zstd => read_bounded (zstd_take compressed) limit
  | Snappy => snappy compressed limit
  end.

(** [Option::filter] on a sentinel that is negative. *)
Definition non_negative (z : Z) : option Z := if 0 <=? z then Some z else None.

Definition convert (topic : string) (partition : Z) (record : KpRecord) : DRecord := {|
  r_topic := topic;
  r_partition := partition;
  r_offset := kp_offset record;
  r_timestamp := kp_timestamp record;
  r_timestamp_type := kp_timestamp_type record;
  r_key := kp_key record;
  r_value := kp_value record;
  r_headers := kp_headers record;
  r_producer_id := non_negative (kp_producer_id record);
  r_transactional := kp_transactional record;
  r_leader_epoch := non_negative (kp_partition_leader_epoch record);
|}.

(** The most records a batch could physically contain. *)
Definition max_plausible_records (header : BatchHeader) (options : DecodeOptions) : Z :=
  let payload :=
    match compression header with
    | NoCompression => usize_saturating_sub (Z.of_nat (total_len header)) (Z.of_nat MIN_LEN)
    | _ => max_decompressed_bytes options
    end in
  payload / MIN_RECORD_BYTES.

(** The hook handed to the decoder: decompress within the limit, then refuse a
    claimed count the decompressed bytes cannot hold. *)
Definition decompress_hook `{RecordCodec} (claimed limit : Z)
    (buf : bytes) (c : Compression) : result bytes DecodeError :=
  let? out := bounded buf c limit in
  if Z.of_nat (length out) / MIN_RECORD_BYTES <? claimed
  then Err "batch claims more records than its decompressed bytes can hold"%string
  else Ok out.

(** ** The walk over a partition's batches *)

(** Enter every aborted span whose start this batch has reached. *)
Fixpoint enter_spans (base : Z) (spans : list AbortedTransaction) (producers : gset Z)
    : list AbortedTransaction * gset Z :=
  match spans with
  | span :: rest =>
      if first_offset span <=? base
      then enter_spans base rest ({[at_producer_id span]} ∪ producers)
      else (spans, producers)
  | [] => ([], producers)
  end.

Definition push_outcomes (out : DecodedPartition) (l : list RecordOutcome) : DecodedPartition :=
  {| outcomes := outcomes out ++ l;
     control_batches_skipped := control_batches_skipped out;
     aborted_records_skipped := aborted_records_skipped out;
     truncated_tail := truncated_tail out |}.

Definition skip_control (out : DecodedPartition) : DecodedPartition :=
  {| outcomes := outcomes out;
     control_batches_skipped := control_batches_skipped out + 1;
     aborted_records_skipped := aborted_records_skipped out;
     truncated_tail := truncated_tail out |}.

Definition skip_aborted (out : DecodedPartition) (n : Z) : DecodedPartition :=
  {| outcomes := outcomes out;
     control_batches_skipped := control_batches_skipped out;
     aborted_records_skipped := aborted_records_skipped out + n;
     truncated_tail := truncated_tail out |}.

Definition truncate_tail (out : DecodedPartition) : DecodedPartition :=
  {| outcomes := outcomes out;
     control_batches_skipped := control_batches_skipped out;
     aborted_records_skipped := aborted_records_skipped out;
     truncated_tail := true |}.

Section decode.
Context `{RecordCodec} (topic : string) (partition : Z) (options : DecodeOptions).

(** The records of a decoded set, a control record among them counted and not
    shown. *)
Definition push_record (out : DecodedPartition) (record : KpRecord) : DecodedPartition :=
  if kp_control record then skip_control out
  else push_outcomes out [Decoded (convert topic partition record)].

(** A data batch that is to be shown: refuse an implausible count, then decode. *)
Definition decode_batch (header : BatchHeader) (batch : bytes) (out : DecodedPartition)
    : DecodedPartition :=
  if max_plausible_records header options <? record_count header then
    push_outcomes out
      [Malformed (base_offset header) (Some (last_offset header)) batch
         "batch claims more records than its bytes can hold"%string]
  else
    match kp_decode batch
            (decompress_hook (record_count header) (max_decompressed_bytes options)) with
    | Ok records => foldl push_record out records
    | Err reason =>
        push_outcomes out
          [Malformed (base_offset header) (Some (last_offset header)) batch reason]
    end.

(** What one batch does, after the spans were entered. *)
Definition process_batch (header : BatchHeader) (batch : bytes) (producers : gset Z)
    (out : DecodedPartition) : gset Z * DecodedPartition :=
  if control header then (producers ∖ {[producer_id header]}, skip_control out)
  else if transactional header && bool_decide (producer_id header ∈ producers) then
    let hidden := i64_saturating_add
                    (i64_saturating_sub (last_offset header) (base_offset header)) 1 in
    (producers, skip_aborted out (if 0 <=? hidden then hidden else 0))
  else (producers, decode_batch header batch out).

(** [while records.has_remaining()]; [None] when the fuel runs out. *)
Fixpoint decode_loop (fuel : nat) (records : bytes) (spans : list AbortedTransaction)
    (producers : gset Z) (out : DecodedPartition) : option DecodedPartition :=
  match fuel with
  | O => None
  | S fuel =>
      match records with
      | [] => Some out
      | _ =>
          match peek_header records with
          | Err Truncated => Some (truncate_tail out)
          | Err MalformedHeader =>
              Some (push_outcomes out
                      [Malformed (default (-1) (read_i64 records BASE_OFFSET)) None records
                         "record batch header is not a valid v2 batch"%string])
          | Ok header =>
              let batch := take (total_len header) records in
              let records := drop (total_len header) records in
              let '(spans, producers) := enter_spans (base_offset header) spans producers in
              let '(producers, out) := process_batch header batch producers out in
              decode_loop fuel records spans producers out
          end
      end
  end.

Definition by_first_offset (a b : AbortedTransaction) : Prop := first_offset a <= first_offset b.

#[export] Instance by_first_offset_dec : RelDecision by_first_offset.
Proof. intros a b. unfold by_first_offset. apply _. Defined.

(** Decode one partition's records tolerantly.  Every batch takes at least
    [PREFIX_LEN] bytes off the buffer, so a fuel of one past the length is
    enough. *)
Definition decode_partition (records : bytes) (aborted : list AbortedTransaction)
    : option DecodedPartition :=
  let spans := match visibility options with
               | CommittedOnly => merge_sort by_first_offset aborted
               | All => []
               end in
  decode_loop (S (length records)) records spans ∅ empty_decoded.

End decode.

Definition decode_records `{RecordCodec} (topic : string) (partition : Z) (records : bytes)
    (options : DecodeOptions) : option DecodedPartition :=
  decode_partition topic partition options records [].

Definition decode_records_with_aborted `{RecordCodec} (topic : string) (partition : Z)
    (records : bytes) (aborted : list AbortedTransaction) (options : DecodeOptions)
    : option DecodedPartition :=
  decode_partition topic partition options records aborted.

End Batch.
