(* ===== verification/BatchDecodeFacts.v ===== *)
(** Lemmas and properties of the tolerant batch decoder: the header round trip,
    termination, the walk over a buffer of whole batches, and the refinement of
    the [read_committed] view. *)

From S2P Require Import Prelude BatchDecode.

(** ** Specifications *)

Module BatchSpec.
Import Batch.

(** The [n] big-endian bytes of an integer. *)
Fixpoint be_bytes (n : nat) (z : Z) : bytes :=
  match n with
  | O => []
  | S n => z2b (z / 256 ^ Z.of_nat n) :: be_bytes n z
  end.

(** Every field of a v2 batch header, as the protocol lays them out. *)
Record WireHeader : Type := {
  w_base_offset : Z;
  w_leader_epoch : Z;
  w_crc : Z;
  w_attributes : Z;
  w_last_offset_delta : Z;
  w_base_timestamp : Z;
  w_max_timestamp : Z;
  w_producer_id : Z;
  w_producer_epoch : Z;
  w_base_sequence : Z;
  w_record_count : Z;
}.

(** The whole batch: the header, with the length of what follows, and the
    payload. *)
Definition encode_wire (w : WireHeader) (payload : bytes) : bytes :=
  be_bytes 8 (w_base_offset w)
  ++ be_bytes 4 (49 + Z.of_nat (length payload))
  ++ be_bytes 4 (w_leader_epoch w)
  ++ be_bytes 1 2
  ++ be_bytes 4 (w_crc w)
  ++ be_bytes 2 (w_attributes w)
  ++ be_bytes 4 (w_last_offset_delta w)
  ++ be_bytes 8 (w_base_timestamp w)
  ++ be_bytes 8 (w_max_timestamp w)
  ++ be_bytes 8 (w_producer_id w)
  ++ be_bytes 2 (w_producer_epoch w)
  ++ be_bytes 4 (w_base_sequence w)
  ++ be_bytes 4 (w_record_count w)
  ++ payload.

(** What the reader should see of it. *)
Definition header_of (w : WireHeader) (payload : bytes) : BatchHeader := {|
  base_offset := w_base_offset w;
  last_offset := i64_saturating_add (w_base_offset w) (w_last_offset_delta w);
  total_len := (61 + length payload)%nat;
  control := negb (Z.land (w_attributes w) CONTROL_FLAG =? 0);
  transactional := negb (Z.land (w_attributes w) TRANSACTIONAL_FLAG =? 0);
  producer_id := w_producer_id w;
  compression := compression_of (w_attributes w);
  record_count := w_record_count w;
|}.

Definition wire_ok (w : WireHeader) (payload : bytes) : Prop :=
  in_i64 (w_base_offset w) /\ in_i16 (w_attributes w) /\ in_i32 (w_last_offset_delta w)
  /\ in_i64 (w_producer_id w) /\ 0 <= w_record_count w <= I32_MAX
  /\ 49 + Z.of_nat (length payload) <= I32_MAX.

(** A whole batch: its header reads, and says its own length. *)
Definition is_batch (header : BatchHeader) (batch : bytes) : Prop :=
  peek_header batch = Ok header /\ length batch = total_len header.

(** One batch of a log, with what its marker says when it is a control batch. *)
Record Entry : Type := { e_header : BatchHeader; e_bytes : bytes; e_abort : bool }.

(** Whether the next marker of a producer is an abort. *)
Fixpoint ends_aborted (p : Z) (log : list Entry) : bool :=
  match log with
  | [] => false
  | e :: log =>
      if control (e_header e) && (producer_id (e_header e) =? p) then e_abort e
      else ends_aborted p log
  end.

(** The aborted transactions that start in a log, given the producers whose
    transaction is already open: what the broker's list says of it. *)
Fixpoint aborted_list (open : gset Z) (log : list Entry) : list AbortedTransaction :=
  match log with
  | [] => []
  | e :: log =>
      let p := producer_id (e_header e) in
      if control (e_header e) then aborted_list (open ∖ {[p]}) log
      else if transactional (e_header e) then
        if decide (p ∈ open) then aborted_list open log
        else (if ends_aborted p log
              then [{| at_producer_id := p; first_offset := base_offset (e_header e) |}]
              else [])
             ++ aborted_list ({[p]} ∪ open) log
      else aborted_list open log
  end.

(** Base offsets increase along a log. *)
Fixpoint ascending (log : list Entry) : Prop :=
  match log with
  | [] => True
  | e :: log =>
      Forall (fun e' => base_offset (e_header e) < base_offset (e_header e')) log
      /\ ascending log
  end.

(** What a broker lists with the fetched stretch [log] of a log that goes on with
    [later]: the transactions already open that will abort, the aborted ones that
    start at or before a fetched batch, and as many more of [later] as it likes. *)
Definition lists_aborted (open : gset Z) (log later : list Entry)
    (early spans : list AbortedTransaction) : Prop :=
  (forall s : AbortedTransaction,
     s ∈ spans -> s ∈ early \/ s ∈ aborted_list open (log ++ later))
  /\ (forall s : AbortedTransaction, s ∈ early -> s ∈ spans)
  /\ (forall (s : AbortedTransaction) (e : Entry),
        s ∈ aborted_list open (log ++ later) -> e ∈ log ->
        first_offset s <= base_offset (e_header e) -> s ∈ spans).

Section spec.
Context `{RecordCodec} (topic : string) (partition : Z) (options : DecodeOptions).

(** The committed view of a fetched stretch of the log, defined by looking ahead to
    each producer's next marker, in the stretch or [later]: a transactional data
    batch is hidden exactly when that marker is an abort.  (Of a transaction that has
    no marker yet a broker serves nothing for [read_committed].) *)
Fixpoint committed_view (later log : list Entry) (out : DecodedPartition) : DecodedPartition :=
  match log with
  | [] => out
  | e :: log =>
      let h := e_header e in
      committed_view later log
        (if control h then skip_control out
         else if transactional h && ends_aborted (producer_id h) (log ++ later) then
           skip_aborted out
             (Z.max 0 (i64_saturating_add (i64_saturating_sub (last_offset h) (base_offset h)) 1))
         else decode_batch topic partition options h (e_bytes e) out)
  end.

(** The loop's body over batches that were already cut. *)
Fixpoint walk (log : list Entry) (spans : list AbortedTransaction) (producers : gset Z)
    (out : DecodedPartition) : DecodedPartition :=
  match log with
  | [] => out
  | e :: log =>
      let '(spans, producers) := enter_spans (base_offset (e_header e)) spans producers in
      let '(producers, out) :=
        process_batch topic partition options (e_header e) (e_bytes e) producers out in
      walk log spans producers out
  end.

End spec.

Definition buffer (log : list Entry) : bytes := concat (map e_bytes log).

End BatchSpec.

(** ** Lemmas *)

Module BatchFacts.
Import Batch BatchSpec.

Lemma be_value_snoc l b : be_value (l ++ [b]) = be_value l * 256 + b2z b.
Proof. unfold be_value. by rewrite foldl_snoc. Qed.

Lemma be_value_from l : forall acc,
  foldl (fun acc b => acc * 256 + b2z b) acc l = acc * 256 ^ Z.of_nat (length l) + be_value l.
Proof.
  unfold be_value. induction l as [|b l IH]; intros acc; simpl length; cbn [foldl].
  - simpl. lia.
  - rewrite IH, (IH (0 * 256 + b2z b)).
    rewrite Nat2Z.inj_succ, Z.pow_succ_r by lia. ring.
Qed.

Lemma be_value_cons b l : be_value (b :: l) = b2z b * 256 ^ Z.of_nat (length l) + be_value l.
Proof. unfold be_value at 1. cbn [foldl]. rewrite be_value_from. ring. Qed.

Lemma length_be_bytes n z : length (be_bytes n z) = n.
Proof. induction n; simpl; congruence. Qed.

Lemma be_value_bytes n z : be_value (be_bytes n z) = z mod 256 ^ Z.of_nat n.
Proof.
  induction n as [|n IH].
  - simpl. by rewrite Z.mod_1_r.
  - cbn [be_bytes]. rewrite be_value_cons, length_be_bytes, IH, b2z_z2b.
    rewrite Nat2Z.inj_succ, Z.pow_succ_r by lia.
    assert (0 < 256 ^ Z.of_nat n) by (apply Z.pow_pos_nonneg; lia).
    rewrite (Z.mul_comm 256), Z.rem_mul_r by lia. lia.
Qed.

Lemma to_signed_mod n z :
  (0 < n)%nat -> - 2 ^ (8 * Z.of_nat n - 1) <= z < 2 ^ (8 * Z.of_nat n - 1) ->
  to_signed n (z mod 256 ^ Z.of_nat n) = z.
Proof.
  intros Hn Hz. unfold to_signed.
  replace (256 ^ Z.of_nat n) with (2 ^ (8 * Z.of_nat n))
    by (change 256 with (2 ^ 8); rewrite Z.pow_mul_r; lia).
  replace (2 ^ (8 * Z.of_nat n)) with (2 * 2 ^ (8 * Z.of_nat n - 1))
    by (rewrite <- Z.pow_succ_r by lia; f_equal; lia).
  set (h := 2 ^ (8 * Z.of_nat n - 1)) in *.
  destruct (Z_lt_le_dec z 0).
  - replace (z mod (2 * h)) with (z + 2 * h)
      by (symmetry; rewrite <- (Z.mod_small (z + 2 * h) (2 * h)) by lia;
          replace (z + 2 * h) with (z + 1 * (2 * h)) by lia; by rewrite Z.mod_add by lia).
    rewrite (proj2 (Z.ltb_ge _ _)); lia.
  - rewrite Z.mod_small by lia. rewrite (proj2 (Z.ltb_lt _ _)); lia.
Qed.

Lemma read_int_at n pre z post :
  (0 < n)%nat -> - 2 ^ (8 * Z.of_nat n - 1) <= z < 2 ^ (8 * Z.of_nat n - 1) ->
  read_int n (pre ++ be_bytes n z ++ post) (length pre) = Some z.
Proof.
  intros Hn Hz. unfold read_int.
  rewrite (proj2 (Nat.leb_le _ _)) by (rewrite !length_app, length_be_bytes; lia).
  rewrite drop_app_length, take_app_length' by (by rewrite length_be_bytes).
  by rewrite be_value_bytes, to_signed_mod.
Qed.

Lemma read_int_app n buf rest at_ :
  (at_ + n <= length buf)%nat -> read_int n (buf ++ rest) at_ = read_int n buf at_.
Proof.
  intros Hle. unfold read_int. rewrite length_app.
  rewrite !(proj2 (Nat.leb_le _ _)) by lia.
  rewrite drop_app_le by lia. rewrite take_app_le; [done|]. rewrite length_drop. lia.
Qed.

Lemma read_int_Some n buf at_ : (at_ + n <= length buf)%nat -> is_Some (read_int n buf at_).
Proof. intros Hle. unfold read_int. rewrite (proj2 (Nat.leb_le _ _)) by lia. eauto. Qed.

(** What a readable header says of its buffer. *)
Lemma peek_header_inv buf h :
  peek_header buf = Ok h ->
  (MIN_LEN <= length buf)%nat
  /\ (exists bl, read_i32 buf BATCH_LENGTH = Some bl /\ 0 <= bl
       /\ total_len h = (PREFIX_LEN + Z.to_nat bl)%nat)
  /\ (total_len h <= length buf)%nat /\ 0 <= record_count h.
Proof.
  unfold peek_header. intros H.
  destruct (length buf <? MIN_LEN)%nat eqn:E1; [done|].
  destruct (read_i32 buf BATCH_LENGTH) as [bl|]; cbn [ok_or result_bind] in H; [|done].
  destruct (bl <? 0) eqn:E2; [done|].
  destruct (length buf <? PREFIX_LEN + Z.to_nat bl)%nat eqn:E3; [done|].
  destruct (buf !! MAGIC) as [m|]; cbn [ok_or result_bind] in H; [|done].
  destruct (negb _); [done|].
  destruct (read_i16 buf ATTRIBUTES), (read_i64 buf BASE_OFFSET),
    (read_i32 buf LAST_OFFSET_DELTA), (read_i64 buf PRODUCER_ID),
    (read_i32 buf RECORD_COUNT) as [rc|]; cbn [ok_or result_bind] in H; try done.
  destruct (rc <? 0) eqn:E4; [done|]. injection H as <-. cbn [total_len record_count].
  apply Nat.ltb_ge in E1, E3. unfold PREFIX_LEN in *.
  split_and!; [done| |lia|lia]. exists bl. split_and!; [done|lia|done].
Qed.

Lemma peek_header_ok buf h :
  peek_header buf = Ok h ->
  (MIN_LEN <= length buf)%nat /\ (PREFIX_LEN <= total_len h <= length buf)%nat
  /\ 0 <= record_count h.
Proof. intros H. apply peek_header_inv in H as (? & (bl & ? & ? & ?) & ? & ?). lia. Qed.

(** A header does not depend on what follows its batch. *)
Lemma peek_header_app buf rest h :
  peek_header buf = Ok h -> peek_header (buf ++ rest) = Ok h.
Proof.
  intros H. pose proof (peek_header_ok _ _ H) as (Hlen & _).
  unfold MIN_LEN in Hlen. rewrite <- H. unfold peek_header.
  unfold read_i16, read_i32, read_i64, MIN_LEN, MAGIC.
  rewrite !read_int_app, (lookup_app_l buf) by
    (unfold BATCH_LENGTH, ATTRIBUTES, BASE_OFFSET, LAST_OFFSET_DELTA, PRODUCER_ID, RECORD_COUNT; lia).
  rewrite length_app.
  rewrite !(proj2 (Nat.ltb_ge _ 61)) by lia.
  apply peek_header_inv in H as (_ & (bl & Ebl & Hbl & Htl) & Hle & _).
  unfold read_i32 in Ebl. rewrite Ebl. cbn [ok_or result_bind].
  rewrite !(proj2 (Nat.ltb_ge _ (PREFIX_LEN + Z.to_nat bl))) by lia. done.
Qed.

(** A proper prefix of a batch is a truncation, wherever it was cut. *)
Lemma peek_header_prefix batch h n :
  is_batch h batch -> (n < length batch)%nat -> peek_header (take n batch) = Err Truncated.
Proof.
  intros [H Hl] Hn. pose proof (peek_header_ok _ _ H) as (Hlen & _).
  unfold peek_header. rewrite length_take, Nat.min_l by lia.
  destruct (n <? MIN_LEN)%nat eqn:E1; [done|]. apply Nat.ltb_ge in E1. unfold MIN_LEN in *.
  assert (Hr : read_i32 (take n batch) BATCH_LENGTH = read_i32 batch BATCH_LENGTH).
  { rewrite <- (take_drop n batch) at 2. unfold read_i32. rewrite read_int_app; [done|].
    rewrite length_take. unfold BATCH_LENGTH. lia. }
  apply peek_header_inv in H as (_ & (bl & Ebl & Hbl & Htl) & Hle & _).
  rewrite Hr, Ebl. cbn [ok_or result_bind]. rewrite (proj2 (Z.ltb_ge bl 0)) by done.
  by rewrite (proj2 (Nat.ltb_lt n _)) by lia.
Qed.

Section walk.
Context `{RecordCodec} (topic : string) (partition : Z) (options : DecodeOptions).

Lemma decode_loop_total fuel : forall records spans producers out,
  (length records < fuel)%nat ->
  is_Some (decode_loop topic partition options fuel records spans producers out).
Proof.
  induction fuel as [|fuel IH]; intros records spans producers out Hf; [lia|]. simpl.
  destruct records as [|b records]; [eauto|].
  destruct (peek_header (b :: records)) as [h|[]] eqn:E; [|eauto..].
  apply peek_header_ok in E as (_ & Hl & _). unfold PREFIX_LEN in Hl.
  destruct (enter_spans _ _ _) as [spans' producers'].
  destruct (process_batch _ _ _ _ _ _ _) as [producers'' out'].
  apply IH. rewrite length_drop. simpl in *. lia.
Qed.

(** The loop over a buffer of whole batches followed by a tail is the walk over
    the batches, and then the loop over the tail. *)
Lemma decode_loop_walk log : forall fuel tail spans producers out,
  Forall (fun e => is_batch (e_header e) (e_bytes e)) log ->
  (length (buffer log ++ tail) < fuel)%nat ->
  exists fuel' spans' producers',
    (length tail < fuel')%nat
    /\ decode_loop topic partition options fuel (buffer log ++ tail) spans producers out
       = decode_loop topic partition options fuel' tail spans' producers'
           (walk topic partition options log spans producers out).
Proof.
  induction log as [|e log IH]; intros fuel tail spans producers out Hb Hf.
  - exists fuel, spans, producers. done.
  - apply Forall_cons in Hb as [[He Hlen] Hb].
    unfold buffer in *. simpl in *. rewrite <- app_assoc in *.
    pose proof (peek_header_ok _ _ He) as (Hmin & _).
    destruct fuel as [|fuel]; [lia|]. cbn [decode_loop walk].
    pose proof (peek_header_app _ (concat (map e_bytes log) ++ tail) _ He) as Hp.
    destruct (e_bytes e ++ _) as [|b l] eqn:El.
    { apply (f_equal length) in El. rewrite length_app in El. simpl in El.
      unfold MIN_LEN in Hmin. lia. }
    rewrite <- El in *. clear El b l. rewrite Hp, <- Hlen.
    rewrite take_app_length, drop_app_length.
    destruct (enter_spans _ _ _) as [spans' producers'].
    destruct (process_batch _ _ _ _ _ _ _) as [producers'' out'].
    apply IH; [done|]. rewrite !length_app in *. unfold MIN_LEN in Hmin. lia.
Qed.

Lemma decode_loop_buffer log spans producers out fuel :
  Forall (fun e => is_batch (e_header e) (e_bytes e)) log ->
  (length (buffer log) < fuel)%nat ->
  decode_loop topic partition options fuel (buffer log) spans producers out
  = Some (walk topic partition options log spans producers out).
Proof.
  intros Hb Hf. rewrite <- (app_nil_r (buffer log)) in Hf.
  destruct (decode_loop_walk log fuel [] spans producers out Hb Hf) as (f & s & p & Hf' & E).
  rewrite app_nil_r in E. rewrite E. destruct f; [simpl in *; lia|done].
Qed.

End walk.

(** *** Spans *)

Lemma enter_spans_sorted base spans : forall producers,
  Sorted by_first_offset spans ->
  enter_spans base spans producers
  = (filter (fun s => base < first_offset s) spans,
     list_to_set (map at_producer_id (filter (fun s => first_offset s <= base) spans)) ∪ producers).
Proof.
  induction spans as [|s spans IH]; intros producers Hs; simpl.
  - f_equal. set_solver.
  - destruct (first_offset s <=? base) eqn:E.
    + rewrite IH by (by inversion Hs). rewrite filter_cons_False, filter_cons_True by lia.
      f_equal. simpl. set_solver.
    + assert (Hall : Forall (fun s' => base < first_offset s') (s :: spans)).
      { apply Sorted_StronglySorted in Hs; [|intros a b c; unfold by_first_offset; lia].
        inversion Hs as [|? ? _ Hf]; subst. constructor; [lia|].
        eapply Forall_impl; [exact Hf|]. unfold by_first_offset. simpl. lia. }
      assert (Hnone : filter (fun s => first_offset s <= base) (s :: spans) = []).
      { apply list_filter_none. eapply Forall_impl; [exact Hall|]. simpl. lia. }
      rewrite Hnone, list_filter_all by done. f_equal. simpl. set_solver.
Qed.

Lemma aborted_list_offsets log : forall open s,
  s ∈ aborted_list open log -> exists e, e ∈ log /\ first_offset s = base_offset (e_header e).
Proof.
  induction log as [|e log IH]; intros open s Hs; simpl in Hs; [by apply elem_of_nil in Hs|].
  assert (Hrec : forall open', s ∈ aborted_list open' log ->
                 exists e', e' ∈ e :: log /\ first_offset s = base_offset (e_header e')).
  { intros open' Hin. apply IH in Hin as (e' & Hin & He). exists e'. split; [by right|done]. }
  repeat case_match; try (by eapply Hrec).
  apply elem_of_app in Hs as [Hs|Hs]; [|by eapply Hrec].
  apply list_elem_of_singleton in Hs as ->. exists e. split; [left|done].
Qed.

(** The span a data batch opens, when it opens one that will be aborted. *)
Definition own_span (open : gset Z) (e : Entry) (log : list Entry) : list AbortedTransaction :=
  let p := producer_id (e_header e) in
  if control (e_header e) then []
  else if transactional (e_header e) then
    if decide (p ∈ open) then []
    else if ends_aborted p log
         then [{| at_producer_id := p; first_offset := base_offset (e_header e) |}]
         else []
  else [].

(** The producers with an open transaction after a batch. *)
Definition next_open (open : gset Z) (e : Entry) : gset Z :=
  let p := producer_id (e_header e) in
  if control (e_header e) then open ∖ {[p]}
  else if transactional (e_header e) then {[p]} ∪ open
  else open.

Lemma aborted_list_cons open e log :
  aborted_list open (e :: log) = own_span open e log ++ aborted_list (next_open open e) log.
Proof.
  unfold own_span, next_open. simpl.
  destruct (control (e_header e)), (transactional (e_header e)); try done.
  case_decide as Hd; [|done].
  replace ({[producer_id (e_header e)]} ∪ open) with open by set_solver. done.
Qed.

Lemma own_span_offset open e log s :
  s ∈ own_span open e log -> first_offset s = base_offset (e_header e).
Proof.
  unfold own_span. repeat case_match; intros Hs;
    first [by apply elem_of_nil in Hs | by apply list_elem_of_singleton in Hs as ->].
Qed.

Lemma own_span_producer open e log p :
  (exists s, s ∈ own_span open e log /\ at_producer_id s = p)
  <-> control (e_header e) = false /\ transactional (e_header e) = true
      /\ p = producer_id (e_header e) /\ (p ∉ open) /\ ends_aborted p log = true.
Proof.
  unfold own_span. destruct (control (e_header e)), (transactional (e_header e));
    try (split; [intros (s & Hs & _); by apply elem_of_nil in Hs|naive_solver]).
  case_decide as Hd; [|destruct (ends_aborted _ log) eqn:He];
    split; try (intros (s & Hs & _); by apply elem_of_nil in Hs); try naive_solver.
  - intros (s & Hs & <-). apply list_elem_of_singleton in Hs as ->. done.
  - intros (_ & _ & -> & _ & _). eexists. split; [by apply list_elem_of_singleton|done].
  - intros (_ & _ & -> & _ & He'). by rewrite He in He'.
Qed.

(** The producers that are hiding: those in an open transaction that will abort. *)
Definition hiding (open : gset Z) (log : list Entry) (p : Z) : Prop :=
  p ∈ open /\ ends_aborted p log = true.

Lemma hiding_data open e log p :
  control (e_header e) = false ->
  (hiding open (e :: log) p \/ (exists s, s ∈ own_span open e log /\ at_producer_id s = p))
  <-> hiding (next_open open e) log p.
Proof.
  intros Hc. rewrite own_span_producer. unfold hiding, next_open. simpl. rewrite Hc. simpl.
  destruct (transactional (e_header e)); [|naive_solver].
  rewrite elem_of_union, elem_of_singleton.
  destruct (decide (p ∈ open)); naive_solver.
Qed.

Lemma hiding_control open e log p :
  control (e_header e) = true ->
  (hiding open (e :: log) p /\ p <> producer_id (e_header e)) <-> hiding (next_open open e) log p.
Proof.
  intros Hc. unfold hiding, next_open. simpl. rewrite Hc. simpl.
  rewrite elem_of_difference, elem_of_singleton.
  destruct (Z.eqb_spec (producer_id (e_header e)) p); naive_solver.
Qed.

Lemma StronglySorted_filter {A} (R : A -> A -> Prop) (P : A -> Prop) `{!forall x, Decision (P x)} l :
  StronglySorted R l -> StronglySorted R (filter P l).
Proof.
  induction 1 as [|x l Hl IH Hx]; [constructor|]. rewrite filter_cons.
  destruct (decide (P x)); [|done]. constructor; [done|].
  rewrite Forall_forall in Hx |- *. intros y Hy. apply Hx.
  by apply list_elem_of_filter in Hy as [_ Hy].
Qed.

(** Entering the spans of a batch leaves the list of what comes after it. *)
Lemma enter_spans_lists e log later open early spans producers :
  ascending ((e :: log) ++ later) -> Sorted by_first_offset spans ->
  lists_aborted open (e :: log) later early spans ->
  (forall s : AbortedTransaction, s ∈ early -> first_offset s <= base_offset (e_header e)) ->
  let r := enter_spans (base_offset (e_header e)) spans producers in
  Sorted by_first_offset r.1 /\ lists_aborted (next_open open e) log later [] r.1.
Proof.
  intros [Hasc _] Hs (Hsound & _ & Hall) Hearly r. subst r.
  rewrite enter_spans_sorted by done. cbn [fst snd].
  assert (Hlater : forall s, s ∈ aborted_list (next_open open e) (log ++ later) ->
                   base_offset (e_header e) < first_offset s).
  { intros s Hin. apply aborted_list_offsets in Hin as (e' & Hin & ->).
    rewrite Forall_forall in Hasc. by apply Hasc. }
  cbn [app] in *. rewrite aborted_list_cons in Hsound, Hall.
  setoid_rewrite elem_of_app in Hsound. setoid_rewrite elem_of_app in Hall. split.
  - apply StronglySorted_Sorted, StronglySorted_filter, Sorted_StronglySorted; [|done].
    intros a b c. unfold by_first_offset. lia.
  - split_and!.
    + intros s Hin. apply list_elem_of_filter in Hin as [Hlt Hin]. right.
      destruct (Hsound s Hin) as [He|[Ho|]]; [apply Hearly in He; lia| |done].
      apply own_span_offset in Ho. lia.
    + intros s Hin. by apply elem_of_nil in Hin.
    + intros s e' Hin He' Hle. apply list_elem_of_filter. split; [by apply Hlater|].
      apply (Hall s e'); [by right|by right|done].
Qed.

(** Entering the spans of a batch hides whom they name. *)
Lemma enter_spans_hides e log later open early spans producers p :
  ascending ((e :: log) ++ later) -> Sorted by_first_offset spans ->
  lists_aborted open (e :: log) later early spans ->
  (forall s : AbortedTransaction, s ∈ early -> first_offset s <= base_offset (e_header e)) ->
  p ∈ (enter_spans (base_offset (e_header e)) spans producers).2
  <-> (p ∈ producers \/ exists s, s ∈ early /\ at_producer_id s = p)
      \/ exists s, s ∈ own_span open e (log ++ later) /\ at_producer_id s = p.
Proof.
  intros [Hasc _] Hs (Hsound & Hin & Hall) Hearly.
  rewrite enter_spans_sorted by done. cbn [fst snd app] in *.
  rewrite aborted_list_cons in Hsound, Hall.
  rewrite elem_of_union, elem_of_list_to_set, list_elem_of_fmap.
  setoid_rewrite list_elem_of_filter. split.
  - intros [(s & -> & Hle & Hs')|Hp]; [|naive_solver].
    destruct (Hsound s Hs') as [He|Ho]; [naive_solver|].
    apply elem_of_app in Ho as [Ho|Ho]; [naive_solver|].
    apply aborted_list_offsets in Ho as (e' & He' & Heq).
    rewrite Forall_forall in Hasc. specialize (Hasc e' He'). lia.
  - intros [[Hp|(s & Hs' & <-)]|(s & Hs' & <-)]; [naive_solver| |];
      left; exists s; (split; [done|]).
    + split; [by apply Hearly|by apply Hin].
    + pose proof (own_span_offset _ _ _ _ Hs') as Ho. split; [lia|].
      apply (Hall s e); [apply elem_of_app; by left|left|lia].
Qed.

Section committed.
Context `{RecordCodec} (topic : string) (partition : Z) (options : DecodeOptions).

Lemma walk_committed (log : list Entry) (later : list Entry) :
  forall (open : gset Z) (early spans : list AbortedTransaction) (producers : gset Z) out,
  ascending (log ++ later) -> Sorted by_first_offset spans ->
  lists_aborted open log later early spans ->
  (forall (s : AbortedTransaction) (e : Entry), s ∈ early -> e ∈ log -> first_offset s <= base_offset (e_header e)) ->
  (forall p : Z, (p ∈ producers \/ exists s, s ∈ early /\ at_producer_id s = p)
             <-> hiding open (log ++ later) p) ->
  walk topic partition options log spans producers out
  = committed_view topic partition options later log out.
Proof.
  induction log as [|e log IH]; intros open early spans producers out Hasc Hs Hspans He Hp; [done|].
  assert (He' : forall s : AbortedTransaction, s ∈ early -> first_offset s <= base_offset (e_header e))
    by (intros s Hin; apply He; [done|left]).
  destruct (enter_spans_lists e log later open early spans producers Hasc Hs Hspans He') as [Hs' Hspans'].
  assert (Hp' := fun p => enter_spans_hides e log later open early spans producers p Hasc Hs Hspans He').
  cbn [walk committed_view]. destruct (enter_spans _ _ _) as [spans' producers']. cbn [fst snd] in *.
  cbn [app] in Hasc, Hp. destruct Hasc as [_ Hasc].
  assert (Hnext : forall (producers'' : gset Z) out',
    (forall p : Z, p ∈ producers'' <-> hiding (next_open open e) (log ++ later) p) ->
    walk topic partition options log spans' producers'' out'
    = committed_view topic partition options later log out').
  { intros producers'' out' Hh. apply (IH (next_open open e) []); [done|done|done| |].
    - intros s e' Hin. by apply elem_of_nil in Hin.
    - intros p. rewrite Hh. split; [intros [?|(s & Hin & _)]; [done|by apply elem_of_nil in Hin]|by left]. }
  unfold process_batch. destruct (control (e_header e)) eqn:Hc.
  - apply Hnext. intros p. rewrite elem_of_difference, elem_of_singleton, Hp', Hp.
    rewrite <- hiding_control by done. rewrite own_span_producer. naive_solver.
  - assert (Hh : forall p : Z, p ∈ producers' <-> hiding (next_open open e) (log ++ later) p).
    { intros p. rewrite Hp', Hp. by apply hiding_data. }
    destruct (transactional (e_header e)) eqn:Ht; simpl; [|by apply Hnext].
    assert (Hb : bool_decide (producer_id (e_header e) ∈ producers')
                 = ends_aborted (producer_id (e_header e)) (log ++ later)).
    { apply eq_bool_prop_intro. rewrite bool_decide_spec, Hh. unfold hiding, next_open.
      rewrite Hc, Ht, elem_of_union, elem_of_singleton. rewrite Is_true_true. naive_solver. }
    rewrite Hb. destruct (ends_aborted _ (log ++ later)); [|by apply Hnext].
    rewrite Hnext by done. f_equal. f_equal.
    destruct (0 <=? _) eqn:E; lia.
Qed.

End committed.

(** *** The header on the wire *)

Lemma length_encode_wire w payload : length (encode_wire w payload) = (61 + length payload)%nat.
Proof. unfold encode_wire. rewrite !length_app, !length_be_bytes. lia. Qed.

(** A read past a field is a read in what follows the field. *)
Lemma read_int_skip n m z rest k :
  (m <= k)%nat -> read_int n (be_bytes m z ++ rest) k = read_int n rest (k - m).
Proof.
  intros Hk. unfold read_int. rewrite length_app, length_be_bytes.
  replace (k - m + n <=? length rest)%nat with (k + n <=? m + length rest)%nat
    by (apply eq_bool_prop_intro; rewrite !Is_true_true, !Nat.leb_le; lia).
  rewrite drop_app_ge by (rewrite length_be_bytes; lia). by rewrite length_be_bytes.
Qed.

Lemma read_int_here n z rest :
  (0 < n)%nat -> - 2 ^ (8 * Z.of_nat n - 1) <= z < 2 ^ (8 * Z.of_nat n - 1) ->
  read_int n (be_bytes n z ++ rest) 0 = Some z.
Proof. apply (read_int_at n []). Qed.

(** Find a field of a wire header: skip the fields before it. *)
Ltac wire_field :=
  unfold encode_wire;
  repeat (rewrite read_int_skip by lia; cbn [Nat.sub]);
  apply read_int_here; [lia|unfold I16_MAX, I32_MAX, I64_MAX, I32_MIN, I64_MIN in *; lia].

Lemma wire_magic w payload : encode_wire w payload !! MAGIC = Some (z2b 2).
Proof.
  unfold encode_wire. do 3 rewrite lookup_app_r by (rewrite ?length_be_bytes; unfold MAGIC; lia).
  rewrite !length_be_bytes. reflexivity.
Qed.

Lemma wire_fields w payload :
  wire_ok w payload ->
  read_i32 (encode_wire w payload) BATCH_LENGTH = Some (49 + Z.of_nat (length payload))
  /\ read_i16 (encode_wire w payload) ATTRIBUTES = Some (w_attributes w)
  /\ read_i64 (encode_wire w payload) BASE_OFFSET = Some (w_base_offset w)
  /\ read_i32 (encode_wire w payload) LAST_OFFSET_DELTA = Some (w_last_offset_delta w)
  /\ read_i64 (encode_wire w payload) PRODUCER_ID = Some (w_producer_id w)
  /\ read_i32 (encode_wire w payload) RECORD_COUNT = Some (w_record_count w).
Proof.
  unfold wire_ok, in_i16, in_i32, in_i64, read_i16, read_i32, read_i64,
    BATCH_LENGTH, ATTRIBUTES, BASE_OFFSET, LAST_OFFSET_DELTA, PRODUCER_ID, RECORD_COUNT.
  intros (H1 & H2 & H3 & H4 & H5 & H6). split_and!; wire_field.
Qed.

Lemma peek_wire w payload :
  wire_ok w payload -> peek_header (encode_wire w payload) = Ok (header_of w payload).
Proof.
  intros Hw. pose proof (wire_fields _ _ Hw) as (E1 & E2 & E3 & E4 & E5 & E6).
  destruct Hw as (_ & _ & _ & _ & Hrc & Hlen).
  unfold peek_header. rewrite length_encode_wire, E1, E2, E3, E4, E5, E6, wire_magic.
  rewrite (proj2 (Nat.ltb_ge _ MIN_LEN)) by (unfold MIN_LEN; lia).
  cbn [ok_or result_bind]. rewrite (proj2 (Z.ltb_ge _ 0)) by lia.
  rewrite b2z_z2b. change (negb (2 mod 256 =? 2)) with false.
  replace (PREFIX_LEN + Z.to_nat (49 + Z.of_nat (length payload)))%nat
    with (61 + length payload)%nat by (unfold PREFIX_LEN; lia).
  rewrite (proj2 (Nat.ltb_ge _ _)) by lia. cbn iota.
  by rewrite (proj2 (Z.ltb_ge _ 0)) by lia.
Qed.

(** *** Bounded reads *)

Lemma read_bounded_le reader limit out :
  read_bounded reader limit = Ok out -> Z.of_nat (length out) <= limit.
Proof.
  unfold read_bounded. destruct (reader _) as [l|]; cbn [result_bind]; [|done].
  destruct (_ <? _) eqn:E; [done|]. intros [= <-]. lia.
Qed.

Lemma decompress_hook_inv `{RecordCodec} claimed limit buf c out :
  decompress_hook claimed limit buf c = Ok out ->
  bounded buf c limit = Ok out /\ MIN_RECORD_BYTES * claimed <= Z.of_nat (length out).
Proof.
  unfold decompress_hook. destruct (bounded buf c limit) as [l|]; cbn [result_bind]; [|done].
  destruct (_ <? _) eqn:Hlt; [done|]. intros [= <-]. split; [done|].
  unfold MIN_RECORD_BYTES in *. apply Z.ltb_ge in Hlt.
  pose proof (Z.mul_div_le (Z.of_nat (length l)) 6). lia.
Qed.

(** *** What the outcomes say *)

Section outcomes.
Context `{RecordCodec} (topic : string) (partition : Z) (options : DecodeOptions).

Lemma truncate_push out l : truncate_tail (push_outcomes out l) = push_outcomes (truncate_tail out) l.
Proof. done. Qed.

Lemma decode_loop_tail header batch n fuel spans producers out :
  is_batch header batch -> (0 < n < length batch)%nat -> (n < fuel)%nat ->
  decode_loop topic partition options fuel (take n batch) spans producers out
  = Some (truncate_tail out).
Proof.
  intros Hb Hn Hf. destruct fuel as [|fuel]; [lia|]. cbn [decode_loop].
  rewrite (peek_header_prefix _ _ _ Hb) by lia.
  destruct (take n batch) as [|b l] eqn:E; [|done].
  apply (f_equal length) in E. rewrite length_take in E. simpl in E. lia.
Qed.

End outcomes.

End BatchFacts.

(** What holds of every record the codec yields holds of every record delivered. *)
Module DecodedFacts.
Import Batch.

Section decoded.
Context `{RecordCodec} (topic : string) (partition : Z) (options : DecodeOptions).
Context (P : DRecord -> Prop).
Context (HP : forall batch hook l r,
  kp_decode batch hook = Ok l -> r ∈ l -> P (convert topic partition r)).

Definition all_records (l : list RecordOutcome) : Prop :=
  Forall (fun o => match o with Decoded r => P r | Malformed _ _ _ _ => True end) l.

Lemma push_records l : forall out,
  (forall r, r ∈ l -> P (convert topic partition r)) -> all_records (outcomes out) ->
  all_records (outcomes (foldl (push_record topic partition) out l)).
Proof.
  induction l as [|r l IH]; intros out Hl Hout; cbn [foldl]; [done|].
  apply IH; [intros r' Hr'; apply Hl; by right|]. unfold push_record.
  destruct (kp_control r); [done|]. unfold all_records in *. cbn [outcomes push_outcomes].
  apply Forall_app. split; [done|]. constructor; [|constructor]. apply Hl. left.
Qed.

Lemma process_records header batch producers out :
  all_records (outcomes out) ->
  all_records (outcomes (process_batch topic partition options header batch producers out).2).
Proof using HP.
  intros Hout. unfold process_batch. destruct (control header); [done|].
  destruct (_ && _); [done|]. cbn [snd]. unfold decode_batch.
  assert (Hbad : forall o r w v, all_records (outcomes (push_outcomes out [Malformed o r w v]))).
  { intros. apply Forall_app. split; [done|]. by constructor. }
  destruct (_ <? _); [apply Hbad|].
  destruct (kp_decode batch _) as [l|] eqn:E; [|apply Hbad].
  apply push_records; [|done]. intros r Hr. by eapply HP.
Qed.

Lemma decode_loop_records fuel : forall records spans producers out out',
  all_records (outcomes out) ->
  decode_loop topic partition options fuel records spans producers out = Some out' ->
  all_records (outcomes out').
Proof using HP.
  induction fuel as [|fuel IH]; intros records spans producers out out' Hout; [done|].
  cbn [decode_loop]. destruct records as [|b records]; [by intros [= <-]|].
  destruct (peek_header (b :: records)) as [h|[]].
  - destruct (enter_spans _ _ _) as [spans' producers'].
    pose proof (process_records h (take (total_len h) (b :: records)) producers' out Hout) as Hp.
    destruct (process_batch _ _ _ _ _ _ _) as [producers'' out'']. by apply IH.
  - by intros [= <-].
  - intros [= <-]. apply Forall_app. split; [done|]. by constructor.
Qed.

Lemma decode_partition_records records aborted out :
  decode_partition topic partition options records aborted = Some out ->
  all_records (outcomes out).
Proof using HP. apply decode_loop_records. constructor. Qed.

End decoded.

End DecodedFacts.

(** ** Properties *)

Module BatchProperties.
Import Batch BatchSpec BatchFacts.

(** C6: A fetched buffer of whole batches, cut off anywhere in its log and decoded
    for [read_committed] with what a broker lists for it ([lists_aborted]: the
    transactions that were already open when the fetch started and will abort,
    every aborted one that starts at or before a fetched batch wherever its marker
    lies, more of what comes after the cut or not, in any order), gives exactly the
    committed view: control batches counted and not shown, and a transactional
    batch hidden exactly when its producer's next marker, in the buffer or past
    its end, is an abort.  The view looks ahead in the whole log; the code only
    looks at the span starts it has passed. *)
Theorem read_committed_view `{RecordCodec} topic partition options (log later : list Entry)
    (open : gset Z) (early aborted : list AbortedTransaction) :
  visibility options = CommittedOnly ->
  Forall (fun e => is_batch (e_header e) (e_bytes e)) log ->
  ascending (log ++ later) ->
  lists_aborted open log later early aborted ->
  (forall (s : AbortedTransaction) (e : Entry),
     s ∈ early -> e ∈ log -> first_offset s <= base_offset (e_header e)) ->
  (forall p : Z, (exists s, s ∈ early /\ at_producer_id s = p)
                 <-> p ∈ open /\ ends_aborted p (log ++ later) = true) ->
  decode_partition topic partition options (buffer log) aborted
  = Some (committed_view topic partition options later log empty_decoded).
Proof.
  intros Hv Hb Hasc (Hsound & Hin & Hall) Hearly Hopen. unfold decode_partition. rewrite Hv.
  rewrite decode_loop_buffer by (done || lia). f_equal.
  apply (walk_committed topic partition options log later open early); [done| | |done|].
  - apply Sorted_merge_sort. intros a b. unfold by_first_offset. lia.
  - unfold lists_aborted. setoid_rewrite merge_sort_Permutation. done.
  - intros p. rewrite Hopen. unfold hiding. split; [intros [Hp|]; [set_solver|done]|by right].
Qed.

(** The header the reader peeks at is the one a
    producer wrote, at the protocol's fixed offsets and whatever follows the
    batch. *)
Theorem wire_header_round_trip w payload rest :
  wire_ok w payload ->
  peek_header (encode_wire w payload ++ rest) = Ok (header_of w payload).
Proof. intros Hw. by apply peek_header_app, peek_wire. Qed.

Definition sample_wire : WireHeader := {|
  w_base_offset := 1000; w_leader_epoch := 3; w_crc := 0; w_attributes := 0x10;
  w_last_offset_delta := 4; w_base_timestamp := 0; w_max_timestamp := 0;
  w_producer_id := -1; w_producer_epoch := -1; w_base_sequence := -1; w_record_count := 5;
|}.

Lemma wire_header_round_trip_witness :
  wire_ok sample_wire [z2b 7] /\
  peek_header (encode_wire sample_wire [z2b 7] ++ [z2b 9]) = Ok (header_of sample_wire [z2b 7]).
Proof.
  assert (Hw : wire_ok sample_wire [z2b 7]).
  { unfold wire_ok, in_i16, in_i32, in_i64. cbv. repeat split; congruence. }
  split; [exact Hw|]. exact (wire_header_round_trip sample_wire [z2b 7] [z2b 9] Hw).
Defined.

(** Whatever bytes a broker sends, decoding a
    partition terminates with an answer, with either visibility and any list of
    aborted transactions; and a readable header never claims a batch shorter
    than its prefix or longer than the buffer, so the cut never goes out of
    range. *)
Theorem decode_always_returns `{RecordCodec} topic partition options (records : bytes)
    (aborted : list AbortedTransaction) :
  is_Some (decode_partition topic partition options records aborted)
  /\ (forall h, peek_header records = Ok h ->
        (PREFIX_LEN <= total_len h <= length records)%nat /\ 0 <= record_count h).
Proof.
  split.
  - apply decode_loop_total. lia.
  - intros h Hh. apply peek_header_ok in Hh. tauto.
Qed.

(** Cutting a response in the middle of a batch
    loses that batch only: the whole batches before the cut decode to what they
    would decode to alone, and the tail is reported as truncated. *)
Theorem truncated_tail_keeps_batches `{RecordCodec} topic partition options (log : list Entry)
    header (batch : bytes) (n : nat) (aborted : list AbortedTransaction) :
  Forall (fun e => is_batch (e_header e) (e_bytes e)) log ->
  is_batch header batch -> (0 < n < length batch)%nat ->
  exists out,
    decode_partition topic partition options (buffer log) aborted = Some out
    /\ decode_partition topic partition options (buffer log ++ take n batch) aborted
       = Some (truncate_tail out).
Proof.
  intros Hlog Hb Hn. unfold decode_partition.
  set (spans := match visibility options with All => _ | _ => _ end).
  rewrite decode_loop_buffer by (done || lia). eexists. split; [done|].
  destruct (decode_loop_walk topic partition options log
    (S (length (buffer log ++ take n batch))) (take n batch) spans ∅ empty_decoded Hlog)
    as (f & s & p & Hf & E); [lia|].
  rewrite E. apply (decode_loop_tail _ _ _ header); [done..|].
  rewrite length_take in Hf. lia.
Qed.

(** A compressed payload handed to the decoder was
    never expanded past the configured limit and holds the claimed record count,
    which is what the decoder reserves memory for: gzip, lz4 and zstd are read one
    byte past the limit at most and refused there, an unframed snappy block is
    refused on the length it declares, and a framed one on its compressed length,
    given the documented behaviour of the decoders (the declared length is
    honoured, and the framing expands at most [SNAPPY_MAX_RATIO] times). *)
Theorem decompression_is_bounded `{RecordCodec} :
  (forall b out, xerial_decompress b = Ok out ->
     Z.of_nat (length out) <= SNAPPY_MAX_RATIO * Z.of_nat (length b)) ->
  (forall b n out, snap_decompress b n = Ok out -> Z.of_nat (length out) = n) ->
  forall claimed payload c limit out,
    c <> NoCompression ->
    decompress_hook claimed limit payload c = Ok out ->
    MIN_RECORD_BYTES * claimed <= Z.of_nat (length out) <= limit.
Proof.
  intros Hx Hs claimed payload c limit out Hc Hhook.
  apply decompress_hook_inv in Hhook as [Hb Hclaimed]. split; [done|].
  destruct c; [done| |unfold bounded, snappy in Hb| |]; [by eapply read_bounded_le| |by eapply read_bounded_le..].
  destruct (starts_with _ _).
  - destruct (_ <? _) eqn:E; [done|]. apply Z.ltb_ge in E.
    pose proof (Hx payload out Hb). unfold SNAPPY_MAX_RATIO in *.
    pose proof (Z.mul_div_le limit 68). lia.
  - destruct (snap_decompress_len payload) as [n|]; cbn [result_bind] in Hb; [|done].
    destruct (_ <? _) eqn:E; [done|]. apply Z.ltb_ge in E.
    apply Hs in Hb. lia.
Qed.

(** *** Witnesses *)

(** A codec that hands back one record per byte of the payload. *)
Definition demo_record (w : bytes) : KpRecord := {|
  kp_transactional := false; kp_control := false; kp_partition_leader_epoch := 0;
  kp_producer_id := -1; kp_timestamp_type := Creation;
  kp_offset := default 0 (read_i64 w BASE_OFFSET); kp_timestamp := 0;
  kp_key := None; kp_value := Some (drop 61 w); kp_headers := [];
|}.

#[local] Instance demo_codec : RecordCodec := {|
  kp_decode b _ := Ok [demo_record b];
  gzip_take b n := Ok (take (Z.to_nat n) (b ++ b));
  lz4_take b n := Ok (take (Z.to_nat n) b);
  zstd_take b n := Err "corrupt"%string;
  xerial_decompress b := Ok (drop 16 b);
  snap_decompress_len b := Ok (Z.of_nat (length b));
  snap_decompress b n := if n =? Z.of_nat (length b) then Ok b else Err "length"%string;
|}.

Definition demo_wire (base attributes producer : Z) : WireHeader := {|
  w_base_offset := base; w_leader_epoch := 0; w_crc := 0; w_attributes := attributes;
  w_last_offset_delta := 0; w_base_timestamp := 0; w_max_timestamp := 0;
  w_producer_id := producer; w_producer_epoch := 0; w_base_sequence := 0;
  w_record_count := 1;
|}.

Definition demo_payload : bytes := map z2b [1; 2; 3; 4; 5; 6].

Definition demo_entry (base attributes producer : Z) (abort : bool) : Entry := {|
  e_header := header_of (demo_wire base attributes producer) demo_payload;
  e_bytes := encode_wire (demo_wire base attributes producer) demo_payload;
  e_abort := abort;
|}.

(** Producer 7 was already in a transaction that aborts; producer 8 starts one
    that commits, then one that aborts; producer 9 one whose abort marker is past
    the end of the fetched bytes. *)
Definition demo_log : list Entry := [
  demo_entry 10 0x10 7 false; demo_entry 11 0x10 8 false; demo_entry 12 0x30 7 true;
  demo_entry 13 0x30 8 false; demo_entry 14 0x10 8 false; demo_entry 15 0 (-1) false;
  demo_entry 16 0x30 8 true; demo_entry 17 0x10 9 false ].

(** The rest of the log: producer 10 starts and aborts a transaction, and only
    then producer 9 aborts its own. *)
Definition demo_later : list Entry := [
  demo_entry 18 0x10 10 false; demo_entry 19 0x30 10 true; demo_entry 20 0x30 9 true ].

Definition demo_options : DecodeOptions :=
  {| max_decompressed_bytes := 1024; visibility := CommittedOnly |}.

Definition demo_early : list AbortedTransaction := [{| at_producer_id := 7; first_offset := 3 |}].

Definition demo_aborted : list AbortedTransaction := [
  {| at_producer_id := 9; first_offset := 17 |}; {| at_producer_id := 8; first_offset := 14 |};
  {| at_producer_id := 7; first_offset := 3 |} ].

(** The committed records are those of offsets 11 and 15: the one of offset 17 is
    hidden although its marker was not fetched. *)
Example demo_committed :
  map (fun o => match o with Decoded r => r_offset r | Malformed o _ _ _ => - o end)
    (outcomes (committed_view "t" 0 demo_options demo_later demo_log empty_decoded)) = [11; 15].
Proof. vm_compute. reflexivity. Qed.

Lemma demo_log_batches : Forall (fun e => is_batch (e_header e) (e_bytes e)) demo_log.
Proof. repeat constructor; vm_compute; reflexivity. Qed.

Lemma demo_hiding p :
  (exists s, s ∈ demo_early /\ at_producer_id s = p)
  <-> p ∈ ({[7]} : gset Z) /\ ends_aborted p (demo_log ++ demo_later) = true.
Proof.
  rewrite elem_of_singleton. unfold demo_early. split.
  - intros (s & Hs & <-). apply list_elem_of_singleton in Hs as ->. by vm_compute.
  - intros [-> _]. eexists. by rewrite list_elem_of_singleton.
Qed.

Lemma demo_early_offsets (s : AbortedTransaction) (e : Entry) :
  s ∈ demo_early -> e ∈ demo_log -> first_offset s <= base_offset (e_header e).
Proof.
  intros Hs He. apply list_elem_of_singleton in Hs as ->.
  apply list_elem_of_In in He. simpl in He.
  repeat (destruct He as [<-|He]; [vm_compute; congruence|]). done.
Qed.

(** The broker does not list the transaction of producer 10: no fetched batch
    comes after its start. *)
Lemma demo_lists_aborted : lists_aborted {[7]} demo_log demo_later demo_early demo_aborted.
Proof.
  unfold lists_aborted. replace (aborted_list {[7]} (demo_log ++ demo_later))
    with [{| at_producer_id := 8; first_offset := 14 |}; {| at_producer_id := 9; first_offset := 17 |};
          {| at_producer_id := 10; first_offset := 18 |}] by (by vm_compute).
  unfold demo_aborted, demo_early. split_and!; [set_solver..|].
  intros s e Hs He Hle. assert (base_offset (e_header e) <= 17).
  { apply list_elem_of_In in He. simpl in He.
    repeat (destruct He as [<-|He]; [vm_compute; congruence|]). done. }
  apply elem_of_cons in Hs as [->|Hs]; [set_solver|].
  apply elem_of_cons in Hs as [->|Hs]; [set_solver|].
  apply list_elem_of_singleton in Hs as ->. cbn in Hle. lia.
Qed.

Lemma read_committed_view_witness :
  ascending (demo_log ++ demo_later) /\
  decode_partition "t" 0 demo_options (buffer demo_log) demo_aborted
  = Some (committed_view "t" 0 demo_options demo_later demo_log empty_decoded).
Proof.
  assert (Ha : ascending (demo_log ++ demo_later)) by (repeat (split; [repeat constructor|]); constructor).
  split; [exact Ha|].
  apply (read_committed_view "t" 0 demo_options demo_log demo_later {[7]} demo_early demo_aborted).
  - reflexivity.
  - exact demo_log_batches.
  - exact Ha.
  - exact demo_lists_aborted.
  - exact demo_early_offsets.
  - exact demo_hiding.
Defined.

Lemma truncated_tail_keeps_batches_witness :
  exists out,
    decode_partition "t" 0 demo_options (buffer demo_log) demo_aborted = Some out
    /\ decode_partition "t" 0 demo_options
         (buffer demo_log ++ take 30 (e_bytes (demo_entry 18 0 (-1) false))) demo_aborted
       = Some (truncate_tail out).
Proof.
  apply (truncated_tail_keeps_batches "t" 0 demo_options demo_log
           (e_header (demo_entry 18 0 (-1) false))).
  - exact demo_log_batches.
  - split; vm_compute; reflexivity.
  - vm_compute. lia.
Defined.

Lemma decompression_is_bounded_witness :
  decompress_hook 2 12 demo_payload Gzip = Ok (demo_payload ++ demo_payload)
  /\ MIN_RECORD_BYTES * 2 <= Z.of_nat (length (demo_payload ++ demo_payload)) <= 12.
Proof.
  assert (Hb : decompress_hook 2 12 demo_payload Gzip = Ok (demo_payload ++ demo_payload))
    by (vm_compute; reflexivity).
  split; [exact Hb|].
  refine (decompression_is_bounded _ _ 2 demo_payload Gzip 12 _ _ Hb).
  - intros b out [= <-]. unfold SNAPPY_MAX_RATIO. rewrite length_drop. lia.
  - intros b n out. simpl. destruct (Z.eqb_spec n (Z.of_nat (length b))); [|done].
    by intros [= <-].
  - discriminate.
Defined.

End BatchProperties.
