(* ===== verification/Rpc.v ===== *)
(** The client half of a Kafka RPC: which request is sent under which api key, at which
    version, and in which frame ([crates/kafka-conn/src/rpc.rs], [codec.rs], and
    [typed_range] and [version_for] of [conn.rs]).

    The message types are generated by the [kafka_protocol] crate.  What the code uses
    of a type is its name, its schema's versions and its codec, which are fields
    of the class [Messages] and of the record [Call]. *)

From S2P Require Import Prelude Sanitize ErrorCodes ApiKeys BatchDecode.

Module Rpc.
Import Versions.

(** A request type paired with the response the broker will send back, and the
    highest version a client may send where that is below the schema's. *)
Record Rpc : Type := {
  request : string;
  API_KEY : ApiKey.ApiKey;
  Response : string;
  CLIENT_MAX_VERSION : option Z;
}.

Definition rpc (request : string) (api_key : ApiKey.ApiKey) (response : string) : Rpc :=
  {| request := request; API_KEY := api_key; Response := response; CLIENT_MAX_VERSION := None |}.

(** Every [impl Rpc for], in the order of the file. *)
Definition IMPLS : list Rpc :=
  [
    rpc "ProduceRequest" ApiKey.Produce "ProduceResponse";
    rpc "FetchRequest" ApiKey.Fetch "FetchResponse";
    rpc "ListOffsetsRequest" ApiKey.ListOffsets "ListOffsetsResponse";
    rpc "MetadataRequest" ApiKey.Metadata "MetadataResponse";
    rpc "OffsetCommitRequest" ApiKey.OffsetCommit "OffsetCommitResponse";
    rpc "OffsetFetchRequest" ApiKey.OffsetFetch "OffsetFetchResponse";
    rpc "FindCoordinatorRequest" ApiKey.FindCoordinator "FindCoordinatorResponse";
    rpc "JoinGroupRequest" ApiKey.JoinGroup "JoinGroupResponse";
    rpc "HeartbeatRequest" ApiKey.Heartbeat "HeartbeatResponse";
    rpc "LeaveGroupRequest" ApiKey.LeaveGroup "LeaveGroupResponse";
    rpc "SyncGroupRequest" ApiKey.SyncGroup "SyncGroupResponse";
    rpc "DescribeGroupsRequest" ApiKey.DescribeGroups "DescribeGroupsResponse";
    rpc "ListGroupsRequest" ApiKey.ListGroups "ListGroupsResponse";
    rpc "SaslHandshakeRequest" ApiKey.SaslHandshake "SaslHandshakeResponse";
    rpc "ApiVersionsRequest" ApiKey.ApiVersions "ApiVersionsResponse";
    rpc "CreateTopicsRequest" ApiKey.CreateTopics "CreateTopicsResponse";
    rpc "DeleteTopicsRequest" ApiKey.DeleteTopics "DeleteTopicsResponse";
    rpc "DeleteRecordsRequest" ApiKey.DeleteRecords "DeleteRecordsResponse";
    rpc "InitProducerIdRequest" ApiKey.InitProducerId "InitProducerIdResponse";
    rpc "OffsetForLeaderEpochRequest" ApiKey.OffsetForLeaderEpoch "OffsetForLeaderEpochResponse";
    {| request := "AddPartitionsToTxnRequest"; API_KEY := ApiKey.AddPartitionsToTxn; Response := "AddPartitionsToTxnResponse";
       CLIENT_MAX_VERSION := Some 3 |};
    rpc "AddOffsetsToTxnRequest" ApiKey.AddOffsetsToTxn "AddOffsetsToTxnResponse";
    rpc "EndTxnRequest" ApiKey.EndTxn "EndTxnResponse";
    rpc "WriteTxnMarkersRequest" ApiKey.WriteTxnMarkers "WriteTxnMarkersResponse";
    rpc "TxnOffsetCommitRequest" ApiKey.TxnOffsetCommit "TxnOffsetCommitResponse";
    rpc "DescribeAclsRequest" ApiKey.DescribeAcls "DescribeAclsResponse";
    rpc "CreateAclsRequest" ApiKey.CreateAcls "CreateAclsResponse";
    rpc "DeleteAclsRequest" ApiKey.DeleteAcls "DeleteAclsResponse";
    rpc "DescribeConfigsRequest" ApiKey.DescribeConfigs "DescribeConfigsResponse";
    rpc "AlterConfigsRequest" ApiKey.AlterConfigs "AlterConfigsResponse";
    rpc "AlterReplicaLogDirsRequest" ApiKey.AlterReplicaLogDirs "AlterReplicaLogDirsResponse";
    rpc "DescribeLogDirsRequest" ApiKey.DescribeLogDirs "DescribeLogDirsResponse";
    rpc "SaslAuthenticateRequest" ApiKey.SaslAuthenticate "SaslAuthenticateResponse";
    rpc "CreatePartitionsRequest" ApiKey.CreatePartitions "CreatePartitionsResponse";
    rpc "CreateDelegationTokenRequest" ApiKey.CreateDelegationToken "CreateDelegationTokenResponse";
    rpc "RenewDelegationTokenRequest" ApiKey.RenewDelegationToken "RenewDelegationTokenResponse";
    rpc "ExpireDelegationTokenRequest" ApiKey.ExpireDelegationToken "ExpireDelegationTokenResponse";
    rpc "DescribeDelegationTokenRequest" ApiKey.DescribeDelegationToken "DescribeDelegationTokenResponse";
    rpc "DeleteGroupsRequest" ApiKey.DeleteGroups "DeleteGroupsResponse";
    rpc "ElectLeadersRequest" ApiKey.ElectLeaders "ElectLeadersResponse";
    rpc "IncrementalAlterConfigsRequest" ApiKey.IncrementalAlterConfigs "IncrementalAlterConfigsResponse";
    rpc "AlterPartitionReassignmentsRequest" ApiKey.AlterPartitionReassignments "AlterPartitionReassignmentsResponse";
    rpc "ListPartitionReassignmentsRequest" ApiKey.ListPartitionReassignments "ListPartitionReassignmentsResponse";
    rpc "OffsetDeleteRequest" ApiKey.OffsetDelete "OffsetDeleteResponse";
    rpc "DescribeClientQuotasRequest" ApiKey.DescribeClientQuotas "DescribeClientQuotasResponse";
    rpc "AlterClientQuotasRequest" ApiKey.AlterClientQuotas "AlterClientQuotasResponse";
    rpc "DescribeUserScramCredentialsRequest" ApiKey.DescribeUserScramCredentials "DescribeUserScramCredentialsResponse";
    rpc "AlterUserScramCredentialsRequest" ApiKey.AlterUserScramCredentials "AlterUserScramCredentialsResponse";
    rpc "VoteRequest" ApiKey.Vote "VoteResponse";
    rpc "BeginQuorumEpochRequest" ApiKey.BeginQuorumEpoch "BeginQuorumEpochResponse";
    rpc "EndQuorumEpochRequest" ApiKey.EndQuorumEpoch "EndQuorumEpochResponse";
    rpc "DescribeQuorumRequest" ApiKey.DescribeQuorum "DescribeQuorumResponse";
    rpc "AlterPartitionRequest" ApiKey.AlterPartition "AlterPartitionResponse";
    rpc "UpdateFeaturesRequest" ApiKey.UpdateFeatures "UpdateFeaturesResponse";
    rpc "EnvelopeRequest" ApiKey.Envelope "EnvelopeResponse";
    rpc "FetchSnapshotRequest" ApiKey.FetchSnapshot "FetchSnapshotResponse";
    rpc "DescribeClusterRequest" ApiKey.DescribeCluster "DescribeClusterResponse";
    rpc "DescribeProducersRequest" ApiKey.DescribeProducers "DescribeProducersResponse";
    rpc "BrokerRegistrationRequest" ApiKey.BrokerRegistration "BrokerRegistrationResponse";
    rpc "BrokerHeartbeatRequest" ApiKey.BrokerHeartbeat "BrokerHeartbeatResponse";
    rpc "UnregisterBrokerRequest" ApiKey.UnregisterBroker "UnregisterBrokerResponse";
    rpc "DescribeTransactionsRequest" ApiKey.DescribeTransactions "DescribeTransactionsResponse";
    rpc "ListTransactionsRequest" ApiKey.ListTransactions "ListTransactionsResponse";
    rpc "AllocateProducerIdsRequest" ApiKey.AllocateProducerIds "AllocateProducerIdsResponse";
    rpc "ConsumerGroupHeartbeatRequest" ApiKey.ConsumerGroupHeartbeat "ConsumerGroupHeartbeatResponse";
    rpc "ConsumerGroupDescribeRequest" ApiKey.ConsumerGroupDescribe "ConsumerGroupDescribeResponse";
    rpc "ControllerRegistrationRequest" ApiKey.ControllerRegistration "ControllerRegistrationResponse";
    rpc "GetTelemetrySubscriptionsRequest" ApiKey.GetTelemetrySubscriptions "GetTelemetrySubscriptionsResponse";
    rpc "PushTelemetryRequest" ApiKey.PushTelemetry "PushTelemetryResponse";
    rpc "AssignReplicasToDirsRequest" ApiKey.AssignReplicasToDirs "AssignReplicasToDirsResponse";
    rpc "ListConfigResourcesRequest" ApiKey.ListConfigResources "ListConfigResourcesResponse";
    rpc "DescribeTopicPartitionsRequest" ApiKey.DescribeTopicPartitions "DescribeTopicPartitionsResponse";
    rpc "ShareGroupHeartbeatRequest" ApiKey.ShareGroupHeartbeat "ShareGroupHeartbeatResponse";
    rpc "ShareGroupDescribeRequest" ApiKey.ShareGroupDescribe "ShareGroupDescribeResponse";
    rpc "ShareFetchRequest" ApiKey.ShareFetch "ShareFetchResponse";
    rpc "ShareAcknowledgeRequest" ApiKey.ShareAcknowledge "ShareAcknowledgeResponse";
    rpc "AddRaftVoterRequest" ApiKey.AddRaftVoter "AddRaftVoterResponse";
    rpc "RemoveRaftVoterRequest" ApiKey.RemoveRaftVoter "RemoveRaftVoterResponse";
    rpc "UpdateRaftVoterRequest" ApiKey.UpdateRaftVoter "UpdateRaftVoterResponse";
    rpc "InitializeShareGroupStateRequest" ApiKey.InitializeShareGroupState "InitializeShareGroupStateResponse";
    rpc "ReadShareGroupStateRequest" ApiKey.ReadShareGroupState "ReadShareGroupStateResponse";
    rpc "WriteShareGroupStateRequest" ApiKey.WriteShareGroupState "WriteShareGroupStateResponse";
    rpc "DeleteShareGroupStateRequest" ApiKey.DeleteShareGroupState "DeleteShareGroupStateResponse";
    rpc "ReadShareGroupStateSummaryRequest" ApiKey.ReadShareGroupStateSummary "ReadShareGroupStateSummaryResponse";
    rpc "DescribeShareGroupOffsetsRequest" ApiKey.DescribeShareGroupOffsets "DescribeShareGroupOffsetsResponse";
    rpc "AlterShareGroupOffsetsRequest" ApiKey.AlterShareGroupOffsets "AlterShareGroupOffsetsResponse";
    rpc "DeleteShareGroupOffsetsRequest" ApiKey.DeleteShareGroupOffsets "DeleteShareGroupOffsetsResponse"
  ]%string.

(** What a request header holds. *)
Record RequestHeader : Type := {
  request_api_key : Z;
  request_api_version : Z;
  correlation_id : Z;
  client_id : option string;
}.

(** What the crate knows of a message type, of an api key, and of the two headers:
    decoding a response header gives what is left of the buffer. *)
Class Messages : Type := {
  VERSIONS : string -> VersionRange;
  protocol_key_exists : Z -> bool;
  request_header_version : Z -> Z -> Z;
  response_header_version : Z -> Z -> Z;
  encode_header : RequestHeader -> Z -> result bytes Error.Source;
  decode_header : bytes -> Z -> result bytes Error.Source;
}.

(** A request to be sent: its type, its encoder at a version, and the decoder of its
    response. *)
Record Call (R : Type) : Type := {
  call_rpc : Rpc;
  encode_body : Z -> result bytes Error.Source;
  decode_body : bytes -> Z -> result R Error.Source;
}.
#[global] Arguments call_rpc {R} _.
#[global] Arguments encode_body {R} _ _.
#[global] Arguments decode_body {R} _ _ _.

Section versions.
Context `{Messages}.

(** The versions a request and its response can both be encoded at. *)
Definition typed_range (r : Rpc) : VersionRange :=
  let request := VERSIONS (request r) in
  let response := VERSIONS (Response r) in
  let max :=
    match CLIENT_MAX_VERSION r with
    | Some client_max => Z.min (Z.min (max request) (max response)) client_max
    | None => Z.min (max request) (max response)
    end in
  {| min := Z.max (min request) (min response); max := max |}.

(** [Error::UnsupportedApi]. *)
Definition unsupported (u : UnsupportedApi) : Error.Error :=
  Error.UnsupportedApi (ApiKey.code (ua_api_key u)) (ua_broker u) (ua_ours u).

(** The version a request will actually be encoded at. *)
Definition version_for (versions : ApiVersions) (r : Rpc) : result Z Error.Error :=
  match negotiate_with versions (API_KEY r) (Some (typed_range r)) with
  | Ok version => Ok version
  | Err u => Err (unsupported u)
  end.

End versions.

End Rpc.

Module Codec.
Import Rpc Error.

Definition DEFAULT_MAX_FRAME_BYTES : Z := 100 * 1024 * 1024.

(** The settings of the length-delimited codec: a four-byte big-endian prefix that is
    skipped, and a ceiling. *)
Record LengthDelimitedCodec : Type := {
  big_endian : bool;
  length_field_offset : Z;
  length_field_length : Z;
  length_adjustment : Z;
  num_skip : Z;
  max_frame_length : Z;
}.

Definition frame_codec (max_frame_bytes : Z) : LengthDelimitedCodec := {|
  big_endian := true; length_field_offset := 0; length_field_length := 4;
  length_adjustment := 0; num_skip := 4; max_frame_length := max_frame_bytes |}.

(** An [std::io::Error] as the source of a decode error. *)
Definition io_source (message : string) : Source :=
  {| src_text := message; src_type := Some "std::io::Error"%string |}.

(** [Buf::get_i16] and [get_i32] on the first bytes of a buffer. *)
Definition get_i16 (buf : bytes) : Z := Batch.to_signed 2 (Batch.be_value (take 2 buf)).
Definition get_i32 (buf : bytes) : Z := Batch.to_signed 4 (Batch.be_value (take 4 buf)).

(** Read the correlation id out of a response frame without decoding it. *)
Definition peek_correlation_id (frame : bytes) : result Z Error :=
  if (length frame <? 4)%nat then
    Err (Decode "reading response correlation id"
           (io_source ("response frame is " +:+ pretty (Z.of_nat (length frame))
                       +:+ " bytes, need at least 4")))
  else Ok (get_i32 frame).

Section codec.
Context `{Messages}.

(** [map_err] to a decode error with a context. *)
Definition decoding {A} (context : string) (r : result A Source) : result A Error :=
  match r with Ok a => Ok a | Err e => Err (Decode context e) end.

(** Map our api key onto the codec's, or explain why we cannot. *)
Definition protocol_key (api_key : ApiKey.ApiKey) : result Z Error :=
  if protocol_key_exists (ApiKey.code api_key) then Ok (ApiKey.code api_key)
  else Err (UnsupportedApi (ApiKey.code api_key) None None).

(** Encode a request header and body into a frame payload. *)
Definition encode_request {R} (api_key : ApiKey.ApiKey) (version correlation : Z)
    (client : option string) (request : Call R) : result bytes Error :=
  let? upstream := protocol_key api_key in
  let header := {| request_api_key := ApiKey.code api_key; request_api_version := version;
                   correlation_id := correlation; client_id := client |} in
  let header_version := request_header_version upstream version in
  let? head := decoding "encoding request header" (encode_header header header_version) in
  let? body := decoding "encoding request body" (encode_body request version) in
  Ok (head ++ body).

(** Decode a response frame into its typed body. *)
Definition decode_response {R} (api_key : ApiKey.ApiKey) (version : Z) (request : Call R)
    (frame : bytes) : result R Error :=
  let? upstream := protocol_key api_key in
  let header_version := response_header_version upstream version in
  let? body := decoding "decoding response header" (decode_header frame header_version) in
  decoding "decoding response body" (decode_body request body version).

(** Skip the response header, leaving the body. *)
Definition split_response_body (api_key : ApiKey.ApiKey) (version : Z) (frame : bytes)
    : result bytes Error :=
  let? upstream := protocol_key api_key in
  let header_version := response_header_version upstream version in
  decoding "decoding response header" (decode_header frame header_version).

(** The error code a response body starts with, whatever its version. *)
Definition peek_error_code (body : bytes) : result Z Error :=
  if (length body <? 2)%nat then
    Err (Decode "reading ApiVersions error code"
           (io_source "ApiVersions response body is shorter than its error code"))
  else Ok (get_i16 body).

End codec.

End Codec.

(** Per-connection counters ([crates/kafka-conn/src/stats.rs]). *)
Module Stats.

Record ConnectionStats : Type := {
  bytes_sent : Z;
  bytes_received : Z;
  requests_sent : Z;
  responses_received : Z;
}.

Definition new : ConnectionStats :=
  {| bytes_sent := 0; bytes_received := 0; requests_sent := 0; responses_received := 0 |}.

(** [fetch_add] on an [AtomicU64]. *)
Definition u64_fetch_add (a b : Z) : Z := (a + b) mod 2 ^ 64.

Definition record_sent (self : ConnectionStats) (count : Z) : ConnectionStats := {|
  bytes_sent := u64_fetch_add (bytes_sent self) count;
  bytes_received := bytes_received self;
  requests_sent := u64_fetch_add (requests_sent self) 1;
  responses_received := responses_received self |}.

Definition record_received (self : ConnectionStats) (count : Z) : ConnectionStats := {|
  bytes_sent := bytes_sent self;
  bytes_received := u64_fetch_add (bytes_received self) count;
  requests_sent := requests_sent self;
  responses_received := u64_fetch_add (responses_received self) 1 |}.

(** Traffic accumulated between an earlier snapshot and this one. *)
Definition since (self earlier : ConnectionStats) : ConnectionStats := {|
  bytes_sent := Z.max 0 (bytes_sent self - bytes_sent earlier);
  bytes_received := Z.max 0 (bytes_received self - bytes_received earlier);
  requests_sent := Z.max 0 (requests_sent self - requests_sent earlier);
  responses_received := Z.max 0 (responses_received self - responses_received earlier) |}.

End Stats.

(** ** Lemmas *)

Module RpcFacts.
Import ApiKey Versions VersionFacts Rpc.

Lemma impls_known : map API_KEY IMPLS = ApiKey.KNOWN.
Proof. vm_compute. reflexivity. Qed.

Lemma impls_names :
  forallb (fun r => bool_decide (request r = (ApiKey.name (API_KEY r) +:+ "Request")%string)
                    && bool_decide (Response r = (ApiKey.name (API_KEY r) +:+ "Response")%string))
    IMPLS = true.
Proof. vm_compute. reflexivity. Qed.

Lemma clamped_impls r :
  r ∈ IMPLS -> CLIENT_MAX_VERSION r = None \/ API_KEY r = ApiKey.AddPartitionsToTxn.
Proof.
  revert r. apply Forall_forall. refine (bool_decide_unpack _ _). vm_compute. exact I.
Qed.

Lemma in_typed_range `{Messages} r v :
  in_range v (typed_range r)
  <-> in_range v (VERSIONS (request r)) /\ in_range v (VERSIONS (Response r))
      /\ forall m, CLIENT_MAX_VERSION r = Some m -> v <= m.
Proof.
  unfold in_range, typed_range. cbn [min max]. destruct (CLIENT_MAX_VERSION r) as [m|].
  - split; [intros ?; split_and!; try lia; intros ? [= <-]; lia|].
    intros (? & ? & Hm). pose proof (Hm m eq_refl). lia.
  - split; [intros ?; split_and!; try lia; done|]. lia.
Qed.

End RpcFacts.
