(* ===== verification/Connection.v ===== *)
(** The connection actor: concurrent requests over one socket
    ([crates/kafka-conn/src/conn.rs], [config.rs]).

    [Connection] has the correlation map and the state of a connection: its callers,
    each at one of the awaits of [send_until], the channel to the writer, the writer,
    reader and re-authentication tasks, the in-flight semaphore and the socket as
    the frames that went through it.  [act] is one thing that happens: a step of a
    caller, a step of a task, or what the broker, the clock or the user does. *)

From S2P Require Import Prelude Sanitize Text ErrorCodes ApiKeys Scram Sasl Tls BatchDecode Rpc.

(** What a connection is told before it opens a socket. *)
Module ConnectionConfig.

Record ConnectionConfig : Type := {
  client_id : option string;
  client_software_name : string;
  client_software_version : string;
  connect_timeout : Z;
  request_timeout : Z;
  max_in_flight : nat;
  max_frame_bytes : Z;
  gate : Gate.ConnectionConfig;
  tls : option Tls.TlsConfig;
  sasl : option Sasl.SaslConfig;
}.

(** [Default]; the version is the crate's own. *)
Definition default (crate_version : string) : ConnectionConfig := {|
  client_id := Some "kaas-lib"%string;
  client_software_name := "kaas-lib";
  client_software_version := crate_version;
  connect_timeout := 10 * 1000000000;
  request_timeout := 30 * 1000000000;
  max_in_flight := 5;
  max_frame_bytes := Codec.DEFAULT_MAX_FRAME_BYTES;
  gate := {| Gate.read_only := false; Gate.allowed_mutations := None |};
  tls := None;
  sasl := None |}.

Definition with_max_in_flight (self : ConnectionConfig) (count : nat) : ConnectionConfig := {|
  client_id := client_id self; client_software_name := client_software_name self;
  client_software_version := client_software_version self;
  connect_timeout := connect_timeout self; request_timeout := request_timeout self;
  max_in_flight := Nat.max count 1; max_frame_bytes := max_frame_bytes self;
  gate := gate self; tls := tls self; sasl := sasl self |}.

(** The builder methods that set one field. *)
Definition with_client_id (self : ConnectionConfig) (id_ : string) : ConnectionConfig := {|
  client_id := Some id_; client_software_name := client_software_name self;
  client_software_version := client_software_version self; connect_timeout := connect_timeout self;
  request_timeout := request_timeout self; max_in_flight := max_in_flight self;
  max_frame_bytes := max_frame_bytes self; gate := gate self; tls := tls self; sasl := sasl self |}.
Definition with_request_timeout (self : ConnectionConfig) (timeout : Z) : ConnectionConfig := {|
  client_id := client_id self; client_software_name := client_software_name self;
  client_software_version := client_software_version self; connect_timeout := connect_timeout self;
  request_timeout := timeout; max_in_flight := max_in_flight self;
  max_frame_bytes := max_frame_bytes self; gate := gate self; tls := tls self; sasl := sasl self |}.
Definition with_connect_timeout (self : ConnectionConfig) (timeout : Z) : ConnectionConfig := {|
  client_id := client_id self; client_software_name := client_software_name self;
  client_software_version := client_software_version self; connect_timeout := timeout;
  request_timeout := request_timeout self; max_in_flight := max_in_flight self;
  max_frame_bytes := max_frame_bytes self; gate := gate self; tls := tls self; sasl := sasl self |}.
Definition with_client_software_name (self : ConnectionConfig) (name : string) : ConnectionConfig := {|
  client_id := client_id self; client_software_name := name;
  client_software_version := client_software_version self; connect_timeout := connect_timeout self;
  request_timeout := request_timeout self; max_in_flight := max_in_flight self;
  max_frame_bytes := max_frame_bytes self; gate := gate self; tls := tls self; sasl := sasl self |}.
Definition with_client_software_version (self : ConnectionConfig) (version : string) : ConnectionConfig := {|
  client_id := client_id self; client_software_name := client_software_name self;
  client_software_version := version; connect_timeout := connect_timeout self;
  request_timeout := request_timeout self; max_in_flight := max_in_flight self;
  max_frame_bytes := max_frame_bytes self; gate := gate self; tls := tls self; sasl := sasl self |}.
Definition with_max_frame_bytes (self : ConnectionConfig) (count : Z) : ConnectionConfig := {|
  client_id := client_id self; client_software_name := client_software_name self;
  client_software_version := client_software_version self; connect_timeout := connect_timeout self;
  request_timeout := request_timeout self; max_in_flight := max_in_flight self;
  max_frame_bytes := count; gate := gate self; tls := tls self; sasl := sasl self |}.
Definition with_tls (self : ConnectionConfig) (config : Tls.TlsConfig) : ConnectionConfig := {|
  client_id := client_id self; client_software_name := client_software_name self;
  client_software_version := client_software_version self; connect_timeout := connect_timeout self;
  request_timeout := request_timeout self; max_in_flight := max_in_flight self;
  max_frame_bytes := max_frame_bytes self; gate := gate self; tls := Some config;
  sasl := sasl self |}.
Definition with_sasl (self : ConnectionConfig) (config : Sasl.SaslConfig) : ConnectionConfig := {|
  client_id := client_id self; client_software_name := client_software_name self;
  client_software_version := client_software_version self; connect_timeout := connect_timeout self;
  request_timeout := request_timeout self; max_in_flight := max_in_flight self;
  max_frame_bytes := max_frame_bytes self; gate := gate self; tls := tls self;
  sasl := Some config |}.

Definition permits (self : ConnectionConfig) (api_key : ApiKey.ApiKey) : bool :=
  Gate.permits (gate self) api_key.

End ConnectionConfig.

(** The waiters by correlation id, or [None] once the connection is dead; a waiter is the
    caller that holds the receiving end. *)
Module Pending.

Definition Pending : Type := option (gmap Z nat).

Definition new : Pending := Some ∅.

(** Register a waiter, or report the connection dead. *)
Definition register (self : Pending) (id : Z) (waiter : nat) (peer : string)
    : result Pending Error.Error :=
  match self with
  | Some map => Ok (Some (<[id := waiter]> map))
  | None => Err (Error.ConnectionClosed peer)
  end.

Definition take (self : Pending) (id : Z) : option nat * Pending :=
  match self with
  | Some map => (map !! id, Some (delete id map))
  | None => (None, None)
  end.

(** Mark dead: the waiters that were there, and nothing. *)
Definition close (self : Pending) : list nat * Pending :=
  match self with
  | Some map => (snd <$> map_to_list map, None)
  | None => ([], None)
  end.

Definition is_closed (self : Pending) : bool :=
  match self with Some _ => false | None => true end.

End Pending.

Module Connection.
Import Rpc Codec Error.

(** Who makes a request: a user of the connection, or the [n]-th
    re-authentication. *)
Inductive Kind : Type := Ordinary | Reauth (session : nat).

#[export] Instance Kind_eq_dec : EqDecision Kind.
Proof. solve_decision. Defined.

(** A writer: waiting for a frame, writing one, out of its loop, or ended. *)
Inductive Writer : Type := Idle | Writing (caller : nat) (frame : bytes) | Stopped | Gone.

(** A reader: in its loop, out of it, or ended. *)
Inductive Reader : Type := Reading | ReaderStopped | ReaderGone.

(** The re-authentication task: none, asleep before its [n]-th exchange, waiting for
    the gate, holding it, or ended. *)
Inductive ReauthTask : Type :=
  | NoReauth | Sleeping (n : nat) | AwaitingGate (n : nat) | Exchanging (n : nat) | ReauthEnded.

#[export] Instance ReauthTask_eq_dec : EqDecision ReauthTask.
Proof. solve_decision. Defined.

Section connection.
Context `{Messages} {R : Type}.

(** Where a call of [send_until] is: at the re-authentication gate, about to run
    [send_inner], waiting for a permit, about to register, waiting for room in the
    channel, about to unregister as the writer is gone, waiting for its answer, about to
    unregister as its deadline passed, returned (with the frame it was answered
    with), or dropped. *)
Inductive Stage : Type :=
  | AtGate
  | Starting
  | AtPermit (version id : Z) (frame : bytes)
  | Registering (version id : Z) (frame : bytes)
  | Queueing (version id : Z) (frame : bytes)
  | Unqueued (id : Z)
  | Waiting (version id : Z)
  | Expired (id elapsed : Z)
  | Finished (id : option Z) (outcome : result R Error) (reply : option bytes)
  | Dropped (id : option Z).

Record Caller : Type := { kind : Kind; call : Call R; stage : Stage }.

Definition at_stage (caller : Caller) (stage : Stage) : Caller :=
  {| kind := kind caller; call := call caller; stage := stage |}.

(** The correlation id a call was given. *)
Definition id_of (stage : Stage) : option Z :=
  match stage with
  | AtGate | Starting => None
  | AtPermit _ id _ | Registering _ id _ | Queueing _ id _ | Waiting _ id
  | Unqueued id | Expired id _ => Some id
  | Finished id _ _ | Dropped id => id
  end.

(** Whether a call holds the read side of the gate, and an in-flight permit. *)
Definition is_live (stage : Stage) : bool :=
  match stage with Finished _ _ _ | Dropped _ => false | _ => true end.
Definition holds_gate (caller : Caller) : bool :=
  bool_decide (kind caller = Ordinary)
  && match stage caller with AtGate => false | stage => is_live stage end.
Definition holds_permit (stage : Stage) : bool :=
  match stage with
  | Registering _ _ _ | Queueing _ _ _ | Unqueued _ | Waiting _ _ => true
  | _ => false
  end.

(** [Inner], its tasks and its socket.  [mail] is what was sent to each waiter, [wire] what
    was written and by whom, [received] what was read, [issued] the callers in the order
    they were given correlation ids. *)
Record Connection : Type := {
  correlation : Z;
  pending : Pending.Pending;
  inflight : nat;
  commands : list (nat * bytes);
  callers : list Caller;
  mail : gmap nat (result bytes Error);
  wire : list (nat * bytes);
  received : list bytes;
  issued : list nat;
  writer : Writer;
  reader : Reader;
  shutdown : bool;
  reauth : ReauthTask;
  handles : nat;
  stats : Stats.ConnectionStats;
}.

Context (config : ConnectionConfig.ConnectionConfig) (peer : string)
        (versions : Versions.ApiVersions).

(** [spawn], with [spawn_reauth] when the session has an end. *)
Definition spawn (counters : Stats.ConnectionStats) (session_ends : bool) : Connection := {|
  correlation := 1;
  pending := Pending.new;
  inflight := ConnectionConfig.max_in_flight config;
  commands := []; callers := []; mail := ∅; wire := []; received := []; issued := [];
  writer := Idle; reader := Reading; shutdown := false;
  reauth := if session_ends then Sleeping 0 else NoReauth;
  handles := 1;
  stats := counters |}.

(** Field updates. *)
Definition set_caller (s : Connection) (c : nat) (caller : Caller) : Connection := {|
  correlation := correlation s; pending := pending s; inflight := inflight s;
  commands := commands s; callers := <[c := caller]> (callers s); mail := mail s;
  wire := wire s; received := received s; issued := issued s; writer := writer s;
  reader := reader s; shutdown := shutdown s; reauth := reauth s; handles := handles s;
  stats := stats s |}.

Definition set_pending (s : Connection) (p : Pending.Pending) : Connection := {|
  correlation := correlation s; pending := p; inflight := inflight s;
  commands := commands s; callers := callers s; mail := mail s;
  wire := wire s; received := received s; issued := issued s; writer := writer s;
  reader := reader s; shutdown := shutdown s; reauth := reauth s; handles := handles s;
  stats := stats s |}.

Definition set_inflight (s : Connection) (n : nat) : Connection := {|
  correlation := correlation s; pending := pending s; inflight := n;
  commands := commands s; callers := callers s; mail := mail s;
  wire := wire s; received := received s; issued := issued s; writer := writer s;
  reader := reader s; shutdown := shutdown s; reauth := reauth s; handles := handles s;
  stats := stats s |}.

Definition set_tasks (s : Connection) (w : Writer) (r : Reader) (down : bool) (a : ReauthTask)
    (h : nat) : Connection := {|
  correlation := correlation s; pending := pending s; inflight := inflight s;
  commands := commands s; callers := callers s; mail := mail s;
  wire := wire s; received := received s; issued := issued s; writer := w;
  reader := r; shutdown := down; reauth := a; handles := h; stats := stats s |}.

Definition set_writer (s : Connection) (w : Writer) : Connection :=
  set_tasks s w (reader s) (shutdown s) (reauth s) (handles s).
Definition set_reader (s : Connection) (r : Reader) : Connection :=
  set_tasks s (writer s) r (shutdown s) (reauth s) (handles s).

(** Send a result to waiters. *)
Definition resolve (s : Connection) (waiters : list nat) (r : result bytes Error) : Connection := {|
  correlation := correlation s; pending := pending s; inflight := inflight s;
  commands := commands s; callers := callers s;
  mail := foldr (fun c m => <[c := r]> m) (mail s) waiters;
  wire := wire s; received := received s; issued := issued s; writer := writer s;
  reader := reader s; shutdown := shutdown s; reauth := reauth s; handles := handles s;
  stats := stats s |}.

(** [Pending::close]: every waiter is told the connection is closed. *)
Definition close_pending (s : Connection) : Connection :=
  let '(waiters, p) := Pending.close (pending s) in
  resolve (set_pending s p) waiters (Err (ConnectionClosed peer)).

(** A call leaves [send_until]: its permit goes back if it holds one. *)
Definition leave (s : Connection) (c : nat) (caller : Caller) (next : Stage) : Connection :=
  let s' := set_caller s c (at_stage caller next) in
  if holds_permit (stage caller) then set_inflight s' (S (inflight s)) else s'.

(** A new call, at its first stage. *)
Definition push_caller (s : Connection) (caller : Caller) : Connection := {|
  correlation := correlation s; pending := pending s; inflight := inflight s;
  commands := commands s; callers := callers s ++ [caller]; mail := mail s;
  wire := wire s; received := received s; issued := issued s; writer := writer s;
  reader := reader s; shutdown := shutdown s; reauth := reauth s; handles := handles s;
  stats := stats s |}.

(** The next correlation id is handed to a call. *)
Definition issue (s : Connection) (c : nat) : Connection := {|
  correlation := i32_wrapping_add (correlation s) 1; pending := pending s;
  inflight := inflight s; commands := commands s; callers := callers s; mail := mail s;
  wire := wire s; received := received s; issued := issued s ++ [c]; writer := writer s;
  reader := reader s; shutdown := shutdown s; reauth := reauth s; handles := handles s;
  stats := stats s |}.

Definition set_commands (s : Connection) (q : list (nat * bytes)) : Connection := {|
  correlation := correlation s; pending := pending s; inflight := inflight s;
  commands := q; callers := callers s; mail := mail s;
  wire := wire s; received := received s; issued := issued s; writer := writer s;
  reader := reader s; shutdown := shutdown s; reauth := reauth s; handles := handles s;
  stats := stats s |}.

(** A frame is on the socket, counted with its prefix. *)
Definition put_on_wire (s : Connection) (c : nat) (frame : bytes) : Connection := {|
  correlation := correlation s; pending := pending s; inflight := inflight s;
  commands := commands s; callers := callers s; mail := mail s;
  wire := wire s ++ [(c, frame)]; received := received s; issued := issued s;
  writer := writer s; reader := reader s; shutdown := shutdown s; reauth := reauth s;
  handles := handles s;
  stats := Stats.record_sent (stats s) (Z.of_nat (length frame) + 4) |}.

Definition take_off_wire (s : Connection) (frame : bytes) : Connection := {|
  correlation := correlation s; pending := pending s; inflight := inflight s;
  commands := commands s; callers := callers s; mail := mail s;
  wire := wire s; received := received s ++ [frame]; issued := issued s;
  writer := writer s; reader := reader s; shutdown := shutdown s; reauth := reauth s;
  handles := handles s;
  stats := Stats.record_received (stats s) (Z.of_nat (length frame) + 4) |}.

(** *** A caller's steps *)

(** [send_inner] and [round_trip] up to their first await: the gate on mutations, the
    version, the correlation id, the frame. *)
Definition begin_send (s : Connection) (c : nat) (caller : Caller) : Connection :=
  let api_key := API_KEY (call_rpc (call caller)) in
  if negb (ConnectionConfig.permits config api_key) then
    leave s c caller (Finished None (Err (ReadOnly (ApiKey.code api_key))) None)
  else
    match version_for versions (call_rpc (call caller)) with
    | Err e => leave s c caller (Finished None (Err e) None)
    | Ok version =>
        let id := Z.land (correlation s) I32_MAX in
        let s := issue s c in
        match encode_request api_key version id (ConnectionConfig.client_id config) (call caller) with
        | Err e => leave s c caller (Finished (Some id) (Err e) None)
        | Ok frame => leave s c caller (AtPermit version id frame)
        end
    end.

Definition closed_error : Error := ConnectionClosed peer.

(** The deadline passed at an await of the call. *)
Definition timeout (caller : Caller) (elapsed : Z) : Error :=
  Timeout (ApiKey.code (API_KEY (call_rpc (call caller)))) elapsed.

(** The sending end of the call's channel is gone: no waiter and nothing sent. *)
Definition sender_dropped (s : Connection) (c : nat) : bool :=
  match pending s with
  | None => true
  | Some map => bool_decide (Forall (fun entry => entry.2 <> c) (map_to_list map))
  end.

(** The answer of the call arrived, or its sender was dropped. *)
Definition receive (s : Connection) (c : nat) (caller : Caller) (version id : Z) : option Connection :=
  match mail s !! c with
  | Some (Ok frame) =>
      Some (leave s c caller
              (Finished (Some id)
                 (decode_response (API_KEY (call_rpc (call caller))) version (call caller) frame)
                 (Some frame)))
  | Some (Err e) => Some (leave s c caller (Finished (Some id) (Err e) None))
  | None =>
      if sender_dropped s c
      then Some (leave s c caller (Finished (Some id) (Err closed_error) None))
      else None
  end.

(** The next step of a call that needs nobody else's time to pass: [None] while it
    waits. *)
Definition caller_step (s : Connection) (c : nat) (caller : Caller) : option Connection :=
  match stage caller with
  | AtGate =>
      match reauth s with
      | Exchanging _ => None
      | _ => Some (set_caller s c (at_stage caller Starting))
      end
  | Starting => Some (begin_send s c caller)
  | AtPermit version id frame =>
      match inflight s with
      | O => None
      | S n => Some (set_inflight (set_caller s c (at_stage caller (Registering version id frame))) n)
      end
  | Registering version id frame =>
      match Pending.register (pending s) id c peer with
      | Ok p => Some (set_pending (set_caller s c (at_stage caller (Queueing version id frame))) p)
      | Err e => Some (leave s c caller (Finished (Some id) (Err e) None))
      end
  | Queueing version id frame =>
      match writer s with
      | Gone => Some (set_caller s c (at_stage caller (Unqueued id)))
      | _ =>
          if (length (commands s) <? ConnectionConfig.max_in_flight config)%nat
          then Some (set_commands (set_caller s c (at_stage caller (Waiting version id)))
                       (commands s ++ [(c, frame)]))
          else None
      end
  | Unqueued id =>
      Some (leave (set_pending s (Pending.take (pending s) id).2) c caller
              (Finished (Some id) (Err closed_error) None))
  | Waiting version id => receive s c caller version id
  | Expired id elapsed =>
      Some (set_caller (set_pending s (Pending.take (pending s) id).2) c
              (at_stage caller (Finished (Some id) (Err (timeout caller elapsed)) None)))
  | Finished _ _ _ | Dropped _ => None
  end.

(** The deadline of a call passes, where it has one: while it waits for a permit, or for
    its answer, whose permit it gives back. *)
Definition deadline_step (s : Connection) (c : nat) (caller : Caller) (elapsed : Z)
    : option Connection :=
  match stage caller with
  | AtPermit _ id _ => Some (leave s c caller (Finished (Some id) (Err (timeout caller elapsed)) None))
  | Waiting _ id =>
      match mail s !! c with
      | None => Some (leave s c caller (Expired id elapsed))
      | Some _ => None
      end
  | _ => None
  end.

(** The user drops the future at one of its awaits. *)
Definition drop_step (s : Connection) (c : nat) (caller : Caller) : option Connection :=
  match kind caller, stage caller with
  | Ordinary, AtGate | Ordinary, AtPermit _ _ _
  | Ordinary, Queueing _ _ _ | Ordinary, Waiting _ _ =>
      Some (leave s c caller (Dropped (id_of (stage caller))))
  | _, _ => None
  end.

(** *** The tasks *)

(** The writer takes a frame, has written it, fails to, or leaves its loop. *)
Definition writer_takes (s : Connection) : option Connection :=
  match writer s, commands s with
  | Idle, (c, frame) :: rest => Some (set_writer (set_commands s rest) (Writing c frame))
  | _, _ => None
  end.

Definition writer_writes (s : Connection) : option Connection :=
  match writer s with
  | Writing c frame => Some (set_writer (put_on_wire s c frame) Idle)
  | _ => None
  end.

Definition writer_fails (s : Connection) : option Connection :=
  match writer s with Writing _ _ => Some (set_writer s Stopped) | _ => None end.

Definition writer_stops (s : Connection) : option Connection :=
  match writer s with
  | Idle => if shutdown s then Some (set_writer s Stopped) else None
  | _ => None
  end.

(** It closes the map, and its end of the channel. *)
Definition writer_ends (s : Connection) : option Connection :=
  match writer s with
  | Stopped => Some (set_writer (set_commands (close_pending s) []) Gone)
  | _ => None
  end.

(** The reader has a frame: the waiter of its correlation id is handed it; a frame too
    short to have one ends the loop. *)
Definition reader_reads (s : Connection) (frame : bytes) : option Connection :=
  match reader s with
  | Reading =>
      let s := take_off_wire s frame in
      Some
        match peek_correlation_id frame with
        | Ok id =>
            let '(waiter, p) := Pending.take (pending s) id in
            match waiter with
            | Some c => resolve (set_pending s p) [c] (Ok frame)
            | None => set_pending s p
            end
        | Err _ => set_reader s ReaderStopped
        end
  | _ => None
  end.

(** The socket ended or failed, or the connection shuts down. *)
Definition reader_stops (s : Connection) : option Connection :=
  match reader s with Reading => Some (set_reader s ReaderStopped) | _ => None end.

Definition reader_ends (s : Connection) : option Connection :=
  match reader s with
  | ReaderStopped => Some (set_reader (close_pending s) ReaderGone)
  | _ => None
  end.

(** [Connection::close]. *)
Definition close (s : Connection) : Connection :=
  close_pending (set_tasks s (writer s) (reader s) true (reauth s) (handles s)).

(** Whether the re-authentication task holds a clone of the connection. *)
Definition reauth_alive (s : Connection) : bool :=
  match reauth s with NoReauth | ReauthEnded => false | _ => true end.

(** [Drop for Inner], once no handle and no task holds it. *)
Definition drop_inner (s : Connection) : Connection :=
  if (handles s =? 0)%nat && negb (reauth_alive s)
  then set_tasks s (writer s) (reader s) true (reauth s) (handles s)
  else s.

Definition set_reauth (s : Connection) (a : ReauthTask) : Connection :=
  set_tasks s (writer s) (reader s) (shutdown s) a (handles s).

(** A call of a user, or of the running exchange. *)
Definition live_call_of (k : Kind) (s : Connection) : bool :=
  existsb (fun caller => bool_decide (kind caller = k) && is_live (stage caller)) (callers s).

(** The re-authentication task: its timer fires, it has the gate, it makes a request, the
    exchange succeeds (with another one due or not) or fails, or it sees the
    shutdown. *)
Definition reauth_wakes (s : Connection) : option Connection :=
  match reauth s with Sleeping n => Some (set_reauth s (AwaitingGate n)) | _ => None end.

Definition reauth_enters (s : Connection) : option Connection :=
  match reauth s with
  | AwaitingGate n =>
      if existsb holds_gate (callers s) then None else Some (set_reauth s (Exchanging n))
  | _ => None
  end.

Definition reauth_calls (s : Connection) (request : Call R) : option Connection :=
  match reauth s with
  | Exchanging n =>
      if live_call_of (Reauth n) s then None
      else match API_KEY (call_rpc request) with
           | ApiKey.SaslHandshake | ApiKey.SaslAuthenticate =>
               Some (push_caller s {| kind := Reauth n; call := request; stage := Starting |})
           | _ => None
           end
  | _ => None
  end.

Definition reauth_succeeds (s : Connection) (again : bool) : option Connection :=
  match reauth s with
  | Exchanging n =>
      if live_call_of (Reauth n) s then None
      else if again then Some (set_reauth s (Sleeping (S n)))
      else Some (drop_inner (set_reauth s ReauthEnded))
  | _ => None
  end.

Definition reauth_fails (s : Connection) : option Connection :=
  match reauth s with
  | Exchanging n =>
      if live_call_of (Reauth n) s then None
      else Some (drop_inner (set_reauth (close s) ReauthEnded))
  | _ => None
  end.

Definition reauth_stops (s : Connection) : option Connection :=
  match reauth s with
  | Sleeping n => if shutdown s then Some (drop_inner (set_reauth s ReauthEnded)) else None
  | _ => None
  end.

(** *** What happens *)

Inductive Action : Type :=
  | Send (request : Call R)
  | Step (c : nat)
  | Deadline (c : nat) (elapsed : Z)
  | Drop (c : nat)
  | WriterTakes | WriterWrites | WriterFails | WriterStops | WriterEnds
  | ReaderReads (frame : bytes) | ReaderStops | ReaderEnds
  | Close | Clone | DropHandle
  | ReauthWakes | ReauthEnters | ReauthCalls (request : Call R)
  | ReauthSucceeds (again : bool) | ReauthFails | ReauthStops.

Definition with_caller (s : Connection) (c : nat) (f : Caller -> option Connection)
    : option Connection :=
  match callers s !! c with Some caller => f caller | None => None end.

Definition act (a : Action) (s : Connection) : option Connection :=
  match a with
  | Send request =>
      if (handles s =? 0)%nat then None
      else Some (push_caller s {| kind := Ordinary; call := request; stage := AtGate |})
  | Step c => with_caller s c (caller_step s c)
  | Deadline c elapsed => with_caller s c (fun caller => deadline_step s c caller elapsed)
  | Drop c => with_caller s c (drop_step s c)
  | WriterTakes => writer_takes s
  | WriterWrites => writer_writes s
  | WriterFails => writer_fails s
  | WriterStops => writer_stops s
  | WriterEnds => writer_ends s
  | ReaderReads frame => reader_reads s frame
  | ReaderStops => reader_stops s
  | ReaderEnds => reader_ends s
  | Close => if (handles s =? 0)%nat then None else Some (close s)
  | Clone =>
      if (handles s =? 0)%nat then None
      else Some (set_tasks s (writer s) (reader s) (shutdown s) (reauth s) (S (handles s)))
  | DropHandle =>
      match handles s with
      | O => None
      | S n =>
          if (n =? 0)%nat && live_call_of Ordinary s then None
          else Some (drop_inner (set_tasks s (writer s) (reader s) (shutdown s) (reauth s) n))
      end
  | ReauthWakes => reauth_wakes s
  | ReauthEnters => reauth_enters s
  | ReauthCalls request => reauth_calls s request
  | ReauthSucceeds again => reauth_succeeds s again
  | ReauthFails => reauth_fails s
  | ReauthStops => reauth_stops s
  end.

(** A run of actions, each of which must be possible. *)
Fixpoint run (actions : list Action) (s : Connection) : option Connection :=
  match actions with
  | [] => Some s
  | a :: actions => match act a s with Some s => run actions s | None => None end
  end.

Definition step (s s' : Connection) : Prop := exists a, act a s = Some s'.

Definition reachable (s : Connection) : Prop :=
  exists counters session_ends, rtc step (spawn counters session_ends) s.

(** [Connection::is_closed]. *)
Definition is_closed (s : Connection) : bool :=
  Pending.is_closed (pending s) || match writer s with Gone => true | _ => false end.

End connection.

End Connection.
