(* ===== verification/Connect.v ===== *)
(** Opening a connection: TLS, then [ApiVersions], then SASL, and the same SASL exchange on
    a live connection ([connect_as], [open], [RawConn] and [ReauthTransport] of
    [crates/kafka-conn/src/conn.rs]). *)

From S2P Require Import Prelude Sanitize Text ErrorCodes ApiKeys Scram Sasl Tls BatchDecode Rpc Connection.

(** ** Addresses *)

Module Address.

(** [str::split_once] and [rsplit_once] at a character. *)
Fixpoint split_once (sep : Z) (s : text) : option (text * text) :=
  match s with
  | [] => None
  | c :: rest =>
      if c =? sep then Some ([], rest)
      else match split_once sep rest with
           | Some (before, after) => Some (c :: before, after)
           | None => None
           end
  end.

Definition rsplit_once (sep : Z) (s : text) : option (text * text) :=
  match split_once sep (rev s) with
  | Some (after, before) => Some (rev before, rev after)
  | None => None
  end.

Definition count (c : Z) (s : text) : nat := length (List.filter (Z.eqb c) s).

(** The host half of a [host:port] address, IPv6 literals included: [91], [93] and [58]
    are the brackets and the colon. *)
Definition host_of (addr : text) : text :=
  let bare :=
    if (1 <? count 58 addr)%nat then addr
    else match rsplit_once 58 addr with Some (host, _) => host | None => addr end in
  match addr with
  | 91 :: rest =>
      match split_once 93 rest with
      | Some (host, _) => host
      | None => bare
      end
  | _ => bare
  end.

End Address.

(** ** The handshake *)

Module Connect.
Import Rpc Codec Error Versions Sasl.

(** What an operation on a socket ends with: a value, an error (with the TLS alert it
    carries, if it does), or nothing in time. *)
Inductive Io (A : Type) : Type :=
  | Done (a : A)
  | Failed (e : IoError) (alert : option Tls.AlertDescription)
  | Late (elapsed : Z).
#[global] Arguments Done {A} _.
#[global] Arguments Failed {A} _ _.
#[global] Arguments Late {A} _.

(** The messages of the handshake. *)
Record ApiVersionsRequest : Type := {
  client_software_name : string;
  client_software_version : string;
}.
Record ApiVersionsResponse : Type := {
  versions_error_code : Z;
  api_keys : list (Z * Z * Z);
}.
Record SaslHandshakeResponse : Type := {
  handshake_error_code : Z;
  mechanisms : list text;
}.
Record SaslAuthenticateResponse : Type := {
  authenticate_error_code : Z;
  error_message : option text;
  response_auth_bytes : bytes;
  response_session_lifetime_ms : Z;
}.

(** Their codecs. *)
Class HandshakeMessages : Type := {
  encode_ApiVersionsRequest : ApiVersionsRequest -> Z -> result bytes Error.Source;
  decode_ApiVersionsResponse : bytes -> Z -> result ApiVersionsResponse Error.Source;
  encode_SaslHandshakeRequest : text -> Z -> result bytes Error.Source;
  decode_SaslHandshakeResponse : bytes -> Z -> result SaslHandshakeResponse Error.Source;
  encode_SaslAuthenticateRequest : bytes -> Z -> result bytes Error.Source;
  decode_SaslAuthenticateResponse : bytes -> Z -> result SaslAuthenticateResponse Error.Source;
}.

(** The [Default] of the generated request. *)
Definition default_versions_request : ApiVersionsRequest :=
  {| client_software_name := ""; client_software_version := "" |}.

(** What the socket does for one round trip: what the send ends with, and the read. *)
Record Turn : Type := { sending : Io unit; reading : Io (option bytes) }.

(** A request/response pair over the bare framed stream, used before the actor exists.
    [sent] is what was handed to the socket, with its key and version. *)
Record RawConn : Type := {
  config : ConnectionConfig.ConnectionConfig;
  stats : Stats.ConnectionStats;
  correlation : Z;
  versions : ApiVersions;
  peer : string;
  sent : list (ApiKey.ApiKey * Z * bytes);
  turns : list Turn;
}.

(** A broker with nothing left to say has gone away. *)
Definition next_turn (raw : RawConn) : Turn :=
  match turns raw with
  | turn :: _ => turn
  | [] => {| sending := Done tt; reading := Done None |}
  end.

Definition set_raw (raw : RawConn) (s : Stats.ConnectionStats) (c : Z)
    (out : list (ApiKey.ApiKey * Z * bytes)) : RawConn := {|
  config := config raw; stats := s; correlation := c; versions := versions raw;
  peer := peer raw; sent := out; turns := tl (turns raw) |}.

Definition set_versions (raw : RawConn) (v : ApiVersions) : RawConn := {|
  config := config raw; stats := stats raw; correlation := correlation raw; versions := v;
  peer := peer raw; sent := sent raw; turns := turns raw |}.

Definition UNSUPPORTED_VERSION : Z := 35.

Section connect.
Context `{Messages, HandshakeMessages, Schemas, KafkaProtocol}.

Definition has_client_certificate (c : ConnectionConfig.ConnectionConfig) : bool :=
  match ConnectionConfig.tls c with
  | Some tls => match Tls.client_certificate tls with Some _ => true | None => false end
  | None => false
  end.

Definition api_versions_call (request : ApiVersionsRequest) : Call ApiVersionsResponse := {|
  call_rpc := rpc "ApiVersionsRequest" ApiKey.ApiVersions "ApiVersionsResponse";
  encode_body := encode_ApiVersionsRequest request;
  decode_body := decode_ApiVersionsResponse |}.

Definition sasl_handshake_call (mechanism : text) : Call SaslHandshakeResponse := {|
  call_rpc := rpc "SaslHandshakeRequest" ApiKey.SaslHandshake "SaslHandshakeResponse";
  encode_body := encode_SaslHandshakeRequest mechanism;
  decode_body := decode_SaslHandshakeResponse |}.

Definition sasl_authenticate_call (token : bytes) : Call SaslAuthenticateResponse := {|
  call_rpc := rpc "SaslAuthenticateRequest" ApiKey.SaslAuthenticate "SaslAuthenticateResponse";
  encode_body := encode_SaslAuthenticateRequest token;
  decode_body := decode_SaslAuthenticateResponse |}.

(** One request, one response frame. *)
Definition round_trip {R} (api_key : ApiKey.ApiKey) (version : Z) (request : Call R) (raw : RawConn)
    : result bytes Error * RawConn :=
  let id := Z.land (i32_wrapping_add (correlation raw) 1) I32_MAX in
  match encode_request api_key version id (ConnectionConfig.client_id (config raw)) request with
  | Err e => (Err e, {| config := config raw; stats := stats raw; correlation := id;
                        versions := versions raw; peer := peer raw; sent := sent raw;
                        turns := turns raw |})
  | Ok frame =>
      let turn := next_turn raw in
      let out := sent raw ++ [(api_key, version, frame)] in
      match sending turn with
      | Late elapsed => (Err (Timeout (ApiKey.code api_key) elapsed), set_raw raw (stats raw) id out)
      | Failed e _ =>
          (Err (Transport "sending handshake request" e), set_raw raw (stats raw) id out)
      | Done _ =>
          let counted := Stats.record_sent (stats raw) (Z.of_nat (length frame) + 4) in
          match reading turn with
          | Late elapsed => (Err (Timeout (ApiKey.code api_key) elapsed), set_raw raw counted id out)
          | Failed e alert =>
              (Err (Tls.handshake_error "reading handshake response" e alert
                      (has_client_certificate (config raw))),
               set_raw raw counted id out)
          | Done None => (Err (ConnectionClosed (peer raw)), set_raw raw counted id out)
          | Done (Some answer) =>
              let counted := Stats.record_received counted (Z.of_nat (length answer) + 4) in
              (match peek_correlation_id answer with
               | Err e => Err e
               | Ok got =>
                   if got =? id then Ok answer
                   else Err (Decode "handshake response correlation id"
                               (io_source ("expected " +:+ pretty id +:+ ", got " +:+ pretty got)))
               end, set_raw raw counted id out)
          end
      end
  end.

(** [?] on a result, and on a round trip. *)
Definition lift {A B S} (r : result A Error) (t : S) (k : A -> result B Error * S) : result B Error * S :=
  match r with Ok a => k a | Err e => (Err e, t) end.

(** One request, one decoded response. *)
Definition call {R} (api_key : ApiKey.ApiKey) (request : Call R) (raw : RawConn)
    : result R Error * RawConn :=
  lift (version_for (versions raw) (call_rpc request)) raw (fun version =>
    then_ (round_trip api_key version request raw) (fun frame raw =>
      (decode_response api_key version request frame, raw))).

(** The [ApiVersions] bootstrap: at our maximum, and again at v0 when the broker does not
    know it. *)
Definition negotiate_versions (raw : RawConn) : result ApiVersions Error * RawConn :=
  match our_range ApiKey.ApiVersions with
  | None => (Err (Unsupported "this build cannot encode ApiVersions"), raw)
  | Some range =>
      let our_max := max range in
      let request := {|
        client_software_name := ConnectionConfig.client_software_name (config raw);
        client_software_version := ConnectionConfig.client_software_version (config raw) |} in
      then_ (round_trip ApiKey.ApiVersions our_max (api_versions_call request) raw) (fun frame raw =>
      lift (split_response_body ApiKey.ApiVersions our_max frame) raw (fun body =>
      lift (peek_error_code body) raw (fun error_code =>
      then_
        (if error_code =? UNSUPPORTED_VERSION then
           then_ (round_trip ApiKey.ApiVersions 0 (api_versions_call default_versions_request) raw)
             (fun frame raw =>
           lift (split_response_body ApiKey.ApiVersions 0 frame) raw (fun body =>
             (decoding "decoding ApiVersions v0" (decode_ApiVersionsResponse body 0), raw)))
         else (decoding "decoding ApiVersions" (decode_ApiVersionsResponse body our_max), raw))
        (fun response raw =>
           match ErrorCode.from_code (versions_error_code response) with
           | Some code => (Err (Error.from_code code None), raw)
           | None => (Ok (from_triples (api_keys response)), raw)
           end))))
  end.

(** What an authentication response means. *)
Definition auth_outcome (error_code : Z) (message : option text) (auth_bytes : bytes)
    (session_lifetime_ms : Z) : result AuthOutcome Error :=
  match ErrorCode.from_code error_code with
  | Some code => Err (Error.from_code code message)
  | None => Ok {| Sasl.auth_bytes := auth_bytes; Sasl.session_lifetime_ms := session_lifetime_ms |}
  end.

Definition outcome_of (response : SaslAuthenticateResponse) : result AuthOutcome Error :=
  auth_outcome (authenticate_error_code response) (error_message response)
    (response_auth_bytes response) (response_session_lifetime_ms response).

Definition raw_handshake (mechanism : text) (raw : RawConn) : result (list text) Error * RawConn :=
  let request := sasl_handshake_call mechanism in
  lift (version_for (versions raw) (call_rpc request)) raw (fun version =>
    if version <? 1 then
      (Err (Unsupported "broker only offers SaslHandshake v0, which uses raw token framing"), raw)
    else
      then_ (round_trip ApiKey.SaslHandshake version request raw) (fun frame raw =>
      lift (decode_response ApiKey.SaslHandshake version request frame) raw (fun response =>
        (match ErrorCode.from_code (handshake_error_code response) with
         | Some code =>
             Err (Authentication
               (text_of_string "broker rejected mechanism " ++ mechanism ++ text_of_string " ("
                ++ display_code code ++ text_of_string "); it enables ["
                ++ Str.join (text_of_string ", ") (mechanisms response) ++ text_of_string "]"))
         | None => Ok (mechanisms response)
         end, raw)))).

Definition raw_authenticate (token : bytes) (raw : RawConn) : result AuthOutcome Error * RawConn :=
  then_ (call ApiKey.SaslAuthenticate (sasl_authenticate_call token) raw) (fun response raw =>
    (outcome_of response, raw)).

#[export] Instance raw_conn_transport : SaslTransport RawConn := {|
  handshake := raw_handshake;
  sasl_authenticate := raw_authenticate;
  step_timeout raw := ConnectionConfig.connect_timeout (config raw) |}.

(** The same exchange over a live connection: [send_inner] is what a call of it ends with. *)
Record ReauthTransport (S : Type) : Type := {
  live_config : ConnectionConfig.ConnectionConfig;
  live : S;
  send_inner : forall R, Call R -> S -> result R Error * S;
}.
#[global] Arguments live_config {S} _.
#[global] Arguments live {S} _.
#[global] Arguments send_inner {S} _ {R} _ _.

Definition set_live {S} (t : ReauthTransport S) (s : S) : ReauthTransport S :=
  {| live_config := live_config t; live := s; send_inner := @send_inner S t |}.

Definition send {S R} (t : ReauthTransport S) (request : Call R) : result R Error * ReauthTransport S :=
  let '(answer, s) := send_inner t request (live t) in (answer, set_live t s).

Definition reauth_handshake {S} (mechanism : text) (t : ReauthTransport S)
    : result (list text) Error * ReauthTransport S :=
  then_ (send t (sasl_handshake_call mechanism)) (fun response t =>
    (match ErrorCode.from_code (handshake_error_code response) with
     | Some code =>
         Err (Authentication
           (text_of_string "broker rejected mechanism " ++ mechanism
            ++ text_of_string " on re-authentication (" ++ display_code code ++ text_of_string ")"))
     | None => Ok (mechanisms response)
     end, t)).

Definition reauth_authenticate {S} (token : bytes) (t : ReauthTransport S)
    : result AuthOutcome Error * ReauthTransport S :=
  then_ (send t (sasl_authenticate_call token)) (fun response t => (outcome_of response, t)).

#[export] Instance reauth_transport {S} : SaslTransport (ReauthTransport S) := {|
  handshake := reauth_handshake;
  sasl_authenticate := reauth_authenticate;
  step_timeout t := ConnectionConfig.request_timeout (live_config t) |}.

End connect.

(** *** The socket *)

(** What rustls knows of a completed handshake. *)
Inductive ProtocolVersion : Type := TLSv1_2 | TLSv1_3 | OtherVersion (debug : string).
Record CipherSuite : Type := { suite_as_str : option string; debug_suite : string }.
Record ClientConnection : Type := {
  negotiated_version : option ProtocolVersion;
  negotiated_cipher_suite : option CipherSuite;
  peer_chain : option (list bytes);
}.

(** What one TLS handshake agreed on, and what the broker presented. *)
Record TlsSession : Type := {
  protocol_version : string;
  cipher_suite : string;
  session_server_name : text;
  peer_certificates : list bytes;
}.

Definition from_handshake (connection : ClientConnection) (server_name : text) : TlsSession := {|
  protocol_version :=
    match negotiated_version connection with
    | Some TLSv1_2 => "TLSv1.2"
    | Some TLSv1_3 => "TLSv1.3"
    | Some (OtherVersion debug) => debug
    | None => "unknown"
    end;
  cipher_suite :=
    match negotiated_cipher_suite connection with
    | Some suite => match suite_as_str suite with Some name => name | None => debug_suite suite end
    | None => "unknown"
    end;
  session_server_name := server_name;
  peer_certificates := default [] (peer_chain connection) |}.

(** A connected byte stream. *)
Inductive Transport : Type := Plain | TlsStream.

Definition is_encrypted (t : Transport) : bool :=
  match t with TlsStream => true | Plain => false end.

(** What opening a socket to an address meets: the connect, the socket option, the
    certificates of the system, and the handshake under a configuration and a name; and
    whether all of it is over before the deadline. *)
Record Network `{Tls.Rustls} : Type := {
  tcp_connect : result unit IoError;
  set_nodelay : result unit IoError;
  native_certs : list Tls.Certificate;
  tls_connect : Tls.RustlsConfig -> text -> result ClientConnection (IoError * option Tls.AlertDescription);
  in_time : bool;
  broker_turns : list Turn;
}.

Section open.
Context `{Messages, HandshakeMessages, Schemas, KafkaProtocol, Tls.Rustls}.
Context `{Base64, StringPrep, StrDebug, Scram.Crypto, Json}.

(** Open the socket and, if configured, wrap it in TLS. *)
Definition open (net : Network) (addr : text) (config : ConnectionConfig.ConnectionConfig)
    : result (Transport * option TlsSession) Error :=
  let? _ :=
    match tcp_connect net with
    | Ok _ => Ok tt
    | Err e => Err (Error.Transport "connecting to broker" e)
    end in
  let? _ :=
    match set_nodelay net with
    | Ok _ => Ok tt
    | Err e => Err (Error.Transport "disabling Nagle" e)
    end in
  match ConnectionConfig.tls config with
  | None => Ok (Plain, None)
  | Some tls =>
      let host := Address.host_of addr in
      let? connector := Tls.rustls_config tls (native_certs net) in
      let? server_name := Tls.server_name tls host in
      match tls_connect net connector server_name with
      | Err (e, alert) => Err (Tls.handshake_error "TLS handshake" e alert (has_client_certificate config))
      | Ok stream => Ok (TlsStream, Some (from_handshake stream server_name))
      end
  end.

(** What a connection is when its handshake is over. *)
Record Opened : Type := {
  opened_versions : ApiVersions;
  opened_tls : option TlsSession;
  opened_stats : Stats.ConnectionStats;
  opened_node_id : option Z;
  first_reauth : option Z;
}.

(** [connect_as]; what is left of the bare stream comes with the result, once there is
    one. *)
Definition connect_as (net : Network) (env : Sasl.Env) (addr : text) (node_id : option Z)
    (config : ConnectionConfig.ConnectionConfig) : result Opened Error * option RawConn :=
  if negb (in_time net) then
    (Err (Timeout (ApiKey.code ApiKey.ApiVersions) (ConnectionConfig.connect_timeout config)), None)
  else
    match open net addr config with
    | Err e => (Err e, None)
    | Ok (transport, tls) =>
        let checked :=
          match ConnectionConfig.sasl config with
          | Some sasl => Sasl.check_encryption sasl (is_encrypted transport)
          | None => Ok tt
          end in
        match checked with
        | Err e => (Err e, None)
        | Ok _ =>
            let raw := {| Connect.config := config; stats := Stats.new; correlation := 0;
                          versions := {| entries := ∅ |}; peer := Str.string_of_text addr; sent := [];
                          turns := broker_turns net |} in
            match negotiate_versions raw with
            | (Err e, raw) => (Err e, Some raw)
            | (Ok table, raw) =>
                let raw := set_versions raw table in
                let '(lifetime, raw) :=
                  match ConnectionConfig.sasl config with
                  | Some sasl => Sasl.authenticate sasl env raw
                  | None => (Ok 0, raw)
                  end in
                match lifetime with
                | Err e => (Err e, Some raw)
                | Ok lifetime =>
                    (Ok {| opened_versions := table; opened_tls := tls; opened_stats := stats raw;
                           opened_node_id := node_id; first_reauth := Sasl.reauth_delay lifetime |},
                     Some raw)
                end
            end
        end
    end.

(** The actor a connection starts with: its re-authentication task when the session
    has an end. *)
Definition start {R} (config : ConnectionConfig.ConnectionConfig) (opened : Opened)
    : Connection.Connection (R := R) :=
  Connection.spawn config (opened_stats opened)
    (match first_reauth opened with Some _ => true | None => false end).

End open.

End Connect.
