(* ===== verification/ConnectionFacts.v ===== *)
(** Invariants of a connection: correlation ids, waiters, answers, frames, permits. *)

From S2P Require Import Prelude Sanitize Text ErrorCodes ApiKeys Scram Sasl Tls BatchDecode Rpc Connection.

Module ConnectionFacts.
Import Rpc Codec Error Connection.

(** *** Correlation ids *)

(** The [n]-th correlation id of a connection. *)
Definition nth_id (n : nat) : Z := Z.land (i32_wrap (1 + Z.of_nat n)) I32_MAX.

Lemma land_max z : Z.land z I32_MAX = z mod 2 ^ 31.
Proof. change I32_MAX with (Z.ones 31). by rewrite Z.land_ones. Qed.

Lemma nth_id_mod n : nth_id n = (1 + Z.of_nat n) mod 2 ^ 31.
Proof.
  unfold nth_id. rewrite land_max. unfold i32_wrap.
  rewrite Zminus_mod. rewrite Z_mod_same_full, Z.sub_0_r, Z.mod_mod by lia.
  rewrite Z.mod_mod_divide by (by exists 2).
  rewrite <- (Zplus_mod_idemp_r (2 ^ 31)), Z_mod_same_full. f_equal. lia.
Qed.

(** Ids come back after 2^31 requests, and not before. *)
Lemma nth_id_inj n m :
  Z.of_nat n < 2 ^ 31 -> Z.of_nat m < 2 ^ 31 -> nth_id n = nth_id m -> n = m.
Proof. rewrite !nth_id_mod. intros. TextFacts.div_lia. Qed.

Lemma nth_id_period n : nth_id (n + Z.to_nat (2 ^ 31)) = nth_id n.
Proof.
  rewrite !nth_id_mod, Nat2Z.inj_add, Z2Nat.id by lia.
  replace (1 + (Z.of_nat n + 2 ^ 31)) with (1 + Z.of_nat n + 1 * 2 ^ 31) by lia.
  by rewrite Z_mod_plus_full.
Qed.

Lemma nth_id_next n : i32_wrapping_add (i32_wrap (1 + Z.of_nat n)) 1 = i32_wrap (1 + Z.of_nat (S n)).
Proof. unfold i32_wrapping_add. rewrite i32_wrap_add_l. f_equal. lia. Qed.

Section facts.
Context `{Messages} {R : Type}.
Context (config : ConnectionConfig.ConnectionConfig) (peer : string)
        (versions : Versions.ApiVersions).
Abbreviation Connection := (@Connection R).
Abbreviation Caller := (@Caller R).
Abbreviation Stage := (@Stage R).
Abbreviation act := (@act _ R config peer versions).
Abbreviation step := (@step _ R config peer versions).
Abbreviation reachable := (@reachable _ R config peer versions).
Implicit Types (s : Connection) (caller : Caller) (c : nat).

(** Whether a call has registered its waiter, or passed the point where it would. *)
Definition registered (st : Stage) : bool :=
  match st with
  | AtGate | Starting | AtPermit _ _ _ | Registering _ _ _ => false
  | _ => true
  end.

(** *** What calls keep *)

(** A call keeps who made it and its request, its correlation id once it has one, and
    never goes back before its registration. *)
Definition follows (old new : Caller) : Prop :=
  kind new = kind old /\ call new = call old
  /\ (forall i, id_of (stage old) = Some i -> id_of (stage new) = Some i)
  /\ (registered (stage old) = true -> registered (stage new) = true).

Definition grows (old new : list Caller) : Prop :=
  forall c caller, old !! c = Some caller ->
  exists caller', new !! c = Some caller' /\ follows caller caller'.

Lemma follows_refl caller : follows caller caller.
Proof. by split_and!. Qed.

Lemma grows_refl cs : grows cs cs.
Proof. intros c caller Hc. exists caller. split; [done|apply follows_refl]. Qed.

Lemma grows_insert cs c caller caller' :
  cs !! c = Some caller -> follows caller caller' -> grows cs (<[c := caller']> cs).
Proof.
  intros Hc Hf d other Hd. destruct (decide (d = c)) as [->|Hne].
  - exists caller'. rewrite list_lookup_insert_eq by by eapply lookup_lt_Some. by simplify_eq.
  - exists other. rewrite list_lookup_insert_ne by done. split; [done|apply follows_refl].
Qed.

Lemma grows_app cs caller : grows cs (cs ++ [caller]).
Proof.
  intros c old Hc. exists old. split; [by apply lookup_app_l_Some|apply follows_refl].
Qed.

(** *** What happens to a connection, one change at a time *)

(** How a call leaves: what it returns, and the map after. *)
Inductive leaves (s : Connection) c caller : Stage -> Pending.Pending -> Prop :=
  | leaves_answered v id frame :
      stage caller = Waiting v id -> mail s !! c = Some (Ok frame) ->
      leaves s c caller
        (Finished (Some id)
           (decode_response (API_KEY (call_rpc (call caller))) v (call caller) frame) (Some frame))
        (pending s)
  | leaves_failed v id e :
      stage caller = Waiting v id -> leaves s c caller (Finished (Some id) (Err e) None) (pending s)
  | leaves_unregistered v id frame :
      stage caller = Registering v id frame -> pending s = None ->
      leaves s c caller (Finished (Some id) (Err (closed_error peer)) None) (pending s)
  | leaves_unqueued id :
      stage caller = Unqueued id ->
      leaves s c caller (Finished (Some id) (Err (closed_error peer)) None)
        (Pending.take (pending s) id).2
  | leaves_expired id elapsed :
      stage caller = Expired id elapsed ->
      leaves s c caller (Finished (Some id) (Err (timeout caller elapsed)) None)
        (Pending.take (pending s) id).2
  | leaves_late v id frame elapsed :
      stage caller = AtPermit v id frame ->
      leaves s c caller (Finished (Some id) (Err (timeout caller elapsed)) None) (pending s)
  | leaves_unanswered v id elapsed :
      stage caller = Waiting v id -> mail s !! c = None ->
      leaves s c caller (Expired id elapsed) (pending s)
  | leaves_dropped :
      kind caller = Ordinary -> is_live (stage caller) = true ->
      leaves s c caller (Dropped (id_of (stage caller))) (pending s).

(** The turns of the re-authentication task. *)
Inductive turns (s : Connection) : ReauthTask -> Prop :=
  | turns_wakes n : reauth s = Sleeping n -> turns s (AwaitingGate n)
  | turns_enters n :
      reauth s = AwaitingGate n -> existsb holds_gate (callers s) = false -> turns s (Exchanging n)
  | turns_sleeps n :
      reauth s = Exchanging n -> live_call_of (Reauth n) s = false -> turns s (Sleeping (S n))
  | turns_ends n :
      reauth s = Exchanging n -> live_call_of (Reauth n) s = false -> turns s ReauthEnded
  | turns_stops n : reauth s = Sleeping n -> turns s ReauthEnded.

(** Handing a frame to the waiter of its id. *)
Definition deliver (s : Connection) (id : Z) (frame : bytes) : Connection :=
  let '(waiter, p) := Pending.take (pending s) id in
  match waiter with
  | Some c => resolve (set_pending s p) [c] (Ok frame)
  | None => set_pending s p
  end.

Inductive effect (s : Connection) : Connection -> Prop :=
  | effect_sent r : effect s (push_caller s {| kind := Ordinary; call := r; stage := AtGate |})
  | effect_reauth_sent n r :
      reauth s = Exchanging n -> live_call_of (Reauth n) s = false ->
      effect s (push_caller s {| kind := Reauth n; call := r; stage := Starting |})
  | effect_admitted c caller :
      callers s !! c = Some caller -> stage caller = AtGate ->
      (forall n, reauth s <> Exchanging n) ->
      effect s (set_caller s c (at_stage caller Starting))
  | effect_refused c caller e :
      callers s !! c = Some caller -> stage caller = Starting ->
      effect s (set_caller s c (at_stage caller (Finished None (Err e) None)))
  | effect_issued c caller version next :
      callers s !! c = Some caller -> stage caller = Starting ->
      ConnectionConfig.permits config (API_KEY (call_rpc (call caller))) = true ->
      version_for versions (call_rpc (call caller)) = Ok version ->
      let id := Z.land (correlation s) I32_MAX in
      (exists frame, next = AtPermit version id frame
        /\ encode_request (API_KEY (call_rpc (call caller))) version id
             (ConnectionConfig.client_id config) (call caller) = Ok frame)
      \/ (exists e, next = Finished (Some id) (Err e) None) ->
      effect s (set_caller (issue s c) c (at_stage caller next))
  | effect_acquired c caller version id frame n :
      callers s !! c = Some caller -> stage caller = AtPermit version id frame -> inflight s = S n ->
      effect s (set_inflight (set_caller s c (at_stage caller (Registering version id frame))) n)
  | effect_registered c caller version id frame m :
      callers s !! c = Some caller -> stage caller = Registering version id frame ->
      pending s = Some m ->
      effect s (set_pending (set_caller s c (at_stage caller (Queueing version id frame)))
                  (Some (<[id := c]> m)))
  | effect_unqueued c caller version id frame :
      callers s !! c = Some caller -> stage caller = Queueing version id frame -> writer s = Gone ->
      effect s (set_caller s c (at_stage caller (Unqueued id)))
  | effect_queued c caller version id frame :
      callers s !! c = Some caller -> stage caller = Queueing version id frame -> writer s <> Gone ->
      (length (commands s) < ConnectionConfig.max_in_flight config)%nat ->
      effect s (set_commands (set_caller s c (at_stage caller (Waiting version id)))
                  (commands s ++ [(c, frame)]))
  | effect_left c caller next p :
      callers s !! c = Some caller -> leaves s c caller next p ->
      effect s (leave (set_pending s p) c caller next)
  | effect_taken c frame rest :
      writer s = Idle -> commands s = (c, frame) :: rest ->
      effect s (set_writer (set_commands s rest) (Writing c frame))
  | effect_written c frame :
      writer s = Writing c frame -> effect s (set_writer (put_on_wire s c frame) Idle)
  | effect_writer_stopped : writer s <> Gone -> effect s (set_writer s Stopped)
  | effect_writer_ended : effect s (set_writer (set_commands (close_pending peer s) []) Gone)
  | effect_read_short frame : effect s (set_reader (take_off_wire s frame) ReaderStopped)
  | effect_read frame id :
      peek_correlation_id frame = Ok id -> effect s (deliver (take_off_wire s frame) id frame)
  | effect_reader_stopped : reader s <> ReaderGone -> effect s (set_reader s ReaderStopped)
  | effect_reader_ended : effect s (set_reader (close_pending peer s) ReaderGone)
  | effect_closed : effect s (close peer s)
  | effect_handles down h : effect s (set_tasks s (writer s) (reader s) down (reauth s) h)
  | effect_turned a : turns s a -> effect s (set_reauth s a).

Lemma set_pending_same s : set_pending s (pending s) = s.
Proof. by destruct s. Qed.

Lemma drop_inner_effects s : rtc effect s (drop_inner s).
Proof. unfold drop_inner. case_match; [|done]. apply rtc_once, effect_handles. Qed.

Lemma leaves_same s c caller next :
  callers s !! c = Some caller -> leaves s c caller next (pending s) -> effect s (leave s c caller next).
Proof. intros Hc Hl. rewrite <- (set_pending_same s) at 2. by apply effect_left. Qed.

Lemma leave_plain s c caller next :
  holds_permit (stage caller) = false -> leave s c caller next = set_caller s c (at_stage caller next).
Proof. unfold leave. by intros ->. Qed.

Lemma caller_step_effect s c caller s' :
  callers s !! c = Some caller ->
  caller_step config peer versions s c caller = Some s' -> effect s s'.
Proof.
  intros Hc. unfold caller_step.
  destruct (stage caller) eqn:Hst; try done.
  - destruct (reauth s) eqn:Hr; try done; intros [= <-]; apply effect_admitted; congruence.
  - unfold begin_send. intros [= <-].
    destruct (negb _) eqn:Hp; [rewrite leave_plain by (by rewrite Hst); by apply effect_refused|].
    destruct (version_for _ _) as [version|e] eqn:Hv;
      [|rewrite leave_plain by (by rewrite Hst); by apply effect_refused].
    apply negb_false_iff in Hp.
    destruct (encode_request _ _ _ _ _) as [frame|e] eqn:He;
      rewrite leave_plain by (by rewrite Hst); apply (effect_issued s c caller version); eauto.
  - destruct (inflight s) eqn:Hi; [done|]. intros [= <-]. by apply effect_acquired.
  - unfold Pending.register. destruct (pending s) as [m|] eqn:Hp; intros [= <-].
    + by apply effect_registered.
    + apply leaves_same; [done|]. by eapply leaves_unregistered.
  - destruct (writer s) eqn:Hw; try (case_match; [|done]); intros [= <-].
    all: try (eapply effect_queued; [done|done|congruence|by apply Nat.ltb_lt]).
    by eapply effect_unqueued.
  - intros [= <-]. apply effect_left; [done|]. by apply leaves_unqueued.
  - unfold receive. destruct (mail s !! c) as [[frame|e]|] eqn:Hm.
    + intros [= <-]. apply leaves_same; [done|]. by eapply leaves_answered.
    + intros [= <-]. apply leaves_same; [done|]. by eapply leaves_failed.
    + case_match; [|done]. intros [= <-]. apply leaves_same; [done|]. by eapply leaves_failed.
  - intros [= <-]. rewrite <- (leave_plain (set_pending s _)) by (by rewrite Hst).
    apply effect_left; [done|]. by apply leaves_expired.
Qed.

Lemma act_effects a s s' : act a s = Some s' -> rtc effect s s'.
Proof.
  destruct a; cbn [Connection.act]; unfold with_caller.
  - case_match; [done|]. intros [= <-]. apply rtc_once, effect_sent.
  - destruct (callers s !! c) as [caller|] eqn:Hc; [|done]. intros Hs.
    by eapply rtc_once, caller_step_effect.
  - destruct (callers s !! c) as [caller|] eqn:Hc; [|done]. unfold deadline_step.
    destruct (stage caller) eqn:Hst; try done.
    + intros [= <-]. apply rtc_once, leaves_same; [done|]. by eapply leaves_late.
    + destruct (mail s !! c) eqn:Hm; [done|]. intros [= <-].
      apply rtc_once, leaves_same; [done|]. by eapply leaves_unanswered.
  - destruct (callers s !! c) as [caller|] eqn:Hc; [|done]. unfold drop_step.
    destruct (kind caller) eqn:Hk; [|done].
    pose proof (leaves_dropped s c caller Hk) as Hd.
    destruct (stage caller) eqn:Hst; try done; intros [= <-];
      apply rtc_once, leaves_same; try done; by apply Hd.
  - unfold writer_takes. destruct (writer s) eqn:Hw; try done.
    destruct (commands s) as [|[c frame] rest] eqn:Hq; [done|]. intros [= <-].
    by apply rtc_once, effect_taken.
  - unfold writer_writes. destruct (writer s) eqn:Hw; try done. intros [= <-].
    by apply rtc_once, effect_written.
  - unfold writer_fails. destruct (writer s) eqn:Hw; try done. intros [= <-].
    apply rtc_once, effect_writer_stopped. congruence.
  - unfold writer_stops. destruct (writer s) eqn:Hw; try done. case_match; [|done]. intros [= <-].
    apply rtc_once, effect_writer_stopped. congruence.
  - unfold writer_ends. destruct (writer s) eqn:Hw; try done. intros [= <-].
    apply rtc_once, effect_writer_ended.
  - unfold reader_reads. destruct (reader s) eqn:Hw; try done. intros [= <-].
    destruct (peek_correlation_id frame) as [id|e] eqn:Hid.
    + by apply rtc_once, (effect_read s frame id).
    + apply rtc_once, effect_read_short.
  - unfold reader_stops. destruct (reader s) eqn:Hw; try done. intros [= <-].
    apply rtc_once, effect_reader_stopped. congruence.
  - unfold reader_ends. destruct (reader s) eqn:Hw; try done. intros [= <-].
    apply rtc_once, effect_reader_ended.
  - case_match; [done|]. intros [= <-]. apply rtc_once, effect_closed.
  - case_match; [done|]. intros [= <-]. apply rtc_once, effect_handles.
  - case_match; [done|]. case_match; [done|]. intros [= <-].
    eapply rtc_l; [apply effect_handles|apply drop_inner_effects].
  - unfold reauth_wakes. destruct (reauth s) eqn:Hr; try done. intros [= <-].
    by apply rtc_once, effect_turned, turns_wakes.
  - unfold reauth_enters. destruct (reauth s) eqn:Hr; try done. case_match; [done|]. intros [= <-].
    by apply rtc_once, effect_turned, turns_enters.
  - unfold reauth_calls. destruct (reauth s) eqn:Hr; try done. case_match; [done|].
    destruct (API_KEY _); try done; intros [= <-]; by apply rtc_once, effect_reauth_sent.
  - unfold reauth_succeeds. destruct (reauth s) eqn:Hr; try done. case_match; [done|].
    destruct again; intros [= <-].
    + by apply rtc_once, effect_turned, turns_sleeps.
    + eapply rtc_l; [by eapply effect_turned, turns_ends|apply drop_inner_effects].
  - unfold reauth_fails. destruct (reauth s) as [|n|n|n|] eqn:Hr; try done.
    destruct (live_call_of (Reauth n) s) eqn:Hl; [done|]. intros [= <-].
    eapply rtc_l; [apply effect_closed|].
    eapply rtc_l; [|apply drop_inner_effects]. apply effect_turned, (turns_ends _ n).
    + unfold close, close_pending. destruct (Pending.close _). done.
    + unfold close, close_pending. destruct (Pending.close _). done.
  - unfold reauth_stops. destruct (reauth s) eqn:Hr; try done. case_match; [|done]. intros [= <-].
    eapply rtc_l; [by eapply effect_turned, turns_stops|apply drop_inner_effects].
Qed.

(** An invariant of every change is one of every reachable connection. *)
Lemma reachable_ind' (P : Connection -> Prop) :
  (forall st b, P (spawn config st b)) -> (forall s s', P s -> effect s s' -> P s') ->
  forall s, reachable s -> P s.
Proof.
  intros H0' Hstep s (st & b & Hr).
  assert (Hall : forall s0, P s0 -> rtc effect s0 s -> P s).
  { clear Hr. intros s0 H1 Hr. induction Hr as [|x y z Hxy _ IH]; [done|]. eauto. }
  apply (Hall (spawn config st b)); [done|]. clear Hall.
  remember (spawn config st b) as s0 eqn:E. clear E.
  induction Hr as [|x y z [a Hxy] _ IH]; [done|].
  etrans; [by eapply act_effects|done].
Qed.

End facts.

End ConnectionFacts.
