(* ===== verification/ConnectionInvariants.v ===== *)
(** What holds of every reachable connection: who has which correlation id, who waits,
    what was answered, what is on its way to the socket, and the in-flight permits. *)

From S2P Require Import Prelude Sanitize Text ErrorCodes ApiKeys Scram Sasl Tls BatchDecode Rpc Connection ConnectionFacts.

Module ConnectionInvariants.
Import Rpc Codec Error Connection ConnectionFacts.

(** The fields a change sets, and the cases of a change on them. *)
Ltac unfold_change :=
  cbn in *; unfold leave, close, close_pending, deliver, Pending.close, Pending.take in *; cbn in *;
  repeat case_match; simplify_eq/=.
Ltac change_cases He := destruct He; unfold_change.

Section invariants.
Context `{Messages} {R : Type}.
Context (config : ConnectionConfig.ConnectionConfig) (peer : string)
        (versions : Versions.ApiVersions).
Abbreviation Connection := (@Connection R).
Abbreviation Caller := (@Caller R).
Abbreviation effect := (@effect _ R config peer versions).
Abbreviation reachable := (@reachable _ R config peer versions).
Implicit Types (s : Connection) (caller : Caller) (c : nat).

(** *** What calls keep, over every change *)

Lemma follows_stage caller next :
  (forall i, id_of (stage caller) = Some i -> id_of next = Some i) ->
  (registered (stage caller) = true -> registered next = true) ->
  follows caller (at_stage caller next).
Proof. by intros; split_and!. Qed.

Lemma leaves_follows s c caller next p :
  leaves peer s c caller next p -> follows caller (at_stage caller next).
Proof.
  intros Hl. apply follows_stage; destruct Hl as [? ? ? E|? ? ? E|? ? ? E|? E|? ? E|? ? ? ? E|? ? ? E|];
    try rewrite E; cbn; congruence.
Qed.

Lemma leaves_id s c caller next p :
  leaves peer s c caller next p -> id_of next = id_of (stage caller).
Proof.
  destruct 1 as [? ? ? E|? ? ? E|? ? ? E|? E|? ? E|? ? ? ? E|? ? ? E|]; by try rewrite E.
Qed.

Lemma leaves_pending s c caller next p m i d :
  leaves peer s c caller next p -> p = Some m -> m !! i = Some d ->
  exists m', pending s = Some m' /\ m' !! i = Some d.
Proof.
  assert (Htake : forall id, (Pending.take (pending s) id).2 = Some m -> m !! i = Some d ->
    exists m', pending s = Some m' /\ m' !! i = Some d).
  { intros id. unfold Pending.take. destruct (pending s) as [m0|]; [|done]. intros [= <-].
    intros [_ ?]%lookup_delete_Some. by eauto. }
  intros Hl Hp Hm. destruct Hl; eauto.
Qed.

Lemma effect_grows s s' : effect s s' -> grows (callers s) (callers s').
Proof.
  intros He. change_cases He.
  all: try apply grows_refl; try apply grows_app.
  all: (eapply grows_insert; [done|]); try (by eapply leaves_follows).
  all: by apply follows_stage; match goal with E : stage _ = _ |- _ => rewrite E end.
Qed.

Lemma effect_received s s' frame : effect s s' -> frame ∈ received s -> frame ∈ received s'.
Proof. intros He Hin. change_cases He; set_solver. Qed.

(** A property of the calls of a connection that its changes keep holds of every call. *)
Lemma effect_callers s s' c caller' :
  effect s s' -> callers s' !! c = Some caller' ->
  callers s !! c = Some caller'
  \/ (exists r, caller' = {| kind := Ordinary; call := r; stage := AtGate |})
  \/ (exists n r, reauth s = Exchanging n /\ live_call_of (Reauth n) s = false
        /\ caller' = {| kind := Reauth n; call := r; stage := Starting |})
  \/ (exists caller, callers s !! c = Some caller /\ follows caller caller').
Proof.
  intros He Hc. change_cases He; try by left.
  all: try (apply lookup_app_Some in Hc as [Hc|[_ Hc]]; [by left|];
    apply list_lookup_singleton_Some in Hc as [_ <-]; naive_solver).
  all: apply list_lookup_insert_Some in Hc as [(<- & <- & _)|[_ Hc]]; [|by left].
  all: do 3 right; eexists; split; [done|]; try (by eapply leaves_follows).
  all: by apply follows_stage; match goal with E : stage _ = _ |- _ => rewrite E end.
Qed.

(** *** Correlation ids *)

(** The ids are [nth_id 0], [nth_id 1], ... in the order they were handed out, one to each
    call. *)
Record ids_ok (s : Connection) : Prop := {
  next_id : correlation s = i32_wrap (1 + Z.of_nat (length (issued s)));
  issued_once : NoDup (issued s);
  issued_id : forall n c, issued s !! n = Some c ->
    exists caller, callers s !! c = Some caller /\ id_of (stage caller) = Some (nth_id n);
  id_issued : forall c caller id, callers s !! c = Some caller ->
    id_of (stage caller) = Some id -> c ∈ issued s;
}.

(** A change that hands out no id and starts no call with one. *)
Lemma ids_kept s s' :
  ids_ok s -> grows (callers s) (callers s') ->
  (forall c caller' id, callers s' !! c = Some caller' -> id_of (stage caller') = Some id ->
    exists caller, callers s !! c = Some caller /\ id_of (stage caller) = Some id) ->
  issued s' = issued s -> correlation s' = correlation s -> ids_ok s'.
Proof.
  intros [Hn Hd Hi Hc] Hg Hback Hs Hcorr. split; rewrite ?Hs, ?Hcorr; try done.
  - intros n c Hl. apply Hi in Hl as (caller & Hl & Hid).
    apply Hg in Hl as (caller' & Hl & _ & _ & Hf & _). eauto.
  - intros c caller' id Hl Hid. destruct (Hback _ _ _ Hl Hid) as (caller & Hl' & Hid'). by eapply Hc.
Qed.

Lemma issue_ids_ok s c caller next :
  ids_ok s -> callers s !! c = Some caller -> id_of (stage caller) = None ->
  id_of next = Some (Z.land (correlation s) I32_MAX) ->
  ids_ok (set_caller (issue s c) c (at_stage caller next)).
Proof.
  intros [Hn Hd Hi Hc] Hl Hnone Hnext.
  assert (Hlt : (c < length (callers s))%nat) by by eapply lookup_lt_Some.
  assert (Hfresh : c ∉ issued s).
  { intros [n Hin]%list_elem_of_lookup. apply Hi in Hin as (caller' & ? & ?). congruence. }
  split; cbn.
  - rewrite Hn, length_app, nth_id_next. cbn. do 2 f_equal. lia.
  - apply NoDup_app. split_and!; [done| |apply NoDup_singleton]. set_solver.
  - intros n d Hd'. apply lookup_app_Some in Hd' as [Hd'|[Hge Hd']].
    + assert (d <> c) by (intros ->; apply Hfresh; by eapply list_elem_of_lookup_2).
      rewrite list_lookup_insert_ne by done. by apply Hi.
    + apply list_lookup_singleton_Some in Hd' as [Hz <-].
      exists (at_stage caller next). rewrite list_lookup_insert_eq by done. split; [done|].
      cbn. rewrite Hnext, Hn. unfold nth_id. do 4 f_equal. lia.
  - intros d caller' id Hd' Hid. apply elem_of_app.
    apply list_lookup_insert_Some in Hd' as [(<- & _ & _)|[_ Hd']]; [right; set_solver|].
    left. by eapply Hc.
Qed.

(** A change hands out an id, or none. *)
Lemma effect_issues s s' :
  effect s s' ->
  (exists c caller next, s' = set_caller (issue s c) c (at_stage caller next)
     /\ callers s !! c = Some caller /\ stage caller = Starting
     /\ id_of next = Some (Z.land (correlation s) I32_MAX))
  \/ (issued s' = issued s /\ correlation s' = correlation s
     /\ forall c caller' id, callers s' !! c = Some caller' -> id_of (stage caller') = Some id ->
        exists caller, callers s !! c = Some caller /\ id_of (stage caller) = Some id).
Proof.
  intros He. destruct He.
  5: match goal with
     | Hn : (exists _, _) \/ _ |- _ =>
         left; do 3 eexists; split_and!; try done; by destruct Hn as [(? & -> & _)|(? & ->)]
     end.
  all: right; unfold_change; (split_and!; [done|done|]); intros d caller' i Hd Hi; eauto.
  all: try (apply lookup_app_Some in Hd as [Hd|[_ Hd]]; [by eauto|];
    by apply list_lookup_singleton_Some in Hd as [_ <-]).
  all: apply list_lookup_insert_Some in Hd as [(<- & <- & _)|[_ Hd]]; [|by eauto].
  all: eexists; split; [done|]; cbn in Hi; try done.
  all: by match goal with
       | E : stage _ = _ |- _ => rewrite E
       | Hl : leaves _ _ _ _ _ _ |- _ => rewrite <- (leaves_id _ _ _ _ _ Hl)
       end.
Qed.

Lemma effect_ids_ok s s' : ids_ok s -> effect s s' -> ids_ok s'.
Proof.
  intros Hok He. pose proof (effect_grows _ _ He) as Hg.
  destruct (effect_issues s s' He) as [(c & caller & next & -> & Hc & Hst & Hid)|(Hi & Hn & Hback)].
  - apply issue_ids_ok; [done|done|by rewrite Hst|done].
  - by eapply ids_kept.
Qed.

(** *** Waiters and answers *)

(** A waiter is a call that registered under its own id. *)
Definition waits (s : Connection) (i : Z) (c : nat) : Prop :=
  exists caller, callers s !! c = Some caller /\ id_of (stage caller) = Some i
    /\ registered (stage caller) = true.

Definition waiters_ok (s : Connection) : Prop :=
  forall m i c, pending s = Some m -> m !! i = Some c -> waits s i c.

(** What a call was sent: a frame that was read and has its id, or that the connection is
    closed. *)
Definition mail_ok (s : Connection) : Prop :=
  forall c r, mail s !! c = Some r ->
  exists i, waits s i c /\
    match r with
    | Ok frame => frame ∈ received s /\ peek_correlation_id frame = Ok i
    | Err e => e = closed_error peer
    end.

Lemma waits_kept s s' i c : grows (callers s) (callers s') -> waits s i c -> waits s' i c.
Proof.
  intros Hg (caller & Hc & Hid & Hr). destruct (Hg _ _ Hc) as (caller' & Hc' & _ & _ & Hi & Hr').
  exists caller'. auto.
Qed.

Lemma resolved_mail {A} (ws : list nat) (r : A) (m : gmap nat A) c x :
  foldr (fun c m => <[c := r]> m) m ws !! c = Some x -> (c ∈ ws /\ x = r) \/ m !! c = Some x.
Proof.
  induction ws as [|w ws IH]; cbn; [by right|].
  intros [[<- <-]|[_ Hx]]%lookup_insert_Some; [left; set_solver|].
  destruct (IH Hx) as [[Hin ->]|?]; [left; set_solver|by right].
Qed.

Lemma closed_waiters (m : gmap Z nat) c : c ∈ (snd <$> map_to_list m) -> exists i, m !! i = Some c.
Proof. intros ([i d] & -> & Hin%elem_of_map_to_list)%list_elem_of_fmap. by exists i. Qed.

(** The waiters after a change: those there were, and a call that registers. *)
Lemma effect_pending s s' m' i c :
  effect s s' -> pending s' = Some m' -> m' !! i = Some c ->
  (exists m, pending s = Some m /\ m !! i = Some c)
  \/ (exists v frame caller, callers s !! c = Some caller /\ stage caller = Registering v i frame
       /\ callers s' !! c = Some (at_stage caller (Queueing v i frame))).
Proof.
  intros He Hm Hi. change_cases He; eauto.
  all: try (rewrite lookup_delete_Some in Hi; destruct Hi as [_ Hi]; by eauto).
  - apply lookup_insert_Some in Hi as [[-> ->]|[_ Hi]]; [right|by eauto].
    exists version, frame, caller. split_and!; [done|done|].
    apply list_lookup_insert_eq. by eapply lookup_lt_Some.
  - left. by eapply leaves_pending.
  - left. by eapply leaves_pending.
Qed.

Lemma effect_waiters_ok s s' : waiters_ok s -> effect s s' -> waiters_ok s'.
Proof.
  intros Hok He m' i c Hm Hi. destruct (effect_pending _ _ _ _ _ He Hm Hi) as [(m & ? & ?)|Hr].
  - eapply waits_kept; [by eapply effect_grows|by eapply Hok].
  - destruct Hr as (v & frame & caller & Hc & Hst & Hc'). by eexists.
Qed.

Lemma effect_mail s s' c r :
  effect s s' -> mail s' !! c = Some r ->
  mail s !! c = Some r
  \/ (exists m i, pending s = Some m /\ m !! i = Some c
       /\ match r with
          | Ok frame => frame ∈ received s' /\ peek_correlation_id frame = Ok i
          | Err e => e = closed_error peer
          end).
Proof.
  intros He Hr. change_cases He; eauto.
  all: try (apply resolved_mail in Hr as [[[i Hi]%closed_waiters Hx]|Hr]; [|by left];
            simplify_eq; right; eexists _, i; by split_and!).
  all: apply lookup_insert_Some in Hr as [[<- Hx]|[_ Hr]]; [simplify_eq; right|by left].
  eexists _, _. split_and!; [done|done|set_solver|done].
Qed.

Lemma effect_mail_ok s s' : waiters_ok s -> mail_ok s -> effect s s' -> mail_ok s'.
Proof.
  intros Hw Hm He c r Hr.
  destruct (effect_mail _ _ _ _ He Hr) as [Hr'|(m & i & Hp & Hi & Hcase)].
  - destruct (Hm _ _ Hr') as (i & Hi & Hcase). exists i.
    split; [eapply waits_kept; [by eapply effect_grows|done]|].
    destruct r as [frame|e]; [|done]. destruct Hcase. split; [by eapply effect_received|done].
  - exists i. split; [eapply waits_kept; [by eapply effect_grows|by eapply Hw]|done].
Qed.

(** *** What a call may send *)

(** The operator allows it, it has a version, and the frame is its encoding. *)
Definition sendable caller v id frame : Prop :=
  let key := API_KEY (call_rpc (call caller)) in
  ConnectionConfig.permits config key = true
  /\ version_for versions (call_rpc (call caller)) = Ok v
  /\ encode_request key v id (ConnectionConfig.client_id config) (call caller) = Ok frame.

(** What a call that returned was answered. *)
Definition answered s caller id (out : result R Error) (reply : option bytes) : Prop :=
  match reply with
  | Some frame =>
      exists i v, id = Some i /\ frame ∈ received s /\ peek_correlation_id frame = Ok i
      /\ version_for versions (call_rpc (call caller)) = Ok v
      /\ out = decode_response (API_KEY (call_rpc (call caller))) v (call caller) frame
  | None => exists e, out = Err e
  end.

Definition stage_ok s caller : Prop :=
  match stage caller with
  | AtPermit v id frame | Registering v id frame | Queueing v id frame => sendable caller v id frame
  | Waiting v id => exists frame, sendable caller v id frame
  | Finished id out reply => answered s caller id out reply
  | _ => True
  end.

Definition stages_ok s : Prop := forall c caller, callers s !! c = Some caller -> stage_ok s caller.

Lemma sendable_at caller st v id frame :
  sendable (at_stage caller st) v id frame = sendable caller v id frame.
Proof. done. Qed.

Lemma stage_ok_later s s' caller : effect s s' -> stage_ok s caller -> stage_ok s' caller.
Proof.
  intros He. unfold stage_ok. destruct (stage caller); try done.
  unfold answered. case_match; [|done]. intros (i & v & -> & Hin & Hr). exists i, v.
  split; [done|]. split; [by eapply effect_received|done].
Qed.

Lemma leaves_stage_ok s c caller next p :
  waiters_ok s -> mail_ok s -> ids_ok s ->
  callers s !! c = Some caller -> stage_ok s caller -> leaves peer s c caller next p ->
  stage_ok s (at_stage caller next).
Proof.
  intros Hw Hm Hids Hc Hok Hl. unfold stage_ok. destruct Hl as [v id frame E Hmail|? ? ? ?|? ? ? ?|? ?|? ? ?|? ? ? ? ?|? ? ? ?|]; cbn; eauto.
  unfold stage_ok in Hok. rewrite E in Hok. destruct Hok as (f & _ & Hv & _).
  destruct (Hm _ _ Hmail) as (i & (caller' & Hc' & Hi & _) & Hin & Hpeek). simplify_eq.
  rewrite E in Hi. injection Hi as <-. exists id, v. by split_and!.
Qed.

Lemma effect_stages_ok s s' :
  waiters_ok s -> mail_ok s -> ids_ok s -> stages_ok s -> effect s s' -> stages_ok s'.
Proof.
  intros Hw Hm Hids Hok He c caller' Hc. apply (stage_ok_later s s'); [done|].
  change_cases He; eauto.
  all: try (apply lookup_app_Some in Hc as [Hc|[_ Hc]]; [by eauto|];
    by apply list_lookup_singleton_Some in Hc as [_ <-]).
  all: apply list_lookup_insert_Some in Hc as [(<- & <- & _)|[_ Hc]]; [|by eauto].
  all: match goal with Hc : callers _ !! _ = Some _ |- _ => pose proof (Hok _ _ Hc) as Hk end.
  all: try (by eapply leaves_stage_ok).
  all: unfold stage_ok in *;
    try (match goal with E : stage _ = _ |- _ => rewrite E in Hk end; cbn in *; by eauto).
  match goal with Hn : (exists _, _) \/ _ |- _ =>
    destruct Hn as [(frame & -> & Henc)|(e & ->)]; cbn; [by split_and!|by eauto] end.
Qed.

(** *** The way to the socket *)

(** The frames the writer has and those in its channel, while it still writes. *)
Definition line (w : Writer) (q : list (nat * bytes)) : list (nat * bytes) :=
  match w with
  | Idle => q
  | Writing c frame => (c, frame) :: q
  | Stopped | Gone => []
  end.

(** The frames that were written, and those that still may be, in order. *)
Definition queue (s : Connection) : list (nat * bytes) := wire s ++ line (writer s) (commands s).

(** A change cuts the queue, or adds the frame of a call that is queueing at its end. *)
Lemma effect_queue s s' :
  effect s s' ->
  queue s' `prefix_of` queue s
  \/ (exists c caller v id frame, callers s !! c = Some caller
       /\ stage caller = Queueing v id frame /\ queue s' = queue s ++ [(c, frame)]
       /\ callers s' = <[c := at_stage caller (Waiting v id)]> (callers s)
       /\ reauth s' = reauth s).
Proof.
  intros He. unfold queue. destruct He; unfold_change; try (left; reflexivity).
  all: try (left; match goal with
    | Hw : writer _ = Writing _ _ |- _ => by rewrite Hw, <- app_assoc
    | Hw : writer _ = Idle |- _ => by rewrite Hw
    | |- _ => by apply prefix_app, prefix_nil
    end).
  - destruct (writer s) as [|d f| |] eqn:Hw; try done; cbn; [right|right|left; reflexivity].
    all: exists c, caller, version, id, frame; by rewrite <- app_assoc.
  - left. match goal with Hw : writer _ = _, Hq : commands _ = _ |- _ => by rewrite Hw, Hq end.
Qed.

Definition frames_ok (s : Connection) : Prop :=
  forall c frame, (c, frame) ∈ queue s ->
  exists caller v id, callers s !! c = Some caller /\ id_of (stage caller) = Some id
    /\ sendable caller v id frame.

Lemma effect_frames_ok s s' : stages_ok s -> frames_ok s -> effect s s' -> frames_ok s'.
Proof.
  intros Hst Hok He c frame Hin.
  assert (Hfrom : exists caller v id, callers s !! c = Some caller
    /\ id_of (stage caller) = Some id /\ sendable caller v id frame).
  { destruct (effect_queue _ _ He) as [[l Hq]|(d & caller & v & id & f & Hc & Hs & Hq & _)].
    - apply Hok. rewrite Hq. set_solver.
    - rewrite Hq in Hin. apply elem_of_app in Hin as [Hin|Hin]; [by apply Hok|].
      apply list_elem_of_singleton in Hin as [= -> ->]. exists caller, v, id.
      pose proof (Hst _ _ Hc) as Hk. unfold stage_ok in Hk. rewrite Hs in *. by split_and!. }
  destruct Hfrom as (caller & v & id & Hc & Hid & Hs).
  destruct (effect_grows _ _ He _ _ Hc) as (caller' & Hc' & _ & Hcall & Hf & _).
  exists caller', v, id. split_and!; [done|by apply Hf|]. unfold sendable in *. by rewrite Hcall.
Qed.

(** *** In-flight permits *)

(** How many of the calls hold a permit. *)
Definition holders (cs : list Caller) : nat :=
  length (filter (fun caller => holds_permit (stage caller) = true) cs).
Arguments holders : simpl never.

Lemma holders_sum cs : holders cs = sum_list_with (fun x => Nat.b2n (holds_permit (stage x))) cs.
Proof.
  unfold holders. induction cs as [|caller cs IH]; [done|]. cbn [sum_list_with].
  rewrite filter_cons, <- IH. by destruct (holds_permit (stage caller)).
Qed.

Lemma holders_insert cs c caller caller' :
  cs !! c = Some caller ->
  (holders (<[c := caller']> cs) + Nat.b2n (holds_permit (stage caller))
   = holders cs + Nat.b2n (holds_permit (stage caller')))%nat.
Proof.
  intros Hc. rewrite !holders_sum. apply (sum_insert (fun x => Nat.b2n (holds_permit (stage x)))), Hc.
Qed.

Definition permits_ok (s : Connection) : Prop :=
  (inflight s + holders (callers s) = ConnectionConfig.max_in_flight config)%nat
  /\ (length (commands s) <= ConnectionConfig.max_in_flight config)%nat.

Lemma leave_permits s c caller next :
  callers s !! c = Some caller -> holds_permit next = false ->
  (inflight (leave s c caller next) + holders (callers (leave s c caller next))
   = inflight s + holders (callers s))%nat.
Proof.
  intros Hc Hn. pose proof (holders_insert _ _ _ (at_stage caller next) Hc) as Hh.
  unfold leave. cbn [stage at_stage] in Hh. rewrite Hn in Hh.
  destruct (holds_permit (stage caller)); cbn in *; lia.
Qed.

Lemma leaves_permit s c caller next p : leaves peer s c caller next p -> holds_permit next = false.
Proof. by destruct 1. Qed.

Lemma effect_permits s s' :
  effect s s' -> (inflight s' + holders (callers s') = inflight s + holders (callers s))%nat.
Proof.
  intros He. destruct He; try done.
  10: rewrite leave_permits by (done || by eapply leaves_permit); done.
  all: unfold_change; try done; try (rewrite !holders_sum, sum_list_with_app; cbn; lia).
  all: match goal with
    | Hc : callers _ !! _ = Some _ |- context [<[_ := ?next]> (callers _)] =>
        pose proof (holders_insert _ _ _ next Hc) as Hh
    end.
  all: cbn [stage at_stage] in Hh.
  all: match goal with E : stage _ = _ |- _ => rewrite E in Hh end; cbn in Hh; try lia.
  match goal with Hn : (exists _, _) \/ _ |- _ => destruct Hn as [(? & -> & _)|(? & ->)] end;
    cbn in Hh; lia.
Qed.

Lemma effect_channel s s' :
  effect s s' -> (length (commands s) <= ConnectionConfig.max_in_flight config)%nat ->
  (length (commands s') <= ConnectionConfig.max_in_flight config)%nat.
Proof.
  intros He Hc. change_cases He; rewrite ?length_app; cbn; try lia.
  match goal with Hq : commands _ = _ |- _ => rewrite Hq in Hc; cbn in Hc; lia end.
Qed.

(** *** Together *)

Record ok (s : Connection) : Prop := {
  ok_ids : ids_ok s;
  ok_waiters : waiters_ok s;
  ok_mail : mail_ok s;
  ok_stages : stages_ok s;
  ok_frames : frames_ok s;
  ok_permits : permits_ok s;
}.

Lemma effect_ok s s' : ok s -> effect s s' -> ok s'.
Proof.
  intros [Hi Hw Hm Hs Hf [Hp Hc]] He. split.
  - by eapply effect_ids_ok.
  - by eapply effect_waiters_ok.
  - by eapply effect_mail_ok.
  - by eapply effect_stages_ok.
  - by eapply effect_frames_ok.
  - split; [by rewrite (effect_permits _ _ He)|by eapply effect_channel].
Qed.

Lemma reachable_ok s : reachable s -> ok s.
Proof.
  revert s. apply reachable_ind'; [|by eauto using effect_ok].
  intros st b. split.
  - split; cbn; [done|apply NoDup_nil_2|done|done].
  - by intros m i c [= <-].
  - intros c r Hr. cbn in Hr. by rewrite lookup_empty in Hr.
  - by intros c caller.
  - intros c frame Hin. cbn in Hin. by apply elem_of_nil in Hin.
  - split; cbn; [unfold holders; cbn; lia|lia].
Qed.

End invariants.

End ConnectionInvariants.
