(* ===== verification/ConnectionSessions.v ===== *)
(** Re-authentication and the calls around it: who is let in during an exchange, and in
    what order the frames of an exchange reach the socket. *)

From S2P Require Import Prelude Sanitize Text ErrorCodes ApiKeys Scram Sasl Tls BatchDecode Rpc Connection ConnectionFacts ConnectionInvariants.

Module ConnectionSessions.
Import Rpc Codec Error Connection ConnectionFacts ConnectionInvariants.

Section sessions.
Context `{Messages} {R : Type}.
Context (config : ConnectionConfig.ConnectionConfig) (peer : string)
        (versions : Versions.ApiVersions).
Abbreviation Connection := (@Connection R).
Abbreviation Caller := (@Caller R).
Abbreviation effect := (@effect _ R config peer versions).
Abbreviation reachable := (@reachable _ R config peer versions).
Abbreviation ok := (@ok _ R config peer versions).
Implicit Types (s : Connection) (caller : Caller) (c n : nat) (e : nat * bytes).

(** *** Who is let in *)

(** The exchange a call may belong to when its re-authentication task is at [a]. *)
Definition session_ok (a : ReauthTask) caller : Prop :=
  match kind caller with
  | Ordinary => forall n, a = Exchanging n -> holds_gate caller = false
  | Reauth m =>
      match a with
      | NoReauth => False
      | Sleeping n | AwaitingGate n => m < n /\ is_live (stage caller) = false
      | Exchanging n => m <= n /\ (is_live (stage caller) = true -> m = n)
      | ReauthEnded => is_live (stage caller) = false
      end%nat
  end.

Definition sessions_ok s : Prop :=
  forall c caller, callers s !! c = Some caller -> session_ok (reauth s) caller.

(** A call in its next stage: nobody wakes up, and nobody passes the gate. *)
Lemma session_ok_next a caller next :
  session_ok a caller -> (is_live next = true -> is_live (stage caller) = true) ->
  (stage caller = AtGate -> is_live next = false \/ forall n, a <> Exchanging n) ->
  session_ok a (at_stage caller next).
Proof.
  intros Hok Hlive Hgate. unfold session_ok in *. cbn. destruct (kind caller) as [|m] eqn:Hk.
  - intros n ->. specialize (Hok n eq_refl). unfold holds_gate in *. cbn. rewrite Hk in *.
    rewrite bool_decide_true in * by done. cbn in *.
    destruct (stage caller) eqn:Hs; cbn in *; try done.
    + destruct (Hgate eq_refl) as [Hn|Hn]; [|by destruct (Hn n)]. by destruct next.
    + destruct next; cbn in *; try done; by specialize (Hlive eq_refl).
    + destruct next; cbn in *; try done; by specialize (Hlive eq_refl).
  - destruct (is_live next); [|by destruct a; naive_solver]. by rewrite Hlive in Hok by done.
Qed.

Lemma no_live_call k s c caller :
  live_call_of k s = false -> callers s !! c = Some caller -> kind caller = k ->
  is_live (stage caller) = false.
Proof.
  unfold live_call_of. intros He Hc Hk. destruct (is_live (stage caller)) eqn:Hl; [|done].
  assert (Hin : existsb (fun caller => bool_decide (kind caller = k) && is_live (stage caller))
    (callers s) = true); [|congruence].
  apply existsb_exists. exists caller. rewrite Hl, bool_decide_true by done.
  split; [|done]. apply list_elem_of_In. by eapply list_elem_of_lookup_2.
Qed.

Lemma no_gate_holder s c caller :
  existsb holds_gate (callers s) = false -> callers s !! c = Some caller ->
  holds_gate caller = false.
Proof.
  intros He Hc. destruct (holds_gate caller) eqn:Hl; [|done].
  assert (Hin : existsb holds_gate (callers s) = true); [|congruence].
  apply existsb_exists. exists caller. split; [|done].
  apply list_elem_of_In. by eapply list_elem_of_lookup_2.
Qed.

Lemma turned_sessions_ok s a : sessions_ok s -> turns s a -> sessions_ok (set_reauth s a).
Proof.
  intros Hok Ht c caller Hc. specialize (Hok _ _ Hc). cbn. unfold session_ok in *.
  destruct Ht as [n E|n E Hg|n E Hl|n E Hl|n E]; rewrite E in Hok;
    destruct (kind caller) as [|m] eqn:Hk; try done; try (intros; congruence).
  - intros ? _. by eapply no_gate_holder.
  - destruct Hok as [? Hdead]. split; [lia|]. by rewrite Hdead.
  - destruct Hok as [Hle Hmn]. assert (Hdead : is_live (stage caller) = false).
    { destruct (is_live (stage caller)) eqn:Hs; [|done]. rewrite <- Hs. rewrite (Hmn eq_refl) in Hk.
      by eapply no_live_call. }
    split; [lia|done].
  - destruct Hok as [Hle Hmn]. destruct (is_live (stage caller)) eqn:Hs; [|done].
    rewrite <- Hs. rewrite (Hmn eq_refl) in Hk. by eapply no_live_call.
  - by destruct Hok.
Qed.

Lemma leaves_live s c caller next p :
  leaves peer s c caller next p ->
  (is_live next = true -> is_live (stage caller) = true)
  /\ (stage caller = AtGate -> is_live next = false).
Proof.
  by destruct 1 as [? ? ? E|? ? ? E|? ? ? E|? E|? ? E|? ? ? ? E|? ? ? E|]; try rewrite E.
Qed.

Lemma effect_sessions_ok s s' : sessions_ok s -> effect s s' -> sessions_ok s'.
Proof.
  intros Hok He. destruct He; try by apply turned_sessions_ok.
  all: unfold sessions_ok; unfold_change; try done; intros d caller' Hd; try (by eapply Hok).
  all: try (apply lookup_app_Some in Hd as [Hd|[_ Hd]]; [by eapply Hok|];
    apply list_lookup_singleton_Some in Hd as [_ <-]).
  all: try (apply list_lookup_insert_Some in Hd as [(<- & <- & _)|[_ Hd]]; [|by eapply Hok];
    apply session_ok_next; [by eapply Hok|..]).
  all: try (by right); try (match goal with E : stage _ = _ |- _ => by rewrite E end).
  all: try (match goal with Hl : leaves _ _ _ _ _ _ |- _ =>
    destruct (leaves_live _ _ _ _ _ Hl) as [? Hdead] end; first [done|intros E; left; by apply Hdead]).
  - by intros n.
  - unfold session_ok. cbn. match goal with E : reauth s = _ |- _ => by rewrite E end.
Qed.

Lemma reachable_sessions_ok s : reachable s -> sessions_ok s.
Proof. revert s. by apply reachable_ind'; [|eauto using effect_sessions_ok]. Qed.

(** *** In what order frames are written *)

(** A frame of the [n]-th exchange. *)
Definition of_session s n e : Prop :=
  exists caller, callers s !! e.1 = Some caller /\ kind caller = Reauth n.

Definition contiguous s n (l : list (nat * bytes)) : Prop :=
  exists before during after, l = before ++ during ++ after
    /\ Forall (fun e => ~ of_session s n e) before /\ Forall (of_session s n) during
    /\ Forall (fun e => ~ of_session s n e) after.

(** The exchange that is running is the last that wrote. *)
Definition at_the_end s n (l : list (nat * bytes)) : Prop :=
  exists before during, l = before ++ during
    /\ Forall (fun e => ~ of_session s n e) before /\ Forall (of_session s n) during.

Definition order_ok s : Prop :=
  (forall n, contiguous s n (queue s))
  /\ (forall n, reauth s = Exchanging n -> at_the_end s n (queue s)).

Lemma contiguous_prefix s n l l' : l' `prefix_of` l -> contiguous s n l -> contiguous s n l'.
Proof.
  intros [k Hk] (a & b & c & -> & Ha & Hb & Hc). apply (f_equal (take (length l'))) in Hk.
  rewrite take_app_length, !take_app in Hk. rewrite <- Hk.
  do 3 eexists. split; [done|]. auto using Forall_take.
Qed.

Lemma at_the_end_prefix s n l l' : l' `prefix_of` l -> at_the_end s n l -> at_the_end s n l'.
Proof.
  intros [k Hk] (a & b & -> & Ha & Hb). apply (f_equal (take (length l'))) in Hk.
  rewrite take_app_length, !take_app in Hk. rewrite <- Hk.
  do 2 eexists. split; [done|]. auto using Forall_take.
Qed.

(** Whose a frame in the queue is does not change. *)
Lemma of_session_kept s s' n e caller :
  grows (callers s) (callers s') -> callers s !! e.1 = Some caller ->
  of_session s' n e <-> of_session s n e.
Proof.
  intros Hg Hc. destruct (Hg _ _ Hc) as (caller' & Hc' & Hk & _).
  split; intros (x & Hx & Hn); simplify_eq; [exists caller|exists caller']; by rewrite ?Hk in *.
Qed.

(** The same frames, seen from a later state. *)
Lemma segments_kept s s' n l :
  grows (callers s) (callers s') ->
  (forall e, e ∈ l -> exists caller, callers s !! e.1 = Some caller) ->
  (contiguous s n l -> contiguous s' n l) /\ (at_the_end s n l -> at_the_end s' n l).
Proof.
  intros Hg Hl.
  assert (Hyes : forall x, (forall e, e ∈ x -> e ∈ l) -> Forall (of_session s n) x ->
    Forall (of_session s' n) x).
  { intros x Hx. rewrite !Forall_forall. intros Hf e He. destruct (Hl e (Hx _ He)) as [caller Hc].
    apply (of_session_kept s s' n e caller Hg Hc), (Hf e He). }
  assert (Hno : forall x, (forall e, e ∈ x -> e ∈ l) -> Forall (fun e => ~ of_session s n e) x ->
    Forall (fun e => ~ of_session s' n e) x).
  { intros x Hx. rewrite !Forall_forall. intros Hf e He Hs. destruct (Hl e (Hx _ He)) as [caller Hc].
    apply (Hf e He). by apply (of_session_kept s s' n e caller Hg Hc). }
  split.
  - intros (a & b & c & E & Ha & Hb & Hc). exists a, b, c. split; [done|].
    split_and!; [apply Hno|apply Hyes|apply Hno]; try done; subst l; set_solver.
  - intros (a & b & E & Ha & Hb). exists a, b. split; [done|].
    split; [apply Hno|apply Hyes]; try done; subst l; set_solver.
Qed.

Lemma queue_callers s e : ok s -> e ∈ queue s -> exists caller, callers s !! e.1 = Some caller.
Proof. destruct e as [c frame]. intros Hok Hin. apply (ok_frames _ _ _ s Hok) in Hin. naive_solver. Qed.

(** A frame that joins the queue: one of no exchange, or of the one that is running. *)
Lemma contiguous_snoc s n l e :
  contiguous s n l -> ~ of_session s n e -> contiguous s n (l ++ [e]).
Proof.
  intros (a & b & c & -> & Ha & Hb & Hc) He. exists a, b, (c ++ [e]).
  rewrite <- !app_assoc. split; [done|]. split_and!; try done. apply Forall_app_2; auto.
Qed.

Lemma at_the_end_snoc s n l e : at_the_end s n l -> of_session s n e -> at_the_end s n (l ++ [e]).
Proof.
  intros (a & b & -> & Ha & Hb) He. exists a, (b ++ [e]). rewrite <- app_assoc.
  split; [done|]. split; [done|]. apply Forall_app_2; auto.
Qed.

Lemma at_the_end_contiguous s n l : at_the_end s n l -> contiguous s n l.
Proof. intros (a & b & -> & Ha & Hb). exists a, b, []. by rewrite app_nil_r. Qed.

Lemma no_session_at_the_end s n l : Forall (fun e => ~ of_session s n e) l -> at_the_end s n l.
Proof. intros Hl. exists l, []. by rewrite app_nil_r. Qed.

(** The exchange that runs after a change ran before it, or starts and has no frame yet. *)
Lemma effect_exchange s s' n :
  effect s s' -> reauth s' = Exchanging n ->
  reauth s = Exchanging n \/ (reauth s = AwaitingGate n /\ callers s' = callers s).
Proof.
  intros He Hr. change_cases He; eauto.
  match goal with Ht : turns _ _ |- _ => inversion Ht; subst; by right end.
Qed.

Lemma order_snoc s c caller v id frame n :
  ok s -> sessions_ok s -> order_ok s ->
  callers s !! c = Some caller -> stage caller = Queueing v id frame ->
  contiguous s n (queue s ++ [(c, frame)])
  /\ (reauth s = Exchanging n -> at_the_end s n (queue s ++ [(c, frame)])).
Proof.
  intros Hok Hs [Hc He] Hcaller Hst. pose proof (Hs _ _ Hcaller) as Hsession.
  assert (Hlive : is_live (stage caller) = true) by by rewrite Hst.
  unfold session_ok in Hsession. destruct (kind caller) as [|m] eqn:Hk.
  - assert (Hnot : ~ of_session s n (c, frame)).
    { intros (x & Hx & Hn). simplify_eq/=. congruence. }
    split; [by apply contiguous_snoc|]. intros E. specialize (Hsession n E).
    unfold holds_gate in Hsession. by rewrite bool_decide_true, Hst in Hsession.
  - destruct (reauth s) as [|k|k|k|] eqn:E; try (destruct Hsession; congruence); try congruence.
    destruct Hsession as [_ Hm]. specialize (Hm Hlive). subst m.
    destruct (decide (n = k)) as [->|Hne].
    + assert (Hyes : of_session s k (c, frame)) by by exists caller.
      pose proof (at_the_end_snoc _ _ _ _ (He k eq_refl) Hyes) as Hend.
      split; [by apply at_the_end_contiguous|done].
    + split; [|congruence]. apply contiguous_snoc; [done|].
      intros (x & Hx & Hn). simplify_eq/=. congruence.
Qed.

Lemma effect_order_ok s s' : ok s -> sessions_ok s -> order_ok s -> effect s s' -> order_ok s'.
Proof.
  intros Hok Hs Hord Heff. pose proof (effect_grows _ _ _ _ _ Heff) as Hg.
  pose proof (effect_ok _ _ _ _ _ Hok Heff) as Hok'.
  destruct (effect_queue _ _ _ _ _ Heff) as [Hq|(c & caller & v & id & f & Hc & Hst & Hq & Hcs & Hr)].
  - split; intros n.
    + eapply contiguous_prefix; [done|]. eapply segments_kept; [done|by eauto using queue_callers|].
      apply Hord.
    + intros E. eapply at_the_end_prefix; [done|].
      destruct (effect_exchange _ _ _ Heff E) as [E'|[E' Hsame]].
      * eapply segments_kept; [done|by eauto using queue_callers|]. by apply Hord.
      * apply no_session_at_the_end, Forall_forall. intros e Hin (x & Hx & Hk).
        rewrite Hsame in Hx. specialize (Hs _ _ Hx). unfold session_ok in Hs. rewrite Hk, E' in Hs. lia.
  - assert (Hkeep : forall n, (contiguous s n (queue s') -> contiguous s' n (queue s'))
      /\ (at_the_end s n (queue s') -> at_the_end s' n (queue s'))).
    { intros n. apply segments_kept; [done|]. rewrite Hq. intros e [He|He]%elem_of_app.
      - by eapply queue_callers.
      - apply list_elem_of_singleton in He as ->. by exists caller. }
    split; intros n.
    + apply Hkeep. rewrite Hq. by eapply order_snoc.
    + intros E. apply Hkeep. rewrite Hq. rewrite Hr in E. by eapply order_snoc.
Qed.

Lemma reachable_order_ok s : reachable s -> order_ok s.
Proof.
  intros Hr. cut (ok s /\ sessions_ok s /\ order_ok s); [by intros (_ & _ & ?)|].
  revert s Hr. apply reachable_ind'.
  - intros st b. split_and!; [by apply reachable_ok; exists st, b|done|].
    split; intros n; cbn; [apply at_the_end_contiguous|intros _]; by apply no_session_at_the_end.
  - intros s s' (Ho & Hs & Hq) He.
    split_and!; [by eapply effect_ok|by eapply effect_sessions_ok|by eapply effect_order_ok].
Qed.

End sessions.

End ConnectionSessions.
