(* ===== verification/ConnectionEnds.v ===== *)
(** A connection that is closed lets every call go: its tasks and its calls need no broker,
    clock or user to end, and they end. *)

From S2P Require Import Prelude Sanitize Text ErrorCodes ApiKeys Scram Sasl Tls BatchDecode Rpc Connection ConnectionFacts ConnectionInvariants ConnectionSessions.

Module ConnectionEnds.
Import Rpc Codec Error Connection ConnectionFacts ConnectionInvariants ConnectionSessions.

(** What a connection does by itself: its calls' own steps and its tasks' turns, where a
    write that was started ends one way or the other, and an exchange whose request failed
    ends. *)
Definition internal {R} (a : Action (R := R)) : bool :=
  match a with
  | Step _ | WriterTakes | WriterWrites | WriterFails | WriterStops | WriterEnds
  | ReaderStops | ReaderEnds | ReauthEnters | ReauthSucceeds _ | ReauthFails | ReauthStops => true
  | _ => false
  end.

Section ends.
Context `{Messages} {R : Type}.
Context (config : ConnectionConfig.ConnectionConfig) (peer : string)
        (versions : Versions.ApiVersions).
Abbreviation Connection := (@Connection R).
Abbreviation Caller := (@Caller R).
Abbreviation act := (@act _ R config peer versions).
Abbreviation run := (@run _ R config peer versions).
Abbreviation reachable := (@reachable _ R config peer versions).
Abbreviation ok := (@ok _ R config peer versions).
Abbreviation Action := (@Action R).
Implicit Types (s : Connection) (caller : Caller) (a : Action) (c n : nat).

(** *** What is left to do *)

Definition stage_rank (st : Stage (R := R)) : nat :=
  match st with
  | AtGate => 8 | Starting => 7 | AtPermit _ _ _ => 6 | Registering _ _ _ => 5
  | Queueing _ _ _ => 4 | Unqueued _ | Waiting _ _ | Expired _ _ => 1
  | Finished _ _ _ | Dropped _ => 0
  end.

Definition writer_rank (w : Writer) : nat :=
  match w with Writing _ _ => 3 | Idle => 2 | Stopped => 1 | Gone => 0 end.
Definition reader_rank (r : Reader) : nat :=
  match r with Reading => 2 | ReaderStopped => 1 | ReaderGone => 0 end.
Definition reauth_rank (a : ReauthTask) : nat :=
  match a with AwaitingGate _ => 3 | Exchanging _ => 2 | Sleeping _ => 1 | NoReauth | ReauthEnded => 0 end.

Definition ranks (cs : list Caller) : nat := sum_list_with (fun caller => stage_rank (stage caller)) cs.
Arguments ranks : simpl never.

Definition measure s : nat :=
  (ranks (callers s) + 2 * length (commands s) + writer_rank (writer s)
   + reader_rank (reader s) + reauth_rank (reauth s))%nat.

Lemma ranks_insert cs c caller caller' :
  cs !! c = Some caller ->
  (ranks (<[c := caller']> cs) + stage_rank (stage caller)
   = ranks cs + stage_rank (stage caller'))%nat.
Proof. apply (sum_insert (fun caller => stage_rank (stage caller))). Qed.

Lemma set_caller_ranks s c caller next :
  callers s !! c = Some caller -> (stage_rank next < stage_rank (stage caller))%nat ->
  (ranks (<[c := at_stage caller next]> (callers s)) < ranks (callers s))%nat.
Proof. intros Hc Hn. pose proof (ranks_insert _ _ _ (at_stage caller next) Hc) as Hr. cbn in Hr. lia. Qed.

(** A step of a call brings it closer to its end; a frame it puts in the channel is worth
    less than the step. *)
Lemma caller_step_measure s c caller s' :
  callers s !! c = Some caller -> caller_step config peer versions s c caller = Some s' ->
  pending s = None -> (measure s' < measure s)%nat /\ pending s' = None.
Proof.
  intros Hc Hs Hp. unfold caller_step, begin_send, receive in Hs.
  assert (Hleave : forall next s1, callers s1 = callers s -> pending s1 = None -> commands s1 = commands s ->
    writer s1 = writer s -> reader s1 = reader s -> reauth s1 = reauth s ->
    (stage_rank next < stage_rank (stage caller))%nat ->
    (measure (leave s1 c caller next) < measure s)%nat /\ pending (leave s1 c caller next) = None).
  { intros next s1 E1 E2 E3 E4 E5 E6 Hlt. pose proof (set_caller_ranks _ _ _ _ Hc Hlt).
    unfold measure, leave. case_match; cbn; rewrite E1, E2, E3, E4, E5, E6; split; (done || lia). }
  assert (Hmove : forall next, (stage_rank next < stage_rank (stage caller))%nat ->
    (measure (set_caller s c (at_stage caller next)) < measure s)%nat
    /\ pending (set_caller s c (at_stage caller next)) = None).
  { intros next Hlt. pose proof (set_caller_ranks _ _ _ _ Hc Hlt). unfold measure. cbn. split; (done || lia). }
  pose proof (fun next => set_caller_ranks _ _ _ next Hc) as Hrank.
  destruct (stage caller) as [| |v id f|v id f|v id f|id|v id|id elapsed|id o r|id] eqn:Hst; try done.
  - destruct (reauth s); try done; injection Hs as <-; apply Hmove; cbn; lia.
  - injection Hs as <-. repeat case_match; apply Hleave; cbn; (done || lia).
  - destruct (inflight s); [done|]. injection Hs as <-. unfold measure. cbn.
    specialize (Hrank (Registering v id f)). cbn in Hrank. split; (done || lia).
  - rewrite Hp in Hs. injection Hs as <-. apply Hleave; cbn; (done || lia).
  - assert (Hgo : forall next, (stage_rank next < 2)%nat ->
      (ranks (<[c := at_stage caller next]> (callers s)) + 2 < ranks (callers s))%nat).
    { intros next Hn. pose proof (ranks_insert _ _ _ (at_stage caller next) Hc) as Hr.
      rewrite Hst in Hr. cbn in Hr. lia. }
    destruct (writer s) eqn:Hw; try case_match; try done; injection Hs as <-; unfold measure; cbn;
      rewrite ?length_app, ?Hw; cbn.
    all: try (specialize (Hgo (Waiting v id)); cbn in Hgo; split; (done || lia)).
    specialize (Hgo (Unqueued id)). cbn in Hgo. split; (done || lia).
  - injection Hs as <-. unfold Pending.take. rewrite Hp. apply Hleave; cbn; (done || lia).
  - unfold sender_dropped in Hs. rewrite Hp in Hs.
    repeat case_match; simplify_eq; apply Hleave; cbn; (done || lia).
  - injection Hs as <-. specialize (Hrank (Finished (Some id) (Err (timeout caller elapsed)) None)).
    cbn in Hrank. unfold measure, Pending.take. cbn. rewrite Hp. split; (done || lia).
Qed.

Lemma closed_again s : pending s = None -> close_pending peer s = s.
Proof. intros Hp. unfold close_pending. rewrite Hp. cbn. rewrite <- Hp. by destruct s. Qed.

Lemma drop_inner_measure s : measure (drop_inner s) = measure s /\ pending (drop_inner s) = pending s.
Proof. unfold drop_inner. by case_match. Qed.

(** Whatever a closed connection does by itself leaves less to do. *)
Lemma internal_measure a s s' :
  act a s = Some s' -> internal a = true -> pending s = None ->
  (measure s' < measure s)%nat /\ pending s' = None.
Proof.
  intros Ha Hi Hp. destruct a; try done; cbn [Connection.act] in Ha; unfold with_caller in Ha.
  - destruct (callers s !! c) as [caller|] eqn:Hc; [|done]. by eapply caller_step_measure.
  - unfold writer_takes in Ha. destruct (writer s) eqn:Hw; try done.
    destruct (commands s) as [|[c f] q] eqn:Hq; [done|]. simplify_eq.
    unfold measure. cbn. rewrite Hw, Hq. cbn. split; (done || lia).
  - unfold writer_writes in Ha. destruct (writer s) eqn:Hw; simplify_eq.
    unfold measure. cbn. rewrite Hw. cbn. split; (done || lia).
  - unfold writer_fails in Ha. destruct (writer s) eqn:Hw; simplify_eq.
    unfold measure. cbn. rewrite Hw. cbn. split; (done || lia).
  - unfold writer_stops in Ha. destruct (writer s) eqn:Hw; try done. case_match; simplify_eq.
    unfold measure. cbn. rewrite Hw. cbn. split; (done || lia).
  - unfold writer_ends in Ha. destruct (writer s) eqn:Hw; simplify_eq. rewrite closed_again by done.
    unfold measure. cbn. rewrite Hw. cbn. split; (done || lia).
  - unfold reader_stops in Ha. destruct (reader s) eqn:Hw; simplify_eq.
    unfold measure. cbn. rewrite Hw. cbn. split; (done || lia).
  - unfold reader_ends in Ha. destruct (reader s) eqn:Hw; simplify_eq. rewrite closed_again by done.
    unfold measure. cbn. rewrite Hw. cbn. split; (done || lia).
  - unfold reauth_enters in Ha. destruct (reauth s) eqn:Hw; try done. case_match; simplify_eq.
    unfold measure. cbn. rewrite Hw. cbn. split; (done || lia).
  - unfold reauth_succeeds in Ha. destruct (reauth s) eqn:Hw; try done. case_match; [done|].
    destruct again; simplify_eq.
    + unfold measure. cbn. rewrite Hw. cbn. split; (done || lia).
    + rewrite (proj1 (drop_inner_measure _)), (proj2 (drop_inner_measure _)).
      unfold measure. cbn. rewrite Hw. cbn. split; (done || lia).
  - unfold reauth_fails in Ha. destruct (reauth s) eqn:Hw; try done. case_match; simplify_eq.
    rewrite (proj1 (drop_inner_measure _)), (proj2 (drop_inner_measure _)). unfold close.
    rewrite closed_again by done. unfold measure. cbn. rewrite Hw. cbn. split; (done || lia).
  - unfold reauth_stops in Ha. destruct (reauth s) eqn:Hw; try done. case_match; simplify_eq.
    rewrite (proj1 (drop_inner_measure _)), (proj2 (drop_inner_measure _)).
    unfold measure. cbn. rewrite Hw. cbn. split; (done || lia).
Qed.

(** *** Somebody can always go on *)

Definition can_go s : Prop := exists a s', internal a = true /\ act a s = Some s'.

Lemma step_goes s c caller s' :
  callers s !! c = Some caller -> caller_step config peer versions s c caller = Some s' -> can_go s.
Proof.
  intros Hc Hs. exists (Step c), s'. split; [done|]. cbn. unfold with_caller. by rewrite Hc.
Qed.

(** The channel is full or has room, and a full one has a writer. *)
Lemma queueing_goes s c caller v id f :
  (0 < ConnectionConfig.max_in_flight config)%nat ->
  callers s !! c = Some caller -> stage caller = Queueing v id f -> can_go s.
Proof.
  intros Hmax Hc Hst.
  assert (Hstep : forall s', caller_step config peer versions s c caller = Some s' -> can_go s)
    by (intros; by eapply step_goes).
  unfold caller_step in Hstep. rewrite Hst in Hstep.
  destruct (writer s) as [|d g| |] eqn:Hw; [| | |by eapply Hstep].
  - destruct (commands s) as [|[d g] q] eqn:Hq.
    + rewrite (proj2 (Nat.ltb_lt (length []) _)) in Hstep by done. by eapply Hstep.
    + exists WriterTakes. eexists. split; [done|]. cbn. unfold writer_takes. by rewrite Hw, Hq.
  - exists WriterWrites. eexists. split; [done|]. cbn. unfold writer_writes. by rewrite Hw.
  - exists WriterEnds. eexists. split; [done|]. cbn. unfold writer_ends. by rewrite Hw.
Qed.

(** A call past the gate and the permit goes on, or what it waits for does. *)
Lemma holder_goes s c caller :
  (0 < ConnectionConfig.max_in_flight config)%nat -> pending s = None ->
  callers s !! c = Some caller -> holds_permit (stage caller) = true -> can_go s.
Proof.
  intros Hmax Hp Hc Hh.
  destruct (stage caller) as [| |v id f|v id f|v id f|id|v id|id elapsed|id o r|id] eqn:Hst; try done.
  - eapply step_goes; [done|]. unfold caller_step. by rewrite Hst, Hp.
  - by eapply queueing_goes.
  - eapply step_goes; [done|]. unfold caller_step. by rewrite Hst.
  - assert (exists s', caller_step config peer versions s c caller = Some s') as [s' Hs].
    { unfold caller_step, receive, sender_dropped. rewrite Hst, Hp. repeat case_match; by eexists. }
    by eapply step_goes.
Qed.

Lemma past_gate_goes s c caller :
  (0 < ConnectionConfig.max_in_flight config)%nat -> ok s -> pending s = None ->
  callers s !! c = Some caller -> is_live (stage caller) = true -> stage caller <> AtGate -> can_go s.
Proof.
  intros Hmax Hok Hp Hc Hl Hg. destruct (holds_permit (stage caller)) eqn:Hh; [by eapply holder_goes|].
  destruct (stage caller) as [| |v id f|v id f|v id f|id|v id|id elapsed|id o r|id] eqn:Hst; try done.
  - eapply step_goes; [done|]. unfold caller_step. by rewrite Hst.
  - destruct (inflight s) as [|n] eqn:Hi.
    + destruct (ok_permits _ _ _ _ Hok) as [Hsum _]. rewrite Hi in Hsum.
      assert (exists d holder, callers s !! d = Some holder /\ holds_permit (stage holder) = true)
        as (d & holder & Hd & Hholds); [|by eapply holder_goes].
      unfold holders in Hsum.
      destruct (filter (fun caller => holds_permit (stage caller) = true) (callers s)) as [|x l] eqn:E;
        [cbn in Hsum; lia|].
      assert (Hx : x ∈ filter (fun caller => holds_permit (stage caller) = true) (callers s))
        by (rewrite E; set_solver).
      apply list_elem_of_filter in Hx as [Hx [d Hd]%list_elem_of_lookup]. by exists d, x.
    + eapply step_goes; [done|]. unfold caller_step. by rewrite Hst, Hi.
  - eapply step_goes; [done|]. unfold caller_step. by rewrite Hst.
Qed.

(** Only a user's call waits at the gate. *)
Definition gate_ok s : Prop :=
  forall c caller, callers s !! c = Some caller -> stage caller = AtGate -> kind caller = Ordinary.

Lemma leaves_not_at_gate s c caller next p : leaves peer s c caller next p -> next <> AtGate.
Proof. by destruct 1. Qed.

Lemma reachable_gate_ok s : reachable s -> gate_ok s.
Proof.
  revert s. apply reachable_ind'; [done|]. intros s s' Hok He.
  unfold gate_ok. change_cases He; intros d caller' Hd Hst; eauto.
  all: try (apply lookup_app_Some in Hd as [Hd|[_ Hd]]; [by eauto|];
    by apply list_lookup_singleton_Some in Hd as [_ <-]).
  all: apply list_lookup_insert_Some in Hd as [(<- & <- & _)|[_ Hd]]; [|by eauto]; cbn in Hst; try done.
  all: try (match goal with Hn : (exists _, _) \/ _ |- _ => by destruct Hn as [(? & -> & _)|(? & ->)] end).
  all: match goal with Hl : leaves _ _ _ _ _ _ |- _ => by destruct (leaves_not_at_gate _ _ _ _ _ Hl) end.
Qed.

Lemma closed_goes s c caller :
  (0 < ConnectionConfig.max_in_flight config)%nat -> ok s -> gate_ok s -> pending s = None ->
  callers s !! c = Some caller -> is_live (stage caller) = true -> can_go s.
Proof.
  intros Hmax Hok Hgate Hp Hc Hl.
  destruct (stage caller) eqn:Hst; try (eapply past_gate_goes; rewrite ?Hst; done).
  destruct (reauth s) as [|n|n|n|] eqn:Hr;
    try (eapply step_goes; [done|]; unfold caller_step; by rewrite Hst, Hr).
  destruct (live_call_of (Reauth n) s) eqn:Hlive.
  - apply existsb_exists in Hlive as (x & [d Hd]%list_elem_of_In%list_elem_of_lookup & Hx).
    apply andb_true_iff in Hx as [Hk%bool_decide_eq_true Hx].
    eapply past_gate_goes; [done|done|done|done|done|].
    intros Hs. pose proof (Hgate _ _ Hd Hs). congruence.
  - exists ReauthFails. eexists. split; [done|]. cbn. unfold reauth_fails. by rewrite Hr, Hlive.
Qed.

(** *** What the calls are told *)

(** A call that has no answer in its channel, and does not return one. *)
Definition unanswered s c : Prop :=
  (forall frame, mail s !! c <> Some (Ok frame))
  /\ exists caller, callers s !! c = Some caller
     /\ (is_live (stage caller) = true \/ exists id e, stage caller = Finished id (Err e) None).

Lemma unanswered_leave s s1 c caller id e :
  unanswered s c -> callers s !! c = Some caller -> callers s1 = callers s -> mail s1 = mail s ->
  unanswered (leave s1 c caller (Finished id (Err e) None)) c.
Proof.
  intros [Hm _] Hc Hcs Hms. pose proof (lookup_lt_Some _ _ _ Hc) as Hlt.
  unfold leave, unanswered. case_match; cbn; rewrite Hcs, Hms; (split; [done|]);
    rewrite list_lookup_insert_eq by done; eexists; split; (done || eauto).
Qed.

Lemma caller_step_unanswered s c caller s' :
  callers s !! c = Some caller -> caller_step config peer versions s c caller = Some s' ->
  unanswered s c -> unanswered s' c.
Proof.
  intros Hc Hs Hu. pose proof Hu as [Hm _]. pose proof (lookup_lt_Some _ _ _ Hc) as Hlt.
  unfold caller_step, begin_send, receive in Hs.
  repeat case_match; simplify_eq; try (by eapply unanswered_leave); try (by edestruct Hm).
  all: try (split; [done|]; cbn; rewrite list_lookup_insert_eq by done; eexists; split; [done|]; by eauto).
  all: unfold leave; case_match; (split; [done|]); cbn; rewrite list_lookup_insert_eq by done;
    eexists; (split; [done|]); by left.
Qed.

Lemma caller_step_others s c caller s' d :
  caller_step config peer versions s c caller = Some s' -> d <> c ->
  callers s' !! d = callers s !! d /\ mail s' = mail s.
Proof.
  intros Hs Hne. unfold caller_step, begin_send, receive, leave in Hs.
  repeat case_match; simplify_eq; cbn; by rewrite list_lookup_insert_ne by done.
Qed.

Lemma internal_unanswered a s s' c :
  act a s = Some s' -> internal a = true -> pending s = None -> unanswered s c -> unanswered s' c.
Proof.
  intros Ha Hi Hp Hu. destruct a; try done;
    cbn [Connection.act] in Ha; unfold with_caller in Ha.
  { destruct (callers s !! _) as [caller|] eqn:Hc; [|done].
    match type of Hc with _ !! ?d = _ => destruct (decide (c = d)) as [->|Hne] end.
    - by eapply caller_step_unanswered.
    - destruct (caller_step_others _ _ _ _ c Ha Hne) as [Hd Hm]. unfold unanswered. by rewrite Hd, Hm. }
  all: unfold writer_takes, writer_writes, writer_fails, writer_stops, writer_ends, reader_stops,
    reader_ends, reauth_enters, reauth_succeeds, reauth_fails, reauth_stops, close, drop_inner in Ha;
    rewrite ?closed_again in Ha by done; by repeat case_match; simplify_eq.
Qed.

(** *** Runs of a closed connection *)

Lemma internal_run actions s s' :
  Forall (fun a => internal a = true) actions -> run actions s = Some s' -> pending s = None ->
  (length actions + measure s' <= measure s)%nat /\ pending s' = None
  /\ forall c, unanswered s c -> unanswered s' c.
Proof.
  revert s. induction actions as [|a actions IH]; intros s Hall Hr Hp; cbn in Hr.
  - simplify_eq. by split_and!.
  - apply Forall_cons in Hall as [Ha Hall]. destruct (act a s) as [s1|] eqn:Hs; [|done].
    destruct (internal_measure _ _ _ Hs Ha Hp) as [Hlt Hp1].
    destruct (IH _ Hall Hr Hp1) as (Hle & Hp' & Hu).
    split_and!; [cbn; lia|done|]. intros c Hc. apply Hu. by eapply internal_unanswered.
Qed.

Lemma run_reachable actions s s' : reachable s -> run actions s = Some s' -> reachable s'.
Proof.
  revert s. induction actions as [|a actions IH]; intros s Hs Hr; cbn in Hr; [by simplify_eq|].
  destruct (act a s) as [s1|] eqn:Ha; [|done]. eapply IH; [|done].
  destruct Hs as (st & b & Hb). exists st, b. eapply rtc_r; [done|]. by exists a.
Qed.

End ends.

End ConnectionEnds.
