(* ===== verification/ConnectionProperties.v ===== *)
(** What a connection promises to its callers, with a demonstration of each on a small
    protocol. *)

From S2P Require Import Prelude Sanitize Text ErrorCodes ApiKeys Scram Sasl Tls BatchDecode Rpc BatchDecodeFacts Connection ConnectionFacts ConnectionInvariants ConnectionSessions ConnectionEnds.

(** ** What reaches the socket, and what comes back *)

Module ConnectionWire.
Import Rpc Codec Error Versions VersionFacts Connection ConnectionFacts ConnectionInvariants.

(** The correlation id of a request frame: every version of the header starts with the api
    key, the version and the id. *)
Definition request_id (frame : bytes) : Z := get_i32 (drop 4 frame).

(** The documented layout of a request header. *)
Class HeaderLaws `{Messages} : Prop := {
  header_starts_with_its_id header version bytes :
    encode_header header version = Ok bytes -> 0 <= correlation_id header <= I32_MAX ->
    (8 <= length bytes)%nat /\ request_id bytes = correlation_id header;
}.

Lemma version_for_Ok `{Messages} versions r v :
  version_for versions r = Ok v ->
  exists e, entries versions !! ApiKey.code (API_KEY r) = Some e
    /\ in_range v (broker e) /\ in_range v (typed_range r)
    /\ forall w, in_range w (broker e) -> in_range w (typed_range r) -> w <= v.
Proof.
  unfold version_for, negotiate_with.
  destruct (entries versions !! _) as [e|]; [|done].
  destruct (if is_empty _ then None else _) as [v'|] eqn:Hv; [|done]. intros [= <-].
  exists e. split; [done|]. by apply overlap_Some.
Qed.

Lemma nth_id_range n : 0 <= nth_id n <= I32_MAX.
Proof.
  rewrite nth_id_mod. change I32_MAX with (2 ^ 31 - 1).
  pose proof (Z.mod_pos_bound (1 + Z.of_nat n) (2 ^ 31) ltac:(lia)). lia.
Qed.

Lemma request_id_head head body :
  (8 <= length head)%nat -> request_id (head ++ body) = request_id head.
Proof.
  intros Hl. unfold request_id, get_i32. rewrite drop_app_le by lia.
  by rewrite take_app_le by (rewrite length_drop; lia).
Qed.

Section wire.
Context `{HeaderLaws} {R : Type}.
Context (config : ConnectionConfig.ConnectionConfig) (peer : string)
        (versions : Versions.ApiVersions).
Abbreviation Connection := (@Connection R).
Abbreviation Caller := (@Caller R).
Abbreviation ok := (@ok _ R config peer versions).
Abbreviation sendable := (@sendable _ R config versions).
Implicit Types (s : Connection) (caller : Caller).

Lemma sendable_id caller v id frame :
  sendable caller v id frame -> 0 <= id <= I32_MAX -> request_id frame = id.
Proof.
  intros (_ & _ & He) Hid. unfold encode_request in He.
  destruct (protocol_key _) as [upstream|]; [|done]. cbn [result_bind] in He. cbn in He.
  destruct (encode_header _ _) as [head|] eqn:Hh; [|done]. cbn in He.
  destruct (encode_body _ _) as [body|]; [|done]. cbn in He. injection He as <-.
  apply header_starts_with_its_id in Hh as [Hlen Hr]; [|done].
  by rewrite request_id_head.
Qed.

Lemma on_the_wire s c frame : (c, frame) ∈ wire s -> (c, frame) ∈ queue s.
Proof. unfold queue. set_solver. Qed.

(** A written frame carries the id of the call that wrote it, and as long as ids have not
    come back round, of no other. *)
Lemma frame_of_id s c caller d frame :
  ok s -> Z.of_nat (length (issued s)) <= 2 ^ 31 ->
  callers s !! c = Some caller -> (d, frame) ∈ wire s ->
  id_of (stage caller) = Some (request_id frame) ->
  d = c /\ exists v, sendable caller v (request_id frame) frame.
Proof.
  intros Hok Hlen Hc Hw Hid.
  destruct (ok_frames _ _ _ _ Hok _ _ (on_the_wire _ _ _ Hw)) as (caller' & v & id & Hd & Hid' & Hs).
  destruct Hok as [[_ _ Hissued Hall] _ _ _ _ _].
  destruct (proj1 (list_elem_of_lookup _ _) (Hall _ _ _ Hc Hid)) as [n Hn].
  destruct (proj1 (list_elem_of_lookup _ _) (Hall _ _ _ Hd Hid')) as [m Hm].
  destruct (Hissued _ _ Hn) as (x & Hx & Hxid). destruct (Hissued _ _ Hm) as (y & Hy & Hyid).
  rewrite Hc in Hx. injection Hx as <-. rewrite Hid in Hxid. injection Hxid as Hxid.
  rewrite Hd in Hy. injection Hy as <-. rewrite Hid' in Hyid. injection Hyid as ->.
  pose proof (sendable_id _ _ _ _ Hs (nth_id_range m)) as Hr.
  assert (n = m) as ->.
  { apply lookup_lt_Some in Hn, Hm. apply nth_id_inj; [lia|lia|congruence]. }
  rewrite Hn in Hm. injection Hm as <-. rewrite Hc in Hd. injection Hd as <-.
  split; [done|]. exists v. by rewrite Hr.
Qed.

End wire.

End ConnectionWire.

(** ** A small protocol *)

(** Headers of eight bytes, no response header but the id, and bodies of bytes. *)
Module ConnectionDemo.
Import Rpc Codec Error Connection ConnectionWire BatchSpec.

#[export] Instance demo_messages : Messages := {|
  VERSIONS _ := {| Versions.min := 0; Versions.max := 4 |};
  protocol_key_exists _ := true;
  request_header_version _ _ := 0;
  response_header_version _ _ := 0;
  encode_header h _ :=
    Ok (be_bytes 2 (request_api_key h) ++ be_bytes 2 (request_api_version h)
        ++ be_bytes 4 (correlation_id h));
  decode_header frame _ :=
    if (length frame <? 4)%nat then Err (io_source "short") else Ok (drop 4 frame) |}.

#[export] Instance demo_header_laws : HeaderLaws.
Proof.
  split. intros h v b Hb Hid.
  assert (b = be_bytes 2 (request_api_key h) ++ be_bytes 2 (request_api_version h)
    ++ be_bytes 4 (correlation_id h)) as ->
    by (unfold encode_header, demo_messages in Hb; congruence).
  clear Hb. split.
  - rewrite !length_app, !BatchFacts.length_be_bytes. lia.
  - unfold request_id, get_i32. rewrite (app_assoc (be_bytes 2 _)).
    rewrite drop_app_length' by (by rewrite length_app, !BatchFacts.length_be_bytes).
    rewrite take_ge by (by rewrite BatchFacts.length_be_bytes).
    rewrite BatchFacts.be_value_bytes. apply BatchFacts.to_signed_mod; [lia|].
    change I32_MAX with (2 ^ 31 - 1) in Hid. cbn. lia.
Qed.

(** A connection of one request at a time to a broker that knows Metadata. *)
Definition demo_config : ConnectionConfig.ConnectionConfig :=
  ConnectionConfig.with_max_in_flight (ConnectionConfig.default "0.1.0") 0.

Definition demo_row (key : ApiKey.ApiKey) : Z * Versions.BrokerApiVersion :=
  (ApiKey.code key, {| Versions.api_key := key;
                       Versions.broker := {| Versions.min := 1; Versions.max := 12 |};
                       Versions.ours := None |}).

Definition demo_versions : Versions.ApiVersions := {|
  Versions.entries := list_to_map (map demo_row [ApiKey.Metadata; ApiKey.SaslHandshake]) |}.

Definition ask (body : bytes) : Call bytes := {|
  call_rpc := rpc "MetadataRequest" ApiKey.Metadata "MetadataResponse";
  encode_body _ := Ok body;
  decode_body b _ := Ok b |}.

Definition reauthenticate : Call bytes := {|
  call_rpc := rpc "SaslHandshakeRequest" ApiKey.SaslHandshake "SaslHandshakeResponse";
  encode_body _ := Ok [];
  decode_body b _ := Ok b |}.

(** A response to the [n]-th request. *)
Definition reply (n : Z) (body : bytes) : bytes := be_bytes 4 n ++ body.

Definition demo_run (session_ends : bool) (actions : list (Action (R := bytes))) : option Connection :=
  run demo_config "broker:9092" demo_versions actions (spawn demo_config Stats.new session_ends).

(** A call up to its place in the channel, and the writer's turn. *)
Definition queued (c : nat) (body : bytes) : list (Action (R := bytes)) :=
  [Send (ask body); Step c; Step c; Step c; Step c; Step c].

(** Whether each frame that was read answers one that was written. *)
Definition honest (answers : bytes -> bytes -> bool) (s : Connection (R := bytes)) : bool :=
  forallb (fun frame =>
    existsb (fun e =>
      match peek_correlation_id frame with
      | Ok i => (i =? request_id e.2) && answers e.2 frame
      | Err _ => false
      end) (wire s)) (received s).

Lemma honest_spec answers s :
  honest answers s = true ->
  forall frame, frame ∈ received s -> exists d g, (d, g) ∈ wire s
    /\ peek_correlation_id frame = Ok (request_id g) /\ answers g frame = true.
Proof.
  unfold honest. rewrite forallb_forall. intros Hh frame Hin%list_elem_of_In.
  apply Hh, existsb_exists in Hin as ([d g] & Hw%list_elem_of_In & Ht). exists d, g.
  destruct (peek_correlation_id frame) as [i|]; [|done].
  apply andb_true_iff in Ht as [->%Z.eqb_eq Ha]. by split_and!.
Qed.

(** Answers carry their request's id right at the start. *)
Definition echoes (g frame : bytes) : bool := bool_decide (take 4 frame = take 4 (drop 4 g)).

(** Where a run ends, when each of its actions is possible. *)
Definition after (session_ends : bool) (actions : list (Action (R := bytes))) : Connection :=
  default (spawn demo_config Stats.new session_ends) (demo_run session_ends actions).

Lemma demo_connection_reachable b actions :
  bool_decide (is_Some (demo_run b actions)) = true ->
  reachable demo_config "broker:9092" demo_versions (after b actions).
Proof.
  unfold after. destruct (demo_run b actions) as [s|] eqn:Hr; [intros _|by rewrite bool_decide_false by by intros []].
  eapply ConnectionEnds.run_reachable; [|exact Hr]. exists Stats.new, b. apply rtc_refl.
Qed.

End ConnectionDemo.

(** ** The properties *)

Module ConnectionProperties.
Import Rpc Codec Error Versions VersionFacts Connection ConnectionFacts ConnectionInvariants.
Import ConnectionSessions ConnectionEnds ConnectionWire ConnectionDemo BatchSpec.

(** C5: Every answer reaches the call it answers. With a broker that answers requests it
    was sent, whatever it answers late, out of order or not at all, a call that returns a
    value returns the decoding, at the version it negotiated, of an answer to the
    frame it wrote itself; as long as the connection has not handed out all of its
    2^31 correlation ids. *)
Theorem answer_reaches_its_request `{HeaderLaws} {R} config peer versions
    (s : Connection (R := R)) (answers : bytes -> bytes -> Prop) c caller id r reply :
  reachable config peer versions s -> Z.of_nat (length (issued s)) <= 2 ^ 31 ->
  (forall frame, frame ∈ received s -> exists d g, (d, g) ∈ wire s
    /\ peek_correlation_id frame = Ok (request_id g) /\ answers g frame) ->
  callers s !! c = Some caller -> stage caller = Finished id (Ok r) reply ->
  exists v i g frame, (c, g) ∈ wire s /\ answers g frame
    /\ version_for versions (call_rpc (call caller)) = Ok v
    /\ encode_request (API_KEY (call_rpc (call caller))) v i
         (ConnectionConfig.client_id config) (call caller) = Ok g
    /\ decode_response (API_KEY (call_rpc (call caller))) v (call caller) frame = Ok r.
Proof.
  intros Hr Hlen Hbroker Hc Hst. apply reachable_ok in Hr as Hok.
  pose proof (ok_stages _ _ _ _ Hok _ _ Hc) as Hs. unfold stage_ok in Hs. rewrite Hst in Hs.
  destruct reply as [frame|]; [|by destruct Hs]. destruct Hs as (i & v & -> & Hin & Hpeek & Hv & Hout).
  destruct (Hbroker _ Hin) as (d & g & Hw & Hg & Ha). rewrite Hpeek in Hg. injection Hg as ->.
  destruct (frame_of_id _ _ _ _ _ _ _ _ Hok Hlen Hc Hw) as [-> (v' & _ & Hv' & He)]; [by rewrite Hst|].
  rewrite Hv in Hv'. injection Hv' as <-. exists v, (request_id g), g, frame. by split_and!.
Qed.

(** Two calls are written and the second is answered first; the first has given up. *)
Definition crossed : Connection :=
  after false (queued 0 [x01] ++ [WriterTakes; WriterWrites; Deadline 0 7; Step 0]
    ++ queued 1 [x02] ++ [WriterTakes; WriterWrites; ReaderReads (reply 2 [x0b]); Step 1;
                          ReaderReads (reply 1 [x0a])]).

Lemma crossed_reachable : reachable demo_config "broker:9092" demo_versions crossed.
Proof. apply demo_connection_reachable. vm_compute. reflexivity. Qed.

Lemma answer_reaches_its_request_witness :
  stage <$> callers crossed !! 1%nat = Some (Finished (Some 2) (Ok [x0b]) (Some (reply 2 [x0b])))
  /\ exists v i g frame, (1%nat, g) ∈ wire crossed /\ echoes g frame = true
    /\ version_for demo_versions (call_rpc (ask [x02])) = Ok v
    /\ encode_request ApiKey.Metadata v i (Some "kaas-lib"%string) (ask [x02]) = Ok g
    /\ decode_response ApiKey.Metadata v (ask [x02]) frame = Ok [x0b].
Proof.
  split; [vm_compute; reflexivity|].
  refine (answer_reaches_its_request demo_config "broker:9092" demo_versions crossed
    (fun g frame => echoes g frame = true) 1
    {| kind := Ordinary; call := ask [x02]; stage := Finished (Some 2) (Ok [x0b]) (Some (reply 2 [x0b])) |}
    (Some 2) [x0b] (Some (reply 2 [x0b])) _ _ _ _ eq_refl).
  - exact crossed_reachable.
  - vm_compute. discriminate.
  - apply honest_spec. vm_compute. reflexivity.
  - vm_compute. reflexivity.
Defined.

(** C10: A connection that dies lets everybody go. Once its map of waiters is closed
    (the reader ended, the writer ended, or the user closed it), what it does by itself
    ends within [measure] steps, whatever order calls and tasks take their turns in; it only
    stops when every call has returned; and a call with no answer in its channel returns
    an error: it neither hangs nor waits for its deadline. *)
Theorem dead_connection_releases_everyone `{Messages} {R} config peer versions
    (s : Connection (R := R)) actions s' :
  (0 < ConnectionConfig.max_in_flight config)%nat ->
  reachable config peer versions s -> pending s = None ->
  Forall (fun a => internal a = true) actions -> run config peer versions actions s = Some s' ->
  (length actions <= measure s)%nat
  /\ ((forall a, internal a = true -> act config peer versions a s' = None) ->
      (forall c caller, callers s' !! c = Some caller -> is_live (stage caller) = false)
      /\ forall c, unanswered s c ->
         exists caller id e, callers s' !! c = Some caller /\ stage caller = Finished id (Err e) None).
Proof.
  intros Hmax Hr Hp Hall Hrun. pose proof (run_reachable _ _ _ _ _ _ Hr Hrun) as Hr'.
  destruct (internal_run _ _ _ _ _ _ Hall Hrun Hp) as (Hlen & Hp' & Hu). split; [lia|].
  intros Hstuck.
  assert (Hdone : forall c caller, callers s' !! c = Some caller -> is_live (stage caller) = false).
  { intros c caller Hc. destruct (is_live (stage caller)) eqn:Hl; [|done].
    destruct (closed_goes config peer versions s' c caller) as (a & s2 & Hi & Ha);
      eauto using reachable_ok, reachable_gate_ok. by rewrite Hstuck in Ha. }
  split; [done|]. intros c Hc. destruct (Hu _ Hc) as (_ & caller & Hcaller & [Hl|(id & e & He)]).
  - by rewrite (Hdone _ _ Hcaller) in Hl.
  - by exists caller, id, e.
Qed.

(** A call waits for its answer and another for its permit when the socket ends. *)
Definition cut : Connection :=
  after false (queued 0 [x01] ++ [WriterTakes; WriterWrites; Send (ask [x02]); Step 1; Step 1;
                                  ReaderStops; ReaderEnds]).

Definition cut_ends : list (Action (R := bytes)) :=
  [Step 0; Step 1; Step 1].

Lemma dead_connection_releases_everyone_witness :
  pending cut = None
  /\ exists s', run demo_config "broker:9092" demo_versions cut_ends cut = Some s'
    /\ (length cut_ends <= measure cut)%nat
    /\ stage <$> callers s' !! 1%nat
       = Some (Finished (Some 2) (Err (ConnectionClosed "broker:9092")) None).
Proof.
  split; [vm_compute; reflexivity|].
  assert (Hr : run demo_config "broker:9092" demo_versions cut_ends cut
    = Some (default cut (run demo_config "broker:9092" demo_versions cut_ends cut)))
    by (vm_compute; reflexivity).
  refine (ex_intro _ _ (conj Hr (conj _ _))); [|vm_compute; reflexivity].
  refine (proj1 (dead_connection_releases_everyone demo_config "broker:9092" demo_versions cut
    cut_ends _ _ _ _ _ Hr)).
  - vm_compute. lia.
  - apply demo_connection_reachable. vm_compute. reflexivity.
  - vm_compute. reflexivity.
  - repeat constructor.
Defined.

(** C34: Backpressure. The permits that are free and the calls that hold one add up to
    [max_in_flight] at any time, whether calls return, time out, are dropped or fail; no
    permit is lost and none is made up. At most as many frames wait in the channel. *)
Theorem in_flight_is_bounded `{Messages} {R} config peer versions (s : Connection (R := R)) :
  reachable config peer versions s ->
  (inflight s + length (filter (fun caller => holds_permit (stage caller) = true) (callers s))
   = ConnectionConfig.max_in_flight config)%nat
  /\ (length (commands s) <= ConnectionConfig.max_in_flight config)%nat.
Proof. intros Hr. apply reachable_ok in Hr as Hok. apply (ok_permits _ _ _ _ Hok). Qed.

Lemma in_flight_is_bounded_witness :
  length (callers crossed) = 2%nat
  /\ (inflight crossed + length (filter (fun caller => holds_permit (stage caller) = true) (callers crossed))
      = 1)%nat.
Proof.
  split; [vm_compute; reflexivity|].
  apply (in_flight_is_bounded demo_config "broker:9092" demo_versions crossed), crossed_reachable.
Defined.

(** C33: What reaches the socket. A frame that was written, or that is about to be, is
    the encoding of a request the operator permits, with the correlation id of the call that
    made it, at the highest version that the broker, the request's schema and the
    response's all have, and that no client is barred from. *)
Theorem wire_carries_what_is_allowed `{Messages} {R} config peer versions
    (s : Connection (R := R)) c frame :
  reachable config peer versions s -> (c, frame) ∈ queue s ->
  exists caller id v e, callers s !! c = Some caller /\ id_of (stage caller) = Some id
    /\ let r := call_rpc (call caller) in
       ConnectionConfig.permits config (API_KEY r) = true
    /\ entries versions !! ApiKey.code (API_KEY r) = Some e
    /\ (forall w, in_range w (broker e) /\ in_range w (VERSIONS (request r))
                  /\ in_range w (VERSIONS (Response r))
                  /\ (forall m, CLIENT_MAX_VERSION r = Some m -> w <= m) -> w <= v)
    /\ in_range v (broker e) /\ in_range v (VERSIONS (request r)) /\ in_range v (VERSIONS (Response r))
    /\ (forall m, CLIENT_MAX_VERSION r = Some m -> v <= m)
    /\ encode_request (API_KEY r) v id (ConnectionConfig.client_id config) (call caller) = Ok frame.
Proof.
  intros Hr Hq. apply reachable_ok in Hr as Hok.
  destruct (ok_frames _ _ _ _ Hok _ _ Hq) as (caller & v & id & Hc & Hid & Hp & Hv & He).
  destruct (version_for_Ok _ _ _ Hv) as (e & Hentry & Hb & Ht & Hmax).
  apply RpcFacts.in_typed_range in Ht as (Hreq & Hresp & Hclient).
  exists caller, id, v, e. split; [done|]. split; [done|]. intros r. split_and!; try done.
  intros w (Hwb & Hwr). apply Hmax; [done|]. by apply RpcFacts.in_typed_range.
Qed.

Lemma wire_carries_what_is_allowed_witness :
  exists c frame, (c, frame) ∈ wire crossed /\ ConnectionConfig.permits demo_config ApiKey.Metadata = true.
Proof.
  assert (Hin : (0%nat, be_bytes 2 3 ++ be_bytes 2 4 ++ be_bytes 4 1 ++ [x01]) ∈ wire crossed)
    by (vm_compute; left).
  exists 0%nat, (be_bytes 2 3 ++ be_bytes 2 4 ++ be_bytes 4 1 ++ [x01]). split; [exact Hin|].
  destruct (wire_carries_what_is_allowed demo_config "broker:9092" demo_versions crossed _ _
    crossed_reachable (on_the_wire _ _ _ Hin))
    as (caller & id & v & e & Hc & _ & Hp & _).
  assert (Hx : call <$> callers crossed !! 0%nat = Some (ask [x01])) by (vm_compute; reflexivity).
  rewrite Hc in Hx. injection Hx as Hx. rewrite Hx in Hp. exact Hp.
Defined.

(** C32: Re-authentication has the socket to itself. While an exchange runs no other call is
    past the gate; the frames of each exchange are written one after the other with no other
    request between its first and its last, even one that was abandoned earlier
    with its frame still in the channel. *)
Theorem reauthentication_is_contiguous `{Messages} {R} config peer versions
    (s : Connection (R := R)) n :
  reachable config peer versions s ->
  (reauth s = Exchanging n ->
     forall c caller, callers s !! c = Some caller -> kind caller = Ordinary ->
       stage caller = AtGate \/ is_live (stage caller) = false)
  /\ exists before during after, wire s = before ++ during ++ after
     /\ Forall (of_session s n) during
     /\ Forall (fun e => ~ of_session s n e) (before ++ after).
Proof.
  intros Hr. split.
  - intros He c caller Hc Hk. pose proof (reachable_sessions_ok _ _ _ _ Hr _ _ Hc) as Hs.
    unfold session_ok in Hs. rewrite Hk in Hs. specialize (Hs n He). unfold holds_gate in Hs.
    rewrite bool_decide_true in Hs by done. cbn in Hs. destruct (stage caller); naive_solver.
  - destruct (reachable_order_ok _ _ _ _ Hr) as [Hall _].
    destruct (contiguous_prefix s n (queue s) (wire s)) as (a & b & c & Hw & Ha & Hb & Hc).
    + unfold queue. by apply prefix_app_r.
    + apply Hall.
    + exists a, b, c. split_and!; [done|done|by apply Forall_app].
Qed.

(** A frame is abandoned in the channel, and the exchange goes behind it. *)
Definition reauthenticated : Connection :=
  after true (queued 0 [x01] ++ [Send (ask [x02]); Deadline 0 7; Step 0; ReauthWakes; ReauthEnters;
    ReauthCalls reauthenticate; Step 2; Step 2; Step 2; WriterTakes; Step 2; WriterWrites; WriterTakes;
    WriterWrites]).

Lemma reauthentication_is_contiguous_witness :
  reauth reauthenticated = Exchanging 0
  /\ (forall c caller, callers reauthenticated !! c = Some caller -> kind caller = Ordinary ->
       stage caller = AtGate \/ is_live (stage caller) = false)
  /\ map fst (wire reauthenticated) = [0; 2]%nat.
Proof.
  assert (He : reauth reauthenticated = Exchanging 0) by (vm_compute; reflexivity).
  split; [exact He|]. split; [|vm_compute; reflexivity].
  refine (proj1 (reauthentication_is_contiguous demo_config "broker:9092" demo_versions
    reauthenticated 0 _) He).
  apply demo_connection_reachable. vm_compute. reflexivity.
Defined.

(** *** What the connection does not promise *)

(** The deadline of a call does not cover the gate or the channel: while the writer's socket
    takes no bytes, a call in the channel's queue is not timed out. *)
Example no_deadline_in_the_queue :
  let s := after false (queued 0 [x01] ++ [WriterTakes; Deadline 0 7; Step 0] ++ queued 1 [x02]
    ++ [Deadline 1 7; Step 1; Send (ask [x03]); Step 2; Step 2; Step 2; Step 2]) in
  match stage <$> callers s !! 2%nat with Some (Queueing _ _ _) => true | _ => false end = true
  /\ act demo_config "broker:9092" demo_versions (Step 2) s = None
  /\ act demo_config "broker:9092" demo_versions (Deadline 2 7) s = None.
Proof. vm_compute. by split_and!. Qed.

(** A call that timed out gives its permit back while its request is still outstanding at the
    broker, so that more than [max_in_flight] may be. *)
Example permits_do_not_count_late_requests :
  let s := after false (queued 0 [x01] ++ [WriterTakes; WriterWrites; Deadline 0 7; Step 0]
    ++ queued 1 [x02] ++ [WriterTakes; WriterWrites]) in
  length (wire s) = 2%nat /\ received s = [] /\ ConnectionConfig.max_in_flight demo_config = 1%nat.
Proof. vm_compute. by split_and!. Qed.

(** A future dropped while it waits for room leaves its waiter behind, for a request that is
    never written. *)
Example dropped_in_the_queue :
  let s := after false (queued 0 [x01] ++ [WriterTakes; Deadline 0 7; Step 0] ++ queued 1 [x02]
    ++ [Deadline 1 7; Step 1; Send (ask [x03]); Step 2; Step 2; Step 2; Step 2; Drop 2;
        WriterWrites; WriterTakes; WriterWrites]) in
  (exists m, pending s = Some m /\ m !! 3 = Some 2%nat) /\ queue s = wire s
  /\ map fst (wire s) = [0; 1]%nat.
Proof. vm_compute. split; [by eexists|by split]. Qed.

(** The re-authentication task holds the connection: when the last handle of a user is
    dropped, nothing shuts down. *)
Example last_handle_keeps_the_socket :
  let s := after true [DropHandle] in
  let t := after false [DropHandle] in
  handles s = 0%nat /\ shutdown s = false /\ handles t = 0%nat /\ shutdown t = true.
Proof. vm_compute. by split_and!. Qed.

End ConnectionProperties.
