(* ===== verification/ConnectFacts.v ===== *)
(** The order of the handshake: what an opening connection hands to its socket, and the
    version table it works with. *)

From S2P Require Import Prelude Sanitize Text ErrorCodes ApiKeys Scram ScramFacts Sasl Tls BatchDecode Rpc BatchDecodeFacts Connection ConnectionProperties Connect.

Module ConnectFacts.
Import Rpc Codec Error Versions Sasl Connect.

(** *** Any exchange over any transport *)

Section exchange.
Context `{Base64, StringPrep, StrDebug, Scram.Crypto, Json} {S : Type} `{!SaslTransport S}.

Lemma then_keeps {A B} (P : S -> Prop) (step : result A Error * S) (k : A -> S -> result B Error * S) :
  P step.2 -> (forall a t, P t -> P (k a t).2) -> P (then_ step k).2.
Proof. destruct step as [[a|e] t]; cbn; auto. Qed.

(** An exchange opens with the mechanism's name, and goes on only when that is
    accepted, with tokens. *)
Lemma authenticate_keeps (P E : S -> Prop) config env t :
  (forall name, match handshake name t with (Ok _, t') => P t' | (Err _, t') => E t' end) ->
  (forall token t, P t -> P (sasl_authenticate token t).2) ->
  (forall t, P t -> E t) -> E t -> E (authenticate config env t).2.
Proof.
  intros Hshake Htoken HE Ht. unfold authenticate. case_match; [done|].
  specialize (Hshake (as_str (mechanism config))).
  destruct (handshake _ t) as [[enabled|e] t'] eqn:Eh; cbn; [|done]. apply HE.
  case_match; [done|].
  assert (Hplain : P (plain_exchange config t').2).
  { unfold plain_exchange. case_match; [done|]. apply then_keeps; auto. }
  assert (Hscram : forall h, P (scram_exchange h config env t').2).
  { intros h. unfold scram_exchange. case_match; [|done]. apply then_keeps; [auto|].
    intros a t1 Ht1. case_match; [done|]. case_match. case_match; [|done].
    apply then_keeps; [auto|]. intros b t2 Ht2. by case_match. }
  assert (Hoauth : P (oauth_bearer_exchange config env t').2).
  { unfold oauth_bearer_exchange. case_match; [|done]. case_match; [|done]. case_match; [|done].
    case_match; [|done]. apply then_keeps; [auto|]. intros outcome t1 Ht1. case_match; [done|].
    pose proof (Htoken [OAuth.KVSEP] t1 Ht1) as Hlast.
    by destruct (sasl_authenticate [OAuth.KVSEP] t1). }
  by destruct (mechanism config).
Qed.

End exchange.

(** *** The bare stream *)

Section raw.
Context `{Messages, HandshakeMessages, Schemas, KafkaProtocol}.
Implicit Types (raw : RawConn).

(** A round trip hands one frame to the socket, or fails before it has one. *)
Lemma round_trip_sent {R} key version (request : Call R) raw :
  let '(r, raw') := round_trip key version request raw in
  config raw' = config raw /\ versions raw' = versions raw
  /\ ((sent raw' = sent raw /\ exists e, r = Err e)
      \/ exists frame, sent raw' = sent raw ++ [(key, version, frame)]).
Proof.
  unfold round_trip. destruct (encode_request _ _ _ _ _) as [frame|e]; [|by split_and!; eauto].
  destruct (sending _) as [?|? ?|?]; [destruct (reading _) as [[?|]|? ?|?]| |];
    split_and!; try done; right; by exists frame.
Qed.

(** What an exchange has handed over after [hello]: nothing, or the name of its mechanism
    and then tokens. *)
Definition login_of (login : list (ApiKey.ApiKey * Z * bytes)) : Prop :=
  login = [] \/ exists v frame tokens,
    login = (ApiKey.SaslHandshake, v, frame) :: tokens /\ 1 <= v
    /\ Forall (fun e => e.1.1 = ApiKey.SaslAuthenticate) tokens.

Definition logging_in hello (raw : RawConn) : Prop :=
  exists v frame tokens, sent raw = hello ++ (ApiKey.SaslHandshake, v, frame) :: tokens /\ 1 <= v
    /\ Forall (fun e => e.1.1 = ApiKey.SaslAuthenticate) tokens.

Lemma raw_handshake_sent hello name raw :
  sent raw = hello ->
  match raw_handshake name raw with
  | (Ok _, raw') => logging_in hello raw'
  | (Err _, raw') => sent raw' = hello \/ logging_in hello raw'
  end.
Proof.
  intros Hs. unfold raw_handshake, lift.
  destruct (version_for _ _) as [v|e]; [|by left]. destruct (Z.ltb_spec v 1) as [Hv|Hv]; [by left|].
  pose proof (round_trip_sent ApiKey.SaslHandshake v (sasl_handshake_call name) raw) as Hr.
  destruct (round_trip _ _ _ raw) as [r raw']. destruct Hr as (_ & _ & Hcase).
  assert (Hlog : forall frame, sent raw' = sent raw ++ [(ApiKey.SaslHandshake, v, frame)] -> logging_in hello raw').
  { intros frame Hf. exists v, frame, []. rewrite Hf, Hs. by split_and!. }
  destruct Hcase as [[Hsame [e ->]]|[frame Hframe]].
  - cbn [then_]. left. congruence.
  - specialize (Hlog _ Hframe). destruct r as [f|e]; cbn [then_]; [|by right].
    destruct (decode_response _ _ _ _) as [response|e]; [|by right].
    destruct (ErrorCode.from_code _); [by right|done].
Qed.

Lemma raw_authenticate_sent hello token raw :
  logging_in hello raw -> logging_in hello (raw_authenticate token raw).2.
Proof.
  intros Hl. unfold raw_authenticate. apply then_keeps; [|done].
  unfold call, lift. destruct (version_for _ _) as [v|e]; [|done].
  pose proof (round_trip_sent ApiKey.SaslAuthenticate v (sasl_authenticate_call token) raw) as Hr.
  destruct (round_trip _ _ _ raw) as [r raw']. destruct Hr as (_ & _ & Hcase).
  assert (logging_in hello raw').
  { destruct Hl as (w & frame & tokens & Hs & Hw & Ht).
    destruct Hcase as [[Hsame _]|[f Hf]].
    - exists w, frame, tokens. by rewrite Hsame.
    - exists w, frame, (tokens ++ [(ApiKey.SaslAuthenticate, v, f)]). rewrite Hf, Hs, <- app_assoc.
      split_and!; [done|done|]. apply Forall_app_2; [done|by repeat constructor]. }
  by destruct r.
Qed.

Lemma login_sent `{Base64, StringPrep, StrDebug, Scram.Crypto, Json} sasl env raw :
  exists login, sent (authenticate sasl env raw).2 = sent raw ++ login /\ login_of login.
Proof.
  pose proof (authenticate_keeps (logging_in (sent raw))
    (fun raw' => sent raw' = sent raw \/ logging_in (sent raw) raw') sasl env raw) as Hk.
  destruct Hk as [Hk|(v & frame & tokens & Hk & Hv & Ht)].
  - intros name. pose proof (raw_handshake_sent _ name raw eq_refl) as Hr. cbn.
    by destruct (raw_handshake name raw) as [[?|?] ?].
  - intros token t. apply raw_authenticate_sent.
  - by right.
  - by left.
  - exists []. rewrite Hk, app_nil_r. by split; [|left].
  - eexists. rewrite Hk. split; [done|]. right. by exists v, frame, tokens.
Qed.

(** *** The version table *)

(** Our highest version of [ApiVersions]. *)
Definition our_max : Z := match our_range ApiKey.ApiVersions with Some range => max range | None => 0 end.

(** What the bootstrap hands over: nothing, the request, or the request and its retry. *)
Definition hello_of (hello : list (ApiKey.ApiKey * Z * bytes)) : Prop :=
  map (fun e => e.1) hello ∈ [[]; [(ApiKey.ApiVersions, our_max)];
                              [(ApiKey.ApiVersions, our_max); (ApiKey.ApiVersions, 0)]].

(** The response a table comes from: the first, or that of the retry. *)
Definition table_from v (hello : list (ApiKey.ApiKey * Z * bytes)) : Prop :=
  (v = our_max /\ length hello = 1%nat) \/ (v = 0 /\ length hello = 2%nat).

(** What the bootstrap handed over, and where its table comes from. *)
Definition bootstrapped raw (r : result ApiVersions Error) raw' : Prop :=
  exists hello, sent raw' = sent raw ++ hello /\ hello_of hello
    /\ forall table, r = Ok table ->
       exists response body v, decode_ApiVersionsResponse body v = Ok response
         /\ ErrorCode.from_code (versions_error_code response) = None
         /\ table = from_triples (api_keys response) /\ table_from v hello.

Lemma bootstrapped_Err raw raw' hello e :
  sent raw' = sent raw ++ hello -> hello_of hello -> bootstrapped raw (Err e) raw'.
Proof. intros Hs Hh. by exists hello. Qed.

(** The end of the bootstrap: a response, decoded at the version it was asked at. *)
Lemma bootstrapped_response context raw raw' hello body v :
  sent raw' = sent raw ++ hello -> hello_of hello -> table_from v hello ->
  let '(r, raw2) :=
    then_ (decoding context (decode_ApiVersionsResponse body v), raw') (fun response raw =>
      match ErrorCode.from_code (versions_error_code response) with
      | Some code => (Err (Error.from_code code None), raw)
      | None => (Ok (from_triples (api_keys response)), raw)
      end) in
  bootstrapped raw r raw2.
Proof.
  intros Hs Hh Ht. destruct (decode_ApiVersionsResponse body v) as [response|e] eqn:Hd; cbn [decoding then_].
  - destruct (ErrorCode.from_code (versions_error_code response)) as [c|] eqn:Hc;
      [by eapply bootstrapped_Err|].
    exists hello. split; [done|]. split; [done|]. intros table [= <-]. by exists response, body, v.
  - by eapply bootstrapped_Err.
Qed.

Lemma negotiate_versions_sent raw :
  let '(r, raw') := negotiate_versions raw in bootstrapped raw r raw'.
Proof.
  unfold negotiate_versions. destruct (our_range ApiKey.ApiVersions) as [range|] eqn:Ho.
  2:{ apply (bootstrapped_Err _ _ []); [by rewrite app_nil_r|left]. }
  assert (Hmax : max range = our_max) by (unfold our_max; by rewrite Ho). rewrite Hmax. clear Hmax.
  set (request := api_versions_call _).
  pose proof (round_trip_sent ApiKey.ApiVersions our_max request raw) as Hr.
  destruct (round_trip _ _ _ raw) as [r raw1]. destruct Hr as (_ & _ & Hcase).
  destruct Hcase as [[Hsame [e ->]]|[frame Hframe]].
  { apply (bootstrapped_Err _ _ []); [by rewrite app_nil_r|left]. }
  assert (Hone : hello_of [(ApiKey.ApiVersions, our_max, frame)]) by (right; left).
  destruct r as [answer|e]; cbn [then_]; [|by eapply bootstrapped_Err]. unfold lift at 1.
  destruct (split_response_body _ _ _) as [body|e]; [|by eapply bootstrapped_Err]. unfold lift at 1.
  destruct (peek_error_code body) as [code|e]; [|by eapply bootstrapped_Err].
  destruct (Z.eqb_spec code UNSUPPORTED_VERSION) as [->|Hcode].
  - pose proof (round_trip_sent ApiKey.ApiVersions 0 (api_versions_call default_versions_request) raw1) as Hr.
    destruct (round_trip _ _ _ raw1) as [r raw2]. destruct Hr as (_ & _ & Hcase).
    destruct Hcase as [[Hsame [e ->]]|[frame2 Hframe2]].
    { cbn [then_]. eapply bootstrapped_Err; [by rewrite Hsame|done]. }
    rewrite Hframe, <- app_assoc in Hframe2.
    assert (Htwo : hello_of ([(ApiKey.ApiVersions, our_max, frame)] ++ [(ApiKey.ApiVersions, 0, frame2)]))
      by (right; right; left).
    destruct r as [answer2|e]; cbn [then_]; [|by eapply bootstrapped_Err]. unfold lift.
    destruct (split_response_body _ _ _) as [body2|e]; [|by eapply bootstrapped_Err].
    by eapply bootstrapped_response; [| |right].
  - by eapply bootstrapped_response; [| |left].
Qed.

End raw.

End ConnectFacts.

(** ** The properties *)

Module ConnectProperties.
Import Rpc Codec Error Versions Sasl Connect ConnectFacts.

Section properties.
Context `{Messages, HandshakeMessages, Schemas, KafkaProtocol, Tls.Rustls}.
Context `{Base64, StringPrep, StrDebug, Scram.Crypto, Json}.

Lemma open_encrypted net addr config transport session :
  open net addr config = Ok (transport, session) ->
  is_encrypted transport = match ConnectionConfig.tls config with Some _ => true | None => false end.
Proof.
  unfold open. destruct (tcp_connect net); cbn [result_bind]; [|done].
  destruct (set_nodelay net); cbn [result_bind]; [|done].
  destruct (ConnectionConfig.tls config) as [tls|]; [|by intros [= <- <-]].
  destruct (Tls.rustls_config _ _); cbn [result_bind]; [|done].
  destruct (Tls.server_name _ _); cbn [result_bind]; [|done].
  destruct (tls_connect net _ _) as [?|[? ?]]; [by intros [= <- <-]|done].
Qed.

(** C20: The handshake in its order. Whatever the network and the broker do, what an
    opening connection hands to its socket is [ApiVersions] at our maximum, at most one
    retry at v0, and then the login: the mechanism's name at v1 or later, and
    tokens. Nothing of a login is sent unless one is configured, and nothing at all that
    could carry a reusable credential unless the stream is encrypted or the operator
    opted out. A connection that opens has its version table from a response the
    broker accepted, the retry's if it was retried. *)
Theorem handshake_in_order net env addr node_id config :
  match connect_as net env addr node_id config with
  | (r, None) => exists e, r = Err e
  | (r, Some raw) =>
      (exists hello login, sent raw = hello ++ login /\ hello_of hello /\ login_of login
        /\ (forall opened, r = Ok opened ->
              exists response body v, decode_ApiVersionsResponse body v = Ok response
                /\ ErrorCode.from_code (versions_error_code response) = None
                /\ opened_versions opened = from_triples (api_keys response) /\ table_from v hello)
        /\ (login <> [] -> exists sasl, ConnectionConfig.sasl config = Some sasl))
      /\ forall sasl, ConnectionConfig.sasl config = Some sasl ->
           sends_reusable_credential (mechanism sasl) = true ->
           ConnectionConfig.tls config <> None \/ allow_plaintext_password sasl = true
  end.
Proof.
  unfold connect_as. destruct (in_time net); cbn [negb]; [|by eexists].
  destruct (open net addr config) as [[transport session]|e] eqn:Ho; [|by eexists].
  apply open_encrypted in Ho.
  destruct (match ConnectionConfig.sasl config with Some _ => _ | None => _ end) as [[]|e] eqn:Hchecked;
    [|by eexists].
  set (raw0 := {| Connect.config := config |}).
  assert (Henc : forall sasl, ConnectionConfig.sasl config = Some sasl ->
    sends_reusable_credential (mechanism sasl) = true ->
    ConnectionConfig.tls config <> None \/ allow_plaintext_password sasl = true).
  { intros sasl Hs Hreuse. rewrite Hs in Hchecked. unfold check_encryption in Hchecked.
    rewrite Hreuse, Ho in Hchecked. destruct (ConnectionConfig.tls config); [by left|right].
    cbn in Hchecked. by destruct (allow_plaintext_password sasl). }
  pose proof (negotiate_versions_sent raw0) as Hn. destruct (negotiate_versions raw0) as [[table|e] raw1].
  2:{ destruct Hn as (hello & Hs & Hh & _). split; [|exact Henc]. exists hello, [].
      rewrite app_nil_r. split_and!; [done|done|by left|done|done]. }
  destruct Hn as (hello & Hs & Hh & Htable). specialize (Htable _ eq_refl).
  destruct Htable as (response & body & v & Hd & Hc & -> & Hv).
  set (raw2 := set_versions raw1 _).
  assert (Hlogin : let '(r, raw3) := match ConnectionConfig.sasl config with
      | Some sasl => authenticate sasl env raw2 | None => (Ok 0, raw2) end in
    exists login, sent raw3 = hello ++ login /\ login_of login
      /\ (login <> [] -> exists sasl, ConnectionConfig.sasl config = Some sasl)).
  { destruct (ConnectionConfig.sasl config) as [sasl|].
    - destruct (login_sent sasl env raw2) as (login & Hl & Ho').
      destruct (authenticate sasl env raw2) as [r raw3]. exists login. cbn in Hl.
      rewrite Hl, Hs. split_and!; eauto.
    - exists []. cbn. rewrite Hs, app_nil_r. split_and!; [done|by left|done]. }
  destruct (match ConnectionConfig.sasl config with
            | Some sasl => authenticate sasl env raw2 | None => (Ok 0, raw2) end) as [r raw3].
  destruct Hlogin as (login & Hl & Ho' & Hsome).
  destruct r as [lifetime|e]; (split; [|exact Henc]); exists hello, login; split_and!; try done.
  intros opened [= <-]. cbn. by exists response, body, v.
Qed.

End properties.

(** *** A broker that is older than the client *)

Import ConnectionDemo ScramDemo.

#[local] Instance demo_handshake : HandshakeMessages := {|
  encode_ApiVersionsRequest _ _ := Ok [];
  decode_ApiVersionsResponse body _ :=
    Ok {| versions_error_code := get_i16 body;
          api_keys := [(18, 0, 3); (17, 0, 1); (36, 0, 2); (3, 0, 12)] |};
  encode_SaslHandshakeRequest mechanism _ := Ok (Utf8.as_bytes mechanism);
  decode_SaslHandshakeResponse _ _ :=
    Ok {| handshake_error_code := 0; mechanisms := [text_of_string "PLAIN"] |};
  encode_SaslAuthenticateRequest token _ := Ok token;
  decode_SaslAuthenticateResponse _ _ :=
    Ok {| authenticate_error_code := 0; error_message := None; response_auth_bytes := [];
          response_session_lifetime_ms := 60000 |} |}.
#[local] Instance demo_schemas : Schemas := {| valid_versions _ := Some (0, 4) |}.
#[local] Instance demo_codes : KafkaProtocol := {| try_from_code _ := None; is_retriable _ := false |}.
#[local] Instance demo_json : Json := {| json_object _ := None |}.

Definition answers (bodies : list bytes) : list Turn :=
  imap (fun i body => {| sending := Done tt;
                         reading := Done (Some (reply (1 + Z.of_nat i) body)) |}) bodies.

Definition demo_network (bodies : list bytes) : Network (H := TlsFacts.demo_rustls) := {|
  tcp_connect := Ok tt; set_nodelay := Ok tt; native_certs := ([1] : list (Tls.Certificate (Rustls := TlsFacts.demo_rustls)));
  tls_connect _ _ := Ok {| negotiated_version := Some TLSv1_3; negotiated_cipher_suite := None;
                           peer_chain := None |};
  in_time := true; broker_turns := answers bodies |}.

Definition demo_env : Env := {|
  nonce_bytes := []; provider _ := NoAnswer 0; join_error := None; debug_char _ := [] |}.

(** The default configuration with a PLAIN login, over TLS or not. *)
Definition login_config (tls : option Tls.TlsConfig) : ConnectionConfig.ConnectionConfig :=
  let c := ConnectionConfig.default "0.1.0" in {|
  ConnectionConfig.client_id := ConnectionConfig.client_id c;
  ConnectionConfig.client_software_name := ConnectionConfig.client_software_name c;
  ConnectionConfig.client_software_version := ConnectionConfig.client_software_version c;
  ConnectionConfig.connect_timeout := ConnectionConfig.connect_timeout c;
  ConnectionConfig.request_timeout := ConnectionConfig.request_timeout c;
  ConnectionConfig.max_in_flight := ConnectionConfig.max_in_flight c;
  ConnectionConfig.max_frame_bytes := ConnectionConfig.max_frame_bytes c;
  ConnectionConfig.gate := ConnectionConfig.gate c;
  ConnectionConfig.tls := tls;
  ConnectionConfig.sasl := Some (Sasl.new Sasl.Plain (text_of_string "u") (text_of_string "p")) |}.

Definition demo_address : text := text_of_string "[::1]:9093".

(** The first answer is 35, so the table is that of the retry; then the login. *)
Example login_demo :
  let '(r, raw) := connect_as (demo_network [[x00; x23]; [x00; x00]; []; []]) demo_env demo_address None
                     (login_config (Some Tls.system)) in
  (map (fun e => (ApiKey.code e.1.1, e.1.2)) ∘ sent) <$> raw = Some [(18, 4); (18, 0); (17, 1); (36, 2)]
  /\ match r with
     | Ok opened => first_reauth opened = Some 48000
         /\ session_server_name <$> opened_tls opened = Some (text_of_string "::1")
         /\ Connection.reauth (start (R := unit) (login_config (Some Tls.system)) opened) = Connection.Sleeping 0
     | Err _ => False
     end.
Proof. vm_compute. by split_and!. Qed.

(** Without TLS the password goes nowhere. *)
Example no_login_in_the_clear :
  let '(r, raw) := connect_as (demo_network []) demo_env demo_address None (login_config None) in
  raw = None /\ match r with Err (Authentication _) => True | _ => False end.
Proof. vm_compute. by split. Qed.

End ConnectProperties.
