(* ===== verification/Metadata.v ===== *)
(** What a client knows of a cluster ([crates/kafka-meta/src/snapshot.rs], [group.rs], and
    the metadata requests and [decode_metadata] of [cluster.rs]). *)

From S2P Require Import Prelude Sanitize Text ErrorCodes ApiKeys.

Module Metadata.
Import ErrorCode.

(** A Kafka topic id: sixteen bytes. *)
Definition TopicId : Type := bytes.
Definition ZERO : TopicId := replicate 16 x00.
Definition is_zero (self : TopicId) : bool := bool_decide (self = ZERO).

Definition hex_byte (b : Byte.byte) : text := [hex_digit (b2z b / 16); hex_digit (b2z b mod 16)].

(** Canonical 8-4-4-4-12 hex. *)
Definition display_id (self : TopicId) : text :=
  concat (imap (fun index byte =>
    (if bool_decide (index ∈ [4; 6; 8; 10]%nat) then [45] else []) ++ hex_byte byte) self).

(** A broker's advertised endpoint. *)
Record BrokerInfo : Type := {
  node_id : Z;
  host : text;
  port : Z;
  rack : option text;
}.

(** [host:port], with an IPv6 literal in brackets. *)
Definition address (self : BrokerInfo) : text :=
  if Str.contains (host self) 58
  then [91] ++ host self ++ [93; 58] ++ Str.display_int (port self)
  else host self ++ [58] ++ Str.display_int (port self).

(** One partition of one topic. *)
Record PartitionInfo : Type := {
  partition : Z;
  leader : option Z;
  leader_epoch : Z;
  replicas : list Z;
  isr : list Z;
  offline_replicas : list Z;
  partition_error : option ErrorCode;
}.

Definition under_replicated (self : PartitionInfo) : bool :=
  (length (isr self) <? length (replicas self))%nat.

(** One topic. *)
Record TopicInfo : Type := {
  name : string;
  topic_id : TopicId;
  internal : bool;
  partitions : list PartitionInfo;
  topic_error : option ErrorCode;
}.

Definition find_partition (self : TopicInfo) (index : Z) : option PartitionInfo :=
  List.find (fun p => partition p =? index) (partitions self).

(** An immutable view of the cluster; [fetched_instant] is when it was assembled, on the
    monotonic clock. *)
Record MetadataSnapshot : Type := {
  brokers : list BrokerInfo;
  brokers_by_id : gmap Z nat;
  topics : list TopicInfo;
  topics_by_name : gmap string nat;
  controller_id : option Z;
  cluster_id : option string;
  fetched_instant : Z;
}.

(** [enumerate().map(..).collect()] into a map: a later entry replaces an earlier one. *)
Definition index_by {K A} `{Countable K} (key : A -> K) (l : list A) : gmap K nat :=
  foldl (fun m '(index, a) => <[key a := index]> m) ∅ (imap pair l).

(** Assemble a snapshot. *)
Definition new (now : Z) (brokers : list BrokerInfo) (topics : list TopicInfo)
    (controller_id : option Z) (cluster_id : option string) : MetadataSnapshot := {|
  brokers := brokers;
  brokers_by_id := index_by node_id brokers;
  topics := topics;
  topics_by_name := index_by name topics;
  controller_id := controller_id;
  cluster_id := cluster_id;
  fetched_instant := now |}.

Definition empty (now : Z) : MetadataSnapshot := new now [] [] None None.

Definition broker (self : MetadataSnapshot) (id : Z) : option BrokerInfo :=
  brokers_by_id self !! id ≫= fun index => brokers self !! index.

Definition topic (self : MetadataSnapshot) (n : string) : option TopicInfo :=
  topics_by_name self !! n ≫= fun index => topics self !! index.

(** How long ago the snapshot was fetched. *)
Definition age (self : MetadataSnapshot) (now : Z) : Z := Z.max 0 (now - fetched_instant self).

(** The leader of one partition. *)
Definition leader_for (self : MetadataSnapshot) (n : string) (index : Z) : option Z :=
  topic self n ≫= fun t => find_partition t index ≫= leader.

(** Merge newer topic entries into the snapshot, keeping everything else. *)
Definition with_topics_merged (now : Z) (self : MetadataSnapshot) (updated : list TopicInfo)
    : MetadataSnapshot :=
  let topics :=
    foldl (fun topics t =>
             match topics_by_name self !! name t with
             | Some index => <[index := t]> topics
             | None => topics ++ [t]
             end) (topics self) updated in
  new now (brokers self) topics (controller_id self) (cluster_id self).

(** *** Requests and responses *)

(** The fields of a [MetadataRequest] that the code sets: a null list of topics, or
    the names. *)
Record MetadataRequest : Type := {
  request_topics : option (list string);
  allow_auto_topic_creation : bool;
}.

(** The only constructor: the default of the generated type allows creation. *)
Definition base_metadata_request : MetadataRequest :=
  {| request_topics := Some []; allow_auto_topic_creation := false |}.

Definition with_topics (self : MetadataRequest) (topics : option (list string)) : MetadataRequest :=
  {| request_topics := topics; allow_auto_topic_creation := allow_auto_topic_creation self |}.

(** A request for every topic, on a connection that negotiated [version]. *)
Definition all_topics_request (version : option Z) : MetadataRequest :=
  let version := default 1 version in
  with_topics base_metadata_request (if 1 <=? version then None else Some []).

Definition topics_request (names : list string) : MetadataRequest :=
  with_topics base_metadata_request (Some names).

(** The fields of a response that the code reads. *)
Record ResponseBroker : Type := { rb_node_id : Z; rb_host : text; rb_port : Z; rb_rack : option text }.
Record ResponsePartition : Type := {
  rp_index : Z; rp_leader_id : Z; rp_leader_epoch : Z; rp_replica_nodes : list Z;
  rp_isr_nodes : list Z; rp_offline_replicas : list Z; rp_error_code : Z }.
Record ResponseTopic : Type := {
  rt_name : option string; rt_topic_id : TopicId; rt_is_internal : bool;
  rt_partitions : list ResponsePartition; rt_error_code : Z }.
Record MetadataResponse : Type := {
  mr_brokers : list ResponseBroker;
  mr_topics : list ResponseTopic;
  mr_controller_id : Z;
  mr_cluster_id : option string }.

(** [Some(id).filter(|id| *id >= 0)]. *)
Definition known_id (id : Z) : option Z := if 0 <=? id then Some id else None.

Section decode.
Context `{KafkaProtocol}.

Definition decode_broker (b : ResponseBroker) : BrokerInfo := {|
  node_id := rb_node_id b;
  host := control_safe (rb_host b);
  port := rb_port b;
  rack := control_safe <$> rb_rack b |}.

Definition decode_partition (p : ResponsePartition) : PartitionInfo := {|
  partition := rp_index p;
  leader := known_id (rp_leader_id p);
  leader_epoch := rp_leader_epoch p;
  replicas := rp_replica_nodes p;
  isr := rp_isr_nodes p;
  offline_replicas := rp_offline_replicas p;
  partition_error := ErrorCode.from_code (rp_error_code p) |}.

Definition decode_topic (t : ResponseTopic) : TopicInfo := {|
  name := default ""%string (rt_name t);
  topic_id := rt_topic_id t;
  internal := rt_is_internal t;
  partitions := map decode_partition (rt_partitions t);
  topic_error := ErrorCode.from_code (rt_error_code t) |}.

(** Convert a metadata response into our own types. *)
Definition decode_metadata (now : Z) (response : MetadataResponse) : MetadataSnapshot :=
  new now (map decode_broker (mr_brokers response)) (map decode_topic (mr_topics response))
    (known_id (mr_controller_id response)) (mr_cluster_id response).

End decode.

End Metadata.

(** A consumer's identity within its group ([group.rs]). *)
Module GroupMetadata.

Definition NOT_A_MEMBER : Z := -1.

Record ConsumerGroupMetadata : Type := {
  group_id : string;
  member_id : string;
  generation : Z;
  instance_id : option string;
}.

Definition new (group_id : string) : ConsumerGroupMetadata :=
  {| group_id := group_id; member_id := ""; generation := NOT_A_MEMBER; instance_id := None |}.

Definition with_member_id (self : ConsumerGroupMetadata) (m : string) : ConsumerGroupMetadata :=
  {| group_id := group_id self; member_id := m; generation := generation self;
     instance_id := instance_id self |}.
Definition with_generation (self : ConsumerGroupMetadata) (g : Z) : ConsumerGroupMetadata :=
  {| group_id := group_id self; member_id := member_id self; generation := g;
     instance_id := instance_id self |}.
Definition with_maybe_instance_id (self : ConsumerGroupMetadata) (i : option string)
    : ConsumerGroupMetadata :=
  {| group_id := group_id self; member_id := member_id self; generation := generation self;
     instance_id := i |}.
Definition with_instance_id (self : ConsumerGroupMetadata) (i : string) : ConsumerGroupMetadata :=
  with_maybe_instance_id self (Some i).

Definition is_member (self : ConsumerGroupMetadata) : bool :=
  negb (generation self =? NOT_A_MEMBER).

End GroupMetadata.

(** * Lemmas and properties

    Lookups in a snapshot, its merge, and addresses. *)

From S2P Require Import Scram Sasl Tls BatchDecode Rpc Connection Connect.

Module MetadataFacts.
Import Metadata.

(** *** Lookups are those of the last entry *)

(** The last entry with a key. *)
Definition last_with {K A} `{EqDecision K} (key : A -> K) (k : K) (l : list A) : option A :=
  last (filter (fun a => key a = k) l).

Section lookups.
Context {K A : Type} `{Countable K} (key : A -> K).
Implicit Types (l : list A) (k : K).

Lemma last_with_app k l l' :
  last_with key k (l ++ l') = match last_with key k l' with Some a => Some a | None => last_with key k l end.
Proof. unfold last_with. by rewrite filter_app, last_app. Qed.

Lemma last_with_one k a : last_with key k [a] = if decide (key a = k) then Some a else None.
Proof. unfold last_with. rewrite filter_cons. by case_decide. Qed.

Lemma index_by_snoc l a : index_by key (l ++ [a]) = <[key a := length l]> (index_by key l).
Proof. unfold index_by. rewrite imap_app, foldl_app. cbn. by rewrite Nat.add_0_r. Qed.

Lemma index_by_spec l k :
  match index_by key l !! k with
  | Some i => exists a, l !! i = Some a /\ last_with key k l = Some a
  | None => last_with key k l = None
  end.
Proof.
  induction l as [|a l IH] using rev_ind; [done|].
  rewrite index_by_snoc, last_with_app, last_with_one. case_decide as Hk.
  - subst k. rewrite lookup_insert_eq. exists a. split; [|done].
    by rewrite lookup_app_r, Nat.sub_diag by lia.
  - rewrite lookup_insert_ne by done. destruct (index_by key l !! k) as [i|]; [|done].
    destruct IH as (b & Hb & Hlast). exists b. split; [by apply lookup_app_l_Some|done].
Qed.

Lemma index_by_lookup l k : (index_by key l !! k ≫= fun i => l !! i) = last_with key k l.
Proof.
  pose proof (index_by_spec l k) as Hs. destruct (index_by key l !! k) as [i|]; cbn; [|done].
  destruct Hs as (a & -> & ->). done.
Qed.

Lemma last_with_key k l a : last_with key k l = Some a -> key a = k /\ a ∈ l.
Proof. unfold last_with. intros Hin%last_Some_elem_of. by apply list_elem_of_filter in Hin. Qed.

(** Replacing the last entry of a key by another of that key. *)
Lemma last_with_replace l i a k :
  index_by key l !! key a = Some i ->
  last_with key k (<[i := a]> l) = if decide (key a = k) then Some a else last_with key k l.
Proof.
  induction l as [|b l IH] using rev_ind; [done|]. rewrite index_by_snoc.
  destruct (decide (key b = key a)) as [Hb|Hb].
  - rewrite Hb, lookup_insert_eq. intros [= <-].
    rewrite insert_app_r_alt, Nat.sub_diag by done. cbn [insert list_insert].
    rewrite !last_with_app, !last_with_one, Hb. by case_decide.
  - rewrite lookup_insert_ne by done. intros Hi. pose proof (index_by_spec l (key a)) as Hs.
    rewrite Hi in Hs. destruct Hs as (x & Hx & _).
    rewrite insert_app_l by by eapply lookup_lt_Some. rewrite !last_with_app, IH by done.
    rewrite last_with_one. destruct (decide (key a = k)), (decide (key b = k)); congruence.
Qed.

(** The index of a list depends only on the keys. *)
Lemma index_by_keys l l' : key <$> l = key <$> l' -> index_by key l = index_by key l'.
Proof.
  revert l'. induction l as [|a l IH] using rev_ind; intros l' Hk.
  - by destruct l'.
  - destruct l' as [|b l' _] using rev_ind; [by rewrite fmap_app in Hk; apply app_nil in Hk as [_ ?]|].
    rewrite !fmap_app in Hk. apply app_inj_tail in Hk as [Hk [= Hab]].
    rewrite !index_by_snoc, (IH l') by done. rewrite Hab. f_equal.
    by rewrite <- (length_fmap key l), Hk, length_fmap.
Qed.

End lookups.

(** *** Snapshots *)

(** Every snapshot is made by [new], so its indexes are those of its lists. *)
Record snapshot_ok (s : MetadataSnapshot) : Prop := {
  ok_brokers : brokers_by_id s = index_by node_id (brokers s);
  ok_topics : topics_by_name s = index_by name (topics s);
}.

Lemma new_ok now b t c i : snapshot_ok (new now b t c i).
Proof. done. Qed.

Lemma broker_last s id : snapshot_ok s -> broker s id = last_with node_id id (brokers s).
Proof. intros [Hb _]. unfold broker. rewrite Hb. apply index_by_lookup. Qed.

Lemma topic_last s n : snapshot_ok s -> topic s n = last_with name n (topics s).
Proof. intros [_ Ht]. unfold topic. rewrite Ht. apply index_by_lookup. Qed.

(** Merging the topics of a response. *)
Definition merge_one (s : MetadataSnapshot) (ts : list TopicInfo) (t : TopicInfo) : list TopicInfo :=
  match topics_by_name s !! name t with Some index => <[index := t]> ts | None => ts ++ [t] end.

Lemma merged_topics s updated : snapshot_ok s ->
  exists kept added, foldl (merge_one s) (topics s) updated = kept ++ added
    /\ name <$> kept = name <$> topics s
    /\ Forall (fun t => topics_by_name s !! name t = None) added.
Proof.
  intros Hok. induction updated as [|t updated IH] using rev_ind.
  - exists (topics s), []. by rewrite app_nil_r.
  - rewrite foldl_app. destruct IH as (kept & added & -> & Hkept & Hadded). cbn. unfold merge_one.
    destruct (topics_by_name s !! name t) as [i|] eqn:Hi.
    + pose proof (index_by_spec name (topics s) (name t)) as Hs.
      rewrite <- (ok_topics _ Hok), Hi in Hs. destruct Hs as (x & Hx & Hlast).
      apply last_with_key in Hlast as [Hname _].
      assert (Hlt : (i < length kept)%nat).
      { rewrite <- (length_fmap name kept), Hkept, length_fmap. by eapply lookup_lt_Some. }
      exists (<[i := t]> kept), added. rewrite insert_app_l by done. split; [done|]. split; [|done].
      rewrite list_fmap_insert, Hkept, <- Hname. apply list_insert_id. by rewrite list_lookup_fmap, Hx.
    + exists kept, (added ++ [t]). rewrite app_assoc. split; [done|]. split; [done|].
      apply Forall_app_2; [done|by repeat constructor].
Qed.

Lemma merge_one_last s updated t n : snapshot_ok s ->
  last_with name n (merge_one s (foldl (merge_one s) (topics s) updated) t)
  = if decide (name t = n) then Some t else last_with name n (foldl (merge_one s) (topics s) updated).
Proof.
  intros Hok. destruct (merged_topics s updated Hok) as (kept & added & -> & Hkept & Hadded).
  unfold merge_one. destruct (topics_by_name s !! name t) as [i|] eqn:Hi.
  - assert (Hidx : index_by name kept !! name t = Some i).
    { rewrite (index_by_keys name kept (topics s)) by done. by rewrite <- (ok_topics _ Hok). }
    pose proof (index_by_spec name kept (name t)) as Hs. rewrite Hidx in Hs.
    destruct Hs as (x & Hx & _). rewrite insert_app_l by by eapply lookup_lt_Some.
    rewrite !last_with_app, last_with_replace by done. case_decide as Hn; [|done]. subst n.
    destruct (last_with name (name t) added) as [y|] eqn:Hy; [|done].
    apply last_with_key in Hy as [Hy Hin]. rewrite Forall_forall in Hadded.
    specialize (Hadded _ Hin). by rewrite Hy, Hi in Hadded.
  - rewrite last_with_app, last_with_one. by case_decide.
Qed.

Lemma merged_lookup now s updated n : snapshot_ok s ->
  topic (with_topics_merged now s updated) n
  = match last_with name n updated with Some t => Some t | None => topic s n end.
Proof.
  intros Hok. rewrite topic_last by done. unfold with_topics_merged.
  change (topics (new _ _ ?ts _ _)) with ts. change (foldl _ (topics s) updated) with
    (foldl (merge_one s) (topics s) updated).
  induction updated as [|t updated IH] using rev_ind; cbn [foldl].
  - by rewrite topic_last.
  - rewrite foldl_app. cbn [foldl]. rewrite merge_one_last by done.
    rewrite last_with_app, last_with_one. by case_decide.
Qed.

(** *** Addresses *)

(** The characters of a decimal integer. *)
Definition numeral (s : text) : Prop := Forall (fun c => c = 45 \/ 48 <= c <= 57) s.

Lemma text_of_string_cons a s :
  text_of_string (String a s) = Z.of_nat (Ascii.nat_of_ascii a) :: text_of_string s.
Proof. done. Qed.

Lemma pretty_char_numeral x : 48 <= Z.of_nat (Ascii.nat_of_ascii (pretty_N_char x)) <= 57.
Proof. unfold pretty_N_char. by repeat case_match. Qed.

Lemma pretty_N_numeral x s : numeral (text_of_string s) -> numeral (text_of_string (pretty_N_go x s)).
Proof.
  revert s. induction (N.lt_wf_0 x) as [x _ IH]; intros s Hs.
  destruct (decide (x = 0)%N) as [->|Hx]; [by rewrite pretty_N_go_0|].
  rewrite pretty_N_go_step by lia. apply IH; [apply N.div_lt; lia|].
  rewrite text_of_string_cons. constructor; [right; apply pretty_char_numeral|done].
Qed.

Lemma display_numeral z : numeral (Str.display_int z).
Proof.
  assert (H0 : numeral (text_of_string "0")) by (constructor; [right; vm_compute; split; discriminate|constructor]).
  assert (HN : forall x : N, numeral (text_of_string (pretty x))).
  { intros x. unfold pretty, pretty_N. case_decide; [done|]. apply pretty_N_numeral. constructor. }
  unfold Str.display_int. destruct z as [|p|p].
  - done.
  - apply (HN (N.pos p)).
  - change (text_of_string (pretty (Zneg p))) with (45 :: text_of_string (pretty (N.pos p))).
    constructor; [by left|apply HN].
Qed.

Lemma no_colon s : numeral s -> 58 ∉ s.
Proof. intros Hs Hin. unfold numeral in Hs. rewrite Forall_forall in Hs. specialize (Hs _ Hin). lia. Qed.

Lemma split_once_first sep before after :
  sep ∉ before -> Address.split_once sep (before ++ sep :: after) = Some (before, after).
Proof.
  induction before as [|c before IH]; cbn; intros Hn.
  - by rewrite Z.eqb_refl.
  - apply not_elem_of_cons in Hn as [Hc Hn]. rewrite (proj2 (Z.eqb_neq _ _)) by done. by rewrite IH.
Qed.

Lemma rsplit_once_last sep before after :
  sep ∉ after -> Address.rsplit_once sep (before ++ sep :: after) = Some (before, after).
Proof.
  intros Hn. unfold Address.rsplit_once. rewrite rev_app_distr. cbn [rev]. rewrite <- app_assoc.
  change ([sep] ++ rev before) with (sep :: rev before).
  rewrite split_once_first by by rewrite list_elem_of_In, <- in_rev, <- list_elem_of_In.
  by rewrite !rev_involutive.
Qed.

(** The colons of an address with one: that of the port. *)
Lemma count_app c a b : Address.count c (a ++ b) = (Address.count c a + Address.count c b)%nat.
Proof. unfold Address.count. by rewrite List.filter_app, length_app. Qed.

Lemma count_none c s : c ∉ s -> Address.count c s = 0%nat.
Proof.
  unfold Address.count. induction s as [|d s IH]; [done|].
  intros [Hd Hs]%not_elem_of_cons. cbn. rewrite (proj2 (Z.eqb_neq c d)) by done. by apply IH.
Qed.

Lemma contains_spec_58 s : Str.contains s 58 = true <-> 58 ∈ s.
Proof.
  unfold Str.contains. rewrite existsb_exists. split.
  - intros (c & Hc%list_elem_of_In & ->%Z.eqb_eq). done.
  - intros Hc. exists 58. split; [by apply list_elem_of_In|done].
Qed.

Lemma host_of_bracketed host after : 93 ∉ host -> Address.host_of (91 :: host ++ 93 :: after) = host.
Proof. intros Hn. unfold Address.host_of. by rewrite split_once_first. Qed.

Lemma host_of_plain host after :
  58 ∉ host -> 58 ∉ after -> head host <> Some 91 -> Address.host_of (host ++ 58 :: after) = host.
Proof.
  intros Hh Ha H91.
  assert (Hbare : (if Nat.ltb 1 (Address.count 58 (host ++ 58 :: after)) then host ++ 58 :: after
    else match Address.rsplit_once 58 (host ++ 58 :: after) with Some (h, _) => h
         | None => host ++ 58 :: after end) = host).
  { rewrite rsplit_once_last by done. rewrite count_app, count_none by done.
    change (58 :: after) with (([58] : text) ++ after).
    by rewrite count_app, (count_none 58 after). }
  unfold Address.host_of. destruct host as [|c host]; [done|].
  destruct (decide (c = 91)) as [->|Hc]; [done|].
  change ((c :: host) ++ 58 :: after) with (c :: (host ++ 58 :: after)) in *.
  destruct c as [|p|p]; try exact Hbare.
  do 7 (destruct p as [p|p|]; try exact Hbare). done.
Qed.

End MetadataFacts.

(** ** The properties *)

Module MetadataProperties.
Import Metadata MetadataFacts.

(** The name a broker is verified under is the host it advertised: the host half of the
    address the pool dials is the broker's host, for names, IPv4 and IPv6
    literals alike. A host with a bracket is none of these. *)
Theorem advertised_host_is_dialled (b : BrokerInfo) :
  91 ∉ host b -> 93 ∉ host b -> Address.host_of (address b) = host b.
Proof.
  intros H91 H93. unfold address. destruct (Str.contains (host b) 58) eqn:Hc.
  - by apply (host_of_bracketed (host b) (58 :: Str.display_int (port b))).
  - assert (Hn : 58 ∉ host b) by (intros Hin%contains_spec_58; congruence).
    apply host_of_plain; [done|apply no_colon, display_numeral|].
    destruct (host b) as [|c h]; [done|]. intros [= ->]. apply H91. left.
Qed.

Definition ipv6_broker : BrokerInfo :=
  {| node_id := 1; host := text_of_string "2001:db8::2"; port := 9092; rack := None |}.

Lemma advertised_host_is_dialled_witness :
  address ipv6_broker = text_of_string "[2001:db8::2]:9092"
  /\ Address.host_of (address ipv6_broker) = text_of_string "2001:db8::2".
Proof.
  split; [vm_compute; reflexivity|].
  apply (advertised_host_is_dialled ipv6_broker); apply (bool_decide_unpack _); vm_compute; exact I.
Defined.

(** The forms of an address a bootstrap list can carry. *)
Example host_table :
  map (fun a => Address.host_of (text_of_string a))
    ["broker.example:9092"; "10.0.0.1:9092"; "[::1]:9092"; "[2001:db8::2]:9093"; "2001:db8::2";
     "broker.example"]%string
  = map text_of_string ["broker.example"; "10.0.0.1"; "::1"; "2001:db8::2"; "2001:db8::2";
      "broker.example"]%string.
Proof. vm_compute. reflexivity. Qed.

(** A targeted refresh keeps the topics it did not ask about. After a merge a name
    means its last entry in the response, and otherwise what it meant before; the
    brokers, the controller and the cluster id are those of the old snapshot, and
    the indexes are still those of its lists. *)
Theorem merge_keeps_the_rest (now : Z) (s : MetadataSnapshot) (updated : list TopicInfo) (n : string) :
  snapshot_ok s ->
  topic (with_topics_merged now s updated) n
    = match last_with name n updated with Some t => Some t | None => topic s n end
  /\ (forall id, broker (with_topics_merged now s updated) id = broker s id)
  /\ controller_id (with_topics_merged now s updated) = controller_id s
  /\ snapshot_ok (with_topics_merged now s updated).
Proof.
  intros Hok. split_and!; [by apply merged_lookup| |done|done].
  intros id. by rewrite !broker_last.
Qed.

Definition orders (id : Z) : TopicInfo :=
  {| name := "orders"; topic_id := ZERO; internal := false; topic_error := None;
     partitions := [{| partition := 0; leader := Some id; leader_epoch := 0; replicas := [id];
                       isr := [id]; offline_replicas := []; partition_error := None |}] |}.

Lemma merge_keeps_the_rest_witness :
  topic (with_topics_merged 5 (new 3 [ipv6_broker] [orders 1] (Some 1) None) [orders 2]) "orders"
  = Some (orders 2).
Proof.
  exact (proj1 (merge_keeps_the_rest 5 (new 3 [ipv6_broker] [orders 1] (Some 1) None) [orders 2] "orders"
    (new_ok 3 [ipv6_broker] [orders 1] (Some 1) None))).
Defined.

End MetadataProperties.
