(* ===== verification/Cluster.v ===== *)
(** The connection pool, the metadata cache and the dispatch of requests
    ([crates/kafka-meta/src/pool.rs] and [cluster.rs]).

    One task runs at a time here: a call of the pool or of the cluster is a function of
    the state it finds, and what sockets, clock and random numbers do is a [Network]. *)

From S2P Require Import Prelude Sanitize Text ErrorCodes ApiKeys Retry Effects Metadata.
From Stdlib Require Import QArith.
Open Scope Z_scope.

Module Pool.
Import Error.

(** A broker to connect to. *)
Inductive Endpoint : Type :=
  | Node (id : Z)
  | Bootstrap (address : text).

#[export] Instance Endpoint_eq_dec : EqDecision Endpoint.
Proof. solve_decision. Defined.
#[export] Instance Endpoint_countable : Countable Endpoint.
Proof.
  refine (inj_countable' (fun e => match e with Node id => inl id | Bootstrap a => inr a end)
    (fun x => match x with inl id => Node id | inr a => Bootstrap a end) _).
  by intros [].
Defined.

(** Per-endpoint connection state, guarded by its own lock. *)
Record SlotState (Conn : Type) : Type := {
  connection : option Conn;
  consecutive_failures : Z;
  next_attempt : option Z;
}.
#[global] Arguments connection {Conn} _.
#[global] Arguments consecutive_failures {Conn} _.
#[global] Arguments next_attempt {Conn} _.

Definition default_slot {Conn} : SlotState Conn :=
  {| connection := None; consecutive_failures := 0; next_attempt := None |}.

End Pool.

Module Cluster.
Import Error Pool Metadata Routing Eff.

(** The part of [FindCoordinator] that the code uses. *)
Record FindCoordinatorRequest : Type := {
  fc_key : string;
  fc_key_type : Z;
  fc_coordinator_keys : list string;
}.
Record CoordinatorAnswer : Type := {
  ca_node_id : Z;
  ca_error_code : Z;
  ca_error_message : option text;
}.
Record FindCoordinatorResponse : Type := {
  fr_node_id : Z;
  fr_error_code : Z;
  fr_error_message : option text;
  fr_coordinators : list CoordinatorAnswer;
}.

(** What is outside: sockets, as [Conn], the clock, the random numbers, and the order in
    which a [HashMap] gives its entries.  [send_request] sends the one request a call
    is about. *)
Class Network (W Conn Resp : Type) : Type := {
  dial : text -> option Z -> W -> result Conn Error * W;
  is_closed : Conn -> W -> bool;
  close_connection : Conn -> W -> W;
  metadata_version : Conn -> W -> option Z;
  find_coordinator_version : Conn -> W -> result Z Error;
  send_metadata : Conn -> MetadataRequest -> W -> result MetadataResponse Error * W;
  send_find_coordinator : Conn -> FindCoordinatorRequest -> W -> result FindCoordinatorResponse Error * W;
  send_request : Conn -> option Z -> W -> result Resp Error * W;
  now : W -> Z;
  jitter_sample : W -> Q * W;
  sleep : Z -> W -> W;
  entries : gmap Z text -> W -> list (Z * text);
}.

(** How to build a [Cluster]. *)
Record ClusterConfig : Type := {
  retry : Retry.RetryPolicy;
  refresh_interval : Z;
  max_staleness : Z;
  bootstrap : list text;
}.

Definition default_config (bootstrap : list text) : ClusterConfig := {|
  retry := Retry.default_policy;
  refresh_interval := 30 * Retry.SECOND;
  max_staleness := 300 * Retry.SECOND;
  bootstrap := bootstrap |}.

(** Where a request is going. *)
Inductive Target : Type :=
  | Any
  | Controller
  | Broker (id : Z)
  | Coordinator (kind : CoordinatorKind) (key : string)
  | Leader (topic : string) (partition : Z).

Definition COORDINATOR_CACHE_CAP : nat := 1024.

#[export] Instance CoordinatorKind_countable : Countable CoordinatorKind.
Proof.
  refine (inj_countable' (fun k => match k with Group => false | Transaction => true end)
    (fun b : bool => if b then Transaction else Group) _).
  by intros [].
Defined.

Section cluster.
Context {W Conn Resp : Type} `{!Network W Conn Resp, !KafkaProtocol}.
Context (config : ClusterConfig).

(** What the clones of a cluster share, and what is outside. *)
Record State : Type := {
  slots : gmap Endpoint (SlotState Conn);
  addresses : gmap Z text;
  snapshot : MetadataSnapshot;
  coordinators : gmap (CoordinatorKind * string) Z;
  world : W;
}.

Abbreviation M := (Eff.M State).

Definition set_slot (e : Endpoint) (slot : SlotState Conn) (s : State) : State := {|
  slots := <[e := slot]> (slots s); addresses := addresses s; snapshot := snapshot s;
  coordinators := coordinators s; world := world s |}.
Definition set_world (w : W) (s : State) : State := {|
  slots := slots s; addresses := addresses s; snapshot := snapshot s;
  coordinators := coordinators s; world := w |}.
Definition set_coordinators (m : gmap (CoordinatorKind * string) Z) (s : State) : State := {|
  slots := slots s; addresses := addresses s; snapshot := snapshot s;
  coordinators := m; world := world s |}.

(** An operation of the world. *)
Definition outside {A} (f : W -> result A Error * W) : M A :=
  fun s => let '(r, w) := f (world s) in Some (r, set_world w s).

(** [policy.delay(attempt)]. *)
Definition draw_delay (attempt : Z) : M Z :=
  outside (fun w => let '(q, w) := jitter_sample w in (Ok (Retry.delay (retry config) q attempt), w)).

(** *** The pool *)

Definition stays (fresh : gmap Z text) (e : Endpoint) : bool :=
  match e with Node id => bool_decide (is_Some (fresh !! id)) | Bootstrap _ => true end.

(** Learn broker addresses: a non-empty set replaces what the pool knew, and slots of ids
    that left go with it. *)
Definition learn_addresses (fresh : gmap Z text) (s : State) : State :=
  if bool_decide (fresh = ∅) then s
  else {| slots := filter (fun entry => stays fresh entry.1 = true) (slots s);
          addresses := fresh; snapshot := snapshot s; coordinators := coordinators s;
          world := world s |}.

(** The dial of a slot without a live connection: refused within its backoff, and a failure
    sets the next one. *)
Definition dial_slot (endpoint : Endpoint) (addr : text) (node : option Z) (slot : SlotState Conn)
    : M Conn :=
  let cleared := {| connection := None; consecutive_failures := consecutive_failures slot;
                    next_attempt := next_attempt slot |} in
  try_ (put (set_slot endpoint cleared)) (fun _ =>
  get_state (fun s =>
    if match next_attempt slot with Some next => now (world s) <? next | None => false end then
      ret (Err (ConnectionClosed (Str.string_of_text addr)))
    else
      bind (outside (dial addr node)) (fun outcome =>
        match outcome with
        | Ok c =>
            try_ (put (set_slot endpoint
                    {| connection := Some c; consecutive_failures := 0; next_attempt := None |}))
              (fun _ => ret (Ok c))
        | Err error =>
            let failures := u32_saturating_add (consecutive_failures slot) 1 in
            try_ (draw_delay (u32_saturating_add failures 1)) (fun delay =>
            get_state (fun s =>
            try_ (put (set_slot endpoint
                    {| connection := None; consecutive_failures := failures;
                       next_attempt := Some (now (world s) + delay) |}))
              (fun _ => ret (Err error))))
        end))).

(** Connect to an endpoint under its slot's lock, creating the slot. *)
Definition connect (endpoint : Endpoint) (addr : text) (node : option Z) : M Conn :=
  get_state (fun s =>
    let slot := default default_slot (slots s !! endpoint) in
    try_ (put (set_slot endpoint slot)) (fun _ =>
      match connection slot with
      | Some c => if negb (is_closed c (world s)) then ret (Ok c) else dial_slot endpoint addr node slot
      | None => dial_slot endpoint addr node slot
      end)).

(** A connection to one broker. *)
Definition get (node : Z) : M Conn :=
  get_state (fun s =>
    match addresses s !! node with
    | None =>
        ret (Err (from_code ErrorCode.LeaderNotAvailable
               (Some (text_of_string ("no known address for broker " +:+ pretty node
                        +:+ "; the metadata naming it is stale")))))
    | Some addr => connect (Node node) addr (Some node)
    end).

(** The first of some connections that opens, or the last error. *)
Fixpoint first_of (attempts : list (M Conn)) (last : option Error) : M (Conn + option Error) :=
  match attempts with
  | [] => ret (Ok (inr last))
  | attempt :: attempts =>
      bind attempt (fun outcome =>
        match outcome with
        | Ok c => ret (Ok (inl c))
        | Err error => first_of attempts (Some error)
        end)
  end.

(** A connection to one of the bootstrap addresses. *)
Definition bootstrap_connection : M Conn :=
  try_ (first_of (map (fun addr => connect (Bootstrap addr) addr None) (bootstrap config)) None)
    (fun found =>
      match found with
      | inl c => ret (Ok c)
      | inr (Some error) => ret (Err error)
      | inr None => ret (Err (InvalidRequest "no bootstrap addresses were configured"))
      end).

(** Any usable connection: a broker we know, and then the bootstrap addresses. *)
Definition any : M Conn :=
  get_state (fun s =>
    let known := entries (addresses s) (world s) in
    try_ (first_of (map (fun '(node, addr) => connect (Node node) addr (Some node)) known) None)
      (fun found =>
        match found with
        | inl c => ret (Ok c)
        | inr last =>
            bind bootstrap_connection (fun outcome =>
              match outcome with
              | Ok c => ret (Ok c)
              | Err error => ret (Err (default error last))
              end)
        end)).

(** Drop a connection, so the next caller opens a fresh one. *)
Definition evict_slot (endpoint : Endpoint) : M unit :=
  get_state (fun s =>
    match slots s !! endpoint with
    | None => ret (Ok tt)
    | Some slot =>
        match connection slot with
        | None => ret (Ok tt)
        | Some c =>
            try_ (put (set_slot endpoint
                    {| connection := None; consecutive_failures := consecutive_failures slot;
                       next_attempt := next_attempt slot |}))
              (fun _ => put (fun s => set_world (close_connection c (world s)) s))
        end
    end).
Definition evict (node : Z) : M unit := evict_slot (Node node).

(** Close everything. *)
Definition close : M unit :=
  get_state (fun s =>
    foldr (fun e m => try_ (evict_slot e) (fun _ => m)) (ret (Ok tt)) (map fst (map_to_list (slots s)))).

(** How many live connections the pool holds, and how many to brokers known by id. *)
Definition is_live (s : State) (slot : SlotState Conn) : bool :=
  match connection slot with Some c => negb (is_closed c (world s)) | None => false end.
Definition live_connections (s : State) : nat :=
  length (List.filter (fun '(_, slot) => is_live s slot) (map_to_list (slots s))).
Definition live_node_connections (s : State) : nat :=
  length (List.filter (fun '(e, slot) =>
            match e with Node _ => is_live s slot | Bootstrap _ => false end) (map_to_list (slots s))).

(** *** The metadata *)

(** Make a snapshot the current one. *)
Definition install (view : MetadataSnapshot) (s : State) : State :=
  let s := learn_addresses
             (foldl (fun m b => <[node_id b := address b]> m) ∅ (brokers view)) s in
  {| slots := slots s; addresses := addresses s; snapshot := view;
     coordinators := coordinators s; world := world s |}.

(** Fetch metadata for the whole cluster and install it. *)
Definition refresh : M MetadataSnapshot :=
  try_ any (fun c =>
  get_state (fun s =>
  try_ (outside (send_metadata c (all_topics_request (metadata_version c (world s))))) (fun response =>
  get_state (fun s =>
    let view := decode_metadata (now (world s)) response in
    try_ (put (install view)) (fun _ => ret (Ok view)))))).

(** Fetch metadata for specific topics and merge it in. *)
Definition refresh_topics (names : list string) : M MetadataSnapshot :=
  if bool_decide (names = []) then get_state (fun s => ret (Ok (snapshot s)))
  else
    try_ any (fun c =>
    try_ (outside (send_metadata c (topics_request names))) (fun response =>
    get_state (fun s =>
      let fresh := decode_metadata (now (world s)) response in
      let merged := with_topics_merged (now (world s)) (snapshot s) (topics fresh) in
      try_ (put (install merged)) (fun _ => ret (Ok merged))))).

(** Refresh only if the snapshot has gone stale. *)
Definition refresh_if_stale : M MetadataSnapshot :=
  get_state (fun s =>
    if (age (snapshot s) (now (world s)) <? max_staleness config)
       && negb (bool_decide (brokers (snapshot s) = []))
    then ret (Ok (snapshot s))
    else refresh).

(** The leader of a partition, refreshing if the snapshot does not know. *)
Definition leader_of (name : string) (partition : Z) : M Z :=
  get_state (fun s =>
    match leader_for (snapshot s) name partition with
    | Some leader => ret (Ok leader)
    | None =>
        try_ (refresh_topics [name]) (fun view =>
          match leader_for view name partition with
          | Some leader => ret (Ok leader)
          | None =>
              match topic view name ≫= topic_error with
              | Some code => ret (Err (from_code code (Some (text_of_string ("topic " +:+ name)))))
              | None =>
                  ret (Err (from_code ErrorCode.LeaderNotAvailable
                         (Some (text_of_string (name +:+ "-" +:+ pretty partition)))))
              end
          end)
    end).

(** Insert into the coordinator cache without letting it grow past the cap. *)
Definition cache_coordinator (map : gmap (CoordinatorKind * string) Z)
    (key : CoordinatorKind * string) (node : Z) : gmap (CoordinatorKind * string) Z :=
  let map :=
    if (COORDINATOR_CACHE_CAP <=? size map)%nat && negb (bool_decide (is_Some (map !! key)))
    then ∅ else map in
  <[key := node]> map.

(** One [FindCoordinator] round trip, cache included. *)
Definition coordinator_once (kind : CoordinatorKind) (key : string) : M Z :=
  get_state (fun s =>
    match coordinators s !! (kind, key) with
    | Some node => ret (Ok node)
    | None =>
        try_ any (fun c =>
        get_state (fun s =>
        try_ (ret (find_coordinator_version c (world s))) (fun version =>
          let request :=
            if 4 <=? version
            then {| fc_key := ""; fc_key_type := key_type kind; fc_coordinator_keys := [key] |}
            else {| fc_key := key; fc_key_type := key_type kind; fc_coordinator_keys := [] |} in
          try_ (outside (send_find_coordinator c request)) (fun response =>
            let '(node, error_code, message) :=
              match fr_coordinators response with
              | answer :: _ => (ca_node_id answer, ca_error_code answer, ca_error_message answer)
              | [] => (fr_node_id response, fr_error_code response, fr_error_message response)
              end in
            match ErrorCode.from_code error_code with
            | Some code => ret (Err (from_code code message))
            | None =>
                if node <? 0 then
                  ret (Err (from_code ErrorCode.CoordinatorNotAvailable (Some (text_of_string key))))
                else
                  try_ (put (fun s => set_coordinators
                               (cache_coordinator (coordinators s) (kind, key) node) s))
                    (fun _ => ret (Ok node))
            end))))
    end).

(** A pause before an attempt, where the policy has one. *)
Definition pause (attempt : Z) : M unit :=
  try_ (draw_delay attempt) (fun delay =>
    if delay =? 0 then ret (Ok tt) else put (fun s => set_world (sleep delay (world s)) s)).

(** The retry loop of [coordinator], from an attempt. *)
Fixpoint coordinator_loop (fuel : nat) (started : Z) (kind : CoordinatorKind) (key : string) (attempt : Z)
    : M Z :=
  match fuel with
  | O => out_of_fuel
  | S fuel =>
      try_ (pause attempt) (fun _ =>
      bind (coordinator_once kind key) (fun outcome =>
        match outcome with
        | Ok node => ret (Ok node)
        | Err error =>
            get_state (fun s =>
              let budget_left :=
                if needs_coordinator_refresh error
                then now (world s) - started <? Retry.coordinator_timeout (retry config)
                else Retry.should_retry (retry config) attempt in
              if negb (retriable error) || negb budget_left then ret (Err error)
              else coordinator_loop fuel started kind key (u32_saturating_add attempt 1))
        end))
  end.

(** The coordinator for a group or transactional id, cached. *)
Definition coordinator (fuel : nat) (kind : CoordinatorKind) (key : string) : M Z :=
  get_state (fun s => coordinator_loop fuel (now (world s)) kind key 1).

Definition coordinator_for (fuel : nat) (group : string) : M Z := coordinator fuel Group group.

(** The active controller. *)
Definition controller : M Z :=
  get_state (fun s =>
    match controller_id (snapshot s) with
    | Some id => ret (Ok id)
    | None =>
        try_ refresh (fun view =>
          match controller_id view with
          | Some id => ret (Ok id)
          | None => ret (Err (from_code ErrorCode.NotController None))
          end)
    end).

(** Forget a cached coordinator. *)
Definition invalidate_coordinator (kind : CoordinatorKind) (key : string) (s : State) : State :=
  set_coordinators (delete (kind, key) (coordinators s)) s.

(** Discard the snapshot, and the coordinators with it. *)
Definition invalidate (s : State) : State :=
  install (empty (now (world s))) (set_coordinators ∅ s).

(** *** The dispatch *)

Definition resolve (fuel : nat) (target : Target) : M Conn :=
  match target with
  | Any => any
  | Broker id => get id
  | Controller => try_ controller get
  | Coordinator kind key => try_ (coordinator fuel kind key) get
  | Leader name partition => try_ (leader_of name partition) get
  end.

(** One attempt, under the caller's deadline or the connection's own. *)
Definition attempt (fuel : nat) (target : Target) (deadline : option Z) : M Resp :=
  try_ (resolve fuel target) (fun c => outside (send_request c deadline)).

(** What a failure says is stale is fetched again, whatever comes of it. *)
Definition on_stale_metadata (target : Target) : M unit :=
  bind (match target with Leader name _ => refresh_topics [name] | _ => refresh end)
    (fun _ => ret (Ok tt)).

(** The retry loop, from an attempt: resolve a broker, send, and decide what a failure
    means. *)
Fixpoint dispatch_loop (fuel : nat) (started : Z) (target : Target) (deadline : option Z) (n : Z)
    : M Resp :=
  match fuel with
  | O => out_of_fuel
  | S fuel =>
      try_ (pause n) (fun _ =>
      bind (attempt fuel target deadline) (fun outcome =>
        match outcome with
        | Ok response => ret (Ok response)
        | Err error =>
            try_ (if needs_metadata_refresh error then on_stale_metadata target else ret (Ok tt)) (fun _ =>
            let coordinator_moved :=
              needs_coordinator_refresh error
              && match target with Coordinator _ _ => true | _ => false end in
            try_ (match target with
                  | Coordinator kind key =>
                      if coordinator_moved then put (invalidate_coordinator kind key) else ret (Ok tt)
                  | _ => ret (Ok tt)
                  end) (fun _ =>
            get_state (fun s =>
              let budget_left :=
                if coordinator_moved
                then now (world s) - started <? Retry.coordinator_timeout (retry config)
                else Retry.should_retry (retry config) n in
              let within_deadline :=
                match deadline with Some deadline => now (world s) <? deadline | None => true end in
              if negb (retriable error) || negb budget_left || negb within_deadline then ret (Err error)
              else dispatch_loop fuel started target deadline (u32_saturating_add n 1))))
        end))
  end.

(** [dispatch] by a handle with a scope, of a request with an api key. *)
Definition dispatch (fuel : nat) (handle : Gate.Cluster) (api_key : ApiKey.ApiKey) (target : Target)
    (deadline : option Z) : M Resp :=
  if negb (Gate.in_scope handle api_key) then ret (Err (ReadOnly (ApiKey.code api_key)))
  else get_state (fun s => dispatch_loop fuel (now (world s)) target deadline 1).

Definition send_any fuel handle api_key := dispatch fuel handle api_key Any None.
Definition send_to_controller fuel handle api_key := dispatch fuel handle api_key Controller None.
Definition send_to_node fuel handle api_key id := dispatch fuel handle api_key (Broker id) None.
Definition send_to_coordinator fuel handle api_key kind key :=
  dispatch fuel handle api_key (Coordinator kind key) None.
Definition send_to_coordinator_until fuel handle api_key kind key deadline :=
  dispatch fuel handle api_key (Coordinator kind key) (Some deadline).
Definition send_to_leader fuel handle api_key name partition :=
  dispatch fuel handle api_key (Leader name partition) None.

(** [{:?}] of a kind of coordinator. *)
Definition debug_kind (kind : CoordinatorKind) : string :=
  match kind with Group => "Group" | Transaction => "Transaction" end.

(** Send a request to wherever [routing] says it belongs; [display] is the key's
    [Display]. *)
Definition send_routed (fuel : nat) (handle : Gate.Cluster) (api_key : ApiKey.ApiKey) : M Resp :=
  let display := ApiKey.name api_key in
  match routing api_key with
  | Routing.Any => send_any fuel handle api_key
  | Routing.Controller => send_to_controller fuel handle api_key
  | Routing.Coordinator kind =>
      ret (Err (InvalidRequest (display +:+ " is routed to a " +:+ debug_kind kind
                                +:+ " coordinator; use send_to_coordinator")))
  | Routing.Specific Caller =>
      ret (Err (InvalidRequest (display +:+ " is routed to one broker; use send_to_node")))
  | Routing.Specific PartitionLeader =>
      ret (Err (InvalidRequest (display +:+ " is routed to a partition leader; use send_to_leader")))
  end.

(** [Cluster::connect]: a cluster whose first refresh succeeded. *)
Definition start (w : W) : State := {|
  slots := ∅; addresses := ∅; snapshot := empty (now w); coordinators := ∅; world := w |}.
Definition connect_cluster (w : W) : option (result MetadataSnapshot Error * State) := refresh (start w).

(** One turn of the background task: an interval, and a refresh whose failure is only
    logged. *)
Definition background_turn : M unit :=
  try_ (put (fun s => set_world (sleep (refresh_interval config) (world s)) s)) (fun _ =>
    bind refresh (fun _ => ret (Ok tt))).

End cluster.

End Cluster.
