(* ===== verification/ClusterFacts.v ===== *)
(** What the calls of a cluster keep, where they send, and that they end. *)

From S2P Require Import Prelude Sanitize Text ErrorCodes ApiKeys Retry Effects Metadata Cluster.
From Stdlib Require Import QArith.
Open Scope Z_scope.

Module ClusterFacts.
Import Error Pool Metadata Routing Eff Cluster.

Section facts.
Context {W Conn Resp : Type} `{!Network W Conn Resp, !KafkaProtocol}.
Context (config : ClusterConfig).
Abbreviation State := (@State W Conn).
Implicit Types (s : State).

(** *** What every call keeps *)

Abbreviation M := (Eff.M State).

(** An invariant is kept. *)
Definition kept (I : State -> Prop) s s' : Prop := I s -> I s'.

#[export] Instance kept_refl (I : State -> Prop) : Reflexive (kept I).
Proof. by intros s Hs. Qed.
#[export] Instance kept_trans (I : State -> Prop) : Transitive (kept I).
Proof. intros s1 s2 s3 H1 H2 Hs. by apply H2, H1. Qed.

(** An invariant of each change a call can make to the state. *)
Record closed (I : State -> Prop) : Prop := {
  closed_world : forall w s, I s -> I (set_world w s);
  closed_install : forall view s, I s -> I (install view s);
  closed_slot : forall e s, I s -> I (set_slot e (default default_slot (slots s !! e)) s);
  closed_empty : forall e slot s, I s -> connection slot = None -> I (set_slot e slot s);
  closed_dialed : forall e slot c addr node w w' s, I s -> connection slot = Some c ->
    dial addr node w = (Ok c, w') ->
    node = match e with Node id => Some id | Bootstrap _ => None end -> I (set_slot e slot s);
  closed_cached : forall key node s, I s ->
    I (set_coordinators (cache_coordinator (coordinators s) key node) s);
  closed_forgot : forall key s, I s -> I (set_coordinators (delete key (coordinators s)) s);
}.

Section keeps.
Context (I : State -> Prop) (HI : closed I).

Lemma keeps_outside {A} (f : W -> result A Error * W) : moves (kept I) (outside f).
Proof.
  intros s r s'. unfold outside. destruct (f (world s)) as [r1 w].
  intros [= <- <-] Hs. by apply closed_world.
Qed.

End keeps.

End facts.

(** A call keeps an invariant. *)
Abbreviation keeps I := (moves (kept I)).

(** One more call in a sequence. *)
Ltac keeps_step HI :=
  match goal with
  | |- moves _ (try_ _ _) => along moves_try; [|intros ?]
  | |- moves _ (bind _ _) => along moves_bind; [|intros ?]
  | |- moves _ (get_state _) => along moves_get; intros ?
  | |- moves _ (put (set_slot _ _)) => along moves_put; intros ? ?; by apply (closed_empty _ HI)
  | |- moves _ (put (install _)) => along moves_put; intros ? ?; by apply (closed_install _ HI)
  | |- moves _ (put (invalidate_coordinator _ _)) =>
      along moves_put; intros ? ?; by apply (closed_forgot _ HI)
  | |- moves _ (put (fun s => set_world _ s)) => along moves_put; intros ? ?; by apply (closed_world _ HI)
  | |- moves _ (put (fun s => set_coordinators _ s)) =>
      along moves_put; intros ? ?; by apply (closed_cached _ HI)
  | |- moves _ (outside _) => by apply keeps_outside
  | |- moves _ (ret _) => along moves_ret
  | |- moves _ out_of_fuel => along moves_none
  | |- moves _ (match ?x with _ => _ end) => destruct x
  | |- moves _ _ => solve [eauto]
  end.
Ltac keeps_all HI := repeat keeps_step HI.

Section keeps.
Context {W Conn Resp : Type} `{!Network W Conn Resp, !KafkaProtocol}.
Context (config : ClusterConfig).
Abbreviation State := (@State W Conn).
Context (I : State -> Prop) (HI : closed I).

Definition node_of (e : Endpoint) : option Z := match e with Node id => Some id | Bootstrap _ => None end.

Lemma keeps_dial e addr slot : keeps I (dial_slot config e addr (node_of e) slot).
Proof.
  unfold dial_slot, draw_delay. keeps_step HI; [by keeps_all HI|]. along moves_get. intros s0.
  destruct (match next_attempt slot with Some _ => _ | None => _ end); [along moves_ret|].
  intros s r s' E Hs. revert E. unfold bind, outside at 1.
  destruct (dial addr (node_of e) (world s)) as [outcome w'] eqn:Ed.
  assert (Hw : I (set_world w' s)) by by apply (closed_world _ HI).
  destruct outcome as [c|error].
  - intros [= <- <-]. by eapply (closed_dialed _ HI).
  - revert Hw. generalize (set_world w' s). intros s1 Hs1. revert r s'.
    cut (keeps I (try_ (draw_delay config (u32_saturating_add (u32_saturating_add (consecutive_failures slot) 1) 1))
      (fun delay => get_state (fun s => try_ (put (set_slot e
        {| connection := None; consecutive_failures := u32_saturating_add (consecutive_failures slot) 1;
           next_attempt := Some (now (world s) + delay) |})) (fun _ => ret (Err error) : M State Conn))))).
    + intros Hk r s' E. by eapply Hk.
    + unfold draw_delay. by keeps_all HI.
Qed.

Lemma keeps_connect e addr : keeps I (connect config e addr (node_of e)).
Proof.
  intros s r s' E Hs. revert E. unfold connect, get_state. set (slot := default default_slot (slots s !! e)).
  unfold try_ at 1, bind at 1, put at 1. pose proof (closed_slot _ HI e s Hs) as Hs1. fold slot in Hs1.
  pose proof (keeps_dial e addr slot) as Hd. revert Hs1. generalize (set_slot e slot s). intros s1 Hs1.
  destruct (connection slot) as [c|]; [destruct (negb _)|]; try (intros E; by eapply Hd). by intros [= <- <-].
Qed.

Lemma keeps_get_conn id : keeps I (get config id).
Proof. unfold get. keeps_step HI. keeps_step HI; [apply (keeps_connect (Node id))|along moves_ret]. Qed.

Lemma keeps_first attempts last : Forall (keeps I) attempts -> keeps I (first_of attempts last).
Proof.
  intros Hall. revert last. induction Hall as [|m ms Hm _ IH]; intros last; cbn; [along moves_ret|].
  by keeps_all HI.
Qed.

Lemma keeps_bootstrap : keeps I (bootstrap_connection config).
Proof.
  unfold bootstrap_connection. keeps_step HI; [|by keeps_all HI]. apply keeps_first.
  apply Forall_forall. intros m (addr & -> & _)%list_elem_of_fmap. apply (keeps_connect (Bootstrap addr)).
Qed.

Lemma keeps_any : keeps I (any config).
Proof.
  pose proof keeps_bootstrap. unfold any. keeps_step HI. keeps_step HI; [|by keeps_all HI]. apply keeps_first.
  apply Forall_forall. intros m ([id addr] & -> & _)%list_elem_of_fmap. apply (keeps_connect (Node id)).
Qed.

Lemma keeps_refresh : keeps I (refresh config).
Proof. pose proof keeps_any. unfold refresh. by keeps_all HI. Qed.

Lemma keeps_refresh_topics names : keeps I (refresh_topics config names).
Proof. pose proof keeps_any. unfold refresh_topics. by keeps_all HI. Qed.

Lemma keeps_leader name p : keeps I (leader_of config name p).
Proof. pose proof (keeps_refresh_topics [name]). unfold leader_of. by keeps_all HI. Qed.

Lemma keeps_pause n : keeps I (pause config n).
Proof. unfold pause, draw_delay. by keeps_all HI. Qed.

Lemma keeps_coordinator_once kind key : keeps I (coordinator_once config kind key).
Proof. pose proof keeps_any. unfold coordinator_once. by keeps_all HI. Qed.

Lemma keeps_coordinator_loop fuel started kind key n :
  keeps I (coordinator_loop config fuel started kind key n).
Proof.
  pose proof keeps_pause. pose proof keeps_coordinator_once. revert n.
  induction fuel as [|fuel IH]; intros n; cbn [coordinator_loop]; by keeps_all HI.
Qed.

Lemma keeps_controller : keeps I (controller config).
Proof. pose proof keeps_refresh. unfold controller. by keeps_all HI. Qed.

Lemma keeps_resolve fuel target : keeps I (resolve config fuel target).
Proof.
  pose proof keeps_any. pose proof keeps_get_conn. pose proof keeps_controller.
  pose proof keeps_leader. pose proof keeps_coordinator_loop.
  unfold resolve, coordinator. by keeps_all HI.
Qed.

Lemma keeps_dispatch_loop fuel started target deadline n :
  keeps I (dispatch_loop config fuel started target deadline n).
Proof.
  pose proof keeps_pause. pose proof keeps_resolve. pose proof keeps_refresh.
  pose proof keeps_refresh_topics. revert n.
  induction fuel as [|fuel IH]; intros n; cbn [dispatch_loop]; [along moves_none|].
  unfold attempt, on_stale_metadata. by keeps_all HI.
Qed.

Lemma keeps_dispatch fuel handle api_key target deadline :
  keeps I (dispatch config fuel handle api_key target deadline).
Proof. pose proof keeps_dispatch_loop. unfold dispatch. by keeps_all HI. Qed.

End keeps.

(** *** What a call returns *)

Section results.
Context {W Conn Resp : Type} `{!Network W Conn Resp, !KafkaProtocol}.
Context (config : ClusterConfig).
Abbreviation State := (@State W Conn).
Implicit Types (s : State).

(** A connection that is handed out is in its slot, and nothing but slots changed. *)
Lemma dial_slot_Ok e addr node slot s c s' :
  dial_slot config e addr node slot s = Some (Ok c, s') ->
  (exists slot', slots s' !! e = Some slot' /\ connection slot' = Some c)
  /\ snapshot s' = snapshot s /\ coordinators s' = coordinators s /\ addresses s' = addresses s.
Proof.
  unfold dial_slot. intros ([] & s1 & [= <-] & Hk)%try_inv. unfold get_state at 1 in Hk.
  destruct (match next_attempt slot with Some _ => _ | None => _ end); [done|].
  apply bind_inv in Hk as ([c'|e'] & s2 & Hd & Hk).
  - unfold outside in Hd. destruct (dial addr node _) as [r w]. injection Hd as -> <-.
    apply try_inv in Hk as ([] & s3 & [= <-] & [= <- <-]). cbn. split; [|done].
    eexists. split; [apply lookup_insert_eq|done].
  - apply try_inv in Hk as (delay & s3 & _ & Hk). unfold get_state in Hk.
    by apply try_inv in Hk as ([] & s4 & _ & Hk).
Qed.

Lemma connect_Ok e addr node s c s' :
  connect config e addr node s = Some (Ok c, s') ->
  (exists slot', slots s' !! e = Some slot' /\ connection slot' = Some c)
  /\ snapshot s' = snapshot s /\ coordinators s' = coordinators s /\ addresses s' = addresses s.
Proof.
  unfold connect, get_state. intros ([] & s1 & [= <-] & Hk)%try_inv.
  set (slot := default default_slot (slots s !! e)) in *.
  destruct (connection slot) as [c'|] eqn:Hc; [destruct (negb _)|]; try by apply dial_slot_Ok in Hk.
  injection Hk as <- <-. cbn. split; [|done]. exists slot. by rewrite lookup_insert_eq.
Qed.

Lemma get_Ok id s c s' :
  get config id s = Some (Ok c, s') ->
  (exists slot', slots s' !! Node id = Some slot' /\ connection slot' = Some c)
  /\ snapshot s' = snapshot s /\ coordinators s' = coordinators s.
Proof.
  unfold get, get_state. destruct (addresses s !! id) as [addr|]; [|done].
  intros (Hslot & Hs & Hc & _)%connect_Ok. by split_and!.
Qed.

Lemma refresh_topics_Ok names s view s' :
  refresh_topics config names s = Some (Ok view, s') -> snapshot s' = view.
Proof.
  unfold refresh_topics. case_bool_decide; unfold get_state at 1; [by intros [= <- <-]|].
  intros (c & s1 & _ & Hk)%try_inv. apply try_inv in Hk as (response & s2 & _ & Hk).
  unfold get_state in Hk. by apply try_inv in Hk as ([] & s3 & [= <-] & [= <- <-]).
Qed.

Lemma refresh_Ok s view s' : refresh config s = Some (Ok view, s') -> snapshot s' = view.
Proof.
  unfold refresh. intros (c & s1 & _ & Hk)%try_inv. unfold get_state at 1 in Hk.
  apply try_inv in Hk as (response & s2 & _ & Hk).
  unfold get_state in Hk. by apply try_inv in Hk as ([] & s3 & [= <-] & [= <- <-]).
Qed.

Lemma leader_of_Ok name p s id s' :
  leader_of config name p s = Some (Ok id, s') -> leader_for (snapshot s') name p = Some id.
Proof.
  unfold leader_of, get_state. destruct (leader_for (snapshot s) name p) as [leader|] eqn:Hl.
  { by intros [= <- <-]. }
  intros (view & s1 & Hr%refresh_topics_Ok & Hk)%try_inv.
  destruct (leader_for view name p) as [leader|] eqn:Hv; [|by case_match].
  injection Hk as <- <-. congruence.
Qed.

Lemma controller_Ok s id s' :
  controller config s = Some (Ok id, s') -> controller_id (snapshot s') = Some id.
Proof.
  unfold controller, get_state. destruct (controller_id (snapshot s)) as [i|] eqn:Hl.
  { by intros [= <- <-]. }
  intros (view & s1 & Hr%refresh_Ok & Hk)%try_inv.
  destruct (controller_id view) as [i|] eqn:Hv; [|done]. injection Hk as <- <-. congruence.
Qed.

Lemma coordinator_once_Ok kind key s id s' :
  coordinator_once config kind key s = Some (Ok id, s') -> coordinators s' !! (kind, key) = Some id.
Proof.
  unfold coordinator_once, get_state at 1. destruct (coordinators s !! (kind, key)) as [i|] eqn:Hl.
  { by intros [= <- <-]. }
  intros (c & s1 & _ & Hk)%try_inv. unfold get_state in Hk.
  apply try_inv in Hk as (version & s2 & _ & Hk). apply try_inv in Hk as (response & s3 & _ & Hk).
  destruct (match fr_coordinators response with [] => _ | _ :: _ => _ end) as [[node code] message].
  destruct (ErrorCode.from_code code); [done|]. destruct (node <? 0); [done|].
  apply try_inv in Hk as ([] & s4 & [= <-] & [= <- <-]). cbn. unfold cache_coordinator.
  by rewrite lookup_insert_eq.
Qed.

Lemma coordinator_loop_Ok fuel started kind key n s id s' :
  coordinator_loop config fuel started kind key n s = Some (Ok id, s') ->
  coordinators s' !! (kind, key) = Some id.
Proof.
  revert n s. induction fuel as [|fuel IH]; intros n s; cbn [coordinator_loop]; [done|].
  intros ([] & s1 & _ & Hk)%try_inv. apply bind_inv in Hk as ([i|e] & s2 & Ho & Hk).
  - injection Hk as -> <-. by eapply coordinator_once_Ok.
  - unfold get_state in Hk. case_match; [done|]. by eapply IH.
Qed.

(** *** The cache and the slots *)

(** Whom each connection was dialled for. *)
Class Dialled : Type := {
  belongs : Conn -> option Z;
  dialled_for addr node w c w' : dial addr node w = (Ok c, w') -> belongs c = node;
}.

(** A connection in the slot of a broker was dialled for that broker; the cache holds no
    more than its cap. *)
Record state_ok `{Dialled} s : Prop := {
  slots_ok : forall id slot c, slots s !! Node id = Some slot -> connection slot = Some c ->
    belongs c = Some id;
  cache_ok : (size (coordinators s) <= COORDINATOR_CACHE_CAP)%nat;
}.

Lemma cache_bounded m key node :
  (size m <= COORDINATOR_CACHE_CAP)%nat ->
  (size (cache_coordinator m key node) <= COORDINATOR_CACHE_CAP)%nat.
Proof.
  intros Hm. unfold cache_coordinator, COORDINATOR_CACHE_CAP in *.
  destruct ((1024 <=? size m)%nat && _) eqn:E.
  - rewrite map_size_insert_None, map_size_empty by done. lia.
  - destruct (m !! key) as [old|] eqn:Hk; [by rewrite map_size_insert, Hk|].
    rewrite map_size_insert_None by done. rewrite andb_false_iff, negb_false_iff in E.
    destruct E as [E%Nat.leb_gt|E%bool_decide_eq_true]; [lia|by destruct E].
Qed.

Lemma install_slots view s e slot : slots (install view s) !! e = Some slot -> slots s !! e = Some slot.
Proof.
  unfold install, learn_addresses. cbn. case_bool_decide; [done|]. cbn. by intros [? _]%map_lookup_filter_Some.
Qed.

Lemma set_slot_lookup e slot s e' slot' :
  slots (set_slot e slot s) !! e' = Some slot' -> (e = e' /\ slot = slot') \/ slots s !! e' = Some slot'.
Proof. cbn. intros [Hl|[_ Hl]]%lookup_insert_Some; auto. Qed.

Lemma install_coordinators view s : coordinators (install view s) = coordinators s.
Proof. unfold install, learn_addresses. by case_bool_decide. Qed.

Lemma state_ok_closed `{Dialled} : closed state_ok.
Proof.
  split.
  - by intros w s [].
  - intros view s [Hs Hc]. split; [|by rewrite install_coordinators].
    intros id slot c Hslot. apply install_slots in Hslot. by eapply Hs.
  - intros e s [Hs Hc]. split; [|done]. intros id slot c Hl.
    apply set_slot_lookup in Hl as [[-> <-]|Hl]; [|by eauto].
    destruct (slots s !! Node id) as [slot|] eqn:E; [by eauto|done].
  - intros e slot s [Hs Hc] Hnone. split; [|done]. intros id slot' c Hl.
    apply set_slot_lookup in Hl as [[-> <-]|Hl]; [congruence|by eauto].
  - intros e slot c addr node w w' s [Hs Hc] Hconn Hd Hnode. split; [|done]. intros id slot' c' Hl.
    apply set_slot_lookup in Hl as [[-> <-]|Hl]; [|by eauto].
    intros Hc'. apply dialled_for in Hd. congruence.
  - intros key node s [Hs Hc]. split; [done|]. by apply cache_bounded.
  - intros key s [Hs Hc]. split; [done|]. etrans; [|exact Hc].
    cbn [coordinators set_coordinators]. rewrite map_size_delete. destruct (_ !! _); unfold id; lia.
Qed.

End results.

(** *** Every call ends *)

(** Time passes, and a pause lasts at least as long as it was asked to. *)
Class Clock (W Conn Resp : Type) `{!Network W Conn Resp} : Prop := {
  dial_clock addr node w : now w <= now (dial addr node w).2;
  close_clock c w : now w <= now (close_connection c w);
  metadata_clock c r w : now w <= now (send_metadata c r w).2;
  coordinator_clock c r w : now w <= now (send_find_coordinator c r w).2;
  request_clock c d w : now w <= now (send_request c d w).2;
  jitter_clock w : now w <= now (jitter_sample w).2;
  sleep_clock d w : now w + d <= now (sleep d w);
}.

(** The delays of a policy that backs off: none before the first attempt, and some
    time before each other one. *)
Definition paces `{!Network W Conn Resp} (policy : Retry.RetryPolicy) : Prop :=
  Retry.max_attempts policy <= U32_MAX
  /\ forall w n, 2 <= n -> 1 <= Retry.delay policy (jitter_sample w).1 n.

Section returns.
Context {W Conn Resp : Type} `{!Network W Conn Resp, !Clock W Conn Resp, !KafkaProtocol}.
Context (config : ClusterConfig) (Hpaces : paces (retry config)).
Abbreviation State := (@State W Conn).
Implicit Types (s : State).

Definition clock s : Z := now (world s).

(** Time does not go back. *)
Definition later s s' : Prop := clock s <= clock s'.

#[export] Instance later_refl : Reflexive later.
Proof. intros s. unfold later. lia. Qed.
#[export] Instance later_trans : Transitive later.
Proof. intros s1 s2 s3. unfold later. lia. Qed.

Lemma returns_outside {A} (f : W -> result A Error * W) :
  (forall w, now w <= now (f w).2) -> returns later (outside f).
Proof.
  intros Hf s. specialize (Hf (world s)). unfold returns_at, outside, later, clock.
  destruct (f (world s)) as [r w]. by exists r, (set_world w s).
Qed.

Lemma install_clock view s : clock (install view s) = clock s.
Proof. unfold install, learn_addresses, clock. by case_bool_decide. Qed.

Lemma returns_draw n : returns later (draw_delay config n).
Proof.
  apply returns_outside. intros w. pose proof (jitter_clock w). by destruct (jitter_sample w).
Qed.

End returns.

(** A call comes back, and time does not go back meanwhile. *)
Abbreviation comes_back := (returns later).

Ltac returns_step :=
  match goal with
  | |- returns _ (try_ _ _) => along returns_try; [|intros ?]
  | |- returns _ (bind _ _) => along returns_bind; [|intros ?]
  | |- returns _ (get_state _) => along returns_get; intros ?
  | |- returns _ (draw_delay _ _) => apply returns_draw
  | |- returns _ (put _) => along returns_put; intros ?; unfold later; rewrite ?install_clock; reflexivity
  | |- returns _ (outside (dial _ _)) => apply returns_outside, dial_clock
  | |- returns _ (outside (send_metadata _ _)) => apply returns_outside, metadata_clock
  | |- returns _ (outside (send_find_coordinator _ _)) => apply returns_outside, coordinator_clock
  | |- returns _ (outside (send_request _ _)) => apply returns_outside, request_clock
  | |- returns _ (ret _) => along returns_ret
  | |- returns _ (match ?x with _ => _ end) => destruct x
  | |- returns _ _ => solve [eauto]
  end.
Ltac returns_all := repeat returns_step.

Section ends.
Context {W Conn Resp : Type} `{!Network W Conn Resp, !Clock W Conn Resp, !KafkaProtocol}.
Context (config : ClusterConfig) (Hpaces : paces (retry config)).
Abbreviation State := (@State W Conn).
Abbreviation policy := (retry config).
Implicit Types (s : State).

Lemma returns_connect e addr node : comes_back (connect config e addr node).
Proof. unfold connect, dial_slot. by returns_all. Qed.

Lemma returns_first attempts last : Forall comes_back attempts -> comes_back (first_of attempts last).
Proof.
  intros Hall. revert last. induction Hall as [|m ms Hm _ IH]; intros last; cbn; [along returns_ret|].
  by returns_all.
Qed.

Lemma returns_any : comes_back (any config).
Proof.
  unfold any, bootstrap_connection. repeat (returns_step || apply returns_first).
  all: apply Forall_forall; intros m (x & -> & _)%list_elem_of_fmap; try destruct x; apply returns_connect.
Qed.

Lemma returns_get_conn id : comes_back (get config id).
Proof. pose proof returns_connect. unfold get. by returns_all. Qed.

Lemma returns_refresh : comes_back (refresh config).
Proof. pose proof returns_any. unfold refresh. by returns_all. Qed.

Lemma returns_refresh_topics names : comes_back (refresh_topics config names).
Proof. pose proof returns_any. unfold refresh_topics. by returns_all. Qed.

Lemma returns_coordinator_once kind key : comes_back (coordinator_once config kind key).
Proof. pose proof returns_any. unfold coordinator_once. by returns_all. Qed.

(** A pause before a later attempt takes time. *)
Lemma pause_takes n s : 1 <= n ->
  exists s', pause config n s = Some (Ok tt, s') /\ clock s <= clock s' /\ (2 <= n -> clock s < clock s').
Proof.
  intros Hn. unfold pause, try_, bind, draw_delay, outside, clock.
  pose proof (jitter_clock (world s)) as Hj. pose proof (proj2 Hpaces (world s) n) as Hd.
  destruct (jitter_sample (world s)) as [q w]. cbn in *.
  destruct (Z.eqb_spec (Retry.delay policy q n) 0) as [Hz|Hz].
  - eexists. split; [done|]. cbn. split; [done|]. intros H2. specialize (Hd H2). lia.
  - eexists. split; [done|]. cbn. pose proof (sleep_clock (Retry.delay policy q n) w) as Hs.
    assert (Hone : n = 1 \/ 2 <= n) by lia. destruct Hone as [->|H2]; [|specialize (Hd H2); lia].
    done.
Qed.

(** How many more attempts a loop can make: those its count allows, and one for each tick
    until the coordinator's time is over. *)
Definition left (started n : Z) s : Z :=
  Z.max 0 (Retry.max_attempts policy - n)
  + Z.max 0 (started + Retry.coordinator_timeout policy - clock s)
  + (if n <=? 1 then 1 else 0).

Lemma left_less started n s s' by_time :
  1 <= n -> clock s <= clock s' -> (2 <= n -> clock s < clock s') ->
  (if by_time : bool then clock s' - started <? Retry.coordinator_timeout policy
   else Retry.should_retry policy n) = true ->
  left started (u32_saturating_add n 1) s' < left started n s
  /\ 1 <= u32_saturating_add n 1.
Proof.
  intros Hn Hc Hlt Hb. destruct Hpaces as [Hmax _].
  unfold left, u32_saturating_add, Retry.should_retry, U32_MAX in *.
  destruct (Z.leb_spec n 1).
  - rewrite (proj2 (Z.leb_gt _ 1)) by lia. destruct by_time; lia.
  - specialize (Hlt ltac:(lia)). rewrite (proj2 (Z.leb_gt _ 1)) by lia. destruct by_time; lia.
Qed.

Lemma coordinator_loop_returns fuel started kind key n s :
  1 <= n -> left started n s < Z.of_nat fuel ->
  returns_at later (coordinator_loop config fuel started kind key n) s.
Proof.
  revert n s. induction fuel as [|fuel IH]; intros n s Hn Hf.
  { unfold left in Hf. destruct (n <=? 1); lia. }
  cbn [coordinator_loop]. unfold try_ at 1.
  destruct (pause_takes n s Hn) as (s1 & Hp & Hle & Hlt).
  unfold returns_at, later, bind at 1. rewrite Hp.
  destruct (returns_coordinator_once kind key s1) as ([node|e] & s2 & Ho & Hle2); unfold bind; rewrite Ho; unfold later in Hle2.
  - exists (Ok node), s2. split; [done|lia].
  - unfold get_state. destruct (negb (retriable e) || negb _) eqn:Hstop.
    + exists (Err e), s2. split; [done|lia].
    + apply orb_false_iff in Hstop as [_ Hb%negb_false_iff].
      destruct (left_less started n s s2 (needs_coordinator_refresh e)) as [Hless Hn']; try done; [lia|lia|].
      destruct (IH (u32_saturating_add n 1) s2) as (r & s3 & Hr & Hle3); [done|lia|].
      unfold later in Hle3. exists r, s3. split; [done|lia].
Qed.

(** Fuel for the loop of a coordinator, from any state. *)
Definition enough : Z :=
  Z.max 0 (Retry.max_attempts policy) + Z.max 0 (Retry.coordinator_timeout policy) + 2.

Lemma left_enough started n s : 1 <= n -> started <= clock s -> left started n s < enough.
Proof. intros Hn Hs. unfold left, enough. destruct (n <=? 1); lia. Qed.

Lemma returns_attempt fuel target deadline :
  enough <= Z.of_nat fuel -> comes_back (attempt config fuel target deadline).
Proof.
  intros Hf. assert (Hcoord : forall kind key, comes_back (coordinator config fuel kind key)).
  { intros kind key s. apply coordinator_loop_returns; [done|].
    pose proof (left_enough (clock s) 1 s). unfold clock in *. lia. }
  pose proof returns_any. pose proof returns_get_conn. pose proof returns_refresh.
  pose proof returns_refresh_topics.
  unfold attempt, resolve, controller, leader_of. by returns_all.
Qed.

Lemma dispatch_loop_returns fuel started target deadline n s :
  1 <= n -> enough + left started n s < Z.of_nat fuel ->
  returns_at later (dispatch_loop config fuel started target deadline n) s.
Proof.
  revert n s. induction fuel as [|fuel IH]; intros n s Hn Hf.
  { unfold left, enough in Hf. destruct (n <=? 1); lia. }
  assert (Hleft : 0 <= left started n s) by (unfold left; destruct (n <=? 1); lia).
  cbn [dispatch_loop]. unfold try_ at 1.
  destruct (pause_takes n s Hn) as (s1 & Hp & Hle & Hlt).
  unfold returns_at, later, bind at 1. rewrite Hp.
  destruct (returns_attempt fuel target deadline ltac:(lia) s1) as ([resp|e] & s2 & Ho & Hle2);
    unfold bind at 1; rewrite Ho; unfold later in Hle2.
  { exists (Ok resp), s2. split; [done|lia]. }
  pose proof returns_refresh. pose proof returns_refresh_topics.
  assert (Hstale : comes_back (if needs_metadata_refresh e then on_stale_metadata config target else ret (Ok tt)))
    by (unfold on_stale_metadata; by returns_all).
  destruct (Hstale s2) as ([[]|e3] & s3 & H3 & Hle3); unfold try_ at 1, bind at 1; rewrite H3; unfold later in Hle3;
    [|exists (Err e3), s3; split; [done|lia]].
  set (moved := needs_coordinator_refresh e && _).
  assert (Hforget : comes_back (match target with
    | Coordinator kind key => if moved then put (invalidate_coordinator kind key) else ret (Ok tt)
    | _ => ret (Ok tt) end)) by by returns_all.
  destruct (Hforget s3) as ([[]|e4] & s4 & H4 & Hle4); unfold try_ at 1, bind at 1; rewrite H4; unfold later in Hle4;
    [|exists (Err e4), s4; split; [done|lia]].
  unfold get_state. destruct (negb (retriable e) || negb _ || negb _) eqn:Hstop.
  - exists (Err e), s4. split; [done|lia].
  - apply orb_false_iff in Hstop as [[_ Hb%negb_false_iff]%orb_false_iff _].
    destruct (left_less started n s s4 moved) as [Hless Hn']; try done; [lia|lia|].
    destruct (IH (u32_saturating_add n 1) s4) as (r & s5 & Hr & Hle5); [done|lia|].
    unfold later in Hle5. exists r, s5. split; [done|lia].
Qed.

End ends.

End ClusterFacts.
