(* ===== verification/ClusterProperties.v ===== *)
(** What a cluster handle promises: calls end, requests reach the broker they are for, and
    what a targeted refresh does not learn. *)

From S2P Require Import Prelude Sanitize Text ErrorCodes ApiKeys Retry Scram Sasl Tls BatchDecode Rpc Connection Connect Effects Metadata Cluster ClusterFacts.
From Stdlib Require Import QArith.
Open Scope Z_scope.

Module ClusterLife.
Import Error Pool Metadata Routing Eff Cluster ClusterFacts.

Section life.
Context {W Conn Resp : Type} `{!Network W Conn Resp, !KafkaProtocol}.
Context (config : ClusterConfig).
Abbreviation State := (@State W Conn).
Implicit Types (s : State).

(** One call of a handle, or of the pool it gives access to, or a turn of the background
    task; the world may have moved on since the last one. *)
Inductive turn s : State -> Prop :=
  | turn_world w : turn s (set_world w s)
  | turn_dispatch fuel handle key target deadline r s' :
      dispatch config fuel handle key target deadline s = Some (r, s') -> turn s s'
  | turn_refresh r s' : refresh config s = Some (r, s') -> turn s s'
  | turn_background r s' : background_turn config s = Some (r, s') -> turn s s'
  | turn_refresh_topics names r s' : refresh_topics config names s = Some (r, s') -> turn s s'
  | turn_refresh_if_stale r s' : refresh_if_stale config s = Some (r, s') -> turn s s'
  | turn_leader name p r s' : leader_of config name p s = Some (r, s') -> turn s s'
  | turn_controller r s' : controller config s = Some (r, s') -> turn s s'
  | turn_coordinator fuel kind key r s' : coordinator config fuel kind key s = Some (r, s') -> turn s s'
  | turn_get id r s' : get config id s = Some (r, s') -> turn s s'
  | turn_any r s' : any config s = Some (r, s') -> turn s s'
  | turn_evict id r s' : evict id s = Some (r, s') -> turn s s'
  | turn_close r s' : close s = Some (r, s') -> turn s s'
  | turn_invalidate_coordinator kind key : turn s (invalidate_coordinator kind key s)
  | turn_invalidate : turn s (invalidate s).

(** A state a cluster can be in. *)
Definition lived s : Prop := exists w, rtc turn (start w) s.

Lemma keeps_evict_slot (I : State -> Prop) (HI : closed I) e : keeps I (evict_slot e).
Proof. unfold evict_slot. by keeps_all HI. Qed.

Lemma keeps_close (I : State -> Prop) (HI : closed I) : keeps I close.
Proof.
  unfold close. along moves_get. intros s. induction (map fst (map_to_list (slots s))) as [|e l IH]; cbn.
  - along moves_ret.
  - along moves_try; [by apply keeps_evict_slot|done].
Qed.

Lemma turn_ok `{!Dialled (Resp := Resp)} s s' : state_ok s -> turn s s' -> state_ok s'.
Proof.
  pose proof state_ok_closed as HI. intros Hs Ht.
  destruct Ht as [w|fuel h k t d r s' E|r s' E|r s' E|ns r s' E|r s' E|n p r s' E|r s' E|fuel k key r s' E
                  |id r s' E|r s' E|id r s' E|r s' E|k key|].
  1: by apply (closed_world _ HI).
  13: by apply (closed_forgot _ HI).
  13: { unfold invalidate. apply (closed_install _ HI). destruct Hs as [Hs _]. split; [done|].
        cbn. unfold COORDINATOR_CACHE_CAP. rewrite map_size_empty. lia. }
  all: match type of E with ?m _ = _ => enough (Hk : keeps state_ok m) by exact (Hk s r s' E Hs) end; clear E.
  - by apply keeps_dispatch.
  - by apply keeps_refresh.
  - unfold background_turn. pose proof (keeps_refresh config _ HI). by keeps_all HI.
  - by apply keeps_refresh_topics.
  - unfold refresh_if_stale. pose proof (keeps_refresh config _ HI). by keeps_all HI.
  - by apply keeps_leader.
  - by apply keeps_controller.
  - unfold coordinator. pose proof (keeps_coordinator_loop config _ HI). by keeps_all HI.
  - by apply keeps_get_conn.
  - by apply keeps_any.
  - by apply keeps_evict_slot.
  - by apply keeps_close.
Qed.

Lemma lived_ok `{!Dialled (Resp := Resp)} s : lived s -> state_ok s.
Proof.
  intros [w Hr]. assert (Hstart : state_ok (start w : State)).
  { split; cbn; [|unfold COORDINATOR_CACHE_CAP; rewrite map_size_empty; lia].
    intros id slot c Hl. by rewrite lookup_empty in Hl. }
  induction Hr as [|x y z Ht _ IH]; [done|]. apply IH. by eapply turn_ok.
Qed.

End life.

End ClusterLife.

(** ** A small cluster *)

(** Brokers 1 and 2, the second registered from some time on; broker 2 leads the only
    partition then.  The world is the clock; a connection remembers whom it was dialled for. *)
Module ClusterDemo.
Import Error Pool Metadata Routing Eff Cluster ClusterFacts.

#[export] Instance demo_codes : KafkaProtocol := {|
  try_from_code c := if c =? 5 then Some ResponseError.LeaderNotAvailable else None;
  is_retriable _ := true |}.

Definition REGISTERED : Z := 1000000.

Definition demo_broker (id : Z) : ResponseBroker :=
  {| rb_node_id := id; rb_host := text_of_string "broker"; rb_port := 9092 + id; rb_rack := None |}.

Definition demo_topic (id : Z) : ResponseTopic := {|
  rt_name := Some "orders"%string; rt_topic_id := ZERO; rt_is_internal := false; rt_error_code := 0;
  rt_partitions := [{| rp_index := 0; rp_leader_id := id; rp_leader_epoch := 0; rp_replica_nodes := [id];
                       rp_isr_nodes := [id]; rp_offline_replicas := []; rp_error_code := 0 |}] |}.

(** Every response has all the brokers there are. *)
Definition demo_response (time : Z) : MetadataResponse :=
  let late := REGISTERED <=? time in {|
  mr_brokers := map demo_broker (if late then [1; 2] else [1]);
  mr_topics := [demo_topic (if late then 2 else -1)];
  mr_controller_id := 1; mr_cluster_id := None |}.

#[export] Instance demo_network : Network Z (option Z) string := {|
  dial _ node w := (Ok node, w);
  is_closed _ _ := false;
  close_connection _ w := w;
  metadata_version _ _ := Some 12;
  find_coordinator_version _ _ := Ok 4;
  send_metadata _ _ w := (Ok (demo_response w), w);
  send_find_coordinator _ _ w :=
    (Ok {| fr_node_id := 0; fr_error_code := 0; fr_error_message := None;
           fr_coordinators := [{| ca_node_id := 2; ca_error_code := 0; ca_error_message := None |}] |}, w);
  send_request c _ w :=
    (Ok match c with Some 2 => "from broker 2" | _ => "from another broker" end%string, w);
  now w := w;
  jitter_sample w := (0%Q, w);
  sleep d w := w + d;
  entries m _ := map_to_list m |}.

#[export] Instance demo_clock : Clock Z (option Z) string.
Proof. split; intros; cbn; lia. Qed.

#[export] Instance demo_dialled : Dialled (W := Z) (Conn := option Z) (Resp := string).
Proof. refine {| belongs (c : option Z) := c |}. by intros ? ? ? ? ? [= <- _]. Defined.

Definition demo_config : ClusterConfig := default_config [text_of_string "seed:9092"].

Lemma demo_paces : paces (W := Z) (Conn := option Z) (Resp := string) (retry demo_config).
Proof.
  split; [done|]. intros w n. apply RetryFacts.default_delay_takes.
Qed.

(** The cluster just after it opened, and after broker 2 registered. *)
Definition opened : State (W := Z) (Conn := option Z) :=
  match connect_cluster demo_config 0 with Some (_, s) => s | None => start 0 end.
Definition grown : State (W := Z) (Conn := option Z) := set_world REGISTERED opened.

Lemma opened_lived : ClusterLife.lived demo_config opened.
Proof.
  exists 0. apply rtc_once. unfold opened, connect_cluster.
  destruct (refresh demo_config (start 0)) as [[r s]|] eqn:E; [by eapply ClusterLife.turn_refresh|].
  vm_compute in E. discriminate.
Qed.

Lemma grown_lived : ClusterLife.lived demo_config grown.
Proof.
  destruct opened_lived as [w Hr]. exists w. eapply rtc_r; [exact Hr|]. apply ClusterLife.turn_world.
Qed.

Definition demo_handle : Gate.Cluster := {|
  Gate.connection := {| Gate.read_only := false; Gate.allowed_mutations := None |};
  Gate.scope := None |}.

End ClusterDemo.

Module ClusterProperties.
Import Error Pool Metadata Routing Eff Cluster ClusterFacts ClusterLife ClusterDemo.

(** C11: A call comes back.  Whatever the network answers, with a policy that waits
    before each attempt after the first, [dispatch] returns a response or an error for every target,
    deadline and state, however long the errors that ask for another coordinator go on: fuel
    for the attempts the policy counts and the ticks of the coordinator's time is enough, also
    for the search for a coordinator inside each attempt. *)
Theorem dispatch_returns {W Conn Resp : Type} `{!Network W Conn Resp, !Clock W Conn Resp, !KafkaProtocol}
    (config : ClusterConfig) (fuel : nat) handle key target deadline (s : State (W := W) (Conn := Conn)) :
  paces (W := W) (Conn := Conn) (Resp := Resp) (retry config) ->
  2 * enough config <= Z.of_nat fuel ->
  exists (r : result Resp Error) s', dispatch config fuel handle key target deadline s = Some (r, s')
    /\ now (world s) <= now (world s').
Proof.
  intros Hp Hf. unfold dispatch. destruct (negb _); [by eexists _, s|].
  apply (dispatch_loop_returns config Hp fuel (now (world s)) target deadline 1 s); [done|].
  pose proof (left_enough config (now (world s)) 1 s ltac:(done)). unfold clock in *. lia.
Qed.

Lemma dispatch_returns_witness :
  exists (r : result string Error) s',
    dispatch demo_config (Z.to_nat (2 * enough demo_config)) demo_handle ApiKey.Produce (Leader "orders" 0) None grown
      = Some (r, s')
    /\ now (world grown) <= now (world s').
Proof.
  apply (dispatch_returns demo_config); [exact demo_paces|].
  rewrite Z2Nat.id; [done|]. unfold enough. lia.
Defined.

(** C15: A request goes to the broker its target names.  In any state a
    cluster can be in, a connection that [resolve] hands out for a broker was dialled
    for that broker; for a partition's leader, the controller or a coordinator it was dialled
    for the broker that the snapshot, or the coordinator cache, names once the call is over.  And the
    cache never outgrows its cap. *)
Theorem requests_reach_their_broker {W Conn Resp : Type}
    `{!Network W Conn Resp, !KafkaProtocol, !Dialled (Resp := Resp)}
    (config : ClusterConfig) (fuel : nat) target (s : State (W := W) (Conn := Conn)) c s' :
  lived config s ->
  resolve config fuel target s = Some (Ok c, s') ->
  (size (coordinators s') <= COORDINATOR_CACHE_CAP)%nat
  /\ match target with
     | Any => True
     | Broker id => belongs c = Some id
     | Controller => exists id, controller_id (snapshot s') = Some id /\ belongs c = Some id
     | Coordinator kind k => exists id, coordinators s' !! (kind, k) = Some id /\ belongs c = Some id
     | Leader name p => exists id, leader_for (snapshot s') name p = Some id /\ belongs c = Some id
     end.
Proof.
  intros Hl Hr. pose proof (lived_ok config s Hl) as Hs.
  pose proof (keeps_resolve config _ state_ok_closed fuel target s _ s' Hr Hs) as Hs'.
  split; [apply Hs'|].
  assert (Hget : forall id s0, get config id s0 = Some (Ok c, s') ->
    belongs c = Some id /\ snapshot s' = snapshot s0 /\ coordinators s' = coordinators s0).
  { intros id s0 ((slot & Hslot & Hc) & ? & ?)%get_Ok. split; [|done]. by eapply (slots_ok _ Hs'). }
  destruct target as [| |id|kind k|name p]; unfold resolve in Hr; [done|..].
  - apply try_inv in Hr as (id & s1 & Hi%controller_Ok & (Hb & Hsn & _)%Hget).
    exists id. by rewrite Hsn.
  - by apply Hget in Hr as [? _].
  - apply try_inv in Hr as (id & s1 & Hi%coordinator_loop_Ok & (Hb & _ & Hco)%Hget).
    exists id. by rewrite Hco.
  - apply try_inv in Hr as (id & s1 & Hi%leader_of_Ok & (Hb & Hsn & _)%Hget).
    exists id. by rewrite Hsn.
Qed.

Lemma requests_reach_their_broker_witness :
  lived demo_config opened
  /\ exists c s', resolve demo_config 10 Controller opened = Some (Ok c, s') /\ belongs c = Some 1.
Proof.
  split; [exact opened_lived|].
  destruct (resolve demo_config 10 Controller opened) as [[[c|e] s']|] eqn:E;
    [|vm_compute in E; discriminate..].
  exists c, s'. split; [done|].
  destruct (requests_reach_their_broker demo_config 10 Controller opened c s' opened_lived E)
    as (_ & id & Hid & Hb).
  vm_compute in E. injection E as <- <-. exact Hb || reflexivity.
Defined.

(** ** What a cluster does on concrete inputs *)

(** A refresh of one topic learns its leaders and throws the brokers of the response away:
    once a broker that was not known leads a partition, no attempt of a request to that leader finds
    its address, though each refresh of the topic had it; the next refresh of everything
    does. *)
Example new_leader_waits_for_a_full_refresh :
  (r ← dispatch demo_config 50 demo_handle ApiKey.Produce (Leader "orders" 0) None grown;
   full ← refresh demo_config r.2;
   again ← dispatch demo_config 50 demo_handle ApiKey.Produce (Leader "orders" 0) None full.2;
   Some (match r.1 with
         | Err (Error.Broker ErrorCode.LeaderNotAvailable _) => true
         | _ => false
         end,
         leader_for (snapshot r.2) "orders" 0, addresses r.2 !! 2, again.1))
  = Some (true, Some 2, None, Ok "from broker 2"%string).
Proof. vm_compute. reflexivity. Qed.

End ClusterProperties.
