(* ===== verification/AdminTypes.v ===== *)
(** The data of the admin client: the types of [crates/kafka-admin/src/types.rs] and those
    that [groups.rs], [offsets.rs], [partitions.rs], [security.rs], [tokens.rs] and
    [transactions.rs] declare, with their wire values. *)

From S2P Require Import Prelude Sanitize Text ErrorCodes Scram Connect Metadata.
From Stdlib Require Import QArith.
Open Scope Z_scope.

(** A string with characters the code looks at is a [text]; other strings are [string]s. *)

Module AdminTypes.
Import Error.

(** What a config belongs to. *)
Inductive ConfigResourceType : Type := ConfigTopic | ConfigBroker | BrokerLogger | ClientMetrics | ConfigGroup.

#[export] Instance ConfigResourceType_eq_dec : EqDecision ConfigResourceType.
Proof. solve_decision. Defined.

Definition config_code (self : ConfigResourceType) : Z :=
  match self with ConfigTopic => 2 | ConfigBroker => 4 | BrokerLogger => 8 | ClientMetrics => 16 | ConfigGroup => 32 end.
Definition config_from_code (code : Z) : option ConfigResourceType :=
  match code with
  | 2 => Some ConfigTopic | 4 => Some ConfigBroker | 8 => Some BrokerLogger
  | 16 => Some ClientMetrics | 32 => Some ConfigGroup | _ => None
  end.

(** A configurable resource. *)
Record ConfigResource : Type := { resource_kind : ConfigResourceType; resource_name : text }.

Definition topic_resource (name : text) : ConfigResource := {| resource_kind := ConfigTopic; resource_name := name |}.
Definition broker_resource (node_id : Z) : ConfigResource :=
  {| resource_kind := ConfigBroker; resource_name := Str.display_int node_id |}.
Definition group_resource (name : text) : ConfigResource := {| resource_kind := ConfigGroup; resource_name := name |}.

(** Where a config value came from. *)
Inductive ConfigSource : Type :=
  | TopicConfig | DynamicBrokerConfig | DynamicDefaultBrokerConfig | StaticBrokerConfig | DefaultConfig
  | DynamicBrokerLoggerConfig | ClientMetricsConfig | GroupConfig | UnknownSource (code : Z).

Definition source_from_code (code : Z) : ConfigSource :=
  match code with
  | 1 => TopicConfig | 2 => DynamicBrokerConfig | 3 => DynamicDefaultBrokerConfig | 4 => StaticBrokerConfig
  | 5 => DefaultConfig | 6 => DynamicBrokerLoggerConfig | 7 => ClientMetricsConfig | 8 => GroupConfig
  | other => UnknownSource other
  end.
Definition is_explicit (self : ConfigSource) : bool :=
  match self with DefaultConfig | UnknownSource _ => false | _ => true end.

(** One configuration entry. *)
Record ConfigEntry : Type := {
  entry_name : text; entry_value : option text; entry_source : ConfigSource; is_sensitive : bool;
  entry_read_only : bool; documentation : option text;
}.

(** How to change one config key. *)
Inductive AlterOp : Type := OpSet | OpDelete | OpAppend | OpSubtract.
Definition alter_code (self : AlterOp) : Z :=
  match self with OpSet => 0 | OpDelete => 1 | OpAppend => 2 | OpSubtract => 3 end.
Record ConfigChange : Type := { change_name : text; change_op : AlterOp; change_value : option text }.
Definition set_config (name value : text) : ConfigChange :=
  {| change_name := name; change_op := OpSet; change_value := Some value |}.
Definition delete_config (name : text) : ConfigChange :=
  {| change_name := name; change_op := OpDelete; change_value := None |}.

(** A topic to create, and one that was created. *)
Record NewTopic : Type := {
  new_name : string; new_partitions : option Z; new_replication : option Z;
  assignments : list (Z * list Z); new_configs : list (text * text);
}.
Definition new_topic (name : string) (partitions replication_factor : Z) : NewTopic := {|
  new_name := name; new_partitions := Some partitions; new_replication := Some replication_factor;
  assignments := []; new_configs := [] |}.
Definition with_assignments (name : string) (assignments : list (Z * list Z)) : NewTopic := {|
  new_name := name; new_partitions := None; new_replication := None; assignments := assignments; new_configs := [] |}.
Definition with_config (self : NewTopic) (key value : text) : NewTopic := {|
  new_name := new_name self; new_partitions := new_partitions self; new_replication := new_replication self;
  assignments := assignments self; new_configs := new_configs self ++ [(key, value)] |}.
Record CreatedTopic : Type := { created_name : string; created_partitions : Z; created_replication : Z }.

(** Which offset to ask for. *)
Inductive OffsetSpec : Type :=
  | Latest | Earliest | MaxTimestamp | EarliestLocalTimestamp | LatestTieredTimestamp
  | EarliestPendingUploadTimestamp | Timestamp (ms : Z).

#[export] Instance OffsetSpec_eq_dec : EqDecision OffsetSpec.
Proof. solve_decision. Defined.

Definition timestamp (self : OffsetSpec) : Z :=
  match self with
  | Latest => -1 | Earliest => -2 | MaxTimestamp => -3 | EarliestLocalTimestamp => -4
  | LatestTieredTimestamp => -5 | EarliestPendingUploadTimestamp => -6 | Timestamp ms => ms
  end.
Definition min_version (self : OffsetSpec) : Z :=
  match self with
  | MaxTimestamp => 7 | EarliestLocalTimestamp => 8 | LatestTieredTimestamp => 9
  | EarliestPendingUploadTimestamp => 11 | _ => 1
  end.
Definition REACHABLE : list OffsetSpec :=
  [Latest; Earliest; MaxTimestamp; EarliestLocalTimestamp; LatestTieredTimestamp].

(** [{:?}] of a spec. *)
Definition debug_spec (self : OffsetSpec) : string :=
  match self with
  | Latest => "Latest" | Earliest => "Earliest" | MaxTimestamp => "MaxTimestamp"
  | EarliestLocalTimestamp => "EarliestLocalTimestamp" | LatestTieredTimestamp => "LatestTieredTimestamp"
  | EarliestPendingUploadTimestamp => "EarliestPendingUploadTimestamp"
  | Timestamp ms => "Timestamp(" +:+ pretty ms +:+ ")"
  end.

Record ListedOffset : Type := {
  listed_partition : Z; listed_offset : option Z; listed_timestamp : option Z; listed_epoch : option Z;
}.

Inductive IsolationLevel : Type := ReadUncommitted | ReadCommitted.
Definition isolation_code (self : IsolationLevel) : Z :=
  match self with ReadUncommitted => 0 | ReadCommitted => 1 end.

(** Log directories and sizes. *)
Record LogDirReplica : Type := {
  dir_topic : string; dir_partition : Z; size_bytes : Z; offset_lag : Z; is_future : bool;
}.
Record LogDir : Type := {
  dir_path : string; total_bytes : option Z; usable_bytes : option Z; dir_replicas : list LogDirReplica;
  dir_error : option ErrorCode.ErrorCode;
}.
Record PartitionSize : Type := { ps_partition : Z; ps_logical : Z; ps_replicated : Z }.
Record ReplicaSize : Type := {
  rs_node_id : Z; rs_partition : Z; rs_log_dir : string; rs_size : Z; rs_lag : Z; rs_future : bool; rs_leader : bool;
}.
Record TopicSize : Type := {
  ts_topic : string; logical_bytes : Z; replicated_bytes : Z; ts_partitions : list PartitionSize;
  ts_replicas : list ReplicaSize;
}.

(** The cluster and its brokers. *)
Record ClusterBroker : Type := {
  cb_node_id : Z; cb_host : string; cb_port : Z; cb_rack : option string; is_fenced : bool;
}.
Record ClusterDescription : Type := {
  cd_cluster_id : string; cd_controller_id : option Z; cd_brokers : list ClusterBroker;
}.

(** A group's state, as the broker names it. *)
Inductive GroupState : Type :=
  | Empty | PreparingRebalance | CompletingRebalance | Stable | Dead | OtherState (name : string).

#[export] Instance GroupState_eq_dec : EqDecision GroupState.
Proof. solve_decision. Defined.

Definition parse_state (value : string) : GroupState :=
  if bool_decide (value = "Empty")%string then Empty
  else if bool_decide (value = "PreparingRebalance")%string then PreparingRebalance
  else if bool_decide (value = "CompletingRebalance")%string then CompletingRebalance
  else if bool_decide (value = "Stable")%string then Stable
  else if bool_decide (value = "Dead")%string then Dead
  else OtherState value.
Definition state_is_empty (self : GroupState) : bool :=
  match self with Empty | Dead => true | _ => false end.

(** [{:?}] of a state. *)
Definition debug_state `{Scram.StrDebug} (self : GroupState) : string :=
  match self with
  | Empty => "Empty" | PreparingRebalance => "PreparingRebalance" | CompletingRebalance => "CompletingRebalance"
  | Stable => "Stable" | Dead => "Dead"
  | OtherState name => "Other(" +:+ Str.string_of_text (Scram.debug_str (text_of_string name)) +:+ ")"
  end.

Record GroupListing : Type := {
  gl_group_id : string; gl_state : GroupState; group_type : text; gl_protocol_type : string;
}.

Definition is_type (name : string) (t : text) : bool := bool_decide (t = text_of_string name).

Definition describable (self : GroupListing) : bool :=
  let t := Str.to_ascii_lowercase (group_type self) in
  is_type "" t || is_type "classic" t || is_type "consumer" t || is_type "share" t.

Record ClassicGroupMember : Type := {
  cm_member_id : string; cm_instance_id : option string; cm_client_id : string; cm_client_host : string;
  cm_assignment : bytes;
}.
Record ConsumerGroupMember : Type := {
  gm_member_id : string; gm_instance_id : option string; gm_rack_id : option string; gm_epoch : Z;
  gm_client_id : string; gm_client_host : string; gm_subscribed : list string;
  gm_assignment : list (string * list Z); gm_target : list (string * list Z);
}.
Record ShareGroupMember : Type := {
  sm_member_id : string; sm_rack_id : option string; sm_epoch : Z; sm_client_id : string; sm_client_host : string;
  sm_subscribed : list string; sm_assignment : list (string * list Z);
}.

(** A described group, of the kind it is. *)
Inductive GroupDescription : Type :=
  | Classic (group_id : string) (state : GroupState) (protocol_type protocol : string)
      (members : list ClassicGroupMember)
  | Consumer (group_id : string) (state : GroupState) (group_epoch assignment_epoch : Z) (assignor : string)
      (members : list ConsumerGroupMember)
  | Share (group_id : string) (state : GroupState) (group_epoch assignment_epoch : Z) (assignor : string)
      (members : list ShareGroupMember)
  | Unrecognized (group_id : string) (kind : text) (state : GroupState).

Definition described_id (self : GroupDescription) : string :=
  match self with
  | Classic id _ _ _ _ | Consumer id _ _ _ _ _ | Share id _ _ _ _ _ | Unrecognized id _ _ => id
  end.
Definition described_state (self : GroupDescription) : GroupState :=
  match self with
  | Classic _ s _ _ _ | Consumer _ s _ _ _ _ | Share _ s _ _ _ _ | Unrecognized _ _ s => s
  end.
Definition member_count (self : GroupDescription) : option nat :=
  match self with
  | Classic _ _ _ _ members => Some (length members)
  | Consumer _ _ _ _ _ members => Some (length members)
  | Share _ _ _ _ _ members => Some (length members)
  | Unrecognized _ _ _ => None
  end.

(** Committed offsets, to write and read back. *)
Record OffsetReset : Type := {
  reset_topic : string; reset_partition : Z; reset_offset : Z; reset_metadata : option string;
}.
Definition new_reset (topic : string) (partition offset : Z) : OffsetReset := {|
  reset_topic := topic; reset_partition := partition; reset_offset := offset; reset_metadata := None |}.
Record CommittedOffset : Type := {
  committed_offset : Z; committed_epoch : option Z; committed_metadata : option string;
}.

(** Reassignments and elections. *)
Record PartitionReassignment : Type := { move_topic : string; move_partition : Z; move_replicas : option (list Z) }.
Definition move_to (topic : string) (partition : Z) (replicas : list Z) : PartitionReassignment := {|
  move_topic := topic; move_partition := partition; move_replicas := Some replicas |}.
Definition cancel_move (topic : string) (partition : Z) : PartitionReassignment := {|
  move_topic := topic; move_partition := partition; move_replicas := None |}.
Record OngoingReassignment : Type := {
  ongoing_topic : string; ongoing_partition : Z; ongoing_replicas : list Z; adding : list Z; removing : list Z;
}.
Inductive ElectionType : Type := Preferred | Unclean.
Definition election_code (self : ElectionType) : Z := match self with Preferred => 0 | Unclean => 1 end.

(** Transactions and producers. *)
Record TransactionListing : Type := { tl_id : string; tl_producer_id : Z; tl_state : string }.
Record TransactionDescription : Type := {
  td_id : string; td_state : string; td_timeout_ms : Z; start_time_ms : option Z; td_producer_id : Z;
  td_producer_epoch : Z; td_partitions : list (string * list Z);
}.
Definition open_for_ms (self : TransactionDescription) (now_ms : Z) : option Z :=
  start ← start_time_ms self; Some (Z.max (i64_saturating_sub now_ms start) 0).
Record ProducerState : Type := {
  pr_id : Z; pr_epoch : Z; last_sequence : Z; last_timestamp : Z; coordinator_epoch : Z;
  current_txn_start_offset : option Z;
}.

(** A Kafka principal: a type and a name. *)
Record Principal : Type := { principal_type : text; principal_name : text }.

#[export] Instance Principal_eq_dec : EqDecision Principal.
Proof. solve_decision. Defined.

Definition user (name : text) : Principal := {| principal_type := text_of_string "User"; principal_name := name |}.

(** Whether the name is a certificate subject rather than a username: [44], [61], [46] and
    [58] are the comma, the equals sign, the full stop and the colon. *)
Definition is_distinguished_name (self : Principal) : bool :=
  let first := Str.trim (default [] (head (Str.split 44 (principal_name self)))) in
  match Address.split_once 61 first with
  | Some (attribute, value) =>
      let attribute := Str.trim attribute in
      negb (bool_decide (attribute = [])) && negb (bool_decide (Str.trim value = []))
      && forallb (fun c => Str.is_ascii_alphanumeric c || (c =? 46)) attribute
  | None => false
  end.

Definition parse_principal (principal : text) : Principal :=
  match Address.split_once 58 principal with
  | Some (principal_type, name) => {| principal_type := principal_type; principal_name := name |}
  | None => user principal
  end.
Definition display_principal (self : Principal) : text := principal_type self ++ [58] ++ principal_name self.

(** Delegation tokens. *)
Record NewDelegationToken : Type := {
  token_owner : option Principal; token_renewers : list Principal; max_lifetime_ms : Z;
}.
Definition new_token : NewDelegationToken := {| token_owner := None; token_renewers := []; max_lifetime_ms := -1 |}.
Definition with_owner (self : NewDelegationToken) (owner : Principal) : NewDelegationToken := {|
  token_owner := Some owner; token_renewers := token_renewers self; max_lifetime_ms := max_lifetime_ms self |}.
Definition with_renewer (self : NewDelegationToken) (renewer : Principal) : NewDelegationToken := {|
  token_owner := token_owner self; token_renewers := token_renewers self ++ [renewer];
  max_lifetime_ms := max_lifetime_ms self |}.
(** [i64::try_from(lifetime.as_millis()).unwrap_or(i64::MAX)]; a duration is in nanoseconds. *)
Definition millis (duration : Z) : Z := Z.min (duration / 1000000) I64_MAX.
Definition with_max_lifetime (self : NewDelegationToken) (lifetime : Z) : NewDelegationToken := {|
  token_owner := token_owner self; token_renewers := token_renewers self; max_lifetime_ms := millis lifetime |}.
Record DelegationToken : Type := {
  owner : Principal; requester : Principal; token_id : text; hmac : bytes; issue_timestamp_ms : Z;
  expiry_timestamp_ms : Z; max_timestamp_ms : Z; renewers : list Principal;
}.
Definition password `{Scram.Base64} (self : DelegationToken) : text := Scram.B64_encode (hmac self).

(** A delegation token as an audit shows it, without its secret. *)
Record PrincipalToken : Type := {
  pt_token_id : text; pt_requester : Principal; pt_issue_ms : Z; pt_expiry_ms : Z; pt_max_ms : Z;
  pt_renewers : list Principal;
}.
Definition without_secret (token : DelegationToken) : PrincipalToken := {|
  pt_token_id := token_id token; pt_requester := requester token; pt_issue_ms := issue_timestamp_ms token;
  pt_expiry_ms := expiry_timestamp_ms token; pt_max_ms := max_timestamp_ms token; pt_renewers := renewers token |}.

End AdminTypes.

(** ** ACLs, quotas and SCRAM credentials *)

Module Security.

(** What an ACL applies to, with a numbering of its own. *)
Inductive AclResourceType : Type := AnyResource | Topic | Group | Cluster | TransactionalId | Token | User.
Definition resource_code (self : AclResourceType) : Z :=
  match self with
  | AnyResource => 1 | Topic => 2 | Group => 3 | Cluster => 4 | TransactionalId => 5 | Token => 6 | User => 7
  end.
Definition resource_from_code (code : Z) : option AclResourceType :=
  match code with
  | 1 => Some AnyResource | 2 => Some Topic | 3 => Some Group | 4 => Some Cluster | 5 => Some TransactionalId
  | 6 => Some Token | 7 => Some User | _ => None
  end.

(** How a resource name is matched. *)
Inductive PatternType : Type := AnyPattern | Match | Literal | Prefixed.
Definition pattern_code (self : PatternType) : Z :=
  match self with AnyPattern => 1 | Match => 2 | Literal => 3 | Prefixed => 4 end.
Definition pattern_from_code (code : Z) : option PatternType :=
  match code with 1 => Some AnyPattern | 2 => Some Match | 3 => Some Literal | 4 => Some Prefixed | _ => None end.

(** What an ACL permits or forbids. *)
Inductive AclOperation : Type :=
  | AnyOperation | All | Read | Write | Create | Delete | Alter | Describe | ClusterAction | DescribeConfigs
  | AlterConfigs | IdempotentWrite | CreateTokens | DescribeTokens | UnknownOperation (code : Z).
Definition operation_code (self : AclOperation) : Z :=
  match self with
  | AnyOperation => 1 | All => 2 | Read => 3 | Write => 4 | Create => 5 | Delete => 6 | Alter => 7 | Describe => 8
  | ClusterAction => 9 | DescribeConfigs => 10 | AlterConfigs => 11 | IdempotentWrite => 12 | CreateTokens => 13
  | DescribeTokens => 14 | UnknownOperation code => code
  end.
Definition operation_from_code (code : Z) : AclOperation :=
  match code with
  | 1 => AnyOperation | 2 => All | 3 => Read | 4 => Write | 5 => Create | 6 => Delete | 7 => Alter | 8 => Describe
  | 9 => ClusterAction | 10 => DescribeConfigs | 11 => AlterConfigs | 12 => IdempotentWrite | 13 => CreateTokens
  | 14 => DescribeTokens | other => UnknownOperation other
  end.

(** Allow or deny. *)
Inductive AclPermission : Type := AnyPermission | Deny | Allow.
Definition permission_code (self : AclPermission) : Z :=
  match self with AnyPermission => 1 | Deny => 2 | Allow => 3 end.
Definition permission_from_code (code : Z) : option AclPermission :=
  match code with 1 => Some AnyPermission | 2 => Some Deny | 3 => Some Allow | _ => None end.

(** A complete ACL binding. *)
Record AclBinding : Type := {
  resource_type : AclResourceType; acl_name : text; pattern_type : PatternType; principal : text; host : text;
  operation : AclOperation; permission : AclPermission;
}.
Definition allow (resource_type : AclResourceType) (name principal : text) (operation : AclOperation) : AclBinding := {|
  resource_type := resource_type; acl_name := name; pattern_type := Literal; principal := principal;
  host := text_of_string "*"; operation := operation; permission := Allow |}.

(** A filter for describing or deleting ACLs. *)
Record AclFilter : Type := {
  f_resource_type : AclResourceType; f_name : option text; f_pattern : PatternType; f_principal : option text;
  f_host : option text; f_operation : AclOperation; f_permission : AclPermission;
}.
Definition default_filter : AclFilter := {|
  f_resource_type := AnyResource; f_name := None; f_pattern := AnyPattern; f_principal := None; f_host := None;
  f_operation := AnyOperation; f_permission := AnyPermission |}.
Definition exact (binding : AclBinding) : AclFilter := {|
  f_resource_type := resource_type binding; f_name := Some (acl_name binding); f_pattern := pattern_type binding;
  f_principal := Some (principal binding); f_host := Some (host binding); f_operation := operation binding;
  f_permission := permission binding |}.

(** Quotas: an entity is a list of types, each with a name or its default; a value is what
    the wire carries. *)
Definition QuotaEntity : Type := list (text * option text).
Definition QuotaOp : Type := text * option Q.
Definition QuotaAssignment : Type := QuotaEntity * list (text * Q).
Record QuotaFilter : Type := { components : list (text * option text); strict : bool }.

(** SCRAM mechanisms as the credential apis number them, and what a cluster stores. *)
Inductive ScramMechanism : Type := Sha256 | Sha512.

#[export] Instance ScramMechanism_eq_dec : EqDecision ScramMechanism.
Proof. solve_decision. Defined.

Definition scram_code (self : ScramMechanism) : Z := match self with Sha256 => 1 | Sha512 => 2 end.
Definition scram_from_code (code : Z) : option ScramMechanism :=
  match code with 1 => Some Sha256 | 2 => Some Sha512 | _ => None end.
Record ScramCredentialInfo : Type := { mechanism : ScramMechanism; iterations : Z }.
Record ScramUpsert : Type := {
  upsert_user : text; upsert_mechanism : ScramMechanism; upsert_iterations : Z; upsert_password : text;
}.
Definition new_upsert (user : text) (mechanism : ScramMechanism) (password : text) : ScramUpsert := {|
  upsert_user := user; upsert_mechanism := mechanism; upsert_iterations := 4096; upsert_password := password |}.

End Security.
