(* ===== verification/AdminMessages.v ===== *)
(** The requests of the admin client with the fields it sets, the responses with the fields it
    reads, and a handle to the cluster it sends them by ([crates/kafka-admin/src/admin.rs]).

    The message types are generated by the [kafka_protocol] crate: a request is a
    constructor with the fields the code sets, indexed by what the code reads of its
    response. *)

From S2P Require Import Prelude Sanitize Text ErrorCodes Scram ApiKeys Retry Effects Reask BatchDecode Rpc Connect Metadata Cluster AdminTypes.
From Stdlib Require Import QArith.
Open Scope Z_scope.

Module Wire.
Import AdminTypes.

(** *** Responses *)

(** An entry of a response with an error code and a message. *)
Record Answer (K T : Type) : Type := answer { a_key : K; a_code : Z; a_message : option text; a_value : T }.
#[global] Arguments answer {K T}.
#[global] Arguments a_key {K T}.
#[global] Arguments a_code {K T}.
#[global] Arguments a_message {K T}.
#[global] Arguments a_value {K T}.

(** An entry that has no message. *)
Record Coded (K T : Type) : Type := coded { c_key : K; c_code : Z; c_value : T }.
#[global] Arguments coded {K T}.
#[global] Arguments c_key {K T}.
#[global] Arguments c_code {K T}.
#[global] Arguments c_value {K T}.

(** A response of its own with an error code and a message. *)
Abbreviation Whole := (Answer unit).

(** Entries by topic. *)
Definition ByTopic (A : Type) : Type := list (string * list A).

Record Cursor : Type := { cursor_topic : string; cursor_partition : Z }.
Record DescribedTopics : Type := { d_topics : list Metadata.ResponseTopic; next_cursor : option Cursor }.
Record OffsetAnswer : Type := { oa_offset : Z; oa_timestamp : Z; oa_epoch : Z }.
Record ConfigAnswer : Type := {
  ca_name : text; ca_value : option text; ca_source : Z; ca_sensitive : bool; ca_read_only : bool;
  ca_documentation : option text;
}.
Record ClusterAnswer : Type := { cl_id : string; cl_controller : Z; cl_brokers : list ClusterBroker }.
Record DirReplica : Type := { dr_partition : Z; dr_size : Z; dr_lag : Z; dr_future : bool }.
Record DirAnswer : Type := { da_total : Z; da_usable : Z; da_topics : ByTopic DirReplica }.
Record Moving : Type := { mv_partition : Z; mv_replicas : list Z; mv_adding : list Z; mv_removing : list Z }.
Record TransactionAnswer : Type := {
  ta_id : string; ta_state : string; ta_timeout_ms : Z; ta_start_ms : Z; ta_producer_id : Z;
  ta_producer_epoch : Z; ta_topics : list (string * list Z);
}.
Record ProducerAnswer : Type := {
  pa_id : Z; pa_epoch : Z; pa_sequence : Z; pa_timestamp : Z; pa_coordinator_epoch : Z; pa_start_offset : Z;
}.
Record GroupRow : Type := { row_id : string; row_state : string; row_type : text; row_protocol_type : string }.
Record ClassicAnswer : Type := {
  cla_state : string; cla_protocol_type : string; cla_protocol : string; cla_members : list ClassicGroupMember;
}.
Record EpochAnswer (Member : Type) : Type := {
  ea_state : string; ea_epoch : Z; ea_assignment_epoch : Z; ea_assignor : string; ea_members : list Member;
}.
#[global] Arguments ea_state {Member}.
#[global] Arguments ea_epoch {Member}.
#[global] Arguments ea_assignment_epoch {Member}.
#[global] Arguments ea_assignor {Member}.
#[global] Arguments ea_members {Member}.
Record CommittedAnswer : Type := { co_offset : Z; co_epoch : Z; co_metadata : option string }.
Abbreviation CommittedTopics := (ByTopic (Coded Z CommittedAnswer)).

(** [OffsetFetch]: a code, the topics of old versions, and the groups of new ones. *)
Record OffsetsAnswer : Type := {
  oas_code : Z; oas_topics : CommittedTopics; oas_groups : list (Coded unit CommittedTopics);
}.
Record AclAnswer : Type := { ac_principal : text; ac_host : text; ac_operation : Z; ac_permission : Z }.
Record AclResourceAnswer (A : Type) : Type := { ar_type : Z; ar_name : text; ar_pattern : Z; ar_acls : A }.
#[global] Arguments ar_type {A}.
#[global] Arguments ar_name {A}.
#[global] Arguments ar_pattern {A}.
#[global] Arguments ar_acls {A}.
Record TokenAnswer : Type := {
  to_owner : Principal; to_requester : Principal; to_token_id : text; to_hmac : bytes; to_issue : Z; to_expiry : Z;
  to_max : Z; to_renewers : list Principal;
}.

(** *** Requests *)

Record CreatableTopic : Type := {
  ct_name : string; num_partitions : Z; replication_factor : Z; ct_assignments : list (Z * list Z);
  ct_configs : list (text * option text);
}.
Record AlterResource : Type := { alter_type : Z; alter_name : text; alter_configs : list (text * Z * option text) }.
Record FilterFields : Type := {
  ff_type : Z; ff_name : option text; ff_pattern : Z; ff_principal : option text; ff_host : option text;
  ff_operation : Z; ff_permission : Z;
}.
Record AclCreation : Type := {
  cr_type : Z; cr_name : text; cr_pattern : Z; cr_principal : text; cr_host : text; cr_operation : Z;
  cr_permission : Z;
}.
Record CommitEntry : Type := {
  ce_partition : Z; ce_offset : Z; ce_leader_epoch : Z; ce_metadata : option string;
}.
Record ScramUpsertion : Type := {
  su_name : text; su_mechanism : Z; su_iterations : Z; su_salt : bytes; su_salted_password : bytes;
}.

Inductive Request : Type -> Type :=
  | CreateTopics (topics : list CreatableTopic) (timeout_ms : Z) (validate_only : bool)
      : Request (list (Answer string (Z * Z)))
  | DeleteTopics (topics topic_names : list string) (timeout_ms : Z) : Request (list (Answer (option string) unit))
  | CreatePartitions (topics : list (string * Z * option (list (list Z)))) (timeout_ms : Z) (validate_only : bool)
      : Request (list (Answer string unit))
  | DeleteRecords (timeout_ms : Z) (topics : ByTopic (Z * Z)) : Request (ByTopic (Coded Z Z))
  | DescribeTopicPartitions (topics : list string) (limit : Z) (cursor : option Cursor) : Request DescribedTopics
  | ListOffsets (replica_id isolation_level : Z) (topics : ByTopic (Z * Z * Z))
      : Request (ByTopic (Coded Z OffsetAnswer))
  | DescribeConfigs (include_synonyms include_documentation : bool) (resources : list (Z * text * option (list text)))
      : Request (list (Answer (Z * text) (list ConfigAnswer)))
  | IncrementalAlterConfigs (validate_only : bool) (resources : list AlterResource)
      : Request (list (Answer (Z * text) unit))
  | DescribeCluster (include_authorized_operations include_fenced_brokers : bool) : Request (Whole ClusterAnswer)
  | DescribeLogDirs (topics : option (list (string * list Z))) : Request (Coded unit (list (Coded string DirAnswer)))
  | AlterPartitionReassignments (timeout_ms : Z) (topics : ByTopic (Z * option (list Z)))
      : Request (Whole (ByTopic (Answer Z unit)))
  | ListPartitionReassignments (timeout_ms : Z) (topics : option (list (string * list Z)))
      : Request (Whole (ByTopic Moving))
  | ElectLeaders (election_type timeout_ms : Z) (topic_partitions : option (list (string * list Z)))
      : Request (Coded unit (ByTopic (Answer Z unit)))
  | ListTransactions (state_filters : list string) : Request (Coded unit (list TransactionListing))
  | DescribeTransactions (transactional_ids : list string) : Request (list (Coded unit TransactionAnswer))
  | DescribeProducers (topics : list (string * list Z)) : Request (ByTopic (Answer Z (list ProducerAnswer)))
  | ListGroups (states_filter types_filter : list string) : Request (Coded unit (list GroupRow))
  | DescribeGroups (groups : list string) (include_authorized_operations : bool)
      : Request (list (Answer string ClassicAnswer))
  | ConsumerGroupDescribe (group_ids : list string) (include_authorized_operations : bool)
      : Request (list (Answer string (EpochAnswer ConsumerGroupMember)))
  | ShareGroupDescribe (group_ids : list string) (include_authorized_operations : bool)
      : Request (list (Answer string (EpochAnswer ShareGroupMember)))
  | OffsetFetch (require_stable : bool) (group_id : string) (topics : option (list (string * list Z)))
      (groups : list (string * option (list (string * list Z)))) : Request OffsetsAnswer
  | OffsetCommit (group_id : string) (generation_id_or_member_epoch : Z) (member_id : string)
      (topics : ByTopic CommitEntry) : Request (ByTopic (Coded Z unit))
  | OffsetDelete (group_id : string) (topics : list (string * list Z)) : Request (Coded unit (ByTopic (Coded Z unit)))
  | DeleteGroups (groups_names : list string) : Request (list (Coded unit unit))
  | DescribeAcls (filter : FilterFields) : Request (Whole (list (AclResourceAnswer (list AclAnswer))))
  | CreateAcls (creations : list AclCreation) : Request (list (Answer unit unit))
  | DeleteAcls (filters : list FilterFields) : Request (list (Answer unit (list (AclResourceAnswer AclAnswer))))
  | DescribeClientQuotas (components : list (text * Z * option text)) (strict : bool)
      : Request (Whole (option (list (Security.QuotaEntity * list (text * Q)))))
  | AlterClientQuotas (validate_only : bool) (entries : list (Security.QuotaEntity * list (text * Q * bool)))
      : Request (list (Answer Security.QuotaEntity unit))
  | DescribeUserScramCredentials (users : option (list text))
      : Request (Whole (list (Answer text (list (Z * Z)))))
  | AlterUserScramCredentials (deletions : list (text * Z)) (upsertions : list ScramUpsertion)
      : Request (list (Answer text unit))
  | CreateDelegationToken (max_lifetime_ms : Z) (renewers : list Principal) (owner : option Principal)
      : Request (Coded unit TokenAnswer)
  | RenewDelegationToken (hmac : bytes) (renew_period_ms : Z) : Request (Coded unit Z)
  | ExpireDelegationToken (hmac : bytes) (expiry_time_period_ms : Z) : Request (Coded unit Z)
  | DescribeDelegationToken (owners : option (list Principal)) : Request (Coded unit (list TokenAnswer)).

(** [Rpc::API_KEY] of a request. *)
Definition api_key {R} (request : Request R) : ApiKey.ApiKey :=
  match request with
  | CreateTopics _ _ _ => ApiKey.CreateTopics
  | DeleteTopics _ _ _ => ApiKey.DeleteTopics
  | CreatePartitions _ _ _ => ApiKey.CreatePartitions
  | DeleteRecords _ _ => ApiKey.DeleteRecords
  | DescribeTopicPartitions _ _ _ => ApiKey.DescribeTopicPartitions
  | ListOffsets _ _ _ => ApiKey.ListOffsets
  | DescribeConfigs _ _ _ => ApiKey.DescribeConfigs
  | IncrementalAlterConfigs _ _ => ApiKey.IncrementalAlterConfigs
  | DescribeCluster _ _ => ApiKey.DescribeCluster
  | DescribeLogDirs _ => ApiKey.DescribeLogDirs
  | AlterPartitionReassignments _ _ => ApiKey.AlterPartitionReassignments
  | ListPartitionReassignments _ _ => ApiKey.ListPartitionReassignments
  | ElectLeaders _ _ _ => ApiKey.ElectLeaders
  | ListTransactions _ => ApiKey.ListTransactions
  | DescribeTransactions _ => ApiKey.DescribeTransactions
  | DescribeProducers _ => ApiKey.DescribeProducers
  | ListGroups _ _ => ApiKey.ListGroups
  | DescribeGroups _ _ => ApiKey.DescribeGroups
  | ConsumerGroupDescribe _ _ => ApiKey.ConsumerGroupDescribe
  | ShareGroupDescribe _ _ => ApiKey.ShareGroupDescribe
  | OffsetFetch _ _ _ _ => ApiKey.OffsetFetch
  | OffsetCommit _ _ _ _ => ApiKey.OffsetCommit
  | OffsetDelete _ _ => ApiKey.OffsetDelete
  | DeleteGroups _ => ApiKey.DeleteGroups
  | DescribeAcls _ => ApiKey.DescribeAcls
  | CreateAcls _ => ApiKey.CreateAcls
  | DeleteAcls _ => ApiKey.DeleteAcls
  | DescribeClientQuotas _ _ => ApiKey.DescribeClientQuotas
  | AlterClientQuotas _ _ => ApiKey.AlterClientQuotas
  | DescribeUserScramCredentials _ => ApiKey.DescribeUserScramCredentials
  | AlterUserScramCredentials _ _ => ApiKey.AlterUserScramCredentials
  | CreateDelegationToken _ _ _ => ApiKey.CreateDelegationToken
  | RenewDelegationToken _ _ => ApiKey.RenewDelegationToken
  | ExpireDelegationToken _ _ => ApiKey.ExpireDelegationToken
  | DescribeDelegationToken _ => ApiKey.DescribeDelegationToken
  end.

End Wire.

(** A cluster handle, as the admin client uses it. *)
Class AdminCluster (W : Type) : Type := {
  send {R} : Cluster.Target -> Wire.Request R -> Eff.M W R;
  refresh : Eff.M W Metadata.MetadataSnapshot;
  refresh_topics : list string -> Eff.M W Metadata.MetadataSnapshot;
  refresh_if_stale : Eff.M W Metadata.MetadataSnapshot;
  leader_for : string -> Z -> Eff.M W Z;
  invalidate_coordinator : Routing.CoordinatorKind -> string -> W -> W;
  any_connection : Eff.M W Versions.ApiVersions;
  random_salt : W -> bytes * W;
}.

Module Admin.
Import Error Eff Wire AdminTypes.

(** A request that was handed to the cluster, and where it goes. *)
Inductive Handed : Type :=
  | handed {R : Type} (target : Cluster.Target) (request : Request R).
Definition handed_to (h : Handed) : Cluster.Target := match h with handed target _ => target end.
Definition handed_key (h : Handed) : ApiKey.ApiKey := match h with handed _ request => api_key request end.

(** What is outside, and the requests that were handed to the cluster, also those that its scope
    refused. *)
Record Session (W : Type) : Type := { world : W; asked : list Handed }.
#[global] Arguments world {W}.
#[global] Arguments asked {W}.

(** What an admin handle has: a cluster handle with its scope, its policy and its
    request timeout, and how long a loop may run. *)
Record Settings : Type := {
  handle : Gate.Cluster;
  policy : Retry.RetryPolicy;
  request_timeout : Z;
  fuel : nat;
}.

(** [Admin::scoped]. *)
Definition scoped (self : Settings) (keys : list ApiKey.ApiKey) : Settings := {|
  handle := Gate.scoped (handle self) keys; policy := policy self; request_timeout := request_timeout self;
  fuel := fuel self |}.

(** [connect_read_only] and [connect_with_mutations]: what they make of a configuration. *)
Definition read_only_config (config : Gate.ConnectionConfig) : Gate.ConnectionConfig := Gate.with_read_only config.
Definition mutations_config (config : Gate.ConnectionConfig) (keys : list ApiKey.ApiKey) : Gate.ConnectionConfig :=
  Gate.with_allowed_mutations config keys.

Section admin.
Context {W : Type} `{!AdminCluster W, !KafkaProtocol, !Rpc.Messages}.
Context (admin : Settings).

(** A call that only the world is part of. *)
Definition on_world {A} (m : M W A) : M (Session W) A :=
  fun s => match m (world s) with
           | Some (r, w) => Some (r, {| world := w; asked := asked s |})
           | None => None
           end.

Definition note (h : Handed) (s : Session W) : Session W := {| world := world s; asked := asked s ++ [h] |}.

(** A request that is handed to the cluster: its scope is asked first. *)
Definition call {R} (target : Cluster.Target) (request : Request R) : M (Session W) R :=
  let! _ := put (note (handed target request)) in
  if negb (Gate.in_scope (handle admin) (api_key request))
  then ret (Err (ReadOnly (ApiKey.code (api_key request))))
  else on_world (send target request).

Definition send_any {R} := call (R := R) Cluster.Any.
Definition send_to_controller {R} := call (R := R) Cluster.Controller.
Definition send_to_node {R} id := call (R := R) (Cluster.Broker id).
Definition send_to_coordinator {R} kind key := call (R := R) (Cluster.Coordinator kind key).

(** The per-request timeout in milliseconds, and at most an [i32]. *)
Definition request_timeout_ms : Z :=
  let ms := request_timeout admin / 1000000 in if ms <=? I32_MAX then ms else I32_MAX.

(** Whether the cluster offers an api key we can speak. *)
Definition supports (key : ApiKey.ApiKey) : M (Session W) bool :=
  let* connection := on_world any_connection in
  ret (Ok match connection with Ok versions => Versions.supports versions key | Err _ => false end).

(** The version a connection would use for an api key. *)
Definition negotiated_version (key : ApiKey.ApiKey) : M (Session W) (option Z) :=
  let* connection := on_world any_connection in
  ret (Ok match connection with Ok versions => Versions.get versions key ≫= Versions.negotiated | Err _ => None end).

(** The version a connection would send a specific request at. *)
Definition negotiated_for (r : Rpc.Rpc) : M (Session W) Z :=
  let! versions := on_world any_connection in ret (Rpc.version_for versions r).

(** The time and the random numbers are those of the world. *)
#[export] Instance session_pacing `{!Pacing W} : Pacing (Session W) := {|
  now s := now (world s);
  jitter_sample s :=
    let '(q, w) := jitter_sample (world s) in (q, {| world := w; asked := asked s |});
  sleep d s := {| world := sleep d (world s); asked := asked s |} |}.

(** [per_item_retrying] on this cluster. *)
Definition retrying `{!Pacing W} {K T} (axis : Reask.Axis) (items : list K)
    (round : list K -> M (Session W) (Reask.PerItem K T)) : M (Session W) (Reask.PerItem K T) :=
  Reask.per_item_retrying (policy admin) (let* _ := on_world refresh in ret (Ok tt))
    (fun kind key s => {| world := invalidate_coordinator kind key (world s); asked := asked s |})
    (fuel admin) axis items round.

(** *** Outcomes *)

(** [match ErrorCode::from_code(code) { Some(code) => Err(..), None => Ok(..) }]. *)
Definition checked {T} (code : Z) (message : option text) (value : T) : result T Error :=
  match ErrorCode.from_code code with
  | Some code => Err (from_code code message)
  | None => Ok value
  end.
Definition outcome {K T U} (f : T -> U) (a : Answer K T) : result U Error :=
  checked (a_code a) (a_message a) (f (a_value a)).
Definition bare {K T U} (f : T -> U) (c : Coded K T) : result U Error := checked (c_code c) None (f (c_value c)).

(** A response as a whole. *)
Definition whole {T} (a : Whole T) : result T Error := outcome (fun x => x) a.
Definition bare_whole {T} (c : Coded unit T) : result T Error := bare (fun x => x) c.

End admin.

(** *** A failure that has to be reported more than once *)

(** [{:?}] of an optional pair of versions. *)
Definition debug_range (r : option (Z * Z)) : string :=
  match r with
  | Some (lo, hi) => "Some((" +:+ pretty lo +:+ ", " +:+ pretty hi +:+ "))"
  | None => "None"
  end.

(** [ApiKey]'s [Display]. *)
Definition display_key (key : ApiKey.ApiKey) : string :=
  match key with ApiKey.Unknown code => "Unknown(" +:+ pretty code +:+ ")" | named => ApiKey.name named end.

(** The variants with a clone of their own keep it; others become an invalid request with
    their [Display]. *)
Definition clone_error (error : Error) : Error :=
  match error with
  | Broker _ _ | Authorization _ _ | Authentication _ | ConnectionClosed _ | ReadOnly _ | Timeout _ _ => error
  | Transport context source => InvalidRequest (context +:+ ": " +:+ io_text source)
  | Decode context source => InvalidRequest (context +:+ ": " +:+ src_text source)
  | UnsupportedApi key broker ours =>
      InvalidRequest ("no usable version of " +:+ display_key (ApiKey.from_code key) +:+ ": broker offers "
                      +:+ debug_range broker +:+ ", we speak " +:+ debug_range ours)
  | Unsupported message => InvalidRequest ("unsupported: " +:+ message)
  | InvalidRequest message => InvalidRequest ("invalid request: " +:+ message)
  | TokenEndpoint endpoint _ detail => InvalidRequest ("token endpoint " +:+ endpoint +:+ " " +:+ detail)
  end.

(** [or_default().push(..)] into a map by key, in the order of the list. *)
Definition grouped {A K V} `{Countable K} (key : A -> K) (value : A -> V) (l : list A) : gmap K (list V) :=
  foldl (fun m a => push_to m (key a) (value a)) ∅ l.

(** The entries of a map that is collected from a list: a later one replaces an earlier. *)
Definition collected {K A} `{Countable K} (l : list (K * A)) : gmap K A :=
  foldl (fun m '(k, a) => <[k := a]> m) ∅ l.

(** The outcome of each item of a list, removed from the answers by its key; [missing] where they do
    not mention it. *)
Fixpoint taken {I K A T} `{Countable K} (key : I -> K) (take : option A -> I -> result T Error)
    (answers : gmap K A) (items : list I) : Reask.PerItem I T :=
  match items with
  | [] => []
  | item :: items =>
      (item, take (answers !! key item) item) :: taken key take (delete (key item) answers) items
  end.

End Admin.
