(* ===== verification/AdminTopics.v ===== *)
(** The admin calls on topics, offsets, configurations and partitions
    ([crates/kafka-admin/src/topics.rs], [offsets.rs], [configs.rs] and [partitions.rs]). *)

From S2P Require Import Prelude Sanitize Text ErrorCodes Scram ApiKeys Retry Effects Reask BatchDecode Rpc Connect Metadata Cluster AdminTypes AdminMessages.
Open Scope Z_scope.

(** ** Topics *)

Module Topics.
Import Error Eff Wire Admin AdminTypes.

Definition DESCRIBE_PARTITION_LIMIT : Z := 2000.

(** A topic as the request carries it: the default of a count that is left open is -1. *)
Definition to_creatable (topic : NewTopic) : result CreatableTopic Error :=
  if negb (bool_decide (assignments topic = []))
     && (bool_decide (is_Some (new_partitions topic)) || bool_decide (is_Some (new_replication topic)))
  then Err (InvalidRequest ("topic " +:+ new_name topic
              +:+ ": explicit assignments cannot be combined with a partition count or replication factor"))
  else Ok {|
    ct_name := new_name topic;
    num_partitions := default (-1) (new_partitions topic);
    replication_factor := default (-1) (new_replication topic);
    ct_assignments := assignments topic;
    ct_configs := map (fun '(key, value) => (key, Some value)) (new_configs topic) |}.

Fixpoint all_creatable (topics : list NewTopic) : result (list CreatableTopic) Error :=
  match topics with
  | [] => Ok []
  | topic :: topics =>
      let? creatable := to_creatable topic in
      let? rest := all_creatable topics in Ok (creatable :: rest)
  end.

Definition not_mentioned : Error :=
  from_code ErrorCode.UnknownServerError (Some (text_of_string "the response did not mention this topic")).

Section topics.
Context {W : Type} `{!AdminCluster W, !Pacing W, !KafkaProtocol, !Rpc.Messages}.
Context (admin : Settings).
Abbreviation M := (Eff.M (Session W)).

(** One round of [create_topics]. *)
Definition create_round (validate_only : bool) (subset : list NewTopic) : M (Reask.PerItem NewTopic CreatedTopic) :=
  let! creatable := ret (all_creatable subset) in
  let! response := send_to_controller admin (CreateTopics creatable (request_timeout_ms admin) validate_only) in
  let by_name := collected (map (fun a => (a_key a, a)) response) in
  ret (Ok (taken new_name
    (fun found topic =>
       match found with
       | None => Err not_mentioned
       | Some result =>
           outcome (fun '(partitions, replication) =>
             {| created_name := new_name topic; created_partitions := partitions;
                created_replication := replication |}) result
       end) by_name subset)).

Definition create_topics_inner (topics : list NewTopic) (validate_only : bool)
    : M (Reask.PerItem string CreatedTopic) :=
  let! _ := ret (all_creatable topics) in
  if bool_decide (length topics = 0)%nat then ret (Ok [])
  else
    let! results := retrying admin Reask.Metadata topics (create_round validate_only) in
    ret (Ok (map (fun '(topic, outcome) => (new_name topic, outcome)) results)).

Definition create_topics (topics : list NewTopic) := create_topics_inner topics false.
Definition validate_topics (topics : list NewTopic) := create_topics_inner topics true.

(** Delete topics by name, in the shape the negotiated version has. *)
Definition delete_round (version : Z) (subset : list string) : M (Reask.PerItem string unit) :=
  let timeout := request_timeout_ms admin in
  let request := if 6 <=? version then DeleteTopics subset [] timeout else DeleteTopics [] subset timeout in
  let! response := send_to_controller admin request in
  ret (Ok (map (fun result => (default ""%string (a_key result), outcome (fun u => u) result)) response)).

Definition DELETE_TOPICS_RPC : Rpc.Rpc :=
  Rpc.rpc "DeleteTopicsRequest" ApiKey.DeleteTopics "DeleteTopicsResponse".

Definition delete_topics (names : list string) : M (Reask.PerItem string unit) :=
  if bool_decide (names = []) then ret (Ok [])
  else
    let! version := negotiated_for DELETE_TOPICS_RPC in
    retrying admin Reask.Metadata names (delete_round version).

(** Grow topics: null assignments let the broker place the new replicas. *)
Definition partitions_round (subset : list (string * Z)) : M (Reask.PerItem (string * Z) unit) :=
  let! response := send_to_controller admin
    (CreatePartitions (map (fun '(name, count) => (name, count, None)) subset) (request_timeout_ms admin) false) in
  let by_name := collected (map (fun a => (a_key a, a)) response) in
  ret (Ok (taken fst
    (fun found item =>
       match found with None => Err not_mentioned | Some result => outcome (fun u => u) result end)
    by_name subset)).

Definition create_partitions (counts : list (string * Z)) : M (Reask.PerItem string unit) :=
  if bool_decide (counts = []) then ret (Ok [])
  else
    let! results := retrying admin Reask.Metadata counts partitions_round in
    ret (Ok (map (fun '((name, _), outcome) => (name, outcome)) results)).

(** Split items by the leader of their partition; what has none is an error of its own. *)
Definition by_leader {I V T} (name : I -> string) (partition : I -> Z) (value : I -> V) (items : list I)
    : M (Reask.PerItem I T * gmap Z (list V)) :=
  fold_each (fun '(failed, groups) item =>
    let* leader := on_world (leader_for (name item) (partition item)) in
    match leader with
    | Ok leader => ret (Ok (failed, push_to groups leader (value item)))
    | Err error => ret (Ok (failed ++ [(item, Err error)], groups))
    end) ([], ∅) items.

(** Delete records up to some offsets, one request per leader. *)
Definition delete_records (cutoffs : list (string * Z * Z)) : M (Reask.PerItem (string * Z) Z) :=
  let! (failed, groups) :=
    by_leader (fun c => c.1.1) (fun c => c.1.2) (fun c => c) cutoffs in
  let failed := map (fun '(c, outcome) => (c.1, outcome)) failed in
  fold_each (fun results '(leader, group) =>
    let topics := grouped (fun c => c.1.1) (fun c : string * Z * Z => (c.1.2, c.2)) group in
    let* response := send_to_node admin leader (DeleteRecords (request_timeout_ms admin) (map_to_list topics)) in
    match response with
    | Ok topics =>
        ret (Ok (results ++ concat (map (fun '(name, partitions) =>
                   map (fun p => ((name, c_key p), bare (fun low => low) p)) partitions) topics)))
    | Err error => ret (Ok (results ++ map (fun c => (c.1, Err (clone_error error))) group))
    end) failed (map_to_list groups).

(** *** Descriptions *)

(** A page of [DescribeTopicPartitions]: topics by name, the order in which names came, and
    the failures. *)
Record Pages : Type := {
  merged : Reask.PerItem string Metadata.TopicInfo;
  partial : gmap string Metadata.TopicInfo;
  order : list string;
}.

Definition extend_topic (info : Metadata.TopicInfo) (more : list Metadata.PartitionInfo) : Metadata.TopicInfo := {|
  Metadata.name := Metadata.name info; Metadata.topic_id := Metadata.topic_id info;
  Metadata.internal := Metadata.internal info; Metadata.partitions := Metadata.partitions info ++ more;
  Metadata.topic_error := Metadata.topic_error info |}.

Definition page_topic (acc : Pages) (topic : Metadata.ResponseTopic) : Pages :=
  let name := default ""%string (Metadata.rt_name topic) in
  match ErrorCode.from_code (Metadata.rt_error_code topic) with
  | Some code => {|
      merged := merged acc ++ [(name, Err (from_code code None))]; partial := partial acc;
      order := if bool_decide (name ∈ order acc) then order acc else order acc ++ [name] |}
  | None =>
      let partitions := map Metadata.decode_partition (Metadata.rt_partitions topic) in
      match partial acc !! name with
      | Some existing => {|
          merged := merged acc; partial := <[name := extend_topic existing partitions]> (partial acc);
          order := order acc |}
      | None => {|
          merged := merged acc;
          partial := <[name := {|
            Metadata.name := name; Metadata.topic_id := Metadata.rt_topic_id topic;
            Metadata.internal := Metadata.rt_is_internal topic; Metadata.partitions := partitions;
            Metadata.topic_error := None |}]> (partial acc);
          order := order acc ++ [name] |}
      end
  end.

(** The pages, as long as there is a cursor. *)
Fixpoint pages_loop (fuel : nat) (names : list string) (cursor : option Cursor) (acc : Pages) : M Pages :=
  match fuel with
  | O => out_of_fuel
  | S fuel =>
      let! response := send_any admin (DescribeTopicPartitions names DESCRIBE_PARTITION_LIMIT cursor) in
      let acc := foldl page_topic acc (d_topics response) in
      match next_cursor response with
      | Some next => pages_loop fuel names (Some next) acc
      | None => ret (Ok acc)
      end
  end.

(** [Vec::swap_remove] of the first entry under a name. *)
Fixpoint position {A} (P : A -> bool) (l : list A) : option nat :=
  match l with [] => None | a :: l => if P a then Some 0%nat else S <$> position P l end.
Definition swap_remove {A} (l : list A) (i : nat) : option (A * list A) :=
  match l !! i, last l with
  | Some a, Some z => Some (a, take (length l - 1) (<[i := z]> l))
  | _, _ => None
  end.

(** What is known of each name, in the order in which names came. *)
Fixpoint unfold_pages (order : list string) (partial : gmap string Metadata.TopicInfo)
    (merged : Reask.PerItem string Metadata.TopicInfo) : Reask.PerItem string Metadata.TopicInfo :=
  match order with
  | [] => []
  | name :: order =>
      match partial !! name with
      | Some info => (name, Ok info) :: unfold_pages order (delete name partial) merged
      | None =>
          match position (fun item => bool_decide (item.1 = name)) merged ≫= swap_remove merged with
          | Some (item, merged) => item :: unfold_pages order partial merged
          | None => unfold_pages order partial merged
          end
      end
  end.

Definition describe_topics_paginated (names : list string) : M (Reask.PerItem string Metadata.TopicInfo) :=
  let! pages := pages_loop (fuel admin) names None {| merged := []; partial := ∅; order := [] |} in
  ret (Ok (unfold_pages (order pages) (partial pages) (merged pages))).

Definition describe_topics_via_metadata (names : list string) : M (Reask.PerItem string Metadata.TopicInfo) :=
  let! snapshot := on_world (refresh_topics names) in
  ret (Ok (map (fun name =>
    (name,
     match Metadata.topic snapshot name with
     | Some info =>
         match Metadata.topic_error info with
         | Some code => Err (from_code code (Some (text_of_string name)))
         | None => Ok info
         end
     | None => Err (from_code ErrorCode.UnknownTopicOrPartition (Some (text_of_string name)))
     end)) names)).

(** By the newer api, and by metadata where it is not offered. *)
Definition describe_topics (names : list string) : M (Reask.PerItem string Metadata.TopicInfo) :=
  if bool_decide (names = []) then ret (Ok [])
  else
    let! supported := supports ApiKey.DescribeTopicPartitions in
    if supported then
      let* outcome := describe_topics_paginated names in
      match outcome with
      | Ok results => ret (Ok results)
      | Err (UnsupportedApi _ _ _) => describe_topics_via_metadata names
      | Err error => ret (Err error)
      end
    else describe_topics_via_metadata names.

Definition list_topics : M (list string) :=
  let! snapshot := on_world refresh in ret (Ok (map Metadata.name (Metadata.topics snapshot))).

End topics.

End Topics.

(** ** Offsets *)

Module Offsets.
Import Error Eff Wire Admin AdminTypes Topics.

Definition CONSUMER_REPLICA_ID : Z := -1.

Definition partition_not_mentioned : Error :=
  from_code ErrorCode.UnknownServerError (Some (text_of_string "the response did not mention this partition")).

(** The entries of a response by topic, under the topic's name and the partition's index. *)
Definition keyed {A} (index : A -> Z) (topics : ByTopic A) : list (string * Z * A) :=
  concat (map (fun '(name, partitions) => map (fun p => (name, index p, p)) partitions) topics).

(** An offset to ask for. *)
Definition Ask : Type := (string * Z) * OffsetSpec.

Definition non_negative (z : Z) : option Z := if 0 <=? z then Some z else None.

Section offsets.
Context {W : Type} `{!AdminCluster W, !Pacing W, !KafkaProtocol, !Rpc.Messages}.
Context (admin : Settings).
Abbreviation M := (Eff.M (Session W)).

Definition listed (answer : Coded Z OffsetAnswer) : result ListedOffset Error :=
  bare (fun a => {|
    listed_partition := c_key answer;
    listed_offset := non_negative (oa_offset a);
    listed_timestamp := non_negative (oa_timestamp a);
    listed_epoch := non_negative (oa_epoch a) |}) answer.

(** The specs the negotiated version has, and an error for each of the others. *)
Definition too_new (spec : OffsetSpec) (version : Z) : Error :=
  Unsupported (debug_spec spec +:+ " needs ListOffsets v" +:+ pretty (min_version spec)
    +:+ ", and this build negotiated v" +:+ pretty version
    +:+ " (kafka-protocol 0.17 ships Kafka 4.0 schemas)").

Definition reachable_spec (negotiated : option Z) (ask : Ask) : bool :=
  match negotiated with Some version => min_version ask.2 <=? version | None => true end.

Definition refused (negotiated : option Z) (asks : list Ask) : Reask.PerItem (string * Z) ListedOffset :=
  map (fun ask => (ask.1, Err (too_new ask.2 (default 0 negotiated))))
    (List.filter (fun ask => negb (reachable_spec negotiated ask)) asks).

(** One round: the leaders are found in it, so a round after a move finds the new ones. *)
Definition offsets_round (isolation : IsolationLevel) (subset : list Ask) : M (Reask.PerItem Ask ListedOffset) :=
  let! (failed, groups) := by_leader (fun a => a.1.1) (fun a => a.1.2) (fun a => a) subset in
  fold_each (fun round '(leader, group) =>
    let topics := grouped (fun a => a.1.1) (fun a : Ask => (a.1.2, -1, timestamp a.2)) group in
    let* response := send_to_node admin leader
      (ListOffsets CONSUMER_REPLICA_ID (isolation_code isolation) (map_to_list topics)) in
    match response with
    | Ok topics =>
        ret (Ok (round ++ taken fst
          (fun found _ => match found with None => Err partition_not_mentioned | Some a => listed a end)
          (collected (keyed c_key topics)) group))
    | Err error => ret (Ok (round ++ map (fun item => (item, Err (clone_error error))) group))
    end) failed (map_to_list groups).

(** List offsets with a spec per partition. *)
Definition list_offsets_with (requests : list Ask) (isolation : IsolationLevel)
    : M (Reask.PerItem (string * Z) ListedOffset) :=
  let! negotiated := negotiated_version ApiKey.ListOffsets in
  let! asked := retrying admin Reask.Metadata (List.filter (reachable_spec negotiated) requests)
                  (offsets_round isolation) in
  ret (Ok (refused negotiated requests ++ map (fun '(ask, outcome) => (ask.1, outcome)) asked)).

Definition list_offsets (partitions : list (string * Z)) (spec : OffsetSpec)
    : M (Reask.PerItem (string * Z) ListedOffset) :=
  list_offsets_with (map (fun p => (p, spec)) partitions) ReadUncommitted.

(** The earliest and latest offset of each partition of a topic. *)
Definition range_of (name : string) (partition : Z) (low high : option (result ListedOffset Error))
    : result (option Z * option Z) Error :=
  match low, high with
  | Some (Ok low), Some (Ok high) => Ok (listed_offset low, listed_offset high)
  | Some (Err error), _ => Err (clone_error error)
  | _, Some (Err error) => Err (clone_error error)
  | _, _ => Err (from_code ErrorCode.UnknownTopicOrPartition
                   (Some (text_of_string (name +:+ "-" +:+ pretty partition))))
  end.

Fixpoint ranges (name : string) (earliest latest : gmap Z (result ListedOffset Error)) (partitions : list Z)
    : Reask.PerItem Z (option Z * option Z) :=
  match partitions with
  | [] => []
  | p :: partitions =>
      (p, range_of name p (earliest !! p) (latest !! p)) :: ranges name earliest (delete p latest) partitions
  end.

Definition topic_offset_range (name : string) : M (Reask.PerItem Z (option Z * option Z)) :=
  let! snapshot := on_world (refresh_topics [name]) in
  let partitions :=
    match Metadata.topic snapshot name with
    | Some info => map Metadata.partition (Metadata.partitions info)
    | None => []
    end in
  if bool_decide (partitions = []) then
    ret (Err (from_code ErrorCode.UnknownTopicOrPartition (Some (text_of_string name))))
  else
    let! earliest := list_offsets (map (pair name) partitions) Earliest in
    let! latest := list_offsets (map (pair name) partitions) Latest in
    let by_partition l := collected (map (fun '((_, p), value) => (p, value)) l) in
    ret (Ok (ranges name (by_partition earliest) (by_partition latest) partitions)).

End offsets.

End Offsets.

(** ** Configurations *)

Module Configs.
Import Error Eff Wire Admin AdminTypes.

(** [str::parse] as an [i32]: an optional sign and digits, in range. *)
Fixpoint digits_value (s : text) (acc : Z) : option Z :=
  match s with
  | [] => Some acc
  | c :: s => if Str.is_ascii_digit c then digits_value s (10 * acc + (c - 48)) else None
  end.
Definition parse_i32 (s : text) : option Z :=
  let signed (negative : bool) (digits : text) :=
    match digits with
    | [] => None
    | _ =>
        v ← digits_value digits 0;
        let v := if negative then - v else v in
        if (I32_MIN <=? v) && (v <=? I32_MAX) then Some v else None
    end in
  match s with
  | 43 :: rest => signed false rest
  | 45 :: rest => signed true rest
  | _ => signed false s
  end.

(** If every resource is the same broker, the request belongs on that broker. *)
Definition is_broker_kind (kind : ConfigResourceType) : bool :=
  match kind with ConfigBroker | BrokerLogger => true | _ => false end.
Fixpoint broker_target (target : option Z) (resources : list ConfigResource) : option Z :=
  match resources with
  | [] => target
  | resource :: resources =>
      if negb (is_broker_kind (resource_kind resource)) then None
      else
        match parse_i32 (resource_name resource) with
        | None => None
        | Some node_id =>
            match target with
            | None => broker_target (Some node_id) resources
            | Some existing => if existing =? node_id then broker_target target resources else None
            end
        end
  end.
Definition single_broker_target (resources : list ConfigResource) : option Z := broker_target None resources.

Section configs.
Context {W : Type} `{!AdminCluster W, !Pacing W, !KafkaProtocol, !Rpc.Messages}.
Context (admin : Settings).
Abbreviation M := (Eff.M (Session W)).

Definition answered_resource (key : Z * text) : ConfigResource := {|
  resource_kind := default ConfigTopic (config_from_code key.1); resource_name := key.2 |}.

Definition config_entry (config : ConfigAnswer) : ConfigEntry := {|
  entry_name := ca_name config; entry_value := ca_value config; entry_source := source_from_code (ca_source config);
  is_sensitive := ca_sensitive config; entry_read_only := ca_read_only config;
  documentation := ca_documentation config |}.

Definition send_configs {R} (resources : list ConfigResource) (request : Request R) : M R :=
  match single_broker_target resources with
  | Some node_id => send_to_node admin node_id request
  | None => send_any admin request
  end.

Definition describe_configs_inner (resources : list ConfigResource) (documentation : bool)
    : M (Reask.PerItem ConfigResource (list ConfigEntry)) :=
  if bool_decide (length resources = 0)%nat then ret (Ok [])
  else
    let! response := send_configs resources
      (DescribeConfigs false documentation
         (map (fun r => (config_code (resource_kind r), resource_name r, None)) resources)) in
    ret (Ok (map (fun result => (answered_resource (a_key result), outcome (map config_entry) result)) response)).
Definition describe_configs resources := describe_configs_inner resources false.
Definition describe_configs_documented resources := describe_configs_inner resources true.

Definition alter_configs_inner (changes : list (ConfigResource * list ConfigChange)) (validate_only : bool)
    : M (Reask.PerItem ConfigResource unit) :=
  if bool_decide (length changes = 0)%nat then ret (Ok [])
  else
    let! response := send_configs (map fst changes)
      (IncrementalAlterConfigs validate_only
         (map (fun '(resource, edits) => {|
            alter_type := config_code (resource_kind resource); alter_name := resource_name resource;
            Wire.alter_configs :=
              map (fun edit => (change_name edit, alter_code (change_op edit), change_value edit)) edits |})
            changes)) in
    ret (Ok (map (fun result => (answered_resource (a_key result), outcome (fun u => u) result)) response)).
Definition alter_configs changes := alter_configs_inner changes false.
Definition validate_config_changes changes := alter_configs_inner changes true.

End configs.

End Configs.

(** ** Reassignments and elections *)

Module Partitions.
Import Error Eff Wire Admin AdminTypes.

Section partitions.
Context {W : Type} `{!AdminCluster W, !Pacing W, !KafkaProtocol, !Rpc.Messages}.
Context (admin : Settings).
Abbreviation M := (Eff.M (Session W)).

Definition per_partition {T} (f : Answer Z unit -> result T Error) (topics : ByTopic (Answer Z unit))
    : Reask.PerItem (string * Z) T :=
  concat (map (fun '(name, partitions) => map (fun p => ((name, a_key p), f p)) partitions) topics).

(** Submit reassignments: a null list of replicas cancels one. *)
Definition alter_partition_reassignments (reassignments : list PartitionReassignment)
    : M (Reask.PerItem (string * Z) unit) :=
  if bool_decide (length reassignments = 0)%nat then ret (Ok [])
  else
    let by_topic := grouped move_topic (fun r => (move_partition r, move_replicas r)) reassignments in
    let! response := send_to_controller admin
      (AlterPartitionReassignments (request_timeout_ms admin) (map_to_list by_topic)) in
    let! topics := ret (whole response) in
    ret (Ok (per_partition (outcome (fun u => u)) topics)).

(** The reassignments in progress. *)
Definition list_partition_reassignments (partitions : option (list (string * list Z)))
    : M (list OngoingReassignment) :=
  let! response := send_to_controller admin (ListPartitionReassignments (request_timeout_ms admin) partitions) in
  let! topics := ret (whole response) in
  ret (Ok (concat (map (fun '(name, partitions) =>
    map (fun p => {| ongoing_topic := name; ongoing_partition := mv_partition p; ongoing_replicas := mv_replicas p;
                     adding := mv_adding p; removing := mv_removing p |}) partitions) topics))).

(** An election that was not needed is the state that was asked for. *)
Definition elected (answer : Answer Z unit) : result unit Error :=
  match ErrorCode.from_code (a_code answer) with
  | Some ErrorCode.ElectionNotNeeded => Ok tt
  | Some code => Err (from_code code (a_message answer))
  | None => Ok tt
  end.
Definition elect_leaders (election : ElectionType) (partitions : option (list (string * list Z)))
    : M (Reask.PerItem (string * Z) unit) :=
  let! response := send_to_controller admin
    (ElectLeaders (election_code election) (request_timeout_ms admin) partitions) in
  let! topics := ret (bare_whole response) in
  ret (Ok (per_partition elected topics)).

(** Whether any reassignment of these topics is still in flight. *)
Definition reassignments_in_progress (topics : list string) : M bool :=
  let! ongoing := list_partition_reassignments
    (if bool_decide (topics = []) then None else Some (map (fun name => (name, [])) topics)) in
  ret (Ok (negb (bool_decide (length ongoing = 0)%nat))).

End partitions.

End Partitions.
