(* ===== verification/AdminSizes.v ===== *)
(** The cluster, its log directories, and how large its topics are
    ([crates/kafka-admin/src/cluster_info.rs]). *)

From stdpp Require Import sorting.
From S2P Require Import Prelude Sanitize Text ErrorCodes Scram ApiKeys Retry Effects Reask BatchDecode Rpc Connect Metadata Cluster AdminTypes AdminMessages.
Open Scope Z_scope.

Module Sizes.
Import Error Eff Wire Admin AdminTypes.

(** Topic to partition to leader. *)
Definition LeaderMap : Type := gmap string (gmap Z Z).

(** One topic's entries while they are added up. *)
Record Sizes : Type := { partitions : gmap Z PartitionSize; replicas : list ReplicaSize }.
Definition no_sizes : Sizes := {| partitions := ∅; replicas := [] |}.

Definition leader_map (topics : list Metadata.TopicInfo) : LeaderMap :=
  collected (map (fun topic =>
    (Metadata.name topic,
     collected (omap (fun p => leader ← Metadata.leader p; Some (Metadata.partition p, leader))
                  (Metadata.partitions topic)))) topics).

(** Account for one entry. A copy that is being moved within a broker has a row and no part
    in the sums; the leader's size is the one that counts. Sums wrap around, as they do without overflow
    checks. *)
Definition add (self : Sizes) (node_id : Z) (log_dir : string) (replica : LogDirReplica) (is_leader : bool) : Sizes :=
  let replicas := replicas self ++ [{|
    rs_node_id := node_id; rs_partition := dir_partition replica; rs_log_dir := log_dir;
    rs_size := size_bytes replica; rs_lag := offset_lag replica; rs_future := is_future replica;
    rs_leader := is_leader |}] in
  if is_future replica then {| partitions := partitions self; replicas := replicas |}
  else
    let p := default {| ps_partition := dir_partition replica; ps_logical := 0; ps_replicated := 0 |}
               (partitions self !! dir_partition replica) in
    {| partitions := <[dir_partition replica := {|
         ps_partition := ps_partition p;
         ps_logical := if is_leader then size_bytes replica else ps_logical p;
         ps_replicated := i64_wrap (ps_replicated p + size_bytes replica) |}]> (partitions self);
       replicas := replicas |}.

(** The order of rows: by partition, broker and directory; [str]'s order is that of its bytes. *)
Definition row_le (a b : ReplicaSize) : Prop :=
  rs_partition a < rs_partition b
  \/ (rs_partition a = rs_partition b
      /\ (rs_node_id a < rs_node_id b
          \/ (rs_node_id a = rs_node_id b /\ String.leb (rs_log_dir a) (rs_log_dir b) = true))).
#[export] Instance row_le_dec : RelDecision row_le.
Proof. intros a b. unfold row_le. apply _. Defined.
Definition partition_le (a b : PartitionSize) : Prop := ps_partition a <= ps_partition b.
#[export] Instance partition_le_dec : RelDecision partition_le.
Proof. intros a b. unfold partition_le. apply _. Defined.

(** [Iterator::sum] of [i64]s. *)
Definition wrapping_sum {A} (f : A -> Z) (l : list A) : Z := foldl (fun acc a => i64_wrap (acc + f a)) 0 l.

(** Order the rows and total them up. *)
Definition finish (self : Sizes) (name : string) : TopicSize :=
  let partitions := merge_sort partition_le (map snd (map_to_list (partitions self))) in
  {| ts_topic := name;
     logical_bytes := wrapping_sum ps_logical partitions;
     replicated_bytes := wrapping_sum ps_replicated partitions;
     ts_partitions := partitions;
     ts_replicas := merge_sort row_le (replicas self) |}.

(** The entries of every broker, with the broker and the directory they are in. *)
Definition entries_of (per_broker : list (Z * list LogDir)) : list (Z * string * LogDirReplica) :=
  concat (map (fun '(node_id, dirs) =>
    concat (map (fun dir => map (fun r => (node_id, dir_path dir, r)) (dir_replicas dir)) dirs)) per_broker).

Definition leads (leaders : LeaderMap) (node_id : Z) (replica : LogDirReplica) : bool :=
  bool_decide ((leaders !! dir_topic replica ≫= fun ps => ps !! dir_partition replica) = Some node_id).

(** Fold every entry into the sizes of its topic. *)
Definition fold (per_broker : list (Z * list LogDir)) (leaders : LeaderMap) : gmap string Sizes :=
  foldl (fun folded '(node_id, path, replica) =>
    <[dir_topic replica :=
        add (default no_sizes (folded !! dir_topic replica)) node_id path replica (leads leaders node_id replica)]> folded)
    ∅ (entries_of per_broker).

Section cluster_info.
Context {W : Type} `{!AdminCluster W, !Pacing W, !KafkaProtocol, !Rpc.Messages}.
Context (admin : Settings).
Abbreviation M := (Eff.M (Session W)).

Definition describe_cluster : M ClusterDescription :=
  let! response := send_any admin (DescribeCluster false true) in
  let! c := ret (whole response) in
  ret (Ok {| cd_cluster_id := cl_id c; cd_controller_id := Metadata.known_id (cl_controller c);
             cd_brokers := cl_brokers c |}).

Definition log_dir (result : Coded string DirAnswer) : LogDir := {|
  dir_path := c_key result;
  total_bytes := Metadata.known_id (da_total (c_value result));
  usable_bytes := Metadata.known_id (da_usable (c_value result));
  dir_replicas := concat (map (fun '(name, partitions) =>
    map (fun p => {| dir_topic := name; dir_partition := dr_partition p; size_bytes := dr_size p;
                     offset_lag := dr_lag p; is_future := dr_future p |}) partitions) (da_topics (c_value result)));
  dir_error := ErrorCode.from_code (c_code result) |}.

(** [DescribeLogDirs] of one broker, for every partition or for some of one topic. *)
Definition log_dirs_of (node_id : Z) (scope : option (string * list Z)) : M (list LogDir) :=
  let! response := send_to_node admin node_id (DescribeLogDirs ((fun s => [s]) <$> scope)) in
  let! results := ret (bare_whole response) in
  ret (Ok (map log_dir results)).
Definition describe_log_dirs (node_id : Z) : M (list LogDir) := log_dirs_of node_id None.

(** Of every broker; one that fails is a failure of its own. *)
Definition all_log_dirs (scope : option (string * list Z)) : M (Reask.PerItem Z (list LogDir)) :=
  let! snapshot := on_world refresh_if_stale in
  each (fun broker =>
    let* outcome := log_dirs_of (Metadata.node_id broker) scope in
    ret (Ok (Metadata.node_id broker, outcome))) (Metadata.brokers snapshot).
Definition describe_all_log_dirs : M (Reask.PerItem Z (list LogDir)) := all_log_dirs None.

(** The sizes of topics, each taken out of what was folded. *)
Fixpoint finished (folded : gmap string Sizes) (names : list string) : Reask.PerItem string TopicSize :=
  match names with
  | [] => []
  | name :: names =>
      (name, Ok (finish (default no_sizes (folded !! name)) name)) :: finished (delete name folded) names
  end.

Definition topic_sizes : M (Reask.PerItem string TopicSize) :=
  let! snapshot := on_world refresh in
  let! per_broker := describe_all_log_dirs in
  let folded := fold (Reask.oks per_broker) (leader_map (Metadata.topics snapshot)) in
  ret (Ok (finished folded (map Metadata.name (Metadata.topics snapshot)))).

(** One topic's size: what no broker could answer is an error. *)
Definition topic_size (name : string) : M TopicSize :=
  let! snapshot := on_world (refresh_topics [name]) in
  match Metadata.topic snapshot name with
  | None => ret (Err (from_code ErrorCode.UnknownTopicOrPartition None))
  | Some info =>
      match Metadata.topic_error info with
      | Some code => ret (Err (from_code code None))
      | None =>
          let! results := all_log_dirs (Some (name, map Metadata.partition (Metadata.partitions info))) in
          match Reask.oks results, Reask.errs results with
          | [], (_, error) :: _ => ret (Err error)
          | dirs, _ =>
              ret (Ok (finish (default no_sizes (fold dirs (leader_map [info]) !! name)) name))
          end
      end
  end.

End cluster_info.

End Sizes.

(** * Lemmas

    The sizes of topics: what the fold over log directories adds up. *)

Module SizesFacts.
Import Error Eff Wire Admin AdminTypes Sizes.

(** *** Sums that wrap around *)

Lemma i64_wrap_mod a b : a mod 2 ^ 64 = b mod 2 ^ 64 -> i64_wrap a = i64_wrap b.
Proof. intros E. unfold i64_wrap. f_equal. rewrite (Zplus_mod a), (Zplus_mod b), E. done. Qed.
Lemma i64_wrap_idem a : i64_wrap a mod 2 ^ 64 = a mod 2 ^ 64.
Proof. unfold i64_wrap. rewrite Zminus_mod, Zmod_mod, <- Zminus_mod. f_equal. lia. Qed.
Lemma i64_wrap_add a b : (i64_wrap a + b) mod 2 ^ 64 = (a + b) mod 2 ^ 64.
Proof. by rewrite Zplus_mod, i64_wrap_idem, <- Zplus_mod. Qed.

Lemma wrapping_sum_wraps {A} (f : A -> Z) l : wrapping_sum f l = i64_wrap (sum_with f l).
Proof.
  unfold wrapping_sum. enough (Hgen : forall acc,
    foldl (fun acc a => i64_wrap (acc + f a)) (i64_wrap acc) l = i64_wrap (acc + sum_with f l)).
  { exact (Hgen 0). }
  induction l as [|a l IH]; intros acc; cbn [foldl]; [by rewrite Z.add_0_r|].
  rewrite (i64_wrap_mod (i64_wrap acc + f a) (acc + f a)) by apply i64_wrap_add.
  rewrite IH. change (sum_with f (a :: l)) with (f a + sum_with f l). by rewrite Z.add_assoc.
Qed.

Lemma sum_with_permutation {A} (f : A -> Z) l1 l2 : l1 ≡ₚ l2 -> sum_with f l1 = sum_with f l2.
Proof. unfold sum_with. induction 1; cbn; lia. Qed.

(** The sum over the values of a map. *)
Definition total {V} (f : V -> Z) (m : gmap Z V) : Z := sum_with f (map snd (map_to_list m)).

Lemma total_insert {V} (f : V -> Z) m k v :
  total f (<[k := v]> m) = total f m - match m !! k with Some w => f w | None => 0 end + f v.
Proof.
  assert (Hnew : forall m : gmap Z V, m !! k = None -> total f (<[k := v]> m) = f v + total f m).
  { intros m' Hm. unfold total. erewrite sum_with_permutation; [|by rewrite (map_to_list_insert m' k v Hm)]. done. }
  destruct (m !! k) as [w|] eqn:E; [|rewrite Hnew by done; lia].
  assert (Hw : total f m = f w + total f (delete k m)).
  { rewrite <- (insert_delete_id m k w E) at 1. unfold total.
    erewrite sum_with_permutation; [|by rewrite (map_to_list_insert _ k w (lookup_delete_eq m k))]. done. }
  rewrite <- (insert_delete_eq m k v), (Hnew (delete k m)) by apply lookup_delete_eq. lia.
Qed.

(** *** The fold of one topic's entries *)

(** An entry of a broker: where it is and what it is. *)
Definition Entry : Type := Z * string * LogDirReplica.

Section sizes.
Context (leaders : LeaderMap) (name : string).

Definition of_topic (e : Entry) : bool := bool_decide (dir_topic e.2 = name).
Definition live (e : Entry) : bool := of_topic e && negb (is_future e.2).
Definition leading (e : Entry) : bool := live e && leads leaders e.1.1 e.2.
Definition bytes_of (e : Entry) : Z := size_bytes e.2.

Definition row (e : Entry) : ReplicaSize := {|
  rs_node_id := e.1.1; rs_partition := dir_partition e.2; rs_log_dir := e.1.2; rs_size := size_bytes e.2;
  rs_lag := offset_lag e.2; rs_future := is_future e.2; rs_leader := leads leaders e.1.1 e.2 |}.

Definition add_entry (folded : gmap string Sizes) (e : Entry) : gmap string Sizes :=
  let '(node_id, path, replica) := e in
  <[dir_topic replica :=
      add (default no_sizes (folded !! dir_topic replica)) node_id path replica (leads leaders node_id replica)]> folded.

(** What the sizes of the topic are after some entries. *)
Record adds_up (entries : list Entry) (z : Sizes) : Prop := {
  rows_are : replicas z = map row (List.filter of_topic entries);
  keys_are : forall p x, partitions z !! p = Some x -> ps_partition x = p;
  replicated_is : total ps_replicated (partitions z) mod 2 ^ 64
                  = sum_with bytes_of (List.filter live entries) mod 2 ^ 64;
  logical_is : NoDup (map (fun e => dir_partition e.2) (List.filter leading entries)) ->
    total ps_logical (partitions z) = sum_with bytes_of (List.filter leading entries);
  unled : forall p x, partitions z !! p = Some x ->
    ~ p ∈ map (fun e : Entry => dir_partition e.2) (List.filter leading entries) -> ps_logical x = 0;
}.

Lemma filter_snoc {A} (f : A -> bool) l a :
  List.filter f (l ++ [a]) = List.filter f l ++ (if f a then [a] else []).
Proof. rewrite List.filter_app. cbn. done. Qed.

Lemma add_adds_up entries z e :
  adds_up entries z -> of_topic e = true ->
  adds_up (entries ++ [e]) (add z e.1.1 e.1.2 e.2 (leads leaders e.1.1 e.2)).
Proof.
  intros [Hr Hk Hs Hl Hu] He. destruct (is_future e.2) eqn:Ef.
  - assert (Hlive : live e = false) by (unfold live; by rewrite He, Ef).
    assert (Hlead : leading e = false) by (unfold leading; by rewrite Hlive).
    unfold add. rewrite Ef. split; cbn [partitions replicas]; rewrite ?filter_snoc, ?He, ?Hlive, ?Hlead, ?app_nil_r; try done.
    rewrite Hr, map_app. cbn. unfold row at 3. by rewrite Ef.
  - assert (Hlive : live e = true) by (unfold live; by rewrite He, Ef).
    assert (Hlead : leading e = leads leaders e.1.1 e.2) by (unfold leading; by rewrite Hlive).
    unfold add. rewrite Ef. set (p := dir_partition e.2).
    split; cbn [partitions replicas]; rewrite ?filter_snoc, ?He, ?Hlive, ?Hlead.
    + rewrite Hr, map_app. cbn. unfold row at 3. by rewrite Ef.
    + intros q x. destruct (decide (q = p)) as [->|Hq].
      * rewrite lookup_insert_eq. intros [= <-]. cbn. destruct (partitions z !! p) eqn:E; [by apply Hk in E|done].
      * rewrite lookup_insert_ne by done. apply Hk.
    + rewrite total_insert, sum_with_snoc. cbn [ps_replicated]. unfold bytes_of at 2.
      destruct (partitions z !! p) as [x|]; cbn [default from_option id ps_replicated].
      all: transitivity ((total ps_replicated (partitions z) + size_bytes e.2) mod 2 ^ 64);
        [rewrite Z.add_comm, i64_wrap_add; f_equal; lia|by rewrite Zplus_mod, Hs, <- Zplus_mod].
    + destruct (leads leaders e.1.1 e.2); cbn [app]; rewrite ?app_nil_r.
      * rewrite map_app. cbn [map]. intros Hnd. apply NoDup_app in Hnd as (Hnd & Hnew & _).
        rewrite total_insert, sum_with_snoc, (Hl Hnd). cbn [ps_logical]. unfold bytes_of at 3.
        assert (Hz : match partitions z !! p with Some w => ps_logical w | None => 0 end = 0).
        { destruct (partitions z !! p) as [x|] eqn:E; [|done]. apply (Hu _ _ E). intros Hin.
          apply (Hnew _ Hin). by left. }
        rewrite Hz. lia.
      * intros Hnd. rewrite total_insert, (Hl Hnd). cbn [ps_logical].
        destruct (partitions z !! p); cbn; lia.
    + intros q x. destruct (decide (q = p)) as [->|Hq].
      * rewrite lookup_insert_eq. intros [= <-]. cbn [ps_logical].
        destruct (leads leaders e.1.1 e.2); cbn [app]; rewrite ?app_nil_r.
        -- rewrite map_app. cbn. rewrite elem_of_app. intros Hn. destruct Hn. right. by left.
        -- intros Hn. destruct (partitions z !! p) as [x|] eqn:E; [|done]. by apply (Hu _ _ E).
      * rewrite lookup_insert_ne by done. intros Hx Hn. apply (Hu _ _ Hx). intros Hin. apply Hn.
        rewrite map_app, elem_of_app. by left.
Qed.

Lemma skip_adds_up entries z e : adds_up entries z -> of_topic e = false -> adds_up (entries ++ [e]) z.
Proof.
  intros [Hr Hk Hs Hl Hu] He.
  assert (Hlive : live e = false) by (unfold live; by rewrite He).
  assert (Hlead : leading e = false) by (unfold leading; by rewrite Hlive).
  split; rewrite ?filter_snoc, ?He, ?Hlive, ?Hlead, ?app_nil_r; done.
Qed.

Lemma fold_adds_up entries :
  adds_up entries (default no_sizes (foldl add_entry ∅ entries !! name)).
Proof.
  induction entries as [|[[node_id path] replica] entries IH] using rev_ind.
  - cbn. split; cbn; try done.
  - rewrite foldl_snoc. cbn [add_entry]. destruct (of_topic (node_id, path, replica)) eqn:He.
    + apply (add_adds_up _ _ _ IH) in He as Hadd. apply bool_decide_eq_true in He. cbn in He, Hadd.
      rewrite He. by rewrite lookup_insert_eq.
    + apply (skip_adds_up _ _ _ IH) in He as Hskip. apply bool_decide_eq_false in He. cbn in He.
      by rewrite lookup_insert_ne.
Qed.

End sizes.

Lemma fold_is_add_entry per_broker leaders :
  fold per_broker leaders = foldl (add_entry leaders) ∅ (entries_of per_broker).
Proof. done. Qed.

(** What [finish] makes of it. *)
Lemma finish_sums z name :
  logical_bytes (finish z name) = i64_wrap (total ps_logical (partitions z))
  /\ replicated_bytes (finish z name) = i64_wrap (total ps_replicated (partitions z)).
Proof.
  unfold finish, total. cbn. rewrite !wrapping_sum_wraps.
  split; f_equal; apply sum_with_permutation, merge_sort_Permutation.
Qed.

(** The rows are in order. *)
#[export] Instance row_le_total : Total row_le.
Proof.
  intros a b. unfold row_le.
  destruct (Z.lt_trichotomy (rs_partition a) (rs_partition b)) as [Hp|[Hp|Hp]]; [left; by left| |right; by left].
  destruct (Z.lt_trichotomy (rs_node_id a) (rs_node_id b)) as [Hn|[Hn|Hn]]; [left; by auto| |right; by auto].
  destruct (String.leb_total (rs_log_dir a) (rs_log_dir b)) as [Hd|Hd]; [left|right]; auto 10.
Qed.

Lemma rows_sorted z name : Sorted.Sorted row_le (ts_replicas (finish z name)).
Proof. apply (Sorted_merge_sort row_le). Qed.

End SizesFacts.
