(* ===== verification/AdminGroups.v ===== *)
(** The admin calls on groups, their committed offsets, transactions and producers
    ([crates/kafka-admin/src/groups.rs] and [transactions.rs]). *)

From stdpp Require Import sorting.
From S2P Require Import Prelude Sanitize Text ErrorCodes Scram ApiKeys Retry Effects Reask BatchDecode Rpc Connect Metadata Cluster AdminTypes AdminMessages AdminTopics.
Open Scope Z_scope.

(** ** What every broker lists *)

Module Listings.
Import Error Eff Wire Admin AdminTypes.

(** Order by an id, and keep the first of each. *)
Definition id_le {A} (id : A -> string) (a b : A) : Prop := String.leb (id a) (id b) = true.
#[export] Instance id_le_dec {A} (id : A -> string) : RelDecision (id_le id).
Proof. intros a b. unfold id_le. apply _. Defined.
Fixpoint dedup_by {A} (id : A -> string) (previous : option string) (l : list A) : list A :=
  match l with
  | [] => []
  | a :: l => if bool_decide (previous = Some (id a)) then dedup_by id previous l else a :: dedup_by id (Some (id a)) l
  end.
Definition sorted_once {A} (id : A -> string) (l : list A) : list A := dedup_by id None (merge_sort (id_le id) l).

Section listings.
Context {W : Type} `{!AdminCluster W, !Pacing W, !KafkaProtocol, !Rpc.Messages}.
Context (admin : Settings).
Abbreviation M := (Eff.M (Session W)).

(** The same request to every broker: what they listed, whether any response came, and the
    last failure. *)
Definition ask_brokers {A T} (request : Request (Coded unit A)) (rows : A -> list T) (brokers : list Metadata.BrokerInfo)
    : M (list T * bool * option Error) :=
  fold_each (fun '(listings, answered, last_error) broker =>
    let* response := send_to_node admin (Metadata.node_id broker) request in
    ret (Ok match response with
            | Ok response =>
                match ErrorCode.from_code (c_code response) with
                | Some code => (listings, true, Some (from_code code None))
                | None => (listings ++ rows (c_value response), true, last_error)
                end
            | Err error => (listings, answered, Some error)
            end)) ([], false, None) brokers.

Definition list_everywhere {A T} (request : Request (Coded unit A)) (rows : A -> list T) (id : T -> string) : M (list T) :=
  let! snapshot := on_world refresh_if_stale in
  let! (listings, answered, last_error) := ask_brokers request rows (Metadata.brokers snapshot) in
  match answered, last_error with
  | false, Some error => ret (Err error)
  | _, _ => ret (Ok (sorted_once id listings))
  end.

(** A request per item, to the coordinator of each. *)
Definition each_coordinator {R T} (kind : Routing.CoordinatorKind) (request : string -> Request R)
    (read : string -> R -> result T Error) (ids : list string) : M (Reask.PerItem string T) :=
  each (fun id =>
    let* response := send_to_coordinator admin kind id (request id) in
    ret (Ok (id, match response with Ok response => read id response | Err error => Err error end))) ids.

End listings.

End Listings.

(** ** Groups *)

Module Groups.
Import Error Eff Wire Admin AdminTypes Listings.
Import Routing(Group).

Definition CLASSIC_NON_MEMBER_GENERATION : Z := -1.
Definition CONSUMER_NON_MEMBER_EPOCH : Z := -1.

Definition listing (row : GroupRow) : GroupListing := {|
  gl_group_id := row_id row; gl_state := parse_state (row_state row); group_type := row_type row;
  gl_protocol_type := row_protocol_type row |}.

(** A description of a group that this build has no schema for. *)
Definition unrecognized (group_id : string) (kind : text) (listings : gmap string GroupListing) : GroupDescription :=
  Unrecognized group_id kind (default (OtherState "") (gl_state <$> listings !! group_id)).

(** Which api describes a group. *)
Inductive Kind : Type := AsConsumer | AsShare | AsClassic | AsOther (kind : text).
Definition kind_of (listing : option GroupListing) : Kind :=
  match (fun l => Str.to_ascii_lowercase (group_type l)) <$> listing with
  | None => AsClassic
  | Some t =>
      if is_type "consumer" t then AsConsumer
      else if is_type "share" t then AsShare
      else if is_type "classic" t || is_type "" t then AsClassic
      else AsOther t
  end.

Section groups.
Context {W : Type} `{!AdminCluster W, !Pacing W, !KafkaProtocol, !Rpc.Messages, !Scram.StrDebug}.
Context (admin : Settings).
Abbreviation M := (Eff.M (Session W)).

Definition list_groups_filtered (states types : list string) : M (list GroupListing) :=
  list_everywhere admin (ListGroups states types) (map listing) gl_group_id.
Definition list_groups : M (list GroupListing) := list_groups_filtered [] [].

Definition not_found {T} (group_id : string) : result T Error :=
  Err (from_code ErrorCode.GroupIdNotFound (Some (text_of_string group_id))).

Definition first_answer {A T} (read : Answer string A -> result T Error) (group_id : string) (groups : list (Answer string A))
    : result T Error :=
  match groups with group :: _ => read group | [] => not_found group_id end.

Definition classic_description (g : Answer string ClassicAnswer) : result GroupDescription Error :=
  outcome (fun c => Classic (a_key g) (parse_state (cla_state c)) (cla_protocol_type c) (cla_protocol c) (cla_members c)) g.
Definition consumer_description (g : Answer string (EpochAnswer ConsumerGroupMember)) : result GroupDescription Error :=
  outcome (fun c => Consumer (a_key g) (parse_state (ea_state c)) (ea_epoch c) (ea_assignment_epoch c) (ea_assignor c)
                      (ea_members c)) g.
Definition share_description (g : Answer string (EpochAnswer ShareGroupMember)) : result GroupDescription Error :=
  outcome (fun c => Share (a_key g) (parse_state (ea_state c)) (ea_epoch c) (ea_assignment_epoch c) (ea_assignor c)
                      (ea_members c)) g.

Definition describe_classic_groups (group_ids : list string) : M (Reask.PerItem string GroupDescription) :=
  each_coordinator admin Group (fun id => DescribeGroups [id] false) (first_answer classic_description) group_ids.

(** Groups of a newer kind, where the broker offers the api. *)
Definition describe_newer {R} (key : ApiKey.ApiKey) (kind : string) (request : string -> Request R)
    (read : string -> R -> result GroupDescription Error) (listings : gmap string GroupListing) (group_ids : list string)
    : M (Reask.PerItem string GroupDescription) :=
  each (fun id =>
    let! supported := supports key in
    if negb supported then ret (Ok (id, Ok (unrecognized id (text_of_string kind) listings)))
    else
      let* response := send_to_coordinator admin Group id (request id) in
      ret (Ok (id, match response with Ok response => read id response | Err error => Err error end))) group_ids.
Definition describe_consumer_groups (listings : gmap string GroupListing) (group_ids : list string) :=
  describe_newer ApiKey.ConsumerGroupDescribe "consumer" (fun id => ConsumerGroupDescribe [id] false)
    (first_answer consumer_description) listings group_ids.
Definition describe_share_groups (listings : gmap string GroupListing) (group_ids : list string) :=
  describe_newer ApiKey.ShareGroupDescribe "share" (fun id => ShareGroupDescribe [id] false)
    (first_answer share_description) listings group_ids.

(** Describe groups by the api of each one's kind, which the listing tells. *)
Definition of_kind (listings : gmap string GroupListing) (kind : Kind -> bool) (group_ids : list string) : list string :=
  List.filter (fun id => kind (kind_of (listings !! id))) group_ids.

Definition describe_groups (group_ids : list string) : M (Reask.PerItem string GroupDescription) :=
  if bool_decide (group_ids = []) then ret (Ok [])
  else
    let* listed := list_groups in
    let listings := collected (map (fun l => (gl_group_id l, l))
                                 match listed with Ok listed => listed | Err _ => [] end) in
    let others := omap (fun id =>
      match kind_of (listings !! id) with
      | AsOther kind => Some (id, Ok (unrecognized id kind listings))
      | _ => None
      end) group_ids in
    let! classic := describe_classic_groups
                      (of_kind listings (fun k => match k with AsClassic => true | _ => false end) group_ids) in
    let! consumer := describe_consumer_groups listings
                       (of_kind listings (fun k => match k with AsConsumer => true | _ => false end) group_ids) in
    let! share := describe_share_groups listings
                    (of_kind listings (fun k => match k with AsShare => true | _ => false end) group_ids) in
    ret (Ok (others ++ classic ++ consumer ++ share)).

(** *** Committed offsets *)

Definition to_committed (code : Z) (answer : CommittedAnswer) : result CommittedOffset Error :=
  match ErrorCode.from_code code with
  | Some code => Err (from_code code None)
  | None =>
      if co_offset answer <? 0 then
        Err (from_code ErrorCode.UnknownTopicOrPartition (Some (text_of_string "no committed offset")))
      else Ok {| committed_offset := co_offset answer; committed_epoch := Metadata.known_id (co_epoch answer);
                 committed_metadata := co_metadata answer |}
  end.

Definition committed_topics (topics : CommittedTopics) : Reask.PerItem (string * Z) CommittedOffset :=
  concat (map (fun '(name, partitions) =>
    map (fun p => ((name, c_key p), to_committed (c_code p) (c_value p))) partitions) topics).

Fixpoint committed_groups (group_id : string) (groups : list (Coded unit CommittedTopics))
    : result (Reask.PerItem (string * Z) CommittedOffset) Error :=
  match groups with
  | [] => Ok []
  | group :: groups =>
      match ErrorCode.from_code (c_code group) with
      | Some code => Err (from_code code (Some (text_of_string group_id)))
      | None => let? rest := committed_groups group_id groups in Ok (committed_topics (c_value group) ++ rest)
      end
  end.

Definition OFFSET_FETCH_RPC : Rpc.Rpc := Rpc.rpc "OffsetFetchRequest" ApiKey.OffsetFetch "OffsetFetchResponse".

(** Fetch a group's committed offsets, in the shape the negotiated version has. *)
Definition fetch_offsets (group_id : string) (partitions : option (list (string * list Z)))
    : M (Reask.PerItem (string * Z) CommittedOffset) :=
  let! version := negotiated_for OFFSET_FETCH_RPC in
  let request :=
    if 8 <=? version then OffsetFetch true "" None [(group_id, partitions)] else OffsetFetch true group_id partitions [] in
  let! response := send_to_coordinator admin Group group_id request in
  match ErrorCode.from_code (oas_code response) with
  | Some code => ret (Err (from_code code (Some (text_of_string group_id))))
  | None =>
      let! results := ret (committed_groups group_id (oas_groups response)) in
      ret (Ok match results with [] => committed_topics (oas_topics response) | _ => results end)
  end.

(** One round of commits, as no member of the group. *)
Definition commit_entry (r : OffsetReset) : CommitEntry := {|
  ce_partition := reset_partition r; ce_offset := reset_offset r; ce_leader_epoch := -1;
  ce_metadata := reset_metadata r |}.
Definition commit_request (group_id : string) (generation_or_epoch : Z) (subset : list OffsetReset)
    : Request (ByTopic (Coded Z unit)) :=
  OffsetCommit group_id generation_or_epoch "" (map_to_list (grouped reset_topic commit_entry subset)).
Definition commit_round (group_id : string) (generation_or_epoch : Z) (subset : list OffsetReset)
    : M (Reask.PerItem OffsetReset unit) :=
  let! response := send_to_coordinator admin Group group_id (commit_request group_id generation_or_epoch subset) in
  ret (Ok (taken (fun r => (reset_topic r, reset_partition r))
    (fun found _ =>
       match found with None => Err Offsets.partition_not_mentioned | Some a => bare (fun u => u) a end)
    (collected (Offsets.keyed c_key response)) subset)).

(** What the generation field has to hold for a committer who is no member. *)
Definition generation_or_epoch (description : GroupDescription) : result Z Error :=
  match description with
  | Classic _ _ _ _ _ => Ok CLASSIC_NON_MEMBER_GENERATION
  | Consumer _ _ _ _ _ _ => Ok CONSUMER_NON_MEMBER_EPOCH
  | Share _ _ _ _ _ _ => Err (Unsupported "offsets for a share group are not committed through OffsetCommit")
  | Unrecognized _ _ _ =>
      Err (Unsupported "offsets for a streams or unrecognised group are not committed through OffsetCommit")
  end.

Definition not_empty (group_id : string) (description : GroupDescription) : Error :=
  InvalidRequest ("group " +:+ group_id +:+ " is " +:+ debug_state (described_state description) +:+ " with "
    +:+ pretty (Z.of_nat (default 0%nat (member_count description)))
    +:+ " member(s); offsets can only be reset on an empty group, otherwise a live member overwrites them on its next commit").

(** Reset a group's committed offsets, unless it has members. *)
Definition reset_offsets (group_id : string) (offsets : list OffsetReset) : M (Reask.PerItem (string * Z) unit) :=
  if bool_decide (length offsets = 0)%nat then ret (Ok [])
  else
    let! described := describe_groups [group_id] in
    let! description :=
      match described with
      | (_, result) :: _ => ret result
      | [] => ret (not_found group_id)
      end in
    if negb (state_is_empty (described_state description)) then ret (Err (not_empty group_id description))
    else
      let! generation := ret (generation_or_epoch description) in
      let! committed := retrying admin (Reask.Coordinator Group group_id) offsets (commit_round group_id generation) in
      ret (Ok (map (fun '(r, outcome) => ((reset_topic r, reset_partition r), outcome)) committed)).

(** Delete committed offsets; a retriable error of the whole response is one of every item. *)
Definition delete_round (group_id : string) (subset : list (string * Z)) : M (Reask.PerItem (string * Z) unit) :=
  let! response := send_to_coordinator admin Group group_id
    (OffsetDelete group_id (map_to_list (grouped fst snd subset))) in
  match ErrorCode.from_code (c_code response) with
  | Some code =>
      let error := from_code code (Some (text_of_string group_id)) in
      if ErrorCode.retriable_for_named_resource code then ret (Ok (map (fun item => (item, Err error)) subset))
      else ret (Err error)
  | None =>
      ret (Ok (map (fun '(key, p) => (key, bare (fun u => u) p)) (Offsets.keyed c_key (c_value response))))
  end.
Definition delete_offsets (group_id : string) (partitions : list (string * Z)) : M (Reask.PerItem (string * Z) unit) :=
  if bool_decide (partitions = []) then ret (Ok [])
  else retrying admin (Reask.Coordinator Group group_id) partitions (delete_round group_id).

Definition delete_groups (group_ids : list string) : M (Reask.PerItem string unit) :=
  each_coordinator admin Group (fun id => DeleteGroups [id])
    (fun id results => match results with r :: _ => bare (fun u => u) r | [] => not_found id end) group_ids.

End groups.

End Groups.

(** ** Transactions and producers *)

Module TransactionsAdmin.
Import Error Eff Wire Admin AdminTypes Listings.

Section transactions.
Context {W : Type} `{!AdminCluster W, !Pacing W, !KafkaProtocol, !Rpc.Messages}.
Context (admin : Settings).
Abbreviation M := (Eff.M (Session W)).

Definition list_transactions (state_filters : list string) : M (list TransactionListing) :=
  list_everywhere admin (ListTransactions state_filters) (fun rows => rows) tl_id.

Definition transaction_description (id : string) (states : list (Coded unit TransactionAnswer))
    : result TransactionDescription Error :=
  match states with
  | [] => Err (from_code ErrorCode.TransactionalIdNotFound (Some (text_of_string id)))
  | state :: _ =>
      let t := c_value state in
      checked (c_code state) (Some (text_of_string id)) {|
        td_id := ta_id t; td_state := ta_state t; td_timeout_ms := ta_timeout_ms t;
        start_time_ms := Offsets.non_negative (ta_start_ms t); td_producer_id := ta_producer_id t;
        td_producer_epoch := ta_producer_epoch t; td_partitions := ta_topics t |}
  end.
Definition describe_transactions (ids : list string) : M (Reask.PerItem string TransactionDescription) :=
  each_coordinator admin Routing.Transaction (fun id => DescribeTransactions [id]) transaction_description ids.

(** A negative start is no transaction. *)
Definition producer_state (p : ProducerAnswer) : ProducerState := {|
  pr_id := pa_id p; pr_epoch := pa_epoch p; last_sequence := pa_sequence p; last_timestamp := pa_timestamp p;
  coordinator_epoch := pa_coordinator_epoch p;
  current_txn_start_offset := Offsets.non_negative (pa_start_offset p) |}.

Definition describe_producers (partitions : list (string * Z)) : M (Reask.PerItem (string * Z) (list ProducerState)) :=
  let! (failed, groups) := Topics.by_leader fst snd (fun p => p) partitions in
  fold_each (fun results '(leader, group) =>
    let* response := send_to_node admin leader (DescribeProducers (map_to_list (grouped fst snd group))) in
    match response with
    | Ok topics =>
        ret (Ok (results ++ concat (map (fun '(name, partitions) =>
                   map (fun p => ((name, a_key p), outcome (map producer_state) p)) partitions) topics)))
    | Err error => ret (Ok (results ++ map (fun key => (key, Err (clone_error error))) group))
    end) failed (map_to_list groups).

End transactions.

End TransactionsAdmin.
