(* ===== verification/AdminSecurity.v ===== *)
(** The admin calls on ACLs, quotas, SCRAM credentials and delegation tokens, and what they say of
    one principal ([crates/kafka-admin/src/security.rs], [tokens.rs] and [principal.rs]). *)

From S2P Require Import Prelude Sanitize Text ErrorCodes Scram ApiKeys Retry Effects Reask BatchDecode Rpc Connect Metadata Cluster AdminTypes AdminMessages.
From Stdlib Require Import QArith.
Open Scope Z_scope.

(** ** ACLs, quotas and credentials *)

Module Acls.
Import Error Eff Wire Admin Security.

(** A filter as requests carry it. *)
Definition filter_fields (filter : AclFilter) : FilterFields := {|
  ff_type := resource_code (f_resource_type filter); ff_name := f_name filter;
  ff_pattern := pattern_code (f_pattern filter); ff_principal := f_principal filter; ff_host := f_host filter;
  ff_operation := operation_code (f_operation filter); ff_permission := permission_code (f_permission filter) |}.

Definition creation (binding : AclBinding) : AclCreation := {|
  cr_type := resource_code (resource_type binding); cr_name := acl_name binding;
  cr_pattern := pattern_code (pattern_type binding); cr_principal := principal binding; cr_host := host binding;
  cr_operation := operation_code (operation binding); cr_permission := permission_code (permission binding) |}.

(** A binding as responses carry it: a code this build does not know is [Any]. *)
Definition binding_of (resource : AclResourceAnswer AclAnswer) : AclBinding := {|
  resource_type := default AnyResource (resource_from_code (ar_type resource));
  acl_name := ar_name resource;
  pattern_type := default AnyPattern (pattern_from_code (ar_pattern resource));
  principal := ac_principal (ar_acls resource);
  host := ac_host (ar_acls resource);
  operation := operation_from_code (ac_operation (ar_acls resource));
  permission := default AnyPermission (permission_from_code (ac_permission (ar_acls resource))) |}.

Definition each_acl (resource : AclResourceAnswer (list AclAnswer)) : list (AclResourceAnswer AclAnswer) :=
  map (fun acl => {| ar_type := ar_type resource; ar_name := ar_name resource; ar_pattern := ar_pattern resource;
                     ar_acls := acl |}) (ar_acls resource).

(** [match_type]: 0 is exact, 1 the default, 2 any. *)
Definition quota_component (component : text * option text) : text * Z * option text :=
  match component.2 with
  | Some name => (component.1, 0, Some name)
  | None => (component.1, 2, None)
  end.

Definition quota_op (op : QuotaOp) : text * Q * bool :=
  (op.1, default 0%Q op.2, bool_decide (op.2 = None)).

Definition scram_hash (mechanism : ScramMechanism) : Scram.ScramHash :=
  match mechanism with Sha256 => Scram.Sha256 | Sha512 => Scram.Sha512 end.

Section acls.
Context {W : Type} `{!AdminCluster W, !Pacing W, !KafkaProtocol, !Rpc.Messages}.
Context `{!Scram.Base64, !Scram.StringPrep, !Scram.StrDebug, !Scram.Crypto}.
Context (admin : Settings).
Abbreviation M := (Eff.M (Session W)).

Definition describe_acls (filter : AclFilter) : M (list AclBinding) :=
  let! response := send_any admin (DescribeAcls (filter_fields filter)) in
  let! resources := ret (whole response) in
  ret (Ok (map binding_of (concat (map each_acl resources)))).

(** Create ACLs; the response is in the order of the request. *)
Definition create_acls (bindings : list AclBinding) : M (Reask.PerItem AclBinding unit) :=
  if bool_decide (length bindings = 0)%nat then ret (Ok [])
  else
    let! results := send_any admin (CreateAcls (map creation bindings)) in
    ret (Ok (zip bindings (map (outcome (fun u => u)) results))).

Definition delete_acls (filters : list AclFilter) : M (Reask.PerItem AclFilter (list AclBinding)) :=
  if bool_decide (length filters = 0)%nat then ret (Ok [])
  else
    let! results := send_any admin (DeleteAcls (map filter_fields filters)) in
    ret (Ok (zip filters (map (outcome (map binding_of)) results))).

Definition describe_client_quotas (filter : QuotaFilter) : M (list QuotaAssignment) :=
  let! response := send_any admin (DescribeClientQuotas (map quota_component (components filter)) (strict filter)) in
  let! entries := ret (whole response) in
  ret (Ok (default [] entries)).

Definition alter_client_quotas (changes : list (QuotaEntity * list QuotaOp)) : M (Reask.PerItem QuotaEntity unit) :=
  if bool_decide (length changes = 0)%nat then ret (Ok [])
  else
    let! entries := send_any admin
      (AlterClientQuotas false (map (fun '(entity, ops) => (entity, map quota_op ops)) changes)) in
    ret (Ok (map (fun entry => (a_key entry, outcome (fun u => u) entry)) entries)).

(** Every user is an empty list, and not a null one. *)
Definition credential (info : Z * Z) : option ScramCredentialInfo :=
  m ← scram_from_code info.1; Some {| mechanism := m; iterations := info.2 |}.
Definition describe_scram_credentials (users : option (list text))
    : M (Reask.PerItem text (list ScramCredentialInfo)) :=
  let! response := send_any admin (DescribeUserScramCredentials (Some (default [] users))) in
  let! results := ret (whole response) in
  ret (Ok (map (fun result => (a_key result, outcome (omap credential) result)) results)).

(** [scram_results]. *)
Definition scram_results (results : list (Answer text unit)) : Reask.PerItem text unit :=
  map (fun result => (a_key result, outcome (fun u => u) result)) results.

(** Salt and hash each password here. *)
Definition upsertion (upsert : ScramUpsert) : M ScramUpsertion :=
  if upsert_iterations upsert <? 4096 then
    ret (Err (InvalidRequest ("SCRAM iteration count " +:+ pretty (upsert_iterations upsert)
                              +:+ " is below Kafka's minimum of 4096")))
  else
    let! salt := (fun s => let '(salt, w) := random_salt (world s) in
                           Some (Ok salt, {| world := w; asked := asked s |})) in
    let! salted := ret (Scram.salted_password (scram_hash (upsert_mechanism upsert)) (upsert_password upsert) salt
                          (upsert_iterations upsert)) in
    ret (Ok {| su_name := upsert_user upsert; su_mechanism := scram_code (upsert_mechanism upsert);
               su_iterations := upsert_iterations upsert; su_salt := salt; su_salted_password := salted |}).

Definition upsert_scram_credentials (upserts : list ScramUpsert) : M (Reask.PerItem text unit) :=
  if bool_decide (length upserts = 0)%nat then ret (Ok [])
  else
    let! upsertions := each upsertion upserts in
    let! response := send_any admin (AlterUserScramCredentials [] upsertions) in
    ret (Ok (scram_results response)).

Definition delete_scram_credentials (deletions : list (text * ScramMechanism)) : M (Reask.PerItem text unit) :=
  if bool_decide (deletions = []) then ret (Ok [])
  else
    let! response := send_any admin
      (AlterUserScramCredentials (map (fun '(user, m) => (user, scram_code m)) deletions) []) in
    ret (Ok (scram_results response)).

End acls.

End Acls.

(** ** Delegation tokens *)

Module Tokens.
Import Error Eff Wire Admin AdminTypes.

Definition CREATE_TOKEN_RPC : Rpc.Rpc :=
  Rpc.rpc "CreateDelegationTokenRequest" ApiKey.CreateDelegationToken "CreateDelegationTokenResponse".

(** A requester without a name is the owner. *)
Definition requester_of (owner requester : Principal) : Principal :=
  if bool_decide (principal_name requester = []) then owner else requester.
Definition token_of (renewers : list Principal) (t : TokenAnswer) : DelegationToken := {|
  owner := to_owner t; requester := requester_of (to_owner t) (to_requester t); token_id := to_token_id t;
  hmac := to_hmac t; issue_timestamp_ms := to_issue t; expiry_timestamp_ms := to_expiry t;
  max_timestamp_ms := to_max t; renewers := renewers |}.

Definition too_old (version : Z) : Error :=
  Unsupported ("issuing a delegation token to another principal needs CreateDelegationToken v3 (KIP-373); "
               +:+ "this cluster negotiates v" +:+ pretty version).

Section tokens.
Context {W : Type} `{!AdminCluster W, !Pacing W, !KafkaProtocol, !Rpc.Messages}.
Context (admin : Settings).
Abbreviation M := (Eff.M (Session W)).

(** Create a token, for another principal only where the version has the field. *)
Definition create_delegation_token (options : NewDelegationToken) : M DelegationToken :=
  let! _ :=
    (match token_owner options with
     | None => ret (Ok tt)
     | Some _ =>
         let! version := negotiated_for CREATE_TOKEN_RPC in
         if version <? 3 then ret (Err (too_old version)) else ret (Ok tt)
     end) in
  let! response := send_any admin
    (CreateDelegationToken (max_lifetime_ms options) (token_renewers options) (token_owner options)) in
  let! token := ret (bare_whole response) in
  ret (Ok (token_of (token_renewers options) token)).

Definition renew_delegation_token (hmac : bytes) (renew_period : Z) : M Z :=
  let! response := send_any admin (RenewDelegationToken hmac (millis renew_period)) in
  ret (bare_whole response).

Definition expire_delegation_token (hmac : bytes) (expiry_period_ms : Z) : M Z :=
  let! response := send_any admin (ExpireDelegationToken hmac expiry_period_ms) in
  ret (bare_whole response).

Definition describe_delegation_tokens (owners : option (list Principal)) : M (list DelegationToken) :=
  let! response := send_any admin (DescribeDelegationToken owners) in
  let! tokens := ret (bare_whole response) in
  ret (Ok (map (fun t => token_of (to_renewers t) t) tokens)).

End tokens.

End Tokens.

(** ** One principal *)

Module Described.
Import Error Eff Wire Admin AdminTypes Security.

Definition USER_ENTITY : text := text_of_string "user".

(** What a cluster records about one principal, each source on its own. *)
Record PrincipalDescription : Type := {
  described : Principal;
  scram : result (list ScramCredentialInfo) Error;
  tokens : result (list PrincipalToken) Error;
  acls : result (list AclBinding) Error;
  quotas : result (list QuotaAssignment) Error;
}.

Definition scram_mechanisms (self : PrincipalDescription) : list ScramMechanism :=
  match scram self with Ok infos => map mechanism infos | Err _ => [] end.

Definition some_of {A} (source : result (list A) Error) : bool :=
  match source with Ok (_ :: _) => true | _ => false end.
Definition has_stored_credentials (self : PrincipalDescription) : bool :=
  some_of (scram self) || some_of (tokens self).

(** Nothing, counting the two codes of a feature that is off. *)
Definition reports_nothing {A} (source : result (list A) Error) : bool :=
  match source with
  | Ok items => match items with [] => true | _ => false end
  | Err error =>
      match Error.code_of error with
      | Some ErrorCode.SecurityDisabled | Some ErrorCode.DelegationTokenAuthDisabled => true
      | _ => false
      end
  end.
Definition is_unrecorded (self : PrincipalDescription) : bool :=
  reports_nothing (scram self) && reports_nothing (tokens self) && reports_nothing (acls self)
  && reports_nothing (quotas self).

(** One user's credentials out of a result per user: no such resource is an answer. *)
Definition scram_for (user : text) (described : Reask.PerItem text (list ScramCredentialInfo))
    : result (list ScramCredentialInfo) Error :=
  match List.find (fun item => bool_decide (item.1 = user)) described with
  | None => Ok []
  | Some (_, Err error) =>
      match Error.code_of error with Some ErrorCode.ResourceNotFound => Ok [] | _ => Err error end
  | Some (_, Ok infos) => Ok infos
  end.

Section described.
Context {W : Type} `{!AdminCluster W, !Pacing W, !KafkaProtocol, !Rpc.Messages}.
Context (admin : Settings).
Abbreviation M := (Eff.M (Session W)).

Definition principal_scram (p : Principal) : M (list ScramCredentialInfo) :=
  if negb (bool_decide (principal_type p = text_of_string "User")) then ret (Ok [])
  else
    let! described := Acls.describe_scram_credentials admin (Some [principal_name p]) in
    ret (scram_for (principal_name p) described).

Definition principal_tokens (p : Principal) : M (list PrincipalToken) :=
  let! tokens := Tokens.describe_delegation_tokens admin (Some [p]) in
  ret (Ok (map without_secret tokens)).

Definition principal_filter (p : Principal) : AclFilter := {|
  f_resource_type := AnyResource; f_name := None; f_pattern := AnyPattern;
  f_principal := Some (display_principal p); f_host := None; f_operation := AnyOperation;
  f_permission := AnyPermission |}.
Definition principal_acls (p : Principal) : M (list AclBinding) := Acls.describe_acls admin (principal_filter p).

Definition principal_quotas (p : Principal) : M (list QuotaAssignment) :=
  Acls.describe_client_quotas admin {| components := [(USER_ENTITY, Some (principal_name p))]; strict := false |}.

(** Four sources, once the cluster can be reached at all. *)
Definition describe_principal (p : Principal) : M PrincipalDescription :=
  let! _ := on_world any_connection in
  let* scram := principal_scram p in
  let* tokens := principal_tokens p in
  let* acls := principal_acls p in
  let* quotas := principal_quotas p in
  ret (Ok {| described := p; scram := scram; tokens := tokens; acls := acls; quotas := quotas |}).

End described.

End Described.
