(* ===== verification/AdminAuthentication.v ===== *)
(** How a cluster's listeners authenticate, and what that says of one principal
    ([crates/kafka-admin/src/authentication.rs]). *)

From S2P Require Import Prelude Sanitize Text ErrorCodes Scram ApiKeys Retry Effects Reask BatchDecode Rpc Connect Metadata Cluster AdminTypes AdminMessages AdminTopics AdminSecurity.
Open Scope Z_scope.

Module Authentication.
Import Error Eff Wire Admin AdminTypes Security Described.

(** [str::to_ascii_uppercase]. *)
Definition upper (s : text) : text := map (fun c => if (97 <=? c) && (c <=? 122) then c - 32 else c) s.
Definition spells (name : string) (s : text) : bool := bool_decide (s = text_of_string name).

(** A listener's protocol. *)
Inductive SecurityProtocol : Type := Plaintext | Ssl | SaslPlaintext | SaslSsl | OtherProtocol (name : text).
#[export] Instance SecurityProtocol_eq_dec : EqDecision SecurityProtocol.
Proof. solve_decision. Defined.

Definition parse_protocol (value : text) : SecurityProtocol :=
  let v := upper (Str.trim value) in
  if spells "PLAINTEXT" v then Plaintext
  else if spells "SSL" v then Ssl
  else if spells "SASL_PLAINTEXT" v then SaslPlaintext
  else if spells "SASL_SSL" v then SaslSsl
  else OtherProtocol v.
Definition uses_sasl (self : SecurityProtocol) : bool :=
  match self with SaslPlaintext | SaslSsl => true | _ => false end.
Definition uses_tls (self : SecurityProtocol) : bool :=
  match self with Ssl | SaslSsl => true | _ => false end.
Definition display_protocol (self : SecurityProtocol) : text :=
  match self with
  | Plaintext => text_of_string "PLAINTEXT" | Ssl => text_of_string "SSL"
  | SaslPlaintext => text_of_string "SASL_PLAINTEXT" | SaslSsl => text_of_string "SASL_SSL"
  | OtherProtocol name => name
  end.

(** Whether a TLS listener asks for a client certificate. *)
Inductive ClientAuth : Type := NoAuth | Requested | Required.
#[export] Instance ClientAuth_eq_dec : EqDecision ClientAuth.
Proof. solve_decision. Defined.

Definition parse_client_auth (value : text) : ClientAuth :=
  let v := Str.to_ascii_lowercase (Str.trim value) in
  if spells "requested" v then Requested else if spells "required" v then Required else NoAuth.
Definition accepts_certificates (self : ClientAuth) : bool :=
  match self with Requested | Required => true | NoAuth => false end.

(** A way of authenticating. *)
Inductive AuthMechanism : Type :=
  | Scram (hash : ScramMechanism) | Plain | OauthBearer | Kerberos | MutualTls | ByToken | OtherMechanism (name : text).
#[export] Instance AuthMechanism_eq_dec : EqDecision AuthMechanism.
Proof. solve_decision. Defined.

Definition parse_sasl (name : text) : AuthMechanism :=
  let v := upper (Str.trim name) in
  if spells "SCRAM-SHA-256" v then Scram Sha256
  else if spells "SCRAM-SHA-512" v then Scram Sha512
  else if spells "PLAIN" v then Plain
  else if spells "OAUTHBEARER" v then OauthBearer
  else if spells "GSSAPI" v then Kerberos
  else OtherMechanism v.
Definition needs_stored_credential (self : AuthMechanism) : bool :=
  match self with Scram _ | ByToken => true | _ => false end.
Definition is_scram (self : AuthMechanism) : bool := match self with Scram _ => true | _ => false end.
Definition display_mechanism (self : AuthMechanism) : text :=
  match self with
  | Scram Sha256 => text_of_string "SCRAM-SHA-256" | Scram Sha512 => text_of_string "SCRAM-SHA-512"
  | Plain => text_of_string "PLAIN" | OauthBearer => text_of_string "OAUTHBEARER"
  | Kerberos => text_of_string "GSSAPI" | MutualTls => text_of_string "mutual TLS"
  | ByToken => text_of_string "delegation token" | OtherMechanism name => name
  end.

(** One listener, and what it accepts. *)
Record ListenerAuth : Type := {
  listener_name : text; protocol : SecurityProtocol; sasl_mechanisms : list AuthMechanism; client_auth : ClientAuth;
  is_inter_broker : bool; is_controller : bool;
}.
Definition mechanisms (self : ListenerAuth) : list AuthMechanism :=
  sasl_mechanisms self
  ++ (if uses_tls (protocol self) && accepts_certificates (client_auth self) then [MutualTls] else []).

(** How a cluster's listeners authenticate. *)
Record ClusterAuthentication : Type := {
  auth_node : Z; listeners : list ListenerAuth; principal_mapping_rules : option text;
}.
Definition client_listeners (self : ClusterAuthentication) : list ListenerAuth :=
  List.filter (fun l => negb (is_inter_broker l) && negb (is_controller l)) (listeners self).
Definition client_mechanisms (self : ClusterAuthentication) : list AuthMechanism :=
  foldl (fun known m => if bool_decide (m ∈ known) then known else known ++ [m]) []
    (concat (map mechanisms (client_listeners self))).
Definition maps_certificates_to_subjects (self : ClusterAuthentication) : bool :=
  match principal_mapping_rules self with
  | Some rules => Str.eq_ignore_ascii_case (Str.trim rules) (text_of_string "DEFAULT")
  | None => true
  end.

(** What a principal most likely authenticates with. *)
Inductive VerdictBasis : Type := StoredCredential | CertificateSubject | Elimination | UnknownBasis.
#[export] Instance VerdictBasis_eq_dec : EqDecision VerdictBasis.
Proof. solve_decision. Defined.
Record MechanismVerdict : Type := { candidates : list AuthMechanism; basis : VerdictBasis }.
Definition is_conclusive (self : MechanismVerdict) : bool :=
  negb (bool_decide (basis self = UnknownBasis)) && bool_decide (length (candidates self) = 1%nat).

Fixpoint join (sep : text) (parts : list text) : text :=
  match parts with
  | [] => []
  | [part] => part
  | part :: parts => part ++ sep ++ join sep parts
  end.
Definition display_verdict (self : MechanismVerdict) : text :=
  match basis self with
  | UnknownBasis => text_of_string "unknown"
  | b =>
      match candidates self with
      | [] => text_of_string "nothing this cluster offers"
      | candidates =>
          join (text_of_string " or ") (map display_mechanism candidates)
          ++ text_of_string match b with
             | StoredCredential => " (stored credential)" | CertificateSubject => " (certificate subject)"
             | Elimination => " (by elimination)" | UnknownBasis => ""
             end
      end
  end.

(** Whether a credential store gave an answer. *)
Definition store_answered {A} (source : result (list A) Error) : bool :=
  match source with
  | Ok _ => true
  | Err error =>
      match Error.code_of error with Some ErrorCode.DelegationTokenAuthDisabled => true | _ => false end
  end.

(** What is stored for a principal, where a client listener enables it. *)
Definition stored (self : PrincipalDescription) (offered : list AuthMechanism) : list AuthMechanism :=
  List.filter (fun m => bool_decide (m ∈ offered)) (map Scram (scram_mechanisms self))
  ++ (if some_of (tokens self) && existsb is_scram offered then [ByToken] else []).

(** Cross what the cluster stores about a principal with what its listeners accept. *)
Definition likely_mechanism (self : PrincipalDescription) (cluster : ClusterAuthentication) : MechanismVerdict :=
  let offered := client_mechanisms cluster in
  let unknown := {| candidates := []; basis := UnknownBasis |} in
  let subject := is_distinguished_name (described self) in
  if bool_decide (offered = []) then unknown
  else if negb (bool_decide (stored self offered = [])) then
    {| candidates := stored self offered; basis := StoredCredential |}
  else if bool_decide (MutualTls ∈ offered) && subject then
    {| candidates := [MutualTls]; basis := CertificateSubject |}
  else if negb (store_answered (scram self)) || negb (store_answered (tokens self)) then unknown
  else
    let strike := negb subject && maps_certificates_to_subjects cluster in
    {| candidates := List.filter (fun m => negb (strike && bool_decide (m = MutualTls)))
                       (List.filter (fun m => negb (needs_stored_credential m)) offered);
       basis := Elimination |}.

(** *** The listeners of a broker's configuration *)

(** What comes before the first [://]. *)
Fixpoint before_address (s : text) : text :=
  match s with
  | 58 :: 47 :: 47 :: _ => []
  | c :: rest => c :: before_address rest
  | [] => []
  end.

Definition not_blank (s : text) : bool := negb (bool_decide (s = [])).

(** A value that is not blank, trimmed. *)
Definition get_config (config : gmap text text) (key : text) : option text :=
  value ← config !! key;
  let value := Str.trim value in if not_blank value then Some value else None.
Definition or_else {A} (o other : option A) : option A := match o with Some _ => o | None => other end.

(** The entries that are not blank of a list with commas. *)
Definition listed (value : text) : list text := List.filter not_blank (map Str.trim (Str.split 44 value)).

Definition protocol_pair (pair : text) : option (text * SecurityProtocol) :=
  match Address.split_once 58 pair with
  | Some (name, protocol) => Some (upper (Str.trim name), parse_protocol protocol)
  | None => None
  end.

Section listeners.
Context (config : gmap text text).

Definition get (key : string) : option text := get_config config (text_of_string key).
Definition protocol_map : gmap text SecurityProtocol :=
  match get "listener.security.protocol.map" with
  | Some value => collected (omap protocol_pair (Str.split 44 value))
  | None => ∅
  end.
Definition inter_broker_name : option text := upper <$> get "inter.broker.listener.name".
Definition inter_broker_protocol : SecurityProtocol :=
  parse_protocol (default (text_of_string "PLAINTEXT") (get "security.inter.broker.protocol")).
Definition controller_names : list text :=
  match get "controller.listener.names" with
  | Some value => List.filter not_blank (map (fun name => upper (Str.trim name)) (Str.split 44 value))
  | None => []
  end.

(** A setting of one listener, or else the broker's. *)
Definition listener_setting (name : text) (key : string) : option text :=
  or_else
    (get_config config
       (text_of_string "listener.name." ++ Str.to_ascii_lowercase name ++ [46] ++ text_of_string key))
    (get key).

Definition listener (name : text) : ListenerAuth :=
  let up := upper name in
  let protocol := default (parse_protocol up) (protocol_map !! up) in {|
    listener_name := up;
    protocol := protocol;
    sasl_mechanisms :=
      if uses_sasl protocol then
        map parse_sasl
          (listed (default (text_of_string "GSSAPI") (listener_setting name "sasl.enabled.mechanisms")))
      else [];
    client_auth :=
      if uses_tls protocol then
        parse_client_auth (default (text_of_string "none") (listener_setting name "ssl.client.auth"))
      else NoAuth;
    is_inter_broker :=
      match inter_broker_name with
      | Some named => bool_decide (named = up)
      | None => bool_decide (protocol = inter_broker_protocol)
      end;
    is_controller := bool_decide (up ∈ controller_names) |}.

End listeners.

(** The listeners that a broker's configuration defines. *)
Definition listeners_from_config (node_id : Z) (entries : list ConfigEntry) : ClusterAuthentication :=
  let config := collected (omap (fun e => value ← entry_value e; Some (entry_name e, value)) entries) in {|
    auth_node := node_id;
    listeners :=
      match get config "listeners" with
      | Some value => map (listener config) (List.filter not_blank (map (fun l => Str.trim (before_address l)) (Str.split 44 value)))
      | None => []
      end;
    principal_mapping_rules := get config "ssl.principal.mapping.rules" |}.

Section describe.
Context {W : Type} `{!AdminCluster W, !Pacing W, !KafkaProtocol, !Rpc.Messages}.
Context (admin : Settings).
Abbreviation M := (Eff.M (Session W)).

(** Describe the listeners of the broker with the lowest id. *)
Definition describe_authentication : M ClusterAuthentication :=
  let! snapshot := on_world refresh_if_stale in
  match list_min (map Metadata.node_id (Metadata.brokers snapshot)) with
  | None => ret (Err (Unsupported "no brokers in the metadata snapshot"))
  | Some node_id =>
      let! described := Configs.describe_configs admin [broker_resource node_id] in
      match described with
      | (_, Ok entries) :: _ => ret (Ok (listeners_from_config node_id entries))
      | (_, Err error) :: _ => ret (Err error)
      | [] => ret (Err (Unsupported ("broker " +:+ pretty node_id +:+ " returned no configuration to describe")))
      end
  end.

End describe.

End Authentication.
