(* ===== verification/AdminFacts.v ===== *)
(** What the calls of the admin client send, and that they answer what they were asked. *)

From S2P Require Import Prelude Sanitize Text ErrorCodes Scram ApiKeys Retry Effects Reask BatchDecode Rpc Connect Metadata Cluster AdminTypes AdminMessages AdminTopics AdminSizes AdminGroups AdminSecurity AdminAuthentication.
Open Scope Z_scope.

Module AdminFacts.
Import Error Eff Wire Admin AdminTypes Reask ReaskFacts.

Section asks.
Context {W : Type} `{!AdminCluster W, !Pacing W, !KafkaProtocol, !Rpc.Messages}.
Context `{!Scram.Base64, !Scram.StringPrep, !Scram.StrDebug, !Scram.Crypto}.
Context (P : Handed -> Prop).

(** The session went on, and whatever was handed to the cluster satisfies [P]. *)
Definition extends (s s' : Session W) : Prop := exists l, asked s' = asked s ++ l /\ Forall P l.

#[export] Instance extends_reflexive : Reflexive extends.
Proof. intros s. exists []. by rewrite app_nil_r. Qed.
#[export] Instance extends_transitive : Transitive extends.
Proof.
  intros s1 s2 s3 (l1 & E1 & F1) (l2 & E2 & F2). exists (l1 ++ l2).
  rewrite E2, E1, app_assoc. split; [done|]. by apply Forall_app.
Qed.

Definition asks {A} (m : M (Session W) A) : Prop := moves extends m.

Lemma asks_ret {A} (r : result A Error) : asks (ret r).
Proof. along moves_ret. Qed.
Lemma asks_bind {A B} (m : M (Session W) A) (k : result A Error -> M (Session W) B) :
  asks m -> (forall r, asks (k r)) -> asks (bind m k).
Proof. intros. along moves_bind; done. Qed.
Lemma asks_try {A B} (m : M (Session W) A) (k : A -> M (Session W) B) :
  asks m -> (forall a, asks (k a)) -> asks (try_ m k).
Proof. intros. along moves_try; done. Qed.
Lemma asks_none {A} : asks (out_of_fuel (A := A)).
Proof. apply moves_none. Qed.
Lemma asks_each {A B} (f : A -> M (Session W) B) l : (forall a, asks (f a)) -> asks (each f l).
Proof. intros. along moves_each; done. Qed.
Lemma asks_fold {A B} (f : B -> A -> M (Session W) B) b l : (forall b a, asks (f b a)) -> asks (fold_each f b l).
Proof. intros. along moves_fold; done. Qed.

Lemma asks_world {A} (m : M W A) : asks (on_world m).
Proof.
  intros s r s'. unfold on_world. destruct (m (world s)) as [[r1 w]|]; [|done]. intros [= _ <-].
  exists []. by rewrite app_nil_r.
Qed.

Lemma asks_call admin {R} target (request : Request R) : P (handed target request) -> asks (call admin target request).
Proof.
  intros HP. apply asks_try.
  - intros s r s' [= _ <-]. eexists [_]. split; [done|]. by constructor.
  - intros _. destruct (negb _); [apply asks_ret|apply asks_world].
Qed.

Lemma asks_retrying admin {K T} axis (Q : list K -> Prop) items (round : list K -> M (Session W) (PerItem K T)) :
  (forall names, Q names -> asks (round names)) ->
  (forall names s outcomes s' spent, Q names -> round names s = Some (Ok outcomes, s') ->
     Q (map fst (left_over spent outcomes))) ->
  Q items -> asks (retrying admin axis items round).
Proof.
  intros Hround Hleft HQ. unfold retrying, per_item_retrying. apply moves_get. intros s.
  assert (Hsame : forall s s' : Session W, asked s' = asked s -> extends s s').
  { intros s1 s2 E. exists []. by rewrite app_nil_r. }
  apply (reask_loop_moves _ _ _ extends Q); try done.
  - intros s1. apply Hsame. unfold jitter_sample at 1, session_pacing.
    by destruct (jitter_sample (world s1)).
  - intros d s1. by apply Hsame.
  - apply asks_bind; [apply asks_world|]. intros r. apply asks_ret.
  - intros kind key s1. by apply Hsame.
Qed.

Lemma asks_retrying_any admin {K T} axis items (round : list K -> M (Session W) (PerItem K T)) :
  (forall names, asks (round names)) -> asks (retrying admin axis items round).
Proof. intros. by apply (asks_retrying _ _ (fun _ => True)). Qed.

Lemma asks_supports key : asks (supports key).
Proof. apply asks_bind; [apply asks_world|]. intros r. apply asks_ret. Qed.
Lemma asks_negotiated_version key : asks (negotiated_version key).
Proof. apply asks_bind; [apply asks_world|]. intros r. apply asks_ret. Qed.
Lemma asks_negotiated_for r : asks (negotiated_for r).
Proof. apply asks_try; [apply asks_world|]. intros v. apply asks_ret. Qed.

Lemma asks_salt : asks (fun s => let '(salt, w) := random_salt (world s) in
                                Some (Ok salt, {| world := w; asked := asked s |})).
Proof.
  intros s r s'. destruct (random_salt (world s)) as [salt w]. intros [= _ <-].
  exists []. by rewrite app_nil_r.
Qed.

Lemma asks_pages admin fuel names cursor acc :
  (forall cursor, P (handed Cluster.Any (DescribeTopicPartitions names Topics.DESCRIBE_PARTITION_LIMIT cursor))) ->
  asks (Topics.pages_loop admin fuel names cursor acc).
Proof.
  intros HP. revert cursor acc. induction fuel as [|fuel IH]; intros cursor acc; cbn [Topics.pages_loop].
  - apply asks_none.
  - apply asks_try; [by apply asks_call|]. intros response. destruct (next_cursor response); [apply IH|apply asks_ret].
Qed.

End asks.

Create HintDb asks discriminated.
#[export] Hint Resolve asks_ret asks_none asks_world asks_supports asks_negotiated_version
  asks_negotiated_for asks_salt : asks.

Ltac head t := match t with ?f _ => head f | _ => t end.

(** Goes through a call down to what it hands to the cluster. *)
Ltac asking :=
  repeat match goal with
  | |- forall _, _ => intros ?
  | |- asks _ (try_ _ _) => apply asks_try
  | |- asks _ (bind _ _) => apply asks_bind
  | |- asks _ (each _ _) => apply asks_each
  | |- asks _ (fold_each _ _ _) => apply asks_fold
  | |- asks _ (retrying _ _ _ _) => apply asks_retrying_any
  | |- asks _ (Topics.pages_loop _ _ _ _ _) => apply asks_pages
  | |- asks _ (call _ _ _) => apply asks_call
  | |- asks _ (send_any _ _) => apply asks_call
  | |- asks _ (send_to_controller _ _) => apply asks_call
  | |- asks _ (send_to_node _ _ _) => apply asks_call
  | |- asks _ (send_to_coordinator _ _ _ _) => apply asks_call
  | |- asks _ (match ?x with _ => _ end) => destruct x
  | |- asks _ ((match ?x with _ => _ end) _) => destruct x
  | |- context [handed _ (if ?b then _ else _)] => destruct b
  | |- asks _ _ => solve [auto with asks]
  | |- asks _ ?m => let h := head m in progress unfold h
  end.

End AdminFacts.

(** ** What an operation sends *)

Module Operations.
Import Error Eff Wire Admin AdminTypes Reask ReaskFacts AdminFacts.

(** Where a request may go, after the routing table; what a partition's leader serves goes to
    a broker by its id. *)
Definition may_go (h : Handed) : Prop :=
  match Routing.routing (handed_key h) with
  | Routing.Any => True
  | Routing.Controller => handed_to h = Cluster.Controller
  | Routing.Coordinator kind => exists key, handed_to h = Cluster.Coordinator kind key
  | Routing.Specific _ => exists id, handed_to h = Cluster.Broker id
  end.

(** A read, or a mutation that is declared. *)
Definition declared (keys : list ApiKey.ApiKey) (h : Handed) : Prop :=
  (ApiKey.is_mutating (handed_key h) = false \/ handed_key h ∈ keys) /\ may_go h.

Section operations.
Context {W : Type} `{!AdminCluster W, !Pacing W, !KafkaProtocol, !Rpc.Messages}.
Context `{!Scram.Base64, !Scram.StringPrep, !Scram.StrDebug, !Scram.Crypto}.
Context (admin : Settings).

(** The calls of the admin client, each with its constant of [ops.rs]; a read has none. *)
Inductive Operation : list ApiKey.ApiKey -> forall A, M (Session W) A -> Prop :=
  | create_topics_op ts : Operation Gate.CREATE_TOPICS _ (Topics.create_topics admin ts)
  | validate_topics_op ts : Operation Gate.CREATE_TOPICS _ (Topics.validate_topics admin ts)
  | delete_topics_op ts : Operation Gate.DELETE_TOPICS _ (Topics.delete_topics admin ts)
  | create_partitions_op ts : Operation Gate.CREATE_PARTITIONS _ (Topics.create_partitions admin ts)
  | delete_records_op ts : Operation Gate.DELETE_RECORDS _ (Topics.delete_records admin ts)
  | describe_topics_op ts : Operation [] _ (Topics.describe_topics admin ts)
  | list_topics_op : Operation [] _ Topics.list_topics
  | list_offsets_with_op rs i : Operation [] _ (Offsets.list_offsets_with admin rs i)
  | topic_offset_range_op t : Operation [] _ (Offsets.topic_offset_range admin t)
  | describe_configs_op rs : Operation [] _ (Configs.describe_configs admin rs)
  | describe_configs_documented_op rs : Operation [] _ (Configs.describe_configs_documented admin rs)
  | alter_configs_op cs : Operation Gate.ALTER_CONFIGS _ (Configs.alter_configs admin cs)
  | validate_config_changes_op cs : Operation Gate.ALTER_CONFIGS _ (Configs.validate_config_changes admin cs)
  | alter_partition_reassignments_op rs :
      Operation Gate.ALTER_PARTITION_REASSIGNMENTS _ (Partitions.alter_partition_reassignments admin rs)
  | list_partition_reassignments_op ps : Operation [] _ (Partitions.list_partition_reassignments admin ps)
  | elect_leaders_op e ps : Operation Gate.ELECT_LEADERS _ (Partitions.elect_leaders admin e ps)
  | reassignments_in_progress_op ts : Operation [] _ (Partitions.reassignments_in_progress admin ts)
  | describe_cluster_op : Operation [] _ (Sizes.describe_cluster admin)
  | describe_log_dirs_op id : Operation [] _ (Sizes.describe_log_dirs admin id)
  | describe_all_log_dirs_op : Operation [] _ (Sizes.describe_all_log_dirs admin)
  | topic_sizes_op : Operation [] _ (Sizes.topic_sizes admin)
  | topic_size_op t : Operation [] _ (Sizes.topic_size admin t)
  | list_groups_op : Operation [] _ (Groups.list_groups admin)
  | list_groups_filtered_op ss ts : Operation [] _ (Groups.list_groups_filtered admin ss ts)
  | describe_groups_op ids : Operation [] _ (Groups.describe_groups admin ids)
  | fetch_offsets_op id ps : Operation [] _ (Groups.fetch_offsets admin id ps)
  | reset_offsets_op id os : Operation Gate.RESET_OFFSETS _ (Groups.reset_offsets admin id os)
  | delete_offsets_op id ps : Operation Gate.DELETE_OFFSETS _ (Groups.delete_offsets admin id ps)
  | delete_groups_op ids : Operation Gate.DELETE_GROUPS _ (Groups.delete_groups admin ids)
  | list_transactions_op fs : Operation [] _ (TransactionsAdmin.list_transactions admin fs)
  | describe_transactions_op ids : Operation [] _ (TransactionsAdmin.describe_transactions admin ids)
  | describe_producers_op ps : Operation [] _ (TransactionsAdmin.describe_producers admin ps)
  | describe_acls_op f : Operation [] _ (Acls.describe_acls admin f)
  | create_acls_op bs : Operation Gate.CREATE_ACLS _ (Acls.create_acls admin bs)
  | delete_acls_op fs : Operation Gate.DELETE_ACLS _ (Acls.delete_acls admin fs)
  | describe_client_quotas_op f : Operation [] _ (Acls.describe_client_quotas admin f)
  | alter_client_quotas_op cs : Operation Gate.ALTER_CLIENT_QUOTAS _ (Acls.alter_client_quotas admin cs)
  | describe_scram_credentials_op us : Operation [] _ (Acls.describe_scram_credentials admin us)
  | upsert_scram_credentials_op us :
      Operation Gate.ALTER_SCRAM_CREDENTIALS _ (Acls.upsert_scram_credentials admin us)
  | delete_scram_credentials_op ds :
      Operation Gate.ALTER_SCRAM_CREDENTIALS _ (Acls.delete_scram_credentials admin ds)
  | create_delegation_token_op o :
      Operation Gate.CREATE_DELEGATION_TOKEN _ (Tokens.create_delegation_token admin o)
  | renew_delegation_token_op h p :
      Operation Gate.RENEW_DELEGATION_TOKEN _ (Tokens.renew_delegation_token admin h p)
  | expire_delegation_token_op h p :
      Operation Gate.EXPIRE_DELEGATION_TOKEN _ (Tokens.expire_delegation_token admin h p)
  | describe_delegation_tokens_op os : Operation [] _ (Tokens.describe_delegation_tokens admin os)
  | describe_principal_op p : Operation [] _ (Described.describe_principal admin p)
  | describe_authentication_op : Operation [] _ (Authentication.describe_authentication admin).

(** A request whose key is a read or declared, at a place its routing allows. *)
Ltac declared_here :=
  split; cbn [handed_key handed_to api_key may_go];
  [first [left; reflexivity | right; left]
  |cbv [may_go handed_key handed_to api_key Routing.routing]; first [exact I | reflexivity | eexists; reflexivity]].

Lemma operation_asks keys A m : Operation keys A m -> asks (declared keys) m.
Proof. intros []; asking; declared_here. Qed.

(** A handle that is scoped to the declared keys admits what the handle itself admits. *)
Lemma declared_in_scope keys h :
  declared keys h ->
  Gate.in_scope (handle (scoped admin keys)) (handed_key h) = Gate.in_scope (handle admin) (handed_key h).
Proof.
  intros [Hd _]. cbn [scoped handle]. rewrite GateFacts.in_scope_scoped, GateFacts.contains_from_iter.
  destruct Hd as [->|Hd]; [by rewrite andb_true_r|].
  rewrite bool_decide_eq_true_2 by by apply list_elem_of_fmap_2. by rewrite orb_true_r, andb_true_r.
Qed.

End operations.

End Operations.

(** ** Calls that answer every item *)

Module Answering.
Import Error Eff Wire Admin AdminTypes Reask ReaskFacts AdminFacts.

(** What a call returns has one outcome for each of some keys. *)
Definition answers_for {S K T} (m : M S (PerItem K T)) (keys : list K) : Prop :=
  forall s results s', m s = Some (Ok results, s') -> map fst results ≡ₚ keys.

Lemma taken_keys {I K A T} `{Countable K} (key : I -> K) (take : option A -> I -> result T Error) answers items :
  map fst (taken key take answers items) = items.
Proof. revert answers. induction items as [|i items IH]; intros answers; cbn; [done|]. by rewrite IH. Qed.

Section answering.
Context {W : Type} `{!AdminCluster W, !Pacing W, !KafkaProtocol, !Rpc.Messages}.
Context `{!Scram.Base64, !Scram.StringPrep, !Scram.StrDebug, !Scram.Crypto}.
Context (admin : Settings).

Lemma retrying_answers {K T} axis items (round : list K -> M (Session W) (PerItem K T)) :
  answering round -> answers_for (retrying admin axis items round) items.
Proof.
  intros Ha s results s'. unfold retrying, per_item_retrying, get_state.
  intros (rounds & Hn & Hm & -> & _)%reask_loop_narrows. by eapply answers_cover.
Qed.

Lemma renamed_answers {K L T} (m : M (Session W) (PerItem K T)) (f : K -> L) keys :
  answers_for m keys ->
  answers_for (let! results := m in ret (Ok (map (fun '(k, outcome) => (f k, outcome)) results))) (map f keys).
Proof.
  intros Hm s results s' (rs & s1 & Hr & [= <- <-])%try_inv. rewrite <- (Hm _ _ _ Hr), !map_map.
  erewrite map_ext; [done|]. by intros [].
Qed.

Lemma create_round_answers validate_only : answering (Topics.create_round (W := W) admin validate_only).
Proof.
  intros names s outcomes s' (c & s1 & _ & Hk)%try_inv. apply try_inv in Hk as (r & s2 & _ & [= <- <-]).
  by rewrite taken_keys.
Qed.

Lemma partitions_round_answers : answering (Topics.partitions_round (W := W) admin).
Proof. intros names s outcomes s' (r & s1 & _ & [= <- <-])%try_inv. by rewrite taken_keys. Qed.

Lemma commit_round_answers group_id generation : answering (Groups.commit_round (W := W) admin group_id generation).
Proof. intros names s outcomes s' (r & s1 & _ & [= <- <-])%try_inv. by rewrite taken_keys. Qed.

(** What was split by leader is what there was. *)
Lemma by_leader_inv {I T} (name : I -> string) (partition : I -> Z) items s (failed : PerItem I T) groups s' :
  Topics.by_leader (W := W) name partition (fun i => i) items s = Some (Ok (failed, groups), s') ->
  map fst failed ++ map snd (flat groups) ≡ₚ items.
Proof.
  unfold Topics.by_leader.
  assert (Hgen : forall f0 (g0 : gmap Z (list I)) s,
    fold_each (fun '(failed, groups) item =>
      let* leader := on_world (leader_for (name item) (partition item)) in
      match leader with
      | Ok leader => ret (Ok (failed, push_to groups leader item))
      | Err error => ret (Ok (failed ++ [(item, Err error)], groups))
      end) (f0, g0) items s = Some (Ok (failed, groups), s') ->
    map fst failed ++ map snd (flat groups) ≡ₚ (map fst f0 ++ map snd (flat g0)) ++ items).
  2: { intros Hr%Hgen. by rewrite Hr. }
  induction items as [|item items IH]; intros f0 g0 s0; cbn [fold_each].
  - intros [= <- <- <-]. by rewrite app_nil_r.
  - intros ([f1 g1] & s1 & Hb & Hk)%try_inv. rewrite (IH _ _ _ Hk). clear IH Hk.
    apply bind_inv in Hb as (leader & s2 & _ & Hb). destruct leader as [leader|error]; injection Hb as <- <- <-.
    + rewrite flat_push, map_app. cbn. by rewrite <- !app_assoc.
    + rewrite map_app. cbn. rewrite <- !app_assoc. cbn.
      apply Permutation_app_head. by rewrite Permutation_middle.
Qed.

(** A loop over the groups that answers each. *)
Lemma fold_groups_answers {I K T} (key : I -> K) (f : PerItem K T -> Z * list I -> M (Session W) (PerItem K T))
    (groups : gmap Z (list I)) r0 s results s' :
  (forall r g s r' s', f r g s = Some (Ok r', s') -> map fst r' ≡ₚ map fst r ++ map key g.2) ->
  fold_each f r0 (map_to_list groups) s = Some (Ok results, s') ->
  map fst results ≡ₚ map fst r0 ++ map key (map snd (flat groups)).
Proof.
  intros Hf. unfold flat. generalize (map_to_list groups) as l. intros l. revert r0 s.
  induction l as [|g l IH]; intros r0 s; cbn [fold_each flat_map].
  - intros [= <- <-]. cbn. by rewrite app_nil_r.
  - intros (r1 & s1 & E1 & Hk)%try_inv. rewrite (IH _ _ Hk), (Hf _ _ _ _ _ E1).
    destruct g as [leader group]. cbn. rewrite !map_app, !map_map. cbn. by rewrite app_assoc.
Qed.

Lemma offsets_round_answers isolation : answering (Offsets.offsets_round (W := W) admin isolation).
Proof.
  intros names s outcomes s' ([failed groups] & s1 & Hl & Hk)%try_inv.
  apply (fold_groups_answers (fun i => i)) in Hk.
  { rewrite Hk, map_id. by apply by_leader_inv in Hl. }
  intros r [leader group] s2 r' s2' Hb. apply bind_inv in Hb as (response & s3 & _ & Hb).
  rewrite map_id. destruct response as [topics|error]; injection Hb as <- <-; rewrite map_app; cbn.
  - by rewrite taken_keys.
  - by rewrite map_map, map_id.
Qed.

(** One request per item. *)
Lemma each_answers {K T} (f : K -> M (Session W) (K * result T Error)) keys s results s' :
  (forall k s item s', f k s = Some (Ok item, s') -> item.1 = k) ->
  each f keys s = Some (Ok results, s') -> map fst results = keys.
Proof.
  intros Hf. revert s results. induction keys as [|k keys IH]; intros s results; cbn [each].
  - by intros [= <- <-].
  - intros (item & s1 & E1 & Hk)%try_inv. apply try_inv in Hk as (rest & s2 & E2 & [= <- <-]).
    cbn. by rewrite (Hf _ _ _ _ E1), (IH _ _ E2).
Qed.

Lemma each_coordinator_answers {R T} kind (request : string -> Request R) (read : string -> R -> result T Error) ids :
  answers_for (Listings.each_coordinator (W := W) admin kind request read ids) ids.
Proof.
  intros s results s' Hr. unfold Listings.each_coordinator in Hr. apply each_answers in Hr as ->; [done|].
  intros id s1 item s2 Hb. by apply bind_inv in Hb as (r & s3 & _ & [= <- <-]).
Qed.

Lemma describe_newer_answers {R} key kind (request : string -> Request R) read listings ids :
  answers_for (Groups.describe_newer (W := W) admin key kind request read listings ids) ids.
Proof.
  intros s results s' Hr. unfold Groups.describe_newer in Hr. apply each_answers in Hr as ->; [done|].
  intros id s1 item s2 (supported & s3 & _ & Hb)%try_inv. destruct supported; cbn in Hb.
  - by apply bind_inv in Hb as (r & s4 & _ & [= <- <-]).
  - by injection Hb as <- <-.
Qed.

(** Every group is described by the api of its kind. *)
Lemma kinds_partition (listings : gmap string GroupListing) ids :
  omap (fun id => match Groups.kind_of (listings !! id) with Groups.AsOther _ => Some id | _ => None end) ids
  ++ Groups.of_kind listings (fun k => match k with Groups.AsClassic => true | _ => false end) ids
  ++ Groups.of_kind listings (fun k => match k with Groups.AsConsumer => true | _ => false end) ids
  ++ Groups.of_kind listings (fun k => match k with Groups.AsShare => true | _ => false end) ids ≡ₚ ids.
Proof.
  unfold Groups.of_kind. induction ids as [|id ids IH]; [done|]. cbn.
  etrans; [|by apply (perm_skip id), IH].
  destruct (Groups.kind_of _); cbn; solve_Permutation.
Qed.

Lemma describe_groups_answers ids : answers_for (Groups.describe_groups (W := W) admin ids) ids.
Proof.
  intros s results s'. unfold Groups.describe_groups.
  case_bool_decide as He; [intros [= <- <-]; by rewrite He|].
  intros (listed & s1 & _ & Hk)%bind_inv. revert Hk. cbv zeta.
  match goal with |- context [omap _ ids] => idtac end.
  generalize (collected (map (fun l => (gl_group_id l, l)) match listed with Ok listed => listed | Err _ => [] end)).
  intros listings (classic & s2 & Hc & Hk)%try_inv. apply try_inv in Hk as (consumer & s3 & Hco & Hk).
  apply try_inv in Hk as (share & s4 & Hs & [= <- <-]).
  unfold Groups.describe_classic_groups in Hc. apply each_coordinator_answers in Hc.
  apply describe_newer_answers in Hco, Hs.
  rewrite !map_app, Hc, Hco, Hs. rewrite <- (kinds_partition listings ids) at 5.
  apply Permutation_app_tail. clear. induction ids as [|id ids IH]; [done|]. cbn.
  destruct (Groups.kind_of _); cbn; by rewrite IH.
Qed.

Lemma create_topics_answers ts : answers_for (Topics.create_topics (W := W) admin ts) (map new_name ts).
Proof.
  intros s results s' (c & s1 & _ & Hk)%try_inv. case_bool_decide as Hl.
  - injection Hk as <- <-. by destruct ts.
  - apply (renamed_answers _ new_name ts) in Hk; [done|]. apply retrying_answers, create_round_answers.
Qed.

Lemma create_partitions_answers cs : answers_for (Topics.create_partitions (W := W) admin cs) (map fst cs).
Proof.
  intros s results s'. unfold Topics.create_partitions. case_bool_decide as Hc; [intros [= <- <-]; by rewrite Hc|].
  intros (rs & s1 & Hr & [= <- <-])%try_inv.
  apply (retrying_answers _ _ _ partitions_round_answers) in Hr. rewrite <- Hr, !map_map.
  erewrite map_ext; [done|]. by intros [[]].
Qed.

Lemma filter_negb {A} (f : A -> bool) l : List.filter (fun a => negb (f a)) l ++ List.filter f l ≡ₚ l.
Proof.
  induction l as [|a l IH]; [done|]. cbn. destruct (f a); cbn; [by rewrite <- Permutation_middle, IH|by rewrite IH].
Qed.

Lemma list_offsets_answers rs isolation :
  answers_for (Offsets.list_offsets_with (W := W) admin rs isolation) (map fst rs).
Proof.
  intros s results s' (negotiated & s1 & _ & Hk)%try_inv. apply try_inv in Hk as (asked & s2 & Hr & [= <- <-]).
  apply (retrying_answers _ _ _ (offsets_round_answers isolation)) in Hr.
  rewrite map_app. unfold Offsets.refused. rewrite !map_map. cbn [fst].
  rewrite <- (filter_negb (Offsets.reachable_spec negotiated) rs) at 2. rewrite map_app.
  apply Permutation_app_head. rewrite <- Hr, map_map. erewrite map_ext; [done|]. by intros [].
Qed.

Lemma reset_offsets_answers id os :
  answers_for (Groups.reset_offsets (W := W) admin id os) (map (fun r => (reset_topic r, reset_partition r)) os).
Proof.
  intros s results s'. unfold Groups.reset_offsets. case_bool_decide as Ho; [intros [= <- <-]; by destruct os|].
  intros (described & s1 & _ & Hk)%try_inv. apply try_inv in Hk as (d & s2 & _ & Hk).
  destruct (negb _); [done|]. apply try_inv in Hk as (g & s3 & _ & Hk).
  apply (renamed_answers _ _ os) in Hk; [done|]. apply retrying_answers, commit_round_answers.
Qed.

(** What was grouped is what there was. *)
Lemma grouped_flat {A K V} `{Countable K} (key : A -> K) (value : A -> V) l :
  flat (grouped key value l) ≡ₚ map (fun a => (key a, value a)) l.
Proof.
  unfold grouped. induction l as [|a l IH] using rev_ind; [done|].
  rewrite foldl_snoc, flat_push, IH, map_app. done.
Qed.

(** What [reset_offsets] commits, and when. *)
Lemma reset_commits id offsets s r s' :
  Groups.reset_offsets (W := W) admin id offsets s = Some (r, s') ->
  exists l, asked s' = asked s ++ l
    /\ Forall (fun h => handed_key h = ApiKey.OffsetCommit ->
         (exists s1 d rest, Groups.describe_groups admin [id] s = Some (Ok ((id, Ok d) :: rest), s1)
            /\ state_is_empty (described_state d) = true /\ is_ok (Groups.generation_or_epoch d) = true)
         /\ exists subset, subset ⊆+ offsets
            /\ h = handed (Cluster.Coordinator Routing.Group id) (Groups.commit_request id (-1) subset)
            /\ flat (grouped reset_topic Groups.commit_entry subset)
               ≡ₚ map (fun o => (reset_topic o, Groups.commit_entry o)) subset) l.
Proof.
  match goal with |- _ -> exists l, _ /\ Forall ?F l => change (Groups.reset_offsets admin id offsets s = Some (r, s')
    -> extends F s s'); set (P := F) end.
  unfold Groups.reset_offsets. case_bool_decide as Ho; [by intros [= <- <-]|].
  assert (Hd : asks P (Groups.describe_groups admin [id])).
  { intros s1 r1 s2 E. destruct (Operations.operation_asks _ _ _ _ (Operations.describe_groups_op admin [id]) _ _ _ E)
      as (l & El & Hl). exists l. split; [exact El|]. apply (Forall_impl _ _ _ Hl). intros h [[Hm|Hm] _] Hk.
    - by rewrite Hk in Hm.
    - by apply elem_of_nil in Hm. }
  unfold try_ at 1, bind at 1. destruct (Groups.describe_groups admin [id] s) as [[[described|e] s1]|] eqn:Ed; [|by intros [= <- <-]; eapply Hd|done].
  intros Hk. etrans; [by eapply Hd|].
  apply describe_groups_answers in Ed as Hkeys. revert Hk.
  destruct described as [|[id' [d|e]] rest]; [by apply Permutation_nil in Hkeys| |by intros [= <- <-]].
  assert (id' = id) as -> by (apply Permutation_singleton_r in Hkeys; by injection Hkeys).
  unfold try_ at 1, bind at 1, ret at 1. destruct (state_is_empty (described_state d)) eqn:Es; cbn [negb]; [|by intros [= <- <-]].
  destruct (Groups.generation_or_epoch d) as [generation|e] eqn:Eg; [|by intros [= <- <-]].
  unfold try_ at 1, bind at 1, ret at 1.
  match goal with |- ?m s1 = _ -> _ => enough (Hm : asks P m) by apply Hm end.
  apply asks_try; [|intros committed; apply asks_ret].
  apply (asks_retrying _ _ _ (fun subset => subset ⊆+ offsets)); [|intros names s2 outcomes s3 spent Hn Hr|done].
  - intros names Hn. apply asks_try; [|intros response; apply asks_ret]. apply asks_call. intros _.
    split; [exists s1, d, rest; by rewrite Eg|]. exists names. split; [done|]. split; [|apply grouped_flat].
    assert (generation = -1) as -> by (destruct d; by simplify_eq/=). done.
  - etrans; [|exact Hn]. eapply left_over_submseteq, Hr. apply commit_round_answers.
Qed.

End answering.

End Answering.

(** ** Credentials *)

Module CredentialFacts.
Import Error Eff Wire Admin Security Acls AdminFacts.

Section credentials.
Context {W : Type} `{!AdminCluster W, !Pacing W, !KafkaProtocol, !Rpc.Messages}.
Context `{!Scram.Base64, !Scram.StringPrep, !Scram.StrDebug, !Scram.Crypto}.
Context (admin : Settings).

(** What an upsertion carries for a credential. *)
Definition carries (u : ScramUpsert) (w : ScramUpsertion) : Prop :=
  su_name w = upsert_user u /\ su_mechanism w = scram_code (upsert_mechanism u)
  /\ su_iterations w = upsert_iterations u /\ Scram.MIN_ITERATIONS <= upsert_iterations u
  /\ Scram.salted_password (scram_hash (upsert_mechanism u)) (upsert_password u) (su_salt w) (su_iterations w)
     = Ok (su_salted_password w).

Lemma upsertion_carries u s w s' : upsertion (W := W) u s = Some (Ok w, s') -> carries u w /\ asked s' = asked s.
Proof.
  unfold upsertion. destruct (Z.ltb_spec (upsert_iterations u) 4096) as [Hi|Hi]; [done|].
  intros (salt & s1 & Hsalt & Hk)%try_inv. apply try_inv in Hk as (salted & s2 & Hs & [= <- <-]).
  destruct (random_salt (world s)) as [salt' w']. injection Hsalt as -> <-. injection Hs as Hs <-.
  split; [|done]. split_and!; done.
Qed.

Lemma each_upsertion us s ws s' :
  each (upsertion (W := W)) us s = Some (Ok ws, s') -> Forall2 carries us ws /\ asked s' = asked s.
Proof.
  revert s ws. induction us as [|u us IH]; intros s ws; cbn [each].
  - intros [= <- <-]. by split.
  - intros (w & s1 & Hu & Hk)%try_inv. apply try_inv in Hk as (rest & s2 & Hr & [= <- <-]).
    apply upsertion_carries in Hu as [Hc E1]. apply IH in Hr as [Hf E2]. split; [by constructor|congruence].
Qed.

(** A call that answers has handed one request with all of the credentials. *)
Lemma upsert_hands us s results s' :
  us <> [] -> upsert_scram_credentials (W := W) admin us s = Some (Ok results, s') ->
  exists ws, Forall2 carries us ws
    /\ asked s' = asked s ++ [handed Cluster.Any (AlterUserScramCredentials [] ws)].
Proof.
  intros Hne. unfold upsert_scram_credentials. rewrite bool_decide_eq_false_2 by (by destruct us).
  intros (ws & s1 & Hw & Hk)%try_inv. apply each_upsertion in Hw as [Hf E]. exists ws. split; [done|].
  apply try_inv in Hk as (response & s2 & Hc & [= _ <-]).
  unfold send_any, call, try_, bind, put in Hc. destruct (negb _); [done|].
  unfold on_world in Hc. destruct (send _ _ _) as [[r w]|]; [|done]. injection Hc as _ <-. cbn. by rewrite E.
Qed.

End credentials.

End CredentialFacts.

(** ** Verdicts on how a principal logs in *)

Module AuthenticationFacts.
Import Error AdminTypes Security Described Authentication.

Lemma elem_of_dedup (ms known : list AuthMechanism) m :
  m ∈ foldl (fun known m => if bool_decide (m ∈ known) then known else known ++ [m]) known ms <-> m ∈ known \/ m ∈ ms.
Proof.
  revert known. induction ms as [|x ms IH]; intros known; cbn [foldl].
  - rewrite elem_of_nil. tauto.
  - rewrite IH, elem_of_cons. case_bool_decide as Hx; [|rewrite elem_of_app, list_elem_of_singleton; tauto].
    split; [tauto|]. intros [H|[->|H]]; auto.
Qed.

Definition for_clients (cluster : ClusterAuthentication) (l : ListenerAuth) : Prop :=
  l ∈ listeners cluster /\ is_inter_broker l = false /\ is_controller l = false.

(** What clients are offered is what the listeners for them accept. *)
Lemma offered_spec cluster m :
  m ∈ client_mechanisms cluster <-> exists l, for_clients cluster l /\ m ∈ mechanisms l.
Proof.
  unfold client_mechanisms, client_listeners, for_clients. rewrite elem_of_dedup, elem_of_nil.
  rewrite list_elem_of_In, in_concat. split.
  - intros [[]|(ms & (l & <- & Hl)%in_map_iff & Hm)]. apply filter_In in Hl as [Hl [Hi Hc]%andb_true_iff].
    apply negb_true_iff in Hi, Hc. exists l. by rewrite !list_elem_of_In.
  - intros (l & (Hl & Hi & Hc) & Hm). right. exists (mechanisms l). split; [|by apply list_elem_of_In].
    apply in_map, filter_In. rewrite Hi, Hc. split; [by apply list_elem_of_In|done].
Qed.

Lemma stored_spec self offered m :
  m ∈ stored self offered ->
  (m ∈ offered /\ exists h infos, m = Scram h /\ scram self = Ok infos /\ h ∈ map mechanism infos)
  \/ (m = ByToken /\ (exists h, Scram h ∈ offered) /\ exists t ts, tokens self = Ok (t :: ts)).
Proof.
  unfold stored. rewrite elem_of_app. intros [Hm|Hm].
  - left. apply list_elem_of_In, filter_In in Hm as [Hm Ho%bool_decide_eq_true]. split; [done|].
    apply in_map_iff in Hm as (h & <- & Hh). unfold scram_mechanisms in Hh.
    destruct (scram self) as [infos|e]; [|done]. exists h, infos. by rewrite list_elem_of_In.
  - right. destruct (some_of (tokens self) && existsb is_scram offered) eqn:E; [|by apply elem_of_nil in Hm].
    apply list_elem_of_singleton in Hm as ->. apply andb_true_iff in E as [Et (x & Hx & Ex)%existsb_exists].
    split; [done|]. destruct x as [h| | | | | |]; try done. split; [exists h; by apply list_elem_of_In|].
    destruct (tokens self) as [[|t ts]|e]; try done. by eexists _, _.
Qed.

Ltac verdict_cases :=
  unfold likely_mechanism; repeat (case_match; cbn [candidates basis]); try done.

Lemma candidates_justified self cluster :
  Forall (fun m =>
    (exists l, l ∈ listeners cluster /\ is_inter_broker l = false /\ is_controller l = false
       /\ (m ∈ mechanisms l \/ (m = ByToken /\ exists h, Scram h ∈ mechanisms l)))
    /\ match m with
       | Scram h => exists infos, scram self = Ok infos /\ h ∈ map mechanism infos
       | ByToken => exists t ts, tokens self = Ok (t :: ts)
       | _ => True
       end) (candidates (likely_mechanism self cluster)).
Proof.
  assert (Hoffered : forall m, m ∈ client_mechanisms cluster ->
    exists l, l ∈ listeners cluster /\ is_inter_broker l = false /\ is_controller l = false
       /\ (m ∈ mechanisms l \/ (m = ByToken /\ exists h, Scram h ∈ mechanisms l))).
  { intros m (l & (Hl & Hi & Hc) & Hm)%offered_spec. exists l. auto. }
  verdict_cases; apply Forall_forall; intros m Hm.
  - apply stored_spec in Hm as [[Ho (h & infos & -> & Hs)]|(-> & (h & Hh) & Ht)].
    + split; [by apply Hoffered|by exists infos].
    + apply offered_spec in Hh as (l & (Hl & Hi & Hc) & Hm). split; [|done]. exists l. eauto 10.
  - apply list_elem_of_singleton in Hm as ->. split; [|done]. apply Hoffered.
    match goal with E : bool_decide (MutualTls ∈ _) && _ = true |- _ => apply andb_true_iff in E as [E _] end.
    by eapply bool_decide_eq_true.
  - apply list_elem_of_In, filter_In in Hm as [[Hm Hn]%filter_In _]. split; [by apply Hoffered, list_elem_of_In|].
    by destruct m.
Qed.

Lemma elimination_keeps self cluster :
  basis (likely_mechanism self cluster) = Elimination ->
  store_answered (scram self) = true /\ store_answered (tokens self) = true
  /\ forall l m, l ∈ listeners cluster -> is_inter_broker l = false -> is_controller l = false ->
       m ∈ mechanisms l -> needs_stored_credential m = false ->
       m ∈ candidates (likely_mechanism self cluster)
       \/ (m = MutualTls /\ is_distinguished_name (described self) = false
           /\ maps_certificates_to_subjects cluster = true).
Proof.
  verdict_cases. intros _.
  match goal with E : negb _ || negb _ = false |- _ =>
    apply orb_false_iff in E as [Es%negb_false_iff Et%negb_false_iff] end.
  split; [done|]. split; [done|]. intros l m Hl Hi Hc Hm Hn.
  destruct (negb (is_distinguished_name (described self)) && maps_certificates_to_subjects cluster
            && bool_decide (m = MutualTls)) eqn:Em.
  - right. apply andb_true_iff in Em as [[Ed%negb_true_iff Emap]%andb_true_iff Em%bool_decide_eq_true]. done.
  - left. apply list_elem_of_In, filter_In. split; [|by rewrite Em]. apply filter_In. rewrite Hn. split; [|done].
    apply list_elem_of_In, offered_spec. exists l. by split.
Qed.

End AuthenticationFacts.
