(* ===== verification/AdminProperties.v ===== *)
(** What the admin client does with a cluster: what its operations send, what they answer,
    when offsets are reset, and what its credentials are good for. *)

From stdpp Require Import sorting.
From S2P Require Import Prelude Sanitize Text ErrorCodes Scram ScramFacts ApiKeys Retry Effects Reask BatchDecode Rpc Connect Metadata Cluster AdminTypes AdminMessages AdminTopics AdminSizes AdminGroups AdminSecurity AdminAuthentication AdminFacts.
From Stdlib Require Import QArith.
Open Scope Z_scope.

(** ** A cluster that answers from a script *)

Module AdminDemo.
Import Error Eff Wire Admin AdminTypes.

#[export] Instance demo_codes : KafkaProtocol := {| try_from_code c := None; is_retriable _ := false |}.
#[export] Instance demo_messages : Rpc.Messages := {|
  Rpc.VERSIONS _ := {| Versions.min := 0; Versions.max := 9 |};
  Rpc.protocol_key_exists _ := true;
  Rpc.request_header_version _ _ := 1;
  Rpc.response_header_version _ _ := 0;
  Rpc.encode_header _ _ := Ok [];
  Rpc.decode_header frame _ := Ok frame |}.

(** One broker, the state its one group is in, a clock, and salts. A broker that closes the
    connection on a listing answers of a group that no classic one is that it is dead. *)
Record DemoWorld : Type := { group_state : string; ticks : Z }.

Definition demo_snapshot : Metadata.MetadataSnapshot :=
  Metadata.new 0 [{| Metadata.node_id := 1; Metadata.host := text_of_string "broker"; Metadata.port := 9092;
                     Metadata.rack := None |}] [] (Some 1) None.

Definition demo_send {R} (target : Cluster.Target) (request : Request R) : M DemoWorld R :=
  match request in Request R return M DemoWorld R with
  | ListGroups _ _ => get_state (fun w =>
      if String.eqb (group_state w) "Dead" then ret (Err (ConnectionClosed "broker:9092"))
      else ret (Ok (coded tt 0 [{| row_id := "g"; row_state := group_state w; row_type := text_of_string "Classic";
                              row_protocol_type := "consumer" |}])))
  | DescribeGroups ids _ => get_state (fun w =>
      ret (Ok (map (fun id => answer id 0 None
                 {| cla_state := group_state w; cla_protocol_type := "consumer"; cla_protocol := "range";
                    cla_members := [] |}) ids)))
  | OffsetCommit _ _ _ topics =>
      ret (Ok (map (fun '(name, entries) => (name, map (fun e => coded (ce_partition e) 0 tt) entries)) topics))
  | AlterUserScramCredentials _ upsertions => ret (Ok (map (fun u => answer (su_name u) 0 None tt) upsertions))
  | _ => ret (Err (ConnectionClosed "broker:9092"))
  end.

#[export] Instance demo_cluster : AdminCluster DemoWorld := {|
  send R := demo_send (R := R);
  refresh := ret (Ok demo_snapshot);
  refresh_topics _ := ret (Ok demo_snapshot);
  refresh_if_stale := ret (Ok demo_snapshot);
  leader_for _ _ := ret (Ok 1);
  invalidate_coordinator _ _ w := w;
  any_connection := ret (Err (ConnectionClosed "broker:9092"));
  random_salt w := ([z2b 1; z2b 2], w) |}.

#[export] Instance demo_pacing : Pacing DemoWorld := {|
  now := ticks;
  jitter_sample w := (0%Q, w);
  sleep d w := {| group_state := group_state w; ticks := ticks w + d |} |}.

Definition demo_admin : Settings := {|
  handle := {| Gate.connection := {| Gate.read_only := false; Gate.allowed_mutations := None |}; Gate.scope := None |};
  policy := Retry.default_policy;
  request_timeout := 30000000000;
  fuel := 5 |}.

(** A session with a group in some state. *)
Definition demo_session (state : string) : Session DemoWorld :=
  {| world := {| group_state := state; ticks := 0 |}; asked := [] |}.

Definition demo_resets : list OffsetReset := [new_reset "orders" 0 5; new_reset "orders" 1 7; new_reset "bills" 0 1].

End AdminDemo.

(** ** Properties *)

Module AdminProperties.
Import ScramServer ScramFacts Error Eff Wire Admin AdminTypes Reask ReaskFacts AdminFacts Operations Answering.

Section properties.
Context {W : Type} `{!AdminCluster W, !Pacing W, !KafkaProtocol, !Rpc.Messages}.
Context `{!Scram.Base64, !Scram.StringPrep, !Scram.StrDebug, !Scram.Crypto}.
Context (admin : Settings).

(** The numbering of each part of an ACL. *)
Lemma resource_codes c t : Security.resource_from_code c = Some t -> Security.resource_code t = c.
Proof. unfold Security.resource_from_code. repeat case_match; intros; by simplify_eq/=. Qed.
Lemma pattern_codes c t : Security.pattern_from_code c = Some t -> Security.pattern_code t = c.
Proof. unfold Security.pattern_from_code. repeat case_match; intros; by simplify_eq/=. Qed.
Lemma permission_codes c t : Security.permission_from_code c = Some t -> Security.permission_code t = c.
Proof. unfold Security.permission_from_code. repeat case_match; intros; by simplify_eq/=. Qed.
Lemma operation_codes c : Security.operation_code (Security.operation_from_code c) = c.
Proof. unfold Security.operation_from_code. by repeat case_match. Qed.

(** *** A broker's credentials

    Kafka numbers the mechanisms and names them in the handshake; a broker keeps a
    credential for each user and number of a request, and finds it again by the name
    of the mechanism and the user in the client's first message. *)

Definition hash_of_code (code : Z) : option Scram.ScramHash :=
  match code with 1 => Some Scram.Sha256 | 2 => Some Scram.Sha512 | _ => None end.

Definition code_of_name (mechanism : text) : option Z :=
  if bool_decide (mechanism = text_of_string "SCRAM-SHA-256") then Some 1
  else if bool_decide (mechanism = text_of_string "SCRAM-SHA-512") then Some 2 else None.

(** The keys of the salted password. *)
Definition broker_stores (h : Scram.ScramHash) (w : ScramUpsertion) : Credential := {|
  cr_hash := h; cr_salt := su_salt w;
  stored_key := Scram.sha_digest h (Scram.hmac_finalize h (su_salted_password w) (Scram.ascii "Client Key"));
  server_key := Scram.hmac_finalize h (su_salted_password w) (Scram.ascii "Server Key") |}.

Definition broker_keeps (ws : list ScramUpsertion) : gmap (text * Z) Credential :=
  list_to_map (omap (fun w => h ← hash_of_code (su_mechanism w);
                              Some ((su_name w, su_mechanism w), broker_stores h w)) ws).

(** The user a client's first message names. *)
Definition login_user (client_first_bare : text) : option text :=
  match Str.split 44 client_first_bare with
  | (110 :: 61 :: name) :: _ => Some (unescape name)
  | _ => None
  end.

Definition broker_finds (kept : gmap (text * Z) Credential) (mechanism client_first_bare : text)
    : option Credential :=
  code ← code_of_name mechanism;
  user ← login_user client_first_bare;
  kept !! (user, code).

Lemma broker_stores_what_new_uses h username password nonce extensions client w :
  Scram.new h username password nonce extensions = Ok client ->
  Scram.salted_password h password (su_salt w) (su_iterations w) = Ok (su_salted_password w) ->
  broker_stores h w = store h (Scram.password client) (su_salt w) (su_iterations w).
Proof.
  intros (u & p & _ & Hp & _ & _ & ->)%new_Ok. unfold Scram.salted_password, Scram.saslprep. rewrite Hp.
  cbn. intros [= E]. unfold broker_stores, store. by rewrite <- E.
Qed.

(** The first message of a client names the user it was made for, prepared. *)
Lemma login_user_of h username password nonce extensions client user :
  Scram.new h username password nonce extensions = Ok client ->
  Scram.stringprep_saslprep username = Ok user ->
  login_user (Scram.client_first_bare client) = Some user.
Proof.
  intros (u & p & Hu & _ & Hn & Hx & ->)%new_Ok. rewrite Hu. intros [= ->].
  unfold login_user. cbn [Scram.client_first_bare]. rewrite TextFacts.split_join.
  - change (Some (unescape (Scram.escape_username user)) = Some user). by rewrite unescape_escape.
  - repeat constructor.
    + rewrite not_elem_of_app. split; [TextFacts.by_evaluation|apply escape_no_comma].
    + rewrite not_elem_of_app. split; [TextFacts.by_evaluation|done].
    + by apply Forall_map.
Qed.

(** Of credentials for different users or mechanisms, each is kept. *)
Lemma kept_credential us ws i u w :
  Forall2 CredentialFacts.carries us ws ->
  NoDup (map (fun u => (Security.upsert_user u, Security.upsert_mechanism u)) us) ->
  us !! i = Some u -> ws !! i = Some w ->
  broker_keeps ws !! (Security.upsert_user u, Security.scram_code (Security.upsert_mechanism u))
  = Some (broker_stores (Acls.scram_hash (Security.upsert_mechanism u)) w).
Proof.
  intros Hf Hnd Hu Hw. unfold broker_keeps.
  assert (Hcode : forall m, hash_of_code (Security.scram_code m) = Some (Acls.scram_hash m)) by by intros [].
  assert (Hinj : forall m m', Security.scram_code m = Security.scram_code m' -> m = m') by by intros [] [].
  apply elem_of_list_to_map_1.
  - replace (fmap fst _) with (map (fun k => (k.1, Security.scram_code k.2))
      (map (fun u => (Security.upsert_user u, Security.upsert_mechanism u)) us)).
    + apply NoDup_fmap_2; [|done]. intros [x m] [x' m']. cbn. intros [= -> E]. f_equal. by apply Hinj.
    + clear Hnd Hu Hw. induction Hf as [|x y us' ws' (En & Em & _) _ IH]; [done|].
      cbn [map omap list_omap]. rewrite Em, Hcode. cbn. by rewrite En, <- IH.
  - destruct (Forall2_lookup_lr _ _ _ _ _ _ Hf Hu Hw) as (En & Em & _).
    apply list_elem_of_omap. exists w. split; [by eapply list_elem_of_lookup_2|].
    rewrite En, Em, Hcode. done.
Qed.

(** C12: An operation sends what it declares. Whatever a call of the admin client hands to
    the cluster is a read or has a key of its constant in [ops.rs], and goes where the
    routing table wants it: to the controller, to a coordinator, to a broker by its id. So a handle
    scoped to the constant refuses it nothing that the handle itself would not refuse. *)
Theorem operations_send_what_they_declare keys A (m : M (Session W) A) s r s' :
  Operation admin keys A m -> m s = Some (r, s') ->
  exists l, asked s' = asked s ++ l
    /\ Forall (fun h =>
         (ApiKey.is_mutating (handed_key h) = false \/ handed_key h ∈ keys)
         /\ may_go h
         /\ Gate.in_scope (handle (scoped admin keys)) (handed_key h)
            = Gate.in_scope (handle admin) (handed_key h)) l.
Proof.
  intros Hop Hm. apply operation_asks in Hop. destruct (Hop _ _ _ Hm) as (l & E & Hl).
  exists l. split; [done|]. apply (Forall_impl _ _ _ Hl). intros h Hd.
  split; [apply Hd|]. split; [apply Hd|]. by apply declared_in_scope.
Qed.

(** Every item is answered. The calls that create topics, grow them, list
    and reset offsets, and describe or delete groups and transactions return one outcome
    for each item they were given, whatever the cluster answers. *)
Theorem admin_answers_every_item :
  (forall ts, answers_for (Topics.create_topics (W := W) admin ts) (map new_name ts))
  /\ (forall cs, answers_for (Topics.create_partitions (W := W) admin cs) (map fst cs))
  /\ (forall rs i, answers_for (Offsets.list_offsets_with (W := W) admin rs i) (map fst rs))
  /\ (forall id os, answers_for (Groups.reset_offsets (W := W) admin id os)
                      (map (fun r => (reset_topic r, reset_partition r)) os))
  /\ (forall ids, answers_for (Groups.describe_groups (W := W) admin ids) ids)
  /\ (forall ids, answers_for (Groups.delete_groups (W := W) admin ids) ids)
  /\ (forall ids, answers_for (TransactionsAdmin.describe_transactions (W := W) admin ids) ids).
Proof.
  split_and!.
  - apply create_topics_answers.
  - apply create_partitions_answers.
  - apply list_offsets_answers.
  - apply reset_offsets_answers.
  - apply describe_groups_answers.
  - intros ids. apply each_coordinator_answers.
  - intros ids. apply each_coordinator_answers.
Qed.

(** C26: A credential that was written logs in. A call of [upsert_scram_credentials]
    that answers has handed the cluster one request with a credential for each upsert. Take a
    broker that keeps those of a request under their user and mechanism, as Kafka numbers
    and names them, for upserts of which no two have both the same. A client of a user name that SASLprep turns into the
    upsert's, with its mechanism and its password, is then found its credential, authenticated
    by it, and authenticates the broker, if the upsert's iteration count is one that a client
    accepts, at most [MAX_ITERATIONS]. *)
Theorem upserted_credentials_log_in `{!Base64Laws, !CryptoLaws} us s results s' :
  us <> [] -> Acls.upsert_scram_credentials (W := W) admin us s = Some (Ok results, s') ->
  exists ws, asked s' = asked s ++ [handed Cluster.Any (AlterUserScramCredentials [] ws)]
    /\ length ws = length us
    /\ (NoDup (map (fun u => (Security.upsert_user u, Security.upsert_mechanism u)) us) ->
        forall i u username nonce extensions client server_nonce count,
         us !! i = Some u ->
         let hash := Acls.scram_hash (Security.upsert_mechanism u) in
         Scram.stringprep_saslprep username = Ok (Security.upsert_user u) ->
         Scram.new hash username (Security.upsert_password u) nonce extensions = Ok client ->
         Utf8.valid nonce -> Utf8.valid server_nonce -> 44 ∉ server_nonce -> server_nonce <> [] ->
         Utf8.valid count -> 44 ∉ count -> Str.parse_u32 count = Ok (Security.upsert_iterations u) ->
         Security.upsert_iterations u <= Scram.MAX_ITERATIONS ->
         exists cred, broker_finds (broker_keeps ws) (Scram.mechanism hash) (Scram.client_first_bare client) = Some cred
           /\ let first := server_first cred nonce server_nonce count in
              exists proof answer client',
                Scram.client_final client (Utf8.as_bytes first) = (Ok proof, client')
                /\ respond cred (Scram.client_first_bare client) first (nonce ++ server_nonce) proof = Some answer
                /\ Scram.verify_server_final client' (Utf8.as_bytes answer) = Ok tt).
Proof.
  intros Hne Hc. apply CredentialFacts.upsert_hands in Hc as (ws & Hf & Ha); [|done].
  exists ws. split; [done|]. split; [by rewrite (Forall2_length _ _ _ Hf)|].
  intros Hnd i u username nonce extensions client server_nonce count Hu hash Hprep Hnew ? ? ? ? ? ? Hp Hmax.
  destruct (Forall2_lookup_l _ _ _ _ _ Hf Hu) as (w & Hw & _ & _ & Hi & Hmin & Hs).
  exists (broker_stores hash w). split.
  - unfold broker_finds. rewrite (login_user_of _ _ _ _ _ _ _ Hnew Hprep).
    assert (Hcode : code_of_name (Scram.mechanism hash) = Some (Security.scram_code (Security.upsert_mechanism u)))
      by (unfold hash; by destruct (Security.upsert_mechanism u)).
    rewrite Hcode. cbn [mbind option_bind]. by apply (kept_credential us ws i).
  - assert (Hcred : broker_stores hash w = store hash (Scram.password client) (su_salt w) (su_iterations w))
      by (by eapply broker_stores_what_new_uses).
    rewrite Hcred, Hi. by eapply ScramProperties.scram_exchange_succeeds.
Qed.

(** The size of a topic is the sum of what its log directories hold. The rows are
    all entries of the topic, in order; the replicated size adds up every copy but those that are
    being moved within a broker; and the logical size adds up the leaders' copies, if no
    partition has two. *)
Theorem topic_size_is_the_sum per_broker leaders name :
  let entries := Sizes.entries_of per_broker in
  let size := Sizes.finish (default Sizes.no_sizes (Sizes.fold per_broker leaders !! name)) name in
  ts_replicas size ≡ₚ map (SizesFacts.row leaders) (List.filter (SizesFacts.of_topic name) entries)
  /\ Sorted.Sorted Sizes.row_le (ts_replicas size)
  /\ replicated_bytes size
     = i64_wrap (sum_with (fun e => size_bytes e.2)
         (List.filter (fun e => bool_decide (dir_topic e.2 = name) && negb (is_future e.2)) entries))
  /\ (NoDup (map (fun e => dir_partition e.2) (List.filter (SizesFacts.leading leaders name) entries)) ->
      logical_bytes size
      = i64_wrap (sum_with (fun e => size_bytes e.2) (List.filter (SizesFacts.leading leaders name) entries))).
Proof.
  intros entries size. destruct (SizesFacts.fold_adds_up leaders name entries) as [Hr _ Hs Hl _].
  destruct (SizesFacts.finish_sums (default Sizes.no_sizes (foldl (SizesFacts.add_entry leaders) ∅ entries !! name)) name)
    as [Elog Erep].
  split; [|split]; [| |split].
  - rewrite <- Hr. apply merge_sort_Permutation.
  - apply SizesFacts.rows_sorted.
  - etrans; [exact Erep|]. by apply SizesFacts.i64_wrap_mod.
  - intros Hnd. etrans; [exact Elog|]. by rewrite (Hl Hnd).
Qed.

(** What was described is what is deleted. An exact filter for an ACL that a cluster
    described pins the codes and names the cluster sent, and a binding that is
    created carries them, if this build knows the codes of its type, its pattern and its permission. *)
Theorem exact_filters_pin_what_was_described r :
  is_Some (Security.resource_from_code (ar_type r)) -> is_Some (Security.pattern_from_code (ar_pattern r)) ->
  is_Some (Security.permission_from_code (ac_permission (ar_acls r))) ->
  let binding := Acls.binding_of r in
  Acls.filter_fields (Security.exact binding) = {|
    ff_type := ar_type r; ff_name := Some (ar_name r); ff_pattern := ar_pattern r;
    ff_principal := Some (ac_principal (ar_acls r)); ff_host := Some (ac_host (ar_acls r));
    ff_operation := ac_operation (ar_acls r); ff_permission := ac_permission (ar_acls r) |}
  /\ Acls.creation binding = {|
    cr_type := ar_type r; cr_name := ar_name r; cr_pattern := ar_pattern r;
    cr_principal := ac_principal (ar_acls r); cr_host := ac_host (ar_acls r);
    cr_operation := ac_operation (ar_acls r); cr_permission := ac_permission (ar_acls r) |}.
Proof.
  intros [t Ht] [p Hp] [a Ha] binding. unfold binding, Acls.filter_fields, Security.exact, Acls.creation, Acls.binding_of.
  cbn. rewrite Ht, Hp, Ha. cbn.
  by rewrite (resource_codes _ _ Ht), (pattern_codes _ _ Hp), (permission_codes _ _ Ha), operation_codes.
Qed.

(** What is said of how a principal logs in. Every mechanism that a verdict names is
    offered by a listener for clients, a token by way of SCRAM; one that needs a stored
    credential is only named if the cluster stores it; and where a verdict is reached by elimination, both
    stores were read, and it leaves out nothing that is offered and needs no stored
    credential, but certificates for a name that is no subject under the default rules. *)
Theorem verdicts_are_justified self cluster :
  let verdict := Authentication.likely_mechanism self cluster in
  Forall (fun m =>
    (exists l, l ∈ Authentication.listeners cluster /\ Authentication.is_inter_broker l = false
       /\ Authentication.is_controller l = false
       /\ (m ∈ Authentication.mechanisms l
           \/ (m = Authentication.ByToken /\ exists h, Authentication.Scram h ∈ Authentication.mechanisms l)))
    /\ match m with
       | Authentication.Scram h => exists infos, Described.scram self = Ok infos /\ h ∈ map Security.mechanism infos
       | Authentication.ByToken => exists t ts, Described.tokens self = Ok (t :: ts)
       | _ => True
       end) (Authentication.candidates verdict)
  /\ (Authentication.basis verdict = Authentication.Elimination ->
      Authentication.store_answered (Described.scram self) = true
      /\ Authentication.store_answered (Described.tokens self) = true
      /\ forall l m, l ∈ Authentication.listeners cluster -> Authentication.is_inter_broker l = false ->
           Authentication.is_controller l = false -> m ∈ Authentication.mechanisms l ->
           Authentication.needs_stored_credential m = false ->
           m ∈ Authentication.candidates verdict
           \/ (m = Authentication.MutualTls /\ is_distinguished_name (Described.described self) = false
               /\ Authentication.maps_certificates_to_subjects cluster = true)).
Proof.
  intros verdict. split; [apply AuthenticationFacts.candidates_justified|apply AuthenticationFacts.elimination_keeps].
Qed.

(** C13: Offsets are reset for an empty group only. A call of [reset_offsets] commits only
    if the group was described, at the same call, as without members and of a kind that commits so; each
    of its commits goes to the group's coordinator, as no member, with entries that
    are exactly those of some of the resets asked for. *)
Theorem reset_needs_an_empty_group id offsets s r s' :
  Groups.reset_offsets (W := W) admin id offsets s = Some (r, s') ->
  exists l, asked s' = asked s ++ l
    /\ Forall (fun h => handed_key h = ApiKey.OffsetCommit ->
         (exists s1 d rest, Groups.describe_groups admin [id] s = Some (Ok ((id, Ok d) :: rest), s1)
            /\ state_is_empty (described_state d) = true /\ is_ok (Groups.generation_or_epoch d) = true)
         /\ exists subset, subset ⊆+ offsets
            /\ h = handed (Cluster.Coordinator Routing.Group id) (Groups.commit_request id (-1) subset)
            /\ flat (grouped reset_topic Groups.commit_entry subset)
               ≡ₚ map (fun o => (reset_topic o, Groups.commit_entry o)) subset) l.
Proof. apply reset_commits. Qed.

End properties.

Import AdminDemo ScramDemo TextFacts.

Definition demo_reset := Groups.reset_offsets demo_admin "g" demo_resets.

Lemma operations_send_what_they_declare_witness :
  exists r s', demo_reset (demo_session "Empty") = Some (Ok r, s')
    /\ map handed_key (asked s') = [ApiKey.ListGroups; ApiKey.DescribeGroups; ApiKey.OffsetCommit]
    /\ Forall may_go (asked s').
Proof.
  destruct (demo_reset (demo_session "Empty")) as [[[r|e] s']|] eqn:E; [|vm_compute in E; discriminate..].
  exists r, s'. split; [done|]. split; [vm_compute in E; by injection E as <- <-|].
  destruct (operations_send_what_they_declare demo_admin _ _ _ _ _ _ (reset_offsets_op _ "g" demo_resets) E)
    as (l & -> & Hl).
  cbn. apply (Forall_impl _ _ _ Hl). by intros h (_ & Hgo & _).
Defined.

Lemma reset_needs_an_empty_group_witness :
  exists r s', demo_reset (demo_session "Empty") = Some (Ok r, s')
    /\ exists l, asked s' = l /\ Forall (fun h => handed_key h = ApiKey.OffsetCommit ->
         exists subset, subset ⊆+ demo_resets
           /\ h = handed (Cluster.Coordinator Routing.Group "g") (Groups.commit_request "g" (-1) subset)) l.
Proof.
  destruct (demo_reset (demo_session "Empty")) as [[[r|e] s']|] eqn:E; [|vm_compute in E; discriminate..].
  exists r, s'. split; [done|].
  destruct (reset_needs_an_empty_group demo_admin _ _ _ _ _ E) as (l & -> & Hl).
  exists l. split; [done|]. apply (Forall_impl _ _ _ Hl). intros h Hh Hk.
  destruct (Hh Hk) as (_ & subset & Hs & Hq & _). exists subset. exact (conj Hs Hq).
Defined.

(** A user with a password, and the client that logs in with it. *)
Definition demo_upsert : Security.ScramUpsert :=
  Security.new_upsert (text_of_string "us=er,") Security.Sha256 (text_of_string "pencil").
Definition demo_write := Acls.upsert_scram_credentials demo_admin [demo_upsert].

Lemma upserted_credentials_log_in_witness :
  exists results s' ws cred, demo_write (demo_session "Empty") = Some (Ok results, s')
    /\ asked s' = [handed Cluster.Any (AlterUserScramCredentials [] ws)]
    /\ broker_finds (broker_keeps ws) (text_of_string "SCRAM-SHA-256") (Scram.client_first_bare pencil_client) = Some cred
    /\ let first := server_first cred (text_of_string "rOprNG") (text_of_string "%hvYD") (text_of_string "4096") in
       exists proof answer client', Scram.client_final pencil_client (Utf8.as_bytes first) = (Ok proof, client')
         /\ respond cred (Scram.client_first_bare pencil_client) first (text_of_string "rOprNG%hvYD") proof = Some answer.
Proof.
  destruct (demo_write (demo_session "Empty")) as [[[results|e] s']|] eqn:E; [|vm_compute in E; discriminate..].
  destruct (upserted_credentials_log_in demo_admin [demo_upsert] _ _ _ ltac:(done) E) as (ws & Ha & _ & Hall).
  edestruct (Hall ltac:(apply NoDup_singleton) 0%nat demo_upsert (text_of_string "us=er,") (text_of_string "rOprNG")
               [(text_of_string "tokenauth", text_of_string "true")] pencil_client (text_of_string "%hvYD")
               (text_of_string "4096")) as (cred & Hfound & proof & answer & client' & Hf & Hr & _);
    [..|exists results, s', ws, cred; split; [done|]; split; [exact Ha|]; split; [exact Hfound|];
        exists proof, answer, client'; exact (conj Hf Hr)];
    try apply valid_ascii; try (vm_compute; reflexivity); try by_evaluation; done.
Defined.

(** A count above what the client accepts at a login is written all the same. *)
Example counts_no_login_accepts_are_written :
  exists results s', Acls.upsert_scram_credentials demo_admin
    [{| Security.upsert_user := text_of_string "u"; Security.upsert_mechanism := Security.Sha256;
        Security.upsert_iterations := Scram.MAX_ITERATIONS + 1; Security.upsert_password := text_of_string "p" |}]
    (demo_session "Empty") = Some (Ok results, s') /\ map snd results = [Ok tt].
Proof. eexists _, _. split; vm_compute; reflexivity. Qed.

(** Two copies of a partition of one gigabyte, and one that is being moved. *)
Definition demo_dirs : list (Z * list LogDir) :=
  let dir path replicas := {| dir_path := path; total_bytes := None; usable_bytes := None; dir_replicas := replicas;
                              dir_error := None |} in
  let copy p size future := {| dir_topic := "orders"; dir_partition := p; size_bytes := size; offset_lag := 0;
                               is_future := future |} in
  [(1, [dir "/a" [copy 0 1000000000 false]; dir "/b" [copy 0 400 true]]); (2, [dir "/a" [copy 0 999999999 false]])].
Definition demo_leaders : Sizes.LeaderMap := {["orders" := {[0 := 1]}]}.

Lemma topic_size_is_the_sum_witness :
  let size := Sizes.finish (default Sizes.no_sizes (Sizes.fold demo_dirs demo_leaders !! "orders")) "orders" in
  replicated_bytes size = 1999999999 /\ logical_bytes size = 1000000000.
Proof.
  intros size. destruct (topic_size_is_the_sum demo_dirs demo_leaders "orders") as (_ & _ & Hr & Hl).
  split; [etrans; [exact Hr|vm_compute; reflexivity]|]. etrans; [apply Hl|vm_compute; reflexivity].
  vm_compute. repeat constructor. by intros ?%elem_of_nil.
Defined.

(** An ACL of a cluster, and one whose type this build does not know. *)
Definition demo_acl (type : Z) : AclResourceAnswer AclAnswer := {|
  ar_type := type; ar_name := text_of_string "orders"; ar_pattern := 3;
  ar_acls := {| ac_principal := text_of_string "User:alice"; ac_host := text_of_string "*"; ac_operation := 99;
                ac_permission := 3 |} |}.

Lemma exact_filters_pin_what_was_described_witness :
  ff_type (Acls.filter_fields (Security.exact (Acls.binding_of (demo_acl 2)))) = 2
  /\ ff_operation (Acls.filter_fields (Security.exact (Acls.binding_of (demo_acl 2)))) = 99.
Proof.
  destruct (exact_filters_pin_what_was_described (demo_acl 2)) as [-> _]; [by eexists..|]. done.
Defined.

(** The exact filter of the other matches resources of every type. *)
Example unknown_types_widen_a_filter :
  ff_type (Acls.filter_fields (Security.exact (Acls.binding_of (demo_acl 8)))) = 1.
Proof. reflexivity. Qed.

(** A name and a listener with a mechanism that stores nothing. *)
Definition demo_listener (name : string) (inter : bool) (ms : list Authentication.AuthMechanism) := {|
  Authentication.listener_name := text_of_string name; Authentication.protocol := Authentication.SaslSsl;
  Authentication.sasl_mechanisms := ms; Authentication.client_auth := Authentication.Required;
  Authentication.is_inter_broker := inter; Authentication.is_controller := false |}.
Definition demo_listeners : Authentication.ClusterAuthentication := {|
  Authentication.auth_node := 1;
  Authentication.listeners := [demo_listener "BROKER" true [Authentication.Kerberos];
                               demo_listener "CLIENT" false [Authentication.Scram Security.Sha512;
                                                             Authentication.OauthBearer]];
  Authentication.principal_mapping_rules := None |}.
Definition demo_described : Described.PrincipalDescription := {|
  Described.described := user (text_of_string "alice"); Described.scram := Ok []; Described.tokens := Ok [];
  Described.acls := Ok []; Described.quotas := Ok [] |}.

Lemma verdicts_are_justified_witness :
  Authentication.candidates (Authentication.likely_mechanism demo_described demo_listeners)
    = [Authentication.OauthBearer]
  /\ Authentication.store_answered (Described.scram demo_described) = true.
Proof.
  destruct (verdicts_are_justified demo_described demo_listeners) as [_ He].
  split; [vm_compute; reflexivity|]. by destruct He as (Hs & _).
Defined.

(** A group with members is left alone. *)
Example stable_group_is_refused :
  exists e s', demo_reset (demo_session "Stable") = Some (Err e, s')
    /\ map handed_key (asked s') = [ApiKey.ListGroups; ApiKey.DescribeGroups].
Proof. eexists _, _. split; vm_compute; reflexivity. Qed.

(** If the listing fails, a group of any kind is asked for as a classic one; a broker answers
    for another kind that the group is dead, and its offsets are reset. *)
Example failed_listing_passes_the_guard :
  exists r s', demo_reset (demo_session "Dead") = Some (Ok r, s')
    /\ map handed_key (asked s') = [ApiKey.ListGroups; ApiKey.DescribeGroups; ApiKey.OffsetCommit].
Proof. eexists _, _. split; vm_compute; reflexivity. Qed.

End AdminProperties.
