(* ===== verification/Fetch.v ===== *)
(** Incremental fetch sessions ([crates/kafka-consume/src/session.rs]) and the
    per-broker fetcher that keeps one ([crates/kafka-consume/src/fetcher.rs]).

    A [HashMap] is a [gmap]; where the code iterates over one, the order is that
    of [map_to_list], which stands for the unspecified order of the code, and
    the theorems about such lists are up to permutation. *)

From S2P Require Import Prelude Sanitize ErrorCodes BatchDecode.

Module Session.

Definition INITIAL_EPOCH : Z := 0.
Definition NO_SESSION : Z := 0.

Definition Key : Type := string * Z.

(** What one partition's fetch state looks like to the broker. *)
Record PartitionState : Type := { offset : Z; max_bytes : Z }.

#[export] Instance PartitionState_eq_dec : EqDecision PartitionState.
Proof. solve_decision. Defined.

(** One broker's incremental fetch session. *)
Record FetchSession : Type := {
  id : Z;
  epoch : Z;
  known : gmap (string * Z) PartitionState;
  forgotten : gset (string * Z);
}.

Definition default_session : FetchSession :=
  {| id := 0; epoch := 0; known := ∅; forgotten := ∅ |}.

(** What one request should carry. *)
Record Delta : Type := {
  session_id : Z;
  session_epoch : Z;
  include : list (Key * PartitionState);
  forget : list Key;
  full : bool;
}.

(** Compute what the next request carries, and record that it was sent. *)
Definition next (self : FetchSession) (wanted : gmap (string * Z) PartitionState)
    : FetchSession * Delta :=
  let full := id self =? NO_SESSION in
  let include :=
    if full then map_to_list wanted
    else map_to_list (filter (fun '(key, state) => known self !! key <> Some state) wanted) in
  let forgotten := forgotten self ∪ (dom (known self) ∖ dom wanted) in
  ({| id := id self; epoch := epoch self; known := wanted; forgotten := ∅ |},
   {| session_id := id self;
      session_epoch := if full then INITIAL_EPOCH else epoch self;
      include := include;
      forget := elements forgotten;
      full := full |}).

(** Adopt the session the broker answered with. *)
Definition accept (self : FetchSession) (session_id responded_epoch : Z) : FetchSession :=
  {| id := session_id; epoch := i32_saturating_add responded_epoch 1;
     known := known self; forgotten := forgotten self |}.

(** Throw the session away and go back to a full fetch. *)
Definition reset (self : FetchSession) : FetchSession :=
  {| id := NO_SESSION; epoch := INITIAL_EPOCH; known := ∅; forgotten := ∅ |}.

(** Whether an error means the broker dropped our session. *)
Definition session_lost (code : ErrorCode.ErrorCode) : bool :=
  match code with
  | ErrorCode.FetchSessionIdNotFound | ErrorCode.InvalidFetchSessionEpoch => true
  | _ => false
  end.

End Session.

Module Fetcher.
Import Session.

Definition CONSUMER_REPLICA_ID : Z := -1.
Definition FETCH_TOPIC_ID_VERSION : Z := 13.

(** A topic id is its sixteen bytes; all zero means there is none. *)
Definition is_zero (topic_id : bytes) : bool := bool_decide (topic_id = replicate 16 Byte.x00).

(** ** The messages *)

Record FetchPartition : Type := {
  fp_partition : Z;
  fp_current_leader_epoch : Z;
  fp_fetch_offset : Z;
  fp_last_fetched_epoch : Z;
  fp_log_start_offset : Z;
  fp_partition_max_bytes : Z;
}.

(** A topic of a request, by name or by id: a version has exactly one of the
    two fields, the other keeps its default. *)
Record FetchTopic : Type := {
  ft_topic : string;
  ft_topic_id : bytes;
  ft_partitions : list FetchPartition;
}.

Record ForgottenTopic : Type := {
  fg_topic : string;
  fg_topic_id : bytes;
  fg_partitions : list Z;
}.

Definition ZERO_ID : bytes := replicate 16 Byte.x00.

Record FetchRequest : Type := {
  replica_id : Z;
  max_wait_ms : Z;
  min_bytes : Z;
  req_max_bytes : Z;
  isolation_level : Z;
  req_session_id : Z;
  req_session_epoch : Z;
  topics : list FetchTopic;
  forgotten_topics_data : list ForgottenTopic;
}.

Record PartitionData : Type := {
  pd_partition_index : Z;
  pd_error_code : Z;
  pd_high_watermark : Z;
  pd_last_stable_offset : Z;
  pd_log_start_offset : Z;
  pd_aborted_transactions : option (list (Z * Z));
  pd_records : option bytes;
}.

Record FetchableTopicResponse : Type := {
  tr_topic : string;
  tr_topic_id : bytes;
  tr_partitions : list PartitionData;
}.

Record FetchResponse : Type := {
  error_code : Z;
  resp_session_id : Z;
  responses : list FetchableTopicResponse;
}.

(** What one partition's fetch produced. *)
Record Fetched : Type := {
  topic : string;
  partition : Z;
  records : bytes;
  high_watermark : Z;
  last_stable_offset : Z;
  log_start_offset : Z;
  aborted : list Batch.AbortedTransaction;
  error : option Error.Error;
}.

Record Limits : Type := {
  l_max_wait_ms : Z;
  l_max_bytes : Z;
  l_visibility : Batch.Visibility;
}.

(** What the fetcher asks of the cluster handle, as a state machine: the
    negotiated version of [Fetch], and the answer of the leader to a request. *)
Record Cluster (W : Type) : Type := {
  negotiated_for : W -> W * result Z Error.Error;
  send_to_node : W -> FetchRequest -> W * result FetchResponse Error.Error;
}.
Arguments negotiated_for {W}.
Arguments send_to_node {W}.

Section messages.
Context `{KafkaProtocol}.

(** ** Building a request *)

(** [for (key, values) in map { out.push(f(key, values)?) }]. *)
Fixpoint collect_result {A B E} (f : A -> result B E) (l : list A) : result (list B) E :=
  match l with
  | [] => Ok []
  | x :: l =>
      let? y := f x in
      let? ys := collect_result f l in
      Ok (y :: ys)
  end.

Definition topic_uuid (topic : string) (topic_ids : gmap string bytes)
    : result bytes Error.Error :=
  let? id := ok_or (topic_ids !! topic)
    (Error.InvalidRequest
       (topic +:+ ": Fetch v13+ identifies topics by id and none is known")) in
  if is_zero id then
    Err (Error.InvalidRequest
           (topic +:+ ": the broker reported no topic id, which Fetch v13+ requires"))
  else Ok id.

(** A topic of the request: set exactly the field this version has. *)
Definition named (topic : string) (topic_ids : gmap string bytes) (version : Z)
    (partitions : list FetchPartition) : result FetchTopic Error.Error :=
  if FETCH_TOPIC_ID_VERSION <=? version then
    let? uuid := topic_uuid topic topic_ids in
    Ok {| ft_topic := ""; ft_topic_id := uuid; ft_partitions := partitions |}
  else
    Ok {| ft_topic := topic; ft_topic_id := ZERO_ID; ft_partitions := partitions |}.

Definition forgotten_named (topic : string) (topic_ids : gmap string bytes) (version : Z)
    (partitions : list Z) : result ForgottenTopic Error.Error :=
  if FETCH_TOPIC_ID_VERSION <=? version then
    let? uuid := topic_uuid topic topic_ids in
    Ok {| fg_topic := ""; fg_topic_id := uuid; fg_partitions := partitions |}
  else
    Ok {| fg_topic := topic; fg_topic_id := ZERO_ID; fg_partitions := partitions |}.

Definition fetch_partition (partition : Z) (state : PartitionState) : FetchPartition := {|
  fp_partition := partition;
  fp_current_leader_epoch := -1;
  fp_fetch_offset := offset state;
  fp_last_fetched_epoch := -1;
  fp_log_start_offset := -1;
  fp_partition_max_bytes := Session.max_bytes state;
|}.

Definition build (version : Z) (delta : Delta) (topic_ids : gmap string bytes) (limits : Limits)
    : result FetchRequest Error.Error :=
  let by_topic :=
    foldl (fun m '((topic, partition), state) =>
             push_to m topic (fetch_partition partition state)) ∅ (include delta) in
  let? topics :=
    collect_result (fun '(topic, partitions) => named topic topic_ids version partitions)
      (map_to_list by_topic) in
  let forgotten_by_topic :=
    foldl (fun m '(topic, partition) => push_to m topic partition) ∅ (forget delta) in
  let? forgotten :=
    collect_result
      (fun '(topic, partitions) => forgotten_named topic topic_ids version partitions)
      (map_to_list forgotten_by_topic) in
  Ok {|
    replica_id := CONSUMER_REPLICA_ID;
    max_wait_ms := l_max_wait_ms limits;
    min_bytes := 1;
    req_max_bytes := l_max_bytes limits;
    isolation_level := match l_visibility limits with
                       | Batch.All => 0
                       | Batch.CommittedOnly => 1
                       end;
    req_session_id := session_id delta;
    req_session_epoch := session_epoch delta;
    topics := topics;
    forgotten_topics_data := forgotten;
  |}.

(** ** Reading a response *)

(** The topic ids by id, the names of zero ids left out; a later entry of the
    iteration replaces an earlier one. *)
Definition names_by_id (topic_ids : gmap string bytes) : gmap bytes string :=
  foldl (fun m '(name, id) => if is_zero id then m else <[id := name]> m) ∅
    (map_to_list topic_ids).

Definition fetched (topic : string) (p : PartitionData) : Fetched := {|
  topic := topic;
  partition := pd_partition_index p;
  records := default [] (pd_records p);
  high_watermark := pd_high_watermark p;
  last_stable_offset := pd_last_stable_offset p;
  log_start_offset := pd_log_start_offset p;
  aborted := map (fun '(producer_id, first_offset) =>
                    {| Batch.at_producer_id := producer_id; Batch.first_offset := first_offset |})
                 (default [] (pd_aborted_transactions p));
  error := (fun code => Error.from_code code None) <$> ErrorCode.from_code (pd_error_code p);
|}.

(** Pull every partition out of the response: a topic the response leaves
    unnamed is found by its id, and skipped when nothing has that id. *)
Definition collect (response : FetchResponse) (topic_ids : gmap string bytes) : list Fetched :=
  let by_id := names_by_id topic_ids in
  flat_map
    (fun topic_response =>
       let named := tr_topic topic_response in
       let topic :=
         if decide (named = ""%string) then by_id !! tr_topic_id topic_response
         else Some named in
       match topic with
       | None => []
       | Some topic => map (fetched topic) (tr_partitions topic_response)
       end)
    (responses response).

(** ** Fetching *)

(** [for attempt in 0..2]: a dropped session is rebuilt and retried once. *)
Fixpoint fetch_loop {W} (cluster : Cluster W) (attempts : nat) (attempt : Z) (w : W)
    (session : FetchSession) (wanted : gmap (string * Z) PartitionState)
    (topic_ids : gmap string bytes) (limits : Limits)
    : W * FetchSession * result (list Fetched) Error.Error :=
  match attempts with
  | O => (w, session,
          Err (Error.InvalidRequest "the fetch session could not be rebuilt"))
  | S attempts =>
      let '(session, delta) := next session wanted in
      let '(w, version) := negotiated_for cluster w in
      match (let? version := version in build version delta topic_ids limits) with
      | Err e => (w, session, Err e)
      | Ok request =>
          let '(w, response) := send_to_node cluster w request in
          match response with
          | Err e => (w, session, Err e)
          | Ok response =>
              match ErrorCode.from_code (error_code response) with
              | Some code =>
                  if session_lost code && (attempt =? 0) then
                    fetch_loop cluster attempts (attempt + 1) w (reset session) wanted
                      topic_ids limits
                  else (w, session, Err (Error.from_code code None))
              | None =>
                  (w, accept session (resp_session_id response) (session_epoch delta),
                   Ok (collect response topic_ids))
              end
          end
      end
  end.

(** [BrokerFetcher::fetch]. *)
Definition fetch {W} (cluster : Cluster W) (w : W) (session : FetchSession)
    (wanted : gmap (string * Z) PartitionState) (topic_ids : gmap string bytes)
    (limits : Limits) : W * FetchSession * result (list Fetched) Error.Error :=
  fetch_loop cluster 2 0 w session wanted topic_ids limits.

End messages.

End Fetcher.
