(* ===== verification/FetchFacts.v ===== *)
(** Lemmas and properties of fetch sessions: the request a delta is built into,
    the broker's view of a session, and the mapping of a response back to the
    topics that were asked for. *)

From S2P Require Import Prelude ErrorCodes BatchDecode Fetch.

(** ** Specifications *)

Module FetchSpec.
Import Session Fetcher.

(** A partition as the wire designates it: the topic's name and id, of which a
    version sets one, and the index. *)
Definition WireKey : Type := (string * bytes) * Z.

Definition designate (version : Z) (topic_ids : gmap string bytes) (topic : string)
    : string * bytes :=
  if FETCH_TOPIC_ID_VERSION <=? version then (""%string, default ZERO_ID (topic_ids !! topic))
  else (topic, ZERO_ID).

Definition wire_key (version : Z) (topic_ids : gmap string bytes) (key : string * Z)
    : (string * bytes) * Z := (designate version topic_ids key.1, key.2).

(** The entries of grouped messages, one per partition. *)
Definition ungroup {T A} (name : T -> string * bytes) (parts : T -> list A) (l : list T)
    : list ((string * bytes) * A) :=
  flat_map (fun t => map (pair (name t)) (parts t)) l.

(** The partitions a request includes, and those it forgets. *)
Definition req_include (req : FetchRequest) : list (((string * bytes) * Z) * PartitionState) :=
  map (fun '(name, p) => ((name, fp_partition p),
                          {| offset := fp_fetch_offset p;
                             Session.max_bytes := fp_partition_max_bytes p |}))
    (ungroup (fun t => (ft_topic t, ft_topic_id t)) ft_partitions (topics req)).

Definition req_forget (req : FetchRequest) : list ((string * bytes) * Z) :=
  ungroup (fun t => (fg_topic t, fg_topic_id t)) fg_partitions (forgotten_topics_data req).

(** What a broker knows of a session after a request it accepted (KIP-227): a
    request that opens a session replaces the view, any other changes it. *)
Definition apply_request (view : gmap ((string * bytes) * Z) PartitionState)
    (req : FetchRequest) : gmap ((string * bytes) * Z) PartitionState :=
  let included := list_to_map (req_include req) in
  if req_session_epoch req =? INITIAL_EPOCH then included
  else included ∪ filter (fun '(k, _) => k ∉ req_forget req) view.

(** The view holds exactly the partitions of an assignment. *)
Definition represents (version : Z) (topic_ids : gmap string bytes)
    (view : gmap ((string * bytes) * Z) PartitionState)
    (assignment : gmap (string * Z) PartitionState) : Prop :=
  forall k st, view !! k = Some st
    <-> exists key, k = wire_key version topic_ids key /\ assignment !! key = Some st.

(** The topics of an assignment are told apart by the ids at hand. *)
Definition identified (version : Z) (topic_ids : gmap string bytes)
    (keys : gset (string * Z)) : Prop :=
  forall k1 k2, k1 ∈ keys -> k2 ∈ keys ->
    wire_key version topic_ids k1 = wire_key version topic_ids k2 -> k1 = k2.

(** What the client and the broker agree on between two fetches: an established
    session never reuses the opening epoch, and the broker's view of it is what
    the client believes it to be. *)
Definition in_step (version : Z) (topic_ids : gmap string bytes) (session : FetchSession)
    (view : gmap ((string * bytes) * Z) PartitionState) : Prop :=
  id session <> NO_SESSION ->
  1 <= epoch session /\ forgotten session = ∅ /\ represents version topic_ids view (known session).

(** ** Runs of one broker's session *)

Section run.
Context `{KafkaProtocol} {W : Type} (cluster : Cluster W).
Context (view : W -> gmap ((string * bytes) * Z) PartitionState).
Context (version : Z) (ids : gmap string bytes) (limits : Limits).

(** What KIP-227 says of a request the broker accepts; of one it refuses, and of
    one that gets no answer, nothing is known. *)
Definition keeps_session : Prop := forall w req resp,
  (send_to_node cluster w req).2 = Ok resp -> ErrorCode.from_code (error_code resp) = None ->
  view (send_to_node cluster w req).1 = apply_request (view w) req.

(** Asking for the version leaves the view, and finds the one version. *)
Definition keeps_version : Prop := forall w,
  view (negotiated_for cluster w).1 = view w
  /\ forall v, (negotiated_for cluster w).2 = Ok v -> v = version.

(** Whether nothing has gone wrong since the session was opened: a fetch that
    succeeds keeps it so, or makes it so when it was the opening one (whose answer
    leaves the epoch 1); one that fails on an established session ends it. *)
Definition sound_after {A} (sound : bool) (s' : FetchSession) (r : result A Error.Error) : bool :=
  match r with
  | Ok _ => sound || (epoch s' =? 1)
  | Err _ => id s' =? NO_SESSION
  end.

(** Everything that can happen to the session of a new fetcher: fetches of any
    assignments, failed ones included, and whatever else happens in the world as
    long as nobody else uses the session. *)
Inductive session_run : W -> FetchSession -> bool -> Prop :=
  | run_new w : session_run w default_session true
  | run_idle w w' s sound :
      session_run w s sound -> view w' = view w -> session_run w' s sound
  | run_fetch w s sound wanted w' s' r :
      session_run w s sound ->
      identified version ids (dom (known s) ∪ dom wanted) ->
      fetch cluster w s wanted ids limits = (w', s', r) ->
      session_run w' s' (sound_after sound s' r).

End run.

End FetchSpec.

(** ** Lemmas *)

Module FetchFacts.
Import Session Fetcher FetchSpec.

(** *** Grouping by topic *)

Section group.
Context {A : Type}.

(** Messages built from the groups ungroup to the entries. *)
Lemma ungroup_collected {T} (name : T -> string * bytes) (parts : T -> list A)
    (g : string -> string * bytes) {E} (f : string * list A -> result T E) m ts :
  (forall k l t, f (k, l) = Ok t -> name t = g k /\ parts t = l) ->
  collect_result f (map_to_list m) = Ok ts ->
  ungroup name parts ts = map (fun '(k, x) => (g k, x)) (flat m).
Proof.
  unfold flat, ungroup. intros Hf. revert ts.
  induction (map_to_list m) as [|[k l] kls IH]; intros ts; simpl; [by intros [= <-]|].
  destruct (f (k, l)) as [t|] eqn:E1; simpl; [|done].
  destruct (collect_result f kls) as [ts'|]; simpl; [|done]. intros [= <-]. simpl.
  rewrite map_app, (IH _ eq_refl). apply Hf in E1 as [-> ->].
  by rewrite map_map.
Qed.

End group.

(** *** The request a delta is built into *)

Lemma topic_uuid_Ok topic ids uuid :
  topic_uuid topic ids = Ok uuid -> ids !! topic = Some uuid /\ is_zero uuid = false.
Proof.
  unfold topic_uuid. destruct (ids !! topic) as [i|]; simpl; [|done].
  destruct (is_zero i) eqn:E; [done|]. by intros [= <-].
Qed.

Lemma named_Ok topic ids version ps t :
  named topic ids version ps = Ok t ->
  (ft_topic t, ft_topic_id t) = designate version ids topic /\ ft_partitions t = ps.
Proof.
  unfold named, designate. destruct (_ <=? _); [|by intros [= <-]].
  destruct (topic_uuid topic ids) as [u|] eqn:E; simpl; [|done]. intros [= <-].
  apply topic_uuid_Ok in E as [-> _]. done.
Qed.

Lemma forgotten_named_Ok topic ids version ps t :
  forgotten_named topic ids version ps = Ok t ->
  (fg_topic t, fg_topic_id t) = designate version ids topic /\ fg_partitions t = ps.
Proof.
  unfold forgotten_named, designate. destruct (_ <=? _); [|by intros [= <-]].
  destruct (topic_uuid topic ids) as [u|] eqn:E; simpl; [|done]. intros [= <-].
  apply topic_uuid_Ok in E as [-> _]. done.
Qed.

(** The partitions a request carries, whatever the grouping. *)
Lemma build_Ok version delta ids limits req :
  build version delta ids limits = Ok req ->
  req_include req ≡ₚ map (fun '(key, st) => (wire_key version ids key, st)) (include delta)
  /\ req_forget req ≡ₚ map (wire_key version ids) (forget delta)
  /\ req_session_id req = session_id delta /\ req_session_epoch req = session_epoch delta.
Proof.
  unfold build.
  destruct (collect_result _ _) as [ts|] eqn:E1; cbn [result_bind]; [|done].
  destruct (collect_result (fun '(t, ps) => forgotten_named t ids version ps) _) as [fs|] eqn:E2;
    cbn [result_bind]; [|done].
  intros [= <-]. unfold req_include, req_forget.
  cbn [topics forgotten_topics_data req_session_id req_session_epoch].
  split_and!; [| |done|done].
  - erewrite (ungroup_collected _ _ (designate version ids) _ _ _ _ E1).
    erewrite (flat_foldl _ (fun x => x.1.1) (fun x => fetch_partition x.1.2 x.2)) by (by intros ? [[]]).
    rewrite flat_empty. simpl. rewrite !map_map. apply reflexive_eq, map_ext. by intros [[] []].
  - erewrite (ungroup_collected _ _ (designate version ids) _ _ _ _ E2).
    erewrite (flat_foldl _ fst snd) by (by intros ? []).
    rewrite flat_empty. simpl. rewrite map_map. apply reflexive_eq, map_ext. by intros [].
    Unshelve. all: intros k l t Ht;
      first [exact (named_Ok _ _ _ _ _ Ht)|exact (forgotten_named_Ok _ _ _ _ _ Ht)].
Qed.
Lemma collect_result_Err {A B E} (f : A -> result B E) l e :
  collect_result f l = Err e -> exists x, x ∈ l /\ f x = Err e.
Proof.
  induction l as [|x l IH]; simpl; [done|].
  destruct (f x) as [y|] eqn:E1; cbn [result_bind].
  - destruct (collect_result f l) as [ys|]; cbn [result_bind]; [done|].
    intros [= ->]. destruct IH as (x' & Hin & Hx); [done|]. exists x'. split; [by right|done].
  - intros [= ->]. exists x. split; [left|done].
Qed.

(** Why a topic cannot be designated. *)
Definition unidentified (version : Z) (ids : gmap string bytes) (e : Error.Error) : Prop :=
  FETCH_TOPIC_ID_VERSION <= version
  /\ exists topic m, e = Error.InvalidRequest m
       /\ (ids !! topic = None \/ exists i, ids !! topic = Some i /\ is_zero i = true).

Lemma topic_uuid_Err version topic ids e :
  FETCH_TOPIC_ID_VERSION <= version -> topic_uuid topic ids = Err e -> unidentified version ids e.
Proof.
  intros Hv. unfold topic_uuid. destruct (ids !! topic) as [i|] eqn:Hi; cbn [ok_or result_bind].
  - destruct (is_zero i) eqn:Hz; [|done]. intros [= <-]. split; [done|].
    exists topic. eexists. split; [done|]. right. eauto.
  - intros [= <-]. split; [done|]. exists topic. eexists. split; [done|]. by left.
Qed.

Lemma build_Err version delta ids limits e :
  build version delta ids limits = Err e -> unidentified version ids e.
Proof.
  unfold build. intros Hb.
  destruct (collect_result _ _) as [ts|] eqn:E1 in Hb; cbn [result_bind] in Hb.
  - destruct (collect_result _ _) as [fs|] eqn:E2 in Hb; cbn [result_bind] in Hb; [done|].
    injection Hb as ->. apply collect_result_Err in E2 as ([t ps] & _ & E).
    unfold forgotten_named in E. destruct (_ <=? _) eqn:Hv in E; [|done]. apply Z.leb_le in Hv.
    destruct (topic_uuid t ids) eqn:Et; [done|]. injection E as ->. by eapply topic_uuid_Err.
  - injection Hb as ->. apply collect_result_Err in E1 as ([t ps] & _ & E).
    unfold named in E. destruct (_ <=? _) eqn:Hv in E; [|done]. apply Z.leb_le in Hv.
    destruct (topic_uuid t ids) eqn:Et; [done|]. injection E as ->. by eapply topic_uuid_Err.
Qed.

(** *** The broker's view *)

Lemma map_to_list_key {K V} `{Countable K} (m : gmap K V) k : k ∈ (map_to_list m).*1 -> k ∈ dom m.
Proof.
  rewrite list_elem_of_fmap. intros ([k' v] & -> & Hin).
  apply elem_of_map_to_list in Hin. by apply elem_of_dom_2 in Hin.
Qed.

(** A map sent as a list, under names that are injective on its keys. *)
Lemma sent_lookup {K1 K2 V} `{Countable K1, Countable K2} (f : K1 -> K2) (m : gmap K1 V)
    (l : list (K2 * V)) :
  (forall k1 k2, k1 ∈ dom m -> k2 ∈ dom m -> f k1 = f k2 -> k1 = k2) ->
  l ≡ₚ map (fun '(k, v) => (f k, v)) (map_to_list m) ->
  forall k v, (list_to_map l : gmap K2 V) !! k = Some v <-> exists k1, k = f k1 /\ m !! k1 = Some v.
Proof.
  intros Hf Hl k v.
  assert (Hnd : NoDup l.*1).
  { rewrite Hl. replace (map _ (map_to_list m)).*1 with (f <$> (map_to_list m).*1).
    - apply NoDup_fmap_2_strong; [|apply NoDup_fst_map_to_list].
      intros x y Hx Hy. apply Hf; by apply map_to_list_key.
    - rewrite <- !list_fmap_compose. apply list_fmap_ext. by intros ? [] ?. }
  rewrite <- elem_of_list_to_map by done. rewrite Hl, list_elem_of_fmap. split.
  - intros ([k1 v1] & [= -> ->] & Hin). apply elem_of_map_to_list in Hin. eauto.
  - intros (k1 & -> & Hin). exists (k1, v). by rewrite elem_of_map_to_list.
Qed.

Section view.
Context (version : Z) (ids : gmap string bytes) (limits : Limits).
Context (s : FetchSession) (wanted : gmap (string * Z) PartitionState).
Context (view : gmap ((string * bytes) * Z) PartitionState) (req : FetchRequest).
Context (Hbuild : build version (next s wanted).2 ids limits = Ok req).
Context (Hident : identified version ids (dom (known s) ∪ dom wanted)).

Lemma view_opened :
  id s = NO_SESSION -> represents version ids (apply_request view req) wanted.
Proof using Hbuild Hident.
  intros Hid. pose proof (build_Ok _ _ _ _ _ Hbuild) as (Hinc & _ & _ & Hep).
  unfold next in *. rewrite Hid in *. simpl in *. unfold apply_request. rewrite Hep, Z.eqb_refl.
  intros k st. apply (sent_lookup (wire_key version ids)); [|done].
  intros k1 k2 H1 H2. apply Hident; set_solver.
Qed.

Lemma view_changed :
  id s <> NO_SESSION -> in_step version ids s view ->
  represents version ids (apply_request view req) wanted.
Proof using Hbuild Hident.
  intros Hid Hin. destruct (Hin Hid) as (Hepoch & Hforg & Hview).
  pose proof (build_Ok _ _ _ _ _ Hbuild) as (Hinc & Hfor & _ & Hep).
  unfold next in *. rewrite (proj2 (Z.eqb_neq _ _) Hid) in *. simpl in *.
  rewrite Hforg, (left_id_L ∅ _) in Hfor.
  unfold apply_request. rewrite Hep, (proj2 (Z.eqb_neq _ _)) by (unfold INITIAL_EPOCH; lia).
  set (changed := filter _ wanted) in Hinc.
  assert (Hsub : forall key st, changed !! key = Some st
                 <-> wanted !! key = Some st /\ known s !! key <> Some st).
  { intros key st. unfold changed. by rewrite map_lookup_filter_Some. }
  assert (Hch : forall k st, (list_to_map (req_include req) : gmap _ _) !! k = Some st
                <-> exists key, k = wire_key version ids key /\ changed !! key = Some st).
  { apply sent_lookup; [|done]. intros k1 k2 H1 H2.
    apply elem_of_dom in H1 as [? [H1 _]%Hsub], H2 as [? [H2 _]%Hsub].
    apply elem_of_dom_2 in H1, H2. apply Hident; set_solver. }
  assert (Hgone : forall key, key ∈ dom (known s) ->
                  wire_key version ids key ∈ req_forget req <-> key ∉ dom wanted).
  { intros key Hk. rewrite Hfor. setoid_rewrite list_elem_of_fmap.
    setoid_rewrite elem_of_elements. setoid_rewrite elem_of_difference. split.
    - intros (key' & E & Hk' & Hn). apply Hident in E as <-; [done|set_solver..].
    - intros Hn. by exists key. }
  intros k st. rewrite lookup_union_Some_raw, map_lookup_filter_Some, Hch. split.
  - intros [(key & -> & [Hw _]%Hsub)|(Hnone & Hv & Hkeep)]; [by exists key|].
    apply Hview in Hv as (key & -> & Hk). exists key. split; [done|].
    pose proof (elem_of_dom_2 _ _ _ Hk) as Hd. rewrite Hgone in Hkeep by done.
    destruct (wanted !! key) as [st'|] eqn:Hw; [|by apply not_elem_of_dom in Hw].
    destruct (decide (st' = st)) as [->|Hne]; [done|]. exfalso.
    assert (Hc : changed !! key = Some st') by (apply Hsub; split; [done|congruence]).
    assert (Some st' = None); [|done]. rewrite <- Hnone. symmetry. apply Hch. by exists key.
  - intros (key & -> & Hw). destruct (decide (known s !! key = Some st)) as [Hk|Hk].
    + right. pose proof (elem_of_dom_2 _ _ _ Hk) as Hd. split_and!.
      * apply eq_None_not_Some. intros [st' (key' & E & [Hw' Hk']%Hsub)%Hch].
        pose proof (elem_of_dom_2 _ _ _ Hw'). apply Hident in E as <-; [congruence|set_solver..].
      * apply Hview. by exists key.
      * rewrite Hgone by done. intros Hn. apply Hn. by apply elem_of_dom_2 in Hw.
    + left. exists key. split; [done|]. by apply Hsub.
Qed.

End view.

(** *** A fetch *)

(** A partition the broker already knows in the wanted state is not sent, and one
    that is still wanted is not forgotten. *)
Lemma next_same s : id s <> NO_SESSION -> forgotten s = ∅ ->
  (next s (known s)).2 = {| session_id := id s; session_epoch := epoch s; include := [];
                            forget := []; full := false |}.
Proof.
  intros Hid Hf. unfold next. rewrite (proj2 (Z.eqb_neq _ _) Hid), Hf. cbn [snd]. f_equal.
  - replace (filter _ (known s)) with (∅ : gmap (string * Z) PartitionState);
      [apply map_to_list_empty|].
    symmetry. apply map_empty_filter_2. intros key st Hk Hn. by apply Hn.
  - rewrite difference_diag_L, (left_id_L ∅ _). apply elements_empty.
Qed.

Section fetch.
Context `{KafkaProtocol} {W : Type} (cluster : Cluster W).
Context (view : W -> gmap ((string * bytes) * Z) PartitionState).
Context (version : Z) (ids : gmap string bytes) (limits : Limits).
Context (Hneg : keeps_version cluster view version) (Hsend : keeps_session cluster view).

Lemma in_step_reset s v : in_step version ids (reset s) v.
Proof. intros Hn. by destruct Hn. Qed.

Lemma view_next s wanted req v :
  build version (next s wanted).2 ids limits = Ok req ->
  identified version ids (dom (known s) ∪ dom wanted) -> in_step version ids s v ->
  represents version ids (apply_request v req) wanted.
Proof.
  intros Hb Hid Hin. destruct (decide (id s = NO_SESSION)).
  - by eapply view_opened.
  - by eapply view_changed.
Qed.

(** An established session has left the opening epoch, and remembers nothing to
    forget. *)
Definition counted (s : FetchSession) : Prop :=
  (id s <> NO_SESSION -> 1 <= epoch s) /\ forgotten s = ∅.

(** What a request that is accepted leaves: the view is the wanted one if the
    client was in step, or if it opened the session. *)
Lemma accepted_step s wanted req v sid (b : Prop) :
  build version (next s wanted).2 ids limits = Ok req ->
  identified version ids (dom (known s) ∪ dom wanted) ->
  counted s -> (b -> in_step version ids s v) ->
  let s' := accept (next s wanted).1 sid (session_epoch (next s wanted).2) in
  known s' = wanted /\ forgotten s' = ∅ /\ 1 <= epoch s'
  /\ (b \/ epoch s' = 1 -> represents version ids (apply_request v req) wanted).
Proof.
  intros Hb Hid [Hc _] Hin s'. split_and!; [done|done| |].
  - subst s'. cbn. destruct (Z.eqb_spec (id s) NO_SESSION) as [|Hn]; [done|].
    apply Hc in Hn. unfold i32_saturating_add, clamp, I32_MIN, I32_MAX. lia.
  - intros Hor. apply (view_next s wanted req v Hb Hid).
    destruct Hor as [Hr|Hr]; [by apply Hin|]. intros Hn. exfalso. subst s'. cbn in Hr.
    rewrite (proj2 (Z.eqb_neq _ _) Hn) in Hr. apply Hc in Hn.
    unfold i32_saturating_add, clamp, I32_MIN, I32_MAX in Hr. lia.
Qed.

Lemma fetch_loop_Ok wanted (b : Prop) attempts : forall attempt w s w' s' out,
  counted s -> (b -> in_step version ids s (view w)) ->
  identified version ids (dom (known s) ∪ dom wanted) ->
  fetch_loop cluster attempts attempt w s wanted ids limits = (w', s', Ok out) ->
  known s' = wanted /\ forgotten s' = ∅ /\ 1 <= epoch s'
  /\ (b \/ epoch s' = 1 -> represents version ids (view w') wanted).
Proof using Hneg Hsend.
  induction attempts as [|attempts IH]; intros attempt w s w' s' out Hc Hin Hid; [done|].
  cbn [fetch_loop]. pose proof (fun req sid Hb =>
    accepted_step s wanted req (view w) sid b Hb Hid Hc Hin) as Hacc.
  destruct (next s wanted) as [s1 d] eqn:Hnext. cbn [fst snd] in Hacc.
  destruct (negotiated_for cluster w) as [w1 [v|e]] eqn:Hn; cbn [result_bind]; [|done].
  destruct (Hneg w) as [Hview Hv]. rewrite Hn in Hview, Hv. cbn [fst snd] in Hview, Hv.
  rewrite (Hv v eq_refl). destruct (build version d ids limits) as [req|] eqn:Hb; [|done].
  destruct (send_to_node cluster w1 req) as [w2 [resp|]] eqn:Hs; [|done].
  destruct (ErrorCode.from_code (error_code resp)) as [code|] eqn:Hcode.
  - destruct (session_lost code && (attempt =? 0)); [|done].
    apply IH; [split; [by intros []|done]|intros _; apply in_step_reset|].
    intros k1 k2. simpl. rewrite dom_empty_L. intros H1 H2. apply Hid; set_solver.
  - intros [= <- <- _].
    pose proof (Hsend w1 req resp) as Hv2. rewrite Hs in Hv2.
    specialize (Hv2 eq_refl Hcode). cbn [fst] in Hv2. rewrite Hv2, Hview. by apply Hacc.
Qed.

(** A fetch that fails keeps the session it had, or has lost it. *)
Lemma fetch_loop_Err wanted attempts : forall attempt w s w' s' e,
  forgotten s = ∅ ->
  fetch_loop cluster attempts attempt w s wanted ids limits = (w', s', Err e) ->
  forgotten s' = ∅ /\ (id s' = NO_SESSION \/ id s' = id s /\ epoch s' = epoch s).
Proof.
  induction attempts as [|attempts IH]; intros attempt w s w' s' e Hf; cbn [fetch_loop];
    [intros [= _ <- _]; auto|].
  destruct (next s wanted) as [s1 d] eqn:Hnext.
  assert (Hs1 : forgotten s1 = ∅ /\ (id s1 = NO_SESSION \/ id s1 = id s /\ epoch s1 = epoch s))
    by (unfold next in Hnext; injection Hnext as <- <-; cbn; auto).
  destruct (negotiated_for cluster w) as [w1 v].
  destruct (result_bind v _) as [req|]; [|intros [= _ <- _]; done].
  destruct (send_to_node cluster w1 req) as [w2 [resp|]]; [|intros [= _ <- _]; done].
  destruct (ErrorCode.from_code (error_code resp)) as [code|]; [|done].
  destruct (session_lost code && (attempt =? 0)); [|intros [= _ <- _]; done].
  intros Hr. apply IH in Hr as [Hf' [Hn|[Hn _]]]; [auto|auto|done].
Qed.

(** What every run keeps: the session is counted, and in step while nothing went
    wrong since it was opened. *)
Lemma session_run_in_step w s sound :
  session_run cluster view version ids limits w s sound ->
  counted s /\ (sound = true -> in_step version ids s (view w)).
Proof using Hneg Hsend.
  induction 1 as [w|w w' s sound _ IH Hview|w s sound wanted w' s' r _ [Hc Hin] Hid Hf].
  - split; [by split|]. intros _ Hn. by destruct Hn.
  - by rewrite Hview.
  - destruct r as [out|e]; unfold fetch in Hf; cbn [sound_after].
    + apply (fetch_loop_Ok wanted (sound = true)) in Hf as (Hk & Hforg & Hep & Hrep); [|done..].
      split; [by split|]. rewrite orb_true_iff, Z.eqb_eq. intros Hor _.
      rewrite Hk. auto.
    + destruct Hc as [Hc Hforg]. apply fetch_loop_Err in Hf as [Hf Hor]; [|done]. split.
      * split; [|done]. intros Hn. destruct Hor as [|[Hi ->]]; [done|].
        apply Hc. by rewrite <- Hi.
      * rewrite Z.eqb_eq. intros Hn Hn'. done.
Qed.

End fetch.

(** *** Reading a response *)

Lemma names_step_inv l : forall (m : gmap bytes string) i t,
  foldl (fun (m : gmap bytes string) '(name, id) =>
           if is_zero id then m else <[id := name]> m) m l !! i = Some t ->
  ((t, i) ∈ l /\ is_zero i = false) \/ m !! i = Some t.
Proof.
  induction l as [|[name j] l IH]; intros m i t; cbn [foldl]; [by right|].
  intros [[Hin Hz]|Hm]%IH; [left; split; [by right|done]|].
  destruct (is_zero j) eqn:Hz; [by right|].
  apply lookup_insert_Some in Hm as [[-> ->]|[_ Hm]]; [left; split; [left|done]|by right].
Qed.

Lemma names_step_Some l : forall (m : gmap bytes string) i,
  is_zero i = false -> ((exists t, (t, i) ∈ l) \/ is_Some (m !! i)) ->
  is_Some (foldl (fun (m : gmap bytes string) '(name, id) =>
           if is_zero id then m else <[id := name]> m) m l !! i).
Proof.
  induction l as [|[name j] l IH]; intros m i Hz Hin; cbn [foldl].
  - destruct Hin as [[t Hin]|]; [by apply elem_of_nil in Hin|done].
  - apply IH; [done|]. destruct Hin as [[t [[= <- <-]|Hin]%elem_of_cons]|Hm]; [|left; by exists t|].
    + right. rewrite Hz, lookup_insert_eq. eauto.
    + right. destruct (is_zero j); [done|]. rewrite lookup_insert. case_decide; [eauto|done].
Qed.

(** A non-zero id that one topic has finds that topic. *)
Lemma names_by_id_lookup ids t i :
  ids !! t = Some i -> is_zero i = false -> (forall t', ids !! t' = Some i -> t' = t) ->
  names_by_id ids !! i = Some t.
Proof.
  intros Ht Hz Huniq.
  destruct (names_step_Some (map_to_list ids) ∅ i Hz) as [t' Ht'].
  { left. exists t. by apply elem_of_map_to_list. }
  unfold names_by_id. rewrite Ht'. f_equal.
  apply names_step_inv in Ht' as [[Hin _]|Hn]; [|by rewrite lookup_empty in Hn].
  apply elem_of_map_to_list in Hin. by apply Huniq.
Qed.

End FetchFacts.

(** ** Properties *)

Module FetchProperties.
Import Session Fetcher FetchSpec FetchFacts.

(** C7: The incremental session refines a full fetch.
    Take any run of a new fetcher's session against a broker that keeps the
    session's view as KIP-227 says (an opening request replaces it, any other adds,
    changes and forgets), failed fetches included.  A fetch that succeeds in it,
    with the rebuilding of a session the broker dropped, leaves the broker's view
    holding exactly the wanted partitions with their offsets and budgets, and
    asking for the same assignment again then carries no partition at all:
    provided that no fetch failed on the established session since it was opened,
    or that this fetch was the one that opened it.  What a failed fetch leaves is
    [failed_fetch_keeps_claim]; the next opening ends it. *)
Theorem session_refines_view `{KafkaProtocol} {W} (cluster : Cluster W)
    (view : W -> gmap ((string * bytes) * Z) PartitionState) version ids limits
    wanted w s sound w' s' out :
  keeps_version cluster view version -> keeps_session cluster view ->
  session_run cluster view version ids limits w s sound ->
  identified version ids (dom (known s) ∪ dom wanted) ->
  fetch cluster w s wanted ids limits = (w', s', Ok out) ->
  known s' = wanted /\ 1 <= epoch s'
  /\ (sound = true \/ epoch s' = 1 ->
       represents version ids (view w') wanted
       /\ (id s' <> NO_SESSION ->
            (next s' wanted).2
            = {| session_id := id s'; session_epoch := epoch s'; include := [];
                 forget := []; full := false |})).
Proof.
  intros Hneg Hsend Hrun Hident Hf.
  destruct (session_run_in_step cluster view version ids limits Hneg Hsend w s sound Hrun) as [Hc Hin].
  destruct (fetch_loop_Ok cluster view version ids limits Hneg Hsend wanted (sound = true)
              2 0 w s w' s' out) as (<- & Hforg & Hep & Hrep); [done..|].
  split_and!; [done|done|]. intros Hor. split; [by apply Hrep|]. intros Hid. by apply next_same.
Qed.

(** The request built from a delta carries exactly its
    partitions, grouped by topic: each included partition once with its offset and
    budget, each forgotten one once, under the field the negotiated version has;
    and it is refused when a topic has no usable id from version 13 on. *)
Theorem build_carries_delta `{KafkaProtocol} version delta ids limits :
  match build version delta ids limits with
  | Ok req =>
      req_include req ≡ₚ map (fun '(key, st) => (wire_key version ids key, st)) (include delta)
      /\ req_forget req ≡ₚ map (wire_key version ids) (forget delta)
      /\ req_session_id req = session_id delta /\ req_session_epoch req = session_epoch delta
  | Err e => FETCH_TOPIC_ID_VERSION <= version
      /\ exists topic m, e = Error.InvalidRequest m
           /\ (ids !! topic = None \/ exists i, ids !! topic = Some i /\ is_zero i = true)
  end.
Proof.
  destruct (build version delta ids limits) as [req|e] eqn:Hb; [by eapply build_Ok|].
  by eapply build_Err.
Qed.

(** A response designates its topics the way the
    request of that version did, and each of its partitions is handed on under
    the topic that was asked for: by the name before version 13, and from version
    13 on by the id, when the response leaves the name empty. *)
Theorem response_finds_its_topic `{KafkaProtocol} version ids
    (answered : list (string * list PartitionData)) response :
  (forall topic ps, (topic, ps) ∈ answered ->
     topic <> ""%string
     /\ (FETCH_TOPIC_ID_VERSION <= version ->
         exists i, ids !! topic = Some i /\ is_zero i = false
           /\ forall t', ids !! t' = Some i -> t' = topic)) ->
  responses response
  = map (fun '(topic, ps) =>
           {| tr_topic := (designate version ids topic).1;
              tr_topic_id := (designate version ids topic).2;
              tr_partitions := ps |}) answered ->
  collect response ids = flat_map (fun '(topic, ps) => map (fetched topic) ps) answered.
Proof.
  intros Hok Hresp. unfold collect. rewrite Hresp. clear Hresp.
  induction answered as [|[topic ps] answered IH]; [done|]. cbn [map flat_map].
  rewrite IH by (intros t p Hin; apply (Hok t p); by right). f_equal.
  destruct (Hok topic ps) as [Hne Hid]; [left|]. cbn [tr_topic tr_topic_id tr_partitions].
  unfold designate. destruct (Z.leb_spec FETCH_TOPIC_ID_VERSION version) as [Hv|Hv]; cbn [fst snd].
  - destruct (Hid Hv) as (i & Hi & Hz & Huniq).
    rewrite decide_True, Hi by done. change (default ZERO_ID (Some i)) with i.
    by rewrite (names_by_id_lookup ids topic i).
  - by rewrite decide_False.
Qed.

(** A fetch that was not answered leaves the session
    claiming that its delta was delivered: the session keeps its id, its known
    state is the wanted one, and the next request for the same assignment carries
    no partition, although the broker may never have seen the delta. *)
Theorem failed_fetch_keeps_claim `{KafkaProtocol} {W} (cluster : Cluster W) w s wanted ids limits
    w1 v req w2 e :
  id s <> NO_SESSION ->
  negotiated_for cluster w = (w1, Ok v) ->
  build v (next s wanted).2 ids limits = Ok req ->
  send_to_node cluster w1 req = (w2, Err e) ->
  exists s', fetch cluster w s wanted ids limits = (w2, s', Err e)
    /\ id s' = id s /\ known s' = wanted
    /\ include (next s' wanted).2 = [] /\ forget (next s' wanted).2 = [].
Proof.
  intros Hid Hn Hb Hs. unfold fetch. cbn [fetch_loop].
  destruct (next s wanted) as [s1 d] eqn:Hnext. rewrite Hn. cbn [result_bind snd] in *.
  rewrite Hb, Hs. exists s1. unfold next in Hnext. injection Hnext as <- <-.
  split_and!; [done..| |];
    by rewrite (next_same {| id := id s; epoch := epoch s; known := wanted; forgotten := ∅ |}).
Qed.

(** *** Witnesses *)

#[local] Instance demo_protocol : KafkaProtocol := {|
  try_from_code c :=
    if c =? 0 then None
    else if c =? 70 then Some ResponseError.FetchSessionIdNotFound
    else Some ResponseError.NotCoordinator;
  is_retriable _ := true;
|}.

(** A broker that answers each request as its script says: accept, drop the
    session, or do not get to read it at all. *)
Inductive Reaction : Type := Accepts | Drops | Unreached.

Abbreviation DemoWorld := (list Reaction * gmap ((string * bytes) * Z) PartitionState)%type.

Definition demo_cluster : Cluster DemoWorld := {|
  negotiated_for w := (w, Ok 13);
  send_to_node (w : DemoWorld) req :=
    match w.1 with
    | Drops :: l => ((l, w.2), Ok {| error_code := 70; resp_session_id := 0; responses := [] |})
    | Unreached :: l => ((l, w.2), Err (Error.ConnectionClosed "broker-1"))
    | l => ((tail l, apply_request w.2 req),
            Ok {| error_code := 0; resp_session_id := 77; responses := [] |})
    end;
|}.

Definition demo_ids : gmap string bytes := {["orders"%string := replicate 16 Byte.x01]}.
Definition demo_limits : Limits :=
  {| l_max_wait_ms := 500; l_max_bytes := 1024; l_visibility := Batch.All |}.
Definition demo_wanted (at_ : Z) : gmap (string * Z) PartitionState :=
  {[("orders"%string, 0) := {| offset := at_; Session.max_bytes := 64 |}]}.

Lemma demo_identified (a b : Z) :
  identified 13 demo_ids (dom (demo_wanted a) ∪ dom (demo_wanted b)).
Proof.
  unfold demo_wanted. rewrite !dom_singleton_L. intros k1 k2 H1 H2 _.
  apply elem_of_union in H1, H2. rewrite !elem_of_singleton in H1, H2. naive_solver.
Qed.

Lemma demo_negotiated : keeps_version demo_cluster (snd : DemoWorld -> _) 13.
Proof. intros w. split; [done|]. by intros v [= <-]. Qed.

Lemma demo_sent : keeps_session demo_cluster (snd : DemoWorld -> _).
Proof. intros [[|[]] v] req resp; cbn; by try intros [= <-]. Qed.

(** One fetch of a script, with whether the session is still sound. *)
Definition demo_step (st : DemoWorld * FetchSession * bool) (z : Z) : DemoWorld * FetchSession * bool :=
  let '(w, s, sound) := st in
  let '(w', s', r) := fetch demo_cluster w s (demo_wanted z) demo_ids demo_limits in
  (w', s', sound_after sound s' r).

Definition demo_start : DemoWorld * FetchSession * bool :=
  ([Drops; Accepts; Accepts; Unreached; Drops; Accepts], ∅, default_session, true).

Definition demo_run (st : DemoWorld * FetchSession * bool) : Prop :=
  session_run demo_cluster snd 13 demo_ids demo_limits st.1.1 st.1.2 st.2
  /\ (known st.1.2 = ∅ \/ exists z, known st.1.2 = demo_wanted z).

Lemma demo_known s z : known s = ∅ \/ (exists z, known s = demo_wanted z) ->
  identified 13 demo_ids (dom (known s) ∪ dom (demo_wanted z)).
Proof.
  intros [->|[y ->]]; [|apply demo_identified].
  rewrite dom_empty_L. intros k1 k2 H1 H2. apply (demo_identified z z); set_solver.
Qed.

Lemma demo_fetch_known w s z :
  known (fetch demo_cluster w s (demo_wanted z) demo_ids demo_limits).1.2 = demo_wanted z.
Proof.
  destruct w as [[|[] [|[] l]] v]; unfold fetch, fetch_loop;
    cbn [next negotiated_for send_to_node demo_cluster fst snd result_bind];
    repeat (case_match; try done); by simplify_eq/=.
Qed.

Lemma demo_step_run st z : demo_run st -> demo_run (demo_step st z).
Proof.
  destruct st as [[w s] sound]. intros [Hrun Hk]. unfold demo_step, demo_run.
  pose proof (demo_fetch_known w s z) as Hz.
  destruct (fetch demo_cluster w s (demo_wanted z) demo_ids demo_limits) as [[w' s'] r] eqn:E.
  cbn [fst snd] in *. split; [|right; by exists z].
  apply (run_fetch _ _ _ _ _ w s sound (demo_wanted z)); [done|by apply demo_known|done].
Qed.

Lemma demo_steps_run zs : demo_run (foldl demo_step demo_start zs).
Proof.
  assert (Hs : forall st, demo_run st -> demo_run (foldl demo_step st zs)).
  { induction zs as [|z zs IH]; intros st Hst; [done|]. by apply IH, demo_step_run. }
  apply Hs. split; [apply run_new|by left].
Qed.

(** The first fetch rebuilds a dropped session and the second is incremental; the
    third fails, and the fourth opens the session again. *)
Lemma session_refines_view_witness :
  let st1 := foldl demo_step demo_start [5] in
  let st3 := foldl demo_step demo_start [5; 9; 12] in
  st1.2 = true /\ id st1.1.2 = 77 /\ st3.2 = false /\ id st3.1.2 = 77
  /\ (exists w s out,
        fetch demo_cluster st1.1.1 st1.1.2 (demo_wanted 9) demo_ids demo_limits = (w, s, Ok out)
        /\ represents 13 demo_ids w.2 (demo_wanted 9))
  /\ (exists w s out,
        fetch demo_cluster st3.1.1 st3.1.2 (demo_wanted 12) demo_ids demo_limits = (w, s, Ok out)
        /\ represents 13 demo_ids w.2 (demo_wanted 12)).
Proof.
  intros st1 st3.
  assert (Hb1 : st1.2 = true) by (vm_compute; reflexivity).
  do 4 (split; [vm_compute; reflexivity|]). split.
  - assert (Hok : is_ok (fetch demo_cluster st1.1.1 st1.1.2 (demo_wanted 9) demo_ids demo_limits).2
                  = true) by (vm_compute; reflexivity).
    destruct (demo_steps_run [5]) as [Hrun Hk]. fold st1 in Hrun, Hk.
    destruct (fetch demo_cluster st1.1.1 st1.1.2 (demo_wanted 9) demo_ids demo_limits)
      as [[w s] [out|e]] eqn:E; [|discriminate Hok].
    exists w, s, out. split; [reflexivity|].
    destruct (session_refines_view demo_cluster snd 13 demo_ids demo_limits (demo_wanted 9)
                st1.1.1 st1.1.2 st1.2 w s out demo_negotiated demo_sent Hrun (demo_known _ 9 Hk) E)
      as (_ & _ & Hrep).
    apply Hrep. left. exact Hb1.
  - assert (Hok : is_ok (fetch demo_cluster st3.1.1 st3.1.2 (demo_wanted 12) demo_ids demo_limits).2
                  = true) by (vm_compute; reflexivity).
    assert (Hep : epoch (fetch demo_cluster st3.1.1 st3.1.2 (demo_wanted 12) demo_ids demo_limits).1.2
                  = 1) by (vm_compute; reflexivity).
    destruct (demo_steps_run [5; 9; 12]) as [Hrun Hk]. fold st3 in Hrun, Hk.
    destruct (fetch demo_cluster st3.1.1 st3.1.2 (demo_wanted 12) demo_ids demo_limits)
      as [[w s] [out|e]] eqn:E; [|discriminate Hok].
    exists w, s, out. split; [reflexivity|].
    destruct (session_refines_view demo_cluster snd 13 demo_ids demo_limits (demo_wanted 12)
                st3.1.1 st3.1.2 st3.2 w s out demo_negotiated demo_sent Hrun (demo_known _ 12 Hk) E)
      as (_ & _ & Hrep).
    apply Hrep. right. exact Hep.
Defined.

Definition demo_partition : PartitionData := {|
  pd_partition_index := 0; pd_error_code := 0; pd_high_watermark := 12;
  pd_last_stable_offset := 12; pd_log_start_offset := 0; pd_aborted_transactions := None;
  pd_records := None;
|}.

Lemma response_finds_its_topic_witness :
  collect {| error_code := 0; resp_session_id := 77;
             responses := [{| tr_topic := ""; tr_topic_id := replicate 16 Byte.x01;
                              tr_partitions := [demo_partition] |}] |} demo_ids
  = [fetched "orders" demo_partition].
Proof.
  apply (response_finds_its_topic 13 demo_ids [("orders"%string, [demo_partition])]).
  - intros topic ps Hin. apply list_elem_of_singleton in Hin. injection Hin as -> ->.
    split; [discriminate|]. intros _. exists (replicate 16 Byte.x01).
    split; [reflexivity|]. split; [reflexivity|].
    intros t' Ht. unfold demo_ids in Ht. apply lookup_singleton_Some in Ht as [<- _]. reflexivity.
  - reflexivity.
Defined.

(** A leader that cannot be reached. *)
Definition dead_cluster : Cluster unit := {|
  negotiated_for w := (w, Ok 12);
  send_to_node w req := (w, Err (Error.ConnectionClosed "broker-1"));
|}.

Definition stale_session : FetchSession :=
  {| id := 77; epoch := 4; known := demo_wanted 5; forgotten := ∅ |}.

Lemma failed_fetch_keeps_claim_witness :
  exists s',
    fetch dead_cluster tt stale_session (demo_wanted 9) demo_ids demo_limits
      = (tt, s', Err (Error.ConnectionClosed "broker-1"))
    /\ include (next s' (demo_wanted 9)).2 = [].
Proof.
  assert (Hok : is_ok (build 12 (next stale_session (demo_wanted 9)).2 demo_ids demo_limits) = true)
    by (vm_compute; reflexivity).
  destruct (build 12 (next stale_session (demo_wanted 9)).2 demo_ids demo_limits)
    as [req|] eqn:E; [|discriminate Hok].
  destruct (failed_fetch_keeps_claim dead_cluster tt stale_session
              (demo_wanted 9) demo_ids demo_limits tt 12 req tt
              (Error.ConnectionClosed "broker-1")) as (s' & H1 & _ & _ & H2 & _);
    [discriminate|reflexivity|exact E|reflexivity|].
  exists s'. split; [exact H1|exact H2].
Defined.

End FetchProperties.
