(* ===== verification/Coordinator.v ===== *)
(** Re-asking: the group coordinator ([crates/kafka-consume/src/coordinator.rs]) and
    the leader that answers [ListOffsets] ([crates/kafka-read/src/offsets.rs]).

    Both loops are [Retry.reask]; what is here is what one attempt concludes.  The
    answers, the clock and the jitter of a run are streams indexed by attempt. *)

From S2P Require Import Prelude Sanitize ErrorCodes Retry.
From Stdlib Require Import QArith.
Open Scope Z_scope.

Module Coordinator.

Section ask.
Context {R : Type} (code_of : R -> option ErrorCode.ErrorCode).

(** What one attempt concludes, and whether the cached coordinator is dropped. *)
Definition verdict (answer : result R Error.Error)
    : result (Retry.Verdict R Error.Error) Error.Error * bool :=
  match answer with
  | Err e => (Err e, false)
  | Ok response =>
      match code_of response with
      | Some code =>
          if ErrorCode.needs_coordinator_refresh code
          then (Ok (Retry.Reask (Ok response)), true)
          else (Ok (Retry.Settled response), false)
      | None => (Ok (Retry.Settled response), false)
      end
  end.

(** The run of one call: the answer of each attempt, the clock after it, the jitter
    of the delay that follows. *)
Record Run : Type := {
  answers : nat -> result R Error.Error;
  clock : nat -> Z;
  jitter : nat -> Q;
}.

Definition send_retrying_until (fuel : nat) (policy : Retry.RetryPolicy) (started : Z)
    (deadline : option Z) (run : Run) : option (result R Error.Error) :=
  Retry.reask fuel policy
    {| Retry.attempt_fn := fun i _ => (verdict (answers run i)).1;
       Retry.now := clock run; Retry.sample := jitter run |} deadline started.

Definition send_retrying (fuel : nat) (policy : Retry.RetryPolicy) (started : Z) (run : Run)
    : option (result R Error.Error) :=
  send_retrying_until fuel policy started None run.

End ask.

Arguments Run : clear implicits.

End Coordinator.

Module ListOffsets.

Definition CONSUMER_REPLICA_ID : Z := -1.
Definition EARLIEST : Z := -2.
Definition LATEST : Z := -1.

Record ListOffsetsPartition : Type := {
  lo_partition_index : Z;
  lo_current_leader_epoch : Z;
  lo_timestamp : Z;
}.

Record ListOffsetsRequest : Type := {
  lo_replica_id : Z;
  lo_isolation_level : Z;
  lo_topics : list (string * list ListOffsetsPartition);
}.

Record ListOffsetsPartitionResponse : Type := {
  lr_partition_index : Z;
  lr_error_code : Z;
  lr_offset : Z;
}.

(** Per topic, its partitions. *)
Record ListOffsetsResponse : Type := { lr_topics : list (list ListOffsetsPartitionResponse) }.

Definition list_request (topic : string) (partition timestamp : Z) : ListOffsetsRequest := {|
  lo_replica_id := CONSUMER_REPLICA_ID;
  lo_isolation_level := 0;
  lo_topics := [(topic, [{| lo_partition_index := partition; lo_current_leader_epoch := -1;
                            lo_timestamp := timestamp |}])];
|}.

Section list.
Context `{KafkaProtocol}.

(** The first entry of the partition decides; a negative offset is no offset. *)
Definition read_list (topic : string) (partition : Z) (response : ListOffsetsResponse)
    : result (option Z) Error.Error :=
  match List.find (fun p => lr_partition_index p =? partition) (concat (lr_topics response)) with
  | None => Ok None
  | Some p =>
      match ErrorCode.from_code (lr_error_code p) with
      | Some code =>
          Err (Error.from_code code (Some (text_of_string (topic +:+ "-" +:+ pretty partition))))
      | None => Ok (if 0 <=? lr_offset p then Some (lr_offset p) else None)
      end
  end.

(** The run of one lookup: what a leader answers at each attempt, who is the leader
    once the metadata was asked again, the clock and the jitter. *)
Record Run : Type := {
  asked : nat -> Z -> ListOffsetsRequest -> result ListOffsetsResponse Error.Error;
  fresh_leader : nat -> result Z Error.Error;
  clock : nat -> Z;
  jitter : nat -> Q;
}.

Definition list_one_once (run : Run) (i : nat) (topic : string) (partition leader timestamp : Z)
    : result (option Z) Error.Error :=
  let? response := asked run i leader (list_request topic partition timestamp) in
  read_list topic partition response.

(** The leader attempt [i] asks: each failed attempt stores the one it found. *)
Fixpoint current_leader (run : Run) (leader : Z) (i : nat) : Z :=
  match i with
  | O => leader
  | S i => match fresh_leader run i with
           | Ok fresh => fresh
           | Err _ => current_leader run leader i
           end
  end.

(** What one attempt concludes, and whether the metadata is refreshed. *)
Definition list_verdict (answer : result (option Z) Error.Error)
    : result (Retry.Verdict (option Z) Error.Error) Error.Error * bool :=
  match answer with
  | Ok value => (Ok (Retry.Settled value), false)
  | Err error =>
      if Error.retriable error
      then (Ok (Retry.Reask (Err error)), Error.needs_metadata_refresh error)
      else (Err error, false)
  end.

Definition list_one (fuel : nat) (policy : Retry.RetryPolicy) (started : Z) (run : Run)
    (topic : string) (partition leader timestamp : Z) : option (result (option Z) Error.Error) :=
  Retry.reask fuel policy
    {| Retry.attempt_fn := fun i _ =>
         (list_verdict
            (list_one_once run i topic partition (current_leader run leader i) timestamp)).1;
       Retry.now := clock run; Retry.sample := jitter run |} None started.

End list.

End ListOffsets.
