(* ===== verification/Consumer.v ===== *)
(** The manually assigned consumer: committed offsets
    ([crates/kafka-consume/src/offsets.rs]) and positions, buffering and the fetch
    round ([Consumer] of [crates/kafka-consume/src/consumer.rs]).

    The cluster handle is the record [Net] over an abstract world.  Its
    [ask_commit] and [ask_fetch] stand for [Coordinator.send_retrying] with
    [commit_code] and [fetch_code], its [list_one] for [ListOffsets.list_one]. *)

From S2P Require Import Prelude Sanitize ErrorCodes Retry BatchDecode Fetch Coordinator.
From Stdlib Require Import QArith.
Open Scope Z_scope.

Module Offsets.

Definition NOT_A_MEMBER : Z := -1.
Definition OFFSET_FETCH_GROUPS_VERSION : Z := 8.

(** An offset with the metadata a caller attached to it. *)
Record CommittedOffset : Type := { co_offset : Z; co_metadata : option string }.

(** The membership a commit is made under. *)
Record CommitAs : Type := {
  ca_member_id : string;
  ca_epoch : Z;
  ca_instance_id : option string;
}.

Record OffsetCommitPartition : Type := {
  oc_partition_index : Z;
  oc_committed_offset : Z;
  oc_committed_leader_epoch : Z;
  oc_committed_metadata : option string;
}.

Record OffsetCommitRequest : Type := {
  oc_group_id : string;
  oc_epoch : Z;
  oc_member_id : string;
  oc_group_instance_id : option string;
  oc_topics : list (string * list OffsetCommitPartition);
}.

(** Per topic, the partitions with their error codes. *)
Record OffsetCommitResponse : Type := { oc_results : list (string * list (Z * Z)) }.

(** The two shapes of a request: [groups] from version 8 on, the top-level fields
    before. *)
Inductive OffsetFetchRequest : Type :=
  | Grouped (require_stable : bool) (groups : list (string * list (string * list Z)))
  | Flat (require_stable : bool) (group_id : string) (topics : list (string * list Z)).

Record FetchedOffset : Type := {
  fo_partition_index : Z;
  fo_committed_offset : Z;
  fo_error_code : Z;
  fo_metadata : option string;
}.

Record OffsetFetchResponse : Type := {
  fr_groups : list (Z * list (string * list FetchedOffset));
  fr_error_code : Z;
  fr_topics : list (string * list FetchedOffset);
}.

Section offsets.
Context `{KafkaProtocol}.

Definition commit_request (group_id : string) (member : option CommitAs)
    (offsets : gmap (string * Z) CommittedOffset) : OffsetCommitRequest :=
  let by_topic :=
    foldl (fun m '((topic, partition), committed) =>
             push_to m topic {| oc_partition_index := partition;
                                oc_committed_offset := co_offset committed;
                                oc_committed_leader_epoch := -1;
                                oc_committed_metadata := co_metadata committed |})
      ∅ (map_to_list offsets) in
  {| oc_group_id := group_id;
     oc_epoch := match member with Some m => ca_epoch m | None => NOT_A_MEMBER end;
     oc_member_id := match member with Some m => ca_member_id m | None => "" end;
     oc_group_instance_id := match member with Some m => ca_instance_id m | None => None end;
     oc_topics := map_to_list by_topic |}.

(** The codes the re-ask looks at. *)
Definition commit_code (response : OffsetCommitResponse) : option ErrorCode.ErrorCode :=
  head (omap (fun '(_, code) => ErrorCode.from_code code)
          (flat_map snd (oc_results response))).

Definition fetch_code (response : OffsetFetchResponse) : option ErrorCode.ErrorCode :=
  match head (fr_groups response) ≫= (fun '(code, _) => ErrorCode.from_code code) with
  | Some code => Some code
  | None => ErrorCode.from_code (fr_error_code response)
  end.

(** One result per partition of the answer. *)
Definition read_commit (response : OffsetCommitResponse)
    : list ((string * Z) * result unit Error.Error) :=
  flat_map (fun '(name, partitions) =>
    map (fun '(index, code) =>
           ((name, index),
            match ErrorCode.from_code code with
            | Some code => Err (Error.from_code code None)
            | None => Ok tt
            end)) partitions) (oc_results response).

Definition fetch_request (version : Z) (group_id : string) (partitions : list (string * Z))
    : OffsetFetchRequest :=
  let by_topic :=
    foldl (fun m '(topic, partition) => push_to m topic partition) ∅ partitions in
  if OFFSET_FETCH_GROUPS_VERSION <=? version
  then Grouped true [(group_id, map_to_list by_topic)]
  else Flat true group_id (map_to_list by_topic).

(** A negative offset says that nothing is committed, and is not stored.  The
    partition's error code is not looked at. *)
Definition record (out : gmap (string * Z) CommittedOffset) (topic : string) (p : FetchedOffset)
    : gmap (string * Z) CommittedOffset :=
  if fo_committed_offset p <? 0 then out
  else <[(topic, fo_partition_index p) := {| co_offset := fo_committed_offset p;
                                             co_metadata := fo_metadata p |}]> out.

Definition record_topics (topics : list (string * list FetchedOffset))
    : gmap (string * Z) CommittedOffset :=
  foldl (fun out '(topic, partitions) => foldl (fun out p => record out topic p) out partitions)
    ∅ topics.

Definition read_fetch (response : OffsetFetchResponse)
    : result (gmap (string * Z) CommittedOffset) Error.Error :=
  match fr_groups response with
  | (code, topics) :: _ =>
      match ErrorCode.from_code code with
      | Some code => Err (Error.from_code code None)
      | None => Ok (record_topics topics)
      end
  | [] =>
      match ErrorCode.from_code (fr_error_code response) with
      | Some code => Err (Error.from_code code None)
      | None => Ok (record_topics (fr_topics response))
      end
  end.

End offsets.

End Offsets.

Module Consumer.
Import Session Fetcher Offsets.

Inductive GroupProtocol : Type := Auto | ConsumerProtocol | Classic.

Record ConsumerConfig : Type := {
  max_wait_ms : Z;
  max_bytes : Z;
  partition_max_bytes : Z;
  visibility : Batch.Visibility;
  max_decompressed_bytes : Z;
  group_id : option string;
  rebalance_timeout_ms : Z;
  session_timeout_ms : Z;
  group_protocol : GroupProtocol;
  retry : option Retry.RetryPolicy;
}.

Definition new_config : ConsumerConfig := {|
  max_wait_ms := 500;
  max_bytes := 50 * 1024 * 1024;
  partition_max_bytes := 1024 * 1024;
  visibility := Batch.CommittedOnly;
  max_decompressed_bytes := 64 * 1024 * 1024;
  group_id := None;
  rebalance_timeout_ms := 300000;
  session_timeout_ms := 45000;
  group_protocol := Auto;
  retry := None;
|}.

(** The builder methods: each sets one field. *)
Definition with_retry (self : ConsumerConfig) (policy : Retry.RetryPolicy) : ConsumerConfig := {|
  max_wait_ms := max_wait_ms self; max_bytes := max_bytes self;
  partition_max_bytes := partition_max_bytes self; visibility := visibility self;
  max_decompressed_bytes := max_decompressed_bytes self; group_id := group_id self;
  rebalance_timeout_ms := rebalance_timeout_ms self; session_timeout_ms := session_timeout_ms self;
  group_protocol := group_protocol self; retry := Some policy |}.
Definition with_group_id (self : ConsumerConfig) (group : string) : ConsumerConfig := {|
  max_wait_ms := max_wait_ms self; max_bytes := max_bytes self;
  partition_max_bytes := partition_max_bytes self; visibility := visibility self;
  max_decompressed_bytes := max_decompressed_bytes self; group_id := Some group;
  rebalance_timeout_ms := rebalance_timeout_ms self; session_timeout_ms := session_timeout_ms self;
  group_protocol := group_protocol self; retry := retry self |}.
Definition with_visibility (self : ConsumerConfig) (v : Batch.Visibility) : ConsumerConfig := {|
  max_wait_ms := max_wait_ms self; max_bytes := max_bytes self;
  partition_max_bytes := partition_max_bytes self; visibility := v;
  max_decompressed_bytes := max_decompressed_bytes self; group_id := group_id self;
  rebalance_timeout_ms := rebalance_timeout_ms self; session_timeout_ms := session_timeout_ms self;
  group_protocol := group_protocol self; retry := retry self |}.
Definition with_max_wait_ms (self : ConsumerConfig) (ms : Z) : ConsumerConfig := {|
  max_wait_ms := ms; max_bytes := max_bytes self; partition_max_bytes := partition_max_bytes self;
  visibility := visibility self; max_decompressed_bytes := max_decompressed_bytes self;
  group_id := group_id self; rebalance_timeout_ms := rebalance_timeout_ms self;
  session_timeout_ms := session_timeout_ms self; group_protocol := group_protocol self;
  retry := retry self |}.
Definition with_max_bytes (self : ConsumerConfig) (bytes_ : Z) : ConsumerConfig := {|
  max_wait_ms := max_wait_ms self; max_bytes := bytes_;
  partition_max_bytes := partition_max_bytes self; visibility := visibility self;
  max_decompressed_bytes := max_decompressed_bytes self; group_id := group_id self;
  rebalance_timeout_ms := rebalance_timeout_ms self; session_timeout_ms := session_timeout_ms self;
  group_protocol := group_protocol self; retry := retry self |}.
Definition with_partition_max_bytes (self : ConsumerConfig) (bytes_ : Z) : ConsumerConfig := {|
  max_wait_ms := max_wait_ms self; max_bytes := max_bytes self; partition_max_bytes := bytes_;
  visibility := visibility self; max_decompressed_bytes := max_decompressed_bytes self;
  group_id := group_id self; rebalance_timeout_ms := rebalance_timeout_ms self;
  session_timeout_ms := session_timeout_ms self; group_protocol := group_protocol self;
  retry := retry self |}.
Definition with_max_decompressed_bytes (self : ConsumerConfig) (bytes_ : Z) : ConsumerConfig := {|
  max_wait_ms := max_wait_ms self; max_bytes := max_bytes self;
  partition_max_bytes := partition_max_bytes self; visibility := visibility self;
  max_decompressed_bytes := bytes_; group_id := group_id self;
  rebalance_timeout_ms := rebalance_timeout_ms self; session_timeout_ms := session_timeout_ms self;
  group_protocol := group_protocol self; retry := retry self |}.
Definition with_rebalance_timeout_ms (self : ConsumerConfig) (ms : Z) : ConsumerConfig := {|
  max_wait_ms := max_wait_ms self; max_bytes := max_bytes self;
  partition_max_bytes := partition_max_bytes self; visibility := visibility self;
  max_decompressed_bytes := max_decompressed_bytes self; group_id := group_id self;
  rebalance_timeout_ms := ms; session_timeout_ms := session_timeout_ms self;
  group_protocol := group_protocol self; retry := retry self |}.
Definition with_session_timeout_ms (self : ConsumerConfig) (ms : Z) : ConsumerConfig := {|
  max_wait_ms := max_wait_ms self; max_bytes := max_bytes self;
  partition_max_bytes := partition_max_bytes self; visibility := visibility self;
  max_decompressed_bytes := max_decompressed_bytes self; group_id := group_id self;
  rebalance_timeout_ms := rebalance_timeout_ms self; session_timeout_ms := ms;
  group_protocol := group_protocol self; retry := retry self |}.
Definition with_group_protocol (self : ConsumerConfig) (protocol : GroupProtocol) : ConsumerConfig := {|
  max_wait_ms := max_wait_ms self; max_bytes := max_bytes self;
  partition_max_bytes := partition_max_bytes self; visibility := visibility self;
  max_decompressed_bytes := max_decompressed_bytes self; group_id := group_id self;
  rebalance_timeout_ms := rebalance_timeout_ms self; session_timeout_ms := session_timeout_ms self;
  group_protocol := protocol; retry := retry self |}.

(** Where to start reading. *)
Inductive Position : Type := Earliest | Latest | Offset (offset : Z).

Record Assigned : Type := { position_ : Z; paused : bool; high_watermark_ : Z }.

Definition fresh_assigned (position : Z) : Assigned :=
  {| position_ := position; paused := false; high_watermark_ := -1 |}.

Record Consumer : Type := {
  config : ConsumerConfig;
  assignment : gmap (string * Z) Assigned;
  topic_ids : gmap string bytes;
  fetchers : gmap Z FetchSession;
  buffered : list Batch.DRecord;
}.

Definition new (config : ConsumerConfig) : Consumer :=
  {| config := config; assignment := ∅; topic_ids := ∅; fetchers := ∅; buffered := [] |}.

Definition with_assignment (self : Consumer) (assignment : gmap (string * Z) Assigned)
    : Consumer := {|
  config := config self; assignment := assignment; topic_ids := topic_ids self;
  fetchers := fetchers self; buffered := buffered self |}.

Definition with_topic_ids (self : Consumer) (topic_ids : gmap string bytes) : Consumer := {|
  config := config self; assignment := assignment self; topic_ids := topic_ids;
  fetchers := fetchers self; buffered := buffered self |}.

Definition with_fetchers (self : Consumer) (fetchers : gmap Z FetchSession) : Consumer := {|
  config := config self; assignment := assignment self; topic_ids := topic_ids self;
  fetchers := fetchers; buffered := buffered self |}.

Definition with_buffered (self : Consumer) (buffered : list Batch.DRecord) : Consumer := {|
  config := config self; assignment := assignment self; topic_ids := topic_ids self;
  fetchers := fetchers self; buffered := buffered |}.

(** What a consumer asks of its cluster. *)
Record Net (W : Type) : Type := {
  refresh_topics : W -> list string -> W * result (gmap string bytes) Error.Error;
  leader_for : W -> string -> Z -> W * result Z Error.Error;
  list_one : W -> string -> Z -> Z -> Z -> W * result (option Z) Error.Error;
  fetch_version : W -> W * result Z Error.Error;
  send_fetch : W -> Z -> FetchRequest -> W * result FetchResponse Error.Error;
  invalidate : W -> W;
  offset_fetch_version : W -> W * result Z Error.Error;
  ask_fetch : W -> string -> OffsetFetchRequest -> W * result OffsetFetchResponse Error.Error;
  ask_commit : W -> string -> OffsetCommitRequest -> W * result OffsetCommitResponse Error.Error;
}.
Arguments refresh_topics {W}.
Arguments leader_for {W}.
Arguments list_one {W}.
Arguments fetch_version {W}.
Arguments send_fetch {W}.
Arguments invalidate {W}.
Arguments offset_fetch_version {W}.
Arguments ask_fetch {W}.
Arguments ask_commit {W}.

(** ** What touches only the consumer *)

(** The key a record is delivered under. *)
Definition record_key (r : Batch.DRecord) : string * Z := (Batch.r_topic r, Batch.r_partition r).

Definition seek (self : Consumer) (topic : string) (partition offset : Z)
    : Consumer * result unit Error.Error :=
  match assignment self !! (topic, partition) with
  | None =>
      (self, Err (Error.InvalidRequest (topic +:+ "-" +:+ pretty partition +:+ " is not assigned")))
  | Some assigned =>
      (with_buffered
         (with_assignment self
            (<[(topic, partition) := {| position_ := offset; paused := paused assigned;
                                        high_watermark_ := high_watermark_ assigned |}]>
               (assignment self)))
         (filter (fun r => record_key r <> (topic, partition)) (buffered self)), Ok tt)
  end.

Definition set_paused (self : Consumer) (topic : string) (partition : Z) (value : bool)
    : Consumer :=
  with_assignment self
    (alter (fun assigned => {| position_ := position_ assigned; paused := value;
                               high_watermark_ := high_watermark_ assigned |})
       (topic, partition) (assignment self)).

Definition pause (self : Consumer) (topic : string) (partition : Z) : Consumer :=
  set_paused self topic partition true.

Definition resume (self : Consumer) (topic : string) (partition : Z) : Consumer :=
  set_paused self topic partition false.

Definition is_paused (self : Consumer) (topic : string) (partition : Z) : bool :=
  match assignment self !! (topic, partition) with Some a => paused a | None => false end.

Definition positions (self : Consumer) : list ((string * Z) * Z) :=
  map (fun '(key, assigned) => (key, position_ assigned)) (map_to_list (assignment self)).

Definition position (self : Consumer) (topic : string) (partition : Z) : option Z :=
  position_ <$> assignment self !! (topic, partition).

(** The distance to the high watermark, once a fetch has reported one.  The
    subtraction wraps in a release build. *)
Definition lag (self : Consumer) (topic : string) (partition : Z) : option Z :=
  match assignment self !! (topic, partition) with
  | Some assigned =>
      if 0 <=? high_watermark_ assigned
      then Some (Z.max 0 (i64_wrap (high_watermark_ assigned - position_ assigned)))
      else None
  | None => None
  end.

Definition take_buffered (self : Consumer) : Consumer * option (list Batch.DRecord) :=
  match buffered self with
  | [] => (self, None)
  | records => (with_buffered self [], Some records)
  end.

Definition group (self : Consumer) : result string Error.Error :=
  ok_or (group_id (config self))
    (Error.InvalidRequest
       "this consumer has no group id; set one with ConsumerConfig::with_group_id").

(** ** Reading a fetch *)

(** One outcome of a decoded partition: the position it leaves, and the record it
    delivers. *)
Definition take_outcome (acc : Z * list Batch.DRecord) (outcome : Batch.RecordOutcome)
    : Z * list Batch.DRecord :=
  let '(position, records) := acc in
  match outcome with
  | Batch.Decoded record =>
      if Batch.r_offset record <? position then (position, records)
      else (i64_saturating_add (Batch.r_offset record) 1, records ++ [record])
  | Batch.Malformed offset _ _ _ =>
      (Z.max position (i64_saturating_add offset 1), records)
  end.

Definition decode_options (config : ConsumerConfig) : Batch.DecodeOptions :=
  {| Batch.max_decompressed_bytes := max_decompressed_bytes config;
     Batch.visibility := visibility config |}.

Section reading.
Context `{KafkaProtocol, Batch.RecordCodec}.

(** The outcomes of one fetched partition; decoding always answers. *)
Definition outcomes_of (config : ConsumerConfig) (fetched : Fetched) : list Batch.RecordOutcome :=
  match Batch.decode_records_with_aborted (topic fetched) (partition fetched) (records fetched)
          (aborted fetched) (decode_options config) with
  | Some decoded => Batch.outcomes decoded
  | None => []
  end.

(** One fetched partition: the consumer it leaves, and whether the metadata is to
    be refreshed. *)
Definition take_partition (self : Consumer) (fetched : Fetched) : Consumer * bool :=
  let key := (topic fetched, partition fetched) in
  match assignment self !! key with
  | None => (self, false)
  | Some assigned =>
      match error fetched with
      | Some error => (self, Error.needs_metadata_refresh error)
      | None =>
          let '(position, delivered) :=
            match records fetched with
            | [] => (position_ assigned, [])
            | _ => foldl take_outcome (position_ assigned, []) (outcomes_of (config self) fetched)
            end in
          (with_buffered
             (with_assignment self
                (<[key := {| position_ := position; paused := paused assigned;
                             high_watermark_ := high_watermark fetched |}]> (assignment self)))
             (buffered self ++ delivered), false)
      end
  end.

(** ** Asking the cluster *)

Context {W : Type} (net : Net W).

Fixpoint take_partitions (w : W) (self : Consumer) (l : list Fetched) : W * Consumer :=
  match l with
  | [] => (w, self)
  | fetched :: l =>
      let '(self, refresh) := take_partition self fetched in
      take_partitions (if refresh then invalidate net w else w) self l
  end.

(** Group the active assignment by leader; a partition without one waits. *)
Fixpoint group_by_leader (w : W) (max_bytes : Z) (l : list ((string * Z) * Assigned))
    (by_leader : gmap Z (gmap (string * Z) PartitionState))
    : W * gmap Z (gmap (string * Z) PartitionState) :=
  match l with
  | [] => (w, by_leader)
  | (key, assigned) :: l =>
      if paused assigned then group_by_leader w max_bytes l by_leader
      else
        let '(w, leader) := leader_for net w key.1 key.2 in
        match leader with
        | Err _ => group_by_leader w max_bytes l by_leader
        | Ok leader =>
            group_by_leader w max_bytes l
              (<[leader := <[key := {| offset := position_ assigned;
                                       Session.max_bytes := max_bytes |}]>
                             (default ∅ (by_leader !! leader))]> by_leader)
        end
  end.

Definition limits (config : ConsumerConfig) : Limits :=
  {| l_max_wait_ms := max_wait_ms config; l_max_bytes := max_bytes config;
     l_visibility := visibility config |}.

(** The cluster as the fetcher of one leader sees it. *)
Definition to_leader (leader : Z) : Cluster W :=
  {| negotiated_for := fetch_version net; send_to_node := fun w => send_fetch net w leader |}.

Fixpoint fetch_leaders (w : W) (self : Consumer)
    (l : list (Z * gmap (string * Z) PartitionState)) : W * Consumer * result unit Error.Error :=
  match l with
  | [] => (w, self, Ok tt)
  | (leader, wanted) :: l =>
      let session := default default_session (fetchers self !! leader) in
      let '(w, session, fetched) :=
        fetch (to_leader leader) w session wanted (topic_ids self) (limits (config self)) in
      let self := with_fetchers self (<[leader := session]> (fetchers self)) in
      match fetched with
      | Err e => (w, self, Err e)
      | Ok fetched =>
          let '(w, self) := take_partitions w self fetched in
          fetch_leaders w self l
      end
  end.

(** One fetch round: every leader with active partitions, and every broker that
    still holds a session, is asked once. *)
Definition fetch_once (w : W) (self : Consumer) : W * Consumer * result unit Error.Error :=
  let '(w, by_leader) :=
    group_by_leader w (partition_max_bytes (config self)) (map_to_list (assignment self)) ∅ in
  let kept :=
    filter (fun '(leader, session) => is_Some (by_leader !! leader) \/ id session <> NO_SESSION)
      (fetchers self) in
  let self := with_fetchers self kept in
  let by_leader := by_leader ∪ ((fun _ => ∅) <$> kept) in
  fetch_leaders w self (map_to_list by_leader).

Definition poll (w : W) (self : Consumer) : W * Consumer * result (list Batch.DRecord) Error.Error :=
  let '(self, ready) := take_buffered self in
  match ready with
  | Some ready => (w, self, Ok ready)
  | None =>
      let '(w, self, fetched) := fetch_once w self in
      match fetched with
      | Err e => (w, self, Err e)
      | Ok _ =>
          let '(self, ready) := take_buffered self in
          (w, self, Ok (default [] ready))
      end
  end.

(** *** Offsets of partitions *)

(** [kafka_read::partition_bounds]. *)
Definition partition_bounds (w : W) (topic : string) (partition : Z)
    : W * result (Z * Z) Error.Error :=
  let '(w, leader) := leader_for net w topic partition in
  match leader with
  | Err e => (w, Err e)
  | Ok leader =>
      let '(w, first) := list_one net w topic partition leader ListOffsets.EARLIEST in
      match first with
      | Err e => (w, Err e)
      | Ok first =>
          let earliest := default 0 first in
          let '(w, last) := list_one net w topic partition leader ListOffsets.LATEST in
          match last with
          | Err e => (w, Err e)
          | Ok last => (w, Ok (earliest, Z.max (default earliest last) earliest))
          end
      end
  end.

(** The bounds of every partition that has none yet. *)
Fixpoint fill_bounds (w : W) (choose : Z * Z -> Z) (l : list (string * Z))
    (out : gmap (string * Z) Z) : W * result (gmap (string * Z) Z) Error.Error :=
  match l with
  | [] => (w, Ok out)
  | key :: l =>
      let '(w, bounds) := partition_bounds w key.1 key.2 in
      match bounds with
      | Err e => (w, Err e)
      | Ok bounds => fill_bounds w choose l (<[key := choose bounds]> out)
      end
  end.

Definition resolve (w : W) (partitions : list (string * Z)) (from : Position)
    : W * result (gmap (string * Z) Z) Error.Error :=
  match from with
  | Offset offset => (w, Ok (foldl (fun out key => <[key := offset]> out) ∅ partitions))
  | Earliest => fill_bounds w fst partitions ∅
  | Latest => fill_bounds w snd partitions ∅
  end.

(** [offsets::fetch]. *)
Definition fetch_offsets (w : W) (group : string) (partitions : list (string * Z))
    : W * result (gmap (string * Z) CommittedOffset) Error.Error :=
  let '(w, version) := offset_fetch_version net w in
  match version with
  | Err e => (w, Err e)
  | Ok version =>
      let '(w, response) := ask_fetch net w group (fetch_request version group partitions) in
      (w, let? response := response in read_fetch response)
  end.

(** [offsets::commit]. *)
Definition commit_offsets (w : W) (group : string) (member : option CommitAs)
    (offsets : gmap (string * Z) CommittedOffset)
    : W * result (list ((string * Z) * result unit Error.Error)) Error.Error :=
  if decide (offsets = ∅) then (w, Ok [])
  else
    let '(w, response) := ask_commit net w group (commit_request group member offsets) in
    (w, let? response := response in Ok (read_commit response)).

(** The log's start for every partition that has no offset yet. *)
Fixpoint fill_missing (w : W) (l : list (string * Z)) (out : gmap (string * Z) Z)
    : W * result (gmap (string * Z) Z) Error.Error :=
  match l with
  | [] => (w, Ok out)
  | key :: l =>
      match out !! key with
      | Some _ => fill_missing w l out
      | None =>
          let '(w, bounds) := partition_bounds w key.1 key.2 in
          match bounds with
          | Err e => (w, Err e)
          | Ok (earliest, _) => fill_missing w l (<[key := earliest]> out)
          end
      end
  end.

(** Where a gained partition starts: the group's committed offset, or the log's
    start. *)
Definition committed_or_earliest (w : W) (self : Consumer) (partitions : list (string * Z))
    : W * result (gmap (string * Z) Z) Error.Error :=
  let '(w, committed) :=
    match group self with
    | Ok group => fetch_offsets w group partitions
    | Err _ => (w, Ok ∅)
    end in
  match committed with
  | Err e => (w, Err e)
  | Ok committed => fill_missing w partitions (co_offset <$> committed)
  end.

(** ** The assignment *)

(** Assign every partition of a list its start, or zero. *)
Definition start_at (starts : gmap (string * Z) Z) (partitions : list (string * Z))
    (assignment : gmap (string * Z) Assigned) : gmap (string * Z) Assigned :=
  foldl (fun m key => <[key := fresh_assigned (default 0 (starts !! key))]> m) assignment partitions.

(** The ids of the topics, up to the first the snapshot does not know. *)
Fixpoint insert_ids (known : gmap string bytes) (topics : list string) (ids : gmap string bytes)
    : gmap string bytes * result unit Error.Error :=
  match topics with
  | [] => (ids, Ok tt)
  | topic :: topics =>
      match known !! topic with
      | Some id => insert_ids known topics (<[topic := id]> ids)
      | None =>
          (ids, Err (Error.from_code ErrorCode.UnknownTopicOrPartition
                       (Some (text_of_string topic))))
      end
  end.

Definition assign (w : W) (self : Consumer) (wanted : list (string * Z)) (from : Position)
    : W * Consumer * result unit Error.Error :=
  let topics := elements (list_to_set (map fst wanted) : gset string) in
  let '(w, snapshot) := refresh_topics net w topics in
  match snapshot with
  | Err e => (w, self, Err e)
  | Ok snapshot =>
      let '(ids, known) := insert_ids snapshot topics (topic_ids self) in
      let self := with_topic_ids self ids in
      match known with
      | Err e => (w, self, Err e)
      | Ok _ =>
          let '(w, starts) := resolve w wanted from in
          match starts with
          | Err e => (w, self, Err e)
          | Ok starts =>
              (w, with_buffered (with_assignment self (start_at starts wanted ∅)) [], Ok tt)
          end
      end
  end.

Definition learn_topics (w : W) (self : Consumer) (topics : list string)
    : W * Consumer * result unit Error.Error :=
  let '(w, snapshot) := refresh_topics net w topics in
  match snapshot with
  | Err e => (w, self, Err e)
  | Ok snapshot =>
      (w, with_topic_ids self
            (foldl (fun ids topic => match snapshot !! topic with
                                     | Some id => <[topic := id]> ids
                                     | None => ids
                                     end) (topic_ids self) topics), Ok tt)
  end.

(** Replace the assignment, keeping the position of partitions that stay. *)
Definition reassign (w : W) (self : Consumer) (partitions : list (string * Z))
    : W * Consumer * result unit Error.Error :=
  let wanted : gset (string * Z) := list_to_set partitions in
  let self := with_assignment self (filter (fun '(key, _) => key ∈ wanted) (assignment self)) in
  let fresh := filter (fun key => assignment self !! key = None) partitions in
  let '(w, placed) :=
    match fresh with
    | [] => (w, Ok self)
    | _ =>
        let '(w, starts) := committed_or_earliest w self fresh in
        (w, let? starts := starts in
            Ok (with_assignment self (start_at starts fresh (assignment self))))
    end in
  match placed with
  | Err e => (w, self, Err e)
  | Ok self =>
      (w, with_buffered self (filter (fun r => record_key r ∈ wanted) (buffered self)), Ok tt)
  end.

(** ** Commits *)

Definition commit_as (w : W) (self : Consumer) (member : option CommitAs)
    : W * result (list ((string * Z) * result unit Error.Error)) Error.Error :=
  match group self with
  | Err e => (w, Err e)
  | Ok group =>
      commit_offsets w group member
        ((fun assigned => {| co_offset := position_ assigned; co_metadata := None |})
           <$> assignment self)
  end.

Definition commit (w : W) (self : Consumer)
    : W * result (list ((string * Z) * result unit Error.Error)) Error.Error :=
  commit_as w self None.

Definition committed (w : W) (self : Consumer)
    : W * result (gmap (string * Z) CommittedOffset) Error.Error :=
  match group self with
  | Err e => (w, Err e)
  | Ok group => fetch_offsets w group (map fst (map_to_list (assignment self)))
  end.

Definition seek_to_committed (w : W) (self : Consumer) : W * Consumer * result unit Error.Error :=
  let '(w, committed) := committed w self in
  match committed with
  | Err e => (w, self, Err e)
  | Ok committed =>
      let moved :=
        map_imap (fun key assigned =>
          Some {| position_ := match committed !! key with
                               | Some c => co_offset c
                               | None => position_ assigned
                               end;
                  paused := paused assigned; high_watermark_ := high_watermark_ assigned |})
          (assignment self) in
      (w, with_buffered (with_assignment self moved) [], Ok tt)
  end.

End reading.

End Consumer.
