(* ===== verification/ConsumerFacts.v ===== *)
(** Lemmas of the consumer: how a
    fetch round moves positions, and what any run of polls delivers. *)

From S2P Require Import Prelude Sanitize ErrorCodes Retry BatchDecode BatchDecodeFacts Fetch Consumer.
From Stdlib Require Import QArith.
Open Scope Z_scope.

(** ** Positions *)

Module ConsumerFacts.
Import Session Fetcher Offsets Consumer.

Abbreviation DRecord := Batch.DRecord.

(** The records of one partition. *)
Definition at_ (k : string * Z) (l : list DRecord) : list DRecord :=
  filter (fun r => record_key r = k) l.

(** What may come after an offset: a higher one, or the last there is once more.
    Nothing is past [i64::MAX], and a position saturates there. *)
Definition precedes (a b : Z) : Prop := a < b \/ I64_MAX <= a /\ I64_MAX <= b.

(** Offsets that only go up, within bounds. *)
Definition rising (lo hi : Z) (l : list DRecord) : Prop :=
  StronglySorted precedes (map Batch.r_offset l)
  /\ Forall (fun r => lo <= Batch.r_offset r /\ precedes (Batch.r_offset r) hi) l.

Lemma of_key_app k l1 l2 : at_ k (l1 ++ l2) = at_ k l1 ++ at_ k l2.
Proof. apply filter_app. Qed.

Lemma rising_nil lo hi : rising lo hi [].
Proof. split; constructor. Qed.

Lemma rising_weaken lo hi lo' hi' l : rising lo hi l -> lo' <= lo -> hi <= hi' -> rising lo' hi' l.
Proof.
  intros [Hs Hf] Hl Hh. split; [done|]. eapply Forall_impl; [exact Hf|].
  intros r. unfold precedes. simpl. lia.
Qed.

Lemma rising_app lo mid hi l1 l2 :
  rising lo mid l1 -> rising mid hi l2 -> lo <= mid <= hi -> rising lo hi (l1 ++ l2).
Proof.
  intros [S1 F1] [S2 F2] Hm. split.
  - rewrite map_app. apply StronglySorted_app. split_and!; [|done|done].
    intros x y Hx Hy. apply list_elem_of_fmap in Hx as (r1 & -> & H1).
    apply list_elem_of_fmap in Hy as (r2 & -> & H2).
    rewrite Forall_forall in F1, F2. specialize (F1 r1 H1). specialize (F2 r2 H2).
    unfold precedes in *. simpl in *. lia.
  - apply Forall_app. split; (eapply Forall_impl; [eassumption|]); intros r; unfold precedes; simpl; lia.
Qed.

(** Up to a position that has not saturated, offsets go up strictly. *)
Lemma rising_strictly lo hi l :
  rising lo hi l -> hi < I64_MAX ->
  StronglySorted Z.lt (map Batch.r_offset l)
  /\ Forall (fun r => lo <= Batch.r_offset r < hi) l.
Proof.
  intros [Hs Hf] Hhi. split.
  - induction l as [|r l IH]; [constructor|]. simpl in *.
    apply StronglySorted_inv in Hs as [Hs Hr]. apply Forall_cons in Hf as [Ho Hf].
    constructor; [by apply IH|]. eapply Forall_impl; [exact Hr|].
    intros x. unfold precedes in *. simpl. lia.
  - eapply Forall_impl; [exact Hf|]. intros r. unfold precedes. simpl. lia.
Qed.

Lemma rising_snoc lo p r l :
  rising lo p l -> lo <= p <= I64_MAX -> p <= Batch.r_offset r ->
  rising lo (i64_saturating_add (Batch.r_offset r) 1) (l ++ [r]).
Proof.
  intros Hl Hlo Hp. unfold i64_saturating_add, clamp.
  apply (rising_app lo p); [done| |unfold I64_MIN, I64_MAX in *; lia]. split; [repeat constructor|].
  constructor; [|constructor]. unfold precedes, I64_MIN, I64_MAX in *. lia.
Qed.

(** Whatever is decoded, only decoded records are added. *)
Lemma take_outcomes_new outs : forall p l,
  exists new, (foldl take_outcome (p, l) outs).2 = l ++ new
    /\ Forall (fun r => Batch.Decoded r ∈ outs) new.
Proof.
  induction outs as [|o outs IH]; intros p l; cbn [foldl].
  - exists []. split; [by rewrite app_nil_r|constructor].
  - assert (Hkeep : forall p1, exists new, (foldl take_outcome (p1, l) outs).2 = l ++ new
              /\ Forall (fun r => Batch.Decoded r ∈ o :: outs) new).
    { intros p1. destruct (IH p1 l) as (new & E & Hn). exists new. split; [done|].
      eapply Forall_impl; [exact Hn|]. intros r Hr. by right. }
    destruct o as [r|off last raw reason]; cbn [take_outcome]; [|apply Hkeep].
    destruct (_ <? p); [apply Hkeep|].
    destruct (IH (i64_saturating_add (Batch.r_offset r) 1) (l ++ [r])) as (new & -> & Hn).
    exists (r :: new). split; [by rewrite <- app_assoc|]. constructor; [left|].
    eapply Forall_impl; [exact Hn|]. intros r' Hr'. by right.
Qed.

(** From a position an i64 can hold, what is added rises to the new position. *)
Lemma take_outcomes outs : forall lo p l,
  rising lo p l -> lo <= p <= I64_MAX ->
  let '(p', l') := foldl take_outcome (p, l) outs in p <= p' <= I64_MAX /\ rising lo p' l'.
Proof.
  induction outs as [|o outs IH]; intros lo p l Hl Hlo; cbn [foldl]; [split; [lia|done]|].
  assert (Hstep : let '(p1, l1) := take_outcome (p, l) o in p <= p1 <= I64_MAX /\ rising lo p1 l1).
  { destruct o as [r|off last raw reason]; cbn [take_outcome].
    - destruct (Batch.r_offset r <? p) eqn:E; [split; [lia|done]|]. split.
      + unfold i64_saturating_add, clamp, I64_MIN, I64_MAX in *. lia.
      + apply (rising_snoc lo p); [done|done|lia].
    - split; [unfold i64_saturating_add, clamp, I64_MIN, I64_MAX in *; lia|].
      eapply rising_weaken; [exact Hl|lia..]. }
  destruct (take_outcome (p, l) o) as [p1 l1]. destruct Hstep as [Hp1 Hl1].
  specialize (IH lo p1 l1 Hl1). destruct (foldl take_outcome (p1, l1) outs) as [p' l'].
  destruct IH as [H1 H2]; [lia|]. split; [lia|done].
Qed.

(** From [p] to [p'] the records [new] were added, if [p] is one an i64 can hold. *)
Definition climbs (p p' : Z) (new : list DRecord) : Prop :=
  p <= I64_MAX -> p <= p' <= I64_MAX /\ rising p p' new.

(** What a fetch may do to a consumer: positions only go up, and what is added to
    the buffer rises from the old position to the new. *)
Definition moved (c c' : Consumer) (k : string * Z) : Prop :=
  match assignment c !! k with
  | None => assignment c' !! k = None /\ at_ k (buffered c') = at_ k (buffered c)
  | Some a => exists a' new, assignment c' !! k = Some a'
      /\ at_ k (buffered c') = at_ k (buffered c) ++ new
      /\ climbs (position_ a) (position_ a') new
  end.

Lemma climbs_nil p : climbs p p [].
Proof. intros Hp. split; [lia|apply rising_nil]. Qed.

Lemma climbs_app p p1 p2 l1 l2 : climbs p p1 l1 -> climbs p1 p2 l2 -> climbs p p2 (l1 ++ l2).
Proof.
  intros H1 H2 Hp. destruct (H1 Hp) as [Hp1 R1]. destruct (H2 ltac:(lia)) as [Hp2 R2].
  split; [lia|]. apply (rising_app p p1); [done|done|lia].
Qed.

Definition advances (c c' : Consumer) : Prop := forall k, moved c c' k.

Lemma moved_same c c' k :
  assignment c' !! k = assignment c !! k -> at_ k (buffered c') = at_ k (buffered c) ->
  moved c c' k.
Proof.
  intros Ha Hb. unfold moved. destruct (assignment c !! k) as [a|]; [|done].
  exists a, []. rewrite app_nil_r. split_and!; [done|done|apply climbs_nil].
Qed.

Lemma advances_refl c : advances c c.
Proof. intros k. by apply moved_same. Qed.

Lemma advances_trans c1 c2 c3 : advances c1 c2 -> advances c2 c3 -> advances c1 c3.
Proof.
  intros H12 H23 k. specialize (H12 k). specialize (H23 k). unfold moved in *.
  destruct (assignment c1 !! k) as [a1|].
  - destruct H12 as (a2 & n1 & E2 & Hb & Hr). rewrite E2 in H23.
    destruct H23 as (a3 & n2 & E3 & Hb' & Hr'). exists a3, (n1 ++ n2).
    split_and!; [done|by rewrite Hb', Hb, app_assoc|].
    by apply (climbs_app _ (position_ a2)).
  - destruct H12 as [E2 Hb]. rewrite E2 in H23. destruct H23 as [E3 Hb'].
    split; [done|congruence].
Qed.

Section polls.
Context `{KafkaProtocol, Batch.RecordCodec}.

Lemma outcomes_keyed config f :
  Forall (fun o => match o with
                   | Batch.Decoded r => record_key r = (topic f, partition f)
                   | Batch.Malformed _ _ _ _ => True
                   end) (outcomes_of config f).
Proof using Type.
  unfold outcomes_of, Batch.decode_records_with_aborted.
  destruct (Batch.decode_partition _ _ _ _ _) as [out|] eqn:E; [|constructor].
  by refine (DecodedFacts.decode_partition_records (topic f) (partition f) _
               (fun r => record_key r = (topic f, partition f)) _ _ _ _ E).
Qed.

Lemma at_all k l : Forall (fun r => record_key r = k) l -> at_ k l = l.
Proof. apply list_filter_all. Qed.

Lemma at_none k k' l : Forall (fun r => record_key r = k) l -> k <> k' -> at_ k' l = [].
Proof.
  intros Hl Hne. apply list_filter_none. eapply Forall_impl; [exact Hl|]. by intros r ->.
Qed.

(** What a fetched partition delivers, and where it leaves the position. *)
Definition delivered_by (config : ConsumerConfig) (f : Fetched) (p : Z) : Z * list DRecord :=
  match records f with
  | [] => (p, [])
  | _ => foldl take_outcome (p, []) (outcomes_of config f)
  end.

Lemma delivered_by_spec config f p :
  let '(p', l) := delivered_by config f p in
  climbs p p' l /\ Forall (fun r => record_key r = (topic f, partition f)) l.
Proof using Type.
  unfold delivered_by. destruct (records f) as [|b bs]; [split; [apply climbs_nil|constructor]|].
  pose proof (outcomes_keyed config f) as Hk.
  pose proof (take_outcomes (outcomes_of config f) p p []) as Ht.
  destruct (take_outcomes_new (outcomes_of config f) p []) as (new & E & Hn).
  destruct (foldl take_outcome (p, []) _) as [p' l]. cbn [snd] in E. subst l. split.
  - intros Hp. apply Ht; [apply rising_nil|lia].
  - eapply Forall_impl; [exact Hn|]. intros r Hr.
    rewrite Forall_forall in Hk. exact (Hk _ Hr).
Qed.

Lemma take_partition_moves c f : advances c (take_partition c f).1.
Proof using Type.
  unfold take_partition.
  destruct (assignment c !! (topic f, partition f)) as [a|] eqn:Ha; [|apply advances_refl].
  destruct (error f); [apply advances_refl|]. fold (delivered_by (config c) f (position_ a)).
  pose proof (delivered_by_spec (config c) f (position_ a)) as Hd.
  destruct (delivered_by _ _ _) as [p l]. destruct Hd as (Hr & Hl). cbn [fst].
  intros k. destruct (decide ((topic f, partition f) = k)) as [<-|Hne].
  - unfold moved. rewrite Ha. cbn [assignment with_buffered with_assignment buffered].
    rewrite lookup_insert_eq. eexists _, l. split_and!; [done| |done].
    by rewrite of_key_app, (at_all _ l).
  - apply moved_same; cbn [assignment with_buffered with_assignment buffered].
    + by rewrite lookup_insert_ne.
    + by rewrite of_key_app, (at_none _ _ l Hl Hne), app_nil_r.
Qed.

Context {W : Type} (net : Net W).

Lemma take_partitions_moves l : forall w c, advances c (take_partitions net w c l).2.
Proof using Type.
  induction l as [|f l IH]; intros w c; cbn [take_partitions]; [apply advances_refl|].
  pose proof (take_partition_moves c f) as Hf. destruct (take_partition c f) as [c1 refresh].
  by eapply advances_trans.
Qed.

Lemma with_fetchers_moves c m : advances c (with_fetchers c m).
Proof using Type. intros k. by apply moved_same. Qed.

Lemma fetch_leaders_moves l : forall w c, advances c (fetch_leaders net w c l).1.2.
Proof using Type.
  induction l as [|[leader wanted] l IH]; intros w c; cbn [fetch_leaders]; [apply advances_refl|].
  destruct (fetch _ _ _ _ _ _) as [[w1 session] [fetched|e]]; [|apply with_fetchers_moves].
  pose proof (take_partitions_moves fetched w1 (with_fetchers c (<[leader:=session]> (fetchers c))))
    as Ht. destruct (take_partitions _ _ _ _) as [w2 c2].
  eapply advances_trans; [apply with_fetchers_moves|]. by eapply advances_trans.
Qed.

Lemma fetch_once_moves w c : advances c (fetch_once net w c).1.2.
Proof using Type.
  unfold fetch_once. destruct (group_by_leader _ _ _ _ _) as [w1 by_leader].
  eapply advances_trans; [apply with_fetchers_moves|apply fetch_leaders_moves].
Qed.

(** What one call hands out, with the buffer it leaves. *)
Definition with_out (out : list DRecord) (c : Consumer) : Consumer :=
  with_buffered c (out ++ buffered c).

Lemma advances_frame out c c' : advances c c' -> advances (with_out out c) (with_out out c').
Proof using Type.
  intros Ha k. specialize (Ha k). unfold moved, with_out in *. simpl.
  destruct (assignment c !! k) as [a|].
  - destruct Ha as (a' & new & E & Hb & Hn). exists a', new.
    rewrite !of_key_app, Hb, app_assoc. done.
  - destruct Ha as [H1 H2]. by rewrite !of_key_app, H2.
Qed.

Lemma with_out_out l1 l2 c : with_out l1 (with_out l2 c) = with_out (l1 ++ l2) c.
Proof using Type. unfold with_out. destruct c; cbn. by rewrite app_assoc. Qed.

Lemma take_buffered_out c : with_out (default [] (take_buffered c).2) (take_buffered c).1 = c.
Proof using Type. destruct c as [? ? ? ? [|r l]]; unfold with_out; simpl; [done|]. by rewrite app_nil_r. Qed.

Lemma poll_moves w c :
  let '(_, c', got) := poll net w c in
  advances c (with_out (match got with Ok l => l | Err _ => [] end) c').
Proof using Type.
  unfold poll. destruct (take_buffered c) as [c1 ready] eqn:E.
  pose proof (take_buffered_out c) as Hb. rewrite E in Hb. simpl in Hb.
  destruct ready as [ready|]; [rewrite <- Hb at 1; apply advances_refl|].
  pose proof (fetch_once_moves w c1) as Hf. destruct (fetch_once net w c1) as [[w1 c2] [[]|e]].
  - pose proof (take_buffered_out c2) as Hb2. destruct (take_buffered c2) as [c3 ready2].
    simpl in Hb2. by rewrite <- Hb, Hb2.
  - rewrite <- Hb. done.
Qed.

Lemma set_paused_moves c t p v : advances c (set_paused c t p v).
Proof using Type.
  intros k. unfold moved, set_paused. simpl. destruct (decide ((t, p) = k)) as [<-|Hne].
  - rewrite lookup_alter_eq. destruct (assignment c !! (t, p)) as [a|]; [|done].
    eexists _, []. rewrite app_nil_r. split_and!; [done|done|apply climbs_nil].
  - rewrite lookup_alter_ne by done. destruct (assignment c !! k) as [a|]; [|done].
    exists a, []. rewrite app_nil_r. split_and!; [done|done|apply climbs_nil].
Qed.

End polls.

(** *** One fetched partition *)

Definition records_of (l : list Batch.RecordOutcome) : list DRecord :=
  omap (fun o => match o with Batch.Decoded r => Some r | Batch.Malformed _ _ _ _ => None end) l.

Definition outcome_offset (o : Batch.RecordOutcome) : Z :=
  match o with Batch.Decoded r => Batch.r_offset r | Batch.Malformed off _ _ _ => off end.

Lemma filter_on {A} (P Q : A -> Prop) `{!forall x, Decision (P x), !forall x, Decision (Q x)}
    (l : list A) :
  (forall x, x ∈ l -> P x <-> Q x) -> filter P l = filter Q l.
Proof.
  induction l as [|x l IH]; intros HPQ; [done|]. rewrite !filter_cons, IH
    by (intros y Hy; apply HPQ; by right). pose proof (HPQ x ltac:(left)) as Hx.
  repeat case_decide; naive_solver.
Qed.

Lemma take_outcomes_ascending outs : forall p l,
  StronglySorted Z.lt (map outcome_offset outs) ->
  Forall (fun o => outcome_offset o < I64_MAX) outs -> I64_MIN <= p ->
  (foldl take_outcome (p, l) outs).2 = l ++ filter (fun r => p <= Batch.r_offset r) (records_of outs).
Proof.
  induction outs as [|o outs IH]; intros p l Hs Hm Hp; [by rewrite app_nil_r|].
  apply StronglySorted_inv in Hs as [Hs Hlt]. apply Forall_cons in Hm as [Ho Hm].
  apply (List.Forall_map outcome_offset) in Hlt. fold (map outcome_offset) in Hs. cbn [foldl].
  assert (Hrest : forall p1, p <= p1 -> (p1 <= p \/ p1 <= outcome_offset o + 1) ->
    filter (fun r => p1 <= Batch.r_offset r) (records_of outs)
    = filter (fun r => p <= Batch.r_offset r) (records_of outs)).
  { intros p1 H1 H2. apply filter_on. intros r Hr. unfold records_of in Hr.
    apply list_elem_of_omap in Hr as (o' & Ho' & Hr). rewrite Forall_forall in Hlt.
    specialize (Hlt _ Ho'). destruct o'; simplify_eq/=. lia. }
  destruct o as [r|off last raw reason]; cbn [take_outcome outcome_offset] in *.
  - change (records_of (Batch.Decoded r :: outs)) with (r :: records_of outs).
    rewrite filter_cons. destruct (Batch.r_offset r <? p) eqn:E.
    + rewrite IH by done. case_decide; [lia|done].
    + rewrite decide_True by lia. unfold i64_saturating_add, clamp.
      rewrite IH by (done || lia). rewrite <- app_assoc. simpl. do 2 f_equal.
      apply Hrest; unfold I64_MIN, I64_MAX in *; lia.
  - change (records_of (Batch.Malformed off last raw reason :: outs)) with (records_of outs).
    unfold i64_saturating_add, clamp. rewrite IH by (done || lia). f_equal.
    apply Hrest; unfold I64_MIN, I64_MAX in *; lia.
Qed.

Lemma take_outcomes_behind outs p l :
  I64_MIN <= p ->
  Forall (fun o => match o with
                   | Batch.Decoded _ => False
                   | Batch.Malformed off _ _ _ => off < p
                   end) outs ->
  foldl take_outcome (p, l) outs = (p, l).
Proof.
  intros Hp. induction 1 as [|o outs Ho _ IH]; [done|]. cbn [foldl].
  destruct o as [|off last raw reason]; [done|]. cbn [take_outcome].
  replace (Z.max p _) with p; [done|]. unfold i64_saturating_add, clamp. lia.
Qed.

End ConsumerFacts.
