(* ===== verification/ConsumerProperties.v ===== *)
(** What a caller of the manually assigned consumer can rely on: the order of what
    polls deliver, what a commit stores, where a gained partition starts; and what
    a fetch that shows no record does to a position. *)

From S2P Require Import Prelude Sanitize ErrorCodes Retry BatchDecode BatchDecodeFacts Fetch.
From S2P Require Import Coordinator Consumer ConsumerFacts.
From Stdlib Require Import QArith.
Open Scope Z_scope.

(** ** Runs *)

Module ConsumerRun.
Import Consumer.

(** What a caller does between two changes of the assignment. *)
Inductive Op : Type := Poll | Pause (topic : string) (partition : Z)
  | Resume (topic : string) (partition : Z).

Section run.
Context `{KafkaProtocol, Batch.RecordCodec} {W : Type} (net : Net W).

Definition perform (w : W) (c : Consumer) (op : Op) : W * Consumer * list Batch.DRecord :=
  match op with
  | Poll => let '(w, c, got) := poll net w c in
            (w, c, match got with Ok l => l | Err _ => [] end)
  | Pause topic partition => (w, pause c topic partition, [])
  | Resume topic partition => (w, resume c topic partition, [])
  end.

(** The records every poll of a run delivered, in order. *)
Fixpoint run (w : W) (c : Consumer) (ops : list Op) : W * Consumer * list Batch.DRecord :=
  match ops with
  | [] => (w, c, [])
  | op :: ops =>
      let '(w, c, got) := perform w c op in
      let '(w, c, later) := run w c ops in
      (w, c, got ++ later)
  end.

(** What any caller can do to a consumer, with what it is handed.  A reassignment is
    the group's, which does nothing else until one succeeds. *)
Inductive act : W * Consumer -> list Batch.DRecord -> W * Consumer -> Prop :=
  | act_poll w c w' c' got : poll net w c = (w', c', got) ->
      act (w, c) (match got with Ok l => l | Err _ => [] end) (w', c')
  | act_pause w c t p : act (w, c) [] (w, pause c t p)
  | act_resume w c t p : act (w, c) [] (w, resume c t p)
  | act_seek w c t p o : act (w, c) [] (w, (seek c t p o).1)
  | act_seek_to_committed w c : act (w, c) [] (seek_to_committed net w c).1
  | act_assign w c wanted from : act (w, c) [] (assign net w c wanted from).1
  | act_learn w c topics : act (w, c) [] (learn_topics net w c topics).1
  | act_reassign w c partitions w' c' : reassign net w c partitions = (w', c', Ok tt) ->
      act (w, c) [] (w', c').

Inductive reachable (w0 : W) (cfg : ConsumerConfig) : W * Consumer -> Prop :=
  | reach_new : reachable w0 cfg (w0, new cfg)
  | reach_act s out s' : reachable w0 cfg s -> act s out s' -> reachable w0 cfg s'.

End run.

End ConsumerRun.

(** ** A small cluster, for the witnesses *)

Module ConsumerDemo.
Import Session Fetcher Offsets Consumer BatchSpec.

#[export] Instance demo_protocol : KafkaProtocol := {|
  try_from_code c :=
    if c =? 0 then None
    else if c =? 88 then Some ResponseError.UnstableOffsetCommit
    else if c =? 110 then Some ResponseError.FencedMemberEpoch
    else Some ResponseError.NotCoordinator;
  is_retriable _ := true;
|}.

(** One record a batch, at its base offset; a batch with leader epoch 9 is corrupt. *)
Definition demo_record (b : bytes) : Batch.KpRecord := {|
  Batch.kp_transactional := false; Batch.kp_control := false;
  Batch.kp_partition_leader_epoch := 0; Batch.kp_producer_id := -1;
  Batch.kp_timestamp_type := Batch.Creation;
  Batch.kp_offset := default 0 (Batch.read_i64 b Batch.BASE_OFFSET); Batch.kp_timestamp := 0;
  Batch.kp_key := None; Batch.kp_value := Some (drop 61 b); Batch.kp_headers := [];
|}.

#[export] Instance demo_codec : Batch.RecordCodec := {|
  Batch.kp_decode b _ :=
    if bool_decide (b !! 15%nat = Some (z2b 9)) then Err "corrupt"%string
    else Ok [demo_record b];
  Batch.gzip_take b n := Err "none"%string; Batch.lz4_take b n := Err "none"%string;
  Batch.zstd_take b n := Err "none"%string; Batch.xerial_decompress b := Err "none"%string;
  Batch.snap_decompress_len b := Err "none"%string;
  Batch.snap_decompress b n := Err "none"%string;
|}.

Definition demo_wire (base epoch attributes producer delta : Z) : WireHeader := {|
  w_base_offset := base; w_leader_epoch := epoch; w_crc := 0; w_attributes := attributes;
  w_last_offset_delta := delta; w_base_timestamp := 0; w_max_timestamp := 0;
  w_producer_id := producer; w_producer_epoch := 0; w_base_sequence := 0;
  w_record_count := 1;
|}.

Definition demo_payload : bytes := map z2b [1; 2; 3; 4; 5; 6; 7].

Definition demo_batch (base epoch attributes producer delta : Z) : Entry := {|
  e_header := header_of (demo_wire base epoch attributes producer delta) demo_payload;
  e_bytes := encode_wire (demo_wire base epoch attributes producer delta) demo_payload;
  e_abort := false;
|}.

Definition plain (base : Z) : Entry := demo_batch base 0 0 (-1) 0.

Definition demo_data (index : Z) (records : bytes) (aborted : list (Z * Z)) : PartitionData := {|
  pd_partition_index := index; pd_error_code := 0; pd_high_watermark := 99;
  pd_last_stable_offset := 99; pd_log_start_offset := 0;
  pd_aborted_transactions := Some aborted; pd_records := Some records |}.

Definition demo_id : bytes := replicate 16 (z2b 7).

(** The log of partition 0 of topic t: the first fetch answers offsets 9 to 11, the
    later ones 11 and 12; committed offsets are not stable. *)
Definition demo_net {X : Type} : Net (nat * X) := {|
  refresh_topics w topics := (w, Ok {["t"%string := demo_id]});
  leader_for w topic partition := (w, Ok 1);
  list_one w topic partition leader timestamp := (w, Ok (Some 10));
  fetch_version w := (w, Ok 12);
  send_fetch '(n, x) leader req :=
    ((S n, x),
     Ok {| error_code := 0; resp_session_id := 0;
           responses := [ {| tr_topic := "t"; tr_topic_id := ZERO_ID;
             tr_partitions := [demo_data 0
               (buffer (match n with O => map plain [9; 10; 11] | _ => map plain [11; 12] end)) []] |} ] |});
  invalidate w := w;
  offset_fetch_version w := (w, Ok 8);
  ask_fetch w group req :=
    (w, Ok {| fr_groups := [(0, [("t"%string,
                [{| fo_partition_index := 0; fo_committed_offset := -1; fo_error_code := 88;
                    fo_metadata := None |}])])];
              fr_error_code := 0; fr_topics := [] |});
  ask_commit w group req := (w, Ok {| oc_results := [] |});
|}.

Definition demo_config : ConsumerConfig :=
  {| max_wait_ms := 500; max_bytes := 1024; partition_max_bytes := 1024;
     visibility := Batch.CommittedOnly; max_decompressed_bytes := 1024;
     group_id := Some "g"%string; rebalance_timeout_ms := 1; session_timeout_ms := 1;
     group_protocol := Auto; retry := None |}.

(** A consumer of partition 0 of topic t, at an offset. *)
Definition demo_consumer (at_ : Z) (buffered : list Batch.DRecord) : Consumer :=
  {| config := demo_config; assignment := {[("t"%string, 0) := fresh_assigned at_]};
     topic_ids := {["t"%string := demo_id]}; fetchers := ∅; buffered := buffered |}.

Definition demo_fetched (log : list Entry) (spans : list (Z * Z)) : Fetched :=
  fetched "t" (demo_data 0 (buffer log) spans).

End ConsumerDemo.

(** ** Properties *)

Module ConsumerProperties.
Import Session Fetcher Offsets Consumer ConsumerFacts ConsumerRun.
#[local] Existing Instance Batch.by_first_offset_dec.

Lemma run_moves `{KafkaProtocol, Batch.RecordCodec} {W} (net : Net W) ops :
  forall w c, let '(_, c', out) := run net w c ops in advances c (with_out out c').
Proof.
  induction ops as [|op ops IH]; intros w c; cbn [run].
  { destruct c. apply advances_refl. }
  assert (Hop : let '(_, c1, got) := perform net w c op in advances c (with_out got c1)).
  { destruct op as [|t p|t p]; cbn [perform].
    - pose proof (poll_moves net w c) as Hp. destruct (poll net w c) as [[w1 c1] got]. done.
    - apply (set_paused_moves c t p true).
    - apply (set_paused_moves c t p false). }
  destruct (perform net w c op) as [[w1 c1] got]. specialize (IH w1 c1).
  destruct (run net w1 c1 ops) as [[w2 c2] later]. rewrite <- with_out_out.
  eapply advances_trans; [exact Hop|]. by apply advances_frame.
Qed.

(** C8: In any run of polls, pauses and resumes, whatever the brokers answer and
    whichever polls fail, the records a partition delivers, followed by those
    buffered for it, are in offset order from its position at the start to its
    position at the end; a partition that is not assigned delivers nothing.  The
    order is strict, so that no record is delivered twice, as long as the position
    has not reached [i64::MAX], where it saturates ([last_offset_again]); what
    [precedes] allows from there on is that last offset again, and nothing else.  (That
    a position starts at [I64_MAX] or below is its type.) *)
Theorem deliveries_in_order `{KafkaProtocol, Batch.RecordCodec} {W} (net : Net W) (w : W)
    (c : Consumer) (ops : list Op) :
  buffered c = [] ->
  let '(_, c', delivered) := run net w c ops in
  forall k, let mine := at_ k (delivered ++ buffered c') in
  match assignment c !! k with
  | Some a => exists a', assignment c' !! k = Some a'
      /\ (position_ a <= I64_MAX ->
           position_ a <= position_ a' <= I64_MAX
           /\ rising (position_ a) (position_ a') mine
           /\ (position_ a' < I64_MAX ->
                StronglySorted Z.lt (map Batch.r_offset mine)
                /\ Forall (fun r => position_ a <= Batch.r_offset r < position_ a') mine))
  | None => assignment c' !! k = None /\ mine = []
  end.
Proof.
  intros Hempty. pose proof (run_moves net ops w c) as Hr.
  destruct (run net w c ops) as [[w' c'] delivered]. intros k. specialize (Hr k).
  unfold moved in Hr. rewrite Hempty in Hr. destruct (assignment c !! k) as [a|]; [|exact Hr].
  destruct Hr as (a' & new & Ha' & Hb & Hc). exists a'. split; [done|]. intros Hp.
  change (at_ k (delivered ++ buffered c') = new) in Hb. rewrite Hb.
  destruct (Hc Hp) as [Hle Hrise]. split_and!; [lia|lia|done|]. intros Hlt. by apply rising_strictly.
Qed.

(** A record at the last offset there is leaves the position on itself: whenever the
    partition is read again, it is delivered again. *)
Theorem last_offset_again (r : DRecord) (delivered : list DRecord) :
  Batch.r_offset r = I64_MAX ->
  take_outcome (I64_MAX, delivered) (Batch.Decoded r) = (I64_MAX, delivered ++ [r]).
Proof. intros Hr. cbn [take_outcome]. by rewrite Hr. Qed.

(** One fetched partition whose outcomes ascend is delivered whole from the position
    on: every decoded record at or past the position is added to the buffer, in log
    order, and nothing else is; a partition that answered an error, or is no longer
    assigned, leaves positions and buffer alone. *)
Theorem fetch_delivers_from_position `{KafkaProtocol, Batch.RecordCodec} (c : Consumer)
    (f : Fetched) (decoded : Batch.DecodedPartition) :
  Batch.decode_records_with_aborted (topic f) (partition f) (records f) (aborted f)
    (decode_options (config c)) = Some decoded ->
  StronglySorted Z.lt (map outcome_offset (Batch.outcomes decoded)) ->
  Forall (fun o => outcome_offset o < I64_MAX) (Batch.outcomes decoded) ->
  match assignment c !! (topic f, partition f), error f with
  | Some a, None =>
      I64_MIN <= position_ a -> records f <> [] ->
      buffered (take_partition c f).1
      = buffered c ++ filter (fun r => position_ a <= Batch.r_offset r)
                        (records_of (Batch.outcomes decoded))
  | _, _ => (take_partition c f).1 = c
  end.
Proof.
  intros Hd Hs Hm. unfold take_partition, outcomes_of. rewrite Hd.
  destruct (assignment c !! (topic f, partition f)) as [a|]; [|done].
  destruct (error f); [done|]. intros Hp Hne. destruct (records f) as [|b bs]; [done|].
  pose proof (take_outcomes_ascending (Batch.outcomes decoded) (position_ a) [] Hs Hm Hp) as Ht.
  destruct (foldl take_outcome _ _) as [p l]. simpl in *. by rewrite Ht.
Qed.

(** *** Fetches that show no record *)

(** Taking the same answer again and again. *)
Definition take_again `{KafkaProtocol, Batch.RecordCodec} (n : nat) (f : Fetched) (c : Consumer)
    : Consumer := Nat.iter n (fun c => (take_partition c f).1) c.

Section unread.
Context `{KafkaProtocol, Batch.RecordCodec} (f : Fetched).
Context (p : Z) (Hp : I64_MIN <= p).

(** The position is [p], the outcomes are behind it: nothing is taken. *)
Lemma take_unread (c : Consumer) :
  position c (topic f) (partition f) = Some p -> error f = None ->
  Forall (fun o => match o with
                   | Batch.Decoded _ => False
                   | Batch.Malformed off _ _ _ => off < p
                   end) (outcomes_of (config c) f) ->
  let c' := (take_partition c f).1 in
  position c' (topic f) (partition f) = Some p /\ buffered c' = buffered c /\ config c' = config c.
Proof using Hp.
  unfold position. intros Ha He Ho. unfold take_partition.
  destruct (assignment c !! (topic f, partition f)) as [a|] eqn:E; [|done]. simplify_eq/=.
  rewrite He, (take_outcomes_behind _ _ _ Hp Ho).
  destruct (records f); cbn; by rewrite lookup_insert_eq, app_nil_r.
Qed.

Lemma take_again_unread n : forall c,
  position c (topic f) (partition f) = Some p -> error f = None ->
  Forall (fun o => match o with
                   | Batch.Decoded _ => False
                   | Batch.Malformed off _ _ _ => off < p
                   end) (outcomes_of (config c) f) ->
  position (take_again n f c) (topic f) (partition f) = Some p
  /\ buffered (take_again n f c) = buffered c /\ config (take_again n f c) = config c.
Proof using Hp.
  induction n as [|n IH]; intros c Ha He Ho; [done|]. destruct (IH c Ha He Ho) as (I1 & I2 & I3).
  destruct (take_unread (take_again n f c) I1 He) as (T1 & T2 & T3); [by rewrite I3|].
  split_and!; [exact T1|by rewrite <- I2|by rewrite <- I3].
Qed.

End unread.

Lemma outcomes_of_log `{Batch.RecordCodec} cfg (f : Fetched) log :
  Forall (fun e => BatchSpec.is_batch (BatchSpec.e_header e) (BatchSpec.e_bytes e)) log ->
  records f = BatchSpec.buffer log ->
  outcomes_of cfg f
  = Batch.outcomes
      (BatchSpec.walk (topic f) (partition f) (decode_options cfg) log
         (match visibility cfg with
          | Batch.CommittedOnly => merge_sort Batch.by_first_offset (aborted f)
          | Batch.All => []
          end) ∅ Batch.empty_decoded).
Proof.
  intros Hb Hr. unfold outcomes_of, Batch.decode_records_with_aborted, Batch.decode_partition.
  rewrite Hr, BatchFacts.decode_loop_buffer by (done || lia). done.
Qed.

(** Nothing of a run of hidden batches is shown. *)
Lemma walk_hidden `{Batch.RecordCodec} t p options span log : forall spans producers out,
  Forall (fun e => let h := BatchSpec.e_header e in
    if Batch.control h then Batch.producer_id h <> Batch.at_producer_id span
    else Batch.transactional h = true /\ Batch.producer_id h = Batch.at_producer_id span
         /\ Batch.first_offset span <= Batch.base_offset h) log ->
  spans = [span] \/ spans = [] /\ Batch.at_producer_id span ∈ producers ->
  Batch.outcomes (BatchSpec.walk t p options log spans producers out) = Batch.outcomes out.
Proof.
  induction log as [|e log IH]; intros spans producers out Hlog Hs; [done|].
  apply Forall_cons in Hlog as [He Hlog]. cbn [BatchSpec.walk].
  assert (Hent : exists spans' producers',
    Batch.enter_spans (Batch.base_offset (BatchSpec.e_header e)) spans producers
    = (spans', producers')
    /\ (spans' = [span] \/ spans' = [] /\ Batch.at_producer_id span ∈ producers')
    /\ (Batch.first_offset span <= Batch.base_offset (BatchSpec.e_header e) ->
        Batch.at_producer_id span ∈ producers')).
  { destruct Hs as [->|[-> Hin]]; simpl; [destruct (_ <=? _) eqn:E|]; eexists _, _;
      (split; [done|]); split; try set_solver; lia. }
  destruct Hent as (spans' & producers' & -> & Hs' & Hin). unfold Batch.process_batch.
  cbn zeta in He. destruct (Batch.control (BatchSpec.e_header e)).
  - rewrite IH; [done|done|]. set_solver.
  - destruct He as (-> & Hpid & Hle). rewrite bool_decide_eq_true_2 by (rewrite Hpid; auto).
    cbn [andb]. by rewrite IH.
Qed.

(** A batch that cannot be decoded, of more than one offset, is never stepped over:
    the position goes to the offset after its first, which is inside the batch, and
    stays there however often the broker answers with the batch that holds it. *)
Theorem corrupt_batch_is_reread `{KafkaProtocol, Batch.RecordCodec} (c : Consumer) (f : Fetched)
    (h : Batch.BatchHeader) (a : Assigned) (n : nat) :
  BatchSpec.is_batch h (records f) -> Batch.control h = false -> Batch.transactional h = false ->
  (forall hook, is_ok (Batch.kp_decode (records f) hook) = false) ->
  I64_MIN <= Batch.base_offset h < Batch.last_offset h -> Batch.last_offset h <= I64_MAX ->
  assignment c !! (topic f, partition f) = Some a -> position_ a = Batch.base_offset h ->
  error f = None ->
  position (take_again (S n) f c) (topic f) (partition f) = Some (Batch.base_offset h + 1)
  /\ Batch.base_offset h + 1 <= Batch.last_offset h
  /\ buffered (take_again (S n) f c) = buffered c.
Proof.
  intros Hb Hc Ht Hk Hbase Hlast Ha Hpos He.
  assert (Ho : exists reason, outcomes_of (config c) f
    = [Batch.Malformed (Batch.base_offset h) (Some (Batch.last_offset h)) (records f) reason]).
  { rewrite (outcomes_of_log _ f [{| BatchSpec.e_header := h; BatchSpec.e_bytes := records f;
                                     BatchSpec.e_abort := false |}]);
      [|constructor; [exact Hb|constructor]|unfold BatchSpec.buffer; simpl; by rewrite app_nil_r].
    cbn [BatchSpec.walk BatchSpec.e_header BatchSpec.e_bytes].
    destruct (Batch.enter_spans _ _ _) as [spans producers]. unfold Batch.process_batch.
    rewrite Hc, Ht. cbn [andb]. unfold Batch.decode_batch. destruct (_ <? _); [by eexists|].
    specialize (Hk (Batch.decompress_hook (Batch.record_count h)
                      (Batch.max_decompressed_bytes (decode_options (config c))))).
    destruct (Batch.kp_decode _ _); [done|by eexists]. }
  destruct Ho as [reason Ho].
  assert (Hne : records f <> []) by (intros E; rewrite E in Hb; by destruct Hb).
  assert (H1 : position (take_partition c f).1 (topic f) (partition f)
               = Some (Batch.base_offset h + 1)
               /\ buffered (take_partition c f).1 = buffered c
               /\ config (take_partition c f).1 = config c).
  { unfold take_partition, position. rewrite Ha, He, Ho, Hpos.
    destruct (records f); [done|]. cbn. rewrite lookup_insert_eq, app_nil_r.
    split_and!; [|done|done]. cbn. f_equal. unfold i64_saturating_add, clamp, I64_MIN, I64_MAX in *. lia. }
  destruct H1 as (H1 & H2 & H3).
  unfold take_again. rewrite Nat.iter_succ_r. fold (take_again n f (take_partition c f).1).
  destruct (take_again_unread f (Batch.base_offset h + 1) ltac:(lia) n _ H1 He) as (T1 & T2 & _).
  - rewrite H3, Ho. repeat constructor. lia.
  - split_and!; [done|lia|by rewrite T2].
Qed.

(** A run of batches of a transaction that aborted, with the markers of others among
    them, is never stepped over: the position and the buffer are what they were,
    however often the broker answers with it.  If the run fills the fetch, the
    partition is stuck. *)
Theorem aborted_run_holds_position `{KafkaProtocol, Batch.RecordCodec} (c : Consumer) (f : Fetched)
    (log : list BatchSpec.Entry) (span : Batch.AbortedTransaction) (p : Z) (n : nat) :
  visibility (config c) = Batch.CommittedOnly ->
  Forall (fun e => BatchSpec.is_batch (BatchSpec.e_header e) (BatchSpec.e_bytes e)) log ->
  Forall (fun e => let h := BatchSpec.e_header e in
    if Batch.control h then Batch.producer_id h <> Batch.at_producer_id span
    else Batch.transactional h = true /\ Batch.producer_id h = Batch.at_producer_id span
         /\ Batch.first_offset span <= Batch.base_offset h) log ->
  records f = BatchSpec.buffer log -> aborted f = [span] -> error f = None ->
  I64_MIN <= p -> position c (topic f) (partition f) = Some p ->
  position (take_again n f c) (topic f) (partition f) = Some p
  /\ buffered (take_again n f c) = buffered c.
Proof.
  intros Hv Hb Hh Hr Hab He Hp Hpos.
  destruct (take_again_unread f p Hp n c Hpos He) as (T1 & T2 & _); [|done].
  rewrite (outcomes_of_log _ _ log Hb Hr), Hv, Hab. change (merge_sort _ [span]) with [span].
  rewrite (walk_hidden _ _ _ span); [constructor|done|by left].
Qed.

(** *** Commits *)

(** The partitions of a commit request, with the offset each carries. *)
Definition commit_entries (req : OffsetCommitRequest) : list ((string * Z) * Z) :=
  flat_map (fun '(topic, partitions) =>
              map (fun p => ((topic, oc_partition_index p), oc_committed_offset p)) partitions)
    (oc_topics req).

Lemma commit_request_entries group member offsets :
  commit_entries (commit_request group member offsets)
  ≡ₚ map (fun '(k, c) => (k, co_offset c)) (map_to_list offsets).
Proof.
  unfold commit_request. cbn zeta. set (by_topic := foldl _ _ _).
  assert (Hf : commit_entries {| oc_group_id := group; oc_epoch := 0; oc_member_id := "";
                                 oc_group_instance_id := None; oc_topics := map_to_list by_topic |}
    = map (fun x => ((x.1, oc_partition_index x.2), oc_committed_offset x.2)) (flat by_topic)).
  { unfold commit_entries, flat. cbn [oc_topics]. induction (map_to_list by_topic) as [|[t l] m IH];
      [done|]. simpl. rewrite map_app, map_map, IH. done. }
  change (commit_entries _) with (commit_entries {| oc_group_id := group; oc_epoch := 0;
    oc_member_id := ""; oc_group_instance_id := None; oc_topics := map_to_list by_topic |}).
  rewrite Hf. unfold by_topic.
  rewrite (flat_foldl _ (fun x => x.1.1)
             (fun x => {| oc_partition_index := x.1.2; oc_committed_offset := co_offset x.2;
                          oc_committed_leader_epoch := -1; oc_committed_metadata := co_metadata x.2 |}))
    by (intros m [[t p] c]; done).
  rewrite flat_empty. simpl. rewrite map_map.
  apply Permutation_refl'. apply map_ext. by intros [[t p] c].
Qed.

(** A commit of an assignment is one request, of the positions. *)
Lemma commit_asks `{KafkaProtocol} {W} (net : Net W) (w : W) (c : Consumer)
    (member : option CommitAs) (g : string) :
  group_id (config c) = Some g -> assignment c <> ∅ ->
  exists req,
    commit_as net w c member
    = (let '(w, answer) := ask_commit net w g req in
       (w, let? response := answer in Ok (read_commit response)))
    /\ commit_entries req ≡ₚ map (fun '(k, a) => (k, position_ a)) (map_to_list (assignment c))
    /\ oc_group_id req = g
    /\ match member with
       | Some m => oc_member_id req = ca_member_id m /\ oc_epoch req = ca_epoch m
                   /\ oc_group_instance_id req = ca_instance_id m
       | None => oc_member_id req = ""%string /\ oc_epoch req = -1
                 /\ oc_group_instance_id req = None
       end.
Proof.
  intros Hg Hne. unfold commit_as, group. rewrite Hg. cbn [ok_or].
  unfold commit_offsets. set (offsets := _ <$> assignment c).
  rewrite decide_False by (unfold offsets; rewrite fmap_empty_iff; done).
  exists (commit_request g member offsets). split_and!; [done| |done|by destruct member].
  rewrite commit_request_entries. unfold offsets. rewrite map_to_list_fmap.
  apply Permutation_refl'. etrans; [apply map_map|]. apply map_ext. by intros [k a].
Qed.

(** A commit asks the group's coordinator once, with the position of every assigned
    partition and no other, once each, under the membership given or anonymously
    (empty member id, epoch -1); with nothing assigned it asks nothing, and without a
    group id it is an error. *)
Theorem commit_carries_positions `{KafkaProtocol} {W} (net : Net W) (w : W) (c : Consumer)
    (member : option CommitAs) :
  match group_id (config c) with
  | None => (commit_as net w c member).1 = w /\ is_ok (commit_as net w c member).2 = false
  | Some group =>
      if decide (assignment c = ∅) then commit_as net w c member = (w, Ok [])
      else exists req,
        commit_as net w c member
        = (let '(w, answer) := ask_commit net w group req in
           (w, let? response := answer in Ok (read_commit response)))
        /\ commit_entries req
           ≡ₚ map (fun '(k, a) => (k, position_ a)) (map_to_list (assignment c))
        /\ oc_group_id req = group
        /\ match member with
           | Some m => oc_member_id req = ca_member_id m /\ oc_epoch req = ca_epoch m
                       /\ oc_group_instance_id req = ca_instance_id m
           | None => oc_member_id req = ""%string /\ oc_epoch req = -1
                     /\ oc_group_instance_id req = None
           end
  end.
Proof.
  destruct (group_id (config c)) as [g|] eqn:Eg;
    [|unfold commit_as, group; by rewrite Eg]. case_decide as E; [|by apply commit_asks].
  unfold commit_as, group, commit_offsets. rewrite Eg. cbn [ok_or].
  by rewrite decide_True by (by apply fmap_empty_iff).
Qed.

(** *** Where a gained partition starts *)

Section starts.
Context `{KafkaProtocol} {W : Type} (net : Net W).

Lemma fill_missing_spec l : forall w out w' out',
  fill_missing net w l out = (w', Ok out') ->
  (forall k start, out !! k = Some start -> out' !! k = Some start)
  /\ (forall k, k ∈ l -> out !! k = None -> exists w1 w2 earliest latest,
       partition_bounds net w1 k.1 k.2 = (w2, Ok (earliest, latest)) /\ out' !! k = Some earliest).
Proof using Type.
  induction l as [|k l IH]; intros w out w' out' Hf; cbn [fill_missing] in Hf.
  { simplify_eq. split; [done|]. intros k Hk. by apply elem_of_nil in Hk. }
  destruct (out !! k) as [start|] eqn:E.
  { destruct (IH _ _ _ _ Hf) as [I1 I2]. split; [done|]. intros j Hj Hn.
    apply I2; [|done]. apply elem_of_cons in Hj as [->|Hj]; [congruence|done]. }
  destruct (partition_bounds net w k.1 k.2) as [w1 [[earliest latest]|e]] eqn:Eb; [|done].
  destruct (IH _ _ _ _ Hf) as [I1 I2]. split.
  - intros j start Hj. apply I1. by rewrite lookup_insert_ne by congruence.
  - intros j Hj Hn. destruct (decide (j = k)) as [->|Hne].
    + exists w, w1, earliest, latest. split; [done|]. apply I1, lookup_insert_eq.
    + apply I2; [|by rewrite lookup_insert_ne]. by apply elem_of_cons in Hj as [].
Qed.

Definition starts_from (committed : gmap (string * Z) CommittedOffset) (k : string * Z)
    (start : Z) : Prop :=
  match committed !! k with
  | Some c => start = co_offset c
  | None => exists w1 w2 latest, partition_bounds net w1 k.1 k.2 = (w2, Ok (start, latest))
  end.

Lemma committed_or_earliest_spec w c partitions w' out :
  committed_or_earliest net w c partitions = (w', Ok out) ->
  exists committed,
    match group_id (config c) with
    | Some g => (fetch_offsets net w g partitions).2 = Ok committed
    | None => committed = ∅
    end
    /\ forall k, k ∈ partitions -> exists start, out !! k = Some start
                                                /\ starts_from committed k start.
Proof using Type.
  unfold committed_or_earliest, group. intros Hc.
  assert (Hfill : forall wf committed,
    fill_missing net wf partitions (co_offset <$> committed) = (w', Ok out) ->
    forall k, k ∈ partitions -> exists start, out !! k = Some start /\ starts_from committed k start).
  { intros wf committed Hf k Hk. destruct (fill_missing_spec _ _ _ _ _ Hf) as [F1 F2].
    unfold starts_from. destruct (committed !! k) as [co|] eqn:E.
    - exists (co_offset co). split; [|done]. apply F1. by rewrite lookup_fmap, E.
    - destruct (F2 k Hk) as (w1 & w2 & start & latest & Hb & Ho).
      { by rewrite lookup_fmap, E. }
      exists start. split; [done|]. by exists w1, w2, latest. }
  destruct (group_id (config c)) as [g|]; cbn [ok_or] in Hc.
  - destruct (fetch_offsets net w g partitions) as [w1 [committed|e]]; [|done].
    exists committed. split; [done|]. by eapply Hfill.
  - exists ∅. split; [done|]. by eapply Hfill.
Qed.

Lemma start_at_spec starts l : forall m k,
  start_at starts l m !! k
  = if decide (k ∈ l) then Some (fresh_assigned (default 0 (starts !! k))) else m !! k.
Proof using Type.
  induction l as [|j l IH]; intros m k; [done|].
  change (start_at starts (j :: l) m) with
    (start_at starts l (<[j := fresh_assigned (default 0 (starts !! j))]> m)).
  rewrite IH. destruct (decide (k ∈ l)) as [Hin|Hin].
  - rewrite decide_True by (by right). done.
  - destruct (decide (k = j)) as [->|Hne].
    + rewrite decide_True by left. apply lookup_insert_eq.
    + rewrite decide_False by (by rewrite not_elem_of_cons). by apply lookup_insert_ne.
Qed.

End starts.

(** What a reassignment keeps. *)
Lemma kept_lookup (m : gmap (string * Z) Assigned) (partitions : list (string * Z)) k :
  filter (fun '(key, _) => key ∈ (list_to_set partitions : gset (string * Z))) m !! k
  = if decide (k ∈ partitions) then m !! k else None.
Proof.
  rewrite map_lookup_filter. destruct (m !! k) as [a|]; simpl; [|by case_decide].
  case_decide as Hk; case_guard as Hg; try done; set_solver.
Qed.

Lemma at_filter (wanted : gset (string * Z)) k l :
  at_ k (filter (fun r => record_key r ∈ wanted) l) = if decide (k ∈ wanted) then at_ k l else [].
Proof.
  unfold at_. rewrite list_filter_filter. destruct (decide (k ∈ wanted)) as [Hk|Hk].
  - apply list_filter_iff. intros r. naive_solver.
  - apply list_filter_none, Forall_forall. naive_solver.
Qed.

(** What a successful reassignment leaves. *)
Lemma reassign_spec `{KafkaProtocol} {W} (net : Net W) (w w' : W) (c c' : Consumer)
    (partitions : list (string * Z)) :
  reassign net w c partitions = (w', c', Ok tt) ->
  let fresh := filter (fun k => assignment c !! k = None) partitions in
  exists committed m,
    c' = with_buffered (with_assignment c m)
           (filter (fun r => record_key r ∈ (list_to_set partitions : gset _)) (buffered c))
    /\ (fresh <> [] -> forall g, group_id (config c) = Some g ->
         (fetch_offsets net w g fresh).2 = Ok committed)
    /\ forall k, if decide (k ∈ fresh)
        then exists start, m !! k = Some (fresh_assigned start) /\ starts_from net committed k start
        else m !! k = if decide (k ∈ partitions) then assignment c !! k else None.
Proof.
  unfold reassign. set (kept := filter _ (assignment c)). set (fresh := filter _ partitions).
  cbn zeta. intros Hr.
  assert (Hkept : forall k, kept !! k = if decide (k ∈ partitions) then assignment c !! k else None)
    by apply kept_lookup.
  assert (Hfresh : filter (fun k => assignment c !! k = None) partitions = fresh).
  { apply filter_on. intros k Hk. simpl. rewrite Hkept, decide_True by done. done. }
  rewrite Hfresh. clear Hfresh.
  destruct fresh as [|f0 fs]; [simplify_eq; exists ∅, kept; split_and!; [done|done|]|].
  - intros k. rewrite decide_False by apply not_elem_of_nil. apply Hkept.
  - destruct (committed_or_earliest _ _ _ _) as [w1 [starts|e]] eqn:Ec; [|done].
    apply committed_or_earliest_spec in Ec as (committed & Hg & Hs). simplify_eq/=.
    exists committed, (start_at starts (f0 :: fs) kept). split_and!; [done| |].
    + intros _ g Hgid. cbn in Hg. by rewrite Hgid in Hg.
    + intros k. change (start_at starts fs _) with (start_at starts (f0 :: fs) kept).
      rewrite start_at_spec. destruct (decide (k ∈ f0 :: fs)) as [Hk|Hk]; [|apply Hkept].
      destruct (Hs k Hk) as (start & Ho & Hst). exists start. split; [|done]. by rewrite Ho.
Qed.

Lemma reassign_owned `{KafkaProtocol} {W} (net : Net W) w w' (c c' : Consumer) partitions :
  reassign net w c partitions = (w', c', Ok tt) ->
  (forall k, is_Some (assignment c' !! k) <-> k ∈ partitions)
  /\ forall k, k ∉ partitions -> at_ k (buffered c') = [].
Proof.
  intros Hr. apply reassign_spec in Hr as (committed & m & -> & _ & Hm).
  cbn [assignment buffered with_buffered with_assignment]. split.
  - intros k. specialize (Hm k). destruct (decide (k ∈ filter _ partitions)) as [Hk|Hk];
      rewrite list_elem_of_filter in Hk.
    + destruct Hm as (start & -> & _). naive_solver.
    + rewrite Hm. case_decide as Hp; [|split; [by intros []|done]].
      destruct (assignment c !! k); naive_solver.
  - intros k Hk. rewrite at_filter, decide_False by (by rewrite elem_of_list_to_set). done.
Qed.

(** A reassignment that succeeds leaves exactly the partitions asked for: those that
    stay keep their position, flags and buffered records; those gained start at the
    group's committed offset, or at the log's start when nothing is committed; of
    those given up no buffered record is left. *)
Theorem reassign_moves_ownership `{KafkaProtocol} {W} (net : Net W) (w w' : W) (c c' : Consumer)
    (partitions : list (string * Z)) :
  reassign net w c partitions = (w', c', Ok tt) ->
  (forall k, is_Some (assignment c' !! k) <-> k ∈ partitions)
  /\ (forall k a, k ∈ partitions -> assignment c !! k = Some a -> assignment c' !! k = Some a)
  /\ (forall k, k ∉ partitions -> at_ k (buffered c') = [])
  /\ (forall k, k ∈ partitions -> at_ k (buffered c') = at_ k (buffered c))
  /\ let gained := filter (fun k => assignment c !! k = None) partitions in
     exists committed,
      (forall g, group_id (config c) = Some g -> gained <> [] ->
         (fetch_offsets net w g gained).2 = Ok committed)
      /\ forall k, k ∈ partitions -> assignment c !! k = None ->
         exists start, assignment c' !! k = Some (fresh_assigned start)
                       /\ starts_from net committed k start.
Proof.
  intros Hr. destruct (reassign_owned _ _ _ _ _ _ Hr) as [Hd Hb].
  apply reassign_spec in Hr as (committed & m & -> & Hg & Hm). cbn zeta in Hg.
  cbn [assignment buffered with_buffered with_assignment] in *. split_and!; [done| |done| |].
  - intros k a Hk Ha. specialize (Hm k). rewrite decide_False in Hm
      by (rewrite list_elem_of_filter; naive_solver). by rewrite Hm, decide_True.
  - intros k Hk. rewrite at_filter, decide_True by (by rewrite elem_of_list_to_set). done.
  - exists committed. split.
    + intros g Hgid Hne. by apply Hg.
    + intros k Hk Ha. specialize (Hm k).
      by rewrite decide_True in Hm by (by apply list_elem_of_filter).
Qed.

(** The entries an [OffsetFetch] answer is read from. *)
Definition stored (response : OffsetFetchResponse) : list ((string * Z) * FetchedOffset) :=
  flat_map (fun '(topic, partitions) => map (fun p => ((topic, fo_partition_index p), p)) partitions)
    (match fr_groups response with (_, topics) :: _ => topics | [] => fr_topics response end).

(** What an entry says is committed. *)
Definition committed_by (p : FetchedOffset) : option CommittedOffset :=
  if 0 <=? fo_committed_offset p
  then Some {| co_offset := fo_committed_offset p; co_metadata := fo_metadata p |}
  else None.

Lemma record_lookup out t p k :
  record out t p !! k
  = if decide ((t, fo_partition_index p) = k)
    then match committed_by p with Some c => Some c | None => out !! k end else out !! k.
Proof.
  unfold record, committed_by. destruct (fo_committed_offset p <? 0) eqn:E1;
    destruct (0 <=? fo_committed_offset p) eqn:E2; try lia; case_decide as Hk; try done.
  - by rewrite Hk, lookup_insert_eq.
  - by rewrite lookup_insert_ne.
Qed.

(** The last entry of a partition that says an offset. *)
Definition last_committed (k : string * Z) (l : list ((string * Z) * FetchedOffset))
    : option CommittedOffset :=
  last (omap (fun '(k', p) => if decide (k' = k) then committed_by p else None) l).

Lemma record_fold topics : forall out k,
  foldl (fun out '(topic, partitions) => foldl (fun out p => record out topic p) out partitions)
    out topics !! k
  = match last_committed k
            (flat_map (fun '(topic, partitions) =>
                         map (fun p => ((topic, fo_partition_index p), p)) partitions) topics) with
    | Some c => Some c
    | None => out !! k
    end.
Proof.
  assert (Hone : forall topic partitions out k,
    foldl (fun out p => record out topic p) out partitions !! k
    = match last_committed k (map (fun p => ((topic, fo_partition_index p), p)) partitions) with
      | Some c => Some c
      | None => out !! k
      end).
  { intros topic partitions. induction partitions as [|p partitions IH] using rev_ind;
      intros out k; [done|].
    rewrite foldl_snoc, record_lookup, map_app, IH. unfold last_committed. rewrite omap_app.
    simpl. destruct (decide ((topic, fo_partition_index p) = k)) as [Hk|Hk]; simpl.
    - destruct (committed_by p); simpl; [by rewrite last_snoc|by rewrite app_nil_r].
    - by rewrite app_nil_r. }
  induction topics as [|[topic partitions] topics IH] using rev_ind; intros out k; [done|].
  rewrite foldl_snoc, Hone, IH, flat_map_app. unfold last_committed. simpl.
  rewrite app_nil_r, omap_app, last_app. by destruct (last (omap _ (map _ partitions))).
Qed.

(** Reading committed offsets: an error code of the answer is the error, else each
    partition has what the last of its entries with an offset says; a negative
    offset is nothing committed, and the code of an entry makes no difference. *)
Theorem committed_offsets_are_read `{KafkaProtocol} (response : OffsetFetchResponse) :
  match ErrorCode.from_code (match fr_groups response with
                             | (code, _) :: _ => code
                             | [] => fr_error_code response
                             end) with
  | Some code => read_fetch response = Err (Error.from_code code None)
  | None => exists committed, read_fetch response = Ok committed
      /\ forall k, committed !! k
         = last (omap (fun '(k', p) => if decide (k' = k) then committed_by p else None)
                   (stored response))
  end.
Proof.
  unfold read_fetch, stored. destruct (fr_groups response) as [|[code topics] groups];
    (destruct (ErrorCode.from_code _); [done|]; eexists; split; [done|]; intros k;
     unfold record_topics; rewrite record_fold, lookup_empty; fold (last_committed k);
     unfold last_committed; by destruct (last _)).
Qed.

(** A partition whose committed offset is not stable yet, which a coordinator answers
    with a code and no offset, is taken as a partition without one: it starts at the
    log's start. *)
Theorem unstable_offset_starts_over `{KafkaProtocol} {W} (net : Net W) (w w1 w2 w3 : W)
    (c : Consumer) (g t : string) (p version error_code earliest latest : Z)
    (metadata : option string) :
  group_id (config c) = Some g -> ErrorCode.from_code 0 = None ->
  offset_fetch_version net w = (w1, Ok version) ->
  ask_fetch net w1 g (fetch_request version g [(t, p)])
  = (w2, Ok {| fr_groups := [(0, [(t, [{| fo_partition_index := p; fo_committed_offset := -1;
                                          fo_error_code := error_code;
                                          fo_metadata := metadata |}])])];
               fr_error_code := 0; fr_topics := [] |}) ->
  partition_bounds net w2 t p = (w3, Ok (earliest, latest)) ->
  committed_or_earliest net w c [(t, p)] = (w3, Ok {[(t, p) := earliest]}).
Proof.
  intros Hg H0 Hv Ha Hb. unfold committed_or_earliest, group. rewrite Hg. cbn [ok_or].
  unfold fetch_offsets. rewrite Hv, Ha. cbn [result_bind]. unfold read_fetch.
  cbn [fr_groups]. rewrite H0. cbn [record_topics foldl record fo_committed_offset].
  cbn. by rewrite Hb.
Qed.

Lemma seek_keeps (c : Consumer) (t : string) (p offset : Z) k :
  let c' := (seek c t p offset).1 in
  assignment c' !! k = None ->
  assignment c !! k = None /\ (at_ k (buffered c) = [] -> at_ k (buffered c') = []).
Proof.
  unfold seek. destruct (assignment c !! (t, p)) as [a|]; [|done]. cbn. intros Hk.
  destruct (decide ((t, p) = k)) as [<-|Hne]; [by rewrite lookup_insert_eq in Hk|].
  rewrite lookup_insert_ne in Hk by done. split; [done|]. unfold at_.
  rewrite list_filter_filter. intros Hb. apply list_filter_none, Forall_forall. intros r Hr [H1 _].
  assert (Hin : r ∈ filter (fun r => record_key r = k) (buffered c)) by by apply list_elem_of_filter.
  rewrite Hb in Hin. by apply elem_of_nil in Hin.
Qed.

(** A seek moves one assigned partition to the offset and drops what was buffered for
    it; every other partition keeps its position and its records, and a partition
    that is not assigned is refused with nothing changed. *)
Theorem seek_discards_buffer (c : Consumer) (t : string) (p offset : Z) :
  match assignment c !! (t, p) with
  | None => (seek c t p offset).1 = c /\ is_ok (seek c t p offset).2 = false
  | Some a =>
      let c' := (seek c t p offset).1 in
      (seek c t p offset).2 = Ok tt
      /\ position c' t p = Some offset /\ is_paused c' t p = paused a
      /\ at_ (t, p) (buffered c') = []
      /\ forall k, k <> (t, p) ->
         assignment c' !! k = assignment c !! k /\ at_ k (buffered c') = at_ k (buffered c)
  end.
Proof.
  unfold seek. destruct (assignment c !! (t, p)) as [a|]; [|done]. cbn zeta.
  unfold position, is_paused. cbn. rewrite lookup_insert_eq. split_and!; try done.
  - unfold at_. rewrite list_filter_filter. apply list_filter_none, Forall_forall. naive_solver.
  - intros k Hk. rewrite lookup_insert_ne by done. split; [done|]. unfold at_.
    rewrite list_filter_filter. apply list_filter_iff. intros r. naive_solver.
Qed.

(** *** Ownership *)

Definition only_owned (c : Consumer) : Prop :=
  forall k, assignment c !! k = None -> at_ k (buffered c) = [].

Lemma only_owned_same (c c' : Consumer) :
  assignment c' = assignment c -> buffered c' = buffered c -> only_owned c -> only_owned c'.
Proof. unfold only_owned. by intros -> ->. Qed.

Lemma only_owned_cleared (c : Consumer) : buffered c = [] -> only_owned c.
Proof. by intros Hb k _; rewrite Hb. Qed.

Lemma advances_only_owned out c c' :
  advances c (with_out out c') -> only_owned c ->
  only_owned c' /\ Forall (fun r => is_Some (assignment c' !! record_key r)) out.
Proof.
  intros Ha Ho. assert (Hk : forall k, assignment c' !! k = None -> at_ k (out ++ buffered c') = []).
  { intros k Hn. specialize (Ha k). unfold moved in Ha. cbn in Ha.
    destruct (assignment c !! k) as [a|] eqn:E.
    - destruct Ha as (a' & new & Ha' & _). cbn in Ha'. congruence.
    - destruct Ha as [_ Hb]. etrans; [exact Hb|]. by apply Ho. }
  split.
  - intros k Hn. specialize (Hk k Hn). rewrite of_key_app in Hk. by apply app_eq_nil in Hk as [].
  - apply Forall_forall. intros r Hr. destruct (assignment c' !! record_key r) eqn:E; [by eexists|].
    specialize (Hk _ E). rewrite of_key_app in Hk. apply app_eq_nil in Hk as [Hk _].
    assert (Hin : r ∈ at_ (record_key r) out) by by apply list_elem_of_filter.
    rewrite Hk in Hin. by apply elem_of_nil in Hin.
Qed.

Lemma act_owned `{KafkaProtocol, Batch.RecordCodec} {W} (net : Net W) s out s' :
  act net s out s' -> only_owned s.2 ->
  only_owned s'.2 /\ Forall (fun r => is_Some (assignment s'.2 !! record_key r)) out.
Proof.
  intros Hact Ho. destruct Hact as [w c w' c' got Hp|w c t p|w c t p|w c t p o|w c|w c wanted from
    |w c topics|w c partitions w' c' Hr]; cbn [snd] in *.
  - pose proof (poll_moves net w c) as Hm. rewrite Hp in Hm.
    by apply (advances_only_owned _ c c').
  - by apply (advances_only_owned [] c (pause c t p) (set_paused_moves c t p true)).
  - by apply (advances_only_owned [] c (resume c t p) (set_paused_moves c t p false)).
  - split; [|constructor]. intros k Hk. pose proof (seek_keeps c t p o k) as Hs. naive_solver.
  - split; [|constructor]. unfold seek_to_committed. destruct (committed net w c) as [w1 [m|e]];
      [by apply only_owned_cleared|done].
  - split; [|constructor]. unfold assign.
    destruct (refresh_topics _ _ _) as [w1 [snapshot|e]]; [|done].
    destruct (insert_ids _ _ _) as [ids [[]|e]]; [|by apply (only_owned_same c)].
    destruct (resolve _ _ _ _) as [w2 [starts|e]]; [|by apply (only_owned_same c)].
    by apply only_owned_cleared.
  - split; [|constructor]. unfold learn_topics.
    destruct (refresh_topics _ _ _) as [w1 [snapshot|e]]; [|done]. by apply (only_owned_same c).
  - split; [|constructor]. intros k Hk. apply reassign_owned in Hr as [Hd Hb].
    apply Hb. rewrite <- Hd, Hk. by intros [].
Qed.

(** Whatever a caller does, a record that is handed out belongs to a partition that
    is assigned when it is handed out: nothing is delivered of a partition that was
    revoked, reassigned away or never assigned. *)
Theorem only_owned_delivered `{KafkaProtocol, Batch.RecordCodec} {W} (net : Net W) (w0 : W)
    (cfg : ConsumerConfig) (s s' : W * Consumer) (out : list DRecord) :
  reachable net w0 cfg s -> act net s out s' ->
  Forall (fun r => is_Some (assignment s'.2 !! record_key r)) out.
Proof.
  intros Hr Hact. apply (act_owned net s out s' Hact). clear Hact.
  induction Hr as [|s1 o1 s2 Hr IH Hact]; [by apply only_owned_cleared|].
  by apply (act_owned net s1 o1 s2 Hact).
Qed.

(** *** Witnesses *)

Import ConsumerDemo.

Lemma deliveries_in_order_witness :
  let '(_, c', delivered) :=
    run demo_net (0%nat, tt) (demo_consumer 10 []) [Poll; Pause "t" 0; Poll; Resume "t" 0; Poll] in
  let mine := at_ ("t"%string, 0) (delivered ++ buffered c') in
  map Batch.r_offset mine = [10; 11; 12] /\ StronglySorted Z.lt (map Batch.r_offset mine).
Proof.
  assert (Hc : let '(_, c', delivered) :=
      run demo_net (0%nat, tt) (demo_consumer 10 []) [Poll; Pause "t" 0; Poll; Resume "t" 0; Poll] in
    map Batch.r_offset (at_ ("t"%string, 0) (delivered ++ buffered c')) = [10; 11; 12]
    /\ position c' "t" 0 = Some 13)
    by (vm_compute; split; reflexivity).
  pose proof (deliveries_in_order demo_net (0%nat, tt) (demo_consumer 10 [])
                [Poll; Pause "t" 0; Poll; Resume "t" 0; Poll] eq_refl) as Hd.
  destruct (run _ _ _ _) as [[w c'] delivered]. destruct Hc as [Hc Hp]. split; [exact Hc|].
  specialize (Hd ("t"%string, 0)). cbn zeta in Hd.
  change (assignment (demo_consumer 10 []) !! ("t"%string, 0)) with (Some (fresh_assigned 10)) in Hd.
  destruct Hd as (a' & Ha' & Hd). unfold position in Hp. rewrite Ha' in Hp.
  injection Hp as Hp. destruct Hd as (_ & _ & Hd); [discriminate|].
  apply Hd. rewrite Hp. reflexivity.
Defined.

Lemma fetch_delivers_from_position_witness :
  map Batch.r_offset
    (buffered (take_partition (demo_consumer 10 []) (demo_fetched (map plain [9; 10; 11]) [])).1)
  = [10; 11].
Proof.
  rewrite (fetch_delivers_from_position (demo_consumer 10 []) (demo_fetched (map plain [9; 10; 11]) [])
             (default Batch.empty_decoded (Batch.decode_records_with_aborted "t" 0
                (BatchSpec.buffer (map plain [9; 10; 11])) [] (decode_options demo_config)))).
  - vm_compute. reflexivity.
  - vm_compute. reflexivity.
  - vm_compute. repeat constructor.
  - refine (bool_decide_unpack _ _). vm_compute. exact I.
  - vm_compute. discriminate.
  - vm_compute. discriminate.
Defined.

(** A corrupt batch of offsets 10 to 14. *)
Lemma corrupt_batch_is_reread_witness :
  position (take_again 3 (demo_fetched [demo_batch 10 9 0 (-1) 4] []) (demo_consumer 10 [])) "t" 0
  = Some 11.
Proof.
  apply (corrupt_batch_is_reread (demo_consumer 10 []) (demo_fetched [demo_batch 10 9 0 (-1) 4] [])
           (BatchSpec.e_header (demo_batch 10 9 0 (-1) 4)) (fresh_assigned 10) 2).
  - split; vm_compute; reflexivity.
  - reflexivity.
  - reflexivity.
  - intros hook. vm_compute. reflexivity.
  - vm_compute. split; [discriminate|reflexivity].
  - vm_compute. discriminate.
  - vm_compute. reflexivity.
  - reflexivity.
  - reflexivity.
Defined.

(** Two batches of an aborted transaction of producer 7, another's marker between. *)
Lemma aborted_run_holds_position_witness :
  position (take_again 5 (demo_fetched [demo_batch 10 0 16 7 1; demo_batch 12 0 48 8 0;
                                        demo_batch 13 0 16 7 0] [(7, 10)]) (demo_consumer 10 [])) "t" 0
  = Some 10.
Proof.
  apply (aborted_run_holds_position (demo_consumer 10 [])
           (demo_fetched [demo_batch 10 0 16 7 1; demo_batch 12 0 48 8 0; demo_batch 13 0 16 7 0] [(7, 10)])
           [demo_batch 10 0 16 7 1; demo_batch 12 0 48 8 0; demo_batch 13 0 16 7 0]
           {| Batch.at_producer_id := 7; Batch.first_offset := 10 |} 10 5).
  - reflexivity.
  - repeat constructor; vm_compute; reflexivity.
  - repeat constructor; vm_compute; discriminate.
  - reflexivity.
  - reflexivity.
  - reflexivity.
  - vm_compute. discriminate.
  - vm_compute. reflexivity.
Defined.

Lemma unstable_offset_starts_over_witness :
  committed_or_earliest demo_net (0%nat, tt) (demo_consumer 10 []) [("t"%string, 0)]
  = ((0%nat, tt), Ok {[("t"%string, 0) := 10]}).
Proof.
  apply (unstable_offset_starts_over demo_net (0%nat, tt) (0%nat, tt) (0%nat, tt) (0%nat, tt)
           (demo_consumer 10 []) "g" "t" 0 8 88 10 10 None); reflexivity.
Defined.

(** Partition 0 stays, partition 1 is gained. *)
Lemma reassign_moves_ownership_witness :
  let c' := (reassign demo_net (0%nat, tt) (demo_consumer 42 []) [("t"%string, 0); ("t"%string, 1)]).1.2 in
  assignment c' !! ("t"%string, 0) = Some (fresh_assigned 42)
  /\ is_Some (assignment c' !! ("t"%string, 1)).
Proof.
  destruct (reassign_moves_ownership demo_net (0%nat, tt) (0%nat, tt) (demo_consumer 42 [])
              (reassign demo_net (0%nat, tt) (demo_consumer 42 [])
                 [("t"%string, 0); ("t"%string, 1)]).1.2
              [("t"%string, 0); ("t"%string, 1)]) as (Hd & Hk & _).
  - vm_compute. reflexivity.
  - split.
    + apply Hk; [left|]. vm_compute. reflexivity.
    + apply Hd. right. left.
Defined.

Lemma only_owned_delivered_witness :
  let s := (assign demo_net (0%nat, tt) (new demo_config) [("t"%string, 0)] Earliest).1 in
  let '(_, c, got) := poll demo_net s.1 s.2 in
  map Batch.r_offset (match got with Ok l => l | Err _ => [] end) = [10; 11]
  /\ Forall (fun r => is_Some (assignment c !! record_key r))
      (match got with Ok l => l | Err _ => [] end).
Proof.
  cbn zeta. set (s := (assign demo_net (0%nat, tt) (new demo_config) [("t"%string, 0)] Earliest).1).
  assert (Hc : map Batch.r_offset (match (poll demo_net s.1 s.2).2 with Ok l => l | Err _ => [] end)
               = [10; 11]) by (vm_compute; reflexivity).
  destruct (poll demo_net s.1 s.2) as [[w c] got] eqn:E. split; [exact Hc|].
  apply (only_owned_delivered demo_net (0%nat, tt) demo_config s (w, c)).
  - eapply reach_act; [apply reach_new|]. apply act_assign.
  - destruct s as [w0 c0]. by apply act_poll.
Defined.

End ConsumerProperties.
