(* ===== verification/Group.v ===== *)
(** The KIP-848 group member: the membership and its reconciliation
    ([crates/kafka-consume/src/group.rs]), the rebalance that is pending
    ([rebalance.rs]), and [GroupConsumer] of [consumer.rs], which drives both around
    a [Consumer].

    The cluster, the clock, the random draw of a member id and the caller's
    listener are the record [GroupNet] over an abstract world; its [ask_heartbeat]
    stands for [Coordinator.send_retrying]. *)

From S2P Require Import Prelude Sanitize ErrorCodes ApiKeys Retry BatchDecode Fetch Coordinator.
From S2P Require Import Consumer.
From Stdlib Require Import QArith.
Open Scope Z_scope.

Module Membership.

Definition EPOCH_JOIN : Z := 0.
Definition EPOCH_LEAVE : Z := -1.
Definition EPOCH_STATIC_LEAVE : Z := -2.

(** A topic and a partition; the order is the one of the tuple, the topic bytewise. *)
Abbreviation Key := (string * Z)%type.

Definition key_le (a b : Key) : Prop :=
  match String.compare a.1 b.1 with
  | Lt => True
  | Eq => a.2 <= b.2
  | Gt => False
  end.

#[export] Instance key_le_dec : RelDecision key_le.
Proof. intros a b. unfold key_le. destruct (String.compare _ _); apply _. Defined.

(** ** Reconciliation *)

Record Reconciliation : Type := { revoked : list Key; gained : list Key; changed : bool }.

Definition default_reconciliation : Reconciliation :=
  {| revoked := []; gained := []; changed := false |}.

Definition reconcile (owned target : gset Key) : Reconciliation :=
  let revoked := merge_sort key_le (elements (owned ∖ target)) in
  let gained := merge_sort key_le (elements (target ∖ owned)) in
  {| revoked := revoked; gained := gained;
     changed := negb (bool_decide (revoked = [])) || negb (bool_decide (gained = [])) |}.

Definition membership_lost (code : ErrorCode.ErrorCode) : bool :=
  match code with
  | ErrorCode.UnknownMemberId | ErrorCode.FencedMemberEpoch | ErrorCode.RebalanceInProgress => true
  | _ => false
  end.

(** The version and the variant of a random id; [Uuid::to_string] is a parameter. *)
Definition new_member_id (render : bytes -> string) (draw : bytes) : string :=
  let bytes := alter (fun b => z2b (Z.lor (Z.land (b2z b) 15) 64)) 6%nat draw in
  render (alter (fun b => z2b (Z.lor (Z.land (b2z b) 63) 128)) 8%nat bytes).

(** ** The membership *)

Record Membership : Type := {
  m_group_id : string;
  instance_id : option string;
  subscription : list string;
  member_id : string;
  member_epoch : Z;
  heartbeat_interval : Z;
  m_rebalance_timeout_ms : Z;
  owned : gset Key;
  last_beat : option Z;
  ack_owed : bool;
}.

(** [new]; [id] is the member id drawn. *)
Definition new (group_id : string) (subscription : list string) (instance_id : option string)
    (rebalance_timeout_ms : Z) (id : string) : Membership := {|
  m_group_id := group_id; instance_id := instance_id; subscription := subscription;
  member_id := id; member_epoch := EPOCH_JOIN; heartbeat_interval := 5 * Retry.SECOND;
  m_rebalance_timeout_ms := rebalance_timeout_ms; owned := ∅; last_beat := None;
  ack_owed := false |}.

Definition set_instance_id (self : Membership) (id : string) : Membership := {|
  m_group_id := m_group_id self; instance_id := Some id; subscription := subscription self;
  member_id := member_id self; member_epoch := member_epoch self;
  heartbeat_interval := heartbeat_interval self;
  m_rebalance_timeout_ms := m_rebalance_timeout_ms self; owned := owned self;
  last_beat := last_beat self; ack_owed := ack_owed self |}.

Definition with_last_beat (self : Membership) (at_ : Z) : Membership := {|
  m_group_id := m_group_id self; instance_id := instance_id self;
  subscription := subscription self; member_id := member_id self;
  member_epoch := member_epoch self; heartbeat_interval := heartbeat_interval self;
  m_rebalance_timeout_ms := m_rebalance_timeout_ms self; owned := owned self;
  last_beat := Some at_; ack_owed := ack_owed self |}.

Definition with_ownership (self : Membership) (owned : gset Key) (ack_owed : bool) : Membership := {|
  m_group_id := m_group_id self; instance_id := instance_id self;
  subscription := subscription self; member_id := member_id self;
  member_epoch := member_epoch self; heartbeat_interval := heartbeat_interval self;
  m_rebalance_timeout_ms := m_rebalance_timeout_ms self; owned := owned;
  last_beat := last_beat self; ack_owed := ack_owed |}.

Definition with_identity (self : Membership) (id : string) (epoch interval : Z) : Membership := {|
  m_group_id := m_group_id self; instance_id := instance_id self;
  subscription := subscription self; member_id := id; member_epoch := epoch;
  heartbeat_interval := interval; m_rebalance_timeout_ms := m_rebalance_timeout_ms self;
  owned := owned self; last_beat := last_beat self; ack_owed := ack_owed self |}.

Definition has_joined (self : Membership) : bool := EPOCH_JOIN <? member_epoch self.

(** [beat_due], at the instant [now]. *)
Definition beat_due (self : Membership) (now : Z) : bool :=
  ack_owed self ||
  match last_beat self with
  | None => true
  | Some last => heartbeat_interval self <=? Z.max 0 (now - last)
  end.

Definition reset (self : Membership) (id : string) : Membership :=
  with_ownership (with_identity self id EPOCH_JOIN (heartbeat_interval self)) ∅ false.

(** ** Messages

    A field a request leaves at the schema's default is [None]. *)

Record HeartbeatRequest : Type := {
  hb_group_id : string;
  hb_member_id : string;
  hb_member_epoch : Z;
  hb_instance_id : option string;
  hb_rebalance_timeout_ms : option Z;
  hb_subscribed_topic_names : option (list string);
  hb_topic_partitions : option (list (bytes * list Z));
}.

Record HeartbeatResponse : Type := {
  hr_error_code : Z;
  hr_error_message : option text;
  hr_member_id : option string;
  hr_member_epoch : Z;
  hr_heartbeat_interval_ms : Z;
  hr_assignment : option (list (bytes * list Z));
}.

(** The owned partitions of topics with an id, by id. *)
Definition owned_by_id (owned : gset Key) (topic_ids : gmap string bytes) : gmap bytes (list Z) :=
  foldl (fun m '(topic, partition) =>
           match topic_ids !! topic with
           | Some id => if Fetcher.is_zero id then m else push_to m id partition
           | None => m
           end) ∅ (elements owned).

Definition build (self : Membership) (topic_ids : gmap string bytes)
    : result HeartbeatRequest Error.Error :=
  let joining := member_epoch self =? EPOCH_JOIN in
  Ok {| hb_group_id := m_group_id self;
        hb_member_id := member_id self;
        hb_member_epoch := member_epoch self;
        hb_instance_id := instance_id self;
        hb_rebalance_timeout_ms := if joining then Some (m_rebalance_timeout_ms self) else None;
        hb_subscribed_topic_names := if joining then Some (subscription self) else None;
        hb_topic_partitions :=
          if ack_owed self && negb joining
          then Some (map_to_list (owned_by_id (owned self) topic_ids))
          else Some [] |}.

Definition leave_request (self : Membership) : HeartbeatRequest :=
  {| hb_group_id := m_group_id self;
     hb_member_id := member_id self;
     hb_member_epoch := match instance_id self with
                        | Some _ => EPOCH_STATIC_LEAVE
                        | None => EPOCH_LEAVE
                        end;
     hb_instance_id := instance_id self;
     hb_rebalance_timeout_ms := None;
     hb_subscribed_topic_names := None;
     hb_topic_partitions := None |}.

(** The assigned partitions whose topic id has a name. *)
Definition target_of (assignment : list (bytes * list Z)) (topic_ids : gmap string bytes)
    : gset Key :=
  let by_id := Fetcher.names_by_id topic_ids in
  foldl (fun target '(id, partitions) =>
           match by_id !! id with
           | None => target
           | Some name => foldl (fun target p => {[(name, p)]} ∪ target) target partitions
           end) ∅ assignment.

Section beat.
Context `{KafkaProtocol}.

(** What an answer without an error code does. *)
Definition apply_response (self : Membership) (topic_ids : gmap string bytes)
    (response : HeartbeatResponse) : Membership * Reconciliation :=
  let self :=
    with_identity self (default (member_id self) (hr_member_id response))
      (hr_member_epoch response)
      (if 0 <? hr_heartbeat_interval_ms response
       then hr_heartbeat_interval_ms response * Retry.MILLI
       else heartbeat_interval self) in
  match hr_assignment response with
  | None => (with_ownership self (owned self) false, default_reconciliation)
  | Some assignment =>
      let target := target_of assignment topic_ids in
      let outcome := reconcile (owned self) target in
      (with_ownership self target (changed outcome), outcome)
  end.

Context {W : Type} (ask : W -> string -> HeartbeatRequest -> W * result HeartbeatResponse Error.Error).
Context (now : W -> W * Z) (draw_id : W -> W * string).

Definition beat (w : W) (self : Membership) (topic_ids : gmap string bytes)
    : W * Membership * result Reconciliation Error.Error :=
  match build self topic_ids with
  | Err e => (w, self, Err e)
  | Ok request =>
      let '(w, response) := ask w (m_group_id self) request in
      match response with
      | Err e => (w, self, Err e)
      | Ok response =>
          let '(w, t) := now w in
          let self := with_last_beat self t in
          match ErrorCode.from_code (hr_error_code response) with
          | Some code =>
              if membership_lost code then
                let '(w, id) := draw_id w in
                (w, reset self id, Ok default_reconciliation)
              else (w, self, Err (Error.from_code code (hr_error_message response)))
          | None =>
              let '(self, outcome) := apply_response self topic_ids response in
              (w, self, Ok outcome)
          end
      end
  end.

Definition leave (w : W) (self : Membership) : W * Membership * result unit Error.Error :=
  if member_epoch self <=? EPOCH_JOIN then (w, self, Ok tt)
  else
    let '(w, response) := ask w (m_group_id self) (leave_request self) in
    match response with
    | Err e => (w, self, Err e)
    | Ok response =>
        let '(w, id) := draw_id w in
        (w, reset self id,
         match ErrorCode.from_code (hr_error_code response) with
         | Some code => if membership_lost code then Ok tt else Err (Error.from_code code None)
         | None => Ok tt
         end)
    end.

End beat.

End Membership.

(** ** The group consumer *)

Module GroupConsumer.
Import Offsets Consumer Membership.

(** A partition about to be given up, with the offset to be read next. *)
Record RevokedPartition : Type := { rp_topic : string; rp_partition : Z; rp_position : Z }.

Record Pending : Type := { p_revoked : list RevokedPartition; p_gained : list Key }.

Definition pending_is_empty (self : Pending) : bool :=
  bool_decide (p_revoked self = []) && bool_decide (p_gained self = []).

Record GroupConsumer : Type := {
  inner : Consumer;
  membership : Membership;
  ever_joined : bool;
  auto_commit : bool;
  listener : bool;
  pending : option Pending;
}.

Definition with_inner (self : GroupConsumer) (inner : Consumer) : GroupConsumer := {|
  inner := inner; membership := membership self; ever_joined := ever_joined self;
  auto_commit := auto_commit self; listener := listener self; pending := pending self |}.

Definition with_membership (self : GroupConsumer) (membership : Membership) : GroupConsumer := {|
  inner := inner self; membership := membership; ever_joined := ever_joined self;
  auto_commit := auto_commit self; listener := listener self; pending := pending self |}.

Definition with_pending (self : GroupConsumer) (pending : option Pending) : GroupConsumer := {|
  inner := inner self; membership := membership self; ever_joined := ever_joined self;
  auto_commit := auto_commit self; listener := listener self; pending := pending |}.

Definition latch (self : GroupConsumer) : GroupConsumer := {|
  inner := inner self; membership := membership self;
  ever_joined := ever_joined self || has_joined (membership self);
  auto_commit := auto_commit self; listener := listener self; pending := pending self |}.

(** The fields the builders write. *)
Definition set_up (self : GroupConsumer) (auto_commit listener : bool) : GroupConsumer := {|
  inner := inner self; membership := membership self; ever_joined := ever_joined self;
  auto_commit := auto_commit; listener := listener; pending := pending self |}.

Definition with_instance_id (self : GroupConsumer) (instance_id : string) : GroupConsumer :=
  with_membership self (set_instance_id (membership self) instance_id).

Definition with_auto_commit (self : GroupConsumer) (enabled : bool) : GroupConsumer :=
  set_up self enabled (listener self).

Definition with_rebalance_listener (self : GroupConsumer) : GroupConsumer :=
  set_up self (auto_commit self) true.

(** The consumer's world, with what the group adds: the heartbeat, the clock, the
    draw of a member id, and the caller's listener, whose errors are only logged. *)
Record GroupNet (W : Type) : Type := {
  net : Net W;
  ask_heartbeat : W -> string -> HeartbeatRequest -> W * result HeartbeatResponse Error.Error;
  now : W -> W * Z;
  draw_id : W -> W * string;
  on_revoke : W -> list RevokedPartition -> W;
  on_assign : W -> list Key -> W;
}.
Arguments net {W}.
Arguments ask_heartbeat {W}.
Arguments now {W}.
Arguments draw_id {W}.
Arguments on_revoke {W}.
Arguments on_assign {W}.

Definition GA_HEARTBEAT_FLOOR : Z := 1.

(** Whether the broker's row allows the protocol, and the error when it does not. *)
Definition require_ga_heartbeat `{Schemas} (row : option Versions.BrokerApiVersion)
    : result unit Versions.UnsupportedApi :=
  let refused :=
    Err {| Versions.ua_api_key := ApiKey.ConsumerGroupHeartbeat;
           Versions.ua_broker := (fun e => Versions.into_pair (Versions.broker e)) <$> row;
           Versions.ua_ours :=
             (fun r => (Z.max GA_HEARTBEAT_FLOOR (Versions.min r), Versions.max r))
               <$> Versions.our_range ApiKey.ConsumerGroupHeartbeat |} in
  match row ≫= Versions.negotiated with
  | Some version => if GA_HEARTBEAT_FLOOR <=? version then Ok tt else refused
  | None => refused
  end.

(** [Consumer::revoked_positions]. *)
Definition revoked_positions (self : Consumer) (keys : list Key) : list RevokedPartition :=
  map (fun key => {| rp_topic := key.1; rp_partition := key.2;
                     rp_position := match assignment self !! key with
                                    | Some assigned => position_ assigned
                                    | None => -1
                                    end |}) keys.

(** [GroupConsumer::subscribe], once the broker's version was found good. *)
Definition subscribe `{KafkaProtocol} {W} (gn : GroupNet W) (w : W) (config : ConsumerConfig)
    (group_id : string) (subscription : list string) : W * result GroupConsumer Error.Error :=
  let config :=
    {| max_wait_ms := max_wait_ms config; max_bytes := max_bytes config;
       partition_max_bytes := partition_max_bytes config; visibility := visibility config;
       max_decompressed_bytes := max_decompressed_bytes config; Consumer.group_id := Some group_id;
       rebalance_timeout_ms := rebalance_timeout_ms config;
       session_timeout_ms := session_timeout_ms config;
       group_protocol := group_protocol config; retry := retry config |} in
  let '(w, inner, learnt) := learn_topics (net gn) w (Consumer.new config) subscription in
  match learnt with
  | Err e => (w, Err e)
  | Ok _ =>
      let '(w, id) := draw_id gn w in
      (w, Ok {| inner := inner;
                membership := Membership.new group_id subscription None
                                (rebalance_timeout_ms config) id;
                ever_joined := false; auto_commit := true; listener := false; pending := None |})
  end.

Section group.
Context `{KafkaProtocol, Batch.RecordCodec} {W : Type} (gn : GroupNet W).

Definition commit_identity (self : GroupConsumer) : CommitAs := {|
  ca_member_id := member_id (membership self);
  ca_epoch := member_epoch (membership self);
  ca_instance_id := instance_id (membership self);
|}.

(** [rebalance::revoke] and [rebalance::assign]. *)
Definition tell_revoked (w : W) (self : GroupConsumer) (revoked : list RevokedPartition) : W :=
  if listener self then on_revoke gn w revoked else w.

Definition tell_assigned (w : W) (self : GroupConsumer) (gained : list Key) : W :=
  if listener self then on_assign gn w gained else w.

(** Carry out a pending rebalance: tell the caller, commit, then move. *)
Definition settle (w : W) (self : GroupConsumer) : W * GroupConsumer * result unit Error.Error :=
  match pending self with
  | None => (w, self, Ok tt)
  | Some pending =>
      if pending_is_empty pending then (w, with_pending self None, Ok tt)
      else
        let w :=
          match p_revoked pending with
          | [] => w
          | revoked =>
              let w := tell_revoked w self revoked in
              if auto_commit self
              then (commit_as (net gn) w (inner self) (Some (commit_identity self))).1
              else w
          end in
        let '(w, inner, moved) :=
          reassign (net gn) w (inner self) (elements (owned (membership self))) in
        let self := with_inner self inner in
        match moved with
        | Err e => (w, self, Err e)
        | Ok _ =>
            let self := with_pending self None in
            let w := match p_gained pending with
                     | [] => w
                     | gained => tell_assigned w self gained
                     end in
            (w, self, Ok tt)
        end
  end.

(** The heartbeat of a poll, and the rebalance it starts. *)
Definition heartbeat (w : W) (self : GroupConsumer) : W * GroupConsumer * result unit Error.Error :=
  let '(w, membership, outcome) :=
    beat (ask_heartbeat gn) (now gn) (draw_id gn) w (membership self) (topic_ids (inner self)) in
  let self := with_membership self membership in
  match outcome with
  | Err e => (w, self, Err e)
  | Ok outcome =>
      if changed outcome then
        settle w
          (with_pending self
             (Some {| p_revoked := revoked_positions (inner self) (revoked outcome);
                      p_gained := gained outcome |}))
      else (w, self, Ok tt)
  end.

Definition poll (w : W) (self : GroupConsumer)
    : W * GroupConsumer * result (list Batch.DRecord) Error.Error :=
  let self := latch self in
  let '(w, self, settled) := settle w self in
  match settled with
  | Err e => (w, self, Err e)
  | Ok _ =>
      let '(w, t) := now gn w in
      let '(w, self, beaten) :=
        if beat_due (membership self) t then heartbeat w self else (w, self, Ok tt) in
      match beaten with
      | Err e => (w, self, Err e)
      | Ok _ =>
          let '(w, inner, records) := Consumer.poll (net gn) w (inner self) in
          (w, with_inner self inner, records)
      end
  end.

Definition commit (w : W) (self : GroupConsumer)
    : W * result (list (Key * result unit Error.Error)) Error.Error :=
  commit_as (net gn) w (inner self) (Some (commit_identity self)).

(** [Consumer::assignment]. *)
Definition assignment_keys (self : Consumer) : list Key :=
  merge_sort key_le (map fst (map_to_list (assignment self))).

Definition leave_group (w : W) (self : GroupConsumer)
    : W * GroupConsumer * result unit Error.Error :=
  let held := assignment_keys (inner self) in
  let w := match held with
           | [] => w
           | _ => tell_revoked w self (revoked_positions (inner self) held)
           end in
  let w := if auto_commit self then (commit w self).1 else w in
  let '(w, membership, departed) :=
    leave (ask_heartbeat gn) (draw_id gn) w (membership self) in
  (w, with_membership self membership, departed).

End group.

End GroupConsumer.

(** * Lemmas

    Lemmas and properties of the KIP-848 member: reconciliation, what a heartbeat
    claims and when, the order of revoking and acknowledging, and what a lost
    membership leaves behind. *)

From S2P Require Import BatchDecodeFacts FetchFacts ConsumerFacts ConsumerProperties.

(** ** Runs of a member *)

Module GroupRun.
Import Consumer Membership GroupConsumer.

Section run.
Context `{KafkaProtocol, Batch.RecordCodec} {W : Type} (gn : GroupNet W).

(** What can happen to a group consumer between its subscription and its end.  A
    future dropped at one of its awaits leaves what it leaves when that await
    answers an error, and the cluster may answer an error anywhere. *)
Inductive reachable : GroupConsumer -> Prop :=
  | reach_subscribe w config group topics w' g :
      subscribe gn w config group topics = (w', Ok g) -> reachable g
  | reach_settings g instance auto listens :
      reachable g ->
      reachable {| inner := inner g;
                   membership := match instance with
                                 | Some id => set_instance_id (membership g) id
                                 | None => membership g
                                 end;
                   ever_joined := ever_joined g; auto_commit := auto; listener := listens;
                   pending := pending g |}
  | reach_poll w g : reachable g -> reachable (poll gn w g).1.2
  | reach_leave w g : reachable g -> reachable (leave_group gn w g).1.2.

End run.

(** A claim names a partition. *)
Definition claims (request : HeartbeatRequest) (id : bytes) (p : Z) : Prop :=
  exists parts, (id, parts) ∈ default [] (hb_topic_partitions request) /\ p ∈ parts.

(** What is owned is what is read. *)
Definition matches (g : GroupConsumer) : Prop :=
  forall k, is_Some (assignment (inner g) !! k) <-> k ∈ owned (membership g).

End GroupRun.

(** ** Lemmas *)

Module GroupFacts.
Import Consumer ConsumerFacts Membership GroupConsumer GroupRun.

Lemma sorted_difference_elem (a b : gset Key) k :
  k ∈ merge_sort key_le (elements (a ∖ b)) <-> k ∈ a /\ k ∉ b.
Proof. rewrite merge_sort_Permutation, elem_of_elements. apply elem_of_difference. Qed.

Lemma sorted_difference_nil (a b : gset Key) :
  merge_sort key_le (elements (a ∖ b)) = [] <-> a ⊆ b.
Proof.
  split.
  - intros E k Hk. destruct (decide (k ∈ b)) as [|Hn]; [done|].
    assert (Hin : k ∈ merge_sort key_le (elements (a ∖ b))) by by apply sorted_difference_elem.
    rewrite E in Hin. by apply elem_of_nil in Hin.
  - intros Hs. destruct (merge_sort _ _) as [|k l] eqn:E; [done|].
    assert (Hin : k ∈ merge_sort key_le (elements (a ∖ b))) by (rewrite E; left).
    apply sorted_difference_elem in Hin as [H1 H2]. by apply Hs in H1.
Qed.

Lemma reconcile_changed a b : changed (reconcile a b) = true <-> a <> b.
Proof.
  unfold reconcile. cbn [changed]. rewrite orb_true_iff, !negb_true_iff, !bool_decide_eq_false.
  rewrite !sorted_difference_nil. split.
  - intros [H|H] ->; apply H; done.
  - intros Hne. destruct (decide (a ⊆ b)) as [H1|H1]; [|by left].
    destruct (decide (b ⊆ a)) as [H2|H2]; [|by right]. exfalso. apply Hne. set_solver.
Qed.

#[export] Instance key_le_total : Total key_le.
Proof.
  intros [s1 z1] [s2 z2]. unfold key_le. cbn. rewrite (String.compare_antisym s2 s1).
  destruct (String.compare s1 s2); simpl; [|by auto..]. destruct (Z.le_ge_cases z1 z2); auto.
Qed.

Lemma foldl_target_elem parts name : forall (target : gset Key) k,
  k ∈ foldl (fun target p => {[(name, p)]} ∪ target) target parts
  <-> k ∈ target \/ k.1 = name /\ k.2 ∈ parts.
Proof.
  induction parts as [|p parts IH]; intros target k; cbn [foldl].
  - set_solver.
  - rewrite IH, elem_of_union, elem_of_singleton, elem_of_cons. destruct k. naive_solver.
Qed.

Lemma target_elem assigned ids k :
  k ∈ target_of assigned ids
  <-> exists id parts, (id, parts) ∈ assigned /\ Fetcher.names_by_id ids !! id = Some k.1
                       /\ k.2 ∈ parts.
Proof.
  unfold target_of. set (by_id := Fetcher.names_by_id ids). cbn zeta.
  enough (He : forall target : gset Key, k ∈ foldl (fun target '(id, partitions) =>
            match by_id !! id with
            | None => target
            | Some name => foldl (fun target p => {[(name, p)]} ∪ target) target partitions
            end) target assigned
          <-> k ∈ target \/ exists id parts, (id, parts) ∈ assigned /\ by_id !! id = Some k.1
                                             /\ k.2 ∈ parts).
  { rewrite He. set_solver. }
  induction assigned as [|[id parts] assigned IH]; intros target; cbn [foldl].
  { split; [auto|]. intros [|(? & ? & Hn & _)]; [done|by apply elem_of_nil in Hn]. }
  rewrite IH. destruct (by_id !! id) as [name|] eqn:E.
  - rewrite foldl_target_elem. setoid_rewrite elem_of_cons. naive_solver.
  - setoid_rewrite elem_of_cons. naive_solver.
Qed.

Lemma owned_by_id_elem (owned : gset Key) ids id p :
  (exists parts, (id, parts) ∈ map_to_list (owned_by_id owned ids) /\ p ∈ parts)
  <-> exists name, (name, p) ∈ owned /\ ids !! name = Some id /\ Fetcher.is_zero id = false.
Proof.
  unfold owned_by_id. set (step := fun m '(topic, partition) => _).
  setoid_rewrite <- (elem_of_elements owned).
  assert (He : forall l m,
    (exists parts, foldl step m l !! id = Some parts /\ p ∈ parts)
    <-> (exists parts, m !! id = Some parts /\ p ∈ parts)
        \/ exists name, (name, p) ∈ l /\ ids !! name = Some id /\ Fetcher.is_zero id = false).
  { induction l as [|[name q] l IH]; intros m; cbn [foldl].
    - split; [auto|]. intros [|(? & Hn & _)]; [done|by apply elem_of_nil in Hn].
    - rewrite IH. setoid_rewrite elem_of_cons.
      assert (Hstep : step m (name, q) = match ids !! name with
                                         | Some i => if Fetcher.is_zero i then m else push_to m i q
                                         | None => m
                                         end) by done.
      rewrite Hstep. clear Hstep IH. clearbody step.
      destruct (ids !! name) as [i|] eqn:Ei; [|naive_solver].
      destruct (Fetcher.is_zero i) eqn:Ez.
      { apply or_iff_compat_l. split; [intros (n & H1 & H2); exists n; auto|].
        intros (n & [[= -> ->]|Hin] & H2 & H3); [congruence|by exists n]. }
      unfold push_to.
      destruct (decide (i = id)) as [->|Hne].
      + rewrite lookup_partial_alter_eq.
        assert (Hs : forall L : list Z, (exists parts, Some L = Some parts /\ p ∈ parts) <-> p ∈ L)
          by naive_solver.
        rewrite Hs, elem_of_app, list_elem_of_singleton.
        assert (Hm : (exists parts, m !! id = Some parts /\ p ∈ parts) <-> p ∈ default [] (m !! id)).
        { destruct (m !! id); [apply Hs|]. simpl. split; [by intros (? & ? & _)|].
          intros Hp. by apply elem_of_nil in Hp. }
        rewrite Hm. split.
        * intros [[Hin|Hq]|(n & H1 & H2)]; [by left|right; exists name; subst; auto|].
          right. exists n. auto.
        * intros [Hin|(n & [[= -> ->]|Hin] & H2)]; [auto|auto|right; by exists n].
      + rewrite lookup_partial_alter_ne by done. apply or_iff_compat_l. split.
        * intros (n & H1 & H2). exists n. auto.
        * intros (n & [[= -> ->]|Hin] & H2 & H3); [congruence|by exists n]. }
  setoid_rewrite elem_of_map_to_list. rewrite He. set_solver.
Qed.

End GroupFacts.
