(* ===== verification/GroupProperties.v ===== *)
(** Properties of the KIP-848 member ([Group.v]): what reconciliation computes, what
    a heartbeat claims, that nothing is acknowledged before it was given up, and
    what the code leaves undone. *)

From S2P Require Import Prelude Sanitize ErrorCodes ApiKeys Retry BatchDecode BatchDecodeFacts Fetch.
From S2P Require Import FetchFacts Coordinator Consumer ConsumerFacts ConsumerProperties Group.
From Stdlib Require Import QArith.
Open Scope Z_scope.

Module GroupProperties.
Import Offsets Consumer ConsumerFacts ConsumerProperties Membership GroupConsumer GroupRun GroupFacts.

(** ** The invariant of a member *)

Section invariant.
Context `{KafkaProtocol, Batch.RecordCodec} {W : Type} (gn : GroupNet W).



(** What a beat leaves of a membership. *)
Lemma beat_cases w m ids w' m' r :
  beat (ask_heartbeat gn) (now gn) (draw_id gn) w m ids = (w', m', r) ->
  match r with
  | Err _ => owned m' = owned m /\ ack_owed m' = ack_owed m
  | Ok outcome => ack_owed m' = changed outcome
      /\ (changed outcome = true -> outcome = reconcile (owned m) (owned m'))
      /\ (changed outcome = false -> owned m' = owned m \/ owned m' = ∅)
  end.
Proof using Type.
  unfold beat. cbn [build]. destruct (ask_heartbeat _ _ _ _) as [w1 [resp|e]]; [|by intros [= <- <- <-]].
  destruct (now gn w1) as [w2 t].
  destruct (ErrorCode.from_code (hr_error_code resp)) as [code|].
  - destruct (membership_lost code); [|by intros [= <- <- <-]].
    destruct (draw_id gn w2) as [w3 id]. intros [= <- <- <-]. cbn.
    split_and!; [done|done|auto].
  - unfold apply_response. destruct (hr_assignment resp) as [assigned|]; intros [= <- <- <-]; cbn;
      [|split_and!; [done|done|auto]].
    split; [done|]. split; [done|]. intros Hc. left.
    destruct (decide (owned m = target_of assigned ids)) as [|Hne]; [done|].
    apply reconcile_changed in Hne. unfold reconcile in Hne. cbn in Hne. congruence.
Qed.






End invariant.

(** ** Properties *)

(** Reconciling what is owned with a target gives up exactly what the target lacks
    and gains exactly what it adds, each partition once and in order, and reports a
    change exactly when the two differ. *)
Theorem reconcile_is_difference (owned target : gset Key) :
  let r := reconcile owned target in
  (forall k, k ∈ revoked r <-> k ∈ owned /\ k ∉ target)
  /\ (forall k, k ∈ gained r <-> k ∈ target /\ k ∉ owned)
  /\ NoDup (revoked r) /\ NoDup (gained r)
  /\ Sorted key_le (revoked r) /\ Sorted key_le (gained r)
  /\ (changed r = true <-> owned <> target).
Proof.
  cbn zeta. split_and!; try (intros; apply sorted_difference_elem);
    try (cbn; rewrite merge_sort_Permutation; apply NoDup_elements);
    try apply (Sorted_merge_sort _). apply reconcile_changed.
Qed.

(** A member that joins claims nothing and names its subscription; one that has
    joined claims only when an acknowledgement is owed, and then exactly the owned
    partitions of the topics it knows the id of. *)
Theorem claims_only_when_owed (m : Membership) (ids : gmap string bytes) :
  exists request, build m ids = Ok request
  /\ is_Some (hb_topic_partitions request)
  /\ hb_member_id request = member_id m /\ hb_member_epoch request = member_epoch m
  /\ (member_epoch m = 0 <-> hb_subscribed_topic_names request = Some (subscription m))
  /\ forall id p, claims request id p
     <-> ack_owed m = true /\ member_epoch m <> 0
         /\ exists name, (name, p) ∈ owned m /\ ids !! name = Some id
                         /\ id <> replicate 16 Byte.x00.
Proof.
  eexists. split; [reflexivity|]. cbn. unfold EPOCH_JOIN. split_and!; [by case_match|done|done| |].
  { destruct (Z.eqb_spec (member_epoch m) 0); split; try done; by intros. }
  intros id p. unfold claims. cbn.
  assert (Hz : Fetcher.is_zero id = false <-> id <> replicate 16 Byte.x00)
    by apply bool_decide_eq_false.
  destruct (ack_owed m), (Z.eqb_spec (member_epoch m) 0) as [E|E]; cbn;
    try (split; [intros (parts & Hn & _); by apply elem_of_nil in Hn|by intros (? & ? & _)]).
  rewrite owned_by_id_elem. setoid_rewrite Hz. naive_solver.
Qed.


(** An acknowledgement the coordinator answers with the assignment it names is no
    change: when the topics owned have ids of their own, the target read from the
    claim is what is owned, nothing is revoked or gained, and no further
    acknowledgement is owed. *)
Theorem acknowledged_assignment_is_stable (m : Membership) (ids : gmap string bytes)
    (request : HeartbeatRequest) (response : HeartbeatResponse) :
  (forall k, k ∈ owned m -> exists id, ids !! k.1 = Some id /\ id <> replicate 16 Byte.x00
     /\ forall name, ids !! name = Some id -> name = k.1) ->
  ack_owed m = true -> member_epoch m <> 0 -> build m ids = Ok request ->
  hr_assignment response = hb_topic_partitions request ->
  let '(m', outcome) := apply_response m ids response in
  owned m' = owned m /\ ack_owed m' = false
  /\ revoked outcome = [] /\ gained outcome = [] /\ changed outcome = false.
Proof.
  intros Hids Hack Hep Hb Hr. unfold build in Hb. injection Hb as <-. cbn in Hr.
  unfold EPOCH_JOIN in Hr. rewrite Hack, (proj2 (Z.eqb_neq _ _) Hep) in Hr. cbn in Hr.
  assert (Ht : target_of (map_to_list (owned_by_id (owned m) ids)) ids = owned m).
  { apply set_eq. intros k. rewrite target_elem. split.
    - intros (id & parts & Hin & Hn & Hp).
      destruct (proj1 (owned_by_id_elem (owned m) ids id k.2)) as (name & Ho & Hi & Hz); [by eexists|].
      destruct (Hids _ Ho) as (id' & Hi' & _ & Hu). simplify_eq/=.
      rewrite (FetchFacts.names_by_id_lookup ids name id) in Hn by done. destruct k. by simplify_eq/=.
    - intros Hk. destruct (Hids k Hk) as (id & Hi & Hz & Hu).
      assert (Hz' : Fetcher.is_zero id = false) by by apply bool_decide_eq_false.
      destruct (proj2 (owned_by_id_elem (owned m) ids id k.2)) as (parts & Hin & Hp).
      { exists k.1. by rewrite <- surjective_pairing. }
      exists id, parts. split_and!; [done| |done]. by apply FetchFacts.names_by_id_lookup. }
  unfold apply_response. rewrite Hr, Ht. cbn.
  assert (Hnil : merge_sort key_le (elements (owned m ∖ owned m)) = [])
    by by apply sorted_difference_nil.
  by rewrite Hnil.
Qed.

(** Unless the membership was lost before, no partition stops being read unannounced:
    when a member reads what it owns, a heartbeat that takes a partition away names
    it, with its position, in what is revoked, which the listener is told and
    auto-commit stores before the assignment moves. *)
Theorem revocation_is_announced `{KafkaProtocol, Batch.RecordCodec} {W} (gn : GroupNet W)
    (w w' : W) (g g' : GroupConsumer) (k : Key) (a : Assigned) :
  pending g = None -> matches g ->
  heartbeat gn w g = (w', g', Ok tt) ->
  assignment (inner g) !! k = Some a -> assignment (inner g') !! k = None ->
  exists w1 m outcome told,
    beat (ask_heartbeat gn) (now gn) (draw_id gn) w (membership g) (topic_ids (inner g))
    = (w1, m, Ok outcome)
    /\ {| rp_topic := k.1; rp_partition := k.2; rp_position := position_ a |} ∈ told
    /\ settle gn w1 (with_pending (with_membership g m)
                       (Some {| p_revoked := told; p_gained := gained outcome |})) = (w', g', Ok tt).
Proof.
  intros Hn Hm. unfold heartbeat. destruct (beat _ _ _ _ _ _) as [[w1 m] [outcome|e]] eqn:Eb; [|done].
  intros Hh Ha Hgone. destruct (changed outcome) eqn:Ec; [|by simplify_eq/=].
  exists w1, m, outcome, (revoked_positions (inner g) (revoked outcome)).
  split; [done|]. split; [|exact Hh].
  apply beat_cases in Eb as (_ & Hch & _). specialize (Hch Ec).
  unfold settle in Hh. cbn [pending with_pending] in Hh.
  destruct (pending_is_empty _).
  { injection Hh as <- <-. cbn in Hgone. congruence. }
  destruct (reassign _ _ _ _) as [[w2 c] [[]|e]] eqn:Er; [|done].
  injection Hh as <- <-. cbn in Hgone, Er.
  apply reassign_owned in Er as [Hd _].
  assert (Hk : k ∈ revoked outcome).
  { rewrite Hch. apply sorted_difference_elem. split; [apply Hm; by eexists|].
    rewrite <- elem_of_elements, <- Hd, Hgone. by intros []. }
  unfold revoked_positions. apply list_elem_of_fmap. exists k. by rewrite Ha.
Qed.

(** A member that lost its membership goes on reading: the heartbeat that says so
    forgets what is owned, and leaves the assignment, its positions and its buffer
    as they were, with nothing pending; whatever the coordinator assigns once the
    member has rejoined, nothing is reported as revoked. *)
Theorem lost_membership_keeps_reading `{KafkaProtocol, Batch.RecordCodec} {W} (gn : GroupNet W)
    (w w1 w' : W) (g g' : GroupConsumer) (request : HeartbeatRequest)
    (response : HeartbeatResponse) (code : ErrorCode.ErrorCode) :
  pending g = None ->
  build (membership g) (topic_ids (inner g)) = Ok request ->
  ask_heartbeat gn w (m_group_id (membership g)) request = (w1, Ok response) ->
  ErrorCode.from_code (hr_error_code response) = Some code -> membership_lost code = true ->
  heartbeat gn w g = (w', g', Ok tt) ->
  inner g' = inner g /\ pending g' = None
  /\ owned (membership g') = ∅ /\ member_epoch (membership g') = 0
  /\ forall ids later, revoked (apply_response (membership g') ids later).2 = [].
Proof.
  intros Hn Hb Ha Hc Hl. unfold heartbeat, beat. rewrite Hb, Ha.
  destruct (now gn w1) as [w2 t]. rewrite Hc, Hl. destruct (draw_id gn w2) as [w3 id]. cbn.
  intros [= <- <-]. split_and!; [done|exact Hn|done|done|]. intros ids later.
  unfold apply_response. destruct (hr_assignment later) as [assigned|]; [|done]. cbn.
  apply sorted_difference_nil. set_solver.
Qed.

(** An assignment of topics whose ids the member does not know is taken as an
    assignment of nothing: every partition it owned is revoked. *)
Theorem unknown_topics_revoke_everything (m : Membership) (ids : gmap string bytes)
    (response : HeartbeatResponse) (assigned : list (bytes * list Z)) :
  hr_assignment response = Some assigned ->
  (forall id parts, (id, parts) ∈ assigned -> Fetcher.names_by_id ids !! id = None) ->
  let '(m', outcome) := apply_response m ids response in
  owned m' = ∅ /\ (forall k, k ∈ revoked outcome <-> k ∈ owned m).
Proof.
  intros Ha Hu. unfold apply_response. rewrite Ha. cbn.
  assert (Ht : target_of assigned ids = ∅).
  { apply set_eq. intros k. rewrite target_elem. split; [|set_solver].
    intros (id & parts & Hin & Hn & _). rewrite (Hu _ _ Hin) in Hn. done. }
  rewrite Ht. split; [done|]. intros k. rewrite sorted_difference_elem. set_solver.
Qed.

(** Records that a failed poll left in the buffer are lost when their partition is
    revoked: the settling stores the position, which is past them, and drops them. *)
Theorem buffered_records_are_lost `{KafkaProtocol, Batch.RecordCodec} {W} (gn : GroupNet W)
    (w w' : W) (g g' : GroupConsumer) (p : Pending) (group : string) (r : DRecord) (a : Assigned) :
  pending g = Some p -> p_revoked p <> [] -> auto_commit g = true -> listener g = false ->
  Consumer.group_id (config (inner g)) = Some group ->
  assignment (inner g) !! (record_key r) = Some a -> Batch.r_offset r < position_ a ->
  ~ record_key r ∈ owned (membership g) ->
  settle gn w g = (w', g', Ok tt) ->
  (r ∉ buffered (inner g'))
  /\ exists req, (record_key r, position_ a) ∈ commit_entries req
      /\ (commit_as (net gn) w (inner g) (Some (commit_identity g))).1
         = (ask_commit (net gn) w group req).1.
Proof.
  intros Hp Hne Hauto Hl Hg Ha Hoff Hown. unfold settle. rewrite Hp, Hauto.
  assert (He : pending_is_empty p = false).
  { unfold pending_is_empty. by rewrite bool_decide_eq_false_2. }
  rewrite He. destruct (reassign _ _ _ _) as [[w1 c] [[]|e]] eqn:Er; [|done]. intros [= <- <-].
  apply reassign_owned in Er as [_ Hb]. split.
  - cbn. intros Hin. specialize (Hb (record_key r)). rewrite elem_of_elements in Hb.
    assert (Hat : r ∈ at_ (record_key r) (buffered c)) by by apply list_elem_of_filter.
    rewrite (Hb Hown) in Hat. by apply elem_of_nil in Hat.
  - destruct (commit_asks (net gn) w (inner g) (Some (commit_identity g)) group Hg)
      as (req & Hreq & Hent & _); [intros E; by rewrite E in Ha|].
    exists req. split.
    + rewrite Hent. apply list_elem_of_fmap. exists (record_key r, a). split; [done|].
      by apply elem_of_map_to_list.
    + rewrite Hreq. by destruct (ask_commit _ _ _ _).
Qed.

(** Leaving: a member never admitted asks nothing; one that was tells the
    coordinator, with the epoch that parks a static member's assignment or releases
    a dynamic one's, and once that is answered owns nothing and would join anew. *)
Theorem leaving_parks_or_releases `{KafkaProtocol} {W}
    (ask : W -> string -> HeartbeatRequest -> W * result HeartbeatResponse Error.Error)
    (draw : W -> W * string) (w : W) (m : Membership) :
  if member_epoch m <=? 0 then leave ask draw w m = (w, m, Ok tt)
  else exists request,
    hb_member_epoch request = (match instance_id m with Some _ => -2 | None => -1 end)
    /\ hb_member_id request = member_id m /\ hb_topic_partitions request = None
    /\ let '(w1, response) := ask w (m_group_id m) request in
       match response with
       | Err e => leave ask draw w m = (w1, m, Err e)
       | Ok response => exists m' r, leave ask draw w m = ((draw w1).1, m', r)
           /\ owned m' = ∅ /\ member_epoch m' = 0 /\ ack_owed m' = false
           /\ (r = Ok tt <-> match ErrorCode.from_code (hr_error_code response) with
                             | Some code => membership_lost code = true
                             | None => True
                             end)
       end.
Proof.
  unfold leave. change EPOCH_JOIN with 0. destruct (member_epoch m <=? 0); [done|].
  exists (leave_request m). split_and!; [cbn; by destruct (instance_id m)|done|done|].
  destruct (ask w _ _) as [w1 [resp|e]]; [|done]. destruct (draw w1) as [w2 id]. cbn [fst].
  eexists _, _. do 4 (split; [reflexivity|]).
  destruct (ErrorCode.from_code (hr_error_code resp)) as [code|]; [|by split].
  destruct (membership_lost code); by split.
Qed.

(** ** Witnesses *)

Import ConsumerDemo.

(** A coordinator that answers from a script, and a listener that keeps a log. *)
Abbreviation World := (nat * (list HeartbeatResponse * list RevokedPartition))%type.

Definition no_answer : HeartbeatResponse :=
  {| hr_error_code := 0; hr_error_message := None; hr_member_id := None; hr_member_epoch := 1;
     hr_heartbeat_interval_ms := 1; hr_assignment := None |}.

Definition demo_group : GroupNet World := {|
  net := demo_net;
  ask_heartbeat '(n, (script, log)) group request :=
    ((n, (tail script, log)), Ok (default no_answer (head script)));
  now w := (w, 10 * Retry.SECOND);
  draw_id w := (w, "fresh"%string);
  on_revoke '(n, (script, log)) told := (n, (script, log ++ told));
  on_assign w gained := w;
|}.

(** The coordinator assigns partitions of topic t. *)
Definition assigns (epoch : Z) (parts : list Z) : HeartbeatResponse :=
  {| hr_error_code := 0; hr_error_message := None; hr_member_id := None;
     hr_member_epoch := epoch; hr_heartbeat_interval_ms := 1;
     hr_assignment := Some [(demo_id, parts)] |}.

Definition fences : HeartbeatResponse :=
  {| hr_error_code := 110; hr_error_message := None; hr_member_id := None; hr_member_epoch := 0;
     hr_heartbeat_interval_ms := 0; hr_assignment := None |}.

Definition demo_membership (parts : list Z) (ack : bool) : Membership := {|
  m_group_id := "g"; instance_id := None; subscription := ["t"%string]; member_id := "m";
  member_epoch := 3; heartbeat_interval := 0; m_rebalance_timeout_ms := 1;
  owned := list_to_set (map (pair "t"%string) parts); last_beat := None; ack_owed := ack |}.

(** A member of partition 0 at offset 10. *)
Definition demo_member (buffered : list DRecord) (pending : option Pending) (parts : list Z)
    : GroupConsumer := {|
  inner := demo_consumer 10 buffered; membership := demo_membership parts false;
  ever_joined := true; auto_commit := true; listener := false; pending := pending |}.




Lemma acknowledged_assignment_is_stable_witness :
  exists m outcome,
    apply_response (demo_membership [0; 2] true) {["t"%string := demo_id]}
      {| hr_error_code := 0; hr_error_message := None; hr_member_id := None; hr_member_epoch := 4;
         hr_heartbeat_interval_ms := 1;
         hr_assignment := Some (map_to_list (owned_by_id (owned (demo_membership [0; 2] true))
                                               {["t"%string := demo_id]})) |} = (m, outcome)
    /\ changed outcome = false.
Proof.
  destruct (apply_response _ _ _) as [m outcome] eqn:E. exists m, outcome. split; [reflexivity|].
  edestruct (build (demo_membership [0; 2] true) {["t"%string := demo_id]}) as [request|e] eqn:Eb;
    [|discriminate Eb].
  pose proof (acknowledged_assignment_is_stable (demo_membership [0; 2] true)
                {["t"%string := demo_id]} request
                {| hr_error_code := 0; hr_error_message := None; hr_member_id := None;
                   hr_member_epoch := 4; hr_heartbeat_interval_ms := 1;
                   hr_assignment := Some (map_to_list (owned_by_id
                      (owned (demo_membership [0; 2] true)) {["t"%string := demo_id]})) |}) as Hs.
  rewrite E in Hs. apply Hs; clear Hs E.
  - intros k Hk. exists demo_id. apply elem_of_list_to_set in Hk.
    repeat (apply elem_of_cons in Hk as [->|Hk]); try by apply elem_of_nil in Hk.
    all: split; [reflexivity|]; split; [discriminate|]; intros name Hn.
    all: by apply lookup_singleton_Some in Hn as [<- _].
  - reflexivity.
  - discriminate.
  - exact Eb.
  - cbn in Eb. injection Eb as <-. reflexivity.
Defined.

(** Partition 0 is taken away: the revocation names it at offset 10. *)
Lemma revocation_is_announced_witness :
  exists w g' told,
    heartbeat demo_group (0%nat, ([assigns 4 [1]], [])) (demo_member [] None [0]) = (w, g', Ok tt)
    /\ {| rp_topic := "t"; rp_partition := 0; rp_position := 10 |} ∈ (told : list RevokedPartition).
Proof.
  assert (Hv : let '(_, g', r) := heartbeat demo_group (0%nat, ([assigns 4 [1]], []))
                                    (demo_member [] None [0]) in
               r = Ok tt /\ assignment (inner g') !! ("t"%string, 0) = None)
    by (vm_compute; split; reflexivity).
  destruct (heartbeat demo_group (0%nat, ([assigns 4 [1]], [])) (demo_member [] None [0]))
    as [[w g'] r] eqn:E.
  destruct Hv as [-> Hgone]. exists w, g'.
  destruct (revocation_is_announced demo_group (0%nat, ([assigns 4 [1]], [])) w (demo_member [] None [0])
              g' ("t"%string, 0) (fresh_assigned 10)) as (w1 & m & outcome & told & _ & Ht & _).
  - reflexivity.
  - clear E Hgone. intros k. cbn. destruct (decide (k = ("t"%string, 0))) as [->|Hk].
    + split; [set_solver|]. intros _. vm_compute. by eexists.
    + rewrite lookup_singleton_ne by done. split; [by intros []|]. set_solver.
  - exact E.
  - reflexivity.
  - exact Hgone.
  - exists told. split; [reflexivity|exact Ht].
Defined.

(** Fenced while it reads partition 0: it goes on reading it. *)
Lemma lost_membership_keeps_reading_witness :
  let '(_, g', _) := heartbeat demo_group (0%nat, ([fences], [])) (demo_member [] None [0]) in
  inner g' = demo_consumer 10 [] /\ owned (membership g') = ∅.
Proof.
  destruct (heartbeat demo_group (0%nat, ([fences], [])) (demo_member [] None [0]))
    as [[w g'] r] eqn:E.
  assert (Hr : r = Ok tt).
  { change r with (w, g', r).2. rewrite <- E. vm_compute. reflexivity. }
  rewrite Hr in E.
  destruct (lost_membership_keeps_reading demo_group (0%nat, ([fences], [])) (0%nat, ([], [])) w
              (demo_member [] None [0]) g'
              (match build (demo_membership [0] false) {["t"%string := demo_id]} with
               | Ok r => r
               | Err _ => leave_request (demo_membership [0] false)
               end) fences ErrorCode.FencedMemberEpoch) as (Hi & _ & Ho & _).
  - reflexivity.
  - reflexivity.
  - reflexivity.
  - reflexivity.
  - reflexivity.
  - exact E.
  - split; [exact Hi|exact Ho].
Defined.

(** Fenced, rejoined and given partition 1: partition 0 is gone, and the listener
    was told nothing. *)
Example lost_partition_is_never_reported :
  let g := {| inner := demo_consumer 10 []; membership := demo_membership [0] false;
              ever_joined := true; auto_commit := true; listener := true; pending := None |} in
  let w := (0%nat, ([fences; assigns 1 [1]], [])) in
  let '(w, g, _) := heartbeat demo_group w g in
  let '(w, g, _) := heartbeat demo_group w g in
  assignment_keys (inner g) = [("t"%string, 1)] /\ w.2.2 = [].
Proof. vm_compute. split; reflexivity. Qed.

Lemma unknown_topics_revoke_everything_witness :
  let '(m', outcome) := apply_response (demo_membership [0] false) ∅ (assigns 4 [0]) in
  ("t"%string, 0) ∈ revoked outcome.
Proof.
  pose proof (unknown_topics_revoke_everything (demo_membership [0] false) ∅ (assigns 4 [0])
                [(demo_id, [0])] eq_refl) as Hu.
  destruct (apply_response _ _ _) as [m' outcome]. apply Hu.
  - intros id parts _. reflexivity.
  - set_solver.
Defined.

(** Offset 10 was fetched, never delivered, committed past and dropped. *)
Lemma buffered_records_are_lost_witness :
  let r := Batch.convert "t" 0 (demo_record (BatchSpec.e_bytes (plain 9))) in
  let g := demo_member [r] (Some {| p_revoked := [{| rp_topic := "t"; rp_partition := 0;
                                                     rp_position := 10 |}]; p_gained := [] |}) [] in
  exists w' g', settle demo_group (0%nat, ([], [])) g = (w', g', Ok tt)
    /\ ~ r ∈ buffered (inner g').
Proof.
  cbn zeta. set (r := Batch.convert "t" 0 (demo_record (BatchSpec.e_bytes (plain 9)))).
  set (g := demo_member [r] _ []).
  destruct (settle demo_group (0%nat, ([], [])) g) as [[w' g'] res] eqn:E.
  assert (Hr : res = Ok tt).
  { change res with (w', g', res).2. rewrite <- E. vm_compute. reflexivity. }
  rewrite Hr in E. rewrite Hr. exists w', g'. split; [reflexivity|].
  apply (buffered_records_are_lost demo_group (0%nat, ([], [])) w' g g'
           {| p_revoked := [{| rp_topic := "t"; rp_partition := 0; rp_position := 10 |}];
              p_gained := [] |} "g" r (fresh_assigned 10)).
  - reflexivity.
  - discriminate.
  - reflexivity.
  - reflexivity.
  - reflexivity.
  - vm_compute. reflexivity.
  - vm_compute. reflexivity.
  - clear E Hr. set_solver.
  - exact E.
Defined.

End GroupProperties.
