(* ===== verification/Assignors.v ===== *)
(** The assignors of the classic group protocol ([crates/kafka-consume/src/classic.rs]):
    range, round robin and cooperative sticky, and the choice among them.

    A [BTreeMap] is a finite map iterated in key order: [entries] and [key_list] are
    that iteration. *)

From S2P Require Import Prelude Group.
Open Scope Z_scope.

Module Assignor.
Import Membership.

Definition RANGE : string := "range".
Definition ROUND_ROBIN : string := "roundrobin".
Definition COOPERATIVE_STICKY : string := "cooperative-sticky".

Inductive Assignor : Type := Range | RoundRobin | CooperativeSticky.

Definition name (self : Assignor) : string :=
  match self with
  | Range => RANGE
  | RoundRobin => ROUND_ROBIN
  | CooperativeSticky => COOPERATIVE_STICKY
  end.

Definition is_eager (self : Assignor) : bool :=
  match self with CooperativeSticky => false | _ => true end.

Definition SUPPORTED : list Assignor := [Range; RoundRobin; CooperativeSticky].

Definition is_cooperative (protocol : string) : bool := bool_decide (protocol = COOPERATIVE_STICKY).

(** One member's subscription, as the leader sees it. *)
Record MemberSubscription : Type := {
  member_id : string;
  topics : list string;
  owned : list Key;
  generation : Z;
}.

Definition subscribes_to (self : MemberSubscription) (topic : string) : bool :=
  bool_decide (topic ∈ topics self).

(** Member, then topic, to partitions. *)
Abbreviation Assignment := (gmap string (gmap string (list Z))).

(** The iteration of a map of topics, and of a set of partitions, in key order. *)
Definition entry_le {A} (a b : string * A) : Prop := String.le a.1 b.1.

#[export] Instance entry_le_dec {A} : RelDecision (@entry_le A).
Proof. intros a b. unfold entry_le. apply _. Defined.

Definition entries {A} (m : gmap string A) : list (string * A) := merge_sort entry_le (map_to_list m).

Definition key_list (s : gset Key) : list Key := merge_sort key_le (elements s).

(** [sort_by] of the member id. *)
Definition member_le (a b : MemberSubscription) : Prop := String.le (member_id a) (member_id b).

#[export] Instance member_le_dec : RelDecision member_le.
Proof. intros a b. unfold member_le. apply _. Defined.

Definition sort_members (members : list MemberSubscription) : list MemberSubscription :=
  merge_sort member_le members.

(** Every member, with nothing. *)
Definition empty_assignment (members : list MemberSubscription) : Assignment :=
  foldl (fun out member => <[member_id member := ∅]> out) ∅ members.

(** ** Range *)

(** [out.entry(member).or_default().insert(topic, assigned)]. *)
Definition give (out : Assignment) (member topic : string) (assigned : list Z) : Assignment :=
  <[member := <[topic := assigned]> (default ∅ (out !! member))]> out.

(** One subscribed member: the next partition to hand out, and the assignment. *)
Definition range_member (topic : string) (per_member with_extra : Z)
    (acc : Z * Assignment) (item : nat * MemberSubscription) : Z * Assignment :=
  let '(next, out) := acc in
  let index := try_from_or I32_MAX 0 (Z.of_nat item.1) in
  let take := per_member + (if index <? with_extra then 1 else 0) in
  if take <=? 0 then acc
  else
    let upto := i32_saturating_add next take in
    let assigned := seqZ next (upto - next) in
    (upto, if decide (assigned = []) then out else give out (member_id item.2) topic assigned).

(** [enumerate]. *)
Definition enumerate {A} (l : list A) : list (nat * A) := imap pair l.

Definition range_topic (members : list MemberSubscription) (out : Assignment)
    (topic_count : string * Z) : Assignment :=
  let '(topic, count) := topic_count in
  match sort_members (filter (fun m => topic ∈ topics m) members) with
  | [] => out
  | subscribed =>
      let members_count := try_from_or I32_MAX 1 (Z.of_nat (length subscribed)) in
      (foldl (range_member topic (Z.quot count members_count) (Z.rem count members_count)) (0, out)
         (enumerate subscribed)).2
  end.

Definition assign_range (members : list MemberSubscription)
    (partitions_per_topic : gmap string Z) : Assignment :=
  foldl (range_topic members) (empty_assignment members) (entries partitions_per_topic).

(** ** Round robin *)

(** [out.entry(member).or_default().entry(topic).or_default().push(partition)]. *)
Definition push (out : Assignment) (member topic : string) (partition : Z) : Assignment :=
  <[member := push_to (default ∅ (out !! member)) topic partition]> out.

(** [while looked < sorted.len()]: the next member that wants the topic, and where
    the cursor is left. *)
Fixpoint rr_find (sorted : list MemberSubscription) (topic : string) (looks : nat) (cursor : Z)
    : Z * option MemberSubscription :=
  match looks with
  | O => (cursor, None)
  | S looks =>
      match sorted !! Z.to_nat (cursor mod Z.of_nat (length sorted)) with
      | None => (cursor, None)
      | Some member =>
          let cursor := (cursor + 1) mod 2 ^ 64 in
          if bool_decide (topic ∈ topics member) then (cursor, Some member)
          else rr_find sorted topic looks cursor
      end
  end.

Definition rr_step (sorted : list MemberSubscription) (acc : Z * Assignment) (key : Key)
    : Z * Assignment :=
  let '(cursor, out) := acc in
  let '(cursor, found) := rr_find sorted key.1 (length sorted) cursor in
  (cursor, match found with
           | Some member => push out (member_id member) key.1 key.2
           | None => out
           end).

(** Every partition of every topic, in order. *)
Definition all_partitions (partitions_per_topic : gmap string Z) : list Key :=
  flat_map (fun '(topic, count) => map (pair topic) (seqZ 0 count)) (entries partitions_per_topic).

Definition assign_round_robin (members : list MemberSubscription)
    (partitions_per_topic : gmap string Z) : Assignment :=
  let out := empty_assignment members in
  match sort_members members with
  | [] => out
  | sorted => (foldl (rr_step sorted) (0, out) (all_partitions partitions_per_topic)).2
  end.

(** ** Cooperative sticky *)

Abbreviation Held := (gmap string (gset Key)).

(** One claim: of two, the one of the newer generation, the first of equals. *)
Definition claim (all : gset Key) (member : MemberSubscription)
    (owner : gmap Key (string * Z)) (key : Key) : gmap Key (string * Z) :=
  if negb (bool_decide (key ∈ all)) || negb (subscribes_to member key.1) then owner
  else match owner !! key with
       | Some (_, g) => if generation member <=? g then owner
                        else <[key := (member_id member, generation member)]> owner
       | None => <[key := (member_id member, generation member)]> owner
       end.

Definition owners (all : gset Key) (sorted : list MemberSubscription) : gmap Key (string * Z) :=
  foldl (fun owner member => foldl (claim all member) owner (owned member)) ∅ sorted.

(** [if let Some(set) = held.get_mut(member) { set.insert(key) }]. *)
Definition hold (held : Held) (member : string) (key : Key) : Held :=
  alter (fun set => {[key]} ∪ set) member held.

Definition drop_held (held : Held) (member : string) (key : Key) : Held :=
  alter (fun set => set ∖ {[key]}) member held.

Definition held_len (held : Held) (member : string) : Z :=
  match held !! member with Some set => Z.of_nat (size set) | None => 0 end.

(** [min_by_key], the first of equals. *)
Definition fewer (held : Held) (a b : MemberSubscription) : bool :=
  (held_len held (member_id a) <? held_len held (member_id b))
  || (held_len held (member_id a) =? held_len held (member_id b))
     && bool_decide (String.le (member_id a) (member_id b)).

Definition emptiest (members : list MemberSubscription) (held : Held) (topic : string)
    : option string :=
  member_id <$>
  foldl (fun best m => match best with
                       | None => Some m
                       | Some b => if fewer held b m then Some b else Some m
                       end) None
    (filter (fun m => topic ∈ topics m) members).

(** Members by size, the fullest first, ties by id. *)
Definition size_le (a b : string * Z) : Prop :=
  b.2 < a.2 \/ b.2 = a.2 /\ String.le a.1 b.1.

#[export] Instance size_le_dec : RelDecision size_le.
Proof. intros a b. unfold size_le. apply _. Defined.

Definition sizes (held : Held) : list (string * Z) :=
  merge_sort size_le (map (fun '(id, set) => (id, Z.of_nat (size set))) (entries held)).

(** The pair of loops of [imbalance], the inner one's early returns included: the
    first pair more than one apart decides. *)
Definition imbalance (members : list MemberSubscription) (held : Held)
    : option (string * string * Key) :=
  let by_size := sizes held in
  let pairs := flat_map (fun f => map (pair f) (reverse by_size)) by_size in
  match List.find (fun '((_, size), (_, other)) => negb (size <=? other + 1)) pairs with
  | None => None
  | Some ((fullest, _), (emptiest, _)) =>
      takes ← List.find (fun m => bool_decide (member_id m = emptiest)) members;
      set ← held !! fullest;
      moved ← List.find (fun key => subscribes_to takes key.1) (key_list set);
      Some (fullest, emptiest, moved)
  end.

Fixpoint balance_loop (rounds : nat) (members : list MemberSubscription) (held : Held) : Held :=
  match rounds with
  | O => held
  | S rounds =>
      match imbalance members held with
      | None => held
      | Some (from, to, key) =>
          balance_loop rounds members (hold (drop_held held from key) to key)
      end
  end.

Definition held_total (held : Held) : nat :=
  foldr (fun '(_, set) n => (size set + n)%nat) 0%nat (map_to_list held).

Definition balance (members : list MemberSubscription) (held : Held) : Held :=
  balance_loop (2 * held_total held) members held.

(** Every partition of every subscribed topic. *)
Definition wanted_partitions (sorted : list MemberSubscription)
    (partitions_per_topic : gmap string Z) : gset Key :=
  list_to_set (filter (fun key => existsb (fun m => subscribes_to m key.1) sorted = true)
                 (all_partitions partitions_per_topic)).

(** What the owners hold. *)
Definition held_by_owners (sorted : list MemberSubscription) (owner : gmap Key (string * Z)) : Held :=
  foldl (fun held '(key, (member, _)) => hold held member key)
    (foldl (fun held m => <[member_id m := ∅]> held) ∅ sorted)
    (map_to_list owner).

(** What nobody holds goes to whoever has the least. *)
Definition fill (sorted : list MemberSubscription) (owner : gmap Key (string * Z)) (held : Held)
    (key : Key) : Held :=
  match owner !! key with
  | Some _ => held
  | None => match emptiest sorted held key.1 with
            | Some member => hold held member key
            | None => held
            end
  end.

(** What is still owned by somebody else is withheld. *)
Definition withhold (owner : gmap Key (string * Z)) (held : Held) : Held :=
  map_imap (fun member set =>
    Some (filter (fun key => match owner !! key with
                             | Some (holder, _) => bool_decide (holder = member)
                             | None => true
                             end = true) set)) held.

Definition by_topic (set : gset Key) : gmap string (list Z) :=
  foldl (fun topics key => push_to topics key.1 key.2) ∅ (key_list set).

(** The target before anything is withheld. *)
Definition sticky_target (sorted : list MemberSubscription) (all : gset Key)
    (owner : gmap Key (string * Z)) : Held :=
  balance sorted (foldl (fill sorted owner) (held_by_owners sorted owner) (key_list all)).

Definition assign_cooperative_sticky (members : list MemberSubscription)
    (partitions_per_topic : gmap string Z) : Assignment :=
  match sort_members members with
  | [] => ∅
  | sorted =>
      let all := wanted_partitions sorted partitions_per_topic in
      let owner := owners all sorted in
      by_topic <$> withhold owner (sticky_target sorted all owner)
  end.

Definition assign (protocol : string) (members : list MemberSubscription)
    (partitions_per_topic : gmap string Z) : Assignment :=
  if decide (protocol = ROUND_ROBIN) then assign_round_robin members partitions_per_topic
  else if decide (protocol = COOPERATIVE_STICKY) then
    assign_cooperative_sticky members partitions_per_topic
  else assign_range members partitions_per_topic.

End Assignor.
