(* ===== verification/AssignorsFacts.v ===== *)
(** Lemmas of the assignors: the iteration of a map, what range and round robin hand
    out, and what the cooperative step withholds. *)

From S2P Require Import Prelude Group Assignors.
Open Scope Z_scope.

Module AssignorFacts.
Import Membership Assignor.

(** ** Iteration *)

#[export] Instance entry_le_total {A} : Total (@entry_le A).
Proof. intros a b. apply String.le_total. Qed.

#[export] Instance member_le_total : Total member_le.
Proof. intros a b. apply String.le_total. Qed.

#[export] Instance member_le_trans : Transitive member_le.
Proof. intros a b c. unfold member_le. apply transitivity. Qed.

Lemma entries_Permutation {A} (m : gmap string A) : entries m ≡ₚ map_to_list m.
Proof. apply merge_sort_Permutation. Qed.

Lemma entries_elem {A} (m : gmap string A) k x : (k, x) ∈ entries m <-> m !! k = Some x.
Proof. by rewrite entries_Permutation, elem_of_map_to_list. Qed.

Lemma entries_NoDup {A} (m : gmap string A) : NoDup (map fst (entries m)).
Proof. rewrite entries_Permutation. apply NoDup_fst_map_to_list. Qed.

Lemma key_list_elem s k : k ∈ key_list s <-> k ∈ s.
Proof. unfold key_list. by rewrite merge_sort_Permutation, elem_of_elements. Qed.

Lemma key_list_NoDup s : NoDup (key_list s).
Proof. unfold key_list. rewrite merge_sort_Permutation. apply NoDup_elements. Qed.

Lemma sort_members_Permutation l : sort_members l ≡ₚ l.
Proof. apply merge_sort_Permutation. Qed.

(** Ids tell members apart. *)
Lemma id_inj (l : list MemberSubscription) a b :
  NoDup (map member_id l) -> a ∈ l -> b ∈ l -> member_id a = member_id b -> a = b.
Proof.
  induction l as [|c l IH]; intros Hnd Ha Hb E; [by apply elem_of_nil in Ha|].
  apply NoDup_cons in Hnd as [Hc Hnd].
  apply elem_of_cons in Ha as [->|Ha]; apply elem_of_cons in Hb as [->|Hb]; try done.
  - destruct Hc. rewrite E. by apply list_elem_of_fmap_2.
  - destruct Hc. rewrite <- E. by apply list_elem_of_fmap_2.
  - by apply IH.
Qed.

Lemma sort_members_unique l1 l2 :
  NoDup (map member_id l1) -> l1 ≡ₚ l2 -> sort_members l1 = sort_members l2.
Proof.
  intros Hnd Hp. apply (StronglySorted_unique_strong member_le).
  - intros a b Ha Hb Hab Hba. rewrite sort_members_Permutation in Ha, Hb.
    rewrite <- Hp in Hb. apply (id_inj l1); [done..|]. by apply (anti_symm String.le).
  - apply (StronglySorted_merge_sort member_le).
  - apply (StronglySorted_merge_sort member_le).
  - by rewrite !sort_members_Permutation.
Qed.

(** ** What an assignment gives *)

Definition parts (out : Assignment) (m t : string) : list Z :=
  default [] (default ∅ (out !! m) !! t).

Lemma parts_empty members m t : parts (empty_assignment members) m t = [].
Proof.
  unfold parts. destruct (empty_assignment members !! m) as [x|] eqn:E;
    [|cbn; by rewrite lookup_empty].
  assert (Hx : forall l (out : Assignment), (forall m x, out !! m = Some x -> x = ∅) ->
    forall m x, foldl (fun out member => <[member_id member := ∅]> out) out l !! m = Some x -> x = ∅).
  { induction l as [|a l IH]; intros out Ho; [done|]. apply IH. intros m' x' Hm.
    destruct (decide (member_id a = m')) as [<-|Hne].
    - rewrite lookup_insert_eq in Hm. by simplify_eq.
    - rewrite lookup_insert_ne in Hm by done. by eapply Ho. }
  rewrite (Hx members ∅ (fun m x H => ltac:(by rewrite lookup_empty in H)) m x E).
  cbn. by rewrite lookup_empty.
Qed.

Lemma parts_give out m t l m' t' :
  parts (give out m t l) m' t' = if decide (m = m' /\ t = t') then l else parts out m' t'.
Proof.
  unfold parts, give. destruct (decide (m = m')) as [<-|Hm].
  - rewrite lookup_insert_eq. cbn. destruct (decide (t = t')) as [<-|Ht].
    + rewrite lookup_insert_eq, decide_True by done. done.
    + rewrite lookup_insert_ne, decide_False by naive_solver. done.
  - rewrite lookup_insert_ne, decide_False by naive_solver. done.
Qed.

Lemma parts_push out m t p m' t' :
  parts (push out m t p) m' t'
  = if decide (m = m' /\ t = t') then parts out m' t' ++ [p] else parts out m' t'.
Proof.
  unfold parts, push, push_to. destruct (decide (m = m')) as [<-|Hm].
  - rewrite lookup_insert_eq. cbn. destruct (decide (t = t')) as [<-|Ht].
    + rewrite lookup_partial_alter_eq, decide_True by done. done.
    + rewrite lookup_partial_alter_ne, decide_False by naive_solver. done.
  - rewrite lookup_insert_ne, decide_False by naive_solver. done.
Qed.

(** ** Range *)

(** Java's range: where the [i]th member starts, and how much it gets. *)
Definition start (q r i : Z) : Z := q * i + Z.min i r.
Definition len (q r i : Z) : Z := q + (if i <? r then 1 else 0).

Lemma start_next q r i : start q r (i + 1) = start q r i + len q r i.
Proof. unfold start, len. destruct (i <? r) eqn:E; lia. Qed.

Definition from (j : nat) (l : list MemberSubscription) : list (nat * MemberSubscription) :=
  imap (fun i m => ((j + i)%nat, m)) l.

Lemma from_cons j a l : from j (a :: l) = (j, a) :: from (S j) l.
Proof.
  unfold from. cbn. rewrite Nat.add_0_r. f_equal. apply imap_ext. intros i m _. cbn.
  by rewrite Nat.add_succ_r.
Qed.

Lemma range_member_step topic q r j a out :
  0 <= q -> 0 <= r -> Z.of_nat j < I32_MAX -> start q r (Z.of_nat j + 1) <= I32_MAX ->
  parts out (member_id a) topic = [] ->
  let acc := range_member topic q r (start q r (Z.of_nat j), out) (j, a) in
  acc.1 = start q r (Z.of_nat (S j))
  /\ forall m t, parts acc.2 m t
     = if decide (m = member_id a /\ t = topic)
       then seqZ (start q r (Z.of_nat j)) (len q r (Z.of_nat j)) else parts out m t.
Proof.
  intros Hq Hr Hj Hs Ho. rewrite Nat2Z.inj_succ, <- Z.add_1_r, start_next in *.
  unfold range_member. cbn [fst snd]. unfold try_from_or.
  assert (Hj' : (Z.of_nat j <=? I32_MAX) = true) by lia. rewrite Hj'.
  change (q + (if Z.of_nat j <? r then 1 else 0)) with (len q r (Z.of_nat j)).
  assert (0 <= start q r (Z.of_nat j)) by (unfold start; nia).
  assert (0 <= len q r (Z.of_nat j)) by (unfold len; case_match; lia).
  destruct (len q r (Z.of_nat j) <=? 0) eqn:E.
  - cbn. split; [lia|]. intros m t. case_decide as Hd; [|done]. destruct Hd as [-> ->].
    rewrite Ho. symmetry. apply seqZ_nil. lia.
  - assert (Hsat : i32_saturating_add (start q r (Z.of_nat j)) (len q r (Z.of_nat j))
                   = start q r (Z.of_nat j) + len q r (Z.of_nat j)).
    { unfold i32_saturating_add. apply clamp_small. unfold I32_MIN. lia. }
    rewrite Hsat. cbn [fst snd]. split; [lia|]. intros m t.
    rewrite Z.add_simpl_l, decide_False.
    + rewrite parts_give. destruct (decide (m = member_id a /\ t = topic)) as [[-> ->]|Hd].
      * by rewrite decide_True.
      * by rewrite decide_False by naive_solver.
    + rewrite seqZ_cons by lia. done.
Qed.

Lemma range_fold topic q r l : forall j out,
  0 <= q -> 0 <= r -> NoDup (map member_id l) ->
  Z.of_nat j + Z.of_nat (length l) <= I32_MAX ->
  start q r (Z.of_nat j + Z.of_nat (length l)) <= I32_MAX ->
  (forall m, m ∈ map member_id l -> parts out m topic = []) ->
  let out' := (foldl (range_member topic q r) (start q r (Z.of_nat j), out) (from j l)).2 in
  (forall i a, l !! i = Some a ->
     parts out' (member_id a) topic
     = seqZ (start q r (Z.of_nat j + Z.of_nat i)) (len q r (Z.of_nat j + Z.of_nat i)))
  /\ (forall m t, (m ∉ map member_id l) \/ t <> topic -> parts out' m t = parts out m t).
Proof.
  induction l as [|a l IH]; intros j out Hq Hr Hnd Hlen Hs Ho; [by split|].
  apply NoDup_cons in Hnd as [Hna Hnd]. rewrite from_cons. cbn [foldl length] in *.
  destruct (range_member_step topic q r j a out) as [H1 H2]; try done; [lia| | |].
  { etransitivity; [|exact Hs]. unfold start. nia. }
  { apply Ho, list_elem_of_here. }
  destruct (range_member topic q r (start q r (Z.of_nat j), out) (j, a)) as [next out1].
  cbn [fst snd] in H1, H2. subst next.
  destruct (IH (S j) out1) as [H3 H4]; try done; [lia| | |].
  { etransitivity; [|exact Hs]. unfold start. nia. }
  { intros m Hm. rewrite H2, decide_False by (intros [-> _]; done).
    by apply Ho, list_elem_of_further. }
  split.
  - intros [|i] b Hb; cbn in Hb.
    + simplify_eq. rewrite H4, H2, Z.add_0_r by (by left). by apply decide_True.
    + rewrite (H3 i b Hb). f_equal; f_equal; lia.
  - intros m t Hmt. rewrite H4, H2.
    + apply decide_False. intros [-> ->]. destruct Hmt as [Hm|]; [|done].
      apply Hm, list_elem_of_here.
    + destruct Hmt as [Hm|]; [left|by right]. intros Hin. by apply Hm, list_elem_of_further.
Qed.

(** The subscribers of a topic, by id. *)
Definition subscribers (members : list MemberSubscription) (t : string) : list MemberSubscription :=
  sort_members (filter (fun m => t ∈ topics m) members).

Lemma subscribers_elem members t a : a ∈ subscribers members t <-> a ∈ members /\ t ∈ topics a.
Proof. unfold subscribers. rewrite sort_members_Permutation, list_elem_of_filter. tauto. Qed.

Lemma subscribers_NoDup members t :
  NoDup (map member_id members) -> NoDup (map member_id (subscribers members t)).
Proof.
  intros Hnd. unfold subscribers. rewrite sort_members_Permutation.
  eapply (sublist_NoDup _ (map member_id members)); [done|].
  apply fmap_sublist, sublist_filter.
Qed.

Lemma subscribers_length members t : (length (subscribers members t) <= length members)%nat.
Proof. unfold subscribers. rewrite sort_members_Permutation. apply length_filter. Qed.

(** The share of the [i]th of [n] subscribers of a topic of [count] partitions. *)
Definition range_share (count n i : Z) : list Z :=
  seqZ (start (count / n) (count mod n) i) (len (count / n) (count mod n) i).

Lemma start_last count n : 0 < n -> start (count / n) (count mod n) n = count.
Proof.
  intros Hn. unfold start. pose proof (Z.mod_pos_bound count n Hn).
  rewrite Z.min_r by lia. rewrite (Z.mul_comm (count / n)). symmetry. apply Z.div_mod. lia.
Qed.

Lemma range_topic_parts members out t count :
  NoDup (map member_id members) -> Z.of_nat (length members) <= I32_MAX ->
  0 <= count <= I32_MAX -> (forall m, parts out m t = []) ->
  let out' := range_topic members out (t, count) in
  (forall i a, subscribers members t !! i = Some a ->
     parts out' (member_id a) t
     = range_share count (Z.of_nat (length (subscribers members t))) (Z.of_nat i))
  /\ (forall m t', (m ∉ map member_id (subscribers members t)) \/ t' <> t ->
        parts out' m t' = parts out m t').
Proof.
  intros Hnd Hlen Hc Ho. unfold range_topic. fold (subscribers members t).
  pose proof (subscribers_length members t) as Hl.
  pose proof (subscribers_NoDup members t Hnd) as Hn.
  destruct (subscribers members t) as [|s0 sub] eqn:Es; [by split|].
  set (n := Z.of_nat (length (s0 :: sub))) in *. assert (Hn0 : 0 < n) by (unfold n; cbn; lia).
  replace (try_from_or I32_MAX 1 n) with n
    by (unfold try_from_or; rewrite (proj2 (Z.leb_le _ _)) by lia; done).
  rewrite Z.quot_div_nonneg, Z.rem_mod_nonneg by lia.
  change (enumerate (s0 :: sub)) with (from 0 (s0 :: sub)).
  pose proof (Z.mod_pos_bound count n Hn0) as Hr.
  destruct (range_fold t (count / n) (count mod n) (s0 :: sub) 0 out) as [H1 H2]; try done.
  - by apply Z.div_pos; lia.
  - lia.
  - lia.
  - change (Z.of_nat 0) with 0. rewrite Z.add_0_l. fold n. rewrite start_last by done. lia.
  - assert (E0 : start (count / n) (count mod n) (Z.of_nat 0) = 0) by (unfold start; lia).
    rewrite E0 in H1, H2. split; [|done]. intros i a Hi. rewrite (H1 i a Hi).
    by rewrite !Z.add_0_l.
Qed.

Lemma range_topics members l : forall out,
  NoDup (map member_id members) -> Z.of_nat (length members) <= I32_MAX ->
  NoDup (map fst l) -> (forall t c, (t, c) ∈ l -> 0 <= c <= I32_MAX) ->
  (forall m t c, (t, c) ∈ l -> parts out m t = []) ->
  let out' := foldl (range_topic members) out l in
  (forall t count i a, (t, count) ∈ l -> subscribers members t !! i = Some a ->
     parts out' (member_id a) t
     = range_share count (Z.of_nat (length (subscribers members t))) (Z.of_nat i))
  /\ (forall m t, (m ∉ map member_id (subscribers members t)) \/ t ∉ map fst l ->
        parts out' m t = parts out m t).
Proof.
  induction l as [|[t0 c0] l IH]; intros out Hnd Hlen Hl Hc Ho.
  { split; [|done]. intros t count i a Hin. by apply elem_of_nil in Hin. }
  cbn [map fst] in Hl. apply NoDup_cons in Hl as [Ht0 Hl]. cbn [foldl].
  destruct (range_topic_parts members out t0 c0) as [H1 H2]; try done.
  { eapply Hc, list_elem_of_here. }
  { intros m. eapply Ho, list_elem_of_here. }
  set (out1 := range_topic members out (t0, c0)) in *.
  assert (Hne : forall t c, (t, c) ∈ l -> t <> t0).
  { intros t c Hin ->. apply Ht0. by apply (list_elem_of_fmap_2 fst) in Hin. }
  destruct (IH out1) as [H3 H4]; try done.
  { intros t c Hin. by eapply Hc, list_elem_of_further. }
  { intros m t c Hin. rewrite H2 by (right; by eapply Hne).
    by eapply Ho, list_elem_of_further. }
  split.
  - intros t count i a Hin Hi. apply elem_of_cons in Hin as [[= -> ->]|Hin]; [|by eapply H3].
    rewrite H4 by (by right). by eapply H1.
  - intros m t Hmt. cbn [map fst] in Hmt. rewrite not_elem_of_cons in Hmt.
    destruct (decide (t = t0)) as [->|Hd].
    + rewrite H4 by (by right). apply H2. destruct Hmt as [Hm|[? _]]; [by left|done].
    + rewrite H4 by (destruct Hmt as [?|[_ ?]]; [by left|by right]). apply H2. by right.
Qed.

(** What the limits of the wire allow. *)
Record sized (members : list MemberSubscription) (ppt : gmap string Z) : Prop := {
  sized_ids : NoDup (map member_id members);
  sized_members : Z.of_nat (length members) <= I32_MAX;
  sized_counts : forall t c, ppt !! t = Some c -> 0 <= c <= I32_MAX;
}.

Lemma range_parts members ppt t count i a :
  sized members ppt -> ppt !! t = Some count -> subscribers members t !! i = Some a ->
  parts (assign_range members ppt) (member_id a) t
  = range_share count (Z.of_nat (length (subscribers members t))) (Z.of_nat i).
Proof.
  intros [Hnd Hm Hc] Ht Hi. unfold assign_range.
  destruct (range_topics members (entries ppt) (empty_assignment members)) as [H1 _]; try done.
  - apply entries_NoDup.
  - intros t' c Hin%entries_elem. by eapply Hc.
  - intros. apply parts_empty.
  - eapply H1; [|done]. by apply entries_elem.
Qed.

Lemma range_parts_other members ppt m t :
  sized members ppt -> (m ∉ map member_id (subscribers members t)) \/ ppt !! t = None ->
  parts (assign_range members ppt) m t = [].
Proof.
  intros [Hnd Hm Hc] Hmt. unfold assign_range.
  destruct (range_topics members (entries ppt) (empty_assignment members)) as [_ H2]; try done.
  - apply entries_NoDup.
  - intros t' c Hin%entries_elem. by eapply Hc.
  - intros. apply parts_empty.
  - rewrite H2; [apply parts_empty|]. destruct Hmt as [?|E]; [by left|right].
    intros Hin. apply list_elem_of_fmap in Hin as ([t' c] & -> & Hin).
    apply entries_elem in Hin. cbn in E. congruence.
Qed.

(** ** What every assignor promises

    Only subscribers are given partitions, only ones the topic has, each once and to
    one member, and every partition somebody wants is given. *)
Record shares (members : list MemberSubscription) (ppt : gmap string Z) (out : Assignment) : Prop := {
  shares_wanted : forall m t p, p ∈ parts out m t ->
    (exists c, ppt !! t = Some c /\ 0 <= p < c)
    /\ exists a, a ∈ members /\ t ∈ topics a /\ member_id a = m;
  shares_once : forall m t, NoDup (parts out m t);
  shares_one : forall m m' t p, p ∈ parts out m t -> p ∈ parts out m' t -> m = m';
  shares_all : forall t c p a, ppt !! t = Some c -> 0 <= p < c -> a ∈ members -> t ∈ topics a ->
    exists m, p ∈ parts out m t;
}.

Lemma start_mono q r i j : 0 <= q -> 0 <= r -> 0 <= i <= j -> start q r i <= start q r j.
Proof. unfold start. intros. assert (q * i <= q * j) by nia. lia. Qed.

Lemma range_share_elem count n i p :
  p ∈ range_share count n i
  <-> start (count / n) (count mod n) i <= p < start (count / n) (count mod n) (i + 1).
Proof. unfold range_share. rewrite elem_of_seqZ, start_next. lia. Qed.

(** Steps from zero to a bound: one step holds any value below it. *)
Lemma step_find (f : Z -> Z) p (k : nat) :
  f 0 <= p < f (Z.of_nat k) ->
  exists i : nat, (i < k)%nat /\ f (Z.of_nat i) <= p < f (Z.of_nat i + 1).
Proof.
  induction k as [|k IH]; intros H; [change (Z.of_nat 0) with 0 in H; lia|].
  rewrite Nat2Z.inj_succ, <- Z.add_1_r in H.
  destruct (Z.lt_ge_cases p (f (Z.of_nat k))) as [Hp|Hp].
  - destruct IH as (i & Hi & Hf); [lia|]. exists i. split; [lia|done].
  - exists k. split; lia.
Qed.

Section RangeShares.
Context (members : list MemberSubscription) (ppt : gmap string Z) (Hs : sized members ppt).

Lemma range_parts_elem m t p :
  p ∈ parts (assign_range members ppt) m t <->
  exists count i a, ppt !! t = Some count /\ subscribers members t !! i = Some a
    /\ member_id a = m
    /\ p ∈ range_share count (Z.of_nat (length (subscribers members t))) (Z.of_nat i).
Proof.
  split.
  - intros Hp. destruct (ppt !! t) as [count|] eqn:Et.
    2: { rewrite range_parts_other in Hp by auto. by apply elem_of_nil in Hp. }
    destruct (decide (m ∈ map member_id (subscribers members t))) as [Hin|Hn].
    2: { rewrite range_parts_other in Hp by auto. by apply elem_of_nil in Hp. }
    apply list_elem_of_fmap in Hin as (a & -> & Ha).
    apply list_elem_of_lookup in Ha as (i & Hi).
    rewrite (range_parts members ppt t count i a) in Hp by done. by exists count, i, a.
  - intros (count & i & a & Et & Hi & <- & Hp). by rewrite (range_parts members ppt t count i a).
Qed.

Lemma range_bounds t count : ppt !! t = Some count -> subscribers members t <> [] ->
  0 <= count / Z.of_nat (length (subscribers members t))
  /\ 0 <= count mod Z.of_nat (length (subscribers members t))
  /\ start (count / Z.of_nat (length (subscribers members t)))
       (count mod Z.of_nat (length (subscribers members t)))
       (Z.of_nat (length (subscribers members t))) = count.
Proof.
  intros Et Hne. pose proof (sized_counts _ _ Hs t count Et).
  assert (0 < Z.of_nat (length (subscribers members t)))
    by (destruct (subscribers members t); [done|cbn; lia]).
  split; [by apply Z.div_pos; lia|]. split; [by apply Z.mod_pos_bound|by apply start_last].
Qed.

Lemma range_shares : shares members ppt (assign_range members ppt).
Proof.
  split.
  - intros m t p (count & i & a & Et & Hi & <- & Hp)%range_parts_elem.
    pose proof (lookup_lt_Some _ _ _ Hi). pose proof (list_elem_of_lookup_2 _ _ _ Hi) as Ha.
    destruct (range_bounds t count Et) as (Hq & Hr & Hl); [by intros E; rewrite E in Ha; apply elem_of_nil in Ha|].
    apply range_share_elem in Hp. apply subscribers_elem in Ha as [? ?].
    split; [exists count; split; [done|]|by exists a]. split.
    + etransitivity; [|apply Hp]. unfold start. nia.
    + eapply Z.lt_le_trans; [apply Hp|]. rewrite <- Hl at 3. apply start_mono; lia.
  - intros m t. destruct (parts (assign_range members ppt) m t) as [|p l] eqn:E; [constructor|].
    assert (Hp : p ∈ parts (assign_range members ppt) m t) by (rewrite E; apply list_elem_of_here).
    rewrite <- E. apply range_parts_elem in Hp as (count & i & a & Et & Hi & <- & _).
    rewrite (range_parts members ppt t count i a) by done. apply NoDup_seqZ.
  - intros m m' t p (c & i & a & Et & Hi & <- & Hp)%range_parts_elem
      (c' & i' & a' & Et' & Hi' & <- & Hp')%range_parts_elem. simplify_eq.
    assert (Hne : subscribers members t <> []) by (intros E; by rewrite E in Hi).
    destruct (range_bounds t c Et Hne) as (Hq & Hr & _).
    rewrite range_share_elem in Hp, Hp'.
    assert (Hii : (i < i' \/ i = i' \/ i' < i)%nat) by lia.
    destruct Hii as [Hlt|[<-|Hlt]]; [|by simplify_eq|].
    + pose proof (start_mono _ _ (Z.of_nat i + 1) (Z.of_nat i') Hq Hr ltac:(lia)). lia.
    + pose proof (start_mono _ _ (Z.of_nat i' + 1) (Z.of_nat i) Hq Hr ltac:(lia)). lia.
  - intros t c p a Et Hp Ha Ht. set (f := start (c / Z.of_nat (length (subscribers members t)))
       (c mod Z.of_nat (length (subscribers members t)))).
    assert (Hin : a ∈ subscribers members t) by by apply subscribers_elem.
    destruct (range_bounds t c Et) as (Hq & Hr & Hl); [by intros E; rewrite E in Hin; apply elem_of_nil in Hin|].
    destruct (step_find f p (length (subscribers members t))) as (i & Hi & Hf).
    { unfold f. rewrite Hl. unfold start. lia. }
    destruct (lookup_lt_is_Some_2 _ _ Hi) as [b Hb]. exists (member_id b).
    apply range_parts_elem. exists c, i, b. by rewrite range_share_elem.
Qed.

End RangeShares.

(** ** Every partition, in order *)

Lemma flat_map_elem {A B} (f : A -> list B) l y : y ∈ flat_map f l <-> exists x, x ∈ l /\ y ∈ f x.
Proof.
  rewrite list_elem_of_In, in_flat_map.
  split; intros (x & H1 & H2); exists x; revert H1 H2; rewrite !list_elem_of_In; done.
Qed.

Lemma all_partitions_elem ppt t p :
  (t, p) ∈ all_partitions ppt <-> exists c, ppt !! t = Some c /\ 0 <= p < c.
Proof.
  unfold all_partitions. rewrite flat_map_elem. split.
  - intros ([t' c] & Hin & Hp). apply list_elem_of_fmap in Hp as (p' & [= -> ->] & Hp).
    apply elem_of_seqZ in Hp. exists c. split; [by apply entries_elem|lia].
  - intros (c & Ht & Hp). exists (t, c). split; [by apply entries_elem|].
    apply list_elem_of_fmap. exists p. split; [done|]. apply elem_of_seqZ. lia.
Qed.

Lemma all_partitions_NoDup ppt : NoDup (all_partitions ppt).
Proof.
  unfold all_partitions. pose proof (entries_NoDup ppt) as Hn. revert Hn.
  induction (entries ppt) as [|[t c] l IH]; intros Hn; [constructor|].
  cbn [map fst] in Hn. apply NoDup_cons in Hn as [Ht Hn]. cbn [flat_map].
  apply NoDup_app. split; [|split; [|by apply IH]].
  - apply (NoDup_fmap_2 (pair t)), NoDup_seqZ.
  - intros [t' p] Hp Hin. apply list_elem_of_fmap in Hp as (? & [= -> ->] & _).
    apply flat_map_elem in Hin as ([t' c'] & Hin & Hp).
    apply list_elem_of_fmap in Hp as (? & [= <- _] & _).
    apply Ht. by apply (list_elem_of_fmap_2 fst) in Hin.
Qed.

(** ** Round robin *)

Lemma rr_find_spec sorted t looks : forall cursor,
  sorted <> [] -> 0 <= cursor -> cursor + Z.of_nat looks < 2 ^ 64 ->
  let r := rr_find sorted t looks cursor in
  cursor <= r.1 <= cursor + Z.of_nat looks
  /\ match r.2 with
     | Some a => a ∈ sorted /\ t ∈ topics a
     | None => forall j a, 0 <= j < Z.of_nat looks ->
         sorted !! Z.to_nat ((cursor + j) mod Z.of_nat (length sorted)) = Some a ->
         t ∉ topics a
     end.
Proof.
  induction looks as [|looks IH]; intros cursor Hne Hc Hw; cbn [rr_find].
  { split; [cbn; lia|]. intros j a Hj. lia. }
  assert (Hl : 0 < Z.of_nat (length sorted)) by (destruct sorted; [done|cbn; lia]).
  pose proof (Z.mod_pos_bound cursor _ Hl) as Hm.
  destruct (lookup_lt_is_Some_2 sorted (Z.to_nat (cursor mod Z.of_nat (length sorted)))) as [a Ea];
    [lia|]. rewrite Ea.
  rewrite (Z.mod_small (cursor + 1)) by lia.
  case_bool_decide as Ht.
  { cbn. split; [lia|]. split; [by eapply list_elem_of_lookup_2|done]. }
  specialize (IH (cursor + 1) Hne ltac:(lia) ltac:(lia)). cbv zeta in IH |- *.
  destruct (rr_find sorted t looks (cursor + 1)) as [c' [b|]]; cbn [fst snd] in *.
  { split; [lia|apply IH]. }
  destruct IH as [H1 H2]. split; [lia|]. intros j b Hj Hb.
  destruct (Z.eq_dec j 0) as [->|Hj0].
  - rewrite Z.add_0_r, Ea in Hb. by injection Hb as <-.
  - apply (H2 (j - 1) b); [lia|]. by replace (cursor + 1 + (j - 1)) with (cursor + j) by lia.
Qed.

Lemma rr_find_all sorted t cursor c' :
  sorted <> [] -> 0 <= cursor -> cursor + Z.of_nat (length sorted) < 2 ^ 64 ->
  rr_find sorted t (length sorted) cursor = (c', None) -> forall a, a ∈ sorted -> t ∉ topics a.
Proof.
  intros Hne Hc Hw E a Ha. destruct (rr_find_spec sorted t (length sorted) cursor) as [_ H]; [done..|].
  rewrite E in H. cbn in H. apply list_elem_of_lookup in Ha as [i Hi].
  pose proof (lookup_lt_Some _ _ _ Hi) as Hl.
  apply (H ((Z.of_nat i - cursor) mod Z.of_nat (length sorted)) a).
  - apply Z.mod_pos_bound. lia.
  - rewrite Zplus_mod_idemp_r. replace (cursor + (Z.of_nat i - cursor)) with (Z.of_nat i) by lia.
    by rewrite Z.mod_small, Nat2Z.id by lia.
Qed.

(** What the partitions handed out so far are. *)
Record dealt (sorted : list MemberSubscription) (ks : list Key) (out : Assignment) : Prop := {
  dealt_wanted : forall m t p, p ∈ parts out m t ->
    (t, p) ∈ ks /\ exists a, a ∈ sorted /\ t ∈ topics a /\ member_id a = m;
  dealt_once : forall m t, NoDup (parts out m t);
  dealt_one : forall m m' t p, p ∈ parts out m t -> p ∈ parts out m' t -> m = m';
  dealt_all : forall t p a, (t, p) ∈ ks -> a ∈ sorted -> t ∈ topics a -> exists m, p ∈ parts out m t;
}.

Lemma dealt_push sorted ks out t p a :
  dealt sorted ks out -> (t, p) ∉ ks -> a ∈ sorted -> t ∈ topics a ->
  dealt sorted (ks ++ [(t, p)]) (push out (member_id a) t p).
Proof.
  intros [Hw Ho H1 Ha] Hk Hin Ht.
  assert (He : forall m t' p', p' ∈ parts (push out (member_id a) t p) m t'
    <-> p' ∈ parts out m t' \/ (m = member_id a /\ t' = t /\ p' = p)).
  { intros. rewrite parts_push. case_decide as Hd.
    - destruct Hd as [<- <-]. rewrite elem_of_app, list_elem_of_singleton. naive_solver.
    - naive_solver. }
  assert (Hf : forall m, p ∉ parts out m t) by (intros m Hp; by apply Hw in Hp as [? _]).
  split.
  - intros m t' p' [Hp|(-> & -> & ->)]%He.
    + destruct (Hw _ _ _ Hp) as [? ?]. split; [|done]. apply elem_of_app. by left.
    + split; [apply elem_of_app; right; apply list_elem_of_here|by exists a].
  - intros m t'. rewrite parts_push. case_decide as Hd; [|done]. destruct Hd as [<- <-].
    apply NoDup_app. split; [done|]. split; [|apply NoDup_singleton].
    intros x Hx ->%list_elem_of_singleton. by apply (Hf (member_id a)).
  - intros m m' t' p' [Hp|(-> & -> & ->)]%He [Hp'|(-> & E & E')]%He; subst; try done.
    + by eapply H1.
    + by apply Hf in Hp.
    + by apply Hf in Hp'.
  - intros t' p' b Hp Hb Htb. apply elem_of_app in Hp as [Hp|[= -> ->]%list_elem_of_singleton].
    + destruct (Ha _ _ _ Hp Hb Htb) as [m Hm]. exists m. apply He. by left.
    + exists (member_id a). apply He. by right.
Qed.

Lemma dealt_skip sorted ks out t p :
  dealt sorted ks out -> (forall a, a ∈ sorted -> t ∉ topics a) ->
  dealt sorted (ks ++ [(t, p)]) out.
Proof.
  intros [Hw Ho H1 Ha] Hn. split; [|done|done|].
  - intros m t' p' Hp. destruct (Hw _ _ _ Hp) as [? ?]. split; [|done]. apply elem_of_app. by left.
  - intros t' p' b Hp Hb Htb. apply elem_of_app in Hp as [Hp|[= -> ->]%list_elem_of_singleton].
    + by eapply Ha.
    + by destruct (Hn b).
Qed.

Lemma rr_fold sorted ks : forall done_ks cursor out,
  sorted <> [] -> 0 <= cursor ->
  cursor + Z.of_nat (length ks * length sorted) < 2 ^ 64 ->
  NoDup (done_ks ++ ks) -> dealt sorted done_ks out ->
  dealt sorted (done_ks ++ ks) (foldl (rr_step sorted) (cursor, out) ks).2.
Proof.
  induction ks as [|[t p] ks IH]; intros dks cursor out Hne Hc Hw Hnd Hd.
  { by rewrite app_nil_r. }
  cbn [foldl length] in *. unfold rr_step at 2. cbn [fst snd].
  pose proof (rr_find_spec sorted t (length sorted) cursor Hne Hc ltac:(lia)) as Hs.
  destruct (rr_find sorted t (length sorted) cursor) as [c' found] eqn:E. cbn [fst snd] in Hs.
  destruct Hs as [Hc' Hf]. rewrite cons_middle, app_assoc in Hnd |- *.
  apply IH; [done|lia|lia|done|].
  assert (Hk : (t, p) ∉ dks).
  { apply NoDup_app in Hnd as [Hnd _]. apply NoDup_app in Hnd as (_ & Hx & _).
    intros Hin. apply (Hx _ Hin), list_elem_of_here. }
  destruct found as [a|].
  - destruct Hf. by apply dealt_push.
  - apply dealt_skip; [done|]. eapply rr_find_all; [..|exact E]; [done|done|lia].
Qed.

Lemma round_robin_shares members ppt :
  NoDup (map member_id members) ->
  Z.of_nat (length (all_partitions ppt) * length members) < 2 ^ 64 ->
  shares members ppt (assign_round_robin members ppt).
Proof.
  intros Hnd Hw. unfold assign_round_robin. pose proof (sort_members_Permutation members) as Hp.
  destruct (sort_members members) as [|a l] eqn:E.
  - apply Permutation_nil_l in Hp. subst members. split.
    + intros m t p H. rewrite parts_empty in H. by apply elem_of_nil in H.
    + intros. rewrite parts_empty. constructor.
    + intros m m' t p H. rewrite parts_empty in H. by apply elem_of_nil in H.
    + intros t c p b _ _ Hb. by apply elem_of_nil in Hb.
  - destruct (rr_fold (a :: l) (all_partitions ppt) [] 0 (empty_assignment members)) as [Hdw Hdo Hd1 Hda];
      [done|done|by rewrite Hp|apply all_partitions_NoDup| |].
    { split.
      - intros m t p H. rewrite parts_empty in H. by apply elem_of_nil in H.
      - intros. rewrite parts_empty. constructor.
      - intros m m' t p H. rewrite parts_empty in H. by apply elem_of_nil in H.
      - intros t p b H. by apply elem_of_nil in H. }
    rewrite app_nil_l in *. split; [|done|done|].
    + intros m t p Hin. destruct (Hdw _ _ _ Hin) as [Hk (b & Hb & ?)].
      apply all_partitions_elem in Hk. split; [done|]. exists b. by rewrite <- Hp.
    + intros t c p b Ht Hpc Hb Htb. apply (Hda t p b); [|by rewrite Hp|done].
      apply all_partitions_elem. by exists c.
Qed.

(** ** Cooperative sticky: who owns what *)

(** A member's claim that counts: a wanted partition of a topic it subscribes to. *)
Definition claims (all : gset Key) (a : MemberSubscription) (k : Key) : Prop :=
  k ∈ owned a /\ k ∈ all /\ k.1 ∈ topics a.

(** The owner of a partition is a claimant of the newest generation of those in [done]. *)
Definition owned_by (all : gset Key) (P : MemberSubscription -> Key -> Prop)
    (owner : gmap Key (string * Z)) : Prop :=
  forall k, match owner !! k with
            | Some (m, g) => exists a, P a k /\ claims all a k /\ member_id a = m /\ generation a = g
                /\ forall b, P b k -> claims all b k -> generation b <= g
            | None => forall b, P b k -> ~ claims all b k
            end.

Lemma owned_by_proper all (P Q : MemberSubscription -> Key -> Prop) owner :
  (forall a k, k ∈ owned a -> P a k <-> Q a k) -> owned_by all P owner -> owned_by all Q owner.
Proof.
  intros HPQ H k. specialize (H k). destruct (owner !! k) as [[m g]|].
  - destruct H as (a & HP & Hc & Hm & Hg & Hmax). exists a.
    split; [apply HPQ; [apply Hc|done]|]. split; [done|]. split; [done|]. split; [done|].
    intros b HQ Hb. apply Hmax; [|done]. apply HPQ; [apply Hb|done].
  - intros b HQ Hb. apply (H b); [|done]. apply HPQ; [apply Hb|done].
Qed.

Lemma claim_owned_by all (P : MemberSubscription -> Key -> Prop) owner a key :
  key ∈ owned a -> owned_by all P owner ->
  owned_by all (fun b k => P b k \/ (b = a /\ k = key)) (claim all a owner key).
Proof.
  intros Hown H. unfold claim, subscribes_to.
  destruct (negb (bool_decide (key ∈ all)) || negb (bool_decide (key.1 ∈ topics a))) eqn:Ec.
  { assert (Hn : ~ claims all a key).
    { intros (_ & H1 & H2). rewrite !bool_decide_true in Ec by done. done. }
    intros k. specialize (H k). destruct (owner !! k) as [[m g]|].
    - destruct H as (b & HP & Hb & Hm & Hg & Hmax). exists b. split; [by left|].
      split; [done|]. split; [done|]. split; [done|].
      intros b' [Hb'|[-> ->]] Hc; [by eapply Hmax|done].
    - intros b [Hb|[-> ->]] Hc; [by eapply H|done]. }
  apply orb_false_iff in Ec as [E1 E2].
  apply negb_false_iff, bool_decide_eq_true_1 in E1. apply negb_false_iff, bool_decide_eq_true_1 in E2.
  assert (Hc : claims all a key) by done.
  assert (Hother : forall k, k <> key ->
    match owner !! k with
    | Some (m, g) => exists b, (P b k \/ (b = a /\ k = key)) /\ claims all b k /\ member_id b = m
        /\ generation b = g /\ forall b', (P b' k \/ (b' = a /\ k = key)) -> claims all b' k -> generation b' <= g
    | None => forall b, (P b k \/ (b = a /\ k = key)) -> ~ claims all b k
    end).
  { intros k Hk. specialize (H k). destruct (owner !! k) as [[m g]|].
    - destruct H as (b & HP & Hb & Hm & Hg & Hmax). exists b. split; [by left|].
      split; [done|]. split; [done|]. split; [done|].
      intros b' [Hb'|[_ ?]]; [by apply Hmax|done].
    - intros b [Hb|[_ ?]]; [by apply H|done]. }
  pose proof (H key) as Hk. destruct (owner !! key) as [[m g]|] eqn:Eo.
  - destruct Hk as (b & HP & Hb & Hm & Hg & Hmax). destruct (generation a <=? g) eqn:Eg.
    + intros k. destruct (decide (k = key)) as [->|Hne]; [|by apply Hother].
      rewrite Eo. exists b. split; [by left|]. split; [done|]. split; [done|]. split; [done|].
      intros b' [Hb'|[-> _]] Hc'; [by eapply Hmax|lia].
    + intros k. destruct (decide (k = key)) as [->|Hne].
      * rewrite lookup_insert_eq. exists a. split; [by right|]. split; [done|]. split; [done|].
        split; [done|]. intros b' [Hb'|[-> _]] Hc'; [|lia]. specialize (Hmax b' Hb' Hc'). lia.
      * rewrite lookup_insert_ne by done. by apply Hother.
  - intros k. destruct (decide (k = key)) as [->|Hne].
    + rewrite lookup_insert_eq. exists a. split; [by right|]. split; [done|]. split; [done|].
      split; [done|]. intros b' [Hb'|[-> _]] Hc'; [by destruct (Hk b')|lia].
    + rewrite lookup_insert_ne by done. by apply Hother.
Qed.

Lemma claims_owned_by all a l : forall (P : MemberSubscription -> Key -> Prop) owner,
  (forall k, k ∈ l -> k ∈ owned a) -> owned_by all P owner ->
  owned_by all (fun b k => P b k \/ (b = a /\ k ∈ l)) (foldl (claim all a) owner l).
Proof.
  induction l as [|k l IH]; intros P owner Hl H; cbn [foldl].
  { eapply owned_by_proper; [|exact H]. intros b k _. rewrite elem_of_nil. tauto. }
  eapply owned_by_proper; [|eapply IH; [|eapply claim_owned_by; [|exact H]]].
  - intros b k' _. cbn. rewrite elem_of_cons. tauto.
  - intros k' Hk'. apply Hl. by right.
  - apply Hl. by left.
Qed.

Lemma owners_spec all sorted : owned_by all (fun a _ => a ∈ sorted) (owners all sorted).
Proof.
  unfold owners.
  assert (G : forall l (P : MemberSubscription -> Key -> Prop) owner, owned_by all P owner ->
    owned_by all (fun a k => P a k \/ a ∈ l)
      (foldl (fun owner member => foldl (claim all member) owner (owned member)) owner l)).
  { induction l as [|a l IH]; intros P owner H; cbn [foldl].
    - eapply owned_by_proper; [|exact H]. intros b k _. rewrite elem_of_nil. tauto.
    - eapply owned_by_proper; [|eapply IH, (claims_owned_by all a (owned a)); [done|exact H]].
      intros b k Hk. cbn. rewrite elem_of_cons. split; [|naive_solver].
      intros [[?|[-> ?]]|?]; tauto. }
  eapply owned_by_proper; [|apply (G sorted (fun _ _ => False))].
  - intros a k _. cbn. tauto.
  - intros k. rewrite lookup_empty. tauto.
Qed.

(** ** Cooperative sticky: the target *)

Definition holds (held : Held) (m : string) : gset Key := default ∅ (held !! m).

Lemma holds_hold held m k m' :
  holds (hold held m k) m'
  = if decide (m' = m /\ is_Some (held !! m)) then {[k]} ∪ holds held m' else holds held m'.
Proof.
  unfold holds, hold. destruct (decide (m' = m)) as [->|Hne].
  - rewrite lookup_alter_eq. destruct (held !! m) as [s|]; cbn.
    + by rewrite decide_True by eauto.
    + rewrite decide_False; [done|]. by intros [_ [? ?]].
  - rewrite lookup_alter_ne by done. rewrite decide_False by tauto. done.
Qed.

Lemma holds_drop held m k m' :
  holds (drop_held held m k) m' = if decide (m' = m) then holds held m' ∖ {[k]} else holds held m'.
Proof.
  unfold holds, drop_held. destruct (decide (m' = m)) as [->|Hne].
  - rewrite lookup_alter_eq. destruct (held !! m) as [s|]; cbn; [done|]. set_solver.
  - by rewrite lookup_alter_ne.
Qed.

Lemma hold_dom held m k m' : is_Some (hold held m k !! m') <-> is_Some (held !! m').
Proof. unfold hold. by rewrite lookup_alter_is_Some. Qed.

Lemma drop_dom held m k m' : is_Some (drop_held held m k !! m') <-> is_Some (held !! m').
Proof. unfold drop_held. by rewrite lookup_alter_is_Some. Qed.

(** Only members hold anything, each partition wanted and subscribed, and one holder
    at most. *)
Record target (sorted : list MemberSubscription) (all : gset Key) (held : Held) : Prop := {
  target_dom : forall a, a ∈ sorted -> is_Some (held !! member_id a);
  target_wanted : forall m k, k ∈ holds held m ->
    k ∈ all /\ exists a, a ∈ sorted /\ member_id a = m /\ k.1 ∈ topics a;
  target_one : forall m m' k, k ∈ holds held m -> k ∈ holds held m' -> m = m';
}.

Lemma target_hold sorted all held a k :
  target sorted all held -> a ∈ sorted -> k ∈ all -> k.1 ∈ topics a ->
  (forall m, k ∉ holds held m) -> target sorted all (hold held (member_id a) k).
Proof.
  intros [Hd Hw H1] Ha Hk Ht Hf.
  assert (He : forall m k', k' ∈ holds (hold held (member_id a) k) m ->
    k' ∈ holds held m \/ (m = member_id a /\ k' = k)).
  { intros m k'. rewrite holds_hold. case_decide as Hc; [|tauto]. destruct Hc as [-> _].
    rewrite elem_of_union, elem_of_singleton. tauto. }
  split.
  - intros b Hb. by apply hold_dom, Hd.
  - intros m k' [Hk'|[-> ->]]%He; [by apply Hw|]. split; [done|]. by exists a.
  - intros m m' k' [H|[-> ->]]%He [H'|[-> E]]%He; subst; try done.
    + by eapply H1.
    + by apply Hf in H.
    + by apply Hf in H'.
Qed.

Lemma hold_holds held m k : is_Some (held !! m) -> k ∈ holds (hold held m k) m.
Proof. intros H. rewrite holds_hold, decide_True by done. set_solver. Qed.

Lemma hold_mono held m k m' k' : k' ∈ holds held m' -> k' ∈ holds (hold held m k) m'.
Proof. rewrite holds_hold. case_decide; set_solver. Qed.

Lemma imbalance_spec sorted held from to k :
  imbalance sorted held = Some (from, to, k) ->
  from <> to /\ k ∈ holds held from /\ exists a, a ∈ sorted /\ member_id a = to /\ k.1 ∈ topics a.
Proof.
  unfold imbalance. destruct (List.find _ (flat_map _ _)) as [[[f sz0] [e other]]|] eqn:Ef; [|done].
  intros H. apply bind_Some in H as (a & Ha & H). apply bind_Some in H as (s & Hs & H).
  apply bind_Some in H as (k' & Hk & H). injection H as <- <- <-.
  apply find_some in Ha as [Ha Hid]. apply bool_decide_eq_true_1 in Hid.
  apply find_some in Hk as [Hk Ht]. apply bool_decide_eq_true_1 in Ht.
  apply list_elem_of_In in Hk. apply key_list_elem in Hk. apply list_elem_of_In in Ha.
  apply find_some in Ef as [Hin Hgt]. apply list_elem_of_In, flat_map_elem in Hin as ([f' sz] & Hf & Hin).
  apply list_elem_of_fmap in Hin as ([e' o'] & [= <- <- <- <-] & He). rewrite elem_of_reverse in He.
  assert (Hsz : forall m n, (m, n) ∈ sizes held -> exists s, held !! m = Some s /\ n = Z.of_nat (size s)).
  { intros m n. unfold sizes. rewrite merge_sort_Permutation. intros Hm.
    apply list_elem_of_fmap in Hm as ([m' s'] & [= -> ->] & Hm). exists s'. split; [|done].
    by apply entries_elem. }
  split; [|split].
  - intros ->. destruct (Hsz _ _ Hf) as (s1 & Hs1 & E1). destruct (Hsz _ _ He) as (s2 & Hs2 & E2).
    simplify_eq. apply negb_true_iff, Z.leb_gt in Hgt. lia.
  - unfold holds. by rewrite Hs.
  - by exists a.
Qed.

Lemma target_move sorted all held from to k :
  target sorted all held -> imbalance sorted held = Some (from, to, k) ->
  target sorted all (hold (drop_held held from k) to k)
  /\ forall k', (exists m, k' ∈ holds held m) -> exists m, k' ∈ holds (hold (drop_held held from k) to k) m.
Proof.
  intros [Hd Hw H1] (Hne & Hk & a & Ha & Hid & Ht)%imbalance_spec. subst to.
  assert (Hdrop : forall m k', k' ∈ holds (drop_held held from k) m <-> k' ∈ holds held m /\ ~ (m = from /\ k' = k)).
  { intros m k'. rewrite holds_drop. case_decide; set_solver. }
  split.
  - apply target_hold; [|done|by apply (Hw from k)|done|].
    + split; [intros b Hb; by apply drop_dom, Hd|..].
      * intros m k' [Hk' _]%Hdrop. by apply Hw.
      * intros m m' k' [? _]%Hdrop [? _]%Hdrop. by eapply H1.
    + intros m [Hm Hn]%Hdrop. apply Hn. split; [|done]. by eapply H1.
  - intros k' [m Hm]. destruct (decide (k' = k)) as [->|Hkk].
    + exists (member_id a). apply hold_holds. by apply drop_dom, Hd.
    + exists m. apply hold_mono. apply Hdrop. split; [done|]. tauto.
Qed.

Lemma target_balance sorted all rounds : forall held,
  target sorted all held ->
  target sorted all (balance_loop rounds sorted held)
  /\ forall k, (exists m, k ∈ holds held m) -> exists m, k ∈ holds (balance_loop rounds sorted held) m.
Proof.
  induction rounds as [|rounds IH]; intros held H; cbn [balance_loop]; [by split|].
  destruct (imbalance sorted held) as [[[from to] k]|] eqn:E; [|by split].
  destruct (target_move sorted all held from to k H E) as [H' Hall].
  destruct (IH _ H') as [H2 Hall2]. split; [done|]. intros k' Hk'. by apply Hall2, Hall.
Qed.

Lemma start_held sorted m :
  let held := foldl (fun held a => <[member_id a := (∅ : gset Key)]> held) ∅ sorted in
  (is_Some (held !! m) <-> m ∈ map member_id sorted) /\ holds held m = ∅.
Proof.
  cbv zeta. assert (G : forall l (h : Held), (forall m, holds h m = ∅) ->
    (is_Some (foldl (fun held a => <[member_id a := (∅ : gset Key)]> held) h l !! m)
       <-> is_Some (h !! m) \/ m ∈ map member_id l)
    /\ holds (foldl (fun held a => <[member_id a := (∅ : gset Key)]> held) h l) m = ∅).
  { induction l as [|a l IH]; intros h Hh; cbn [foldl map].
    - split; [|done]. rewrite elem_of_nil. tauto.
    - destruct (IH (<[member_id a := ∅]> h)) as [I1 I2].
      + intros m'. unfold holds. destruct (decide (m' = member_id a)) as [->|Hne].
        * by rewrite lookup_insert_eq.
        * rewrite lookup_insert_ne by done. apply Hh.
      + split; [|done]. rewrite I1, elem_of_cons, lookup_insert_is_Some'.
        split; [intros [[<-|?]|?]|intros [?|[->|?]]]; auto. }
  destruct (G sorted ∅) as [G1 G2]; [by intros m'; unfold holds; rewrite lookup_empty|].
  split; [|done]. rewrite G1, lookup_empty. split; [intros [[? [=]]|?]; done|auto].
Qed.

Lemma held_by_owners_spec sorted all owner :
  (forall k m g, owner !! k = Some (m, g) ->
     k ∈ all /\ exists a, a ∈ sorted /\ member_id a = m /\ k.1 ∈ topics a) ->
  target sorted all (held_by_owners sorted owner)
  /\ (forall k m g, owner !! k = Some (m, g) -> k ∈ holds (held_by_owners sorted owner) m)
  /\ forall k m, owner !! k = None -> k ∉ holds (held_by_owners sorted owner) m.
Proof.
  intros Ho. unfold held_by_owners.
  assert (G : forall l held, target sorted all held ->
    (forall k m g, (k, (m, g)) ∈ l -> owner !! k = Some (m, g)) -> NoDup (map fst l) ->
    (forall k x, (k, x) ∈ l -> forall m, k ∉ holds held m) ->
    let held' := foldl (fun held '(key, (member, _)) => hold held member key) held l in
    target sorted all held'
    /\ (forall m k, k ∈ holds held m -> k ∈ holds held' m)
    /\ (forall k m g, (k, (m, g)) ∈ l -> k ∈ holds held' m)
    /\ forall k m, k ∈ holds held' m -> k ∈ holds held m \/ k ∈ map fst l).
  { induction l as [|[k [m g]] l IH]; intros held Ht Hl Hn Hf; cbn [foldl].
    { split; [done|]. split; [done|]. split; [|tauto]. intros k m g H. by apply elem_of_nil in H. }
    cbn [map fst] in Hn. apply NoDup_cons in Hn as [Hk Hn].
    destruct (Ho k m g) as (Hka & a & Ha & <- & Hta); [by apply Hl; left|].
    destruct (IH (hold held (member_id a) k)) as (I1 & I2 & I3 & I4).
    - apply target_hold; [done..|]. eapply Hf. by left.
    - intros k' m' g' Hin. apply Hl. by right.
    - done.
    - intros k' x Hin m'. rewrite holds_hold. assert (k' <> k).
      { intros ->. apply Hk. by apply (list_elem_of_fmap_2 fst) in Hin. }
      assert (k' ∉ holds held m') by (eapply Hf; by right). case_decide; set_solver.
    - split; [done|]. split; [intros m' k' Hin; by apply I2, hold_mono|].
      split.
      + intros k' m' g' Hin. apply elem_of_cons in Hin as [[= -> -> ->]|Hin]; [|by eapply I3].
        apply I2, hold_holds. by eapply target_dom.
      + intros k' m' [Hk'|?]%I4; [|right; by right]. revert Hk'. rewrite holds_hold.
        case_decide; [|by left]. intros [->%elem_of_singleton|?]%elem_of_union; [right|by left].
        apply list_elem_of_here. }
  destruct (G (map_to_list owner) (foldl (fun held m => <[member_id m := ∅]> held) ∅ sorted)) as (G1 & _ & G3 & G4).
  - split.
    + intros a Ha. apply start_held. by apply list_elem_of_fmap_2.
    + intros m k Hk. rewrite (proj2 (start_held sorted m)) in Hk. set_solver.
    + intros m m' k Hk. rewrite (proj2 (start_held sorted m)) in Hk. set_solver.
  - intros k m g. by rewrite elem_of_map_to_list.
  - apply NoDup_fst_map_to_list.
  - intros k x _ m. rewrite (proj2 (start_held sorted m)). set_solver.
  - split; [done|]. split; [intros k m g Hk; apply (G3 k m g); by apply elem_of_map_to_list|].
    intros k m Hk [Hin|Hin]%G4; [rewrite (proj2 (start_held sorted m)) in Hin; set_solver|].
    apply list_elem_of_fmap in Hin as ([k' x] & -> & Hin%elem_of_map_to_list). cbn in Hk. congruence.
Qed.

Lemma emptiest_spec members held t :
  match emptiest members held t with
  | Some m => exists a, a ∈ members /\ member_id a = m /\ t ∈ topics a
  | None => forall a, a ∈ members -> t ∉ topics a
  end.
Proof.
  unfold emptiest. set (l := filter (fun m => t ∈ topics m) members).
  assert (Hl : forall a, a ∈ l <-> a ∈ members /\ t ∈ topics a)
    by (intros a; unfold l; rewrite list_elem_of_filter; tauto).
  set (pick := fun best m => match best with
                       | None => Some m
                       | Some b => if fewer held b m then Some b else Some m
                       end).
  assert (G : forall l' best, match foldl pick best l' with
    | Some a => best = Some a \/ a ∈ l' | None => best = None /\ l' = [] end).
  { induction l' as [|b l' IH]; intros best; cbn [foldl].
    - destruct best; auto.
    - specialize (IH (pick best b)). destruct (foldl pick (pick best b) l') as [a|].
      + destruct IH as [IH|IH]; [|right; by right].
        unfold pick in IH. destruct best as [c|]; [destruct (fewer held c b)|]; simplify_eq;
          [by left|right; by left..].
      + destruct IH as [IH _]. unfold pick in IH. destruct best as [c|]; [|done].
        by destruct (fewer held c b). }
  specialize (G l None). destruct (foldl pick None l) as [a|]; cbn.
  - destruct G as [?|Ha]; [done|]. exists a. apply Hl in Ha as [? ?]. done.
  - destruct G as [_ G]. intros a Ha Ht. assert (H : a ∈ l) by by apply Hl.
    rewrite G in H. by apply elem_of_nil in H.
Qed.

Lemma fill_step sorted all owner held k :
  target sorted all held -> k ∈ all -> (owner !! k = None -> forall m, k ∉ holds held m) ->
  target sorted all (fill sorted owner held k)
  /\ (forall m k', k' ∈ holds held m -> k' ∈ holds (fill sorted owner held k) m)
  /\ (forall m k', k' ∈ holds (fill sorted owner held k) m -> k' ∈ holds held m \/ k' = k)
  /\ (owner !! k = None -> (exists a, a ∈ sorted /\ k.1 ∈ topics a) ->
      exists m, k ∈ holds (fill sorted owner held k) m).
Proof.
  intros Ht Hk Hf. unfold fill. destruct (owner !! k) as [o|].
  { split; [done|]. split; [done|]. split; [tauto|done]. }
  specialize (Hf eq_refl). pose proof (emptiest_spec sorted held k.1) as He.
  destruct (emptiest sorted held k.1) as [m|].
  - destruct He as (a & Ha & <- & Hta). split; [by apply target_hold|].
    split; [intros m k'; apply hold_mono|]. split.
    + intros m k'. rewrite holds_hold. case_decide; [|tauto].
      rewrite elem_of_union, elem_of_singleton. tauto.
    + intros _ _. exists (member_id a). apply hold_holds. by eapply target_dom.
  - split; [done|]. split; [done|]. split; [tauto|]. intros _ (a & Ha & Hta). by destruct (He a).
Qed.

Lemma fill_spec sorted all owner l : forall held,
  target sorted all held -> (forall k, k ∈ l -> k ∈ all) -> NoDup l ->
  (forall k, k ∈ l -> owner !! k = None -> forall m, k ∉ holds held m) ->
  let held' := foldl (fill sorted owner) held l in
  target sorted all held'
  /\ (forall m k, k ∈ holds held m -> k ∈ holds held' m)
  /\ forall k, k ∈ l -> owner !! k = None -> (exists a, a ∈ sorted /\ k.1 ∈ topics a) ->
       exists m, k ∈ holds held' m.
Proof.
  induction l as [|k l IH]; intros held Ht Hl Hn Hf; cbn [foldl].
  { split; [done|]. split; [done|]. intros k Hk. by apply elem_of_nil in Hk. }
  apply NoDup_cons in Hn as [Hk Hn].
  destruct (fill_step sorted all owner held k) as (F1 & F2 & F3 & F4);
    [done|apply Hl; by left|apply Hf; by left|].
  destruct (IH (fill sorted owner held k)) as (I1 & I2 & I3); [done|..|].
  - intros k' ?. apply Hl. by right.
  - done.
  - intros k' Hk' Ho m [Hm| ->]%F3; [|done]. revert Hm. apply Hf; [by right|done].
  - split; [done|]. split; [by intros; apply I2, F2|].
    intros k' Hk' Ho Hs. apply elem_of_cons in Hk' as [->|Hk']; [|by apply I3].
    destruct (F4 Ho Hs) as [m Hm]. exists m. by apply I2.
Qed.

Lemma wanted_elem sorted ppt t p :
  (t, p) ∈ wanted_partitions sorted ppt
  <-> (exists c, ppt !! t = Some c /\ 0 <= p < c) /\ exists a, a ∈ sorted /\ t ∈ topics a.
Proof.
  unfold wanted_partitions. rewrite elem_of_list_to_set, list_elem_of_filter, all_partitions_elem.
  rewrite existsb_exists. unfold subscribes_to. cbn [fst].
  split; intros [H1 H2]; split; try done.
  - destruct H1 as (a & Ha & Ht). exists a. rewrite bool_decide_eq_true in Ht.
    by rewrite list_elem_of_In.
  - destruct H2 as (a & Ha & Ht). exists a. by rewrite bool_decide_eq_true, <- list_elem_of_In.
Qed.

(** The target: held once, and nothing wanted left out. *)
Lemma sticky_target_spec sorted ppt :
  let all := wanted_partitions sorted ppt in
  let held := sticky_target sorted all (owners all sorted) in
  target sorted all held /\ forall k, k ∈ all -> exists m, k ∈ holds held m.
Proof.
  cbv zeta. set (all := wanted_partitions sorted ppt). set (owner := owners all sorted).
  assert (Ho : forall k m g, owner !! k = Some (m, g) ->
     k ∈ all /\ exists a, a ∈ sorted /\ member_id a = m /\ k.1 ∈ topics a).
  { intros k m g Hk. pose proof (owners_spec all sorted k) as Hs. fold owner in Hs.
    rewrite Hk in Hs. destruct Hs as (a & Ha & (_ & ? & ?) & ? & _). split; [done|]. by exists a. }
  destruct (held_by_owners_spec sorted all owner Ho) as (B1 & B2 & B3).
  destruct (fill_spec sorted all owner (key_list all) (held_by_owners sorted owner)) as (F1 & F2 & F3);
    [done|by intros k ?%key_list_elem|apply key_list_NoDup|by intros; apply B3|].
  unfold sticky_target, balance.
  destruct (target_balance sorted all
    (2 * held_total (foldl (fill sorted owner) (held_by_owners sorted owner) (key_list all)))
    _ F1) as [T1 T2].
  split; [done|]. intros k Hk. apply T2. destruct (owner !! k) as [[m g]|] eqn:Eo.
  - exists m. eapply F2, B2, Eo.
  - destruct k as [t p]. apply F3; [by apply key_list_elem|done|]. by apply wanted_elem in Hk as [_ ?].
Qed.

(** ** Cooperative sticky: what is handed over *)

Lemma holds_withhold owner held m k :
  k ∈ holds (withhold owner held) m
  <-> k ∈ holds held m /\ match owner !! k with Some (h, _) => h = m | None => True end.
Proof.
  unfold holds, withhold. rewrite map_lookup_imap. destruct (held !! m) as [s|]; cbn; [|set_solver].
  rewrite elem_of_filter. destruct (owner !! k) as [[h g]|].
  - rewrite bool_decide_eq_true. tauto.
  - tauto.
Qed.

Lemma by_topic_elem s t p :
  p ∈ default [] (by_topic s !! t) <-> (t, p) ∈ s.
Proof.
  rewrite <- key_list_elem. unfold by_topic.
  assert (G : forall l (m : gmap string (list Z)),
    p ∈ default [] (foldl (fun topics key => push_to topics key.1 key.2) m l !! t)
    <-> p ∈ default [] (m !! t) \/ (t, p) ∈ l).
  { induction l as [|[t' p'] l IH]; intros m; cbn [foldl].
    - rewrite elem_of_nil. tauto.
    - rewrite IH, elem_of_cons. cbn [fst snd]. unfold push_to.
      destruct (decide (t' = t)) as [->|Hne].
      + rewrite lookup_partial_alter_eq. cbn. rewrite elem_of_app, list_elem_of_singleton.
        split; [intros [[?| ->]|?]|intros [?|[[= ->]|?]]]; auto.
      + rewrite lookup_partial_alter_ne by done.
        split; [intros [?|?]|intros [?|[[= -> ->]|?]]]; auto; done. }
  rewrite G, lookup_empty. cbn. rewrite elem_of_nil. tauto.
Qed.

Lemma by_topic_NoDup s t : NoDup (default [] (by_topic s !! t)).
Proof.
  unfold by_topic.
  assert (G : forall l (m : gmap string (list Z)), NoDup l ->
    (forall t, NoDup (default [] (m !! t))) ->
    (forall t p, (t, p) ∈ l -> p ∉ default [] (m !! t)) ->
    forall t, NoDup (default [] (foldl (fun topics key => push_to topics key.1 key.2) m l !! t))).
  { induction l as [|[t0 p0] l IH]; intros m Hn Hm Hl; cbn [foldl]; [done|].
    apply NoDup_cons in Hn as [H0 Hn]. apply IH; [done|..].
    - intros t'. cbn [fst snd]. unfold push_to. destruct (decide (t0 = t')) as [->|Hne].
      + rewrite lookup_partial_alter_eq. cbn. apply NoDup_app. split; [apply Hm|].
        split; [|apply NoDup_singleton]. intros x Hx ->%list_elem_of_singleton.
        revert Hx. apply Hl. by left.
      + by rewrite lookup_partial_alter_ne.
    - intros t' p' Hp. cbn [fst snd]. unfold push_to.
      assert (p' ∉ default [] (m !! t')) by (apply Hl; by right).
      destruct (decide (t0 = t')) as [->|Hne].
      + rewrite lookup_partial_alter_eq. cbn. rewrite elem_of_app, list_elem_of_singleton.
        intros [?| ->]; done.
      + by rewrite lookup_partial_alter_ne. }
  apply G; [apply key_list_NoDup|..].
  - intros t'. rewrite lookup_empty. constructor.
  - intros t' p' _. rewrite lookup_empty. apply not_elem_of_nil.
Qed.

Section Cooperative.
Context (members : list MemberSubscription) (ppt : gmap string Z).

Let sorted := sort_members members.
Let all := wanted_partitions sorted ppt.

Lemma cooperative_elem m t p :
  members <> [] ->
  p ∈ parts (assign_cooperative_sticky members ppt) m t
  <-> (t, p) ∈ holds (sticky_target sorted all (owners all sorted)) m
      /\ match owners all sorted !! (t, p) with Some (h, _) => h = m | None => True end.
Proof.
  intros Hne. unfold assign_cooperative_sticky. subst all sorted.
  pose proof (sort_members_Permutation members) as Hp.
  destruct (sort_members members) as [|a l] eqn:E; [by apply Permutation_nil_l in Hp|].
  rewrite <- holds_withhold. unfold parts, holds. rewrite lookup_fmap.
  destruct (withhold _ _ !! m) as [s|]; cbn; [by rewrite by_topic_elem|].
  rewrite lookup_empty. cbn. rewrite elem_of_nil. set_solver.
Qed.

Lemma cooperative_NoDup m t : NoDup (parts (assign_cooperative_sticky members ppt) m t).
Proof.
  unfold assign_cooperative_sticky. destruct (sort_members members) as [|a l].
  { unfold parts. rewrite lookup_empty. cbn. rewrite lookup_empty. constructor. }
  unfold parts. rewrite lookup_fmap. destruct (withhold _ _ !! m) as [s|]; cbn.
  - apply by_topic_NoDup.
  - rewrite lookup_empty. constructor.
Qed.

Lemma sorted_elem a : a ∈ sorted <-> a ∈ members.
Proof. unfold sorted. by rewrite sort_members_Permutation. Qed.

Lemma all_elem t p :
  (t, p) ∈ all <-> (exists c, ppt !! t = Some c /\ 0 <= p < c) /\ exists a, a ∈ members /\ t ∈ topics a.
Proof. unfold all. rewrite wanted_elem. by setoid_rewrite sorted_elem. Qed.

(** Given: wanted, by its receiver, to it alone; and if anybody claims it, the
    receiver does, as one of the newest generation. *)
Lemma cooperative_given m t p :
  p ∈ parts (assign_cooperative_sticky members ppt) m t ->
  (t, p) ∈ all /\ (exists a, a ∈ members /\ member_id a = m /\ t ∈ topics a)
  /\ (forall m', p ∈ parts (assign_cooperative_sticky members ppt) m' t -> m' = m)
  /\ forall b, b ∈ members -> claims all b (t, p) ->
       exists a, a ∈ members /\ member_id a = m /\ claims all a (t, p) /\ generation b <= generation a.
Proof.
  intros Hp. assert (Hne : members <> []).
  { intros ->. unfold assign_cooperative_sticky, parts in Hp. cbn in Hp.
    rewrite lookup_empty in Hp. cbn in Hp. rewrite lookup_empty in Hp. by apply elem_of_nil in Hp. }
  pose proof Hp as Hp0. apply cooperative_elem in Hp as [Hh Ho]; [|done].
  destruct (sticky_target_spec sorted ppt) as [[_ Tw T1] _]. cbv zeta in Tw, T1. fold all in Tw, T1.
  destruct (Tw m _ Hh) as (Hall & a & Ha & Hm & Ht). split; [done|].
  split; [exists a; by rewrite <- sorted_elem|]. split.
  - intros m' Hp'. apply cooperative_elem in Hp' as [Hh' _]; [|done]. by eapply T1.
  - intros b Hb Hc. pose proof (owners_spec all sorted (t, p)) as Hs.
    destruct (owners all sorted !! (t, p)) as [[h g]|].
    + subst h. destruct Hs as (a' & Ha' & Hc' & Hm' & Hg & Hmax). exists a'.
      split; [by apply sorted_elem|]. split; [done|]. split; [done|]. subst g.
      apply Hmax; [by apply sorted_elem|done].
    + by destruct (Hs b (proj2 (sorted_elem b) Hb)).
Qed.

(** What nobody claims is given. *)
Lemma cooperative_unclaimed t p :
  (t, p) ∈ all -> (forall b, b ∈ members -> ~ claims all b (t, p)) ->
  exists m, p ∈ parts (assign_cooperative_sticky members ppt) m t.
Proof.
  intros Hall Hc. destruct (proj1 (all_elem t p) Hall) as (_ & a & Ha & _).
  assert (Hne : members <> []) by (intros ->; by apply elem_of_nil in Ha).
  destruct (sticky_target_spec sorted ppt) as [_ T]. cbv zeta in T. fold all in T.
  destruct (T _ Hall) as [m Hm]. exists m. apply cooperative_elem; [done|]. split; [done|].
  pose proof (owners_spec all sorted (t, p)) as Hs.
  destruct (owners all sorted !! (t, p)) as [[h g]|]; [|done].
  destruct Hs as (b & Hb & Hcb & _). destruct (Hc b (proj1 (sorted_elem b) Hb) Hcb).
Qed.

Lemma cooperative_shares :
  (forall a, a ∈ members -> owned a = []) -> shares members ppt (assign_cooperative_sticky members ppt).
Proof.
  intros Hown. split.
  - intros m t p Hp. destruct (cooperative_given m t p Hp) as (Hall & (a & Ha & Hm & Ht) & _).
    apply all_elem in Hall as [? _]. split; [done|]. by exists a.
  - apply cooperative_NoDup.
  - intros m m' t p Hp Hp'. destruct (cooperative_given m' t p Hp') as (_ & _ & H & _). by apply H.
  - intros t c p a Hc Hp Ha Ht. apply cooperative_unclaimed.
    + apply all_elem. split; [by exists c|by exists a].
    + intros b Hb [H _]. rewrite Hown in H by done. by apply elem_of_nil in H.
Qed.

End Cooperative.

(** A wanted partition that a cooperative round leaves with nobody: its owner, the
    claimant of the newest generation, is not who the target gives it to. *)
Definition withheld (protocol : string) (members : list MemberSubscription)
    (ppt : gmap string Z) (key : Key) : bool :=
  let sorted := sort_members members in
  let all := wanted_partitions sorted ppt in
  bool_decide (protocol = COOPERATIVE_STICKY)
  && match owners all sorted !! key with
     | Some (owner, _) =>
         negb (bool_decide (key ∈ holds (sticky_target sorted all (owners all sorted)) owner))
     | None => false
     end.

(** A cooperative round: what is withheld is claimed, and given to nobody; what is
    not is given. *)
Lemma cooperative_spread members ppt t p :
  (t, p) ∈ wanted_partitions (sort_members members) ppt ->
  if withheld COOPERATIVE_STICKY members ppt (t, p) then
    (exists b, b ∈ members /\ claims (wanted_partitions (sort_members members) ppt) b (t, p))
    /\ forall m, p ∉ parts (assign_cooperative_sticky members ppt) m t
  else exists m, p ∈ parts (assign_cooperative_sticky members ppt) m t.
Proof.
  set (sorted := sort_members members). set (all := wanted_partitions sorted ppt). intros Hall.
  assert (Hne : members <> []).
  { intros ->. apply all_elem in Hall as (_ & a & Ha & _). by apply elem_of_nil in Ha. }
  pose proof (cooperative_elem members ppt) as Helem. fold sorted all in Helem.
  destruct (sticky_target_spec sorted ppt) as [[_ _ T1] T]. cbv zeta in T1, T. fold all in T1, T.
  pose proof (owners_spec all sorted (t, p)) as Hs.
  unfold withheld. rewrite bool_decide_true by done. fold sorted all. cbn [andb].
  destruct (owners all sorted !! (t, p)) as [[owner g]|] eqn:Eo.
  - destruct Hs as (b & Hb & Hc & _). case_bool_decide as Hin; cbn [negb].
    + exists owner. apply Helem; [done|]. by rewrite Eo.
    + split; [exists b; split; [by apply sorted_elem|done]|]. intros m Hm.
      apply Helem in Hm as [Hm Ho]; [|done]. rewrite Eo in Ho. by subst.
  - destruct (T _ Hall) as [m Hm]. exists m. apply Helem; [done|]. by rewrite Eo.
Qed.

(** Whatever is owned and whatever the protocol: a wanted partition is given to one
    member, unless it is withheld. *)
Lemma assign_spread protocol members ppt t c p a :
  sized members ppt ->
  Z.of_nat (length (all_partitions ppt) * length members) < 2 ^ 64 ->
  ppt !! t = Some c -> 0 <= p < c -> a ∈ members -> t ∈ topics a ->
  let out := assign protocol members ppt in
  (forall m m', p ∈ parts out m t -> p ∈ parts out m' t -> m = m')
  /\ if withheld protocol members ppt (t, p) then
       (exists b, b ∈ members /\ claims (wanted_partitions (sort_members members) ppt) b (t, p))
       /\ forall m, p ∉ parts out m t
     else exists m, p ∈ parts out m t.
Proof.
  intros Hs Hw Ht Hp Ha Hta. cbv zeta.
  assert (Heager : protocol <> COOPERATIVE_STICKY -> withheld protocol members ppt (t, p) = false)
    by (intros Hne; unfold withheld; by rewrite bool_decide_false).
  unfold assign. case_decide as Hrr.
  { rewrite Heager by (by rewrite Hrr).
    pose proof (round_robin_shares members ppt (sized_ids _ _ Hs) Hw) as [_ _ S1 Sall].
    split; [intros m m'; apply S1|by eapply Sall]. }
  case_decide as Hcs.
  - rewrite Hcs. split; [|apply cooperative_spread, all_elem; split; [by exists c|by exists a]].
    intros m m' Hm Hm'. destruct (cooperative_given members ppt m' t p Hm') as (_ & _ & H & _). by apply H.
  - rewrite Heager by done. destruct (range_shares members ppt Hs) as [_ _ S1 Sall].
    split; [intros m m'; apply S1|by eapply Sall].
Qed.

(** In a group that owns nothing yet, whatever the protocol. *)
Lemma assign_shares protocol members ppt :
  sized members ppt ->
  Z.of_nat (length (all_partitions ppt) * length members) < 2 ^ 64 ->
  (forall a, a ∈ members -> owned a = []) ->
  shares members ppt (assign protocol members ppt).
Proof.
  intros Hs Hw Ho. unfold assign. case_decide; [by apply round_robin_shares; [apply Hs|]|].
  case_decide; [by apply cooperative_shares|by apply range_shares].
Qed.

(** ** The order the members come in *)

Lemma empty_assignment_perm l1 l2 : l1 ≡ₚ l2 -> empty_assignment l1 = empty_assignment l2.
Proof.
  intros Hp. unfold empty_assignment. generalize (∅ : Assignment).
  induction Hp as [|a l l' _ IH|a b l|l l' l'' _ IH1 _ IH2]; intros out; cbn [foldl]; [done|apply IH| |].
  - f_equal. destruct (decide (member_id a = member_id b)) as [->|Hne]; [done|].
    by rewrite insert_insert_ne by done.
  - by rewrite IH1.
Qed.

Lemma assign_perm protocol l1 l2 ppt :
  NoDup (map member_id l1) -> l1 ≡ₚ l2 -> assign protocol l1 ppt = assign protocol l2 ppt.
Proof.
  intros Hnd Hp. pose proof (empty_assignment_perm _ _ Hp) as He.
  pose proof (sort_members_unique l1 l2 Hnd Hp) as Hs. unfold assign.
  case_decide; [unfold assign_round_robin; by rewrite He, Hs|].
  case_decide; [unfold assign_cooperative_sticky; by rewrite Hs|].
  unfold assign_range. rewrite He. generalize (empty_assignment l2).
  induction (entries ppt) as [|[t c] l IH]; intros out; cbn [foldl]; [done|].
  replace (range_topic l1 out (t, c)) with (range_topic l2 out (t, c)); [apply IH|].
  unfold range_topic. rewrite (sort_members_unique (filter (fun m => t ∈ topics m) l1)
    (filter (fun m => t ∈ topics m) l2)); [done| |by rewrite Hp].
  eapply (sublist_NoDup _ (map member_id l1)); [done|]. apply fmap_sublist, sublist_filter.
Qed.

End AssignorFacts.

(** * Properties

    What the assignors promise: Java's range, everything covered once, an answer the
    order of the members does not change, and no partition handed over while another
    member still owns it. *)

Module AssignorProperties.
Import Membership Assignor AssignorFacts.

(** Whatever the protocol, the assignment does not depend on the order in which the
    members are listed: two leaders given the same group compute the same one. *)
Theorem assign_order_independent protocol members members' ppt :
  NoDup (map member_id members) -> members ≡ₚ members' ->
  assign protocol members ppt = assign protocol members' ppt.
Proof. apply assign_perm. Qed.

(** Range is Java's: of a topic of [count] partitions with [n] subscribers, the
    [i]th by id gets the [count / n] partitions, and one more if [i] is below the
    remainder, that follow what the earlier ones got. *)
Theorem range_is_java members ppt t count i a :
  sized members ppt -> ppt !! t = Some count -> subscribers members t !! i = Some a ->
  let n := Z.of_nat (length (subscribers members t)) in
  parts (assign_range members ppt) (member_id a) t
  = seqZ (count / n * Z.of_nat i + Z.min (Z.of_nat i) (count mod n))
         (count / n + if Z.of_nat i <? count mod n then 1 else 0).
Proof. intros Hs Ht Hi. by rewrite (range_parts members ppt t count i a). Qed.

(** Every assignor covers everything once: in a group that owns nothing yet, each
    partition of each topic some member wants is given to one member, which
    subscribed to it, and nothing else is given. *)
Theorem assign_covers_once protocol members ppt :
  sized members ppt ->
  Z.of_nat (length (all_partitions ppt) * length members) < 2 ^ 64 ->
  (forall a, a ∈ members -> owned a = []) ->
  shares members ppt (assign protocol members ppt).
Proof. apply assign_shares. Qed.

(** C21: The cooperative step never hands a partition over: it is given only to one
    member, and if any member claims it (owns it, and still subscribes to it), only to
    a claimant of the newest generation; what nobody claims any more is given out in
    that round. *)
Theorem cooperative_never_hands_over members ppt t p :
  let all := wanted_partitions (sort_members members) ppt in
  let given m := p ∈ parts (assign_cooperative_sticky members ppt) m t in
  (forall m m', given m -> given m' -> m = m')
  /\ (forall m b, given m -> b ∈ members -> claims all b (t, p) ->
        exists a, a ∈ members /\ member_id a = m /\ claims all a (t, p)
          /\ generation b <= generation a)
  /\ ((t, p) ∈ all -> (forall b, b ∈ members -> ~ claims all b (t, p)) -> exists m, given m).
Proof.
  cbv zeta. split; [|split].
  - intros m m' H H'. destruct (cooperative_given members ppt m' t p H') as (_ & _ & Hm & _).
    by apply Hm.
  - intros m b H Hb Hc. destruct (cooperative_given members ppt m t p H) as (_ & _ & _ & Hm).
    by apply (Hm b).
  - apply cooperative_unclaimed.
Qed.

(** ** Witnesses *)

Definition plain (id : string) (wants : list string) : MemberSubscription :=
  {| member_id := id; topics := wants; owned := []; generation := -1 |}.

Definition three : list MemberSubscription :=
  [plain "a" ["t"]; plain "b" ["t"; "u"]; plain "c" ["u"]].

Definition counts : gmap string Z := {["t" := 7; "u" := 2]}.

Lemma three_sized : sized three counts.
Proof.
  split.
  - refine (bool_decide_unpack _ _). vm_compute. exact I.
  - vm_compute. discriminate.
  - intros t c. unfold counts. rewrite lookup_insert_Some, lookup_singleton_Some.
    intros [[_ <-]|[_ [_ <-]]]; unfold I32_MAX; lia.
Qed.

Lemma assign_order_independent_witness :
  assign ROUND_ROBIN three counts = assign ROUND_ROBIN (rev three) counts.
Proof.
  apply (assign_order_independent ROUND_ROBIN three (rev three) counts).
  - apply (sized_ids _ _ three_sized).
  - apply Permutation_rev.
Defined.

Lemma range_is_java_witness : parts (assign_range three counts) "b" "t" = [4; 5; 6].
Proof.
  exact (range_is_java three counts "t" 7 1 (plain "b" ["t"; "u"]) three_sized
           ltac:(vm_compute; reflexivity) ltac:(vm_compute; reflexivity)).
Defined.

Lemma assign_covers_once_witness : shares three counts (assign COOPERATIVE_STICKY three counts).
Proof.
  apply (assign_covers_once COOPERATIVE_STICKY three counts three_sized).
  - vm_compute. reflexivity.
  - intros a Ha. repeat (apply elem_of_cons in Ha as [->|Ha]; [reflexivity|]).
    by apply elem_of_nil in Ha.
Defined.

(** ** A balance that stops early *)

(** Eight partitions of one topic, all with the first member; the second wants them
    too, the third wants another topic, which has one partition. *)
Definition lopsided : list MemberSubscription :=
  [ {| member_id := "a"; topics := ["busy"]; owned := map (pair "busy") (seqZ 0 8); generation := 4 |};
    {| member_id := "b"; topics := ["busy"]; owned := []; generation := 4 |};
    {| member_id := "c"; topics := ["quiet"]; owned := []; generation := 4 |} ].

Definition lopsided_counts : gmap string Z := {["busy" := 8; "quiet" := 1]}.

(** Balancing stops at the first pair of members it cannot fix: in a group where the
    emptiest member cannot take anything, the fullest keeps seven of the eight
    partitions though another subscriber of the topic has one. *)
Theorem balance_stops_early :
  let sorted := sort_members lopsided in
  let all := wanted_partitions sorted lopsided_counts in
  let held := sticky_target sorted all (owners all sorted) in
  size (holds held "a") = 7%nat /\ size (holds held "b") = 1%nat
  /\ imbalance sorted held = None
  /\ forall k, k ∈ holds held "a" -> "busy" = k.1.
Proof.
  cbv zeta. split; [vm_compute; reflexivity|]. split; [vm_compute; reflexivity|].
  split; [vm_compute; reflexivity|].
  change (set_Forall (fun k : Key => "busy" = k.1) (holds
    (sticky_target (sort_members lopsided) (wanted_partitions (sort_members lopsided) lopsided_counts)
       (owners (wanted_partitions (sort_members lopsided) lopsided_counts) (sort_members lopsided))) "a")).
  refine (bool_decide_unpack _ _). vm_compute. exact I.
Qed.

(** The first member keeps partition 1, which it owns. *)
Lemma cooperative_never_hands_over_witness :
  exists a, a ∈ lopsided /\ member_id a = "a"%string
    /\ claims (wanted_partitions (sort_members lopsided) lopsided_counts) a ("busy"%string, 1)
    /\ 4 <= generation a.
Proof.
  apply (proj1 (proj2 (cooperative_never_hands_over lopsided lopsided_counts "busy" 1)) "a"%string
           {| member_id := "a"; topics := ["busy"%string];
              owned := map (pair "busy"%string) (seqZ 0 8); generation := 4 |}).
  - refine (bool_decide_unpack _ _). vm_compute. exact I.
  - left.
  - split; [|split]; refine (bool_decide_unpack _ _); vm_compute; exact I.
Defined.

End AssignorProperties.
