(* ===== verification/Classic.v ===== *)
(** The classic group protocol: the member ([ClassicMembership] of
    [crates/kafka-consume/src/classic.rs]), [ClassicConsumer], which drives it around a
    [Consumer], and [NegotiatedConsumer], which chooses between it and the KIP-848
    member ([consumer.rs]).

    The codec of the two consumer protocol payloads is third-party: the class
    [GroupCodec].  The cluster is the record [ClassicNet]; its [ask_join] and
    [ask_sync] stand for [Coordinator.send_retrying_until] with the deadline they are
    given, its [ask_heartbeat] for [Coordinator.send_retrying]. *)

From S2P Require Import Prelude Sanitize ErrorCodes ApiKeys Retry BatchDecode Fetch Coordinator.
From S2P Require Import Consumer Group Assignors.
From Stdlib Require Import QArith.
Open Scope Z_scope.

(** The fields of [ConsumerProtocolSubscription] the code sets and reads, and the
    codec of both messages at a version; a failure is its rendering. *)
Record SubscriptionData : Type := {
  sd_topics : list string;
  sd_owned : list (string * list Z);
  sd_generation : Z;
}.

Class GroupCodec : Type := {
  subscription_max : Z;
  encode_subscription_body : SubscriptionData -> Z -> result bytes string;
  decode_subscription_body : bytes -> Z -> result SubscriptionData string;
  encode_assignment_body : list (string * list Z) -> Z -> result bytes string;
  decode_assignment_body : bytes -> Z -> result (list (string * list Z)) string;
}.

Module Wire.
Import Membership Assignor.

Definition NO_GENERATION : Z := -1.
Definition PROTOCOL_VERSION : Z := 0.
Definition COOPERATIVE_PROTOCOL_VERSION : Z := 2.

(** [i16::to_be_bytes]. *)
Definition i16_bytes (z : Z) : bytes := [z2b (z / 256); z2b z].

Definition short_prefix : Error.Error :=
  Error.Decode "consumer protocol payload"
    {| Error.src_text := "shorter than its two-byte version prefix"; Error.src_type := None |}.

(** The version, and what follows it. *)
Definition take_version (payload : bytes) : result (Z * bytes) Error.Error :=
  match payload with
  | high :: low :: rest => Ok (Batch.to_signed 2 (Batch.be_value [high; low]), rest)
  | _ => Err short_prefix
  end.

(** One pair per partition of each topic. *)
Definition flatten (l : list (string * list Z)) : list Key :=
  flat_map (fun '(topic, partitions) => map (pair topic) partitions) l.

Section codec.
Context `{GroupCodec}.

Definition encode_subscription (topics : list string) (owned : list Key) (generation version : Z)
    : result bytes Error.Error :=
  let by_topic :=
    foldl (fun m '(topic, partition) => push_to m topic partition) (∅ : gmap string (list Z)) owned in
  let subscription :=
    {| sd_topics := topics;
       sd_owned := if 1 <=? version then entries by_topic else [];
       sd_generation := if 2 <=? version then generation else NO_GENERATION |} in
  match encode_subscription_body subscription version with
  | Ok body => Ok (i16_bytes version ++ body)
  | Err error => Err (Error.InvalidRequest ("could not encode a subscription: " +:+ error))
  end.

Record DecodedSubscription : Type := {
  ds_topics : list string;
  ds_owned : list Key;
  ds_generation : Z;
}.

Definition decode_subscription (payload : bytes) : result DecodedSubscription Error.Error :=
  let? (version, body) := take_version payload in
  match decode_subscription_body body (clamp 0 subscription_max version) with
  | Ok s => Ok {| ds_topics := sd_topics s; ds_owned := flatten (sd_owned s);
                  ds_generation := sd_generation s |}
  | Err error =>
      Err (Error.Decode "consumer protocol subscription"
             {| Error.src_text := error; Error.src_type := None |})
  end.

Definition encode_assignment (assigned : gmap string (list Z)) : result bytes Error.Error :=
  match encode_assignment_body (entries assigned) PROTOCOL_VERSION with
  | Ok body => Ok (i16_bytes PROTOCOL_VERSION ++ body)
  | Err error => Err (Error.InvalidRequest ("could not encode an assignment: " +:+ error))
  end.

Definition decode_assignment (payload : bytes) : result (list Key) Error.Error :=
  match payload with
  | [] => Ok []
  | _ =>
      let? (version, body) := take_version payload in
      match decode_assignment_body body (Z.max version 0) with
      | Ok assigned => Ok (flatten assigned)
      | Err error =>
          Err (Error.Decode "consumer protocol assignment"
                 {| Error.src_text := error; Error.src_type := None |})
      end
  end.

End codec.

(** [collect] of results: the first error ends it. *)
Fixpoint collect {A B} (f : A -> result B Error.Error) (l : list A) : result (list B) Error.Error :=
  match l with
  | [] => Ok []
  | x :: l => let? y := f x in let? rest := collect f l in Ok (y :: rest)
  end.

End Wire.

(** ** The member *)

Module ClassicMembership.
Import Membership Assignor Wire GroupConsumer.

Definition RENDEZVOUS_HEADROOM : Z := 5 * Retry.SECOND.

Record ClassicMembership : Type := {
  c_group_id : string;
  c_subscription : list string;
  c_instance_id : option string;
  c_member_id : string;
  generation_id : Z;
  leader : bool;
  protocol : string;
  assignors : list Assignor;
  session_timeout_ms : Z;
  rebalance_timeout_ms : Z;
}.

Definition new (group_id : string) (subscription : list string) (instance_id : option string)
    (session_timeout_ms rebalance_timeout_ms : Z) : ClassicMembership := {|
  c_group_id := group_id; c_subscription := subscription; c_instance_id := instance_id;
  c_member_id := ""; generation_id := NO_GENERATION; leader := false; protocol := RANGE;
  assignors := SUPPORTED; session_timeout_ms := session_timeout_ms;
  rebalance_timeout_ms := rebalance_timeout_ms |}.

(** The identity the coordinator gave, everything else kept. *)
Definition with_member (self : ClassicMembership) (id : string) (generation : Z) (leads : bool)
    (protocol : string) : ClassicMembership := {|
  c_group_id := c_group_id self; c_subscription := c_subscription self;
  c_instance_id := c_instance_id self; c_member_id := id; generation_id := generation;
  leader := leads; protocol := protocol; assignors := assignors self;
  session_timeout_ms := session_timeout_ms self;
  rebalance_timeout_ms := rebalance_timeout_ms self |}.

Definition set_assignors (self : ClassicMembership) (l : list Assignor) : ClassicMembership := {|
  c_group_id := c_group_id self; c_subscription := c_subscription self;
  c_instance_id := c_instance_id self; c_member_id := c_member_id self;
  generation_id := generation_id self; leader := leader self; protocol := protocol self;
  assignors := l; session_timeout_ms := session_timeout_ms self;
  rebalance_timeout_ms := rebalance_timeout_ms self |}.

Definition cooperative (self : ClassicMembership) : bool := is_cooperative (protocol self).

(** What one rendezvous may take, at the instant [now]; an [i32] of milliseconds. *)
Definition rendezvous_deadline (self : ClassicMembership) (now : Z) : Z :=
  now + Z.max (rebalance_timeout_ms self) 0 * Retry.MILLI + RENDEZVOUS_HEADROOM.

Definition forget (self : ClassicMembership) : ClassicMembership :=
  with_member self "" NO_GENERATION false (protocol self).

(** *** Messages *)

Record JoinGroupRequest : Type := {
  jr_group_id : string;
  jr_session_timeout_ms : Z;
  jr_rebalance_timeout_ms : Z;
  jr_member_id : string;
  jr_group_instance_id : option string;
  jr_protocol_type : string;
  jr_protocols : list (string * bytes);
}.

Record JoinGroupResponse : Type := {
  jn_error_code : Z;
  jn_generation_id : Z;
  jn_protocol_name : option string;
  jn_leader : string;
  jn_member_id : string;
  jn_members : list (string * bytes);
}.

Record SyncGroupRequest : Type := {
  sr_group_id : string;
  sr_generation_id : Z;
  sr_member_id : string;
  sr_group_instance_id : option string;
  sr_protocol_type : string;
  sr_protocol_name : string;
  sr_assignments : list (string * bytes);
}.

Record SyncGroupResponse : Type := { sy_error_code : Z; sy_assignment : bytes }.

Record ClassicHeartbeatRequest : Type := {
  ch_group_id : string;
  ch_generation_id : Z;
  ch_member_id : string;
  ch_group_instance_id : option string;
}.

Record LeaveGroupRequest : Type := { lg_group_id : string; lg_members : list string }.

(** The group's world, with what the classic protocol asks of it: [topic_sizes] is the
    number of partitions of each topic of a fresh snapshot, [heartbeat_code] the error
    code of an answered heartbeat. *)
Record ClassicNet (W : Type) : Type := {
  base : GroupNet W;
  ask_join : W -> string -> Z -> JoinGroupRequest -> W * result JoinGroupResponse Error.Error;
  ask_sync : W -> string -> Z -> SyncGroupRequest -> W * result SyncGroupResponse Error.Error;
  heartbeat_code : W -> string -> ClassicHeartbeatRequest -> W * result Z Error.Error;
  send_leave : W -> string -> LeaveGroupRequest -> W;
  topic_sizes : W -> list string -> W * result (gmap string Z) Error.Error;
}.
Arguments base {W}.
Arguments ask_join {W}.
Arguments ask_sync {W}.
Arguments heartbeat_code {W}.
Arguments send_leave {W}.
Arguments topic_sizes {W}.

Section member.
Context `{KafkaProtocol, GroupCodec} {W : Type} (cn : ClassicNet W).

(** One assignor's offer, with the payload that goes with it. *)
Definition offer (self : ClassicMembership) (owned : list Key) (assignor : Assignor)
    : result (string * bytes) Error.Error :=
  let '(version, owned) :=
    if is_eager assignor then (PROTOCOL_VERSION, []) else (COOPERATIVE_PROTOCOL_VERSION, owned) in
  let? metadata := encode_subscription (c_subscription self) owned (generation_id self) version in
  Ok (name assignor, metadata).

Definition join_request (self : ClassicMembership) (owned : list Key)
    : result JoinGroupRequest Error.Error :=
  let? protocols := collect (offer self owned) (assignors self) in
  Ok {| jr_group_id := c_group_id self;
        jr_session_timeout_ms := session_timeout_ms self;
        jr_rebalance_timeout_ms := rebalance_timeout_ms self;
        jr_member_id := c_member_id self;
        jr_group_instance_id := c_instance_id self;
        jr_protocol_type := "consumer";
        jr_protocols := protocols |}.

(** What the leader reads of one member. *)
Definition read_member (member : string * bytes) : result MemberSubscription Error.Error :=
  let? decoded := decode_subscription member.2 in
  Ok {| Assignor.member_id := member.1; topics := ds_topics decoded;
        Assignor.owned := ds_owned decoded; generation := ds_generation decoded |}.

Definition join_group (w : W) (self : ClassicMembership) (owned : list Key)
    : W * ClassicMembership * result (list MemberSubscription) Error.Error :=
  match join_request self owned with
  | Err e => (w, self, Err e)
  | Ok request =>
      let '(w, t) := now (base cn) w in
      let '(w, answer) := ask_join cn w (c_group_id self) (rendezvous_deadline self t) request in
      match answer with
      | Err e => (w, self, Err e)
      | Ok response =>
          match ErrorCode.from_code (jn_error_code response) with
          | Some code =>
              (w,
               match code with
               | ErrorCode.MemberIdRequired =>
                   with_member self (jn_member_id response) (generation_id self) (leader self)
                     (protocol self)
               | _ => self
               end,
               Err (Error.from_code code None))
          | None =>
              let self :=
                with_member self (jn_member_id response) (jn_generation_id response)
                  (bool_decide (jn_leader response = jn_member_id response))
                  (default RANGE (jn_protocol_name response)) in
              (w, self, if leader self then collect read_member (jn_members response) else Ok [])
          end
      end
  end.

(** What the leader sends: an encoded assignment per member. *)
Definition assignments (self : ClassicMembership) (members : list MemberSubscription)
    (partitions_per_topic : gmap string Z) : result (list (string * bytes)) Error.Error :=
  if leader self then
    collect (fun '(member, topics) =>
               let? assignment := encode_assignment topics in Ok (member, assignment))
      (entries (assign (protocol self) members partitions_per_topic))
  else Ok [].

Definition sync_group (w : W) (self : ClassicMembership) (members : list MemberSubscription)
    (partitions_per_topic : gmap string Z) : W * result (list Key) Error.Error :=
  match assignments self members partitions_per_topic with
  | Err e => (w, Err e)
  | Ok assignments =>
      let request :=
        {| sr_group_id := c_group_id self; sr_generation_id := generation_id self;
           sr_member_id := c_member_id self; sr_group_instance_id := c_instance_id self;
           sr_protocol_type := "consumer"; sr_protocol_name := protocol self;
           sr_assignments := assignments |} in
      let '(w, t) := now (base cn) w in
      let '(w, answer) := ask_sync cn w (c_group_id self) (rendezvous_deadline self t) request in
      (w, let? response := answer in
          match ErrorCode.from_code (sy_error_code response) with
          | Some code => Err (Error.from_code code None)
          | None => decode_assignment (sy_assignment response)
          end)
  end.

Definition join (w : W) (self : ClassicMembership) (partitions_per_topic : gmap string Z)
    (owned : list Key) : W * ClassicMembership * result (list Key) Error.Error :=
  let '(w, self, members) := join_group w self owned in
  match members with
  | Err e => (w, self, Err e)
  | Ok members =>
      let '(w, assigned) := sync_group w self members partitions_per_topic in
      (w, self, assigned)
  end.

(** [true]: the member must join again. *)
Definition heartbeat (w : W) (self : ClassicMembership) : W * result bool Error.Error :=
  if generation_id self =? NO_GENERATION then (w, Ok true)
  else
    let '(w, answer) :=
      heartbeat_code cn w (c_group_id self)
        {| ch_group_id := c_group_id self; ch_generation_id := generation_id self;
           ch_member_id := c_member_id self; ch_group_instance_id := c_instance_id self |} in
    (w, let? code := answer in
        match ErrorCode.from_code code with
        | Some (ErrorCode.RebalanceInProgress | ErrorCode.UnknownMemberId
               | ErrorCode.IllegalGeneration) => Ok true
        | Some code => Err (Error.from_code code None)
        | None => Ok false
        end).

(** The answer of the coordinator is dropped. *)
Definition leave (w : W) (self : ClassicMembership) : W * ClassicMembership :=
  if bool_decide (c_member_id self = "") || bool_decide (is_Some (c_instance_id self)) then
    (w, with_member self (c_member_id self) NO_GENERATION (leader self) (protocol self))
  else
    (send_leave cn w (c_group_id self)
       {| lg_group_id := c_group_id self; lg_members := [c_member_id self] |},
     with_member self "" NO_GENERATION (leader self) (protocol self)).

End member.

End ClassicMembership.

(** ** The consumer of a classic group *)

Module ClassicConsumer.
Import Offsets Consumer Membership Assignor Wire GroupConsumer ClassicMembership.

Record ClassicConsumer : Type := {
  c_inner : Consumer;
  c_member : ClassicMembership;
  subscription : list string;
  c_auto_commit : bool;
  rejoin : bool;
  c_listener : bool;
  pending_revoke : option (list RevokedPartition);
}.

Definition set_inner (self : ClassicConsumer) (inner : Consumer) : ClassicConsumer := {|
  c_inner := inner; c_member := c_member self; subscription := subscription self;
  c_auto_commit := c_auto_commit self; rejoin := rejoin self; c_listener := c_listener self;
  pending_revoke := pending_revoke self |}.

Definition set_member (self : ClassicConsumer) (member : ClassicMembership) : ClassicConsumer := {|
  c_inner := c_inner self; c_member := member; subscription := subscription self;
  c_auto_commit := c_auto_commit self; rejoin := rejoin self; c_listener := c_listener self;
  pending_revoke := pending_revoke self |}.

Definition set_rejoin (self : ClassicConsumer) (rejoin : bool) : ClassicConsumer := {|
  c_inner := c_inner self; c_member := c_member self; subscription := subscription self;
  c_auto_commit := c_auto_commit self; rejoin := rejoin; c_listener := c_listener self;
  pending_revoke := pending_revoke self |}.

Definition set_revoke (self : ClassicConsumer) (revoke : option (list RevokedPartition))
    : ClassicConsumer := {|
  c_inner := c_inner self; c_member := c_member self; subscription := subscription self;
  c_auto_commit := c_auto_commit self; rejoin := rejoin self; c_listener := c_listener self;
  pending_revoke := revoke |}.

Definition with_auto_commit (self : ClassicConsumer) (enabled : bool) : ClassicConsumer := {|
  c_inner := c_inner self; c_member := c_member self; subscription := subscription self;
  c_auto_commit := enabled; rejoin := rejoin self; c_listener := c_listener self;
  pending_revoke := pending_revoke self |}.

Definition set_listener (self : ClassicConsumer) (listener : bool) : ClassicConsumer := {|
  c_inner := c_inner self; c_member := c_member self; subscription := subscription self;
  c_auto_commit := c_auto_commit self; rejoin := rejoin self; c_listener := listener;
  pending_revoke := pending_revoke self |}.

Definition with_rebalance_listener (self : ClassicConsumer) : ClassicConsumer :=
  set_listener self true.

(** A static member starts from a new membership, with the assignors kept. *)
Definition with_instance_id (self : ClassicConsumer) (instance_id : string) : ClassicConsumer :=
  let member :=
    ClassicMembership.new (c_group_id (c_member self)) (subscription self) (Some instance_id)
      (Consumer.session_timeout_ms (config (c_inner self)))
      (Consumer.rebalance_timeout_ms (config (c_inner self))) in
  set_member self (set_assignors member (assignors (c_member self))).

Definition with_assignors (self : ClassicConsumer) (l : list Assignor) : ClassicConsumer :=
  match l with
  | [] => self
  | _ => set_member self (set_assignors (c_member self) l)
  end.

Definition check_timeout_ordering (config : ConsumerConfig) : result unit Error.Error :=
  if Consumer.rebalance_timeout_ms config <? Consumer.session_timeout_ms config
  then Err (Error.InvalidRequest
              ("session_timeout_ms (" +:+ pretty (Consumer.session_timeout_ms config)
               +:+ ") must not exceed rebalance_timeout_ms ("
               +:+ pretty (Consumer.rebalance_timeout_ms config) +:+ ")"))
  else Ok tt.

(** The caller's configuration, for this group. *)
Definition in_group (config : ConsumerConfig) (group_id : string) : ConsumerConfig :=
  {| max_wait_ms := max_wait_ms config; max_bytes := max_bytes config;
     partition_max_bytes := partition_max_bytes config; visibility := visibility config;
     max_decompressed_bytes := max_decompressed_bytes config; Consumer.group_id := Some group_id;
     Consumer.rebalance_timeout_ms := Consumer.rebalance_timeout_ms config;
     Consumer.session_timeout_ms := Consumer.session_timeout_ms config;
     group_protocol := group_protocol config; retry := retry config |}.

Section classic.
Context `{KafkaProtocol, GroupCodec, Batch.RecordCodec} {W : Type} (cn : ClassicNet W).

Definition subscribe (w : W) (config : ConsumerConfig) (group_id : string) (topics : list string)
    : W * result ClassicConsumer Error.Error :=
  let config := in_group config group_id in
  match check_timeout_ordering config with
  | Err e => (w, Err e)
  | Ok _ =>
      let '(w, inner, learnt) := learn_topics (net (base cn)) w (Consumer.new config) topics in
      match learnt with
      | Err e => (w, Err e)
      | Ok _ =>
          (w, Ok {| c_inner := inner;
                    c_member := ClassicMembership.new group_id topics None
                                  (Consumer.session_timeout_ms config)
                                  (Consumer.rebalance_timeout_ms config);
                    subscription := topics; c_auto_commit := true; rejoin := true;
                    c_listener := false; pending_revoke := None |})
      end
  end.

Definition commit_identity (self : ClassicConsumer) : CommitAs := {|
  ca_member_id := c_member_id (c_member self);
  ca_epoch := generation_id (c_member self);
  ca_instance_id := c_instance_id (c_member self);
|}.

Definition commit (w : W) (self : ClassicConsumer)
    : W * result (list (Key * result unit Error.Error)) Error.Error :=
  commit_as (net (base cn)) w (c_inner self) (Some (commit_identity self)).

Definition tell_revoked (w : W) (self : ClassicConsumer) (revoked : list RevokedPartition) : W :=
  if c_listener self then on_revoke (base cn) w revoked else w.

Definition tell_assigned (w : W) (self : ClassicConsumer) (gained : list Key) : W :=
  if c_listener self then on_assign (base cn) w gained else w.

(** Tell the listener what is being revoked, then commit it. *)
Definition settle (w : W) (self : ClassicConsumer) : W * ClassicConsumer :=
  match pending_revoke self with
  | None => (w, self)
  | Some revoked =>
      let w :=
        match revoked with
        | [] => w
        | _ =>
            let w := tell_revoked w self revoked in
            if c_auto_commit self then (commit w self).1 else w
        end in
      (w, set_revoke self None)
  end.

(** Announce the revocation of a list of partitions. *)
Definition revoke_now (w : W) (self : ClassicConsumer) (keys : list Key) : W * ClassicConsumer :=
  settle w (set_revoke self (Some (revoked_positions (c_inner self) keys))).

(** An eager member gives everything up before it joins again. *)
Definition heartbeat_says_rejoin (w : W) (self : ClassicConsumer)
    : W * ClassicConsumer * result bool Error.Error :=
  let '(w, answer) := ClassicMembership.heartbeat cn w (c_member self) in
  match answer with
  | Err e => (w, self, Err e)
  | Ok false => (w, self, Ok false)
  | Ok true =>
      let self := set_rejoin self true in
      if cooperative (c_member self) then (w, self, Ok true)
      else
        let '(w, self) := revoke_now w self (assignment_keys (c_inner self)) in
        (w, self, Ok true)
  end.

(** The sizes of the topics this member subscribes to. *)
Definition partition_counts (w : W) (self : ClassicConsumer)
    : W * result (gmap string Z) Error.Error :=
  let '(w, snapshot) := topic_sizes cn w (subscription self) in
  (w, let? snapshot := snapshot in
      Ok (foldl (fun out topic => match snapshot !! topic with
                                  | Some count => <[topic := try_from_or I32_MAX 0 count]> out
                                  | None => out
                                  end) ∅ (subscription self))).

(** What a join that was answered with an assignment does. *)
Definition adopt (w : W) (self : ClassicConsumer) (held assigned : list Key)
    : W * ClassicConsumer * result unit Error.Error :=
  let cooperative := cooperative (c_member self) in
  let lost :=
    if cooperative
    then filter (fun key => key ∉ (list_to_set assigned : gset Key)) held else [] in
  let '(w, self) := match lost with [] => (w, self) | _ => revoke_now w self lost end in
  let gained := if cooperative then filter (fun key => key ∉ held) assigned else assigned in
  let '(w, inner, moved) := reassign (net (base cn)) w (c_inner self) assigned in
  let self := set_inner self inner in
  match moved with
  | Err e => (w, self, Err e)
  | Ok _ =>
      let self := set_rejoin self (cooperative && negb (bool_decide (lost = []))) in
      (match gained with [] => w | _ => tell_assigned w self gained end, self, Ok tt)
  end.

(** An evicted member forgets who it was and lets go of everything. *)
Definition evicted (w : W) (self : ClassicConsumer)
    : W * ClassicConsumer * result unit Error.Error :=
  let self := set_member self (forget (c_member self)) in
  let held := assignment_keys (c_inner self) in
  let '(w, self) := match held with [] => (w, self) | _ => revoke_now w self held end in
  let '(w, inner, moved) := reassign (net (base cn)) w (c_inner self) [] in
  (w, set_inner self inner, moved).

(** One cycle of the group machinery; [Ok false] leaves the loop. *)
Definition cycle (w : W) (self : ClassicConsumer) : W * ClassicConsumer * result bool Error.Error :=
  if rejoin self then
    let '(w, sizes) := partition_counts w self in
    match sizes with
    | Err e => (w, self, Err e)
    | Ok sizes =>
        let held := assignment_keys (c_inner self) in
        let '(w, member, joined) := join cn w (c_member self) sizes held in
        let self := set_member self member in
        let go_on '(w, self, r) := (w, self, let? _ := r in Ok true) in
        match joined with
        | Ok assigned => go_on (adopt w self held assigned)
        | Err error =>
            match Error.code_of error with
            | Some (ErrorCode.MemberIdRequired | ErrorCode.RebalanceInProgress) => (w, self, Ok true)
            | Some (ErrorCode.UnknownMemberId | ErrorCode.IllegalGeneration) => go_on (evicted w self)
            | _ => (w, self, Err error)
            end
        end
    end
  else heartbeat_says_rejoin w self.

Fixpoint cycles (n : nat) (w : W) (self : ClassicConsumer)
    : W * ClassicConsumer * result unit Error.Error :=
  match n with
  | O => (w, self, Ok tt)
  | S n =>
      let '(w, self, r) := cycle w self in
      match r with
      | Err e => (w, self, Err e)
      | Ok true => cycles n w self
      | Ok false => (w, self, Ok tt)
      end
  end.

Definition poll (w : W) (self : ClassicConsumer)
    : W * ClassicConsumer * result (list Batch.DRecord) Error.Error :=
  let '(w, self) := settle w self in
  let '(w, self, r) := cycles 6 w self in
  match r with
  | Err e => (w, self, Err e)
  | Ok _ =>
      if rejoin self then (w, self, Ok [])
      else
        let '(w, inner, records) := Consumer.poll (net (base cn)) w (c_inner self) in
        (w, set_inner self inner, records)
  end.

Definition leave (w : W) (self : ClassicConsumer) : W * ClassicConsumer :=
  let held := assignment_keys (c_inner self) in
  let w := match held with
           | [] => w
           | _ => tell_revoked w self (revoked_positions (c_inner self) held)
           end in
  let w := if c_auto_commit self then (commit w self).1 else w in
  let '(w, member) := ClassicMembership.leave cn w (c_member self) in
  (w, set_member self member).

End classic.

End ClassicConsumer.

(** ** The protocol chosen at subscription *)

Module NegotiatedConsumer.
Import Consumer Membership GroupConsumer ClassicMembership ClassicConsumer.

Inductive NegotiatedConsumer : Type :=
  | Group (consumer : GroupConsumer)
  | AsClassic (consumer : ClassicConsumer).

(** What a re-subscription on the classic protocol needs. *)
Record Handoff : Type := {
  h_config : ConsumerConfig;
  h_group_id : string;
  h_subscription : list string;
  h_instance_id : option string;
  h_auto_commit : bool;
  h_listener : bool;
}.

Definition downgradable (self : GroupConsumer) : bool :=
  negb (ever_joined self) && negb (has_joined (membership self)).

(** The listener is taken out of the consumer it leaves. *)
Definition handoff (self : GroupConsumer) : GroupConsumer * Handoff :=
  ({| inner := inner self; membership := membership self; ever_joined := ever_joined self;
      auto_commit := auto_commit self; listener := false; pending := pending self |},
   {| h_config := config (inner self); h_group_id := m_group_id (membership self);
      h_subscription := Membership.subscription (membership self);
      h_instance_id := instance_id (membership self); h_auto_commit := auto_commit self;
      h_listener := listener self |}).

Definition refuses_consumer_protocol (error : Error.Error) : bool :=
  match error with
  | Error.UnsupportedApi _ _ _ => true
  | _ => match Error.code_of error with
         | Some ErrorCode.UnsupportedVersion => true
         | _ => false
         end
  end.

Definition unsupported (u : Versions.UnsupportedApi) : Error.Error :=
  Error.UnsupportedApi (ApiKey.code (Versions.ua_api_key u)) (Versions.ua_broker u)
    (Versions.ua_ours u).

Section negotiated.
Context `{KafkaProtocol, GroupCodec, Batch.RecordCodec, Schemas} {W : Type} (cn : ClassicNet W).
(** The row of the heartbeat in some connection's table. *)
Context (heartbeat_row : W -> W * result (option Versions.BrokerApiVersion) Error.Error).

Definition require_heartbeat (w : W) : W * result unit Error.Error :=
  let '(w, row) := heartbeat_row w in
  (w, let? row := row in
      match require_ga_heartbeat row with
      | Ok _ => Ok tt
      | Err u => Err (unsupported u)
      end).

(** [GroupConsumer::subscribe], its own check of the broker included. *)
Definition subscribe_group (w : W) (config : ConsumerConfig) (group_id : string)
    (topics : list string) : W * result GroupConsumer Error.Error :=
  let '(w, served) := require_heartbeat w in
  match served with
  | Err e => (w, Err e)
  | Ok _ => GroupConsumer.subscribe (base cn) w config group_id topics
  end.

Definition choose (w : W) (config : ConsumerConfig) : W * result GroupProtocol Error.Error :=
  match group_protocol config with
  | Auto =>
      let '(w, served) := require_heartbeat w in
      (w, match served with
          | Ok _ => Ok ConsumerProtocol
          | Err (Error.UnsupportedApi _ _ _) => Ok Classic
          | Err e => Err e
          end)
  | pinned => (w, Ok pinned)
  end.

Definition subscribe (w : W) (config : ConsumerConfig) (group_id : string) (topics : list string)
    : W * result NegotiatedConsumer Error.Error :=
  let '(w, choice) := choose w config in
  match choice with
  | Err e => (w, Err e)
  | Ok Classic =>
      let '(w, consumer) := ClassicConsumer.subscribe cn w config group_id topics in
      (w, let? consumer := consumer in Ok (AsClassic consumer))
  | Ok _ =>
      let '(w, consumer) := subscribe_group w config group_id topics in
      (w, let? consumer := consumer in Ok (Group consumer))
  end.

Definition protocol (self : NegotiatedConsumer) : GroupProtocol :=
  match self with Group _ => ConsumerProtocol | AsClassic _ => Classic end.

Definition with_instance_id (self : NegotiatedConsumer) (id : string) : NegotiatedConsumer :=
  match self with
  | Group consumer => Group (GroupConsumer.with_instance_id consumer id)
  | AsClassic consumer => AsClassic (ClassicConsumer.with_instance_id consumer id)
  end.

Definition with_auto_commit (self : NegotiatedConsumer) (enabled : bool) : NegotiatedConsumer :=
  match self with
  | Group consumer => Group (GroupConsumer.with_auto_commit consumer enabled)
  | AsClassic consumer => AsClassic (ClassicConsumer.with_auto_commit consumer enabled)
  end.

Definition with_rebalance_listener (self : NegotiatedConsumer) : NegotiatedConsumer :=
  match self with
  | Group consumer => Group (GroupConsumer.with_rebalance_listener consumer)
  | AsClassic consumer => AsClassic (ClassicConsumer.with_rebalance_listener consumer)
  end.

(** The re-subscription, with the caller's settings. *)
Definition resubscribe (w : W) (h : Handoff) : W * result ClassicConsumer Error.Error :=
  let '(w, classic) :=
    ClassicConsumer.subscribe cn w (h_config h) (h_group_id h) (h_subscription h) in
  (w, let? classic := classic in
      let classic := match h_instance_id h with
                     | Some id => ClassicConsumer.with_instance_id classic id
                     | None => classic
                     end in
      Ok (set_listener (ClassicConsumer.with_auto_commit classic (h_auto_commit h)) (h_listener h))).

Definition poll (w : W) (self : NegotiatedConsumer)
    : W * NegotiatedConsumer * result (list Batch.DRecord) Error.Error :=
  match self with
  | AsClassic consumer =>
      let '(w, consumer, records) := ClassicConsumer.poll cn w consumer in
      (w, AsClassic consumer, records)
  | Group consumer =>
      let '(w, consumer, records) := GroupConsumer.poll (base cn) w consumer in
      match records with
      | Ok records => (w, Group consumer, Ok records)
      | Err error =>
          if downgradable consumer && refuses_consumer_protocol error then
            let '(consumer, h) := handoff consumer in
            let '(w, classic) := resubscribe w h in
            match classic with
            | Err e => (w, Group consumer, Err e)
            | Ok classic => (w, AsClassic classic, Ok [])
            end
          else (w, Group consumer, Err error)
      end
  end.

Definition commit (w : W) (self : NegotiatedConsumer)
    : W * result (list (Key * result unit Error.Error)) Error.Error :=
  match self with
  | Group consumer => GroupConsumer.commit (base cn) w consumer
  | AsClassic consumer => ClassicConsumer.commit cn w consumer
  end.

(** Leaving a classic group reports nothing. *)
Definition leave (w : W) (self : NegotiatedConsumer)
    : W * NegotiatedConsumer * result unit Error.Error :=
  match self with
  | Group consumer =>
      let '(w, consumer, r) := leave_group (base cn) w consumer in (w, Group consumer, r)
  | AsClassic consumer =>
      let '(w, consumer) := ClassicConsumer.leave cn w consumer in (w, AsClassic consumer, Ok tt)
  end.

End negotiated.

End NegotiatedConsumer.
