(* ===== verification/ClassicFacts.v ===== *)
(** Lemmas of the classic protocol: the payloads round trip, what the leader's
    assignment becomes at each member, and what a cycle of the consumer does. *)

From S2P Require Import Prelude Sanitize ErrorCodes ApiKeys Retry BatchDecode BatchDecodeFacts Fetch.
From S2P Require Import Coordinator Consumer ConsumerFacts ConsumerProperties Group.
From S2P Require Import Assignors AssignorsFacts Classic.
From Stdlib Require Import QArith.
Open Scope Z_scope.

Module ClassicFacts.
Import Membership Assignor AssignorFacts Wire ClassicMembership.

(** ** The payloads *)

(** What is relied on of the codec: it knows at least version two, and decoding at the
    version it encoded at gives back the fields that version has. *)
Class GroupCodecLaws `{GroupCodec} : Prop := {
  subscription_max_ge : COOPERATIVE_PROTOCOL_VERSION <= subscription_max;
  subscription_inverse : forall s v body, 0 <= v <= subscription_max ->
    (v < 1 -> sd_owned s = []) -> (v < 2 -> sd_generation s = NO_GENERATION) ->
    encode_subscription_body s v = Ok body -> decode_subscription_body body v = Ok s;
  assignment_inverse : forall l body,
    encode_assignment_body l PROTOCOL_VERSION = Ok body ->
    decode_assignment_body body PROTOCOL_VERSION = Ok l;
}.

Lemma take_version_bytes z rest : in_i16 z -> take_version (i16_bytes z ++ rest) = Ok (z, rest).
Proof.
  intros Hz. unfold take_version, i16_bytes. cbn [app].
  assert (E : Batch.be_value [z2b (z / 256); z2b z] = z mod 2 ^ 16).
  { unfold Batch.be_value. cbn [foldl]. rewrite !b2z_z2b.
    change (2 ^ 16) with (256 * 256). rewrite Z.rem_mul_r by lia. lia. }
  rewrite E. change (2 ^ 16) with (256 ^ Z.of_nat 2).
  rewrite (BatchFacts.to_signed_mod 2 z); [done|lia|]. unfold in_i16, I16_MAX in Hz. lia.
Qed.

Lemma flatten_entries (m : gmap string (list Z)) : flatten (entries m) ≡ₚ flat m.
Proof.
  unfold flatten, flat. by rewrite (entries_Permutation m).
Qed.

Lemma flatten_elem (m : gmap string (list Z)) t p :
  (t, p) ∈ flatten (entries m) <-> p ∈ default [] (m !! t).
Proof.
  unfold flatten. rewrite flat_map_elem. split.
  - intros ([t' l] & Hin & Hp). apply list_elem_of_fmap in Hp as (p' & [= <- <-] & Hp).
    apply entries_elem in Hin. by rewrite Hin.
  - intros Hp. destruct (m !! t) as [l|] eqn:E; [|by apply elem_of_nil in Hp].
    exists (t, l). split; [by apply entries_elem|]. by apply list_elem_of_fmap_2.
Qed.

Section codec.
Context `{GroupCodecLaws}.

Lemma subscription_decodes topics owned generation version payload :
  0 <= version <= COOPERATIVE_PROTOCOL_VERSION ->
  encode_subscription topics owned generation version = Ok payload ->
  exists d, decode_subscription payload = Ok d /\ ds_topics d = topics
    /\ ds_owned d ≡ₚ (if 1 <=? version then owned else [])
    /\ ds_generation d = (if 2 <=? version then generation else NO_GENERATION).
Proof.
  intros Hv. unfold encode_subscription. cbv zeta.
  set (m := foldl _ _ owned). set (s := {| sd_topics := _ |}).
  destruct (encode_subscription_body s version) as [body|e] eqn:E; [|done].
  intros Hp. assert (payload = i16_bytes version ++ body) as -> by congruence. clear Hp.
  pose proof subscription_max_ge. unfold COOPERATIVE_PROTOCOL_VERSION in *.
  unfold decode_subscription.
  rewrite take_version_bytes by (unfold in_i16, I16_MAX; lia). cbn [result_bind].
  rewrite clamp_small by lia. rewrite (subscription_inverse s version body); [|lia| | |exact E].
  - eexists. split; [reflexivity|]. cbn. split; [done|]. split; [|done].
    destruct (1 <=? version); [|done].
    rewrite flatten_entries. unfold m.
    rewrite (flat_foldl (fun m '(topic, partition) => push_to m topic partition) fst snd)
      by (by intros ? [? ?]).
    rewrite flat_empty, app_nil_l. rewrite (map_ext _ id) by (by intros [? ?]). by rewrite map_id.
  - intros Hlt. unfold s. cbn. by rewrite (proj2 (Z.leb_gt _ _)) by lia.
  - intros Hlt. unfold s. cbn. by rewrite (proj2 (Z.leb_gt _ _)) by lia.
Qed.

Lemma assignment_decodes m payload :
  encode_assignment m = Ok payload -> decode_assignment payload = Ok (flatten (entries m)).
Proof.
  unfold encode_assignment. destruct (encode_assignment_body _ _) as [body|e] eqn:E; [|done].
  intros [= <-]. unfold decode_assignment.
  pose proof (take_version_bytes PROTOCOL_VERSION body) as Ht.
  cbn [i16_bytes app] in Ht |- *. rewrite Ht by (unfold in_i16, I16_MAX, PROTOCOL_VERSION; lia).
  cbn [result_bind].
  change (decode_assignment_body body _) with (decode_assignment_body body PROTOCOL_VERSION).
  by rewrite (assignment_inverse _ _ E).
Qed.

Lemma collect_elem {A B} (f : A -> result B Error.Error) l : forall ys,
  collect f l = Ok ys -> forall y, y ∈ ys <-> exists x, x ∈ l /\ f x = Ok y.
Proof.
  induction l as [|x l IH]; cbn [collect]; intros ys.
  - intros [= <-] y. rewrite elem_of_nil. split; [done|]. by intros (x & Hx%elem_of_nil & _).
  - destruct (f x) as [y0|e] eqn:Ex; [|done]. cbn [result_bind].
    destruct (collect f l) as [rest|e]; [|done]. cbn. intros [= <-] y.
    rewrite elem_of_cons, (IH rest eq_refl). split.
    + intros [->|(x' & Hx' & Hf)]; [exists x; split; [by left|done]|exists x'; split; [by right|done]].
    + intros (x' & [->|Hx']%elem_of_cons & Hf); [left; congruence|right; by exists x'].
Qed.

Lemma collect_ok {A B} (f : A -> result B Error.Error) l ys :
  collect f l = Ok ys -> forall x, x ∈ l -> exists y, f x = Ok y.
Proof.
  revert ys. induction l as [|x l IH]; cbn [collect]; intros ys.
  - intros _ x Hx%elem_of_nil. done.
  - destruct (f x) as [y0|e] eqn:Ex; [|done]. cbn [result_bind].
    destruct (collect f l) as [rest|e]; [|done]. intros _ x' [->|Hx']%elem_of_cons; [by exists y0|].
    by eapply IH.
Qed.

End codec.

End ClassicFacts.

(** ** Runs of a classic consumer *)

Module ClassicRun.
Import Consumer ConsumerFacts ConsumerProperties Membership Assignor GroupConsumer Wire.
Import ClassicMembership ClassicConsumer.

Section run.
Context `{KafkaProtocol, GroupCodec, Batch.RecordCodec} {W : Type} (cn : ClassicNet W).

(** What can happen to a classic consumer whose polls are not dropped. *)
Inductive reachable : ClassicConsumer -> Prop :=
  | reach_subscribe w config group topics w' c :
      subscribe cn w config group topics = (w', Ok c) -> reachable c
  | reach_instance c id : reachable c -> reachable (with_instance_id c id)
  | reach_auto_commit c b : reachable c -> reachable (with_auto_commit c b)
  | reach_listener c b : reachable c -> reachable (set_listener c b)
  | reach_assignors c l : reachable c -> reachable (with_assignors c l)
  | reach_poll w c : reachable c -> reachable (poll cn w c).1.2
  | reach_leave w c : reachable c -> reachable (leave cn w c).2.

(** The consumer reads what the join that left it its membership was answered with;
    the assignors it advertises may have been set since. *)
Definition synced (c : ClassicConsumer) : Prop :=
  exists w m sizes held w' m' assigned,
    join cn w m sizes held = (w', m', Ok assigned)
    /\ c_member c = set_assignors m' (assignors (c_member c))
    /\ forall k, is_Some (assignment (c_inner c) !! k) <-> k ∈ assigned.

(** Unless it is to join again, what it buffers is assigned, and it either forgot its
    generation or reads what it was answered. *)
Definition ready (c : ClassicConsumer) : Prop :=
  rejoin c = false ->
  only_owned (c_inner c)
  /\ (generation_id (c_member c) = NO_GENERATION \/ synced c).

Lemma set_revoke_same c : set_revoke c (pending_revoke c) = c.
Proof using Type. by destruct c. Qed.

Lemma settle_keeps w c : exists p, (settle cn w c).2 = set_revoke c p.
Proof using Type.
  unfold settle. destruct (pending_revoke c) eqn:E; [by eexists|].
  exists (pending_revoke c). by rewrite set_revoke_same.
Qed.

Lemma revoke_now_keeps w c keys : (revoke_now cn w c keys).2 = set_revoke c None.
Proof using Type. done. Qed.

(** What adopting an assignment leaves. *)
Lemma adopt_spec w c held assigned w' c' :
  adopt cn w c held assigned = (w', c', Ok tt) ->
  c_member c' = c_member c
  /\ (exists w1 w2, reassign (net (base cn)) w1 (c_inner c) assigned = (w2, c_inner c', Ok tt))
  /\ rejoin c' = cooperative (c_member c)
       && negb (bool_decide (filter (fun key => key ∉ (list_to_set assigned : gset Key)) held = [])).
Proof using Type.
  unfold adopt. set (lost := filter _ held).
  set (w1c1 := match (if cooperative (c_member c) then lost else []) with [] => (w, c) | _ => _ end).
  assert (Hc : exists p, w1c1.2 = set_revoke c p).
  { unfold w1c1. destruct (if cooperative (c_member c) then lost else []); [|by eexists].
    exists (pending_revoke c). by rewrite set_revoke_same. }
  destruct w1c1 as [w1 c1]. cbn [snd] in Hc. destruct Hc as [p ->].
  cbn [c_inner set_revoke c_member set_inner].
  destruct (reassign _ w1 (c_inner c) assigned) as [[w2 inner'] [[]|e]] eqn:Er; [|done].
  intros [= _ <-]. cbn. split; [done|]. split; [by exists w1, w2|].
  destruct (cooperative (c_member c)); [|done]. done.
Qed.

(** What an eviction leaves. *)
Lemma evicted_spec w c w' c' :
  evicted cn w c = (w', c', Ok tt) ->
  c_member c' = forget (c_member c) /\ rejoin c' = rejoin c
  /\ exists w1 w2, reassign (net (base cn)) w1 (c_inner c) [] = (w2, c_inner c', Ok tt).
Proof using Type.
  unfold evicted. cbn [c_inner set_member].
  set (w1c1 := match assignment_keys (c_inner c) with [] => _ | _ => _ end).
  assert (Hc : exists p, w1c1.2 = set_revoke (set_member c (forget (c_member c))) p).
  { unfold w1c1. destruct (assignment_keys (c_inner c)); [|by eexists].
    exists (pending_revoke c). by destruct c. }
  destruct w1c1 as [w1 c1]. cbn [snd] in Hc. destruct Hc as [p ->].
  cbn [c_inner set_revoke set_member].
  destruct (reassign _ w1 (c_inner c) []) as [[w2 inner'] [[]|e]] eqn:Er; [|done].
  intros [= _ <-]. cbn. split; [done|]. split; [done|]. by exists w1, w2.
Qed.

Lemma reassigned_only_owned w1 w2 c inner' assigned :
  reassign (net (base cn)) w1 (c_inner c) assigned = (w2, inner', Ok tt) -> only_owned inner'.
Proof using Type.
  intros Hr. apply reassign_owned in Hr as [Hd Hb]. intros k Hk. apply Hb.
  rewrite <- Hd, Hk. by intros [].
Qed.

(** A cycle that goes on, from a consumer that is to join. *)
Lemma cycle_joins w c w' c' go :
  rejoin c = true -> cycle cn w c = (w', c', Ok go) ->
  go = true
  /\ exists w1 sizes w2 m joined,
      partition_counts cn w c = (w1, Ok sizes)
      /\ join cn w1 (c_member c) sizes (assignment_keys (c_inner c)) = (w2, m, joined)
      /\ match joined with
         | Ok assigned =>
             adopt cn w2 (set_member c m) (assignment_keys (c_inner c)) assigned = (w', c', Ok tt)
         | Err e =>
             match Error.code_of e with
             | Some (ErrorCode.MemberIdRequired | ErrorCode.RebalanceInProgress) =>
                 w' = w2 /\ c' = set_member c m
             | Some (ErrorCode.UnknownMemberId | ErrorCode.IllegalGeneration) =>
                 evicted cn w2 (set_member c m) = (w', c', Ok tt)
             | _ => False
             end
         end.
Proof using Type.
  intros Hr. unfold cycle. rewrite Hr.
  destruct (partition_counts cn w c) as [w1 [sizes|e]] eqn:Es; [|done].
  destruct (join cn w1 _ _ _) as [[w2 m] joined] eqn:Ej. cbv zeta.
  assert (G : forall r : W * ClassicConsumer * result unit Error.Error,
    (let '(w, self, r) := r in (w, self, let? _ := r in Ok true)) = (w', c', Ok go) ->
    go = true /\ r = (w', c', Ok tt)).
  { intros [[w3 c3] [[]|e]]; cbn; [|done]. by intros [= -> -> ->]. }
  destruct joined as [assigned|e].
  - intros [-> Ha]%G. split; [done|]. by exists w1, sizes, w2, m, (Ok assigned).
  - intros Hc. enough (go = true /\ match Error.code_of e with
             | Some (ErrorCode.MemberIdRequired | ErrorCode.RebalanceInProgress) =>
                 w' = w2 /\ c' = set_member c m
             | Some (ErrorCode.UnknownMemberId | ErrorCode.IllegalGeneration) =>
                 evicted cn w2 (set_member c m) = (w', c', Ok tt)
             | _ => False
             end) as [-> Hx] by (split; [done|]; by exists w1, sizes, w2, m, (Err e)).
    destruct (Error.code_of e) as [[]|]; try done; first [by apply G|by simplify_eq].
Qed.

Lemma heartbeat_keeps w c w' c' b :
  heartbeat_says_rejoin cn w c = (w', c', Ok b) ->
  rejoin c' = b || rejoin c
  /\ (b = false -> c' = c /\ generation_id (c_member c) <> NO_GENERATION)
  /\ c_inner c' = c_inner c /\ c_member c' = c_member c.
Proof using Type.
  unfold heartbeat_says_rejoin. destruct (ClassicMembership.heartbeat cn w _) as [w1 [[]|e]] eqn:Eh; [| |done].
  - destruct (cooperative _); intros [= _ <- <-]; by split_and!.
  - intros [= _ <- <-]. split_and!; try done. intros _. split; [done|].
    intros Hg. unfold ClassicMembership.heartbeat in Eh. by rewrite Hg in Eh.
Qed.

Lemma cycle_ready w c w' c' go : ready c -> cycle cn w c = (w', c', Ok go) ->
  ready c' /\ (go = false -> rejoin c' = false -> synced c')
  /\ (rejoin c = true -> rejoin c' = false -> synced c').
Proof using Type.
  intros Hr Hc. destruct (rejoin c) eqn:Erj.
  - destruct (cycle_joins w c w' c' go Erj Hc) as (-> & w1 & sizes & w2 & m & joined & _ & Ej & Hj).
    assert (Hs : rejoin c' = false -> synced c' /\ only_owned (c_inner c')).
    { intros Hf. destruct joined as [assigned|e].
      - apply adopt_spec in Hj as (Hm & (w3 & w4 & Hre) & _). split.
        + exists w1, (c_member c), sizes, (assignment_keys (c_inner c)), w2, m, assigned.
          rewrite Hm. split; [exact Ej|]. split; [by destruct m|]. by apply reassign_owned in Hre as [? _].
        + by eapply reassigned_only_owned.
      - exfalso. destruct (Error.code_of e) as [[]|]; try done;
          solve [apply evicted_spec in Hj as (_ & Hx & _); cbn in Hx; congruence
                |destruct Hj as [_ ->]; cbn in Hf; congruence]. }
    split; [|split].
    + intros Hf. destruct (Hs Hf). auto.
    + intros _ Hf. by apply Hs.
    + intros _ Hf. by apply Hs.
  - unfold cycle in Hc. rewrite Erj in Hc.
    apply heartbeat_keeps in Hc as (Hx & Hb & Hi & Hm). rewrite Erj, orb_false_r in Hx.
    destruct go.
    + split; [|split]; intros; congruence.
    + destruct (Hb eq_refl) as [-> Hg]. split; [done|]. split; [|done]. intros _ _.
      destruct (Hr Erj) as [_ [?|?]]; done.
Qed.

Lemma cycle_error w c w' c' e :
  cycle cn w c = (w', c', Err e) -> c' = c \/ rejoin c' = true.
Proof using Type.
  unfold cycle. destruct (rejoin c) eqn:Erj.
  - destruct (partition_counts cn w c) as [w1 [sizes|e1]]; [|by intros [= _ <- _]; auto].
    destruct (join cn w1 _ _ _) as [[w2 m] joined]. cbv zeta.
    assert (Ha : forall held assigned w3 c3 r, adopt cn w2 (set_member c m) held assigned = (w3, c3, Err r) ->
      rejoin c3 = true).
    { intros held assigned w3 c3 r. unfold adopt.
      destruct (match _ with [] => (w2, set_member c m) | _ => _ end) as [w4 c4] eqn:E4.
      assert (rejoin c4 = true).
      { destruct (if cooperative _ then _ else _) as [|k l]; [by simplify_eq|].
        pose proof (revoke_now_keeps w2 (set_member c m) (k :: l)) as Hk.
        rewrite E4 in Hk. cbn in Hk. by rewrite Hk. }
      destruct (reassign _ _ _ _) as [[w5 i] [[]|e5]]; [done|]. by intros [= _ <- _]. }
    assert (He : forall w3 c3 r, evicted cn w2 (set_member c m) = (w3, c3, Err r) -> rejoin c3 = true).
    { intros w3 c3 r. unfold evicted. set (c4 := set_member (set_member c m) _).
      destruct (match _ with [] => (w2, c4) | _ => _ end) as [w5 c5] eqn:E5.
      assert (rejoin c5 = true).
      { destruct (assignment_keys _) as [|k l]; [by simplify_eq|].
        pose proof (revoke_now_keeps w2 c4 (k :: l)) as Hk.
        rewrite E5 in Hk. cbn in Hk. by rewrite Hk. }
      destruct (reassign _ _ _ _) as [[w6 i] r6]. by intros [= _ <- _]. }
    destruct joined as [assigned|e1].
    + destruct (adopt cn w2 _ _ assigned) as [[w3 c3] [[]|r]] eqn:E; [done|].
      intros [= _ <- _]. right. by eapply Ha.
    + destruct (evicted cn w2 _) as [[w3 c3] r] eqn:E.
      destruct (Error.code_of e1) as [[]|]; try (by intros [= _ <- _]; right);
        try done; (destruct r as [[]|r]; [done|]; intros [= _ <- _]; right; by eapply He).
  - unfold heartbeat_says_rejoin. destruct (ClassicMembership.heartbeat _ _ _) as [w1 [[]|e1]];
      [|done|intros [= _ <- _]; auto].
    cbv zeta. destruct (cooperative _); done.
Qed.

Lemma cycles_ready n : forall w c w' c' r,
  ready c -> cycles cn n w c = (w', c', r) -> ready c'.
Proof using Type.
  induction n as [|n IH]; intros w c w' c' r Hc; cbn [cycles]; [by intros [= _ <- _]|].
  destruct (cycle cn w c) as [[w1 c1] [go|e]] eqn:E.
  - apply cycle_ready in E as (Hx & _); [|done]. destruct go; [by apply IH|by intros [= _ <- _]].
  - intros [= _ <- _]. apply cycle_error in E as [->|Hx]; [done|]. unfold ready. congruence.
Qed.

(** When the cycles end with nothing left to join, the consumer reads what it was
    answered: they started from such a consumer that the coordinator confirmed, or
    the last of them was a join. *)
Lemma cycles_synced n : forall w c w' c',
  (n <> 0)%nat -> ready c -> cycles cn n w c = (w', c', Ok tt) -> rejoin c' = false -> synced c'.
Proof using Type.
  induction n as [|n IH]; intros w c w' c' Hn Hc; [done|]. cbn [cycles].
  destruct (cycle cn w c) as [[w1 c1] [go|e]] eqn:E; [|done].
  pose proof (cycle_ready w c w1 c1 go Hc E) as (Ha & Hb & Hd).
  destruct go; [|intros [= _ <-] Hf; by apply Hb].
  destruct n as [|n]; [|by apply IH].
  cbn [cycles]. intros [= _ <-] Hf. apply Hd; [|done].
  destruct (rejoin c) eqn:Erj; [done|]. unfold cycle in E. rewrite Erj in E.
  apply heartbeat_keeps in E as (Hx & _). cbn in Hx. congruence.
Qed.

End run.

Section reading.
Context `{KafkaProtocol, GroupCodec, Batch.RecordCodec} {W : Type} (cn : ClassicNet W).

Lemma ready_settle w c : ready cn c -> ready cn (settle cn w c).2.
Proof using Type. intros Hc. by destruct (settle_keeps cn w c) as [p ->]. Qed.

(** Reading leaves what is assigned, and delivers only that. *)
Lemma read_keeps w c w' i records :
  only_owned c -> Consumer.poll (net (base cn)) w c = (w', i, records) ->
  only_owned i /\ (forall k, is_Some (assignment i !! k) <-> is_Some (assignment c !! k))
  /\ forall l, records = Ok l -> Forall (fun r => is_Some (assignment i !! record_key r)) l.
Proof using Type.
  intros Hc E. pose proof (poll_moves (net (base cn)) w c) as Hm. rewrite E in Hm.
  pose proof (advances_only_owned _ _ _ Hm Hc) as [Hx Hy]. split; [done|]. split.
  - intros k. specialize (Hm k). unfold moved in Hm. cbn in Hm.
    destruct (assignment c !! k) as [a|].
    + destruct Hm as (a' & new & -> & _). split; by eexists.
    + destruct Hm as [-> _]. split; by intros [].
  - by intros l ->.
Qed.

Lemma poll_reads w c w' c' records : ready cn c -> poll cn w c = (w', c', records) ->
  ready cn c'
  /\ forall l, records = Ok l -> l <> [] ->
       rejoin c' = false /\ synced cn c'
       /\ Forall (fun r => is_Some (assignment (c_inner c') !! record_key r)) l.
Proof using Type.
  intros Hc. unfold poll. pose proof (ready_settle w c Hc) as Hs.
  destruct (settle cn w c) as [w1 c1]. cbn [snd] in Hs.
  destruct (cycles cn 6 w1 c1) as [[w2 c2] [[]|e]] eqn:Ec;
    pose proof (cycles_ready cn 6 _ _ _ _ _ Hs Ec) as Hx.
  2: { intros [= _ <- <-]. split; [done|]. by intros l [=]. }
  destruct (rejoin c2) eqn:Erj.
  { intros [= _ <- <-]. split; [done|]. by intros l [= <-]. }
  destruct (Consumer.poll _ w2 _) as [[w3 i] got] eqn:Ep. intros [= _ <- <-].
  destruct (Hx Erj) as [Ho _].
  destruct (read_keeps w2 (c_inner c2) w3 i got Ho Ep) as (Ho' & Hd & Hr).
  assert (Hsy : synced cn (set_inner c2 i)).
  { destruct (cycles_synced cn 6 w1 c1 w2 c2) as (w4 & m & sizes & held & w5 & m' & assigned & Hj & Hm & Hk);
      [lia|done|done|done|].
    exists w4, m, sizes, held, w5, m', assigned. split; [done|]. split; [done|].
    intros k. cbn. by rewrite Hd. }
  split.
  - intros _. cbn. split; [done|]. by right.
  - intros l El Hl. split; [done|]. split; [done|]. cbn. by apply Hr.
Qed.

Lemma reachable_ready c : reachable cn c -> ready cn c.
Proof using Type.
  induction 1 as [w config group topics w' c Hs|c id Hr IH|c b Hr IH|c b Hr IH|c l Hr IH|w c Hr IH|w c Hr IH].
  - unfold subscribe in Hs. destruct (check_timeout_ordering _); [|done].
    destruct (learn_topics _ _ _ _) as [[w1 i] [[]|e]]; simplify_eq/=. done.
  - intros Hf. destruct (IH Hf) as [Ho _]. split; [done|]. by left.
  - exact IH.
  - exact IH.
  - unfold with_assignors. destruct l as [|a l]; [done|]. intros Hf. destruct (IH Hf) as [Ho Hg].
    split; [done|]. destruct Hg as [Hg|(w & m & sizes & held & w' & m' & assigned & Hj & Hm & Hk)];
      [by left|right]. exists w, m, sizes, held, w', m', assigned. split; [done|]. split; [|done].
    cbn. by rewrite Hm.
  - destruct (poll cn w c) as [[w' c'] r] eqn:E. cbn. by apply poll_reads in E as [? _].
  - unfold leave. destruct (ClassicMembership.leave _ _ _) as [w1 m] eqn:El.
    intros Hf. destruct (IH Hf) as [Ho _]. split; [done|]. left. cbn.
    unfold ClassicMembership.leave in El. destruct (_ || _); by injection El as _ <-.
Qed.

End reading.

End ClassicRun.
