(* ===== verification/ClassicProperties.v ===== *)
(** Properties of the classic group protocol ([Classic.v]): the leader's answer covers
    the group, a consumer reads what it was answered, an evicted one lets go, a
    revocation is announced, the downgrade happens only before joining; and what the
    code leaves undone. *)

From S2P Require Import Prelude Sanitize ErrorCodes ApiKeys Retry BatchDecode BatchDecodeFacts Fetch.
From S2P Require Import Coordinator Consumer ConsumerFacts ConsumerProperties Group.
From S2P Require Import Assignors AssignorsFacts Classic ClassicFacts.
From Stdlib Require Import QArith.
Open Scope Z_scope.

Module ClassicProperties.
Import Offsets Consumer ConsumerFacts ConsumerProperties Membership Assignor AssignorFacts.
Import GroupConsumer Wire ClassicFacts ClassicMembership ClassicConsumer ClassicRun NegotiatedConsumer.

(** ** Lemmas *)

Lemma nothing_buffered (c : Consumer) : (forall k, at_ k (buffered c) = []) -> buffered c = [].
Proof.
  intros Hb. destruct (buffered c) as [|r l]; [done|]. specialize (Hb (record_key r)).
  unfold at_ in Hb. by rewrite filter_cons_True in Hb.
Qed.

Lemma assignment_keys_elem (c : Consumer) k : k ∈ assignment_keys c <-> is_Some (assignment c !! k).
Proof.
  unfold assignment_keys. rewrite merge_sort_Permutation, list_elem_of_fmap. split.
  - intros ([k' a] & -> & Ha%elem_of_map_to_list). by exists a.
  - intros [a Ha]. exists (k, a). by rewrite elem_of_map_to_list.
Qed.

Lemma assignment_keys_nil (c : Consumer) : assignment c = ∅ -> assignment_keys c = [].
Proof. unfold assignment_keys. intros ->. by rewrite map_to_list_empty. Qed.

(** The position a revocation names. *)
Lemma revoked_positions_elem (c : Consumer) keys k a :
  k ∈ keys -> assignment c !! k = Some a ->
  {| rp_topic := k.1; rp_partition := k.2; rp_position := position_ a |} ∈ revoked_positions c keys.
Proof. intros Hk Ha. unfold revoked_positions. apply list_elem_of_fmap. exists k. by rewrite Ha. Qed.

(** A KIP-848 poll latches that the member had joined. *)
Lemma settle_latched `{KafkaProtocol} {W} (gn : GroupNet W) w g :
  ever_joined (GroupConsumer.settle gn w g).1.2 = ever_joined g.
Proof.
  unfold GroupConsumer.settle. destruct (pending g) as [p|]; [|done].
  destruct (pending_is_empty p); [done|]. by destruct (reassign _ _ _ _) as [[w1 i] [[]|e]].
Qed.

Lemma heartbeat_latched `{KafkaProtocol} {W} (gn : GroupNet W) w g :
  ever_joined (GroupConsumer.heartbeat gn w g).1.2 = ever_joined g.
Proof.
  unfold GroupConsumer.heartbeat. destruct (beat _ _ _ _ _ _) as [[w1 m] [outcome|e]]; [|done].
  destruct (changed outcome); [|done]. by rewrite settle_latched.
Qed.

Lemma poll_latched `{KafkaProtocol, Batch.RecordCodec} {W} (gn : GroupNet W) w g :
  ever_joined (GroupConsumer.poll gn w g).1.2 = ever_joined g || has_joined (membership g).
Proof.
  unfold GroupConsumer.poll. pose proof (settle_latched gn w (latch g)) as Hs.
  destruct (GroupConsumer.settle gn w (latch g)) as [[w1 g1] [[]|e]]; [|exact Hs].
  destruct (now gn w1) as [w2 t]. cbn [fst snd] in Hs.
  pose proof (heartbeat_latched gn w2 g1) as Hh.
  assert (Hp : forall w3 g2, ever_joined g2 = ever_joined g1 ->
    ever_joined (let '(w4, i, records) := Consumer.poll (net gn) w3 (inner g2) in
                 (w4, with_inner g2 i, records)).1.2 = ever_joined g || has_joined (membership g)).
  { intros w3 g2 E. destruct (Consumer.poll (net gn) w3 (inner g2)) as [[w4 i] got]. cbn. by rewrite E, Hs. }
  destruct (beat_due _ _); [|by apply Hp].
  destruct (GroupConsumer.heartbeat gn w2 g1) as [[w3 g2] [[]|e]]; [by apply Hp|].
  cbn in *. by rewrite Hh, Hs.
Qed.

(** The payloads carry what was assigned. *)
Lemma answer_carries `{GroupCodecLaws} (out : Assignment) (answer : list (string * bytes)) :
  collect (fun '(id, topics) => let? payload := encode_assignment topics in Ok (id, payload))
    (entries out) = Ok answer ->
  (forall id payload, (id, payload) ∈ answer -> exists keys, decode_assignment payload = Ok keys
     /\ forall t p, (t, p) ∈ keys <-> p ∈ parts out id t)
  /\ forall t p id,
       (exists payload keys, (id, payload) ∈ answer
          /\ decode_assignment payload = Ok keys /\ (t, p) ∈ keys)
       <-> p ∈ parts out id t.
Proof.
  intros Hc.
  assert (Hin : forall id payload, (id, payload) ∈ answer <->
    exists x, out !! id = Some x /\ encode_assignment x = Ok payload).
  { intros id payload. rewrite (collect_elem _ _ _ Hc). split.
    - intros ([id' x] & Hx & E). destruct (encode_assignment x) as [b|e] eqn:Ex; [|done].
      cbn in E. injection E as -> ->. apply entries_elem in Hx. by exists x.
    - intros (x & Hx & E). exists (id, x). rewrite E. split; [by apply entries_elem|done]. }
  assert (Hd : forall id payload, (id, payload) ∈ answer -> exists keys,
    decode_assignment payload = Ok keys /\ forall t p, (t, p) ∈ keys <-> p ∈ parts out id t).
  { intros id payload (x & Hx & E)%Hin. exists (flatten (entries x)).
    split; [by apply assignment_decodes|]. intros t p. rewrite flatten_elem. unfold parts.
    by rewrite Hx. }
  split; [exact Hd|]. intros t p id. split.
  - intros (payload & keys & Hpl & Ek & Hk). destruct (Hd id payload Hpl) as (keys' & Ek' & Hk').
    rewrite Ek in Ek'. injection Ek' as <-. by apply Hk'.
  - intros Hid. destruct (out !! id) as [x|] eqn:Ex.
    2: { unfold parts in Hid. rewrite Ex in Hid. cbn in Hid. rewrite lookup_empty in Hid.
         by apply elem_of_nil in Hid. }
    assert (Henc : exists payload, encode_assignment x = Ok payload).
    { destruct (collect_ok _ _ _ Hc (id, x)) as [y Hy]; [by apply entries_elem|].
      destruct (encode_assignment x) as [b|e]; [by exists b|done]. }
    destruct Henc as [payload Ep].
    assert (Hpl : (id, payload) ∈ answer) by (apply Hin; by exists x).
    destruct (Hd id payload Hpl) as (keys & Ek & Hk). exists payload, keys.
    split; [done|]. split; [done|]. by apply Hk.
Qed.

(** ** Properties *)

(** C22: The leader's answer covers the group, whatever the members own: every payload
    of the [SyncGroup] it sends decodes, at the member it names, to the partitions the
    assignor gave that member; and every partition of a topic some member wants, of
    those the leader knows the size of, is in exactly one of them, but for one a
    cooperative-sticky round withholds: one that is to move away from the member
    with the newest valid claim on it is in none, for this round. *)
Theorem leader_answer_covers_group `{GroupCodecLaws} (m : ClassicMembership)
    (members : list MemberSubscription) (sizes : gmap string Z) (answer : list (string * bytes)) :
  leader m = true -> sized members sizes ->
  Z.of_nat (length (all_partitions sizes) * length members) < 2 ^ 64 ->
  assignments m members sizes = Ok answer ->
  (forall id payload, (id, payload) ∈ answer -> exists keys, decode_assignment payload = Ok keys
     /\ forall t p, (t, p) ∈ keys <-> p ∈ parts (assign (ClassicMembership.protocol m) members sizes) id t)
  /\ (forall t c p a, sizes !! t = Some c -> 0 <= p < c -> a ∈ members -> t ∈ topics a ->
        let carries id := exists payload keys, (id, payload) ∈ answer
                            /\ decode_assignment payload = Ok keys /\ (t, p) ∈ keys in
        if withheld (ClassicMembership.protocol m) members sizes (t, p) then
          (exists b, b ∈ members /\ claims (wanted_partitions (sort_members members) sizes) b (t, p))
          /\ forall id, ~ carries id
        else exists id, forall id', id' = id <-> carries id').
Proof.
  intros Hl Hs Hw. unfold assignments. rewrite Hl.
  set (out := assign (ClassicMembership.protocol m) members sizes). intros Hc.
  pose proof (answer_carries out answer Hc) as [Hd Hiff]. split; [exact Hd|].
  intros t c p a Ht Hp Ha Hta.
  destruct (assign_spread (ClassicMembership.protocol m) members sizes t c p a Hs Hw Ht Hp Ha Hta)
    as [S1 Hspread]. fold out in S1, Hspread.
  destruct (withheld _ _ _ _); cbv zeta; setoid_rewrite Hiff; [done|].
  destruct Hspread as [id Hid]. exists id. intros id'. split; [by intros ->|]. intros Hid'. by apply S1.
Qed.

(** C23: A classic consumer reads what it was answered: whenever a poll of a reachable
    consumer delivers a record, nothing is left to join, the assignment is exactly the
    list the last [SyncGroup] of its membership decoded to, and the record is of an
    assigned partition. *)
Theorem classic_reads_what_it_was_answered `{KafkaProtocol, GroupCodec, Batch.RecordCodec} {W}
    (cn : ClassicNet W) (w w' : W) (c c' : ClassicConsumer) (records : list Batch.DRecord)
    (r : Batch.DRecord) :
  reachable cn c -> ClassicConsumer.poll cn w c = (w', c', Ok records) -> r ∈ records ->
  rejoin c' = false /\ synced cn c' /\ is_Some (assignment (c_inner c') !! record_key r).
Proof.
  intros Hr Hp Hin. apply (reachable_ready cn) in Hr.
  destruct (poll_reads cn w c w' c' (Ok records) Hr Hp) as [_ Hx].
  destruct (Hx records eq_refl) as (Hj & Hs & Hall).
  { intros ->. by apply elem_of_nil in Hin. }
  split; [done|]. split; [done|]. rewrite Forall_forall in Hall. by apply Hall.
Qed.

(** An evicted member lets go of everything: when a join is answered
    [UNKNOWN_MEMBER_ID] or [ILLEGAL_GENERATION], the cycle leaves no assignment and no
    buffered record, and the consumer is to join again as a new member, whose request
    names no id and whose every payload claims nothing. *)
Theorem eviction_lets_go `{KafkaProtocol, GroupCodecLaws, Batch.RecordCodec} {W}
    (cn : ClassicNet W) (w w1 w2 w' : W) (c c' : ClassicConsumer) (m : ClassicMembership)
    (sizes : gmap string Z) (e : Error.Error) :
  rejoin c = true -> partition_counts cn w c = (w1, Ok sizes) ->
  join cn w1 (c_member c) sizes (assignment_keys (c_inner c)) = (w2, m, Err e) ->
  Error.code_of e = Some ErrorCode.UnknownMemberId
  \/ Error.code_of e = Some ErrorCode.IllegalGeneration ->
  cycle cn w c = (w', c', Ok true) ->
  assignment (c_inner c') = ∅ /\ buffered (c_inner c') = []
  /\ rejoin c' = true /\ generation_id (c_member c') = NO_GENERATION
  /\ forall request, join_request (c_member c') (assignment_keys (c_inner c')) = Ok request ->
       jr_member_id request = ""%string
       /\ forall name payload, (name, payload) ∈ jr_protocols request ->
            exists d, decode_subscription payload = Ok d /\ ds_owned d = []
              /\ ds_generation d = NO_GENERATION.
Proof.
  intros Hrj Hsz Hj He Hc.
  destruct (cycle_joins cn w c w' c' true Hrj Hc) as (_ & w3 & sizes' & w4 & m' & joined & Hsz' & Hj' & Hx).
  rewrite Hsz in Hsz'. injection Hsz' as <- <-. rewrite Hj in Hj'. injection Hj' as <- <- <-.
  assert (Hev : evicted cn w2 (set_member c m) = (w', c', Ok tt)) by (destruct He as [E|E]; by rewrite E in Hx).
  clear Hx. apply evicted_spec in Hev as (Hm & Hr & w5 & w6 & Hre).
  apply reassign_owned in Hre as [Hd Hb].
  assert (Ha : assignment (c_inner c') = ∅).
  { apply map_eq. intros k. rewrite lookup_empty. apply eq_None_not_Some. rewrite Hd. apply not_elem_of_nil. }
  split; [done|]. split; [apply nothing_buffered; intros k; apply Hb, not_elem_of_nil|].
  split; [by rewrite Hr|]. split; [by rewrite Hm|].
  intros request. unfold join_request. rewrite (assignment_keys_nil _ Ha).
  destruct (collect _ _) as [offers|e'] eqn:Eo; [|done]. cbn. intros [= <-]. cbn.
  split; [by rewrite Hm|]. intros nm payload Hin.
  apply (collect_elem _ _ _ Eo) in Hin as (asg & _ & Hoff). unfold offer in Hoff.
  replace (generation_id (c_member c')) with NO_GENERATION in Hoff by (by rewrite Hm).
  destruct (is_eager asg); cbn in Hoff;
    destruct (encode_subscription _ _ _ _) as [b|e'] eqn:Ee; try done; cbn in Hoff;
    injection Hoff as _ ->;
    apply subscription_decodes in Ee as (d & Ed & _ & Hown & Hgen);
    try (unfold PROTOCOL_VERSION, COOPERATIVE_PROTOCOL_VERSION; lia);
    exists d; (split; [done|]; split; [by apply Permutation_nil_r in Hown|done]).
Qed.

(** The listener was told a list that names the partition with its position, and
    auto-commit stored it, before the assignment moved to what it is. *)
Definition announced `{KafkaProtocol} {W} (cn : ClassicNet W) (c c' : ClassicConsumer) (k : Key)
    (a : Assigned) : Prop :=
  exists w1 m told target w2 w3,
    {| rp_topic := k.1; rp_partition := k.2; rp_position := position_ a |} ∈ told
    /\ settle cn w1 (set_revoke (set_member c m) (Some told)) = (w2, set_revoke (set_member c m) None)
    /\ reassign (net (base cn)) w2 (c_inner c) target = (w3, c_inner c', Ok tt).

Lemma revoke_announces `{KafkaProtocol} {W} (cn : ClassicNet W) c c' m k a keys target w1 w2 c2 w3 :
  k ∈ keys -> assignment (c_inner c) !! k = Some a ->
  match keys with [] => (w1, set_member c m) | _ => revoke_now cn w1 (set_member c m) keys end
  = (w2, c2) ->
  reassign (net (base cn)) w2 (c_inner c2) target = (w3, c_inner c', Ok tt) ->
  announced cn c c' k a.
Proof.
  intros Hk Ha. destruct keys as [|k0 keys]; [by apply elem_of_nil in Hk|]. intros Hr.
  pose proof (revoke_now_keeps cn w1 (set_member c m) (k0 :: keys)) as Hn. rewrite Hr in Hn.
  cbn [snd] in Hn. subst c2. cbn [c_inner set_revoke set_member]. intros Hre.
  exists w1, m, (revoked_positions (c_inner c) (k0 :: keys)), target, w2, w3.
  split; [by apply revoked_positions_elem|]. by split.
Qed.

(** A revocation is announced before it is carried out: when a cycle makes a consumer
    stop reading a partition, either the list of what is revoked, which the listener
    is told and auto-commit stores before the assignment moves, names it with its
    position; or the coordinator admitted the member under an eager protocol, whose
    heartbeat announces everything held before the join. *)
Theorem classic_revocation_is_announced `{KafkaProtocol, GroupCodec, Batch.RecordCodec} {W}
    (cn : ClassicNet W) (w w' : W) (c c' : ClassicConsumer) (go : bool) (k : Key) (a : Assigned) :
  cycle cn w c = (w', c', Ok go) ->
  assignment (c_inner c) !! k = Some a -> assignment (c_inner c') !! k = None ->
  announced cn c c' k a \/ (rejoin c = true /\ cooperative (c_member c') = false).
Proof.
  intros Hc Hk Hk'. destruct (rejoin c) eqn:Erj.
  2: { unfold cycle in Hc. rewrite Erj in Hc. apply heartbeat_keeps in Hc as (_ & _ & Hi & _).
       rewrite Hi in Hk'. congruence. }
  destruct (cycle_joins cn w c w' c' go Erj Hc) as (_ & w1 & sizes & w2 & m & joined & _ & _ & Hx).
  assert (Hheld : k ∈ assignment_keys (c_inner c)) by (apply assignment_keys_elem; by exists a).
  destruct joined as [assigned|e].
  - pose proof (adopt_spec cn _ _ _ _ _ _ Hx) as (Hm & (w3 & w4 & Hre) & _).
    apply reassign_owned in Hre as [Hd _].
    destruct (cooperative m) eqn:Eco; [left|right; by rewrite Hm].
    unfold adopt in Hx. cbn [c_member set_member] in Hx. rewrite Eco in Hx. cbv zeta in Hx.
    destruct (match filter _ _ with [] => _ | _ => _ end) as [w5 c5] eqn:Er.
    destruct (reassign _ w5 _ assigned) as [[w6 i] [[]|e]] eqn:Ere; [|done].
    assert (Hi : i = c_inner c') by (by injection Hx as _ <-). subst i.
    refine (revoke_announces cn c c' m k a _ assigned w2 w5 c5 w6 _ Hk Er Ere).
    apply list_elem_of_filter. split; [|done]. intros Hin%elem_of_list_to_set.
    apply Hd in Hin. rewrite Hk' in Hin. by destruct Hin.
  - left. assert (Hev : evicted cn w2 (set_member c m) = (w', c', Ok tt)).
    { destruct (Error.code_of e) as [[]|]; try done; destruct Hx as [_ ->]; cbn in Hk'; congruence. }
    clear Hx. unfold evicted in Hev. cbn [c_inner set_member] in Hev. cbv zeta in Hev.
    destruct (match assignment_keys _ with [] => _ | _ => _ end) as [w5 c5] eqn:Er.
    destruct (reassign _ w5 _ []) as [[w6 i] r] eqn:Ere.
    injection Hev as _ <- ->.
    exact (revoke_announces cn c (set_inner c5 i) (forget m) k a _ [] w2 w5 c5 w6 Hheld Hk Er Ere).
Qed.

(** What a member was set up with. *)
Definition settings (g : GroupConsumer)
    : bool * bool * string * list string * option string :=
  (auto_commit g, listener g, m_group_id (membership g), Membership.subscription (membership g),
   instance_id (membership g)).

Lemma settle_settings `{KafkaProtocol} {W} (gn : GroupNet W) w g :
  settings (GroupConsumer.settle gn w g).1.2 = settings g.
Proof.
  unfold GroupConsumer.settle. destruct (pending g) as [p|]; [|done].
  destruct (pending_is_empty p); [done|]. by destruct (reassign _ _ _ _) as [[w1 i] [[]|e]].
Qed.

Lemma beat_settings `{KafkaProtocol} {W} (gn : GroupNet W) w m ids w' m' r :
  beat (ask_heartbeat gn) (now gn) (draw_id gn) w m ids = (w', m', r) ->
  (m_group_id m', Membership.subscription m', instance_id m')
  = (m_group_id m, Membership.subscription m, instance_id m).
Proof.
  unfold beat. cbn [build]. destruct (ask_heartbeat _ _ _ _) as [w1 [resp|e]]; [|by intros [= _ <- _]].
  destruct (now gn w1) as [w2 t].
  destruct (ErrorCode.from_code (hr_error_code resp)) as [code|].
  - destruct (membership_lost code); [|by intros [= _ <- _]].
    destruct (draw_id gn w2) as [w3 id]. by intros [= _ <- _].
  - unfold apply_response. by destruct (hr_assignment resp); intros [= _ <- _].
Qed.

Lemma heartbeat_settings `{KafkaProtocol} {W} (gn : GroupNet W) w g :
  settings (GroupConsumer.heartbeat gn w g).1.2 = settings g.
Proof.
  unfold GroupConsumer.heartbeat. destruct (beat _ _ _ _ _ _) as [[w1 m] r] eqn:Eb.
  apply beat_settings in Eb.
  assert (Hm : settings (with_membership g m) = settings g)
    by (injection Eb as E1 E2 E3; unfold settings; cbn; by rewrite E1, E2, E3).
  destruct r as [outcome|e]; [|exact Hm]. destruct (changed outcome); [|exact Hm].
  by rewrite settle_settings.
Qed.

Lemma poll_settings `{KafkaProtocol, Batch.RecordCodec} {W} (gn : GroupNet W) w g :
  settings (GroupConsumer.poll gn w g).1.2 = settings g.
Proof.
  unfold GroupConsumer.poll. pose proof (settle_settings gn w (latch g)) as Hs.
  destruct (GroupConsumer.settle gn w (latch g)) as [[w1 g1] [[]|e]]; [|exact Hs].
  destruct (now gn w1) as [w2 t]. cbn [fst snd] in Hs.
  pose proof (heartbeat_settings gn w2 g1) as Hh.
  assert (Hp : forall w3 g2, settings g2 = settings g1 ->
    settings (let '(w4, i, records) := Consumer.poll (net gn) w3 (inner g2) in
              (w4, with_inner g2 i, records)).1.2 = settings g).
  { intros w3 g2 E. destruct (Consumer.poll (net gn) w3 (inner g2)) as [[w4 i] got]. cbn.
    change (settings g2 = settings g). by rewrite E, Hs. }
  destruct (beat_due _ _); [|by apply Hp].
  destruct (GroupConsumer.heartbeat gn w2 g1) as [[w3 g2] [[]|e]]; [by apply Hp|].
  cbn [fst snd] in *. by rewrite Hh, Hs.
Qed.

(** The protocol is only changed before the coordinator ever admitted the member, and
    only on a refusal of the protocol; the consumer that takes over has the caller's
    group, subscription, instance id, auto-commit choice and listener, owns nothing,
    and has yet to join. A member that had joined stays what it is. *)
Theorem downgrade_only_before_joining `{KafkaProtocol, GroupCodec, Batch.RecordCodec} {W}
    (cn : ClassicNet W) (w w' : W) (g : GroupConsumer) (n : NegotiatedConsumer)
    (r : result (list Batch.DRecord) Error.Error) :
  NegotiatedConsumer.poll cn w (NegotiatedConsumer.Group g) = (w', n, r) ->
  match n with
  | NegotiatedConsumer.Group g' => ever_joined g' = ever_joined g || has_joined (membership g)
  | AsClassic c =>
      r = Ok [] /\ ever_joined g = false /\ has_joined (membership g) = false
      /\ (exists w1 g1 e, GroupConsumer.poll (base cn) w g = (w1, g1, Err e)
            /\ refuses_consumer_protocol e = true /\ has_joined (membership g1) = false)
      /\ settings g = (c_auto_commit c, c_listener c, c_group_id (c_member c), subscription c,
                       c_instance_id (c_member c))
      /\ rejoin c = true /\ generation_id (c_member c) = NO_GENERATION
      /\ assignment (c_inner c) = ∅
  end.
Proof.
  unfold NegotiatedConsumer.poll. pose proof (poll_latched (base cn) w g) as Hl.
  pose proof (poll_settings (base cn) w g) as Hs.
  destruct (GroupConsumer.poll (base cn) w g) as [[w1 g1] [l|e]] eqn:Ep; cbn [fst snd] in Hl, Hs.
  { by intros [= _ <- _]. }
  destruct (downgradable g1 && refuses_consumer_protocol e) eqn:Ed; [|by intros [= _ <- _]].
  apply andb_true_iff in Ed as [Ed Er]. unfold downgradable in Ed.
  apply andb_true_iff in Ed as [Ev Eh]. apply negb_true_iff in Ev, Eh.
  rewrite Ev in Hl. symmetry in Hl. apply orb_false_iff in Hl as [Hj Hh].
  cbn [handoff]. unfold resubscribe. cbn [h_config h_group_id h_subscription h_instance_id h_auto_commit h_listener].
  destruct (ClassicConsumer.subscribe cn w1 _ _ _) as [w2 [c|e2]] eqn:Es; cbn [result_bind];
    [|intros [= _ <- _]; cbn; by rewrite Ev, Hj, Hh].
  intros [= _ <- <-].
  unfold ClassicConsumer.subscribe in Es. destruct (check_timeout_ordering _); [|done].
  unfold learn_topics in Es. destruct (refresh_topics _ _ _) as [w3 [s|e3]]; [|done].
  injection Es as _ <-. split; [done|]. split; [done|]. split; [done|].
  split; [by exists w1, g1, e|]. rewrite <- Hs.
  by destruct (instance_id (membership g1)) eqn:Ei; unfold settings; rewrite Ei.
Qed.

(** The sizes the leader works with are those of its own subscription. *)
Lemma partition_counts_own {W} (cn : ClassicNet W) w c w' sizes t :
  partition_counts cn w c = (w', Ok sizes) -> t ∉ subscription c -> sizes !! t = None.
Proof.
  unfold partition_counts. destruct (topic_sizes cn w _) as [w1 [snapshot|e]]; [|done]. cbn.
  intros [= _ <-]. assert (G : forall l (out : gmap string Z), out !! t = None -> t ∉ l ->
    foldl (fun out topic => match snapshot !! topic with
                            | Some count => <[topic := try_from_or I32_MAX 0 count]> out
                            | None => out
                            end) out l !! t = None).
  { induction l as [|x l IH]; intros out Ho Hn; [done|]. apply not_elem_of_cons in Hn as [Hx Hn].
    cbn [foldl]. apply IH; [|done]. destruct (snapshot !! x); [|done].
    by rewrite lookup_insert_ne. }
  by apply G.
Qed.

(** A topic the leader does not subscribe to is assigned to nobody, whoever else in
    the group wants it: the leader only asks for the sizes of its own topics. *)
Theorem others_topics_are_unassigned {W} (cn : ClassicNet W) (w w' : W) (c : ClassicConsumer)
    (sizes : gmap string Z) (protocol : string) (members : list MemberSubscription) (t : string) :
  partition_counts cn w c = (w', Ok sizes) -> t ∉ subscription c ->
  sized members sizes ->
  Z.of_nat (length (all_partitions sizes) * length members) < 2 ^ 64 ->
  (forall a, a ∈ members -> owned a = []) ->
  forall m, parts (assign protocol members sizes) m t = [].
Proof.
  intros Hc Ht Hs Hw Ho m. apply (partition_counts_own _ _ _ _ _ t Hc) in Ht.
  destruct (assign_shares protocol members sizes Hs Hw Ho) as [Sw _ _ _].
  destruct (parts _ m t) as [|p l] eqn:E; [done|].
  destruct (Sw m t p) as [(x & Hx & _) _]; [rewrite E; left|]. congruence.
Qed.

(** ** Witnesses *)

(** A coordinator that answers from a script, and a listener that keeps a log. *)
Module ClassicDemo.
Import ConsumerDemo.

#[export] Instance classic_protocol : KafkaProtocol := {|
  try_from_code c :=
    if c =? 0 then None
    else if c =? 25 then Some ResponseError.UnknownMemberId
    else if c =? 27 then Some ResponseError.RebalanceInProgress
    else if c =? 79 then Some ResponseError.MemberIdRequired
    else Some ResponseError.UnsupportedVersion;
  is_retriable _ := true;
|}.

#[export] Existing Instance demo_codec.

(** The bits of a number, as bytes. *)
Fixpoint bits (p : positive) : bytes :=
  match p with xH => [] | xO p => Byte.x00 :: bits p | xI p => Byte.x01 :: bits p end.

Fixpoint unbits (l : bytes) : positive :=
  match l with
  | [] => xH
  | Byte.x00 :: l => xO (unbits l)
  | _ :: l => xI (unbits l)
  end.

Lemma unbits_bits p : unbits (bits p) = p.
Proof. induction p; cbn; by f_equal. Qed.

Definition unpack {A} `{Countable A} (body : bytes) : result A string :=
  match decode (unbits body) with Some x => Ok x | None => Err "malformed"%string end.

Lemma unpack_bits {A} `{Countable A} (x : A) : unpack (bits (encode x)) = Ok x.
Proof. unfold unpack. by rewrite unbits_bits, decode_encode. Qed.

(** A codec that writes the fields of the version. *)
#[export] Instance bit_codec : GroupCodec := {|
  subscription_max := 3;
  encode_subscription_body s v :=
    Ok (bits (encode (sd_topics s, if 1 <=? v then sd_owned s else [],
                      if 2 <=? v then sd_generation s else NO_GENERATION)));
  decode_subscription_body body _ :=
    match unpack body with
    | Ok (wanted, held, g) => Ok {| sd_topics := wanted; sd_owned := held; sd_generation := g |}
    | Err e => Err e
    end;
  encode_assignment_body l _ := Ok (bits (encode l));
  decode_assignment_body body _ := unpack body;
|}.

#[export] Instance bit_codec_laws : GroupCodecLaws.
Proof.
  split.
  - unfold COOPERATIVE_PROTOCOL_VERSION. cbn. lia.
  - intros s v body Hv H1 H2. cbn. intros [= <-]. rewrite unpack_bits. destruct s as [t o g]. cbn in *.
    f_equal. f_equal.
    + destruct (Z.leb_spec 1 v); [done|]. symmetry. apply H1. lia.
    + destruct (Z.leb_spec 2 v); [done|]. symmetry. apply H2. lia.
  - intros l body. cbn. intros [= <-]. apply unpack_bits.
Qed.

Record Script : Type := {
  joins : list JoinGroupResponse;
  syncs : list SyncGroupResponse;
  beats : list Z;
}.

Inductive Event : Type := Revoked (l : list RevokedPartition) | Gained (l : list Key).

Abbreviation World := (nat * (Script * list Event))%type.

Definition refused (code : Z) : JoinGroupResponse :=
  {| jn_error_code := code; jn_generation_id := -1; jn_protocol_name := None; jn_leader := "";
     jn_member_id := "m1"; jn_members := [] |}.

(** Admitted under a protocol, somebody else leading. *)
Definition admitted (protocol : string) : JoinGroupResponse :=
  {| jn_error_code := 0; jn_generation_id := 5; jn_protocol_name := Some protocol; jn_leader := "l";
     jn_member_id := "m1"; jn_members := [] |}.

Definition synced_to (parts : list Z) : SyncGroupResponse :=
  {| sy_error_code := 0;
     sy_assignment := match encode_assignment {["t"%string := parts]} with
                      | Ok b => b | Err _ => [] end |}.

Definition demo_classic : ClassicNet World := {|
  base := {|
    net := demo_net;
    ask_heartbeat w group request := (w, Err (Error.from_code ErrorCode.UnsupportedVersion None));
    now w := (w, 10 * Retry.SECOND);
    draw_id w := (w, "fresh"%string);
    on_revoke '(n, (script, log)) told := (n, (script, log ++ [Revoked told]));
    on_assign '(n, (script, log)) told := (n, (script, log ++ [Gained told]));
  |};
  ask_join '(n, (s, log)) group deadline request :=
    ((n, ({| joins := tail (joins s); syncs := syncs s; beats := beats s |}, log)),
     Ok (default (refused 35) (head (joins s))));
  ask_sync '(n, (s, log)) group deadline request :=
    ((n, ({| joins := joins s; syncs := tail (syncs s); beats := beats s |}, log)),
     Ok (default (synced_to []) (head (syncs s))));
  heartbeat_code '(n, (s, log)) group request :=
    ((n, ({| joins := joins s; syncs := syncs s; beats := tail (beats s) |}, log)),
     Ok (default 0 (head (beats s))));
  send_leave w group request := w;
  topic_sizes w wanted := (w, Ok {["t"%string := 2]});
|}.

Definition script (j : list JoinGroupResponse) (s : list SyncGroupResponse) (b : list Z) : World :=
  (0%nat, ({| joins := j; syncs := s; beats := b |}, [])).

(** A member of partition 0 at offset 10, under a protocol. *)
Definition demo_member (protocol : string) (again : bool) : ClassicConsumer := {|
  c_inner := demo_consumer 10 [];
  c_member := with_member (ClassicMembership.new "g" ["t"%string] None 1 1) "m1" 4 false protocol;
  subscription := ["t"%string]; c_auto_commit := true; rejoin := again; c_listener := true;
  pending_revoke := None |}.

(** Subscribed to topic t, nothing else set. *)
Definition fresh_consumer : ClassicConsumer := {|
  c_inner := with_topic_ids (Consumer.new (in_group demo_config "g")) {["t"%string := demo_id]};
  c_member := ClassicMembership.new "g" ["t"%string] None 1 1;
  subscription := ["t"%string]; c_auto_commit := true; rejoin := true; c_listener := false;
  pending_revoke := None |}.

Lemma fresh_reachable : reachable demo_classic fresh_consumer.
Proof. by apply (reach_subscribe demo_classic (script [] [] []) demo_config "g" ["t"%string] (script [] [] [])). Qed.

End ClassicDemo.
Import ConsumerDemo ClassicDemo.
#[local] Existing Instance classic_protocol.

(** A new member: the handshake of KIP-394, the join, and the first read, in one poll. *)
Lemma classic_reads_what_it_was_answered_witness :
  exists w' c' records,
    ClassicConsumer.poll demo_classic
      (script [refused 79; admitted RANGE] [synced_to [0]] [0; 0]) fresh_consumer = (w', c', Ok records)
    /\ length records = 2%nat
    /\ forall r, r ∈ records -> rejoin c' = false /\ synced demo_classic c'
         /\ is_Some (assignment (c_inner c') !! record_key r).
Proof.
  destruct (ClassicConsumer.poll demo_classic
      (script [refused 79; admitted RANGE] [synced_to [0]] [0; 0]) fresh_consumer)
    as [[w' c'] r0] eqn:E.
  assert (Hv : match r0 with Ok l => length l = 2%nat | Err _ => False end).
  { change r0 with (w', c', r0).2. rewrite <- E. vm_compute. reflexivity. }
  destruct r0 as [records|e]; [|destruct Hv]. exists w', c', records.
  split; [reflexivity|]. split; [exact Hv|]. intros r Hr.
  apply (classic_reads_what_it_was_answered demo_classic
           (script [refused 79; admitted RANGE] [synced_to [0]] [0; 0]) w' fresh_consumer c' records r).
  - exact fresh_reachable.
  - exact E.
  - exact Hr.
Defined.

Definition demo_plain (id : string) (wants : list string) : MemberSubscription :=
  {| Assignor.member_id := id; topics := wants; owned := []; generation := -1 |}.

(** The first member owns all three partitions, the second has just joined. *)
Definition demo_group_members : list MemberSubscription :=
  [{| Assignor.member_id := "m1"; topics := ["t"%string];
      owned := map (pair "t"%string) [0; 1; 2]; generation := 4 |};
   demo_plain "m2" ["t"%string]].

Definition demo_sizes : gmap string Z := {["t"%string := 3]}.

Lemma demo_sized : sized demo_group_members demo_sizes.
Proof.
  split.
  - refine (bool_decide_unpack _ _). vm_compute. exact I.
  - vm_compute. discriminate.
  - intros t c Hc. unfold demo_sizes in Hc. apply lookup_singleton_Some in Hc as [_ <-].
    unfold I32_MAX. lia.
Qed.

Definition demo_leader : ClassicMembership :=
  with_member (ClassicMembership.new "g" ["t"%string] None 1 1) "m1" 5 true COOPERATIVE_STICKY.

(** Partition 0 is to move to the second member, and is in no payload of the round;
    partition 2 stays, in one. *)
Lemma leader_answer_covers_group_witness :
  exists answer, assignments demo_leader demo_group_members demo_sizes = Ok answer
  /\ (forall id payload keys, (id, payload) ∈ answer -> decode_assignment payload = Ok keys ->
        ("t"%string, 0) ∉ keys)
  /\ exists id, forall id', id' = id <->
       exists payload keys, (id', payload) ∈ answer /\ decode_assignment payload = Ok keys
         /\ ("t"%string, 2) ∈ keys.
Proof.
  assert (H0 : withheld (ClassicMembership.protocol demo_leader) demo_group_members demo_sizes
                 ("t"%string, 0) = true) by (vm_compute; reflexivity).
  assert (H2 : withheld (ClassicMembership.protocol demo_leader) demo_group_members demo_sizes
                 ("t"%string, 2) = false) by (vm_compute; reflexivity).
  destruct (assignments demo_leader demo_group_members demo_sizes) as [answer|e] eqn:E.
  - exists answer. split; [reflexivity|].
    destruct (leader_answer_covers_group demo_leader demo_group_members demo_sizes answer eq_refl
                demo_sized ltac:(vm_compute; reflexivity) E) as [_ Hall].
    split.
    + pose proof (Hall "t"%string 3 0 (demo_plain "m2" ["t"%string]) eq_refl ltac:(lia)
                    ltac:(right; left) ltac:(left)) as Hx.
      cbv zeta in Hx. rewrite H0 in Hx. destruct Hx as [_ Hx].
      intros id payload keys Hp Hk Hin. apply (Hx id). exists payload, keys. auto.
    + pose proof (Hall "t"%string 3 2 (demo_plain "m2" ["t"%string]) eq_refl ltac:(lia)
                    ltac:(right; left) ltac:(left)) as Hx.
      cbv zeta in Hx. rewrite H2 in Hx. exact Hx.
  - exfalso. assert (Hv : is_ok (assignments demo_leader demo_group_members demo_sizes) = true)
      by (vm_compute; reflexivity).
    rewrite E in Hv. discriminate Hv.
Defined.

(** A member of partition 0 that is answered UNKNOWN_MEMBER_ID. *)
Lemma eviction_lets_go_witness :
  exists w' c', cycle demo_classic (script [refused 25] [] []) (demo_member COOPERATIVE_STICKY true)
    = (w', c', Ok true)
  /\ assignment (c_inner c') = ∅ /\ generation_id (c_member c') = NO_GENERATION.
Proof.
  destruct (cycle demo_classic (script [refused 25] [] []) (demo_member COOPERATIVE_STICKY true))
    as [[w' c'] r] eqn:E.
  assert (Hr : r = Ok true).
  { change r with (w', c', r).2. rewrite <- E. vm_compute. reflexivity. }
  rewrite Hr in E. exists w', c'. split; [rewrite Hr; reflexivity|].
  destruct (eviction_lets_go demo_classic (script [refused 25] [] []) (script [refused 25] [] [])
              (script [] [] []) w' (demo_member COOPERATIVE_STICKY true) c'
              (c_member (demo_member COOPERATIVE_STICKY true)) {["t"%string := 2]}
              (Error.from_code ErrorCode.UnknownMemberId None)) as (Ha & _ & _ & Hg & _).
  - reflexivity.
  - vm_compute. reflexivity.
  - vm_compute. reflexivity.
  - left. reflexivity.
  - exact E.
  - split; [exact Ha|exact Hg].
Defined.

(** The cooperative round takes partition 0 away. *)
Lemma classic_revocation_is_announced_witness :
  exists w' c', cycle demo_classic (script [admitted COOPERATIVE_STICKY] [synced_to [1]] [])
      (demo_member COOPERATIVE_STICKY true) = (w', c', Ok true)
  /\ (announced demo_classic (demo_member COOPERATIVE_STICKY true) c' ("t"%string, 0) (fresh_assigned 10)
      \/ (true = true /\ cooperative (c_member c') = false)).
Proof.
  destruct (cycle demo_classic (script [admitted COOPERATIVE_STICKY] [synced_to [1]] [])
      (demo_member COOPERATIVE_STICKY true)) as [[w' c'] r] eqn:E.
  assert (Hr : r = Ok true).
  { change r with (w', c', r).2. rewrite <- E. vm_compute. reflexivity. }
  assert (Hk : assignment (c_inner c') !! ("t"%string, 0) = None).
  { change c' with (w', c', r).1.2. rewrite <- E. vm_compute. reflexivity. }
  rewrite Hr in E. exists w', c'. split; [rewrite Hr; reflexivity|].
  apply (classic_revocation_is_announced demo_classic
           (script [admitted COOPERATIVE_STICKY] [synced_to [1]] []) w'
           (demo_member COOPERATIVE_STICKY true) c' true ("t"%string, 0) (fresh_assigned 10)).
  - exact E.
  - reflexivity.
  - exact Hk.
Defined.

(** A KIP-848 member whose first heartbeat is refused. *)
Definition refused_member (listens : bool) (config : ConsumerConfig) : GroupConsumer := {|
  inner := with_topic_ids (Consumer.new config) {["t"%string := demo_id]};
  membership := Membership.new "g" ["t"%string] (Some "static"%string) 1 "m";
  ever_joined := false; auto_commit := false; listener := listens; pending := None |}.

Lemma downgrade_only_before_joining_witness :
  exists w' c, NegotiatedConsumer.poll demo_classic (script [] [] [])
      (NegotiatedConsumer.Group (refused_member true demo_config)) = (w', AsClassic c, Ok [])
  /\ settings (refused_member true demo_config)
     = (c_auto_commit c, c_listener c, c_group_id (c_member c), subscription c,
        c_instance_id (c_member c)).
Proof.
  destruct (NegotiatedConsumer.poll demo_classic (script [] [] [])
      (NegotiatedConsumer.Group (refused_member true demo_config))) as [[w' n] r] eqn:E.
  pose proof (downgrade_only_before_joining demo_classic (script [] [] []) w'
                (refused_member true demo_config) n r E) as Hd.
  destruct n as [g'|c].
  - exfalso. assert (Hv : match (w', NegotiatedConsumer.Group g', r).1.2 with
                          | NegotiatedConsumer.Group _ => false | AsClassic _ => true end = true).
    { rewrite <- E. vm_compute. reflexivity. }
    discriminate Hv.
  - destruct Hd as (Hr & _ & _ & _ & Hs & _). exists w', c. rewrite Hr. split; [reflexivity|exact Hs].
Defined.

(** The second member wants topic u, the leader topic t. *)
Lemma others_topics_are_unassigned_witness :
  parts (assign RANGE [demo_plain "m1" ["t"%string]; demo_plain "m2" ["u"%string]] {["t"%string := 2]})
    "m2" "u" = [].
Proof.
  apply (others_topics_are_unassigned demo_classic (script [] [] []) (script [] [] [])
           (demo_member RANGE true)).
  - vm_compute. reflexivity.
  - intros Hin. apply list_elem_of_singleton in Hin. discriminate Hin.
  - split.
    + refine (bool_decide_unpack _ _). vm_compute. exact I.
    + vm_compute. discriminate.
    + intros t c Hc. apply lookup_singleton_Some in Hc as [_ <-]. unfold I32_MAX. lia.
  - vm_compute. reflexivity.
  - intros a Ha. repeat (apply elem_of_cons in Ha as [->|Ha]; [reflexivity|]).
    by apply elem_of_nil in Ha.
Defined.

(** ** What the code leaves undone *)

(** What the listener was told of in a run. *)
Definition log_of {A B} (r : World * A * B) : list Event := r.1.1.2.2.

(** A cooperative member the coordinator admits under an eager protocol never announces
    what it loses: the heartbeat kept everything, as the old protocol was cooperative,
    and the join revokes nothing, as the new one is eager. *)
Example protocol_switch_is_silent :
  let r := ClassicConsumer.poll demo_classic (script [admitted RANGE] [synced_to [1]] [27; 0])
             (demo_member COOPERATIVE_STICKY false) in
  assignment_keys (c_inner r.1.2) = [("t"%string, 1)]
  /\ log_of r = [Gained [("t"%string, 1)]].
Proof. vm_compute. split; reflexivity. Qed.

(** An eager member that was evicted announces what it held twice: once when the
    heartbeat says so, once when the join does. *)
Example eager_eviction_announces_twice :
  let held := {| rp_topic := "t"; rp_partition := 0; rp_position := 10 |} in
  log_of (ClassicConsumer.poll demo_classic
            (script [refused 25; admitted RANGE] [synced_to [0]] [25; 0]) (demo_member RANGE false))
  = [Revoked [held]; Revoked [held]; Gained [("t"%string, 0)]].
Proof. vm_compute. reflexivity. Qed.

(** A consumer pinned to KIP-848 is handed to the classic protocol all the same. *)
Example pinned_consumer_is_downgraded :
  let config := {| max_wait_ms := 500; max_bytes := 1024; partition_max_bytes := 1024;
                   visibility := Batch.CommittedOnly; max_decompressed_bytes := 1024;
                   group_id := Some "g"%string; Consumer.rebalance_timeout_ms := 1;
                   Consumer.session_timeout_ms := 1; group_protocol := ConsumerProtocol;
                   retry := None |} in
  NegotiatedConsumer.protocol
    (NegotiatedConsumer.poll demo_classic (script [] [] [])
       (NegotiatedConsumer.Group (refused_member true config))).1.2 = Classic.
Proof. vm_compute. reflexivity. Qed.

(** A downgrade that fails (here on the order of the timeouts) loses the listener. *)
Example failed_downgrade_loses_the_listener :
  let config := {| max_wait_ms := 500; max_bytes := 1024; partition_max_bytes := 1024;
                   visibility := Batch.CommittedOnly; max_decompressed_bytes := 1024;
                   group_id := Some "g"%string; Consumer.rebalance_timeout_ms := 1;
                   Consumer.session_timeout_ms := 2; group_protocol := Auto; retry := None |} in
  match NegotiatedConsumer.poll demo_classic (script [] [] [])
          (NegotiatedConsumer.Group (refused_member true config)) with
  | (_, NegotiatedConsumer.Group g, Err (Error.InvalidRequest _)) => listener g = false
  | _ => False
  end.
Proof. vm_compute. reflexivity. Qed.

End ClassicProperties.
