(* ===== verification/Scan.v ===== *)
(** The forward scan ([crates/kafka-read/src/scan.rs]) and the one-shot fetch under it
    ([fetch.rs]).

    The cluster handle is the record [ReadNet] over an abstract world; its [list_one]
    stands for [ListOffsets.list_one].  Counters of records are not wrapped. *)

From S2P Require Import Prelude Sanitize ErrorCodes Retry BatchDecode Fetch Coordinator.
From Stdlib Require Import QArith Qminmax.
Open Scope Z_scope.

Module ReadFetch.
Import Fetcher.

Record FetchTarget : Type := { ft_partition : Z; ft_offset : Z; ft_max_bytes : Z }.

Record FetchedPartition : Type := {
  f_partition : Z;
  f_records : bytes;
  f_high_watermark : Z;
  f_last_stable_offset : Z;
  f_log_start_offset : Z;
  f_aborted : list Batch.AbortedTransaction;
}.

(** Name a topic the way the version expects. *)
Definition fetch_topic (topic : string) (topic_id : bytes) (version : Z)
    (partitions : list FetchPartition) : result FetchTopic Error.Error :=
  if FETCH_TOPIC_ID_VERSION <=? version then
    if is_zero topic_id then
      Err (Error.InvalidRequest
             (topic +:+ ": Fetch v" +:+ pretty version
              +:+ " identifies topics by id, and no topic id is known"))
    else Ok {| ft_topic := ""; ft_topic_id := topic_id; ft_partitions := partitions |}
  else Ok {| ft_topic := topic; ft_topic_id := ZERO_ID; ft_partitions := partitions |}.

Definition request (topic : FetchTopic) (max_wait max_bytes : Z) (visibility : Batch.Visibility)
    : FetchRequest := {|
  replica_id := CONSUMER_REPLICA_ID;
  max_wait_ms := max_wait;
  min_bytes := 1;
  req_max_bytes := max_bytes;
  isolation_level := match visibility with Batch.All => 0 | Batch.CommittedOnly => 1 end;
  req_session_id := 0;
  req_session_epoch := -1;
  topics := [topic];
  forgotten_topics_data := [];
|}.

Section fetch.
Context `{KafkaProtocol}.

(** The partitions of an answer, up to the first that carries an error. *)
Fixpoint read_partitions (topic : string) (l : list PartitionData)
    : result (list FetchedPartition) Error.Error :=
  match l with
  | [] => Ok []
  | p :: l =>
      match ErrorCode.from_code (pd_error_code p) with
      | Some code =>
          Err (Error.from_code code
                 (Some (text_of_string (topic +:+ "-" +:+ pretty (pd_partition_index p)))))
      | None =>
          let? rest := read_partitions topic l in
          Ok ({| f_partition := pd_partition_index p; f_records := default [] (pd_records p);
                 f_high_watermark := pd_high_watermark p;
                 f_last_stable_offset := pd_last_stable_offset p;
                 f_log_start_offset := pd_log_start_offset p;
                 f_aborted := map (fun '(producer_id, first_offset) =>
                                     {| Batch.at_producer_id := producer_id;
                                        Batch.first_offset := first_offset |})
                                (default [] (pd_aborted_transactions p)) |} :: rest)
      end
  end.

Definition fetch {W} (cluster : Cluster W) (w : W) (topic : string) (topic_id : bytes)
    (targets : list FetchTarget) (max_wait max_bytes : Z) (visibility : Batch.Visibility)
    : W * result (list FetchedPartition) Error.Error :=
  match targets with
  | [] => (w, Ok [])
  | _ =>
      let '(w, version) := negotiated_for cluster w in
      match version with
      | Err e => (w, Err e)
      | Ok version =>
          let partitions :=
            map (fun target => {| fp_partition := ft_partition target;
                                  fp_current_leader_epoch := -1;
                                  fp_fetch_offset := ft_offset target;
                                  fp_last_fetched_epoch := -1; fp_log_start_offset := -1;
                                  fp_partition_max_bytes := ft_max_bytes target |}) targets in
          match fetch_topic topic topic_id version partitions with
          | Err e => (w, Err e)
          | Ok named =>
              let '(w, response) := send_to_node cluster w (request named max_wait max_bytes visibility) in
              (w, let? response := response in
                  match ErrorCode.from_code (error_code response) with
                  | Some code => Err (Error.from_code code None)
                  | None => read_partitions topic (concat (map tr_partitions (responses response)))
                  end)
          end
      end
  end.

End fetch.

End ReadFetch.

Module Scan.
Import ReadFetch.

Inductive StartPosition : Type := Earliest | Latest | Offset (offset : Z) | Timestamp (t : Z).

(** A closure of the caller is a function. *)
Inductive RecordFilter : Type :=
  | KeyContains (needle : bytes)
  | ValueContains (needle : bytes)
  | HasHeader (name : string)
  | TombstonesOnly
  | Custom (predicate : Batch.DRecord -> bool).

(** [windows]: the needle at some position. *)
Fixpoint windows_any (haystack needle : bytes) : bool :=
  bool_decide (take (length needle) haystack = needle)
  || match haystack with [] => false | _ :: haystack => windows_any haystack needle end.

Definition contains (haystack needle : bytes) : bool :=
  match needle with [] => true | _ => windows_any haystack needle end.

(** [Record::is_tombstone]. *)
Definition is_tombstone (r : Batch.DRecord) : bool :=
  match Batch.r_value r with None => true | Some _ => false end.

Definition matches (self : RecordFilter) (record : Batch.DRecord) : bool :=
  match self with
  | KeyContains needle =>
      match Batch.r_key record with Some k => contains k needle | None => false end
  | ValueContains needle =>
      match Batch.r_value record with Some v => contains v needle | None => false end
  | HasHeader name => existsb (fun '(key, _) => bool_decide (key = name)) (Batch.r_headers record)
  | TombstonesOnly => is_tombstone record
  | Custom predicate => predicate record
  end.

(** Whether a filter, if there is one, lets a record through. *)
Definition passes (filter : option RecordFilter) (record : Batch.DRecord) : bool :=
  match filter with Some f => matches f record | None => true end.

Record ScanSpec : Type := {
  topic : string;
  partitions : option (list Z);
  from : StartPosition;
  limit : option Z;
  follow : bool;
  record_filter : option RecordFilter;
  visibility : Batch.Visibility;
  partition_max_bytes : Z;
  fetch_max_bytes : Z;
  max_wait_ms : Z;
  max_buffered_records : Z;
  max_decompressed_bytes : Z;
}.

Definition new (topic : string) : ScanSpec := {|
  topic := topic; partitions := None; from := Earliest; limit := None; follow := false;
  record_filter := None; visibility := Batch.visibility Batch.default_options;
  partition_max_bytes := 1024 * 1024; fetch_max_bytes := 8 * 1024 * 1024; max_wait_ms := 500;
  max_buffered_records := 10000; max_decompressed_bytes := 64 * 1024 * 1024 |}.

(** The builder methods (those of the byte budgets and the wait only set their field). *)
Definition with_partitions (x : list Z) (self : ScanSpec) : ScanSpec := {|
  topic := topic self; partitions := Some x; from := from self; limit := limit self;
  follow := follow self; record_filter := record_filter self;
  visibility := visibility self; partition_max_bytes := partition_max_bytes self;
  fetch_max_bytes := fetch_max_bytes self; max_wait_ms := max_wait_ms self;
  max_buffered_records := max_buffered_records self;
  max_decompressed_bytes := max_decompressed_bytes self |}.

Definition with_from (x : StartPosition) (self : ScanSpec) : ScanSpec := {|
  topic := topic self; partitions := partitions self; from := x; limit := limit self;
  follow := follow self; record_filter := record_filter self;
  visibility := visibility self; partition_max_bytes := partition_max_bytes self;
  fetch_max_bytes := fetch_max_bytes self; max_wait_ms := max_wait_ms self;
  max_buffered_records := max_buffered_records self;
  max_decompressed_bytes := max_decompressed_bytes self |}.

Definition with_limit (x : Z) (self : ScanSpec) : ScanSpec := {|
  topic := topic self; partitions := partitions self; from := from self; limit := Some x;
  follow := follow self; record_filter := record_filter self;
  visibility := visibility self; partition_max_bytes := partition_max_bytes self;
  fetch_max_bytes := fetch_max_bytes self; max_wait_ms := max_wait_ms self;
  max_buffered_records := max_buffered_records self;
  max_decompressed_bytes := max_decompressed_bytes self |}.

Definition with_follow (self : ScanSpec) : ScanSpec := {|
  topic := topic self; partitions := partitions self; from := from self;
  limit := limit self; follow := true; record_filter := record_filter self;
  visibility := visibility self; partition_max_bytes := partition_max_bytes self;
  fetch_max_bytes := fetch_max_bytes self; max_wait_ms := max_wait_ms self;
  max_buffered_records := max_buffered_records self;
  max_decompressed_bytes := max_decompressed_bytes self |}.

Definition with_filter (x : RecordFilter) (self : ScanSpec) : ScanSpec := {|
  topic := topic self; partitions := partitions self; from := from self;
  limit := limit self; follow := follow self; record_filter := Some x;
  visibility := visibility self; partition_max_bytes := partition_max_bytes self;
  fetch_max_bytes := fetch_max_bytes self; max_wait_ms := max_wait_ms self;
  max_buffered_records := max_buffered_records self;
  max_decompressed_bytes := max_decompressed_bytes self |}.

Definition with_visibility (x : Batch.Visibility) (self : ScanSpec) : ScanSpec := {|
  topic := topic self; partitions := partitions self; from := from self;
  limit := limit self; follow := follow self; record_filter := record_filter self;
  visibility := x; partition_max_bytes := partition_max_bytes self;
  fetch_max_bytes := fetch_max_bytes self; max_wait_ms := max_wait_ms self;
  max_buffered_records := max_buffered_records self;
  max_decompressed_bytes := max_decompressed_bytes self |}.

Definition with_max_buffered_records (x : Z) (self : ScanSpec) : ScanSpec := {|
  topic := topic self; partitions := partitions self; from := from self;
  limit := limit self; follow := follow self; record_filter := record_filter self;
  visibility := visibility self; partition_max_bytes := partition_max_bytes self;
  fetch_max_bytes := fetch_max_bytes self; max_wait_ms := max_wait_ms self;
  max_buffered_records := x; max_decompressed_bytes := max_decompressed_bytes self |}.

Definition decode_options (self : ScanSpec) : Batch.DecodeOptions :=
  {| Batch.max_decompressed_bytes := max_decompressed_bytes self;
     Batch.visibility := visibility self |}.

Record ScanProgress : Type := {
  records_emitted : Z;
  records_scanned : Z;
  malformed_batches : Z;
  offsets_consumed : Z;
  offsets_total : Z;
  partitions_active : Z;
  partitions_planned : Z;
  reorder_window : Z;
}.

(** Up to the rounding of the division. *)
Definition fraction (self : ScanProgress) : option Q :=
  if offsets_total self <=? 0 then None
  else
    let consumed := try_from_or U32_MAX U32_MAX (Z.max (offsets_consumed self) 0) in
    let total := try_from_or U32_MAX U32_MAX (Z.max (offsets_total self) 1) in
    Some (Qmax 0 (Qmin 1 (inject_Z consumed / inject_Z total)))%Q.

Inductive StartSubstitution : Type :=
  | OffsetBelowLogStart (requested log_start : Z)
  | OffsetBeyondLogEnd (requested log_end : Z)
  | TimestampUnresolved (requested log_end : Z).

Inductive ScanEvent : Type :=
  | PartitionStarted (partition start_offset : Z) (substituted : option StartSubstitution)
  | RecordEvent (record : Batch.DRecord)
  | MalformedEvent (topic : string) (partition offset : Z) (last : option Z) (raw : bytes)
      (reason : Batch.DecodeError)
  | Progress (progress : ScanProgress)
  | PartitionComplete (partition last_offset : Z)
  | Done (progress : ScanProgress).

Definition should_fetch (behind follow idle : bool) : bool := behind || (follow && idle).

Record PartitionCursor : Type := {
  c_partition : Z;
  c_leader : Z;
  next_offset : Z;
  end_offset : Z;
  start_offset : Z;
  substituted : option StartSubstitution;
  buffered : list Batch.RecordOutcome;
  finished : bool;
}.

Definition set_reading (c : PartitionCursor) (next_offset end_offset : Z)
    (buffered : list Batch.RecordOutcome) (finished : bool) : PartitionCursor := {|
  c_partition := c_partition c; c_leader := c_leader c; next_offset := next_offset;
  end_offset := end_offset; start_offset := start_offset c; substituted := substituted c;
  buffered := buffered; finished := finished |}.

(** The substitution is moved into the event that announces it. *)
Definition take_substituted (c : PartitionCursor) : PartitionCursor := {|
  c_partition := c_partition c; c_leader := c_leader c; next_offset := next_offset c;
  end_offset := end_offset c; start_offset := start_offset c; substituted := None;
  buffered := buffered c; finished := finished c |}.

Definition exhausted (self : PartitionCursor) : bool :=
  finished self || (end_offset self <=? next_offset self).

(** Nothing left to read and nothing left to emit. *)
Definition drained (self : PartitionCursor) : bool :=
  exhausted self && bool_decide (buffered self = []).

Definition outcome_timestamp (o : Batch.RecordOutcome) : Z :=
  match o with
  | Batch.Decoded record => Batch.r_timestamp record
  | Batch.Malformed _ _ _ _ => I64_MIN
  end.

Definition head_timestamp (self : PartitionCursor) : option Z :=
  outcome_timestamp <$> head (buffered self).

(** [RecordOutcome::last_offset]. *)
Definition last_offset_of (o : Batch.RecordOutcome) : Z :=
  match o with
  | Batch.Decoded record => Batch.r_offset record
  | Batch.Malformed offset last _ _ => Z.max (default offset last) offset
  end.

Definition is_malformed (o : Batch.RecordOutcome) : bool :=
  match o with Batch.Malformed _ _ _ _ => true | Batch.Decoded _ => false end.

Definition reorder_window_of (budget merging : Z) : Z :=
  if merging <=? 1 then 0 else budget / merging.

Definition resolve_offset_start (requested earliest latest : Z)
    : Z * option StartSubstitution :=
  if requested <? earliest then (earliest, Some (OffsetBelowLogStart requested earliest))
  else if latest <? requested then (latest, Some (OffsetBeyondLogEnd requested latest))
  else (requested, None).

Record ScanState : Type := {
  spec : ScanSpec;
  topic_id : bytes;
  cursors : list PartitionCursor;
  progress : ScanProgress;
  pending : list ScanEvent;
  buffered_total : Z;
  done_ : bool;
  next_progress_at : Z;
}.

Definition PROGRESS_EVERY : Z := 1000.

Definition set_state (s : ScanState) (cursors : list PartitionCursor) (progress : ScanProgress)
    (pending : list ScanEvent) (buffered_total : Z) : ScanState := {|
  spec := spec s; topic_id := topic_id s; cursors := cursors; progress := progress;
  pending := pending; buffered_total := buffered_total; done_ := done_ s;
  next_progress_at := next_progress_at s |}.

Definition set_done (s : ScanState) : ScanState := {|
  spec := spec s; topic_id := topic_id s; cursors := cursors s; progress := progress s;
  pending := pending s; buffered_total := buffered_total s; done_ := true;
  next_progress_at := next_progress_at s |}.

Definition set_next_progress (s : ScanState) (at_ : Z) : ScanState := {|
  spec := spec s; topic_id := topic_id s; cursors := cursors s; progress := progress s;
  pending := pending s; buffered_total := buffered_total s; done_ := done_ s;
  next_progress_at := at_ |}.

Definition set_pending (s : ScanState) (pending : list ScanEvent) : ScanState :=
  set_state s (cursors s) (progress s) pending (buffered_total s).

Definition set_progress (s : ScanState) (progress : ScanProgress) : ScanState :=
  set_state s (cursors s) progress (pending s) (buffered_total s).

(** What a snapshot says of the topic. *)
Record TopicInfo : Type := {
  ti_error : option ErrorCode.ErrorCode;
  ti_id : bytes;
  ti_partitions : list Z;
}.

(** What a scan asks of the cluster. *)
Record ReadNet (W : Type) : Type := {
  refresh_topic : W -> string -> W * result (option TopicInfo) Error.Error;
  leader_for : W -> string -> Z -> W * result Z Error.Error;
  list_one : W -> string -> Z -> Z -> Z -> W * result (option Z) Error.Error;
  node : Z -> Fetcher.Cluster W;
}.
Arguments refresh_topic {W}.
Arguments leader_for {W}.
Arguments list_one {W}.
Arguments node {W}.

Section plan.
Context `{KafkaProtocol} {W : Type} (net : ReadNet W).

(** [offsets::bounds]. *)
Definition bounds (w : W) (topic : string) (partition leader : Z) : W * result (Z * Z) Error.Error :=
  let '(w, first) := list_one net w topic partition leader ListOffsets.EARLIEST in
  match first with
  | Err e => (w, Err e)
  | Ok first =>
      let earliest := default 0 first in
      let '(w, last) := list_one net w topic partition leader ListOffsets.LATEST in
      (w, let? last := last in Ok (earliest, Z.max (default earliest last) earliest))
  end.

(** Where one partition starts, with its bounds known. *)
Definition resolve_start (w : W) (spec : ScanSpec) (partition leader earliest latest : Z)
    : W * result (Z * option StartSubstitution) Error.Error :=
  match from spec with
  | Earliest => (w, Ok (earliest, None))
  | Latest => (w, Ok (latest, None))
  | Offset offset => (w, Ok (resolve_offset_start offset earliest latest))
  | Timestamp t =>
      let '(w, found) := list_one net w (topic spec) partition leader t in
      (w, let? found := found in
          Ok match found with
             | Some offset => (offset, None)
             | None => (latest, Some (TimestampUnresolved t latest))
             end)
  end.

Definition cursor_at (spec : ScanSpec) (partition leader latest start : Z)
    (substituted : option StartSubstitution) : PartitionCursor := {|
  c_partition := partition; c_leader := leader; next_offset := start; end_offset := latest;
  start_offset := start; substituted := substituted; buffered := [];
  finished := (latest <=? start) && negb (follow spec) |}.

Fixpoint plan_partitions (w : W) (spec : ScanSpec) (wanted : list Z)
    : W * result (list PartitionCursor) Error.Error :=
  match wanted with
  | [] => (w, Ok [])
  | partition :: wanted =>
      let '(w, leader) := leader_for net w (topic spec) partition in
      match leader with
      | Err e => (w, Err e)
      | Ok leader =>
          let '(w, b) := bounds w (topic spec) partition leader in
          match b with
          | Err e => (w, Err e)
          | Ok (earliest, latest) =>
              let '(w, start) := resolve_start w spec partition leader earliest latest in
              match start with
              | Err e => (w, Err e)
              | Ok (start, substituted) =>
                  let '(w, rest) := plan_partitions w spec wanted in
                  (w, let? rest := rest in
                      Ok (cursor_at spec partition leader latest start substituted :: rest))
              end
          end
      end
  end.

Definition plan (w : W) (spec : ScanSpec) : W * result (list PartitionCursor * bytes) Error.Error :=
  let '(w, info) := refresh_topic net w (topic spec) in
  match info with
  | Err e => (w, Err e)
  | Ok None =>
      (w, Err (Error.from_code ErrorCode.UnknownTopicOrPartition
                 (Some (text_of_string (topic spec)))))
  | Ok (Some info) =>
      match ti_error info with
      | Some code => (w, Err (Error.from_code code (Some (text_of_string (topic spec)))))
      | None =>
          let wanted := default (ti_partitions info) (partitions spec) in
          let '(w, cursors) := plan_partitions w spec wanted in
          (w, let? cursors := cursors in Ok (cursors, ti_id info))
      end
  end.

(** The state a scan starts from. *)
Definition start_state (spec : ScanSpec) (cursors : list PartitionCursor) (topic_id : bytes)
    : ScanState :=
  let total := i64_wrap (foldr Z.add 0
    (map (fun c => Z.max (i64_saturating_sub (end_offset c) (start_offset c)) 0) cursors)) in
  let count := Z.of_nat (length cursors) in
  {| spec := spec; topic_id := topic_id; cursors := map take_substituted cursors;
     progress := {| records_emitted := 0; records_scanned := 0; malformed_batches := 0;
                    offsets_consumed := 0; offsets_total := total; partitions_active := count;
                    partitions_planned := count; reorder_window := 0 |};
     pending := map (fun c => PartitionStarted (c_partition c) (start_offset c) (substituted c)) cursors;
     buffered_total := 0; done_ := false; next_progress_at := PROGRESS_EVERY |}.

Definition scan (w : W) (spec : ScanSpec) : W * result ScanState Error.Error :=
  let '(w, planned) := plan w spec in
  (w, let? (cursors, topic_id) := planned in Ok (start_state spec cursors topic_id)).

End plan.

(** ** One event *)

Definition limit_reached (s : ScanState) : bool :=
  match limit (spec s) with
  | Some limit => limit <=? records_emitted (progress s)
  | None => false
  end.

Definition all_exhausted (s : ScanState) : bool :=
  negb (follow (spec s)) && forallb drained (cursors s).

Definition note_ordering_degraded (s : ScanState) : ScanState :=
  let merging := Z.of_nat (length (filter (fun c => drained c = false) (cursors s))) in
  let window := reorder_window_of (max_buffered_records (spec s)) merging in
  let p := progress s in
  set_progress s {| records_emitted := records_emitted p; records_scanned := records_scanned p;
    malformed_batches := malformed_batches p; offsets_consumed := offsets_consumed p;
    offsets_total := offsets_total p; partitions_active := partitions_active p;
    partitions_planned := partitions_planned p;
    reorder_window := Z.max (reorder_window p) window |}.

Definition finish (s : ScanState) : ScanState * ScanEvent :=
  let p := progress s in
  let p := {| records_emitted := records_emitted p; records_scanned := records_scanned p;
    malformed_batches := malformed_batches p; offsets_consumed := offsets_consumed p;
    offsets_total := offsets_total p; partitions_active := 0;
    partitions_planned := partitions_planned p; reorder_window := reorder_window p |} in
  (set_done (set_progress s p), Done p).

(** Apply a function to the first cursor of a partition. *)
Fixpoint update_first (partition : Z) (f : PartitionCursor -> PartitionCursor)
    (l : list PartitionCursor) : list PartitionCursor :=
  match l with
  | [] => []
  | c :: l => if c_partition c =? partition then f c :: l else c :: update_first partition f l
  end.

Definition add_malformed (p : ScanProgress) (n : Z) : ScanProgress := {|
  records_emitted := records_emitted p; records_scanned := records_scanned p;
  malformed_batches := malformed_batches p + n; offsets_consumed := offsets_consumed p;
  offsets_total := offsets_total p; partitions_active := partitions_active p;
  partitions_planned := partitions_planned p; reorder_window := reorder_window p |}.

(** The records before the scan's start are dropped, a malformed batch is kept. *)
Definition kept (start : Z) (outcomes : list Batch.RecordOutcome) : list Batch.RecordOutcome :=
  List.filter (fun o => match o with
                        | Batch.Decoded record => start <=? Batch.r_offset record
                        | Batch.Malformed _ _ _ _ => true
                        end) outcomes.

Section reading.
Context `{KafkaProtocol, Batch.RecordCodec}.

Definition decode (spec : ScanSpec) (p : FetchedPartition) : Batch.DecodedPartition :=
  default Batch.empty_decoded
    (Batch.decode_records_with_aborted (topic spec) (f_partition p) (f_records p) (f_aborted p)
       (decode_options spec)).

(** The cursor before the outcomes are looked at: the usable end, and a start that
    was deleted. *)
Definition catch_up (spec : ScanSpec) (p : FetchedPartition) (c : PartitionCursor)
    : PartitionCursor :=
  let end_ := match visibility spec with
              | Batch.All => f_high_watermark p
              | Batch.CommittedOnly => f_last_stable_offset p
              end in
  set_reading c (Z.max (next_offset c) (f_log_start_offset p))
    (if 0 <=? end_ then Z.min (Z.max (end_offset c) end_) (Z.max end_ (end_offset c))
     else end_offset c)
    (buffered c) (finished c).

(** What one fetched partition does to its cursor, with the outcomes it buffers and
    the batches that would not decode. *)
Definition absorb_cursor (spec : ScanSpec) (p : FetchedPartition) (c : PartitionCursor)
    : PartitionCursor * list Batch.RecordOutcome * Z * result bool Error.Error :=
  let c := catch_up spec p c in
  let decoded := decode spec p in
  match Batch.outcomes decoded with
  | [] =>
      if (0 <? Batch.control_batches_skipped decoded) || (0 <? Batch.aborted_records_skipped decoded)
      then
        (set_reading c (i64_saturating_add (next_offset c) 1) (end_offset c) (buffered c) (finished c),
         [], 0, Ok false)
      else if negb (Batch.truncated_tail decoded) then
        (set_reading c (next_offset c) (end_offset c) (buffered c) (negb (follow spec)),
         [], 0, Ok false)
      else
        (c, [], 0,
         Err (Error.Unsupported
                (topic spec +:+ "-" +:+ pretty (f_partition p)
                 +:+ " has a batch larger than partition_max_bytes ("
                 +:+ pretty (partition_max_bytes spec)
                 +:+ " bytes); raise ScanSpec::partition_max_bytes")))
  | (first :: _) as outcomes =>
      let last := last_offset_of (List.last outcomes first) in
      let next := Z.max (i64_saturating_add last 1) (i64_saturating_add (next_offset c) 1) in
      let bad := Z.of_nat (length (List.filter is_malformed outcomes)) in
      let kept := kept (start_offset c) outcomes in
      (set_reading c next (end_offset c) (buffered c ++ kept) (finished c), kept, bad, Ok true)
  end.

(** One fetched partition: the state, and whether anything was read. *)
Definition absorb (s : ScanState) (p : FetchedPartition) : ScanState * result bool Error.Error :=
  match List.find (fun c => c_partition c =? f_partition p) (cursors s) with
  | None => (s, Ok false)
  | Some c =>
      let '(c, kept, bad, read) := absorb_cursor (spec s) p c in
      (set_state s (update_first (f_partition p) (fun _ => c) (cursors s))
         (add_malformed (progress s) bad) (pending s)
         (buffered_total s + Z.of_nat (length kept)), read)
  end.

Fixpoint absorb_all (s : ScanState) (l : list FetchedPartition) : ScanState * result bool Error.Error :=
  match l with
  | [] => (s, Ok false)
  | p :: l =>
      let '(s, read) := absorb s p in
      match read with
      | Err e => (s, Err e)
      | Ok read =>
          let '(s, rest) := absorb_all s l in
          (s, let? rest := rest in Ok (read || rest))
      end
  end.

(** What a round asks each leader for. *)
Definition targets (s : ScanState) : gmap Z (list FetchTarget) :=
  let idle := buffered_total s =? 0 in
  foldl (fun m c =>
    if bool_decide (buffered c <> []) then m
    else if should_fetch (negb (exhausted c)) (follow (spec s)) idle then
      push_to m (c_leader c) {| ft_partition := c_partition c; ft_offset := next_offset c;
                                ft_max_bytes := partition_max_bytes (spec s) |}
    else m) ∅ (cursors s).

Context {W : Type} (net : ReadNet W).

Fixpoint fetch_leaders (w : W) (s : ScanState) (l : list (Z * list FetchTarget))
    : W * ScanState * result bool Error.Error :=
  match l with
  | [] => (w, s, Ok false)
  | (leader, targets) :: l =>
      let '(w, fetched) :=
        fetch (node net leader) w (topic (spec s)) (topic_id s) targets (max_wait_ms (spec s))
          (fetch_max_bytes (spec s)) (visibility (spec s)) in
      match fetched with
      | Err e => (w, s, Err e)
      | Ok fetched =>
          let '(s, read) := absorb_all s fetched in
          match read with
          | Err e => (w, s, Err e)
          | Ok read =>
              let '(w, s, rest) := fetch_leaders w s l in
              (w, s, let? rest := rest in Ok (read || rest))
          end
      end
  end.

Definition refill (w : W) (s : ScanState) : W * ScanState * result bool Error.Error :=
  if max_buffered_records (spec s) <=? buffered_total s
  then (w, note_ordering_degraded s, Ok false)
  else fetch_leaders w s (map_to_list (targets s)).

End reading.

(** The first cursor with the least head timestamp. *)
Definition choose (l : list PartitionCursor) : option (nat * Z) :=
  foldl (fun best item =>
    match head_timestamp item.2 with
    | None => best
    | Some ts => match best with
                 | Some (_, least) => if ts <? least then Some (item.1, ts) else best
                 | None => Some (item.1, ts)
                 end
    end) None (imap pair l).

(** The partition chosen, what it emits, and the state without it. *)
Definition pop (s : ScanState) : option (ScanState * PartitionCursor * Batch.RecordOutcome) :=
  '(index, _) ← choose (cursors s);
  c ← cursors s !! index;
  match buffered c with
  | [] => None
  | outcome :: rest =>
      let c := set_reading c (next_offset c) (end_offset c) rest (finished c) in
      let p := progress s in
      let p := {| records_emitted := records_emitted p; records_scanned := records_scanned p + 1;
        malformed_batches := malformed_batches p; offsets_consumed := offsets_consumed p + 1;
        offsets_total := offsets_total p; partitions_active := partitions_active p;
        partitions_planned := partitions_planned p; reorder_window := reorder_window p |} in
      Some (set_state s (<[index := c]> (cursors s)) p (pending s)
              (usize_saturating_sub (buffered_total s) 1), c, outcome)
  end.

(** Queue the events that go with a drained partition and with a thousand records. *)
Definition announce (s : ScanState) (c : PartitionCursor) : ScanState :=
  let s :=
    if drained c && negb (follow (spec s)) then
      let p := progress s in
      let active := Z.of_nat (length (filter (fun c => drained c = false) (cursors s))) in
      set_pending
        (set_progress s {| records_emitted := records_emitted p; records_scanned := records_scanned p;
           malformed_batches := malformed_batches p; offsets_consumed := offsets_consumed p;
           offsets_total := offsets_total p; partitions_active := active;
           partitions_planned := partitions_planned p; reorder_window := reorder_window p |})
        (pending s ++ [PartitionComplete (c_partition c) (i64_saturating_sub (next_offset c) 1)])
    else s in
  if next_progress_at s <=? records_scanned (progress s) then
    set_pending (set_next_progress s (next_progress_at s + PROGRESS_EVERY))
      (pending s ++ [Progress (progress s)])
  else s.

Definition count_emitted (s : ScanState) : ScanState :=
  let p := progress s in
  set_progress s {| records_emitted := records_emitted p + 1; records_scanned := records_scanned p;
    malformed_batches := malformed_batches p; offsets_consumed := offsets_consumed p;
    offsets_total := offsets_total p; partitions_active := partitions_active p;
    partitions_planned := partitions_planned p; reorder_window := reorder_window p |}.

Definition emit_next (s : ScanState) : ScanState * option ScanEvent :=
  let waiting :=
    existsb (fun c => negb (exhausted c) && bool_decide (buffered c = [])) (cursors s) in
  let at_ceiling := max_buffered_records (spec s) <=? buffered_total s in
  if waiting && negb at_ceiling then (s, None)
  else
    let s := if waiting && at_ceiling then note_ordering_degraded s else s in
    match pop s with
    | None => (s, None)
    | Some (s, c, outcome) =>
        let s := announce s c in
        match outcome with
        | Batch.Decoded record =>
            if passes (record_filter (spec s)) record
            then (count_emitted s, Some (RecordEvent record))
            else match pending s with
                 | [] => (s, None)
                 | event :: rest => (set_pending s rest, Some event)
                 end
        | Batch.Malformed offset last raw reason =>
            (s, Some (MalformedEvent (topic (spec s)) (c_partition c) offset last raw reason))
        end
    end.

Section events.
Context `{KafkaProtocol, Batch.RecordCodec} {W : Type} (net : ReadNet W).

(** [next_event]: the fuel counts the rounds of the loop; [None] is out of fuel. *)
Fixpoint next_event (fuel : nat) (w : W) (s : ScanState)
    : option (W * ScanState * option (result ScanEvent Error.Error)) :=
  match fuel with
  | O => None
  | S fuel =>
      match pending s with
      | event :: rest => Some (w, set_pending s rest, Some (Ok event))
      | [] =>
          if done_ s then Some (w, s, None)
          else if limit_reached s then
            let '(s, event) := finish s in Some (w, s, Some (Ok event))
          else
            let '(w, s, refilled) := refill net w s in
            match refilled with
            | Err e => Some (w, set_done s, Some (Err e))
            | Ok _ =>
                let '(s, event) := emit_next s in
                match event with
                | Some event => Some (w, s, Some (Ok event))
                | None =>
                    if all_exhausted s then
                      let '(s, event) := finish s in Some (w, s, Some (Ok event))
                    else next_event fuel w s
                end
            end
      end
  end.

(** The stream polled [n] times: what it yields until it ends. *)
Fixpoint stream (fuel n : nat) (w : W) (s : ScanState)
    : option (W * ScanState * list (result ScanEvent Error.Error)) :=
  match n with
  | O => Some (w, s, [])
  | S n =>
      '(w, s, event) ← next_event fuel w s;
      match event with
      | None => Some (w, s, [])
      | Some event =>
          '(w, s, rest) ← stream fuel n w s;
          Some (w, s, event :: rest)
      end
  end.

End events.

End Scan.
