(* ===== verification/ScanFacts.v ===== *)
(** Lemmas on [Scan]: the parts of a round, what each leaves alone, and the induction
    over the polls of a stream. *)

From S2P Require Import Prelude Sanitize ErrorCodes Retry BatchDecode BatchDecodeFacts Fetch Coordinator Scan.
From Stdlib Require Import Sorting.Sorted.

Module ScanFacts.
Import ReadFetch Scan.

(** ** Searching bytes *)

Lemma windows_any_spec haystack needle :
  windows_any haystack needle = true <-> exists a b, haystack = a ++ needle ++ b.
Proof.
  induction haystack as [|x haystack IH]; cbn [windows_any]; rewrite orb_true_iff.
  - split.
    + intros [H|H]; [|discriminate]. apply bool_decide_eq_true in H.
      exists [], []. rewrite <- H. by destruct (length needle).
    + intros (a & b & H). left. apply bool_decide_eq_true.
      symmetry in H. apply app_nil in H as [_ [-> _]%app_nil]. done.
  - rewrite IH. split.
    + intros [H|(a & b & ->)]; [|by exists (x :: a), b].
      apply bool_decide_eq_true in H. exists [], (drop (length needle) (x :: haystack)).
      cbn [app]. by rewrite <- H at 1; rewrite take_drop.
    + intros ([|y a] & b & H); cbn [app] in H.
      * left. apply bool_decide_eq_true. by rewrite H, take_app_length.
      * right. injection H as -> ->. by exists a, b.
Qed.

Lemma contains_spec haystack needle :
  contains haystack needle = true <-> exists a b, haystack = a ++ needle ++ b.
Proof.
  destruct needle as [|x needle]; [|apply windows_any_spec].
  split; [|done]. intros _. by exists [], haystack.
Qed.

(** ** The first cursor of a partition *)

Lemma find_cursor (l : list PartitionCursor) p c :
  List.find (fun c => c_partition c =? p) l = Some c -> c ∈ l /\ c_partition c = p.
Proof.
  intros H. apply List.find_some in H as [H1 H2%Z.eqb_eq]. by rewrite list_elem_of_In.
Qed.

Lemma update_first_length p f l : length (update_first p f l) = length l.
Proof. induction l as [|c l IH]; [done|]. cbn. by case_match; cbn; rewrite ?IH. Qed.

Lemma update_first_partitions p f l :
  (forall c, c_partition (f c) = c_partition c) ->
  map c_partition (update_first p f l) = map c_partition l.
Proof.
  intros Hf. induction l as [|c l IH]; [done|]. cbn. case_match; cbn; by rewrite ?IH, ?Hf.
Qed.

(** With distinct partitions, only the cursor of [p] changes. *)
Lemma update_first_elem p c' l c :
  NoDup (map c_partition l) -> c_partition c' = p -> p ∈ map c_partition l ->
  c ∈ update_first p (fun _ => c') l <-> c = c' \/ (c ∈ l /\ c_partition c <> p).
Proof.
  intros Hn <- Hp. induction l as [|d l IH]; [by apply not_elem_of_nil in Hp|].
  cbn [map] in Hn, Hp. apply NoDup_cons in Hn as [Hd Hn]. cbn [update_first].
  destruct (Z.eqb_spec (c_partition d) (c_partition c')) as [E|E]; rewrite !elem_of_cons.
  - split.
    + intros [->|H]; [by left|]. right. split; [by right|]. intros E'. apply Hd.
      rewrite E, <- E'. by apply list_elem_of_fmap_2.
    + intros [->|[[->|H] H']]; [by left|done|by right].
  - apply elem_of_cons in Hp as [Hp|Hp]; [done|]. rewrite (IH Hn Hp). split.
    + intros [->|[->|[H H']]]; [right; split; [by left|done]|by left|right; split; [by right|done]].
    + intros [->|[[->|H] H']]; [by right; left|by left|by right; right].
Qed.

(** ** Every poll is made of these steps *)

Definition oks (l : list (result ScanEvent Error.Error)) : list ScanEvent :=
  flat_map (fun e => match e with Ok e => [e] | Err _ => [] end) l.

Definition event_list (e : option ScanEvent) : list ScanEvent :=
  match e with Some e => [e] | None => [] end.

(** The records yielded. *)
Definition records_in (l : list ScanEvent) : list Batch.DRecord :=
  flat_map (fun e => match e with RecordEvent r => [r] | _ => [] end) l.

Lemma records_in_app l1 l2 : records_in (l1 ++ l2) = records_in l1 ++ records_in l2.
Proof. apply flat_map_app. Qed.

(** The events that are queued rather than returned. *)
Definition is_note (e : ScanEvent) : bool :=
  match e with
  | PartitionStarted _ _ _ | Progress _ | PartitionComplete _ _ => true
  | _ => false
  end.

Lemma notes_no_records l : forallb is_note l = true -> records_in l = [].
Proof.
  induction l as [|e l IH]; [done|]. cbn [forallb]. intros [He Hl]%andb_true_iff.
  cbn [records_in flat_map]. rewrite (IH Hl : flat_map _ _ = []). by destruct e.
Qed.

(** The records that pop shows the caller. *)
Definition shown (s : ScanState) (o : Batch.RecordOutcome) : list Batch.DRecord :=
  match o with
  | Batch.Decoded r => if passes (record_filter (spec s)) r then [r] else []
  | Batch.Malformed _ _ _ _ => []
  end.

Section frame.
Context `{KafkaProtocol, Batch.RecordCodec}.

(** What a fetched partition never touches. *)
Record same_frame (s s' : ScanState) : Prop := {
  fr_spec : spec s' = spec s;
  fr_topic_id : Scan.topic_id s' = Scan.topic_id s;
  fr_pending : pending s' = pending s;
  fr_done : done_ s' = done_ s;
  fr_emitted : records_emitted (progress s') = records_emitted (progress s);
  fr_scanned : records_scanned (progress s') = records_scanned (progress s);
  fr_next_progress : next_progress_at s' = next_progress_at s;
}.

Lemma same_frame_refl s : same_frame s s.
Proof. done. Qed.

Lemma same_frame_trans s1 s2 s3 : same_frame s1 s2 -> same_frame s2 s3 -> same_frame s1 s3.
Proof. intros [] []. split; congruence. Qed.

Lemma absorb_frame s p : same_frame s (absorb s p).1.
Proof. unfold absorb. branch; done. Qed.

Lemma absorb_all_frame l s : same_frame s (absorb_all s l).1.
Proof.
  revert s. induction l as [|p l IH]; intros s; [done|]. cbn [absorb_all].
  pose proof (absorb_frame s p) as Ha. destruct (absorb s p) as [s1 [|]]; [|done].
  pose proof (IH s1) as Hb. destruct (absorb_all s1 l) as [s2 r].
  eapply same_frame_trans; [exact Ha|exact Hb].
Qed.

Context {W : Type} (net : ReadNet W).

Lemma fetch_leaders_frame l w s : same_frame s (fetch_leaders net w s l).1.2.
Proof.
  revert w s. induction l as [|[leader ts] l IH]; intros w s; [done|]. cbn [fetch_leaders].
  destruct (fetch _ _ _ _ _ _ _ _) as [w1 [fetched|]]; [|done].
  pose proof (absorb_all_frame fetched s) as Ha.
  destruct (absorb_all s fetched) as [s1 [|]]; [|done].
  pose proof (IH w1 s1) as Hb. destruct (fetch_leaders net w1 s1 l) as [[w2 s2] r].
  eapply same_frame_trans; [exact Ha|exact Hb].
Qed.

Lemma refill_frame w s : same_frame s (refill net w s).1.2.
Proof. unfold refill. case_match; [done|apply fetch_leaders_frame]. Qed.

Lemma limit_reached_frame s s' : same_frame s s' -> limit_reached s' = limit_reached s.
Proof. intros [Hs _ _ _ He _ _]. unfold limit_reached. by rewrite Hs, He. Qed.

End frame.

(** ** Invariants of the cursors *)

Section cursors.
Context `{KafkaProtocol, Batch.RecordCodec} {W : Type} (net : ReadNet W).

(** The cursor an absorbed partition leaves. *)
Definition absorbed_cursor (spec : ScanSpec) (p : FetchedPartition) (c : PartitionCursor)
    : PartitionCursor := (absorb_cursor spec p c).1.1.1.

Lemma absorb_cursor_fixed spec p c :
  c_partition (absorbed_cursor spec p c) = c_partition c /\
  start_offset (absorbed_cursor spec p c) = start_offset c /\
  c_leader (absorbed_cursor spec p c) = c_leader c.
Proof. unfold absorbed_cursor, absorb_cursor. by branch. Qed.

Lemma absorb_cursors s p :
  cursors (absorb s p).1 =
  match List.find (fun c => c_partition c =? f_partition p) (cursors s) with
  | Some c => update_first (f_partition p) (fun _ => absorbed_cursor (spec s) p c) (cursors s)
  | None => cursors s
  end.
Proof.
  unfold absorb, absorbed_cursor. destruct (List.find _ _) as [c|]; [|done].
  by destruct (absorb_cursor (spec s) p c) as [[[c' k] b] r].
Qed.

Lemma update_first_forall (P : PartitionCursor -> Prop) p c' l :
  P c' -> Forall P l -> Forall P (update_first p (fun _ => c') l).
Proof.
  intros Hc Hl. induction Hl as [|c l H1 Hl IH]; [constructor|]. cbn [update_first].
  case_match; by constructor.
Qed.

(** What is fixed of a cursor. *)
Definition identity (c : PartitionCursor) : Z * Z := (c_partition c, start_offset c).

Lemma update_first_identity p c c' l :
  List.find (fun c => c_partition c =? p) l = Some c -> identity c' = identity c ->
  map identity (update_first p (fun _ => c') l) = map identity l.
Proof.
  intros Hf Hi. induction l as [|d l IH]; [done|]. cbn [List.find] in Hf. cbn [update_first].
  destruct (c_partition d =? p); cbn [map]; [|by rewrite IH].
  injection Hf as ->. by rewrite Hi.
Qed.

Lemma absorb_identity s p : map identity (cursors (absorb s p).1) = map identity (cursors s).
Proof.
  rewrite absorb_cursors. destruct (List.find _ _) as [c|] eqn:E; [|done].
  eapply update_first_identity; [done|].
  destruct (absorb_cursor_fixed (spec s) p c) as (H1 & H2 & _). unfold identity. congruence.
Qed.

(** A property of the state that absorbing preserves is one that a round preserves. *)
Lemma refill_inv (I : ScanState -> Prop) :
  (forall s p, I s -> I (absorb s p).1) -> (forall s, I s -> I (note_ordering_degraded s)) ->
  forall w s, I s -> I (refill net w s).1.2.
Proof.
  intros Ha Hd.
  assert (Hall : forall l s, I s -> I (absorb_all s l).1).
  { induction l as [|p l IH]; intros s Hs; [done|]. cbn [absorb_all].
    pose proof (Ha s p Hs) as H1. destruct (absorb s p) as [s1 [|]]; [|done].
    pose proof (IH s1 H1) as H2. by destruct (absorb_all s1 l). }
  intros w s Hs. unfold refill. destruct (_ <=? _); [by apply Hd|].
  generalize (map_to_list (targets s)) as l. intros l. revert w s Hs.
  induction l as [|[leader ts] l IH]; intros w s Hs; [done|]. cbn [fetch_leaders].
  destruct (fetch _ _ _ _ _ _ _ _) as [w1 [fetched|]]; [|done].
  pose proof (Hall fetched s Hs) as H1. destruct (absorb_all s fetched) as [s1 [|]]; [|done].
  pose proof (IH w1 s1 H1) as H2. by destruct (fetch_leaders net w1 s1 l) as [[w2 s2] r].
Qed.

Lemma pop_cursors s s' c o :
  pop s = Some (s', c, o) ->
  exists i d t rest, choose (cursors s) = Some (i, t) /\ cursors s !! i = Some d /\
    buffered d = o :: rest /\
    c = set_reading d (next_offset d) (end_offset d) rest (finished d) /\
    cursors s' = <[i := c]> (cursors s) /\
    buffered_total s' = usize_saturating_sub (buffered_total s) 1.
Proof.
  unfold pop. destruct (choose (cursors s)) as [[i t]|]; [|done]. cbn [mbind option_bind].
  destruct (cursors s !! i) as [d|] eqn:Ed; [|done]. cbn [mbind option_bind].
  destruct (buffered d) as [|o' rest] eqn:Eb; [done|]. intros [= <- <- <-].
  by exists i, d, t, rest.
Qed.

End cursors.

(** ** Planning *)

Section planning.
Context `{KafkaProtocol} {W : Type} (net : ReadNet W).

(** A planned cursor has read nothing, and waits unless it is at its end. *)
Definition fresh (sp : ScanSpec) (c : PartitionCursor) : Prop :=
  buffered c = [] /\ next_offset c = start_offset c /\
  finished c = (end_offset c <=? start_offset c) && negb (follow sp).

Lemma plan_partitions_fresh sp wanted : forall w,
  match (plan_partitions net w sp wanted).2 with
  | Ok cs => Forall (fresh sp) cs /\ map c_partition cs = wanted
  | Err _ => True
  end.
Proof.
  induction wanted as [|p wanted IH]; intros w; cbn [plan_partitions]; [by split|].
  destruct (leader_for _ _ _ _) as [w1 [leader|]]; [|done].
  destruct (bounds _ _ _ _ _) as [w2 [[earliest latest]|]]; [|done].
  destruct (resolve_start _ _ _ _ _ _ _) as [w3 [[start sub]|]]; [|done].
  specialize (IH w3). destruct (plan_partitions net w3 sp wanted) as [w4 [cs|]]; [|done].
  cbn [snd result_bind] in *. destruct IH as [H1 <-]. split; [|done]. by constructor.
Qed.

Lemma plan_fresh w sp :
  match (plan net w sp).2 with Ok (cs, _) => Forall (fresh sp) cs | Err _ => True end.
Proof.
  unfold plan. destruct (refresh_topic _ _ _) as [w1 [[info|]|]]; [|done|done].
  destruct (ti_error info); [done|].
  pose proof (plan_partitions_fresh sp (default (ti_partitions info) (partitions sp)) w1) as Hf.
  destruct (plan_partitions _ _ _ _) as [w2 [cs|]]; [|done]. cbn in *. by destruct Hf.
Qed.

End planning.

(** ** Choosing *)

Definition least_head (l : list PartitionCursor) (i : nat) (t : Z) : Prop :=
  (exists c, l !! i = Some c /\ head_timestamp c = Some t) /\
  forall c t', c ∈ l -> head_timestamp c = Some t' -> t <= t'.

Lemma choose_least l :
  match choose l with
  | Some (i, t) => least_head l i t
  | None => forall c, c ∈ l -> head_timestamp c = None
  end.
Proof.
  unfold choose. induction l as [|c l IH] using rev_ind; [intros c Hc; by apply not_elem_of_nil in Hc|].
  rewrite imap_app, foldl_app. cbn [imap foldl snd fst compose].
  destruct (foldl _ None (imap pair l)) as [[i t]|].
  - destruct IH as [(d & Hd & Ht) Hleast].
    assert (Hd' : (l ++ [c]) !! i = Some d) by (by apply lookup_app_l_Some).
    destruct (head_timestamp c) as [tc|] eqn:Ec.
    + destruct (Z.ltb_spec tc t); (split; [|intros e t' [He|He%list_elem_of_singleton]%elem_of_app Et]).
      * exists c. split; [|done]. rewrite lookup_app_r by lia. by rewrite Nat.add_0_r, Nat.sub_diag.
      * specialize (Hleast e t' He Et). lia.
      * subst e. rewrite Ec in Et. injection Et as <-. lia.
      * by exists d.
      * by apply (Hleast e).
      * subst e. rewrite Ec in Et. injection Et as <-. lia.
    + split; [by exists d|]. intros e t' [He|He%list_elem_of_singleton]%elem_of_app Et; [by apply (Hleast e)|].
      subst e. by rewrite Ec in Et.
  - destruct (head_timestamp c) as [tc|] eqn:Ec.
    + split; [exists c; split; [|done]; rewrite lookup_app_r by lia; by rewrite Nat.add_0_r, Nat.sub_diag|].
      intros e t' [He|He%list_elem_of_singleton]%elem_of_app Et; [by rewrite (IH e He) in Et|].
      subst e. rewrite Ec in Et. injection Et as <-. lia.
    + intros e [He|He%list_elem_of_singleton]%elem_of_app; [by apply IH|by subst e].
Qed.

(** ** Emitting *)

(** What [pop] and its bookkeeping leave alone. *)
Record emit_frame (s s' : ScanState) : Prop := {
  ef_spec : spec s' = spec s;
  ef_topic_id : Scan.topic_id s' = Scan.topic_id s;
  ef_done : done_ s' = done_ s;
}.

Lemma pop_frame s s' c o :
  pop s = Some (s', c, o) ->
  emit_frame s s' /\ pending s' = pending s /\
  records_emitted (progress s') = records_emitted (progress s) /\
  reorder_window (progress s') = reorder_window (progress s).
Proof.
  unfold pop. destruct (choose (cursors s)) as [[i t]|]; [|done]. cbn [mbind option_bind].
  destruct (cursors s !! i) as [d|]; [|done]. cbn [mbind option_bind].
  destruct (buffered d); [done|]. by intros [= <- <- <-].
Qed.

Lemma announce_frame s c :
  emit_frame s (announce s c) /\ cursors (announce s c) = cursors s /\
  buffered_total (announce s c) = buffered_total s /\
  records_emitted (progress (announce s c)) = records_emitted (progress s) /\
  reorder_window (progress (announce s c)) = reorder_window (progress s) /\
  exists added, pending (announce s c) = pending s ++ added /\
    forallb is_note added = true /\ Z.of_nat (length added) <= 2.
Proof.
  unfold announce. repeat case_match; cbn; (split; [done|]); do 4 (split; [done|]);
    rewrite <- ?app_assoc; eexists;
    (split; [first [reflexivity|symmetry; apply app_nil_r]|]); (split; [done|]); cbn; lia.
Qed.

(** The three ways a round ends: it waits, nothing is buffered, or an outcome is
    taken. *)
Inductive emitted (s : ScanState) : ScanState -> option ScanEvent -> Prop :=
  | EmitWaits :
      existsb (fun c => negb (exhausted c) && bool_decide (buffered c = [])) (cursors s) = true ->
      buffered_total s < max_buffered_records (spec s) ->
      emitted s s None
  | EmitNothing s0 : degraded s s0 -> pop s0 = None -> emitted s s0 None
  | EmitRecord s0 s1 c record :
      degraded s s0 -> pop s0 = Some (s1, c, Batch.Decoded record) ->
      passes (record_filter (spec s)) record = true ->
      emitted s (count_emitted (announce s1 c)) (Some (RecordEvent record))
  | EmitFiltered s0 s1 c record :
      degraded s s0 -> pop s0 = Some (s1, c, Batch.Decoded record) ->
      passes (record_filter (spec s)) record = false -> pending (announce s1 c) = [] ->
      emitted s (announce s1 c) None
  | EmitPending s0 s1 c record event rest :
      degraded s s0 -> pop s0 = Some (s1, c, Batch.Decoded record) ->
      passes (record_filter (spec s)) record = false -> pending (announce s1 c) = event :: rest ->
      emitted s (set_pending (announce s1 c) rest) (Some event)
  | EmitMalformed s0 s1 c offset last raw reason :
      degraded s s0 -> pop s0 = Some (s1, c, Batch.Malformed offset last raw reason) ->
      emitted s (announce s1 c)
        (Some (MalformedEvent (topic (spec s)) (c_partition c) offset last raw reason))
with degraded (s : ScanState) : ScanState -> Prop :=
  | InOrder :
      existsb (fun c => negb (exhausted c) && bool_decide (buffered c = [])) (cursors s) = false ->
      degraded s s
  | Forced :
      max_buffered_records (spec s) <= buffered_total s ->
      degraded s (note_ordering_degraded s).

Lemma emit_emitted s : emitted s (emit_next s).1 (emit_next s).2.
Proof.
  unfold emit_next.
  set (waiting := existsb _ (cursors s)). destruct (Z.leb_spec (max_buffered_records (spec s)) (buffered_total s)).
  - assert (Hd : degraded s (if waiting && true then note_ordering_degraded s else s)).
    { destruct waiting eqn:E; [by apply Forced|by apply InOrder]. }
    rewrite andb_false_r. set (s0 := if waiting && true then _ else s) in *.
    assert (Hs : spec s0 = spec s) by (by unfold s0; destruct waiting).
    destruct (pop s0) as [[[s1 c] o]|] eqn:E; [|by eapply EmitNothing].
    destruct (pop_frame _ _ _ _ E) as ([Hf _ _] & _). destruct (announce_frame s1 c) as ([Hf' _ _] & _).
    assert (Hsp : spec (announce s1 c) = spec s) by congruence.
    destruct o as [record|offset last raw reason]; rewrite Hsp.
    + destruct (passes _ record) eqn:Ef; [by eapply EmitRecord|].
      destruct (pending (announce s1 c)) eqn:Ep; [by eapply EmitFiltered|by eapply EmitPending].
    + by eapply EmitMalformed.
  - destruct waiting eqn:Ew; [by apply EmitWaits|]. cbn [andb].
    assert (Hd : degraded s s) by (by apply InOrder).
    destruct (pop s) as [[[s1 c] o]|] eqn:E; [|by eapply EmitNothing].
    destruct (pop_frame _ _ _ _ E) as ([Hf _ _] & _). destruct (announce_frame s1 c) as ([Hf' _ _] & _).
    assert (Hsp : spec (announce s1 c) = spec s) by congruence.
    destruct o as [record|offset last raw reason]; rewrite Hsp.
    + destruct (passes _ record) eqn:Ef; [by eapply EmitRecord|].
      destruct (pending (announce s1 c)) eqn:Ep; [by eapply EmitFiltered|by eapply EmitPending].
    + by eapply EmitMalformed.
Qed.

Lemma degraded_frame s s0 :
  degraded s s0 ->
  emit_frame s s0 /\ pending s0 = pending s /\ cursors s0 = cursors s /\
  buffered_total s0 = buffered_total s /\
  records_emitted (progress s0) = records_emitted (progress s).
Proof. by intros []. Qed.

(** Either nothing is taken, or one outcome is and its record shown. *)
Lemma emit_cases s s' e :
  pending s = [] -> emit_next s = (s', e) ->
  spec s' = spec s /\ done_ s' = done_ s /\ forallb is_note (pending s') = true /\
  ((e = None /\ cursors s' = cursors s /\ pending s' = [] /\
    buffered_total s' = buffered_total s /\
    records_emitted (progress s') = records_emitted (progress s) /\
    (pop s = None \/
     existsb (fun c => negb (exhausted c) && bool_decide (buffered c = [])) (cursors s) = true
     /\ buffered_total s < max_buffered_records (spec s))) \/
   (exists s0 s1 c o, degraded s s0 /\ pop s0 = Some (s1, c, o) /\ cursors s' = cursors s1 /\
    buffered_total s' = buffered_total s1 /\ Z.of_nat (length (pending s')) <= 2 /\
    reorder_window (progress s') = reorder_window (progress s0) /\
    records_in (event_list e) = shown s o /\
    match e with Some (Done _) => False | _ => True end /\
    records_emitted (progress s')
    = records_emitted (progress s) + Z.of_nat (length (shown s o)))).
Proof.
  intros Hp E. pose proof (emit_emitted s) as Hem. rewrite E in Hem. cbn [fst snd] in Hem.
  destruct Hem as [|s0 Hd Hpop|s0 s1 c r Hd Hpop Hr|s0 s1 c r Hd Hpop Hr Hq
                  |s0 s1 c r e rest Hd Hpop Hr Hq|s0 s1 c o l w v Hd Hpop].
  1:{ rewrite Hp. split_and!; try done. left. split_and!; try done. by right. }
  1:{ destruct (degraded_frame _ _ Hd) as ([Hs _ He] & Hpe & Hc & Hb & Hem).
      rewrite Hs, He, Hpe, Hp. split_and!; try done. left. split_and!; try done. left.
      destruct Hd; [done|]. cbv [pop note_ordering_degraded set_progress set_state cursors] in Hpop.
      unfold pop. by destruct (choose _) as [[]|]; [|done]; cbn [mbind option_bind] in *;
        destruct (_ !! _); [|done]; cbn [mbind option_bind] in *; destruct (buffered _). }
  all: destruct (degraded_frame _ _ Hd) as ([Hs _ He] & Hpe & Hc & Hb & Hem);
    destruct (pop_frame _ _ _ _ Hpop) as ([Hs1 _ He1] & Hpe1 & Hem1 & Hw1);
    destruct (announce_frame s1 c) as ([Hs2 _ He2] & Hc2 & Hb2 & Hem2 & Hw2 & added & Hpe2 & Hn & Hl);
    rewrite Hpe1, Hpe, Hp in Hpe2; cbn [app] in Hpe2; unfold shown; rewrite ?Hr;
    cbn [count_emitted set_pending set_progress set_state spec done_ pending cursors
         progress records_emitted reorder_window buffered_total].
  - split_and!; [congruence|congruence|by rewrite Hpe2|]. right. exists s0, s1, c, (Batch.Decoded r).
    rewrite Hr, Hpe2. split_and!; try done; try congruence; cbn [length]; lia.
  - split_and!; [congruence|congruence|by rewrite Hpe2|]. right. exists s0, s1, c, (Batch.Decoded r).
    rewrite Hr, Hpe2. split_and!; try done; try congruence; cbn [length]; lia.
  - rewrite Hpe2 in Hq. subst added. cbn [forallb length] in *. apply andb_true_iff in Hn as [Hn1 Hn2].
    split_and!; [congruence|congruence|done|]. right. exists s0, s1, c, (Batch.Decoded r).
    rewrite Hr. split_and!; try done; try congruence; [lia| |destruct e; done|cbn [length]; lia].
    apply (notes_no_records [e]). cbn. by rewrite Hn1.
  - split_and!; [congruence|congruence|by rewrite Hpe2|]. right. exists s0, s1, c, (Batch.Malformed o l w v).
    rewrite Hpe2. split_and!; try done; try congruence; cbn [length]; lia.
Qed.

Lemma emit_quiet s s' :
  pending s = [] -> emit_next s = (s', None) -> pending s' = [] /\ done_ s' = done_ s.
Proof.
  intros Hp E. pose proof (emit_emitted s) as H. rewrite E in H. cbn [fst snd] in H.
  inversion H as [|s0 Hd|s0 s1 c r Hd|s0 s1 c r Hd Hpop Hr Hp'| |]; subst; [done| |].
  - destruct (degraded_frame _ _ Hd) as ([] & ? & _). split; congruence.
  - destruct (degraded_frame _ _ Hd) as ([] & _). destruct (pop_frame _ _ _ _ Hpop) as ([] & _).
    destruct (announce_frame s1 c) as ([] & _). split; congruence.
Qed.

Lemma emit_quiet_window s s' :
  pending s = [] -> emit_next s = (s', None) ->
  reorder_window (progress s) <= reorder_window (progress s').
Proof.
  intros Hp E. pose proof (emit_emitted s) as H. rewrite E in H. cbn [fst snd] in H.
  assert (Hdeg : forall s0, degraded s s0 -> reorder_window (progress s) <= reorder_window (progress s0))
    by (intros s0 []; cbn; lia).
  inversion H as [|s0 Hd|s0 s1 c r Hd|s0 s1 c r Hd Hpop Hr Hp'| |]; subst; [lia|by apply Hdeg|].
  specialize (Hdeg _ Hd). destruct (pop_frame _ _ _ _ Hpop) as (_ & _ & _ & Hw).
  destruct (announce_frame s1 c) as (_ & _ & _ & _ & Hw' & _). lia.
Qed.

(** ** Invariants over the events of a stream *)

Section polling.
Context `{KafkaProtocol, Batch.RecordCodec} {W : Type} (net : ReadNet W).

(** An invariant of the events yielded so far and of the state. *)
Variable I : list ScanEvent -> ScanState -> Prop.

Hypothesis pending_step : forall h s event rest,
  I h s -> pending s = event :: rest -> I (h ++ [event]) (set_pending s rest).
Hypothesis refill_step : forall h w s w' s' r,
  I h s -> pending s = [] -> done_ s = false -> limit_reached s = false ->
  refill net w s = (w', s', r) -> I h s'.
Hypothesis emit_step : forall h s s' event,
  I h s -> pending s = [] -> done_ s = false -> limit_reached s = false ->
  emit_next s = (s', event) -> I (h ++ event_list event) s'.
Hypothesis finish_step : forall h s,
  I h s -> pending s = [] -> done_ s = false ->
  (limit_reached s = true \/ all_exhausted s = true) ->
  I (h ++ [(finish s).2]) (finish s).1.
Hypothesis done_step : forall h s, I h s -> I h (set_done s).

Lemma next_event_inv fuel : forall h w s w' s' event,
  I h s -> next_event net fuel w s = Some (w', s', event) ->
  I (h ++ match event with Some (Ok e) => [e] | _ => [] end) s'.
Proof using pending_step refill_step emit_step finish_step done_step.
  induction fuel as [|fuel IH]; intros h w s w' s' event HI; [done|]. cbn [next_event].
  destruct (pending s) as [|e rest] eqn:Ep.
  2:{ intros [= <- <- <-]. by apply pending_step. }
  destruct (done_ s) eqn:Ed; [intros [= <- <- <-]; by rewrite app_nil_r|].
  destruct (limit_reached s) eqn:El.
  { pose proof (finish_step h s HI Ep Ed (or_introl El)) as Hf.
    destruct (finish s) as [s1 e]. by intros [= <- <- <-]. }
  destruct (refill net w s) as [[w1 s1] r] eqn:Er.
  pose proof (refill_frame net w s) as Hfr. rewrite Er in Hfr. cbn [fst snd] in Hfr.
  pose proof (limit_reached_frame _ _ Hfr) as El1. rewrite El in El1.
  destruct Hfr as [_ _ Ep1 Ed1 _ _ _]. rewrite Ep in Ep1. rewrite Ed in Ed1.
  pose proof (refill_step _ _ _ _ _ _ HI Ep Ed El Er) as H1.
  destruct r as [ok|e]; [|intros [= <- <- <-]; rewrite app_nil_r; by apply done_step].
  destruct (emit_next s1) as [s2 e2] eqn:Ee.
  pose proof (emit_step _ _ _ _ H1 Ep1 Ed1 El1 Ee) as H2.
  destruct e2 as [e2|]; [by intros [= <- <- <-]|]. cbn [event_list] in H2.
  rewrite app_nil_r in H2. destruct (emit_quiet _ _ Ep1 Ee) as [Ep2 Ed2]. rewrite Ed1 in Ed2.
  destruct (all_exhausted s2) eqn:Ex.
  - pose proof (finish_step h s2 H2 Ep2 Ed2 (or_intror Ex)) as Hf.
    destruct (finish s2) as [s3 e]. by intros [= <- <- <-].
  - by apply IH.
Qed.

Lemma stream_inv fuel n : forall h w s w' s' l,
  I h s -> stream net fuel n w s = Some (w', s', l) -> I (h ++ oks l) s'.
Proof using pending_step refill_step emit_step finish_step done_step.
  induction n as [|n IH]; intros h w s w' s' l HI; cbn [stream].
  { intros [= <- <- <-]. by rewrite app_nil_r. }
  destruct (next_event net fuel w s) as [[[w1 s1] e]|] eqn:E; [|done]. cbn [mbind option_bind].
  pose proof (next_event_inv _ _ _ _ _ _ _ HI E) as H1.
  destruct e as [e|]; [|intros [= <- <- <-]; exact H1].
  destruct (stream net fuel n w1 s1) as [[[w2 s2] rest]|] eqn:Es; [|done]. cbn [mbind option_bind].
  intros [= <- <- <-]. pose proof (IH _ _ _ _ _ _ H1 Es) as H2.
  destruct e as [e|e]; cbn [oks flat_map]; rewrite <- ?app_assoc in H2; [exact H2|exact H2].
Qed.

End polling.

End ScanFacts.
