(* ===== verification/ScanRounds.v ===== *)
(** One round of a scan against leaders that answer what they were asked: which cursors
    a round moves, and how. *)

From S2P Require Import Prelude Sanitize ErrorCodes Retry BatchDecode Fetch Coordinator Scan ScanFacts.

Module ScanRounds.
Import ReadFetch Scan ScanFacts.

(** ** The cursor of a partition *)

Definition cursor_of (l : list PartitionCursor) (p : Z) : option PartitionCursor :=
  List.find (fun c => c_partition c =? p) l.

Lemma cursor_of_update p c' l q :
  c_partition c' = p -> is_Some (cursor_of l p) ->
  cursor_of (update_first p (fun _ => c') l) q = if q =? p then Some c' else cursor_of l q.
Proof.
  intros <-. induction l as [|d l IH]; cbn [cursor_of List.find update_first]; [by intros []|].
  destruct (Z.eqb_spec (c_partition d) (c_partition c')) as [E|E]; intros Hs; cbn [cursor_of List.find].
  - destruct (Z.eqb_spec (c_partition c') q) as [->|E']; [by rewrite Z.eqb_refl|].
    rewrite (proj2 (Z.eqb_neq q _)) by congruence.
    by rewrite (proj2 (Z.eqb_neq (c_partition d) q)) by congruence.
  - destruct (Z.eqb_spec (c_partition d) q) as [<-|E']; [|by apply IH].
    by rewrite (proj2 (Z.eqb_neq _ _)).
Qed.

Lemma cursor_of_elem l c :
  NoDup (map c_partition l) -> c ∈ l -> cursor_of l (c_partition c) = Some c.
Proof.
  induction l as [|d l IH]; cbn [map cursor_of List.find]; intros Hn Hc; [by apply not_elem_of_nil in Hc|].
  apply NoDup_cons in Hn as [Hd Hn]. apply elem_of_cons in Hc as [->|Hc]; [by rewrite Z.eqb_refl|].
  destruct (Z.eqb_spec (c_partition d) (c_partition c)) as [E|E]; [|by apply IH].
  destruct Hd. rewrite E. by apply list_elem_of_fmap_2.
Qed.

(** Cursors that agree partition by partition. *)
Lemma cursors_forall2 (R : PartitionCursor -> PartitionCursor -> Prop) l l' :
  NoDup (map c_partition l) -> map c_partition l' = map c_partition l ->
  (forall c c', c ∈ l -> cursor_of l' (c_partition c) = Some c' -> R c c') -> Forall2 R l l'.
Proof.
  intros Hn Hm HR.
  assert (Hn' : NoDup (map c_partition l')) by by rewrite Hm.
  assert (HR' : forall c c', c ∈ l -> c' ∈ l' -> c_partition c' = c_partition c -> R c c').
  { intros c c' Hc Hc' E. apply HR; [done|]. rewrite <- E. by apply cursor_of_elem. }
  clear HR Hn Hn'. revert l' Hm HR'. induction l as [|c l IH]; intros [|c' l'] Hm HR; try done.
  cbn [map] in Hm. injection Hm as E Hm. constructor; [apply HR; [by left|by left|done]|].
  apply IH; [done|]. intros d d' Hd Hd'. apply HR; by right.
Qed.

(** ** What a round asks *)

Definition eligible (s : ScanState) (c : PartitionCursor) : bool :=
  bool_decide (buffered c = [])
  && should_fetch (negb (exhausted c)) (follow (spec s)) (buffered_total s =? 0).

Definition target_of (sp : ScanSpec) (c : PartitionCursor) : FetchTarget :=
  {| ft_partition := c_partition c; ft_offset := next_offset c;
     ft_max_bytes := partition_max_bytes sp |}.

Lemma flat_targets s :
  flat (targets s)
  ≡ₚ map (fun c => (c_leader c, target_of (spec s) c)) (List.filter (eligible s) (cursors s)).
Proof.
  unfold targets. rewrite <- (app_nil_l (map _ _)), <- (flat_empty (K := Z) (A := FetchTarget)).
  generalize (∅ : gmap Z (list FetchTarget)) as m.
  induction (cursors s) as [|c l IH]; intros m; cbn [foldl List.filter map]; [by rewrite app_nil_r|].
  rewrite IH. unfold eligible. destruct (buffered c) eqn:Eb; cbn [bool_decide decide_rel].
  - rewrite bool_decide_false by (intros H; by apply H). cbn [andb].
    destruct (should_fetch _ _ _); cbn [map]; [|done].
    rewrite flat_push. cbn [app]. unfold target_of. rewrite <- app_assoc. done.
  - rewrite bool_decide_true by done. done.
Qed.

Lemma flat_elem {A} (m : gmap Z (list A)) k l x :
  (k, l) ∈ map_to_list m -> x ∈ l -> (k, x) ∈ flat m.
Proof.
  intros Hkl Hx. unfold flat. rewrite list_elem_of_In, in_flat_map. exists (k, l).
  rewrite <- list_elem_of_In. split; [done|]. apply List.in_map. by rewrite <- list_elem_of_In.
Qed.

(** ** A round *)

Section round.
Context `{KafkaProtocol, Batch.RecordCodec} {W : Type} (net : ReadNet W) (sp : ScanSpec).

(** A leader's answer to a fetch of the scan, which asks for a partition once. *)
Definition answered (leader : Z) (tgts : list FetchTarget) (l : list FetchedPartition) : Prop :=
  NoDup (map ft_partition tgts) /\
  exists w id w',
    fetch (node net leader) w (topic sp) id tgts (max_wait_ms sp) (fetch_max_bytes sp)
      (visibility sp) = (w', Ok l).

(** Every answered partition was asked for, and is answered once. *)
Definition answers_what_was_asked : Prop := forall leader tgts l,
  answered leader tgts l ->
  NoDup (map f_partition l) /\ forall p, p ∈ l -> f_partition p ∈ map ft_partition tgts.

(** Every partition asked for is answered. *)
Definition answers_everything : Prop := forall leader tgts l t,
  answered leader tgts l -> t ∈ tgts -> exists p, p ∈ l /\ f_partition p = ft_partition t.

(** A cursor moved by the answer to its own target. *)
Definition moved (c c' : PartitionCursor) : Prop :=
  exists leader tgts l p,
    answered leader tgts l /\ p ∈ l /\ f_partition p = c_partition c /\
    target_of sp c ∈ tgts /\ c' = absorbed_cursor sp p c.

(** The same, and the partition was read or is done with, not too big. *)
Definition settled (c c' : PartitionCursor) : Prop :=
  exists leader tgts l p,
    answered leader tgts l /\ p ∈ l /\ f_partition p = c_partition c /\
    target_of sp c ∈ tgts /\ is_ok (absorb_cursor sp p c).2 = true /\
    c' = absorbed_cursor sp p c.

Definition moved_as (fine : bool) : PartitionCursor -> PartitionCursor -> Prop :=
  if fine then settled else moved.

Lemma moved_as_moved fine c c' : moved_as fine c c' -> moved c c'.
Proof.
  destruct fine; [|done]. intros (leader & tgts & l & p & H1 & H2 & H3 & H4 & _ & H5).
  by exists leader, tgts, l, p.
Qed.

Lemma moved_as_weaken fine b c c' : moved_as fine c c' -> moved_as (fine && b) c c'.
Proof. intros Hm. destruct fine, b; try done. by apply (moved_as_moved true). Qed.

Context (Hasked : answers_what_was_asked).

(** The partitions [D] of [s0] have been absorbed. *)
Definition in_round (s0 s : ScanState) (D : list Z) (fine : bool) : Prop :=
  spec s = sp /\ map c_partition (cursors s) = map c_partition (cursors s0) /\
  forall c, c ∈ cursors s0 -> exists c', cursor_of (cursors s) (c_partition c) = Some c' /\
    (c_partition c ∉ D -> c' = c) /\ (c_partition c ∈ D -> moved_as fine c c').

Lemma in_round_start s : spec s = sp -> NoDup (map c_partition (cursors s)) -> in_round s s [] true.
Proof.
  intros Hs Hn. split; [done|]. split; [done|]. intros c Hc. exists c.
  split; [by apply cursor_of_elem|]. split; [done|]. intros Hin. by apply not_elem_of_nil in Hin.
Qed.

Lemma absorb_partitions s p : map c_partition (cursors (absorb s p).1) = map c_partition (cursors s).
Proof.
  pose proof (absorb_identity s p) as Hi. apply (f_equal (map fst)) in Hi. by rewrite !map_map in Hi.
Qed.

(** One answer: the asked partition moves, unless it was absorbed before. *)
Lemma absorb_in_round s0 s D fine leader tgts l p :
  NoDup (map c_partition (cursors s0)) -> in_round s0 s D fine ->
  answered leader tgts l -> p ∈ l -> f_partition p ∉ D ->
  (exists c, c ∈ cursors s0 /\ c_partition c = f_partition p /\ target_of sp c ∈ tgts) ->
  in_round s0 (absorb s p).1 (f_partition p :: D) (fine && is_ok (absorb s p).2).
Proof.
  intros Hn (I1 & I2 & I3) Ha Hp HD (c0 & Hc0 & Ep & Ht).
  destruct (I3 c0 Hc0) as (c0' & F0 & K0 & _).
  assert (Huniq : forall c, c ∈ cursors s0 -> c_partition c = f_partition p -> c = c0).
  { intros c Hc E. pose proof (cursor_of_elem _ _ Hn Hc) as X. rewrite E, <- Ep in X.
    rewrite (cursor_of_elem _ _ Hn Hc0) in X. congruence. }
  rewrite Ep in F0, K0. specialize (K0 HD). subst c0'.
  assert (Hcur : forall q, cursor_of (cursors (absorb s p).1) q
                 = if q =? f_partition p then Some (absorbed_cursor sp p c0)
                   else cursor_of (cursors s) q).
  { intros q. rewrite absorb_cursors. pose proof F0 as F. unfold cursor_of in F. rewrite F, I1.
    apply cursor_of_update; [|by exists c0]. by destruct (absorb_cursor_fixed sp p c0) as (-> & _). }
  split; [|split]; [|by rewrite absorb_partitions|].
  { destruct (absorb_frame s p) as [-> _ _ _ _ _ _]. done. }
  intros c Hc. rewrite Hcur. destruct (Z.eqb_spec (c_partition c) (f_partition p)) as [E|E].
  - rewrite (Huniq c Hc E). exists (absorbed_cursor sp p c0). split; [done|].
    rewrite Ep. split; [by intros []%not_elem_of_cons|]. intros _.
    assert (Hread : (absorb s p).2 = (absorb_cursor sp p c0).2).
    { pose proof F0 as F. unfold cursor_of in F. unfold absorb. rewrite F, I1.
      by destruct (absorb_cursor sp p c0) as [[[? ?] ?] ?]. }
    rewrite Hread. unfold moved_as.
    destruct (fine && _) eqn:Ef; exists leader, tgts, l, p; split_and!; try done.
    by apply andb_true_iff in Ef as [_ ?].
  - destruct (I3 c Hc) as (c' & F & K & M). exists c'. split; [done|]. split.
    + intros [_ ?]%not_elem_of_cons. by apply K.
    + intros [?|?]%elem_of_cons; [done|by apply moved_as_weaken, M].
Qed.

Lemma absorb_all_in_round s0 leader tgts l :
  NoDup (map c_partition (cursors s0)) -> answered leader tgts l ->
  forall rest s D fine, (forall p, p ∈ rest -> p ∈ l) ->
  in_round s0 s D fine -> NoDup (map f_partition rest) ->
  (forall p, p ∈ rest -> (f_partition p ∉ D) /\
     (exists c, c ∈ cursors s0 /\ c_partition c = f_partition p /\ target_of sp c ∈ tgts)) ->
  exists D', in_round s0 (absorb_all s rest).1 D' (fine && is_ok (absorb_all s rest).2) /\ D ⊆ D' /\ D' ⊆ D ++ map f_partition rest /\
    (is_ok (absorb_all s rest).2 = true -> map f_partition rest ⊆ D').
Proof.
  intros Hn Ha. induction rest as [|p rest IH]; intros s D fine Hl HI Hnd Hc.
  { exists D. rewrite app_nil_r. split_and!; [by rewrite andb_true_r|done|done|]. intros _ q Hq. by apply not_elem_of_nil in Hq. }
  cbn [map] in Hnd. apply NoDup_cons in Hnd as [Hp Hnd]. cbn [absorb_all].
  destruct (Hc p) as [HD Hcp]; [by left|].
  pose proof (absorb_in_round s0 s D fine leader tgts l p Hn HI Ha (Hl p ltac:(by left)) HD Hcp) as H1.
  destruct (absorb s p) as [s1 [ok|e]] eqn:Es; cbn [fst snd] in *.
  2:{ exists (f_partition p :: D). split_and!; [done| | |done]; cbn [map]; set_solver. }
  cbn [is_ok] in H1. rewrite andb_true_r in H1.
  destruct (IH s1 (f_partition p :: D) fine) as (D' & J1 & J2 & J3 & J4);
    [intros q Hq; apply Hl; by right|done|done| |].
  { intros q Hq. destruct (Hc q) as [HDq Hcq]; [by right|]. split; [|done].
    apply not_elem_of_cons. split; [|done].
    intros E. apply Hp. rewrite <- E. by apply list_elem_of_fmap_2. }
  destruct (absorb_all s1 rest) as [s2 r] eqn:Er; cbn [fst snd] in *.
  assert (Er' : is_ok (let? rest := r in Ok (ok || rest)) = is_ok r) by by destruct r.
  rewrite Er'. exists D'. split_and!; [done|set_solver|cbn [map]; set_solver|]. intros Hok'.
  specialize (J4 Hok'). cbn [map]. set_solver.
Qed.

(** Every leader of the round in turn. *)
Lemma fetch_leaders_in_round s0 : NoDup (map c_partition (cursors s0)) ->
  forall rest w s D fine, in_round s0 s D fine ->
  NoDup (map ft_partition (concat (map snd rest))) ->
  (forall t, t ∈ concat (map snd rest) -> (ft_partition t ∉ D) /\
     (exists c, c ∈ cursors s0 /\ target_of sp c = t)) ->
  exists D', in_round s0 (fetch_leaders net w s rest).1.2 D'
               (fine && is_ok (fetch_leaders net w s rest).2) /\
    D' ⊆ D ++ map ft_partition (concat (map snd rest)) /\
    (answers_everything -> is_ok (fetch_leaders net w s rest).2 = true ->
       D ++ map ft_partition (concat (map snd rest)) ⊆ D').
Proof using Hasked.
  intros Hn. induction rest as [|[leader tgts] rest IH]; intros w s D fine HI Hnd Hc.
  { exists D. cbn. rewrite app_nil_r, andb_true_r. by split_and!. }
  cbn [map concat snd] in *. rewrite map_app in *. apply NoDup_app in Hnd as (Hnd1 & Hdis & Hnd2).
  cbn [fetch_leaders]. pose proof HI as (Hs & _).
  destruct (fetch _ _ _ _ _ _ _ _) as [w1 [l|]] eqn:Ef.
  2:{ exists D. cbn [fst snd is_ok]. split_and!; [|set_solver|discriminate].
      destruct HI as (I1 & I2 & I3). split; [done|]. split; [done|]. intros c Hcs.
      destruct (I3 c Hcs) as (c' & F & K & M). exists c'. split_and!; [done|done|].
      intros Hin. by apply moved_as_weaken, M. }
  rewrite Hs in Ef. assert (Ha : answered leader tgts l) by (split; [done|]; exists w, (Scan.topic_id s), w1; exact Ef).
  destruct (Hasked _ _ _ Ha) as [Hl1 Hl2].
  destruct (absorb_all_in_round s0 leader tgts l Hn Ha l s D fine) as (D1 & J1 & J2 & J3 & J4); [done|done|done| |].
  { intros p Hp. pose proof (Hl2 p Hp) as Ht. apply list_elem_of_fmap in Ht as (t & Et & Ht).
    destruct (Hc t) as (HD & c & Hcs & Ec); [set_solver|]. rewrite Et. split; [done|].
    exists c. subst t. by split_and!. }
  assert (Hsub : map f_partition l ⊆ map ft_partition tgts).
  { intros q (p & -> & Hp)%list_elem_of_fmap. by apply Hl2. }
  destruct (absorb_all s l) as [s1 [ok|e]]; cbn [fst snd is_ok] in *.
  2:{ exists D1. split_and!; [done|set_solver|discriminate]. }
  rewrite andb_true_r in J1. destruct (IH w1 s1 D1 fine J1 Hnd2) as (D2 & K1 & K2 & K3).
  { intros t Ht. destruct (Hc t) as (HD & Hct); [set_solver|]. split; [|done].
    intros Hin. apply J3, elem_of_app in Hin as [Hin|Hin]; [done|].
    apply (Hdis (ft_partition t)); [by apply Hsub|by apply list_elem_of_fmap_2]. }
  destruct (fetch_leaders net w1 s1 rest) as [[w2 s2] r]; cbn [fst snd] in *.
  assert (Er' : is_ok (let? rest := r in Ok (ok || rest)) = is_ok r) by by destruct r.
  rewrite Er'. exists D2. split_and!; [done|clear - K2 J3 Hsub; set_solver|]. intros Hall Hr.
  assert (Htg : map ft_partition tgts ⊆ map f_partition l).
  { intros q (t & -> & Ht)%list_elem_of_fmap. destruct (Hall _ _ _ _ Ha Ht) as (p & Hp & E).
    rewrite <- E. by apply list_elem_of_fmap_2. }
  specialize (K3 Hall Hr). specialize (J4 eq_refl). clear - K3 J4 J2 Htg. set_solver.
Qed.

(** What a round does to the cursors: the asked ones may have moved, and have when
    every leader answered everything. *)
Lemma refill_round w s w' s' r :
  spec s = sp -> NoDup (map c_partition (cursors s)) -> refill net w s = (w', s', r) ->
  Forall2 (fun c c' => c' = c \/ eligible s c = true /\ moved c c') (cursors s) (cursors s') /\
  (answers_everything -> is_ok r = true -> buffered_total s < max_buffered_records sp ->
     Forall2 (fun c c' => if eligible s c then settled c c' else c' = c) (cursors s) (cursors s')).
Proof using Hasked.
  intros Hs Hn. unfold refill. rewrite Hs. destruct (Z.leb_spec (max_buffered_records sp) (buffered_total s)).
  { intros [= <- <- <-]. split; [|lia]. cbn. apply Forall_Forall2_diag, Forall_forall. by left. }
  intros E. pose proof (flat_targets s) as Hflat. rewrite Hs in Hflat.
  assert (Hts : concat (map snd (map_to_list (targets s)))
                ≡ₚ map (target_of sp) (List.filter (eligible s) (cursors s))).
  { assert (Hc : concat (map snd (map_to_list (targets s))) = map snd (flat (targets s))).
    { unfold flat. generalize (map_to_list (targets s)) as l. induction l as [|[k l] m IH]; [done|].
      cbn [map concat flat_map snd]. rewrite map_app, map_map, map_id. by rewrite IH. }
    rewrite Hc, Hflat, map_map. done. }
  assert (Hps : map ft_partition (concat (map snd (map_to_list (targets s))))
                ≡ₚ map c_partition (List.filter (eligible s) (cursors s))).
  { rewrite Hts, map_map. done. }
  destruct (fetch_leaders_in_round s Hn (map_to_list (targets s)) w s [] true) as (D & I1 & I2 & I3).
  - by apply in_round_start.
  - rewrite Hps. clear - Hn. induction (cursors s) as [|c l IH]; [constructor|].
    cbn [map] in Hn. apply NoDup_cons in Hn as [Hc Hn]. cbn [List.filter].
    destruct (eligible s c); [|by apply IH]. cbn [map]. constructor; [|by apply IH].
    contradict Hc. apply list_elem_of_fmap in Hc as (d & -> & Hd). apply list_elem_of_fmap_2.
    rewrite list_elem_of_In in Hd |- *. by apply List.filter_In in Hd as [].
  - intros t Ht. split; [apply not_elem_of_nil|]. rewrite Hts in Ht.
    apply list_elem_of_fmap in Ht as (c & -> & Hc). exists c. split; [|done].
    rewrite list_elem_of_In in Hc |- *. by apply List.filter_In in Hc as [].
  - rewrite E in I1, I3. cbn [fst snd] in I1, I3. cbn [app] in I2, I3.
    assert (HD : forall c, c ∈ cursors s -> c_partition c ∈ map c_partition (List.filter (eligible s) (cursors s)) <-> eligible s c = true).
    { intros c Hc. rewrite list_elem_of_fmap. split.
      - intros (d & Ed & Hd). rewrite list_elem_of_In in Hd. apply List.filter_In in Hd as [Hd He].
        rewrite <- list_elem_of_In in Hd. pose proof (cursor_of_elem _ _ Hn Hc) as X.
        rewrite Ed, (cursor_of_elem _ _ Hn Hd) in X. congruence.
      - intros He. exists c. split; [done|]. rewrite list_elem_of_In. apply List.filter_In.
        by rewrite <- list_elem_of_In. }
    destruct I1 as (_ & I4 & I5). split; [|intros Hall Hok _]; (apply cursors_forall2; [done|done|]);
      intros c c' Hc Hf; destruct (I5 c Hc) as (c'' & F & K & M); rewrite Hf in F; injection F as <-.
    + destruct (decide (c_partition c ∈ D)) as [Hin|Hin]; [|left; by apply K]. right.
      split; [|by eapply moved_as_moved, M]. apply HD; [done|]. rewrite <- Hps. by apply I2.
    + destruct (eligible s c) eqn:Ee.
      * rewrite Hok in M. apply M, I3; [done|done|]. rewrite Hps. by apply HD.
      * apply K. intros Hin%I2. rewrite Hps in Hin. apply HD in Hin; [congruence|done].
Qed.

End round.

End ScanRounds.
