(* ===== verification/ScanYield.v ===== *)
(** What a scan promises: which records it yields and how many, in what order, and
    that a browse ends. *)

From S2P Require Import Prelude Sanitize ErrorCodes Retry BatchDecode BatchDecodeFacts Fetch Coordinator Consumer Scan ScanFacts.
From Stdlib Require Import Sorting.Sorted.

Module ScanSpecs.
Import ReadFetch Scan ScanFacts.

(** Nothing follows these in a stream. *)
Definition ends (e : result ScanEvent Error.Error) : bool :=
  match e with Ok (Done _) | Err _ => true | Ok _ => false end.

(** A record the caller asked for: of the topic, through the filter, of a planned
    partition and not before that partition's start. *)
Definition asked (sp : ScanSpec) (planned : list (Z * Z)) (r : Batch.DRecord) : Prop :=
  passes (record_filter sp) r = true /\ Batch.r_topic r = topic sp /\
  exists start, (Batch.r_partition r, start) ∈ planned /\ start <= Batch.r_offset r.

Definition within_limit (sp : ScanSpec) (n : Z) : Prop :=
  match limit sp with Some limit => n <= limit | None => True end.

End ScanSpecs.

Module Yielding.
Import ReadFetch Scan ScanFacts ScanSpecs.

(** What the buffer of a cursor may hold. *)
Definition sound_cursor (sp : ScanSpec) (c : PartitionCursor) : Prop :=
  Forall (fun o => match o with
                   | Batch.Decoded r => Batch.r_topic r = topic sp
                                        /\ Batch.r_partition r = c_partition c
                                        /\ start_offset c <= Batch.r_offset r
                   | Batch.Malformed _ _ _ _ => True
                   end) (buffered c).

Record yielding (sp : ScanSpec) (planned : list (Z * Z)) (h : list ScanEvent) (s : ScanState)
    : Prop := {
  y_spec : spec s = sp;
  y_planned : map identity (cursors s) = planned;
  y_notes : forallb is_note (pending s) = true;
  y_count : records_emitted (progress s) = Z.of_nat (length (records_in h));
  y_limit : within_limit sp (records_emitted (progress s));
  y_buffers : Forall (sound_cursor sp) (cursors s);
  y_records : Forall (asked sp planned) (records_in h);
  y_done : forall p, Done p ∈ h -> done_ s = true /\ records_emitted p = Z.of_nat (length (records_in h));
}.

Section yields.
Context `{KafkaProtocol, Batch.RecordCodec} {W : Type} (net : ReadNet W).

Lemma decode_sound sp p :
  Forall (fun o => match o with
                   | Batch.Decoded r => Batch.r_topic r = topic sp /\ Batch.r_partition r = f_partition p
                   | Batch.Malformed _ _ _ _ => True
                   end) (Batch.outcomes (decode sp p)).
Proof.
  unfold decode, Batch.decode_records_with_aborted.
  destruct (Batch.decode_partition _ _ _ _ _) as [out|] eqn:E; [|constructor].
  by refine (DecodedFacts.decode_partition_records _ _ _
               (fun r => Batch.r_topic r = topic sp /\ Batch.r_partition r = f_partition p) _ _ _ _ E).
Qed.

Lemma kept_elem start l o :
  o ∈ kept start l <-> o ∈ l /\ match o with
                               | Batch.Decoded r => start <= Batch.r_offset r
                               | Batch.Malformed _ _ _ _ => True
                               end.
Proof.
  unfold kept. rewrite list_elem_of_In, List.filter_In, <- list_elem_of_In.
  destruct o; [by rewrite Z.leb_le|by split; intros []].
Qed.

Lemma absorb_sound sp p c :
  c_partition c = f_partition p -> sound_cursor sp c ->
  sound_cursor sp (absorbed_cursor sp p c).
Proof.
  intros Hp Hc. unfold absorbed_cursor, absorb_cursor, sound_cursor.
  pose proof (decode_sound sp p) as Hd.
  destruct (Batch.outcomes (decode sp p)) as [|o l] eqn:Eo; [by branch|].
  cbn [fst set_reading buffered c_partition start_offset catch_up].
  apply Forall_app. split; [done|]. rewrite Forall_forall in Hd. apply Forall_forall.
  intros o' [Ho Hk]%kept_elem. pose proof (Hd o' Ho) as Ho'.
  destruct o'; [|done]. destruct Ho' as [-> ->]. by rewrite Hp.
Qed.

Lemma refill_sound sp planned w s :
  let I s := spec s = sp /\ map identity (cursors s) = planned /\ Forall (sound_cursor sp) (cursors s) in
  I s -> I (refill net w s).1.2.
Proof.
  intros I Hs. refine (refill_inv net I _ _ w s Hs); clear - net.
  - intros s p (Y1 & Y2 & Y3). destruct (absorb_frame s p) as [F1 _ _ _ _ _ _].
    split; [congruence|]. split; [by rewrite absorb_identity|].
    rewrite absorb_cursors. destruct (List.find _ _) as [c|] eqn:Ec; [|done].
    apply find_cursor in Ec as [Hc Hp]. apply update_first_forall; [|done].
    rewrite Y1. apply absorb_sound; [done|]. by rewrite Forall_forall in Y3; apply Y3.
  - done.
Qed.

Lemma refill_yielding sp planned h w s :
  yielding sp planned h s -> yielding sp planned h (refill net w s).1.2.
Proof.
  intros [Y1 Y2 Y3 Y4 Y5 Y6 Y7 Y8].
  destruct (refill_sound sp planned w s) as (R1 & R2 & R3); [done|].
  destruct (refill_frame net w s) as [_ _ F3 F4 F5 _ _].
  by split; rewrite ?F3, ?F4, ?F5.
Qed.

Lemma insert_elem (l : list PartitionCursor) (i : nat) x c :
  c ∈ <[i := x]> l -> c = x \/ exists j, j <> i /\ l !! j = Some c.
Proof.
  intros [j Hj]%list_elem_of_lookup. destruct (decide (j = i)) as [->|Hne].
  - left. apply list_lookup_insert_Some in Hj as [(_ & H2 & _)|[? _]]; [by subst|done].
  - right. exists j. by rewrite list_lookup_insert_ne in Hj.
Qed.

Lemma insert_identity (l : list PartitionCursor) (i : nat) c d :
  l !! i = Some d -> identity c = identity d -> map identity (<[i := c]> l) = map identity l.
Proof.
  revert i. induction l as [|e l IH]; intros [|i] Hl Hi; [done|done| |]; cbn in Hl |- *.
  - injection Hl as ->. by rewrite Hi.
  - by rewrite IH.
Qed.

Lemma emit_yielding sp planned h s s' e :
  yielding sp planned h s -> pending s = [] -> done_ s = false -> limit_reached s = false ->
  emit_next s = (s', e) -> yielding sp planned (h ++ event_list e) s'.
Proof.
  intros [Y1 Y2 Y3 Y4 Y5 Y6 Y7 Y8] Hp Hd Hl E.
  destruct (emit_cases _ _ _ Hp E) as (C1 & C2 & C3 & C).
  assert (Hnd : forall p, Done p ∉ h) by (intros p Hin; destruct (Y8 p Hin); congruence).
  destruct C as [(-> & C4 & _ & _ & C5 & _)|(s0 & s1 & c & o & D1 & D2 & D3 & _ & _ & _ & D4 & D5 & D6)].
  { rewrite app_nil_r. split; rewrite ?C4, ?C5; try done; [congruence|].
    intros p Hin. by destruct (Hnd p). }
  destruct (degraded_frame _ _ D1) as ([Hs0 _ _] & _ & Hc0 & _).
  destruct (pop_cursors _ _ _ _ D2) as (i & d & t & rest & P1 & P2 & P3 & P4 & P5 & _).
  rewrite Hc0 in P2, P5.
  assert (Hds : sound_cursor sp d).
  { rewrite Forall_forall in Y6. apply Y6. by eapply list_elem_of_lookup_2. }
  assert (Hshown : Forall (asked sp planned) (shown s o)).
  { unfold sound_cursor in Hds. rewrite P3 in Hds. apply Forall_cons in Hds as [Ho _].
    unfold shown. destruct o as [r|]; [|constructor]. rewrite Y1.
    destruct (passes _ r) eqn:Ef; [|constructor]. constructor; [|constructor].
    destruct Ho as (H1 & H2 & H3). split; [done|]. split; [done|].
    exists (start_offset d). split; [|done]. rewrite H2, <- Y2.
    by eapply (list_elem_of_fmap_2 identity), list_elem_of_lookup_2. }
  rewrite <- D4 in Hshown, D6.
  split; rewrite ?records_in_app, ?length_app; try done; try congruence.
  - rewrite D3, P5, <- Y2. eapply insert_identity; [done|]. by rewrite P4.
  - lia.
  - rewrite D6. unfold within_limit. unfold limit_reached in Hl. rewrite Y1 in Hl.
    destruct (limit sp) as [n|]; [|done]. apply Z.leb_gt in Hl.
    assert (length (records_in (event_list e)) <= 1)%nat; [|lia].
    rewrite D4. unfold shown. destruct o; [destruct (passes _ _)|]; cbn; lia.
  - rewrite D3, P5. apply Forall_insert; [done|]. rewrite P4. unfold sound_cursor in *.
    rewrite P3 in Hds. by apply Forall_cons in Hds as [_ ?].
  - by apply Forall_app.
  - intros p Hin. apply elem_of_app in Hin as [Hin|Hin]; [by destruct (Hnd p)|].
    destruct e as [e|]; [|by apply not_elem_of_nil in Hin].
    apply list_elem_of_singleton in Hin as <-. done.
Qed.

Lemma stream_yielding sp planned fuel n w s w' s' l :
  yielding sp planned [] s -> stream net fuel n w s = Some (w', s', l) ->
  yielding sp planned (oks l) s'.
Proof.
  intros Hs Hl. refine (stream_inv net (yielding sp planned) _ _ _ _ _ fuel n [] w s w' s' l Hs Hl).
  - intros h s1 e rest [Y1 Y2 Y3 Y4 Y5 Y6 Y7 Y8] Hp. rewrite Hp in Y3. cbn [forallb] in Y3.
    apply andb_true_iff in Y3 as [Y3 Y3'].
    assert (He : records_in [e] = []) by (apply notes_no_records; cbn; by rewrite Y3).
    split; rewrite ?records_in_app, ?He, ?app_nil_r; try done.
    intros p Hin. apply elem_of_app in Hin as [Hin|Hin]; [by apply Y8|].
    by apply list_elem_of_singleton in Hin as <-.
  - intros h w1 s1 w2 s2 r Hy _ _ _ E. pose proof (refill_yielding sp planned h w1 s1 Hy) as H1.
    by rewrite E in H1.
  - intros h s1 s2 e Hy Hp Hd Hlim E. by eapply emit_yielding.
  - intros h s1 [Y1 Y2 Y3 Y4 Y5 Y6 Y7 Y8] Hp Hd _.
    split; cbn [finish fst snd]; rewrite ?records_in_app; cbn [records_in flat_map]; rewrite ?app_nil_r; try done.
    intros p Hin. split; [done|]. apply elem_of_app in Hin as [Hin|Hin].
    + by destruct (Y8 p Hin).
    + apply list_elem_of_singleton in Hin. injection Hin as ->. exact Y4.
  - intros h s1 [Y1 Y2 Y3 Y4 Y5 Y6 Y7 Y8]. split; try done. intros p Hin. by destruct (Y8 p Hin).
Qed.

(** An ending event leaves a state that yields nothing. *)
Lemma next_event_end fuel : forall w s w' s' e,
  forallb is_note (pending s) = true -> next_event net fuel w s = Some (w', s', Some e) ->
  forallb is_note (pending s') = true /\ (ends e = true -> pending s' = [] /\ done_ s' = true).
Proof.
  induction fuel as [|fuel IH]; intros w s w' s' e Hn; [done|]. cbn [next_event].
  destruct (pending s) as [|e0 rest] eqn:Ep.
  2:{ cbn [forallb] in Hn. apply andb_true_iff in Hn as [H1 H2]. intros [= <- <- <-].
      split; [done|]. by destruct e0. }
  destruct (done_ s) eqn:Ed; [done|].
  destruct (limit_reached s); [by intros [= <- <- <-]; cbn; rewrite Ep|].
  destruct (refill net w s) as [[w1 s1] r] eqn:Er.
  pose proof (refill_frame net w s) as [_ _ Ep1 Ed1 _ _ _]. rewrite Er in Ep1, Ed1. cbn [fst snd] in Ep1, Ed1.
  rewrite Ep in Ep1.
  destruct r as [ok|err]; [|intros [= <- <- <-]; cbn; by rewrite Ep1].
  destruct (emit_next s1) as [s2 [e2|]] eqn:Ee; destruct (emit_cases _ _ _ Ep1 Ee) as (_ & _ & Hq & C).
  - intros [= <- <- <-]. split; [done|]. destruct C as [[? _]|(? & ? & ? & ? & C)]; [done|].
    destruct C as (_ & _ & _ & _ & _ & _ & _ & C & _). by destruct e2.
  - destruct (emit_quiet _ _ Ep1 Ee) as [Ep2 _].
    destruct (all_exhausted s2); [intros [= <- <- <-]; cbn; by rewrite Ep2|by apply IH].
Qed.

Lemma stream_ends fuel n : forall w s w' s' l pre e post,
  forallb is_note (pending s) = true -> stream net fuel n w s = Some (w', s', l) ->
  l = pre ++ e :: post -> ends e = true -> post = [].
Proof.
  induction n as [|n IH]; intros w s w' s' l pre e post Hn; cbn [stream].
  { intros [= <- <- <-] Hl. by destruct pre. }
  destruct (next_event net fuel w s) as [[[w1 s1] e1]|] eqn:E; [|done]. cbn [mbind option_bind].
  destruct e1 as [e1|]; [|intros [= <- <- <-] Hl; by destruct pre].
  destruct (next_event_end _ _ _ _ _ _ Hn E) as [Hn1 Hend].
  destruct (stream net fuel n w1 s1) as [[[w2 s2] rest]|] eqn:Es; [|done]. cbn [mbind option_bind].
  intros [= <- <- <-] Hl He. destruct pre as [|e2 pre]; cbn [app] in Hl; injection Hl as -> ->.
  2:{ by eapply IH. }
  destruct (Hend He) as [Hp Hd]. destruct n as [|n]; cbn [stream] in Es; [by injection Es as _ _ <-|].
  destruct fuel as [|fuel]; [done|]. cbn [next_event] in Es. rewrite Hp, Hd in Es.
  cbn [mbind option_bind] in Es. by injection Es as _ _ <-.
Qed.

(** The state a scan starts from. *)
Lemma scan_fresh w sp w0 s0 :
  scan net w sp = (w0, Ok s0) ->
  spec s0 = sp /\ forallb is_note (pending s0) = true /\ Forall (fresh sp) (cursors s0) /\
  reorder_window (progress s0) = 0 /\ done_ s0 = false /\ buffered_total s0 = 0.
Proof.
  unfold scan. destruct (plan net w sp) as [w1 [[cs id]|]] eqn:E; cbn; [|done].
  pose proof (plan_fresh net w sp) as Hf. rewrite E in Hf. cbn [snd] in Hf.
  intros [= <- <-]. split_and!; try done; cbn.
  - clear. by induction cs.
  - clear - Hf. by induction Hf as [|c l Hc Hl IH]; constructor.
Qed.

Lemma scan_start w sp w0 s0 :
  within_limit sp 0 -> scan net w sp = (w0, Ok s0) ->
  yielding sp (map identity (cursors s0)) [] s0.
Proof.
  intros Hl Hs. destruct (scan_fresh w sp w0 s0 Hs) as (F1 & F2 & F3 & _ & F5 & _).
  unfold scan in Hs. destruct (plan net w sp) as [w1 [[cs id]|]]; [|done]. injection Hs as <- <-.
  split; try done.
  - apply Forall_forall. intros c Hc. rewrite Forall_forall in F3. unfold sound_cursor.
    by rewrite (proj1 (F3 c Hc)).
  - intros p Hp. by apply not_elem_of_nil in Hp.
Qed.

End yields.

End Yielding.
