(* ===== verification/ScanOrder.v ===== *)
(** The order in which a scan yields: within a partition the log's, and across
    partitions the timestamps' as long as the reorder window stays 0. *)

From S2P Require Import Prelude Sanitize ErrorCodes Retry BatchDecode BatchDecodeFacts Fetch Coordinator Consumer Scan ScanFacts ScanRounds ScanYield.
From Stdlib Require Import Sorting.Sorted.

Module LogOrder.
Import ReadFetch Scan ScanFacts ScanRounds ScanSpecs Yielding.

(** ** The log the leaders serve *)

Definition before (o1 o2 : Batch.RecordOutcome) : Prop :=
  match o1, o2 with
  | Batch.Decoded r1, Batch.Decoded r2 => Batch.r_offset r1 < Batch.r_offset r2
  | _, _ => True
  end.

Section order.
Context `{KafkaProtocol, Batch.RecordCodec} {W : Type} (net : ReadNet W) (sp : ScanSpec).
Context (planned : list (Z * Z)).

(** The answer to a target: its records ascend and end at the last outcome, and what
    precedes the asked offset, in the batch that holds it, precedes the scan's start
    as well. *)
Record in_log_order : Prop := {
  lo_starts : forall p start, (p, start) ∈ planned -> start <= I64_MAX;
  lo_answers : forall leader tgts l p t start,
    answered net sp leader tgts l -> p ∈ l -> t ∈ tgts -> ft_partition t = f_partition p ->
    (f_partition p, start) ∈ planned ->
    let outcomes := Batch.outcomes (decode sp p) in
    f_log_start_offset p <= I64_MAX /\ StronglySorted before outcomes /\
    forall r, Batch.Decoded r ∈ outcomes ->
      Batch.r_offset r < I64_MAX /\
      Batch.r_offset r <= last_offset_of (List.last outcomes (Batch.Decoded r)) /\
      (start <= Batch.r_offset r -> ft_offset t <= Batch.r_offset r);
}.

(** The timestamps of a partition never fall. *)
Record dated (ts : Z -> Z -> Z) : Prop := {
  da_mono : forall p o1 o2, o1 <= o2 -> ts p o1 <= ts p o2;
  da_min : forall p o, I64_MIN <= ts p o;
  da_answers : forall leader tgts l p r,
    answered net sp leader tgts l -> p ∈ l -> Batch.Decoded r ∈ Batch.outcomes (decode sp p) ->
    Batch.r_timestamp r = ts (f_partition p) (Batch.r_offset r);
}.

(** ** One cursor *)

Record in_order (c : PartitionCursor) : Prop := {
  io_planned : identity c ∈ planned;
  io_range : next_offset c <= I64_MAX;
  io_below : forall r, Batch.Decoded r ∈ buffered c -> Batch.r_offset r < next_offset c;
  io_sorted : StronglySorted before (buffered c);
}.

Lemma list_filter_sorted {A} (R : A -> A -> Prop) (f : A -> bool) l :
  StronglySorted R l -> StronglySorted R (List.filter f l).
Proof.
  induction 1 as [|x l Hl IH Hx]; cbn [List.filter]; [constructor|]. destruct (f x); [|done].
  constructor; [done|]. rewrite Forall_forall in Hx |- *. intros y Hy. apply Hx.
  rewrite list_elem_of_In in Hy |- *. by apply List.filter_In in Hy as [].
Qed.

(** What a moved cursor reads: its log goes on from the offset it asked. *)
Lemma moved_in_order c c' :
  in_log_order -> in_order c -> buffered c = [] -> moved net sp c c' ->
  in_order c' /\ identity c' = identity c /\ next_offset c <= next_offset c' /\
  (forall r, Batch.Decoded r ∈ buffered c' -> next_offset c <= Batch.r_offset r).
Proof.
  intros Hlog [I1 I2 I3 I4] Hb (leader & tgts & l & p & Ha & Hp & Ep & Ht & ->).
  destruct (absorb_cursor_fixed sp p c) as (A1 & A2 & _).
  assert (Hid : identity (absorbed_cursor sp p c) = identity c) by (unfold identity; congruence).
  destruct (lo_answers Hlog leader tgts l p _ (start_offset c) Ha Hp Ht) as (L1 & L2 & L3);
    [by rewrite Ep|by rewrite Ep|]. cbn [target_of ft_offset] in L3.
  enough (Hc : next_offset c <= next_offset (absorbed_cursor sp p c) <= I64_MAX /\
    StronglySorted before (buffered (absorbed_cursor sp p c)) /\
    forall r, Batch.Decoded r ∈ buffered (absorbed_cursor sp p c) ->
      next_offset c <= Batch.r_offset r < next_offset (absorbed_cursor sp p c)).
  { destruct Hc as (C1 & C2 & C3). split_and!; [|done|lia|intros r Hr; by apply C3].
    split; [by rewrite Hid|lia|intros r Hr; by apply C3|done]. }
  clear A1 A2 Hid. unfold absorbed_cursor, absorb_cursor.
  destruct (Batch.outcomes (decode sp p)) as [|o outs] eqn:Eo.
  - assert (Hnil : forall r, Batch.Decoded r ∉ buffered c) by (intros r; rewrite Hb; apply not_elem_of_nil).
    destruct (_ || _); [|destruct (negb _)];
      cbn [fst catch_up set_reading next_offset buffered];
      (split; [unfold i64_saturating_add, clamp; unfold I64_MIN, I64_MAX in *; lia|]);
      (split; [done|]); intros r Hr; by destruct (Hnil r).
  - cbn [fst catch_up set_reading next_offset buffered start_offset]. rewrite Hb. cbn [app].
    split; [unfold i64_saturating_add, clamp; unfold I64_MIN, I64_MAX in *; lia|].
    split; [by apply list_filter_sorted|].
    intros r [Hr Hk]%kept_elem. destruct (L3 r Hr) as (M1 & M2 & M3).
    assert (El : List.last (o :: outs) (Batch.Decoded r) = List.last (o :: outs) o).
    { clear. revert o. induction outs as [|o2 outs IH]; intros o; [done|]. cbn [List.last] in *.
      destruct outs; [done|]. apply IH. }
    rewrite El in M2. split; [by apply M3|].
    unfold i64_saturating_add, clamp. unfold I64_MIN, I64_MAX in *. lia.
Qed.

(** ** The order within a partition *)

Definition offsets_of (q : Z) (l : list Batch.DRecord) : list Z :=
  map Batch.r_offset (List.filter (fun r => Batch.r_partition r =? q) l).

Record log_ordered (h : list ScanEvent) (s : ScanState) : Prop := {
  g_spec : spec s = sp;
  g_planned : map identity (cursors s) = planned;
  g_notes : forallb is_note (pending s) = true;
  g_sound : Forall (sound_cursor sp) (cursors s);
  g_cursors : Forall in_order (cursors s);
  g_below : forall r c, r ∈ records_in h -> c ∈ cursors s -> Batch.r_partition r = c_partition c ->
    Batch.r_offset r < next_offset c /\
    forall r', Batch.Decoded r' ∈ buffered c -> Batch.r_offset r < Batch.r_offset r';
  g_sorted : forall q, StronglySorted Z.lt (offsets_of q (records_in h));
}.

Lemma planned_nodup s :
  NoDup (map fst planned) -> map identity (cursors s) = planned ->
  NoDup (map c_partition (cursors s)).
Proof. intros Hn <-. by rewrite map_map in Hn. Qed.

(** Only eligible cursors move, and those have nothing buffered. *)
Lemma refill_moves w s c' :
  answers_what_was_asked net sp -> NoDup (map fst planned) ->
  spec s = sp -> map identity (cursors s) = planned -> c' ∈ cursors (refill net w s).1.2 ->
  c' ∈ cursors s \/ exists c, c ∈ cursors s /\ eligible s c = true /\ buffered c = [] /\ moved net sp c c'.
Proof.
  intros Hask Hn Hs Hp Hc'. destruct (refill net w s) as [[w' s'] r] eqn:E.
  destruct (refill_round net sp Hask w s w' s' r Hs (planned_nodup _ Hn Hp) E) as [Hr _].
  cbn [fst snd] in Hc'. apply list_elem_of_lookup in Hc' as [i Hi].
  destruct (Forall2_lookup_r _ _ _ _ _ Hr Hi) as (c & Hc & [->|[He Hm]]).
  - left. by eapply list_elem_of_lookup_2.
  - right. exists c. split; [by eapply list_elem_of_lookup_2|]. split_and!; [done| |done].
    unfold eligible in He. apply andb_true_iff in He as [He _]. by apply bool_decide_eq_true in He.
Qed.

Lemma refill_log_ordered h w s :
  in_log_order -> answers_what_was_asked net sp -> NoDup (map fst planned) ->
  log_ordered h s -> log_ordered h (refill net w s).1.2.
Proof.
  intros Hlog Hask Hn [G1 G2 G3 G4 G5 G6 G7].
  destruct (refill_sound net sp planned w s) as (R1 & R2 & R3); [done|].
  destruct (refill_frame net w s) as [_ _ F3 _ _ _ _].
  rewrite Forall_forall in G5.
  split; rewrite ?F3; try done.
  - apply Forall_forall. intros c' Hc'. destruct (refill_moves w s c' Hask Hn G1 G2 Hc') as [Hc|(c & Hc & _ & Hb & Hm)].
    + by apply G5.
    + by destruct (moved_in_order c c' Hlog (G5 c Hc) Hb Hm).
  - intros r c' Hr Hc' E. destruct (refill_moves w s c' Hask Hn G1 G2 Hc') as [Hc|(c & Hc & _ & Hb & Hm)].
    + by apply G6.
    + destruct (moved_in_order c c' Hlog (G5 c Hc) Hb Hm) as (_ & Hid & Hle & Hnew).
      injection Hid as Hp _. destruct (G6 r c Hr Hc) as [H1 _]; [congruence|].
      split; [lia|]. intros r' Hr'. specialize (Hnew r' Hr'). lia.
Qed.

(** The taken outcome, as the invariants see it. *)
Lemma taken s s0 s1 c o :
  degraded s s0 -> pop s0 = Some (s1, c, o) ->
  exists i d t rest, least_head (cursors s) i t /\ cursors s !! i = Some d /\
    buffered d = o :: rest /\ outcome_timestamp o = t /\
    c = set_reading d (next_offset d) (end_offset d) rest (finished d) /\
    cursors s1 = <[i := c]> (cursors s).
Proof.
  intros Hd Hp. destruct (degraded_frame _ _ Hd) as (_ & _ & Hc & _).
  destruct (pop_cursors _ _ _ _ Hp) as (i & d & t & rest & P1 & P2 & P3 & P4 & P5 & _).
  pose proof (choose_least (cursors s0)) as Hl. rewrite P1, Hc in Hl. rewrite Hc in P2, P5.
  exists i, d, t, rest. split_and!; try done. destruct Hl as [(d' & Hd' & Ht) _].
  rewrite P2 in Hd'. injection Hd' as <-. unfold head_timestamp in Ht. rewrite P3 in Ht.
  by injection Ht.
Qed.

Lemma popped_in_order d o rest :
  in_order d -> buffered d = o :: rest ->
  in_order (set_reading d (next_offset d) (end_offset d) rest (finished d)).
Proof.
  intros [I1 I2 I3 I4] Hb. rewrite Hb in I3, I4. apply StronglySorted_inv in I4 as [I4 _].
  split; cbn; try done. intros r Hr. apply I3. by right.
Qed.

Lemma popped_sound d o rest :
  sound_cursor sp d -> buffered d = o :: rest ->
  sound_cursor sp (set_reading d (next_offset d) (end_offset d) rest (finished d)).
Proof. unfold sound_cursor. intros Hd Hb. rewrite Hb in Hd. by apply Forall_cons in Hd as [_ ?]. Qed.

Lemma StronglySorted_snoc {A} (R : A -> A -> Prop) l x :
  StronglySorted R l -> (forall y, y ∈ l -> R y x) -> StronglySorted R (l ++ [x]).
Proof.
  induction 1 as [|y l Hl IH Hy]; intros Hx; cbn [app]; [by repeat constructor|].
  constructor; [apply IH; intros z Hz; apply Hx; by right|].
  apply Forall_app. split; [done|]. constructor; [|constructor]. apply Hx. by left.
Qed.

(** The other cursors are those of other partitions. *)
Lemma taken_others l i d c :
  NoDup (map c_partition l) -> l !! i = Some d ->
  forall f, f ∈ <[i := c]> l -> f = c \/ f ∈ l /\ c_partition f <> c_partition d.
Proof.
  intros Hn Hd f [->|(j & Hj & Hl)]%insert_elem; [by left|right].
  split; [by eapply list_elem_of_lookup_2|]. intros Ef. apply Hj.
  apply (NoDup_lookup (map c_partition l) _ _ (c_partition d)); [done| |];
    rewrite list_lookup_fmap; [rewrite Hl|rewrite Hd]; cbn; congruence.
Qed.

Lemma shown_decoded s o r : r ∈ shown s o -> o = Batch.Decoded r.
Proof.
  unfold shown. destruct o as [r'|]; [|by intros ?%not_elem_of_nil].
  destruct (passes _ r'); [|by intros ?%not_elem_of_nil]. by intros ->%list_elem_of_singleton.
Qed.

Lemma pending_log_ordered h s e rest :
  log_ordered h s -> pending s = e :: rest -> log_ordered (h ++ [e]) (set_pending s rest).
Proof.
  intros [G1 G2 G3 G4 G5 G6 G7] Hp. rewrite Hp in G3. cbn [forallb] in G3.
  apply andb_true_iff in G3 as [G3 G3'].
  assert (He : records_in [e] = []) by (apply notes_no_records; cbn; by rewrite G3).
  by split; rewrite ?records_in_app, ?He, ?app_nil_r.
Qed.

Lemma finish_log_ordered h s : log_ordered h s -> log_ordered (h ++ [(finish s).2]) (finish s).1.
Proof.
  intros [G1 G2 G3 G4 G5 G6 G7]. split; cbn [finish fst snd]; rewrite ?records_in_app;
    cbn [records_in flat_map]; rewrite ?app_nil_r; done.
Qed.

Lemma emit_log_ordered h s s' e :
  NoDup (map fst planned) -> log_ordered h s -> pending s = [] -> emit_next s = (s', e) ->
  log_ordered (h ++ event_list e) s'.
Proof.
  intros Hn [G1 G2 G3 G4 G5 G6 G7] Hp E.
  destruct (emit_cases _ _ _ Hp E) as (C1 & _ & C3 & C).
  destruct C as [(-> & C4 & _)|(s0 & s1 & c & o & D1 & D2 & D3 & _ & _ & _ & D4 & _ & _)].
  { rewrite app_nil_r. split; rewrite ?C4; try done. congruence. }
  destruct (taken _ _ _ _ _ D1 D2) as (i & d & t & rest & _ & T2 & T3 & _ & T5 & T6).
  pose proof (planned_nodup s Hn G2) as Hnd.
  assert (Hd : d ∈ cursors s) by by eapply list_elem_of_lookup_2.
  rewrite Forall_forall in G4, G5. pose proof (G4 d Hd) as Sd. pose proof (G5 d Hd) as Od.
  assert (Hid : map identity (cursors s') = planned).
  { rewrite D3, T6, <- G2. eapply insert_identity; [done|]. by rewrite T5. }
  assert (Hin := taken_others (cursors s) i d c Hnd T2). rewrite <- T6, <- D3 in Hin.
  assert (Hrec : records_in (h ++ event_list e) = records_in h ++ shown s o) by (by rewrite records_in_app, D4).
  assert (Hnew : forall r, r ∈ shown s o -> o = Batch.Decoded r /\ Batch.r_partition r = c_partition d).
  { intros r Hr%shown_decoded. subst o. split; [done|].
    unfold sound_cursor in Sd. rewrite T3 in Sd. by apply Forall_cons in Sd as [(_ & ? & _) _]. }
  split; try done; [congruence| | | |].
  - rewrite D3, T6. apply Forall_insert; [by apply Forall_forall|]. rewrite T5. by eapply popped_sound.
  - rewrite D3, T6. apply Forall_insert; [by apply Forall_forall|]. rewrite T5. by eapply popped_in_order.
  - intros r f Hr Hf Ef. rewrite Hrec in Hr. apply elem_of_app in Hr as [Hr|Hr].
    + apply Hin in Hf as [->|[Hf _]]; [|by apply G6].
      rewrite T5 in Ef |- *. cbn in Ef |- *. destruct (G6 r d Hr Hd Ef) as [H1 H2]. split; [done|].
      intros r' Hr'. apply H2. rewrite T3. by right.
    + destruct (Hnew r Hr) as [-> Ep]. apply Hin in Hf as [->|[_ Hf]]; [|congruence].
      rewrite T5. cbn. destruct Od as [_ _ O3 O4]. rewrite T3 in O3, O4. split; [apply O3; by left|].
      intros r' Hr'. apply StronglySorted_inv in O4 as [_ O4]. rewrite Forall_forall in O4.
      exact (O4 _ Hr').
  - intros q. rewrite Hrec. unfold offsets_of. rewrite List.filter_app, map_app.
    unfold shown in *. destruct o as [r|]; [|rewrite app_nil_r; apply G7].
    destruct (passes _ r); [|rewrite app_nil_r; apply G7]. cbn [List.filter].
    destruct (Z.eqb_spec (Batch.r_partition r) q) as [<-|]; [|rewrite app_nil_r; apply G7].
    cbn [map]. apply StronglySorted_snoc; [apply G7|].
    intros y Hy. apply list_elem_of_fmap in Hy as (r' & -> & Hr').
    rewrite list_elem_of_In in Hr'. apply List.filter_In in Hr' as [Hr' Eq%Z.eqb_eq].
    rewrite <- list_elem_of_In in Hr'. destruct (Hnew r) as [_ Ep]; [by left|].
    destruct (G6 r' d Hr' Hd) as [_ H2]; [congruence|]. apply H2. rewrite T3. by left.
Qed.

(** A log-ordered state stays one. *)
Lemma stream_log_ordered fuel n w s w' s' l :
  in_log_order -> answers_what_was_asked net sp -> NoDup (map fst planned) ->
  log_ordered [] s -> stream net fuel n w s = Some (w', s', l) -> log_ordered (oks l) s'.
Proof.
  intros Hlog Hask Hn Hs Hl.
  refine (stream_inv net log_ordered _ _ _ _ _ fuel n [] w s w' s' l Hs Hl).
  - intros h s1 e rest G Hp. by apply pending_log_ordered.
  - intros h w1 s1 w2 s2 r G _ _ _ E. pose proof (refill_log_ordered h w1 s1 Hlog Hask Hn G) as H1.
    by rewrite E in H1.
  - intros h s1 s2 e G Hp _ _ E. by eapply emit_log_ordered.
  - intros h s1 G _ _ _. by apply finish_log_ordered.
  - intros h s1 [G1 G2 G3 G4 G5 G6 G7]. by split.
Qed.

(** ** The order across partitions *)

Section dates.
Context (ts : Z -> Z -> Z) (Hts : dated ts).

(** Everything a cursor still has to yield is at or after [t]. *)
Definition after (t : Z) (c : PartitionCursor) : Prop :=
  (forall r, Batch.Decoded r ∈ buffered c -> t <= Batch.r_timestamp r) /\
  (exhausted c = false -> t <= ts (c_partition c) (next_offset c)).

Definition stamped (c : PartitionCursor) : Prop :=
  forall r, Batch.Decoded r ∈ buffered c ->
    Batch.r_timestamp r = ts (c_partition c) (Batch.r_offset r).

Record time_ordered (h : list ScanEvent) (s : ScanState) : Prop := {
  t_log : log_ordered h s;
  t_stamped : Forall stamped (cursors s);
  t_window : 0 <= reorder_window (progress s);
  t_sorted : reorder_window (progress s) = 0 ->
    StronglySorted Z.le (map Batch.r_timestamp (records_in h)) /\
    forall r c, r ∈ records_in h -> c ∈ cursors s -> after (Batch.r_timestamp r) c;
}.

(** The head of a buffer bounds what its cursor still has to yield. *)
Lemma head_after t c o rest :
  in_order c -> stamped c -> buffered c = o :: rest -> t <= outcome_timestamp o -> after t c.
Proof using Hts.
  intros [_ _ I3 I4] Hst Hb Ht. destruct Hts as [Hmono Hmin _].
  rewrite Hb in I3, I4. unfold stamped in Hst. rewrite Hb in Hst.
  destruct o as [r0|]; cbn [outcome_timestamp] in Ht.
  - pose proof (Hst r0 ltac:(by left)) as E0. split.
    + intros r Hr. rewrite Hb in Hr. rewrite (Hst r Hr). etransitivity; [exact Ht|].
      rewrite E0. apply Hmono. apply StronglySorted_inv in I4 as [_ I4].
      apply elem_of_cons in Hr as [[= ->]|Hr]; [lia|]. rewrite Forall_forall in I4.
      specialize (I4 _ Hr). cbn [before] in I4. lia.
    + intros _. etransitivity; [exact Ht|]. rewrite E0. apply Hmono.
      specialize (I3 r0 ltac:(by left)). lia.
  - split.
    + intros r Hr. rewrite Hb in Hr. rewrite (Hst r Hr). etransitivity; [exact Ht|apply Hmin].
    + intros _. etransitivity; [exact Ht|apply Hmin].
Qed.

(** With a budget of a record per partition, a window of 0 says every partition was
    represented. *)
Lemma window_zero s s0 i d :
  degraded s s0 -> cursors s !! i = Some d -> buffered d <> [] ->
  Z.of_nat (length (cursors s)) <= max_buffered_records (spec s) ->
  0 <= reorder_window (progress s) -> reorder_window (progress s0) = 0 ->
  reorder_window (progress s) = 0 /\
  forall c, c ∈ cursors s -> exhausted c = true \/ buffered c <> [].
Proof.
  intros Hd Hi Hb Hbudget Hw Hw0. destruct Hd as [Hall|Hforced].
  - split; [done|]. intros c Hc. rewrite <- not_true_iff_false, existsb_exists in Hall.
    destruct (exhausted c) eqn:Ee; [by left|right]. intros Hbc. apply Hall. exists c.
    rewrite <- list_elem_of_In, Ee, Hbc. done.
  - cbn [note_ordering_degraded set_progress set_state progress reorder_window] in Hw0.
    set (merging := length (filter (fun c => drained c = false) (cursors s))) in Hw0.
    assert (Hle : (merging <= length (cursors s))%nat) by apply length_filter.
    assert (Hm : (merging <= 1)%nat).
    { unfold reorder_window_of in Hw0. destruct (Z.leb_spec (Z.of_nat merging) 1); [lia|].
      assert (1 <= max_buffered_records (spec s) / Z.of_nat merging); [|lia].
      apply Z.div_le_lower_bound; lia. }
    split; [lia|]. intros c Hc. destruct (exhausted c) eqn:Ee; [by left|right]. intros Hbc.
    assert (Hcin : c ∈ filter (fun c => drained c = false) (cursors s)).
    { apply list_elem_of_filter. split; [|done]. unfold drained. by rewrite Ee. }
    assert (Hdin : d ∈ filter (fun c => drained c = false) (cursors s)).
    { apply list_elem_of_filter. split; [|by eapply list_elem_of_lookup_2]. unfold drained.
      rewrite bool_decide_false by done. by rewrite andb_false_r. }
    unfold merging in Hm. destruct (filter _ _) as [|x [|y l]]; cbn in Hm;
      [by apply not_elem_of_nil in Hcin| |lia].
    apply list_elem_of_singleton in Hcin, Hdin. congruence.
Qed.

Lemma refill_time_ordered h w s :
  in_log_order -> answers_what_was_asked net sp -> NoDup (map fst planned) -> follow sp = false ->
  time_ordered h s -> time_ordered h (refill net w s).1.2.
Proof using Hts.
  intros Hlog Hask Hn Hfollow [T1 T2 T3 T4]. pose proof T1 as [G1 G2 _ _ G5 _ _].
  rewrite Forall_forall in G5, T2.
  assert (Hmv : forall c', c' ∈ cursors (refill net w s).1.2 -> c' ∈ cursors s \/
    exists c, c ∈ cursors s /\ exhausted c = false /\ next_offset c <= next_offset c' /\
      c_partition c' = c_partition c /\ stamped c' /\
      forall r, Batch.Decoded r ∈ buffered c' -> next_offset c <= Batch.r_offset r).
  { intros c' Hc'. destruct (refill_moves w s c' Hask Hn G1 G2 Hc') as [Hc|(c & Hc & He & Hb & Hm)]; [by left|].
    right. exists c. destruct (moved_in_order c c' Hlog (G5 c Hc) Hb Hm) as (_ & Hid & Hle & Hnew).
    injection Hid as Hp _. split_and!; try done.
    - unfold eligible in He. apply andb_true_iff in He as [_ He]. rewrite G1, Hfollow in He.
      unfold should_fetch in He. rewrite orb_false_r in He. by apply negb_true_iff in He.
    - intros r Hr. rewrite Hp. destruct Hm as (leader & tgts & l & p & Ha & Hpl & Ep & _ & ->).
      rewrite <- Ep. apply (da_answers ts Hts leader tgts l p r Ha Hpl).
      revert Hr. unfold absorbed_cursor, absorb_cursor.
      destruct (Batch.outcomes (decode sp p)) as [|o outs] eqn:Eo.
      + intros Hr. exfalso. revert Hr. branch; rewrite Hb; apply not_elem_of_nil.
      + cbn [fst catch_up set_reading buffered]. rewrite Hb. cbn [app]. by intros [Hr _]%kept_elem. }
  assert (Hw : reorder_window (progress s) <= reorder_window (progress (refill net w s).1.2)).
  { refine (refill_inv net (fun s' => reorder_window (progress s) <= reorder_window (progress s')) _ _ w s _);
      [|intros s'; cbn; lia|lia].
    intros s' p Hs'. unfold absorb. destruct (List.find _ _) as [c|]; [|done].
    by destruct (absorb_cursor _ _ _) as [[[c' k] b] r]. }
  split; [by apply refill_log_ordered| |lia|].
  - apply Forall_forall. intros c' Hc'. destruct (Hmv c' Hc') as [Hc|(c & _ & _ & _ & _ & Hst & _)]; [by apply T2|done].
  - intros Hw0. destruct T4 as [T5 T6]; [lia|]. split; [done|]. intros r c' Hr Hc'.
    destruct (Hmv c' Hc') as [Hc|(c & Hc & He & Hle & Hp & Hst & Hnew)]; [by apply T6|].
    destruct (T6 r c Hr Hc) as [_ Hf]. specialize (Hf He). destruct Hts as [Hmono _ _]. split.
    + intros r' Hr'. rewrite (Hst r' Hr'), Hp. etransitivity; [exact Hf|]. by apply Hmono, Hnew.
    + intros _. rewrite Hp. etransitivity; [exact Hf|]. by apply Hmono.
Qed.

Lemma emit_time_ordered h s s' e :
  NoDup (map fst planned) -> Z.of_nat (length planned) <= max_buffered_records sp ->
  time_ordered h s -> pending s = [] -> emit_next s = (s', e) ->
  time_ordered (h ++ event_list e) s'.
Proof using Hts.
  intros Hn Hbudget [T1 T2 T3 T4] Hp E.
  pose proof (emit_log_ordered h s s' e Hn T1 Hp E) as L1. pose proof T1 as [G1 G2 _ _ G5 _ _].
  destruct (emit_cases _ _ _ Hp E) as (_ & _ & _ & C).
  destruct C as [(-> & C4 & _)|(s0 & s1 & c & o & D1 & D2 & D3 & _ & _ & D4 & D5 & _ & _)].
  { pose proof (emit_quiet_window s s' Hp E) as Hw. split; [done|by rewrite C4|lia|].
    rewrite app_nil_r, C4. intros Hw0. apply T4. lia. }
  destruct (taken _ _ _ _ _ D1 D2) as (i & d & t & rest & [_ Tl] & T2' & T3' & T4' & T5' & T6').
  assert (Hd : d ∈ cursors s) by by eapply list_elem_of_lookup_2.
  rewrite Forall_forall in G5, T2.
  assert (Hsub : forall r, Batch.Decoded r ∈ buffered c -> Batch.Decoded r ∈ buffered d).
  { intros r Hr. rewrite T5' in Hr. rewrite T3'. by right. }
  assert (Hcd : c_partition c = c_partition d /\ next_offset c = next_offset d /\ exhausted c = exhausted d)
    by by rewrite T5'.
  destruct Hcd as (Hcp & Hcn & Hce).
  assert (Hrw : reorder_window (progress s) <= reorder_window (progress s0)) by (destruct D1; cbn; lia).
  split; [done| |lia|].
  - rewrite D3, T6'. apply Forall_insert; [by apply Forall_forall|].
    intros r Hr. rewrite Hcp. by apply T2, Hsub.
  - rewrite D4, records_in_app, D5. intros Hw0.
    destruct (window_zero s s0 i d D1 T2') as [Hw Hrep]; [by rewrite T3'| |lia|done|].
    { rewrite G1. rewrite <- G2, length_map in Hbudget. lia. }
    destruct (T4 Hw) as [S1 S2].
    assert (Hafter : forall r f, r ∈ records_in h -> f ∈ cursors s' -> after (Batch.r_timestamp r) f).
    { intros r f Hr Hf. rewrite D3, T6' in Hf. apply insert_elem in Hf as [->|(j & _ & Hf)].
      - destruct (S2 r d Hr Hd) as [A1 A2]. split; [intros r' Hr'; by apply A1, Hsub|].
        by rewrite Hcp, Hcn, Hce.
      - apply S2; [done|]. by eapply list_elem_of_lookup_2. }
    assert (Hnew : forall r f, r ∈ shown s o -> f ∈ cursors s' -> after (Batch.r_timestamp r) f).
    { intros r f Hr%shown_decoded Hf. subst o. cbn [outcome_timestamp] in T4'. subst t.
      assert (Hall : forall f, f ∈ cursors s -> after (Batch.r_timestamp r) f).
      { clear f Hf. intros f Hf. destruct (buffered f) as [|o' rest'] eqn:Eb.
        - destruct (Hrep f Hf) as [He|He]; [|done]. split; [|congruence].
          intros r' Hr'. rewrite Eb in Hr'. by apply not_elem_of_nil in Hr'.
        - apply (head_after _ f o' rest'); [by apply G5|by apply T2|done|].
          apply (Tl f _ Hf). unfold head_timestamp. by rewrite Eb. }
      rewrite D3, T6' in Hf. apply insert_elem in Hf as [->|(j & _ & Hf)].
      - destruct (Hall d Hd) as [A1 A2]. split; [intros r' Hr'; by apply A1, Hsub|].
        by rewrite Hcp, Hcn, Hce.
      - apply Hall. by eapply list_elem_of_lookup_2. }
    split; [|intros r f [Hr|Hr]%elem_of_app Hf; [by apply Hafter|by apply Hnew]].
    rewrite map_app. unfold shown. destruct o as [r|]; [|by rewrite app_nil_r].
    destruct (passes _ r); [|by rewrite app_nil_r]. apply StronglySorted_snoc; [done|].
    intros y Hy. apply list_elem_of_fmap in Hy as (r' & -> & Hr').
    destruct (S2 r' d Hr' Hd) as [A1 _]. apply A1. rewrite T3'. by left.
Qed.

Lemma stream_time_ordered fuel n w s w' s' l :
  in_log_order -> answers_what_was_asked net sp -> NoDup (map fst planned) -> follow sp = false ->
  Z.of_nat (length planned) <= max_buffered_records sp ->
  time_ordered [] s -> stream net fuel n w s = Some (w', s', l) -> time_ordered (oks l) s'.
Proof using Hts.
  intros Hlog Hask Hn Hf Hb Hs Hl.
  refine (stream_inv net time_ordered _ _ _ _ _ fuel n [] w s w' s' l Hs Hl).
  - intros h s1 e rest [T1 T2 T3 T4] Hp. pose proof (pending_log_ordered h s1 e rest T1 Hp) as G.
    assert (He : records_in [e] = []).
    { destruct T1 as [_ _ G3 _ _ _ _]. rewrite Hp in G3. cbn in G3. apply andb_true_iff in G3 as [G3 _].
      apply notes_no_records. cbn. by rewrite G3. }
    split; try done. rewrite records_in_app, He, app_nil_r. done.
  - intros h w1 s1 w2 s2 r G _ _ _ E. pose proof (refill_time_ordered h w1 s1 Hlog Hask Hn Hf G) as H1.
    by rewrite E in H1.
  - intros h s1 s2 e G Hp _ _ E. by eapply emit_time_ordered.
  - intros h s1 [T1 T2 T3 T4] _ _ _. split; [by apply finish_log_ordered|done|done|].
    rewrite records_in_app. cbn [finish snd records_in flat_map]. by rewrite app_nil_r.
  - intros h s1 [T1 T2 T3 T4]. split; try done. by destruct T1 as [G1 G2 G3 G4 G5 G6 G7].
Qed.

End dates.

End order.

End LogOrder.
