(* ===== verification/ScanEnds.v ===== *)
(** A browse ends: every round of it brings the end of a partition closer, or takes a
    record out of a buffer. *)

From S2P Require Import Prelude Sanitize ErrorCodes Retry BatchDecode BatchDecodeFacts Fetch Coordinator Consumer Scan ScanFacts ScanRounds ScanYield.
From Stdlib Require Import Relations.Relation_Operators Wellfounded.Lexicographic_Product Wellfounded.Inclusion.

Module Ending.
Import ReadFetch Scan ScanFacts ScanRounds ScanSpecs Yielding.

Section ending.
Context `{KafkaProtocol, Batch.RecordCodec} {W : Type} (net : ReadNet W) (sp : ScanSpec).
Context (bound : Z -> Z).

(** The log ends the leaders report. *)
Record log_ends : Prop := {
  le_range : forall p, bound p <= I64_MAX;
  le_answers : forall leader tgts l p,
    answered net sp leader tgts l -> p ∈ l ->
    f_high_watermark p <= bound (f_partition p) /\ f_last_stable_offset p <= bound (f_partition p);
}.

Context (Hends : log_ends) (Hasked : answers_what_was_asked net sp)
  (Hall : answers_everything net sp) (Hbrowse : follow sp = false)
  (Hbudget : 0 < max_buffered_records sp).

(** The offsets a cursor may still ask for. *)
Definition ahead (c : PartitionCursor) : nat :=
  if finished c then 0 else Z.to_nat (bound (c_partition c) - next_offset c).

(** What must get smaller: the offsets ahead, then the records buffered, then the
    events queued. *)
Definition offsets_ahead (s : ScanState) : nat := sum_list_with ahead (cursors s).
Definition records_held (s : ScanState) : nat := sum_list_with (fun c => length (buffered c)) (cursors s).

Record browsing (s : ScanState) : Prop := {
  b_spec : spec s = sp;
  b_nodup : NoDup (map c_partition (cursors s));
  b_ends : Forall (fun c => end_offset c <= bound (c_partition c)) (cursors s);
  b_total : buffered_total s = Z.of_nat (records_held s);
  b_open : done_ s = false;
}.

Lemma absorbed_end leader tgts l p c :
  answered net sp leader tgts l -> p ∈ l -> f_partition p = c_partition c ->
  end_offset c <= bound (c_partition c) ->
  end_offset (absorbed_cursor sp p c) <= bound (c_partition (absorbed_cursor sp p c)).
Proof using Hends.
  intros Ha Hp Ep He. destruct (absorb_cursor_fixed sp p c) as (-> & _).
  destruct (le_answers Hends _ _ _ _ Ha Hp) as [H1 H2]. rewrite Ep in H1, H2.
  unfold absorbed_cursor, absorb_cursor.
  destruct (Batch.outcomes (decode sp p)); [destruct (_ || _); [|destruct (negb _)]|];
    cbn [fst catch_up set_reading end_offset]; destruct (visibility sp); case_match; lia.
Qed.

(** Moving never takes a cursor back, and settling one that had offsets ahead takes it
    on. *)
Lemma moved_ahead c c' :
  end_offset c <= bound (c_partition c) -> exhausted c = false ->
  moved net sp c c' -> (ahead c' <= ahead c)%nat.
Proof using Hends Hbrowse.
  intros He Hx (leader & tgts & l & p & Ha & Hp & Ep & Ht & ->).
  apply orb_false_iff in Hx as [Hf Hx%Z.leb_gt]. pose proof (le_range Hends (c_partition c)).
  destruct (absorb_cursor_fixed sp p c) as (Hid & _). unfold ahead. rewrite Hid, Hf.
  unfold absorbed_cursor, absorb_cursor.
  destruct (Batch.outcomes (decode sp p)); [destruct (_ || _); [|destruct (negb _)]|];
    cbn [fst catch_up set_reading next_offset finished]; rewrite ?Hf, ?Hbrowse; cbn [negb];
    unfold i64_saturating_add, clamp, I64_MIN, I64_MAX in *; lia.
Qed.

Lemma settled_ahead c c' :
  end_offset c <= bound (c_partition c) -> exhausted c = false ->
  settled net sp c c' -> (ahead c' < ahead c)%nat.
Proof using Hends Hbrowse.
  intros He Hx (leader & tgts & l & p & Ha & Hp & Ep & Ht & Hok & ->).
  apply orb_false_iff in Hx as [Hf Hx%Z.leb_gt]. pose proof (le_range Hends (c_partition c)).
  destruct (absorb_cursor_fixed sp p c) as (Hid & _). unfold ahead. rewrite Hid, Hf.
  revert Hok. unfold absorbed_cursor, absorb_cursor.
  destruct (Batch.outcomes (decode sp p)); [destruct (_ || _); [|destruct (negb _)]|];
    cbn [fst snd catch_up set_reading next_offset finished is_ok]; rewrite ?Hf, ?Hbrowse; cbn [negb];
    try discriminate; intros _;
    unfold i64_saturating_add, clamp, I64_MIN, I64_MAX in *; lia.
Qed.

Lemma eligible_behind s c : spec s = sp -> eligible s c = true -> exhausted c = false.
Proof using Hbrowse.
  intros Hs He. unfold eligible in He. apply andb_true_iff in He as [_ He].
  unfold should_fetch in He. rewrite Hs, Hbrowse, orb_false_r in He. by apply negb_true_iff in He.
Qed.

Lemma sum_list_le {A} (R : A -> A -> Prop) (f : A -> nat) l l' :
  Forall2 R l l' -> (forall x y, x ∈ l -> R x y -> (f y <= f x)%nat) ->
  (sum_list_with f l' <= sum_list_with f l)%nat.
Proof.
  induction 1 as [|x y l l' Hxy Hl IH]; intros Hf; [done|]. cbn.
  pose proof (Hf x y ltac:(by left) Hxy). specialize (IH (fun a b Ha => Hf a b (ltac:(by right)))). lia.
Qed.

Lemma sum_list_lt {A} (R : A -> A -> Prop) (f : A -> nat) l l' x :
  Forall2 R l l' -> (forall x y, x ∈ l -> R x y -> (f y <= f x)%nat) ->
  x ∈ l -> (forall y, R x y -> (f y < f x)%nat) ->
  (sum_list_with f l' < sum_list_with f l)%nat.
Proof.
  induction 1 as [|a b l l' Hab Hl IH]; intros Hf Hx Hlt; [by apply not_elem_of_nil in Hx|].
  assert (Hf' : forall x y, x ∈ l -> R x y -> (f y <= f x)%nat) by (intros ? ? ? ?; apply Hf; [by right|done]).
  cbn. apply elem_of_cons in Hx as [->|Hx].
  - pose proof (Hlt b Hab). pose proof (sum_list_le R f l l' Hl Hf'). lia.
  - pose proof (Hf a b ltac:(by left) Hab). specialize (IH Hf' Hx Hlt). lia.
Qed.

(** ** Records held *)

Lemma sum_update (f : PartitionCursor -> nat) p c c' l :
  List.find (fun c => c_partition c =? p) l = Some c ->
  (sum_list_with f (update_first p (fun _ => c') l) + f c = sum_list_with f l + f c')%nat.
Proof.
  induction l as [|d l IH]; [done|]. cbn [List.find update_first].
  destruct (c_partition d =? p); [intros [= ->]; cbn; lia|].
  intros Hf. specialize (IH Hf). cbn. lia.
Qed.

Lemma absorb_held s p :
  buffered_total s = Z.of_nat (records_held s) ->
  buffered_total (absorb s p).1 = Z.of_nat (records_held (absorb s p).1).
Proof.
  intros Ht. unfold records_held. rewrite absorb_cursors. unfold absorb, absorbed_cursor.
  destruct (List.find _ _) as [c|] eqn:Ef; [|done].
  assert (Hk : let '(c', k, _, _) := absorb_cursor (spec s) p c in
               length (buffered c') = (length (buffered c) + length k)%nat).
  { unfold absorb_cursor. destruct (Batch.outcomes _); [branch; cbn; lia|].
    cbn [set_reading buffered catch_up]. by rewrite length_app. }
  destruct (absorb_cursor (spec s) p c) as [[[c' k] b] r]. cbn [fst set_state buffered_total].
  pose proof (sum_update (fun c => length (buffered c)) _ _ c' _ Ef) as Hs. cbn beta in Hs.
  rewrite Ht. unfold records_held. lia.
Qed.

(** ** One round *)

Lemma refill_browsing w s w' s' r :
  browsing s -> refill net w s = (w', s', r) ->
  browsing s' /\ pending s' = pending s /\
  (is_ok r = true ->
   (offsets_ahead s' < offsets_ahead s)%nat \/
   cursors s' = cursors s /\ buffered_total s' = buffered_total s /\
   (max_buffered_records sp <= buffered_total s \/
    forall c, c ∈ cursors s -> eligible s c = false)).
Proof using Hends Hasked Hall Hbrowse.
  intros [B1 B2 B3 B4 B5] E.
  destruct (refill_round net sp Hasked w s w' s' r B1 B2 E) as [Hr1 Hr2].
  pose proof (refill_frame net w s) as [F1 _ F3 F4 _ _ _]. rewrite E in F1, F3, F4. cbn in F1, F3, F4.
  assert (Ht : buffered_total s' = Z.of_nat (records_held s')).
  { pose proof (refill_inv net (fun s => buffered_total s = Z.of_nat (records_held s))) as Hi.
    specialize (Hi (fun s p => absorb_held s p)). specialize (Hi (fun s Hs => Hs) w s B4). by rewrite E in Hi. }
  rewrite Forall_forall in B3.
  split; [|split; [done|]].
  - split; [congruence| | |done|congruence].
    + replace (map c_partition (cursors s')) with (map c_partition (cursors s)); [done|].
      clear - Hr1. induction Hr1 as [|c c' l l' [->|[_ Hm]] Hl IH]; [done|cbn; by rewrite IH|].
      destruct Hm as (? & ? & ? & p & _ & _ & _ & _ & ->).
      cbn [map]. destruct (absorb_cursor_fixed sp p c) as (-> & _). by rewrite IH.
    + clear - Hr1 B3 Hends. induction Hr1 as [|c c' l l' Hc Hl IH]; [constructor|]. constructor.
      * destruct Hc as [->|[_ (? & ? & ? & p & Ha & Hp & Ep & _ & ->)]]; [apply B3; by left|].
        eapply absorbed_end; [done|done|done|apply B3; by left].
      * apply IH. intros d Hd. apply B3. by right.
  - intros Hok. destruct (Z.le_gt_cases (max_buffered_records sp) (buffered_total s)) as [Hc|Hc].
    + right. unfold refill in E. rewrite B1 in E.
      rewrite (proj2 (Z.leb_le (max_buffered_records sp) (buffered_total s)) Hc) in E.
      injection E as <- <- <-. split_and!; [done|done|by left].
    + specialize (Hr2 Hall Hok Hc).
      destruct (existsb (eligible s) (cursors s)) eqn:Ex.
      * left. apply existsb_exists in Ex as (c & Hc' & He). rewrite <- list_elem_of_In in Hc'.
        refine (sum_list_lt _ ahead _ _ c Hr2 _ Hc' _).
        -- intros x y Hx. destruct (eligible s x) eqn:Ee; [|by intros ->]. intros Hm.
           apply Nat.lt_le_incl, settled_ahead; [by apply B3|by eapply eligible_behind|done].
        -- intros y. rewrite He. apply settled_ahead; [by apply B3|by eapply eligible_behind].
      * right. assert (Hno : forall c, c ∈ cursors s -> eligible s c = false).
        { intros c Hcs. rewrite list_elem_of_In in Hcs. apply not_true_iff_false. intros He.
          rewrite <- not_true_iff_false, existsb_exists in Ex. apply Ex. by exists c. }
        assert (Heq : cursors s' = cursors s).
        { clear - Hr2 Hno. induction Hr2 as [|c c' l l' Hc Hl IH]; [done|].
          rewrite (Hno c) in Hc by by left. subst c'. f_equal. apply IH. intros d Hd. apply Hno. by right. }
        split_and!; [done| |by right]. rewrite Ht, B4. unfold records_held. by rewrite Heq.
Qed.

(** An outcome leaves the buffers, or nothing changes. *)
Lemma emit_browsing s s' e :
  browsing s -> pending s = [] -> emit_next s = (s', e) ->
  browsing s' /\ offsets_ahead s' = offsets_ahead s /\
  ((records_held s' < records_held s)%nat /\ (length (pending s') <= 2)%nat \/
   e = None /\ cursors s' = cursors s /\
   (records_held s = 0%nat \/
    existsb (fun c => negb (exhausted c) && bool_decide (buffered c = [])) (cursors s) = true
    /\ buffered_total s < max_buffered_records sp)).
Proof.
  intros [B1 B2 B3 B4 B5] Hp E. destruct (emit_cases _ _ _ Hp E) as (C1 & C2 & _ & C).
  destruct C as [(-> & C4 & _ & C5 & _ & C6)|(s0 & s1 & c & o & D1 & D2 & D3 & D4 & D5 & _)].
  - unfold offsets_ahead, records_held. rewrite C4. split; [|split; [done|]].
    + split; rewrite ?C4; try done; [congruence| |congruence]. unfold records_held in *. by rewrite C4, C5.
    + right. split; [done|]. split; [done|]. rewrite <- B1. destruct C6 as [C6|C6]; [left|by right].
      unfold pop in C6. pose proof (choose_least (cursors s)) as Hl.
      destruct (choose (cursors s)) as [[i t]|].
      * destruct Hl as [(d & Hd & Ht) _]. cbn [mbind option_bind] in C6. rewrite Hd in C6.
        cbn [mbind option_bind] in C6. unfold head_timestamp in Ht. by destruct (buffered d).
      * clear - Hl. induction (cursors s) as [|d l IH]; [done|]. cbn.
        rewrite IH by (intros e He; apply Hl; by right).
        specialize (Hl d ltac:(by left)). unfold head_timestamp in Hl. by destruct (buffered d).
  - destruct (degraded_frame _ _ D1) as (_ & _ & Hc & Hb & _).
    destruct (pop_cursors _ _ _ _ D2) as (i & d & t & rest & _ & P2 & P3 & P4 & P5 & P6).
    rewrite Hc in P2, P5. rewrite Hb in P6.
    assert (Hd : d ∈ cursors s) by by eapply list_elem_of_lookup_2.
    pose proof (sum_insert (fun c => length (buffered c)) (cursors s) i d c P2) as Hh.
    rewrite <- P5, <- D3 in Hh. fold (records_held s) (records_held s') in Hh. rewrite P3 in Hh.
    assert (Hcb : buffered c = rest) by by rewrite P4. rewrite Hcb in Hh. cbn [length] in Hh.
    split; [|split; [|left; lia]].
    + split; [congruence| | | |congruence].
      * rewrite D3, P5. replace (map c_partition _) with (map c_partition (cursors s)); [done|].
        change (map c_partition) with (fmap (M := list) c_partition). rewrite list_fmap_insert. symmetry. apply list_insert_id.
        rewrite list_lookup_fmap, P2, P4. done.
      * rewrite D3, P5. apply Forall_insert; [done|]. rewrite P4.
        rewrite Forall_forall in B3. by apply (B3 d).
      * rewrite D4, P6, B4. unfold usize_saturating_sub. lia.
    + pose proof (sum_insert ahead (cursors s) i d c P2) as Ha. rewrite <- P5, <- D3 in Ha.
      fold (offsets_ahead s) (offsets_ahead s') in Ha.
      assert (ahead c = ahead d) by by rewrite P4. lia.
Qed.

(** ** The loop and the stream *)

Definition smaller (a b : nat * (nat * nat)) : Prop :=
  (a.1 < b.1 \/ a.1 = b.1 /\ (a.2.1 < b.2.1 \/ a.2.1 = b.2.1 /\ a.2.2 < b.2.2))%nat.

Lemma smaller_wf : well_founded smaller.
Proof.
  eapply wf_incl; [|exact (wf_slexprod _ _ lt _ lt_wf (wf_slexprod _ _ lt lt lt_wf lt_wf))].
  intros [a [b c]] [a' [b' c']] Hs. unfold smaller in Hs. cbn in Hs.
  destruct Hs as [Hs|[-> [Hs|[-> Hs]]]]; [by apply left_slex| |]; apply right_slex;
    [by apply left_slex|by apply right_slex].
Qed.

Definition size_of (s : ScanState) : nat * (nat * nat) :=
  (offsets_ahead s, (records_held s, length (pending s))).

(** What one call of [next_event] does, with enough fuel. *)
Definition polled (w : W) (s : ScanState) : Prop :=
  exists n w' s' e, (forall fuel, (n <= fuel)%nat -> next_event net fuel w s = Some (w', s', Some e)) /\
    (ends e = true \/ browsing s' /\ smaller (size_of s') (size_of s)).

(** A round that yields nothing still gets on, unless everything is drained. *)
Lemma round_gets_on w s w1 s1 ok s2 e :
  browsing s -> pending s = [] -> refill net w s = (w1, s1, Ok ok) -> emit_next s1 = (s2, e) ->
  browsing s2 /\
  (smaller (size_of s2) (size_of s) \/ e = None /\ all_exhausted s2 = true).
Proof using Hends Hasked Hall Hbrowse Hbudget.
  intros Hb Hp Er Ee. destruct (refill_browsing w s w1 s1 (Ok ok) Hb Er) as (Hb1 & Hp1 & Hr).
  specialize (Hr eq_refl). rewrite Hp in Hp1.
  destruct (emit_browsing s1 s2 e Hb1 Hp1 Ee) as (Hb2 & Ha2 & Hem). split; [done|].
  destruct Hr as [Hr|(Hc & Ht & Hwhy)]; [left; left; cbn; lia|].
  assert (Ha : offsets_ahead s1 = offsets_ahead s) by (unfold offsets_ahead; by rewrite Hc).
  assert (Hh : records_held s1 = records_held s) by (unfold records_held; by rewrite Hc).
  destruct Hem as [[Hem _]|(-> & Hc2 & Hem)]; [left; right; cbn; split; [lia|left; lia]|].
  right. split; [done|]. destruct Hb as [B1 B2 B3 B4 B5]. destruct Hb2 as [B1' _ _ _ _].
  assert (Hno : forall c, c ∈ cursors s -> exhausted c = true \/ buffered c <> []).
  { intros c Hcs. destruct (exhausted c) eqn:Ex; [by left|right]. intros Hbc.
    assert (He : eligible s c = true).
    { unfold eligible, should_fetch. by rewrite Ex, Hbc. }
    destruct Hwhy as [Hceil|Hnone]; [|by rewrite Hnone in He].
    destruct Hem as [Hem|[_ Hem]]; [|lia]. lia. }
  destruct Hem as [Hem|[Hem _]].
  - unfold all_exhausted. rewrite B1', Hbrowse. cbn [negb andb]. rewrite Hc2, Hc.
    apply forallb_forall. intros c Hcs. rewrite <- list_elem_of_In in Hcs.
    assert (Hempty : buffered c = []).
    { rewrite Hh in Hem. unfold records_held in Hem. clear - Hem Hcs.
      induction (cursors s) as [|d l IH]; [by apply not_elem_of_nil in Hcs|]. cbn in Hem.
      apply elem_of_cons in Hcs as [->|Hcs]; [|apply IH; [lia|done]].
      apply length_zero_iff_nil. lia. }
    unfold drained. rewrite Hempty. destruct (Hno c Hcs) as [->|?]; [done|congruence].
  - apply existsb_exists in Hem as (c & Hcs & Hc'). rewrite <- list_elem_of_In, Hc in Hcs.
    apply andb_true_iff in Hc' as [H1 H2]. apply bool_decide_eq_true in H2.
    apply negb_true_iff in H1. destruct (Hno c Hcs); congruence.
Qed.

Lemma next_event_polled s : browsing s -> forall w, polled w s.
Proof using Hends Hasked Hall Hbrowse Hbudget.
  remember (size_of s) as m eqn:Em. revert s Em.
  induction m as [m IH] using (well_founded_induction smaller_wf). intros s -> Hb w.
  pose proof Hb as [B1 B2 B3 B4 B5].
  destruct (pending s) as [|e rest] eqn:Ep.
  2:{ exists 1%nat, w, (set_pending s rest), (Ok e). split.
      - intros [|fuel] Hf; [lia|]. cbn [next_event]. by rewrite Ep.
      - right. split; [by split|]. right. split; [done|]. right. split; [done|].
        unfold size_of. rewrite Ep. cbn. lia. }
  assert (Hdone : forall w' s' e, ends e = true ->
    (forall fuel, next_event net (S fuel) w s = Some (w', s', Some e)) -> polled w s).
  { intros w' s' e He Hn. exists 1%nat, w', s', e. split; [|by left].
    intros [|fuel] Hf; [lia|apply Hn]. }
  destruct (limit_reached s) eqn:El.
  { eapply Hdone; [|intros fuel; cbn [next_event]; rewrite Ep, B5, El; reflexivity]. done. }
  destruct (refill net w s) as [[w1 s1] [ok|err]] eqn:Er.
  2:{ eapply Hdone; [|intros fuel; cbn [next_event]; rewrite Ep, B5, El, Er; reflexivity]. done. }
  destruct (emit_next s1) as [s2 e] eqn:Ee.
  destruct (round_gets_on w s w1 s1 ok s2 e Hb Ep Er Ee) as [Hb2 Hsm].
  destruct e as [e|].
  - exists 1%nat, w1, s2, (Ok e). split.
    + intros [|fuel] Hf; [lia|]. cbn [next_event]. by rewrite Ep, B5, El, Er, Ee.
    + right. split; [done|]. by destruct Hsm as [?|[? _]].
  - destruct (all_exhausted s2) eqn:Ex.
    { eapply Hdone; [|intros fuel; cbn [next_event]; rewrite Ep, B5, El, Er, Ee, Ex; reflexivity]. done. }
    destruct Hsm as [Hsm|[_ Hsm]]; [|congruence].
    destruct (IH _ Hsm s2 eq_refl Hb2 w1) as (n & w3 & s3 & e3 & Hn & He3).
    exists (S n), w3, s3, e3. split.
    + intros [|fuel] Hf; [lia|]. cbn [next_event]. rewrite Ep, B5, El, Er, Ee, Ex. apply Hn. lia.
    + destruct He3 as [He3|[Hb3 He3]]; [by left|right]. split; [done|]. unfold smaller in *. lia.
Qed.

Lemma stream_ends_eventually s : browsing s -> forall w,
  exists fuel0 n w' s' l e, ends e = true /\
    forall fuel, (fuel0 <= fuel)%nat -> stream net fuel n w s = Some (w', s', l ++ [e]).
Proof using Hends Hasked Hall Hbrowse Hbudget.
  remember (size_of s) as m eqn:Em. revert s Em.
  induction m as [m IH] using (well_founded_induction smaller_wf). intros s -> Hb w.
  destruct (next_event_polled s Hb w) as (f1 & w1 & s1 & e1 & Hn1 & [He|[Hb1 Hs1]]).
  - exists f1, 1%nat, w1, s1, [], e1. split; [done|]. intros fuel Hf. cbn [stream].
    by rewrite (Hn1 fuel Hf).
  - destruct (IH _ Hs1 s1 eq_refl Hb1 w1) as (f2 & n & w2 & s2 & l & e & He & Hn2).
    exists (Nat.max f1 f2), (S n), w2, s2, (e1 :: l), e. split; [done|]. intros fuel Hf.
    cbn [stream]. rewrite (Hn1 fuel) by lia. cbn [mbind option_bind].
    by rewrite (Hn2 fuel) by lia.
Qed.

End ending.

End Ending.
