(* ===== verification/ScanProperties.v ===== *)
(** What a scan promises: which records it yields and how many, in what order, and
    that a browse ends.  Where it falls short of its documentation is shown on
    concrete logs. *)

From S2P Require Import Prelude Sanitize ErrorCodes Retry BatchDecode BatchDecodeFacts Fetch Coordinator Consumer Scan ScanFacts ScanRounds ScanYield ScanOrder ScanEnds.
From Stdlib Require Import Sorting.Sorted.

(** ** A small topic *)

Module ScanDemo.
Import BatchSpec ReadFetch Scan Fetcher ScanFacts ScanRounds.

#[export] Instance demo_protocol : KafkaProtocol := {|
  try_from_code c := if c =? 0 then None else Some ResponseError.NotCoordinator;
  is_retriable _ := true;
|}.

(** One record a batch, dated by the batch; a batch with leader epoch 9 is corrupt, one
    with leader epoch 8 lost its tail to compaction and holds its first two records, and
    one with leader epoch 7 is a control batch. *)
Definition demo_record (b : bytes) (delta : Z) : Batch.KpRecord := {|
  Batch.kp_transactional := false; Batch.kp_control := false;
  Batch.kp_partition_leader_epoch := 0; Batch.kp_producer_id := -1;
  Batch.kp_timestamp_type := Batch.Creation;
  Batch.kp_offset := default 0 (Batch.read_i64 b Batch.BASE_OFFSET) + delta;
  Batch.kp_timestamp := default 0 (Batch.read_i64 b 27);
  Batch.kp_key := None; Batch.kp_value := Some (drop 61 b); Batch.kp_headers := [];
|}.

#[export] Instance demo_codec : Batch.RecordCodec := {|
  Batch.kp_decode b _ :=
    if bool_decide (b !! 15%nat = Some (z2b 9)) then Err "corrupt"%string
    else if bool_decide (b !! 15%nat = Some (z2b 8)) then Ok [demo_record b 0; demo_record b 1]
    else Ok [demo_record b 0];
  Batch.gzip_take b n := Err "none"%string; Batch.lz4_take b n := Err "none"%string;
  Batch.zstd_take b n := Err "none"%string; Batch.xerial_decompress b := Err "none"%string;
  Batch.snap_decompress_len b := Err "none"%string;
  Batch.snap_decompress b n := Err "none"%string;
|}.

Definition demo_payload : bytes := map z2b [1; 2; 3; 4; 5; 6; 7; 8; 9; 10; 11; 12; 13; 14].

(** A batch: its base offset, its last offset, its time and its leader epoch. *)
Definition demo_wire (base last time epoch : Z) : WireHeader := {|
  w_base_offset := base; w_leader_epoch := epoch; w_crc := 0;
  w_attributes := if epoch =? 7 then 32 else 0;
  w_last_offset_delta := last - base; w_base_timestamp := time; w_max_timestamp := time;
  w_producer_id := -1; w_producer_epoch := 0; w_base_sequence := 0;
  w_record_count := if epoch =? 8 then 2 else 1;
|}.

Record DemoBatch : Type := { d_base : Z; d_last : Z; d_time : Z; d_epoch : Z }.

Definition batch_bytes (b : DemoBatch) : bytes :=
  encode_wire (demo_wire (d_base b) (d_last b) (d_time b) (d_epoch b)) demo_payload.

Definition plain (offset time : Z) : DemoBatch :=
  {| d_base := offset; d_last := offset; d_time := time; d_epoch := 0 |}.

Section net.
Context (log : Z -> list DemoBatch) (high : Z).

(** A fetch answers the batches from the one that holds the offset on. *)
Definition serve (p offset : Z) : bytes :=
  concat (map batch_bytes (List.filter (fun b => offset <=? d_last b) (log p))).

Definition demo_data (f : FetchPartition) : PartitionData := {|
  pd_partition_index := fp_partition f; pd_error_code := 0; pd_high_watermark := high;
  pd_last_stable_offset := high; pd_log_start_offset := 0; pd_aborted_transactions := None;
  pd_records := Some (serve (fp_partition f) (fp_fetch_offset f)) |}.

Definition demo_net : ReadNet unit := {|
  refresh_topic w topic :=
    (w, Ok (Some {| ti_error := None; ti_id := replicate 16 (z2b 7); ti_partitions := [0; 1] |}));
  leader_for w topic p := (w, Ok (p mod 2));
  list_one w topic p leader time := (w, Ok (Some (if time =? ListOffsets.EARLIEST then 0 else high)));
  node leader := {|
    negotiated_for w := (w, Ok 12);
    send_to_node w req :=
      (w, Ok {| error_code := 0; resp_session_id := 0;
                responses := map (fun t => {| tr_topic := ft_topic t; tr_topic_id := ZERO_ID;
                                              tr_partitions := map demo_data (ft_partitions t) |})
                               (topics req) |}) |};
|}.

End net.

Definition two_logs (p : Z) : list DemoBatch :=
  if p =? 0 then [plain 0 10; plain 1 30] else if p =? 1 then [plain 0 20; plain 1 40] else [].

(** Only the first batch, or only the first partition of a request. *)
Definition first_batch (log : Z -> list DemoBatch) (p offset : Z) : bytes :=
  concat (map batch_bytes (take 1 (List.filter (fun b => offset <=? d_last b) (log p)))).

Definition answering (data : FetchPartition -> PartitionData) (net : ReadNet unit) : ReadNet unit := {|
  refresh_topic := refresh_topic net; leader_for := leader_for net; list_one := list_one net;
  node leader := {|
    negotiated_for w := (w, Ok 12);
    send_to_node w req :=
      (w, Ok {| error_code := 0; resp_session_id := 0;
                responses := map (fun t => {| tr_topic := ft_topic t; tr_topic_id := ZERO_ID;
                                              tr_partitions := map data (ft_partitions t) |})
                               (topics req) |}) |};
|}.

Definition records_as (records : bytes) (high : Z) (f : FetchPartition) : PartitionData := {|
  pd_partition_index := fp_partition f; pd_error_code := 0; pd_high_watermark := high;
  pd_last_stable_offset := high; pd_log_start_offset := 0; pd_aborted_transactions := None;
  pd_records := Some records |}.

Definition run {W} (net : ReadNet W) (w : W) (sp : ScanSpec) (fuel n : nat) :=
  match scan net w sp with
  | (w, Ok s) => stream net fuel n w s
  | (_, Err _) => None
  end.

End ScanDemo.

Module ScanProperties.
Import ReadFetch Scan ScanFacts ScanRounds ScanSpecs Yielding LogOrder Ending ScanDemo.

(** A scan yields records of its topic that pass its filter, each from a planned
    partition and not before that partition's start; no more of them than its limit;
    nothing after it is done or has failed; and a final count that is theirs. *)
Theorem scan_yields_what_was_asked `{KafkaProtocol, Batch.RecordCodec} {W} (net : ReadNet W) sp
    fuel n w w0 w' s0 s' l :
  within_limit sp 0 ->
  scan net w sp = (w0, Ok s0) -> stream net fuel n w0 s0 = Some (w', s', l) ->
  let records := records_in (oks l) in
  Forall (asked sp (map identity (cursors s0))) records /\
  within_limit sp (Z.of_nat (length records)) /\
  (forall pre e post, l = pre ++ e :: post -> ends e = true -> post = []) /\
  (forall p, Ok (Done p) ∈ l -> records_emitted p = Z.of_nat (length records)).
Proof.
  intros Hl Hs Hst. pose proof (scan_start net w sp w0 s0 Hl Hs) as Hy. cbn zeta.
  destruct (stream_yielding net sp _ fuel n w0 s0 w' s' l Hy Hst) as [Y1 Y2 Y3 Y4 Y5 Y6 Y7 Y8].
  split_and!; [done|by rewrite <- Y4| |].
  - intros pre e post El He. by eapply (stream_ends net fuel n w0 s0); [apply Hy| | |].
  - intros p Hp. apply (Y8 p). apply list_elem_of_In. apply list_elem_of_In in Hp.
    apply in_flat_map. exists (Ok (Done p)). split; [done|by left].
Qed.

(** A scan starts in log order. *)
Lemma start_log_ordered `{KafkaProtocol, Batch.RecordCodec} {W} (net : ReadNet W) sp w w0 s0 :
  in_log_order net sp (map identity (cursors s0)) -> scan net w sp = (w0, Ok s0) ->
  log_ordered sp (map identity (cursors s0)) [] s0.
Proof.
  intros Hlog Hs. pose proof (scan_fresh net w sp w0 s0 Hs) as (F1 & F2 & F3 & _ & _).
  rewrite Forall_forall in F3. split; [done|done|done| | | |].
  - apply Forall_forall. intros c Hc. unfold sound_cursor. by rewrite (proj1 (F3 c Hc)).
  - apply Forall_forall. intros c Hc. destruct (F3 c Hc) as (B1 & B2 & _).
    assert (Hid : identity c ∈ map identity (cursors s0)) by by apply list_elem_of_fmap_2.
    split; [done| | |].
    + rewrite B2. by eapply (lo_starts _ _ _ Hlog (c_partition c)).
    + intros r Hr. rewrite B1 in Hr. by apply not_elem_of_nil in Hr.
    + rewrite B1. constructor.
  - intros r c Hr. by apply not_elem_of_nil in Hr.
  - intros q. constructor.
Qed.

(** Within a partition a scan yields in log order, each record once, in any stretch of
    it, with or without a memory ceiling and following or not, when what an answer
    holds before the asked offset precedes the scan's start too. *)
Theorem scan_keeps_log_order `{KafkaProtocol, Batch.RecordCodec} {W} (net : ReadNet W) sp
    fuel n w w0 w' s0 s' l :
  in_log_order net sp (map identity (cursors s0)) -> answers_what_was_asked net sp ->
  NoDup (map c_partition (cursors s0)) ->
  scan net w sp = (w0, Ok s0) -> stream net fuel n w0 s0 = Some (w', s', l) ->
  forall q, StronglySorted Z.lt (offsets_of q (records_in (oks l))).
Proof.
  intros Hlog Hask Hn Hs Hst. pose proof (start_log_ordered net sp w w0 s0 Hlog Hs) as Hg.
  assert (Hn' : NoDup (map fst (map identity (cursors s0)))) by by rewrite map_map.
  by destruct (stream_log_ordered net sp _ fuel n w0 s0 w' s' l Hlog Hask Hn' Hg Hst).
Qed.


(** C37: A browse ends: polled often enough, with enough rounds, its last event is [Done] or
    an error, when leaders answer every partition asked for and no other, and the ends
    they report are bounded. *)
Theorem browse_ends `{KafkaProtocol, Batch.RecordCodec} {W} (net : ReadNet W) sp bound w w0 s0 :
  log_ends net sp bound -> answers_what_was_asked net sp -> answers_everything net sp ->
  follow sp = false -> 0 < max_buffered_records sp -> NoDup (map c_partition (cursors s0)) ->
  Forall (fun c => end_offset c <= bound (c_partition c)) (cursors s0) ->
  scan net w sp = (w0, Ok s0) ->
  exists fuel0 n w' s' l e, ends e = true /\
    forall fuel, (fuel0 <= fuel)%nat -> stream net fuel n w0 s0 = Some (w', s', l ++ [e]).
Proof.
  intros Hends Hask Hall Hf Hb Hn He Hs.
  destruct (scan_fresh net w sp w0 s0 Hs) as (F1 & _ & F3 & _ & F5 & F6).
  apply (stream_ends_eventually net sp bound Hends Hask Hall Hf Hb). split; try done.
  rewrite F6. unfold records_held. clear - F3. induction F3 as [|c l (Hc & _) Hl IH]; [done|].
  cbn. by rewrite Hc.
Qed.

(** ** Witnesses *)

Definition demo : ReadNet unit := demo_net two_logs 2.

(** What the demo answers: each target, from the batch that holds its offset. *)
Definition answer (t : FetchTarget) : FetchedPartition := {|
  f_partition := ft_partition t; f_records := serve two_logs (ft_partition t) (ft_offset t);
  f_high_watermark := 2; f_last_stable_offset := 2; f_log_start_offset := 0; f_aborted := [] |}.

Lemma demo_read name ts :
  read_partitions name
    (map (demo_data two_logs 2)
       (map (fun target => {| Fetcher.fp_partition := ft_partition target;
               Fetcher.fp_current_leader_epoch := -1; Fetcher.fp_fetch_offset := ft_offset target;
               Fetcher.fp_last_fetched_epoch := -1; Fetcher.fp_log_start_offset := -1;
               Fetcher.fp_partition_max_bytes := ft_max_bytes target |}) ts)) = Ok (map answer ts).
Proof. induction ts as [|t ts IH]; [done|]. cbn [map read_partitions]. by rewrite IH. Qed.

Lemma demo_fetch leader w name id tgts max_wait max_bytes visibility :
  fetch (node demo leader) w name id tgts max_wait max_bytes visibility = (w, Ok (map answer tgts)).
Proof.
  unfold fetch. destruct tgts as [|t tgts]; [done|].
  cbn [Fetcher.negotiated_for Fetcher.send_to_node demo demo_net node]. unfold fetch_topic.
  change (Fetcher.FETCH_TOPIC_ID_VERSION <=? 12) with false. cbn iota.
  cbn [request Fetcher.topics map Fetcher.tr_partitions Fetcher.responses Fetcher.error_code
       Fetcher.ft_partitions concat result_bind].
  change (ErrorCode.from_code 0) with (@None ErrorCode.ErrorCode). cbn iota. rewrite app_nil_r.
  pose proof (demo_read name (t :: tgts)) as Hr. cbn [map] in Hr. by rewrite Hr.
Qed.

Lemma demo_answers sp leader tgts l :
  answered demo sp leader tgts l -> NoDup (map ft_partition tgts) /\ l = map answer tgts.
Proof.
  intros (Hn & w & id & w' & E). split; [done|]. rewrite demo_fetch in E. by injection E as _ <-.
Qed.

Lemma demo_asked sp : answers_what_was_asked demo sp.
Proof.
  intros leader tgts l [Hn ->]%demo_answers. rewrite map_map. split; [done|].
  intros p (t & -> & Ht)%list_elem_of_fmap. by apply (list_elem_of_fmap_2 ft_partition).
Qed.

Lemma demo_everything sp : answers_everything demo sp.
Proof.
  intros leader tgts l t [Hn ->]%demo_answers Ht. exists (answer t).
  split; [by apply list_elem_of_fmap_2|done].
Qed.

Definition demo_ts (p offset : Z) : Z := Z.max 0 (10 + 20 * offset + 10 * p).

(** What is decoded of the answer at an offset. *)
Lemma demo_decoded t :
  exists l, Batch.outcomes (decode (new "t") (answer t))
            = map Batch.Decoded l /\
    StronglySorted before (map Batch.Decoded l) /\
    forall r, r ∈ l ->
      Batch.r_offset r < I64_MAX /\
      Batch.r_offset r <= last_offset_of (List.last (map Batch.Decoded l) (Batch.Decoded r)) /\
      ft_offset t <= Batch.r_offset r /\
      Batch.r_timestamp r = demo_ts (ft_partition t) (Batch.r_offset r).
Proof.
  destruct t as [p offset mx]. unfold answer. cbn [ft_partition ft_offset].
  unfold serve, two_logs.
  destruct (Z.eqb_spec p 0) as [->|]; [|destruct (Z.eqb_spec p 1) as [->|]];
    cbn [List.filter d_last plain].
  1,2: destruct (Z.leb_spec offset 0); destruct (Z.leb_spec offset 1); try lia.
  all: cbn [map concat];
    match goal with |- context [Batch.outcomes ?d] => let v := eval vm_compute in (Batch.outcomes d) in
      replace (Batch.outcomes d) with v by (vm_compute; reflexivity) end.
  all: match goal with
       | |- context [[Batch.Decoded ?a; Batch.Decoded ?b] = _] => exists [a; b]
       | |- context [[Batch.Decoded ?a] = _] => exists [a]
       | |- context [[] = _] => exists []
       end.
  all: split; [reflexivity|]; split; [repeat constructor|].
  all: intros r Hr; repeat (apply elem_of_cons in Hr as [->|Hr]);
    try (by apply not_elem_of_nil in Hr);
    (split; [reflexivity|]); (split; [vm_compute; discriminate|]);
    (split; [cbn [Batch.r_offset ft_offset]; lia|]); reflexivity.
Qed.

Definition demo_spec : ScanSpec := new "t".

Definition demo_start : ScanState :=
  match scan demo tt demo_spec with
  | (_, Ok s) => s
  | (_, Err _) => start_state demo_spec [] []
  end.

Lemma demo_scan : scan demo tt demo_spec = (tt, Ok demo_start).
Proof. vm_compute. reflexivity. Qed.

Lemma demo_cursors : map identity (cursors demo_start) = [(0, 0); (1, 0)].
Proof. vm_compute. reflexivity. Qed.

Lemma demo_distinct : NoDup (map c_partition (cursors demo_start)).
Proof. refine (bool_decide_unpack _ _). vm_compute. exact I. Qed.

Lemma demo_log_order : in_log_order demo demo_spec (map identity (cursors demo_start)).
Proof.
  rewrite demo_cursors. split.
  - intros p start Hp. repeat (apply elem_of_cons in Hp as [[= -> ->]|Hp]); try done.
    by apply not_elem_of_nil in Hp.
  - intros leader tgts l p t start Ha Hp Ht Et Hs. pose proof (demo_answers _ _ _ _ Ha) as [Hn ->].
    apply list_elem_of_fmap in Hp as (t' & -> & Ht'). cbn [answer f_partition] in Et.
    assert (t' = t) as ->.
    { apply list_elem_of_lookup in Ht as [i Hi], Ht' as [j Hj].
      assert (j = i) as ->; [|congruence].
      apply (NoDup_lookup (map ft_partition tgts) _ _ (ft_partition t)); [done| |];
        rewrite list_lookup_fmap; [rewrite Hj|rewrite Hi]; cbn; congruence. }
    destruct (demo_decoded t) as (ds & Hd & Hso & Hr). cbn zeta. unfold demo_spec. rewrite Hd.
    split; [done|]. split; [done|]. intros r Hin.
    assert (Hin' : r ∈ ds).
    { apply list_elem_of_fmap in Hin as (r' & [= ->] & ?). done. }
    destruct (Hr r Hin') as (R1 & R2 & R3 & _). by split_and!.
Qed.


Lemma demo_ends : log_ends demo demo_spec (fun _ => 2).
Proof.
  split; [done|]. intros leader tgts l p [_ ->]%demo_answers Hp.
  by apply list_elem_of_fmap in Hp as (t & -> & _).
Qed.

(** The whole stream of the demo. *)
Definition demo_run := stream demo 10 20 tt demo_start.

Definition demo_end : ScanState := match demo_run with Some (_, s, _) => s | None => demo_start end.

Definition demo_events : list (result ScanEvent Error.Error) :=
  match demo_run with Some (_, _, l) => l | None => [] end.

Lemma demo_stream : stream demo 10 20 tt demo_start = Some (tt, demo_end, demo_events).
Proof. vm_compute. reflexivity. Qed.

Lemma scan_yields_what_was_asked_witness :
  length (records_in (oks demo_events)) = 4%nat /\
  Forall (asked demo_spec (map identity (cursors demo_start))) (records_in (oks demo_events)).
Proof.
  split; [vm_compute; reflexivity|].
  exact (proj1 (scan_yields_what_was_asked demo demo_spec 10 20 tt tt tt demo_start demo_end
                  demo_events I demo_scan demo_stream)).
Defined.

Lemma scan_keeps_log_order_witness :
  offsets_of 1 (records_in (oks demo_events)) = [0; 1] /\
  StronglySorted Z.lt (offsets_of 1 (records_in (oks demo_events))).
Proof.
  split; [vm_compute; reflexivity|].
  exact (scan_keeps_log_order demo demo_spec 10 20 tt tt tt demo_start demo_end demo_events
           demo_log_order (demo_asked _) demo_distinct demo_scan demo_stream 1).
Defined.


Lemma browse_ends_witness :
  exists fuel0 n w' s' l e, ends e = true /\
    forall fuel, (fuel0 <= fuel)%nat -> stream demo fuel n tt demo_start = Some (w', s', l ++ [e]).
Proof.
  refine (browse_ends demo demo_spec (fun _ => 2) tt tt demo_start demo_ends (demo_asked _)
            (demo_everything _) eq_refl eq_refl demo_distinct _ demo_scan).
  refine (bool_decide_unpack _ _). vm_compute. exact I.
Defined.

(** ** Where scans fall short of their documentation *)

Definition seen {W} (o : option (W * ScanState * list (result ScanEvent Error.Error)))
    : option (Z * list (Z * Z * Z) * bool) :=
  option_map (fun '(_, s, l) =>
    (reorder_window (progress s),
     map (fun r => (Batch.r_partition r, Batch.r_offset r, Batch.r_timestamp r)) (records_in (oks l)),
     bool_decide (done_ s = true))) o.

(** A batch over offsets 0 to 3 that compaction left with records 0 and 1: they are
    yielded once for each offset up to the batch's end. *)
Example compacted_tail_is_yielded_again :
  seen (run (demo_net (fun _ => [{| d_base := 0; d_last := 3; d_time := 5; d_epoch := 8 |}]) 4) tt
          (with_partitions [0] (new "t")) 10 20)
  = Some (0, [(0, 0, 5); (0, 1, 5); (0, 0, 5); (0, 1, 5); (0, 0, 5); (0, 1, 5)], true).
Proof. vm_compute. reflexivity. Qed.

(** A response that had no room left for partition 1 ends that partition: its two
    records are never read, and the scan is done. *)
Example empty_answer_ends_a_partition :
  seen (run (answering (fun f => if Fetcher.fp_partition f =? 1 then records_as [] 2 f
                                 else demo_data two_logs 2 f) (demo_net two_logs 2)) tt (new "t") 10 20)
  = Some (0, [(0, 0, 10); (0, 1, 30)], true).
Proof. vm_compute. reflexivity. Qed.

(** With a budget of one record for two partitions, out of order and a window of 0. *)
Example small_budget_misorders_silently :
  seen (run (answering (fun f => records_as (first_batch
                 (fun p => if p =? 0 then [plain 0 10; plain 1 15] else [plain 0 20; plain 1 40])
                 (Fetcher.fp_partition f) (Fetcher.fp_fetch_offset f)) 2 f) (demo_net two_logs 2)) tt
          (with_max_buffered_records 1 (new "t")) 10 20)
  = Some (0, [(0, 0, 10); (1, 0, 20); (0, 1, 15); (1, 1, 40)], true).
Proof. vm_compute. reflexivity. Qed.

(** A browse planned against an end of 2 reads on when a record is written at 2. *)
Example browse_chases_the_end :
  seen (run (answering (fun f => records_as (serve
                 (fun p => if p =? 0 then [plain 0 10; plain 1 30; plain 2 50] else [])
                 (Fetcher.fp_partition f) (Fetcher.fp_fetch_offset f)) 3 f) (demo_net two_logs 2)) tt
          (with_partitions [0] (new "t")) 10 20)
  = Some (0, [(0, 0, 10); (0, 1, 30); (0, 2, 50)], true).
Proof. vm_compute. reflexivity. Qed.

End ScanProperties.
