(* ===== verification/Backward.v ===== *)
(** The backward scan ([crates/kafka-read/src/backward.rs]): the last records of each
    partition below an anchor, read by walking windows down from it.

    Fuel bounds each of the three loops; [None] is out of fuel. *)

From S2P Require Import Prelude Sanitize ErrorCodes Retry BatchDecode Fetch Coordinator Scan.

Module Tail.
Import ReadFetch.

Abbreviation RecordFilter := Scan.RecordFilter.

Inductive TailAnchor : Type := LogEnd | AtOffset (offset : Z) | AtTimestamp (millis : Z).

Record TailSpec : Type := {
  topic : string;
  partitions : option (list Z);
  anchor : TailAnchor;
  limit : Z;
  record_filter : option RecordFilter;
  visibility : Batch.Visibility;
  partition_max_bytes : Z;
  fetch_max_bytes : Z;
  max_decompressed_bytes : Z;
  initial_step : Z;
  max_step : Z;
}.

Definition new (topic : string) (limit : Z) : TailSpec := {|
  topic := topic; partitions := None; anchor := LogEnd; limit := limit; record_filter := None;
  visibility := Batch.visibility Batch.default_options; partition_max_bytes := 1024 * 1024;
  fetch_max_bytes := 8 * 1024 * 1024; max_decompressed_bytes := 64 * 1024 * 1024;
  initial_step := 0; max_step := 100000 |}.

(** The builder methods (those of the byte budgets only set their field). *)
Definition with_partitions (x : list Z) (self : TailSpec) : TailSpec := {|
  topic := topic self; partitions := Some x; anchor := anchor self; limit := limit self;
  record_filter := record_filter self; visibility := visibility self;
  partition_max_bytes := partition_max_bytes self; fetch_max_bytes := fetch_max_bytes self;
  max_decompressed_bytes := max_decompressed_bytes self; initial_step := initial_step self;
  max_step := max_step self |}.

Definition with_anchor (x : TailAnchor) (self : TailSpec) : TailSpec := {|
  topic := topic self; partitions := partitions self; anchor := x; limit := limit self;
  record_filter := record_filter self; visibility := visibility self;
  partition_max_bytes := partition_max_bytes self; fetch_max_bytes := fetch_max_bytes self;
  max_decompressed_bytes := max_decompressed_bytes self; initial_step := initial_step self;
  max_step := max_step self |}.

Definition with_filter (x : RecordFilter) (self : TailSpec) : TailSpec := {|
  topic := topic self; partitions := partitions self; anchor := anchor self;
  limit := limit self; record_filter := Some x; visibility := visibility self;
  partition_max_bytes := partition_max_bytes self; fetch_max_bytes := fetch_max_bytes self;
  max_decompressed_bytes := max_decompressed_bytes self; initial_step := initial_step self;
  max_step := max_step self |}.

Definition with_visibility (x : Batch.Visibility) (self : TailSpec) : TailSpec := {|
  topic := topic self; partitions := partitions self; anchor := anchor self;
  limit := limit self; record_filter := record_filter self; visibility := x;
  partition_max_bytes := partition_max_bytes self; fetch_max_bytes := fetch_max_bytes self;
  max_decompressed_bytes := max_decompressed_bytes self; initial_step := initial_step self;
  max_step := max_step self |}.

Definition with_initial_step (x : Z) (self : TailSpec) : TailSpec := {|
  topic := topic self; partitions := partitions self; anchor := anchor self;
  limit := limit self; record_filter := record_filter self; visibility := visibility self;
  partition_max_bytes := partition_max_bytes self; fetch_max_bytes := fetch_max_bytes self;
  max_decompressed_bytes := max_decompressed_bytes self; initial_step := x;
  max_step := max_step self |}.

Definition with_max_step (x : Z) (self : TailSpec) : TailSpec := {|
  topic := topic self; partitions := partitions self; anchor := anchor self;
  limit := limit self; record_filter := record_filter self; visibility := visibility self;
  partition_max_bytes := partition_max_bytes self; fetch_max_bytes := fetch_max_bytes self;
  max_decompressed_bytes := max_decompressed_bytes self; initial_step := initial_step self;
  max_step := x |}.

Definition decode_options (self : TailSpec) : Batch.DecodeOptions :=
  {| Batch.max_decompressed_bytes := max_decompressed_bytes self;
     Batch.visibility := visibility self |}.

(** [usize::div_ceil]. *)
Definition div_ceil (a b : Z) : Z := (a + b - 1) / b.

Definition first_step (self : TailSpec) (partitions : Z) : Z :=
  if 0 <? initial_step self then initial_step self
  else
    let per_partition := div_ceil (limit self) (Z.max partitions 1) in
    try_from_or I64_MAX 1024 (Z.max (Z.min (per_partition * 2) USIZE_MAX) 64).

Record PartitionTail : Type := {
  t_partition : Z;
  t_records : list Batch.DRecord;
  t_malformed : Z;
  t_fetches : Z;
  t_log_start : Z;
  t_log_end : Z;
  reached_log_start : bool;
}.

Record Walk : Type := {
  partition : Z;
  leader : Z;
  log_start : Z;
  log_end : Z;
  window_end : Z;
  step : Z;
  collected : list Batch.DRecord;
  malformed : Z;
  fetches : Z;
  target : Z;
  trimmed : bool;
}.

Definition set_walk (s : Walk) (window_end step : Z) (collected : list Batch.DRecord)
    (malformed fetches target : Z) (trimmed : bool) : Walk := {|
  partition := partition s; leader := leader s; log_start := log_start s; log_end := log_end s;
  window_end := window_end; step := step; collected := collected; malformed := malformed;
  fetches := fetches; target := target; trimmed := trimmed |}.

Definition has_more (self : Walk) : bool := log_start self <? window_end self.

(** [collected.len()]. *)
Definition held (self : Walk) : Z := Z.of_nat (length (collected self)).

Definition kept (self : Walk) : Z := Z.min (held self) (target self).

Definition can_yield_more (self : Walk) : bool := has_more self || (target self <? held self).

(** [while len > target { pop_front(); trimmed = true }]. *)
Definition trim_to_target (self : Walk) : Walk :=
  let excess := Z.to_nat (held self - target self) in
  set_walk self (window_end self) (step self) (drop excess (collected self)) (malformed self)
    (fetches self) (target self) (trimmed self || (target self <? held self)).

Definition finish (self : Walk) : PartitionTail := {|
  t_partition := partition self;
  t_records := collected self;
  t_malformed := malformed self;
  t_fetches := fetches self;
  t_log_start := log_start self;
  t_log_end := log_end self;
  reached_log_start := negb (has_more self) && negb (trimmed self);
|}.

Definition timestamp_probe (millis : Z) : Z := Z.max (i64_saturating_add millis 1) 0.

Definition clamp_bound (bound log_start log_end : Z) : Z :=
  clamp (Z.min log_start log_end) log_end bound.

Section tail.
Context `{KafkaProtocol, Batch.RecordCodec} {W : Type} (net : Scan.ReadNet W).

Definition resolve_anchor (w : W) (topic : string) (partition leader : Z) (anchor : TailAnchor)
    (log_start log_end : Z) : W * result Z Error.Error :=
  match anchor with
  | LogEnd => (w, Ok log_end)
  | AtOffset offset => (w, Ok (clamp_bound (i64_saturating_add offset 1) log_start log_end))
  | AtTimestamp millis =>
      let '(w, found) := Scan.list_one net w topic partition leader (timestamp_probe millis) in
      (w, let? found := found in
          Ok match found with
             | Some offset => clamp_bound offset log_start log_end
             | None => log_end
             end)
  end.

(** ** Reading a window *)

Definition decode (spec : TailSpec) (partition : Z) (data : FetchedPartition) : Batch.DecodedPartition :=
  default Batch.empty_decoded
    (Batch.decode_records_with_aborted (topic spec) partition (f_records data) (f_aborted data)
       (decode_options spec)).

(** One outcome of a window: the last offset, the records kept, the batches that would
    not decode. *)
Definition take_outcome (spec : TailSpec) (start end_ : Z)
    (acc : Z * list Batch.DRecord * Z) (outcome : Batch.RecordOutcome)
    : Z * list Batch.DRecord * Z :=
  let '(_, records, malformed) := acc in
  match outcome with
  | Batch.Decoded record =>
      (Scan.last_offset_of outcome,
       if (start <=? Batch.r_offset record) && (Batch.r_offset record <? end_)
          && Scan.passes (record_filter spec) record
       then records ++ [record] else records,
       malformed)
  | Batch.Malformed _ _ _ _ => (Scan.last_offset_of outcome, records, malformed + 1)
  end.

Definition window_target (spec : TailSpec) (partition offset : Z) : FetchTarget :=
  {| ft_partition := partition; ft_offset := offset; ft_max_bytes := partition_max_bytes spec |}.

(** The loop of [read_window], from [offset]. *)
Fixpoint read_window_from (fuel : nat) (w : W) (spec : TailSpec) (partition leader : Z)
    (topic_id : bytes) (start end_ offset : Z) (records : list Batch.DRecord)
    (malformed fetches : Z)
    : option (W * result (list Batch.DRecord * Z * Z) Error.Error) :=
  match fuel with
  | O => None
  | S fuel =>
      if end_ <=? offset then Some (w, Ok (records, malformed, fetches))
      else
        let '(w, fetched) :=
          fetch (Scan.node net leader) w (topic spec) topic_id
            [window_target spec partition offset] 0 (fetch_max_bytes spec) (visibility spec) in
        match fetched with
        | Err e => Some (w, Err e)
        | Ok fetched =>
            let fetches := fetches + 1 in
            match List.find (fun p => f_partition p =? partition) fetched with
            | None => Some (w, Ok (records, malformed, fetches))
            | Some data =>
                match Batch.outcomes (decode spec partition data) with
                | [] => Some (w, Ok (records, malformed, fetches))
                | outcomes =>
                    let '(last_offset, records, malformed) :=
                      foldl (take_outcome spec start end_) (offset, records, malformed) outcomes in
                    let next := i64_saturating_add last_offset 1 in
                    if next <=? offset then Some (w, Ok (records, malformed, fetches))
                    else read_window_from fuel w spec partition leader topic_id start end_ next
                           records malformed fetches
                end
            end
        end
  end.

Definition read_window (fuel : nat) (w : W) (spec : TailSpec) (partition leader : Z)
    (topic_id : bytes) (start end_ : Z)
    : option (W * result (list Batch.DRecord * Z * Z) Error.Error) :=
  read_window_from fuel w spec partition leader topic_id start end_ start [] 0 0.

(** ** Walking *)

(** The step after a window of [span] offsets that held [density] records. *)
Definition grown_step (spec : TailSpec) (step span density held target : Z) : Z :=
  if (density <? span / 2) && (held <? target) then
    let scale := if density =? 0 then 8 else clamp 2 8 (span / Z.max density 1) in
    clamp 1 (max_step spec) (clamp I64_MIN I64_MAX (step * scale))
  else step.

Definition window_start (self : Walk) : Z :=
  Z.max (i64_saturating_sub (window_end self) (step self)) (log_start self).

(** The walk after one window was read. *)
Definition take_window (spec : TailSpec) (self : Walk) (target : Z)
    (read : list Batch.DRecord * Z * Z) : Walk :=
  let '(records, bad, reads) := read in
  let start := window_start self in
  let collected := records ++ collected self in
  let span := Z.max (i64_saturating_sub (window_end self) start) 1 in
  let step := grown_step spec (step self) span (Z.of_nat (length records))
                (Z.of_nat (length collected)) target in
  set_walk self start step collected (malformed self + bad) (fetches self + reads)
    (Tail.target self) (trimmed self).

Fixpoint run_until (fuel : nat) (w : W) (spec : TailSpec) (topic_id : bytes) (self : Walk)
    (target : Z) : option (W * Walk * result unit Error.Error) :=
  match fuel with
  | O => None
  | S fuel' =>
      if (held self <? target) && has_more self then
        '(w, read) ← read_window fuel w spec (partition self) (leader self) topic_id
                       (window_start self) (window_end self);
        match read with
        | Err e => Some (w, self, Err e)
        | Ok read => run_until fuel' w spec topic_id (take_window spec self target read) target
        end
      else Some (w, self, Ok tt)
  end.

(** ** Spreading the limit *)

Definition total_kept (walks : list Walk) : Z := sum_with kept walks.

Definition grant (self : Walk) (more : Z) : Walk :=
  set_walk self (window_end self) (step self) (collected self) (malformed self) (fetches self)
    (usize_saturating_add (target self) more) (trimmed self).

(** The open walks of a round, each granted its share of what is still owed. *)
Fixpoint round (fuel : nat) (w : W) (spec : TailSpec) (topic_id : bytes) (share : Z)
    (open : list nat) (walks : list Walk) : option (W * list Walk * result unit Error.Error) :=
  match open with
  | [] => Some (w, walks, Ok tt)
  | index :: open =>
      let deficit := usize_saturating_sub (limit spec) (total_kept walks) in
      if deficit =? 0 then Some (w, walks, Ok tt)
      else
        match walks !! index with
        | None => round fuel w spec topic_id share open walks
        | Some walk =>
            let walk := grant walk (Z.min share deficit) in
            '(w, walk, ran) ← run_until fuel w spec topic_id walk (target walk);
            let walks := <[index := walk]> walks in
            match ran with
            | Err e => Some (w, walks, Err e)
            | Ok _ => round fuel w spec topic_id share open walks
            end
        end
  end.

Definition open_walks (walks : list Walk) : list nat :=
  map fst (List.filter (fun item => can_yield_more item.2) (imap pair walks)).

Fixpoint spread (fuel rounds : nat) (w : W) (spec : TailSpec) (topic_id : bytes)
    (walks : list Walk) : option (W * list Walk * result unit Error.Error) :=
  match rounds with
  | O => None
  | S rounds =>
      let kept := total_kept walks in
      if limit spec <=? kept then Some (w, walks, Ok tt)
      else
        match open_walks walks with
        | [] => Some (w, walks, Ok tt)
        | open =>
            let share := div_ceil (limit spec - kept) (Z.of_nat (length open)) in
            '(w, walks, ran) ← round fuel w spec topic_id share open walks;
            match ran with
            | Err e => Some (w, walks, Err e)
            | Ok _ => spread fuel rounds w spec topic_id walks
            end
        end
  end.

(** ** The whole read *)

Definition walk_at (partition leader log_start log_end window_end : Z) : Walk := {|
  partition := partition; leader := leader; log_start := log_start; log_end := log_end;
  window_end := window_end; step := 1; collected := []; malformed := 0; fetches := 0;
  target := 0; trimmed := false |}.

Fixpoint plan_walks (w : W) (spec : TailSpec) (wanted : list Z)
    : W * result (list Walk) Error.Error :=
  match wanted with
  | [] => (w, Ok [])
  | partition :: wanted =>
      let '(w, leader) := Scan.leader_for net w (topic spec) partition in
      match leader with
      | Err e => (w, Err e)
      | Ok leader =>
          let '(w, b) := Scan.bounds net w (topic spec) partition leader in
          match b with
          | Err e => (w, Err e)
          | Ok (log_start, log_end) =>
              let '(w, bound) := resolve_anchor w (topic spec) partition leader (anchor spec)
                                   log_start log_end in
              match bound with
              | Err e => (w, Err e)
              | Ok window_end =>
                  let '(w, rest) := plan_walks w spec wanted in
                  (w, let? rest := rest in
                      Ok (walk_at partition leader log_start log_end window_end :: rest))
              end
          end
      end
  end.

Definition with_step (step : Z) (self : Walk) : Walk :=
  set_walk self (window_end self) step (collected self) (malformed self) (fetches self)
    (target self) (trimmed self).

(** The walks with their first step, which panics when [max_step] is below 1. *)
Definition start_walks (spec : TailSpec) (walks : list Walk) : option (list Walk) :=
  let holding := Z.of_nat (length (List.filter has_more walks)) in
  if max_step spec <? 1 then None
  else Some (map (with_step (clamp 1 (max_step spec) (first_step spec (Z.max holding 1)))) walks).

Inductive Outcome : Type :=
  | Panicked
  | Returned (r : result (list PartitionTail) Error.Error).

Definition tail (fuel : nat) (w : W) (spec : TailSpec) : option (W * Outcome) :=
  let '(w, info) := Scan.refresh_topic net w (topic spec) in
  match info with
  | Err e => Some (w, Returned (Err e))
  | Ok None =>
      Some (w, Returned (Err (Error.from_code ErrorCode.UnknownTopicOrPartition
                                (Some (text_of_string (topic spec))))))
  | Ok (Some info) =>
      match default (Scan.ti_partitions info) (partitions spec) with
      | [] => Some (w, Returned (Ok []))
      | wanted =>
          let '(w, walks) := plan_walks w spec wanted in
          match walks with
          | Err e => Some (w, Returned (Err e))
          | Ok walks =>
              match start_walks spec walks with
              | None => Some (w, Panicked)
              | Some walks =>
                  '(w, walks, ran) ← spread fuel fuel w spec (Scan.ti_id info) walks;
                  Some (w, Returned
                    (let? _ := ran in Ok (map (fun walk => finish (trim_to_target walk)) walks)))
              end
          end
      end
  end.

End tail.

End Tail.
