(* ===== verification/BackwardFacts.v ===== *)
(** Lemmas on [Backward]: each loop ends within its fuel, what a walk gathers, and how a
    round spreads the limit. *)

From S2P Require Import Prelude Sanitize ErrorCodes Retry BatchDecode Fetch Coordinator Scan Backward.

Module TailFacts.
Import ReadFetch Tail.

Section walks.
Context `{KafkaProtocol, Batch.RecordCodec} {W : Type} (net : Scan.ReadNet W) (spec : TailSpec).

(** ** Termination of the inner loops *)

Lemma read_window_returns fuel : forall w partition leader id start end_ offset records bad reads,
  (Z.to_nat (end_ - offset) < fuel)%nat ->
  is_Some (read_window_from net fuel w spec partition leader id start end_ offset records bad reads).
Proof.
  induction fuel as [|fuel IH]; intros w partition leader id start end_ offset records bad reads Hf; [lia|].
  cbn [read_window_from]. destruct (Z.leb_spec end_ offset); [by eexists|].
  destruct (fetch _ _ _ _ _ _ _ _) as [w1 [l|]]; [|by eexists].
  destruct (List.find _ l) as [data|]; [|by eexists].
  destruct (Batch.outcomes _) as [|o os]; [by eexists|].
  destruct (foldl _ _ _) as [[last records'] bad'].
  destruct (Z.leb_spec (i64_saturating_add last 1) offset); [by eexists|]. apply IH. lia.
Qed.

(** What a planned walk looks like, and stays. *)
Record sane (s : Walk) : Prop := {
  sa_step : 1 <= step s;
  sa_start : I64_MIN <= log_start s;
  sa_target : 0 <= target s;
  sa_settled : has_more s = true -> target s <= held s;
}.

Lemma window_descends s :
  1 <= step s -> I64_MIN <= log_start s -> has_more s = true ->
  log_start s <= window_start s < window_end s.
Proof.
  intros H1 H2 H3%Z.ltb_lt. unfold window_start, i64_saturating_sub, clamp.
  unfold I64_MIN, I64_MAX in *. lia.
Qed.

Lemma grown_step_positive st span density h t :
  1 <= max_step spec -> 1 <= st -> 1 <= grown_step spec st span density h t.
Proof. intros Hm Hs. unfold grown_step, clamp. destruct (_ && _); lia. Qed.

(** ** What a walk gathers *)

(** [P p lo hi l]: what reading the window [lo, hi) of partition [p] gives. *)
Context (P : Z -> Z -> Z -> list Batch.DRecord -> Prop).
Context (P_read : forall fuel w p leader id lo hi w' l bad reads,
  read_window net fuel w spec p leader id lo hi = Some (w', Ok (l, bad, reads)) -> P p lo hi l).
Context (P_nil : forall p x, P p x x []).
Context (P_app : forall p lo mid hi l1 l2,
  lo <= mid <= hi -> P p lo mid l1 -> P p mid hi l2 -> P p lo hi (l1 ++ l2)).
Context (Hmax : 1 <= max_step spec).

(** A walk later in its life. *)
Record later (a b : Walk) : Prop := {
  la_partition : partition b = partition a;
  la_start : log_start b = log_start a;
  la_log_end : log_end b = log_end a;
  la_trimmed : trimmed b = trimmed a;
  la_end : window_end b <= window_end a;
  la_floor : log_start a <= window_end a -> log_start a <= window_end b;
  la_target : target a <= target b;
  la_collected : exists new, collected b = new ++ collected a /\ P (partition a) (window_end b) (window_end a) new;
}.

Lemma later_refl s : later s s.
Proof using P_nil. split; try done. by exists []. Qed.

Lemma later_trans a b c : later a b -> later b c -> later a c.
Proof using P_app.
  intros [A1 A2 A0 A3 A4 A5 A6 (n1 & A7 & A8)] [B1 B2 B0 B3 B4 B5 B6 (n2 & B7 & B8)].
  split; try congruence; [lia|rewrite A2 in B5; auto|lia|].
  exists (n2 ++ n1). split; [by rewrite B7, A7, app_assoc|].
  rewrite A1 in B8. apply (P_app _ _ (window_end b)); [lia|done|done].
Qed.

Lemma later_held a b : later a b -> held a <= held b.
Proof. intros [_ _ _ _ _ _ _ (n & Hn & _)]. unfold held. rewrite Hn, length_app. lia. Qed.

(** Enough fuel for a walk. *)
Definition span (s : Walk) : nat := Z.to_nat (window_end s - log_start s).

(** The walk that [run_until] leaves. *)
Lemma run_until_spec fuel : forall w id s t,
  1 <= step s -> I64_MIN <= log_start s ->
  match run_until net fuel w spec id s t with
  | Some (_, s', r) =>
      later s s' /\ 1 <= step s' /\ target s' = target s /\ (span s' <= span s)%nat /\
      (is_ok r = true -> t <= held s' \/ has_more s' = false)
  | None => True
  end.
Proof using P_read P_nil P_app Hmax.
  induction fuel as [|fuel IH]; intros w id s t Hs Hl; [done|]. cbn [run_until].
  destruct (Z.ltb_spec (held s) t) as [Ht|Ht]; cbn [andb].
  2:{ split_and!; [apply later_refl|done|done|done|by left]. }
  destruct (has_more s) eqn:Em.
  2:{ split_and!; [apply later_refl|done|done|done|by right]. }
  destruct (read_window net (S fuel) w spec _ _ _ _ _) as [[w1 [[[l bad] reads]|e]]|] eqn:Er;
    cbn [mbind option_bind]; [| |done].
  2:{ split_and!; [apply later_refl|done|done|done|discriminate]. }
  pose proof (window_descends s Hs Hl Em) as Hw.
  set (s1 := take_window spec s t (l, bad, reads)).
  assert (H1 : later s s1).
  { split; try done; [cbn; lia|cbn; lia|]. exists l. split; [done|]. by eapply P_read. }
  assert (Hs1 : 1 <= step s1) by (apply grown_step_positive; [done|done]).
  specialize (IH w1 id s1 t Hs1 Hl). destruct (run_until net fuel w1 spec id s1 t) as [[[w2 s2] r]|]; [|done].
  destruct IH as (I1 & I2 & I3 & I4 & I5). split_and!; [by eapply later_trans|done|done| |done].
  unfold span in *. cbn in I4. lia.
Qed.

Lemma run_until_returns fuel : forall w id s t,
  1 <= step s -> I64_MIN <= log_start s -> (span s < fuel)%nat ->
  is_Some (run_until net fuel w spec id s t).
Proof using Hmax.
  induction fuel as [|fuel IH]; intros w id s t Hs Hl Hf; [lia|]. cbn [run_until].
  destruct (held s <? t); cbn [andb]; [|by eexists].
  destruct (has_more s) eqn:Em; [|by eexists].
  pose proof (window_descends s Hs Hl Em) as Hw. unfold span in Hf.
  destruct (read_window_returns (S fuel) w (partition s) (leader s) id (window_start s) (window_end s)
              (window_start s) [] 0 0) as [[w1 r] Er]; [lia|].
  unfold read_window. rewrite Er. cbn [mbind option_bind]. destruct r as [[[l bad] reads]|]; [|by eexists].
  apply IH; [by apply grown_step_positive|done|]. unfold span. cbn. lia.
Qed.

(** ** A round *)

Lemma total_kept_le a b : Forall2 later a b -> total_kept a <= total_kept b.
Proof using P_nil.
  induction 1 as [|x y a b Hxy Hab IH]; [done|]. pose proof (later_held x y Hxy).
  pose proof (la_target _ _ Hxy). assert (kept x <= kept y) by (unfold kept; lia).
  unfold total_kept in *. cbn. unfold sum_with in IH. lia.
Qed.

Lemma total_kept_insert l i a b :
  l !! i = Some a -> total_kept (<[i := b]> l) = total_kept l - kept a + kept b.
Proof.
  unfold total_kept. revert i. induction l as [|x l IH]; intros [|i]; [done|done|intros [= ->]; cbn; lia|].
  intros Hi. specialize (IH i Hi). change (<[S i:=b]> (x :: l)) with (x :: <[i:=b]> l).
  cbn [sum_with foldr] in *. unfold sum_with in *. lia.
Qed.

Lemma kept_nonneg a : sane a -> 0 <= kept a.
Proof. intros [_ _ Ht _]. unfold kept, held. lia. Qed.

Lemma total_kept_nonneg l : Forall sane l -> 0 <= total_kept l.
Proof.
  induction 1 as [|a l Ha Hl IH]; [done|]. pose proof (kept_nonneg a Ha).
  unfold total_kept in *. cbn. unfold sum_with in IH. lia.
Qed.

Lemma kept_le_total l i a : Forall sane l -> l !! i = Some a -> kept a <= total_kept l.
Proof.
  intros Hl. revert i. induction Hl as [|x l Hx Hl IH]; intros [|i]; [done|done|intros [= ->]|].
  - pose proof (total_kept_nonneg l Hl) as Hn. unfold total_kept, sum_with in *. cbn. lia.
  - intros Hi. specialize (IH i Hi). pose proof (kept_nonneg x Hx).
    unfold total_kept, sum_with in *. cbn. lia.
Qed.

(** A walk that can yield more holds all it was asked for. *)
Lemma open_kept a : sane a -> can_yield_more a = true -> kept a = target a.
Proof.
  intros [_ _ _ Hs] [Hm|Ht%Z.ltb_lt]%orb_true_iff; unfold kept; [specialize (Hs Hm)|]; lia.
Qed.

(** What a round does to the walk at [i]. *)
Definition served (open : list nat) (share : Z) (final : list Walk) (i : nat) (a b : Walk) : Prop :=
  later a b /\ (i ∉ open -> b = a) /\
  (i ∈ open -> limit spec <= total_kept final \/ can_yield_more b = false \/ kept a + share <= kept b).

Context (Hlimit : limit spec <= USIZE_MAX).

(** One walk of the round. *)
Lemma serve_one fuel w id share walks i a w' a2 r :
  1 <= share -> Forall sane walks -> total_kept walks <= limit spec ->
  walks !! i = Some a -> can_yield_more a = true ->
  limit spec - total_kept walks <> 0 ->
  run_until net fuel w spec id (grant a (Z.min share (usize_saturating_sub (limit spec) (total_kept walks))))
    (target (grant a (Z.min share (usize_saturating_sub (limit spec) (total_kept walks)))))
  = Some (w', a2, Ok r) ->
  later a a2 /\ sane a2 /\ (span a2 <= span a)%nat /\
  total_kept (<[i := a2]> walks) <= limit spec /\
  (limit spec <= total_kept (<[i := a2]> walks) \/ can_yield_more a2 = false \/ kept a + share <= kept a2).
Proof using P_read P_nil P_app Hmax Hlimit.
  intros Hsh Hsane Htot Hi Hop Hdef. set (g := Z.min share _). intros Er.
  assert (Hsa : sane a) by (rewrite Forall_forall in Hsane; apply Hsane; by eapply list_elem_of_lookup_2).
  pose proof Hsa as [S1 S2 S3 S4]. pose proof (open_kept a Hsa Hop) as Hk.
  pose proof (kept_le_total walks i a Hsane Hi) as Hkt.
  assert (Hg : 0 < g <= limit spec - total_kept walks /\ g <= share /\
               (g = share \/ g = limit spec - total_kept walks))
    by (unfold g, usize_saturating_sub; lia).
  assert (Ht : target (grant a g) = target a + g) by (cbn; unfold usize_saturating_add; lia).
  pose proof (run_until_spec fuel w id (grant a g) (target (grant a g)) S1 S2) as Hr.
  rewrite Er in Hr. destruct Hr as (R1 & R2 & R3 & R4 & R5). specialize (R5 eq_refl).
  assert (Hl : later a a2).
  { apply (later_trans _ (grant a g)); [|done]. split; try done; [lia|]. by exists []. }
  assert (Hsa2 : sane a2).
  { split; [done|by rewrite (la_start _ _ Hl)|lia|]. intros Hm. rewrite R3. destruct R5; [done|congruence]. }
  rewrite (total_kept_insert walks i a a2 Hi).
  assert (Hk2 : kept a2 <= target a2) by (unfold kept; lia).
  split_and!; [done|done|exact R4|lia|].
  destruct (can_yield_more a2) eqn:Ho; [|by right; left].
  pose proof (open_kept a2 Hsa2 Ho). destruct Hg as (_ & _ & [Hg|Hg]); [right; right; lia|left; lia].
Qed.

Lemma round_spec fuel share id : 1 <= share ->
  forall open w walks w' walks' r,
  Forall sane walks -> total_kept walks <= limit spec -> NoDup open ->
  (forall i, i ∈ open -> exists a, walks !! i = Some a /\ can_yield_more a = true) ->
  round net fuel w spec id share open walks = Some (w', walks', Ok r) ->
  Forall sane walks' /\ total_kept walks' <= limit spec /\ length walks' = length walks /\
  forall i a b, walks !! i = Some a -> walks' !! i = Some b -> served open share walks' i a b.
Proof using P_read P_nil P_app Hmax Hlimit.
  intros Hsh. induction open as [|j open IH]; intros w walks w' walks' r Hsane Htot Hnd Hop; cbn [round].
  { intros [= <- <- _]. split_and!; try done. intros i a b Ha Hb. rewrite Ha in Hb. injection Hb as <-.
    split_and!; [apply later_refl|done|]. intros Hin. by apply not_elem_of_nil in Hin. }
  apply NoDup_cons in Hnd as [Hj Hnd].
  destruct (Z.eqb_spec (usize_saturating_sub (limit spec) (total_kept walks)) 0) as [Hd|Hd].
  { intros [= <- <- _]. split_and!; try done. intros i a b Ha Hb. rewrite Ha in Hb. injection Hb as <-.
    split_and!; [apply later_refl|done|]. intros _. left. unfold usize_saturating_sub in Hd. lia. }
  destruct (Hop j) as (a & Ha & Hopen); [by left|]. rewrite Ha.
  destruct (run_until net fuel w spec id _ _) as [[[w1 a2] [u|e]]|] eqn:Er; cbn [mbind option_bind]; [|done|done].
  intros Hr.
  destruct (serve_one fuel w id share walks j a w1 a2 u) as (S1 & S2 & _ & S3 & S4); try done.
  { unfold usize_saturating_sub in Hd. lia. }
  assert (Hlen : (j < length walks)%nat) by by eapply lookup_lt_Some.
  destruct (IH w1 (<[j := a2]> walks) w' walks' r) as (I1 & I2 & I3 & I4); try done.
  { by apply Forall_insert. }
  { intros i Hi. destruct (Hop i) as (b & Hb & Hbo); [by right|]. exists b. split; [|done].
    rewrite list_lookup_insert_ne; [done|]. by intros ->. }
  split_and!; [done|done|by rewrite I3, length_insert|]. intros i b c Hb Hc.
  destruct (decide (i = j)) as [->|Hne].
  - rewrite Ha in Hb. injection Hb as <-.
    destruct (I4 j a2 c) as (L1 & L2 & _); [by apply list_lookup_insert_eq|done|].
    specialize (L2 Hj). subst c. split_and!; [done|intros Hn; by destruct Hn; left|]. intros _.
    destruct S4 as [S4|S4]; [left|by right].
    assert (Hle : total_kept (<[j:=a2]> walks) <= total_kept walks').
    { apply total_kept_le, Forall2_same_length_lookup. split; [done|].
      intros k x y Hx Hy. by destruct (I4 k x y Hx Hy). }
    lia.
  - destruct (I4 i b c) as (L1 & L2 & L3); [by rewrite list_lookup_insert_ne|done|].
    split_and!; [done| |].
    + intros [_ Hn]%not_elem_of_cons. by apply L2.
    + intros [?|Hin]%elem_of_cons; [done|by apply L3].
Qed.

Lemma round_returns fuel share id : 1 <= share ->
  forall open w walks,
  Forall sane walks -> total_kept walks <= limit spec -> NoDup open ->
  (forall i, i ∈ open -> exists a, walks !! i = Some a /\ can_yield_more a = true) ->
  Forall (fun a => (span a < fuel)%nat) walks ->
  exists w' walks' r, round net fuel w spec id share open walks = Some (w', walks', r) /\
    Forall (fun a => (span a < fuel)%nat) walks'.
Proof using P_read P_nil P_app Hmax Hlimit.
  intros Hsh. induction open as [|j open IH]; intros w walks Hsane Htot Hnd Hop Hf; cbn [round]; [by eauto|].
  apply NoDup_cons in Hnd as [Hj Hnd].
  destruct (Z.eqb_spec (usize_saturating_sub (limit spec) (total_kept walks)) 0) as [Hd|Hd]; [by eauto|].
  destruct (Hop j) as (a & Ha & Hopen); [by left|]. rewrite Ha.
  assert (Hin : a ∈ walks) by by eapply list_elem_of_lookup_2.
  set (g := grant a _).
  assert (Hg : sane a /\ (span a < fuel)%nat) by (split; [rewrite Forall_forall in Hsane|rewrite Forall_forall in Hf]; auto).
  destruct Hg as [[S1 S2 S3 S4] Hspan].
  destruct (run_until_returns fuel w id g (target g) S1 S2 Hspan) as [[[w1 a2] r] Er].
  rewrite Er. cbn [mbind option_bind].
  pose proof (run_until_spec fuel w id g (target g) S1 S2) as Hr. rewrite Er in Hr.
  destruct Hr as (_ & _ & _ & R4 & _).
  assert (Hf' : Forall (fun a => (span a < fuel)%nat) (<[j := a2]> walks)).
  { apply Forall_insert; [done|]. change (span g) with (span a) in R4. lia. }
  destruct r as [u|e]; [|by eauto].
  destruct (serve_one fuel w id share walks j a w1 a2 u) as (_ & T2 & _ & T3 & _); try done.
  { unfold usize_saturating_sub in Hd. lia. }
  apply IH; [by apply Forall_insert|done|done| |done].
  intros i Hi. destruct (Hop i) as (b & Hb & Hbo); [by right|]. exists b. split; [|done].
  rewrite list_lookup_insert_ne; [done|]. by intros ->.
Qed.

(** ** All rounds *)

Lemma open_walks_spec walks i :
  i ∈ open_walks walks <-> exists a, walks !! i = Some a /\ can_yield_more a = true.
Proof.
  unfold open_walks. rewrite list_elem_of_fmap. split.
  - intros ([j a] & -> & Hin). rewrite list_elem_of_In in Hin. apply List.filter_In in Hin as [Hin Ho].
    rewrite <- list_elem_of_In in Hin. apply elem_of_lookup_imap in Hin as (k & b & [= -> ->] & Hb).
    by exists b.
  - intros (a & Ha & Ho). exists (i, a). split; [done|]. rewrite list_elem_of_In. apply List.filter_In.
    split; [|done]. rewrite <- list_elem_of_In. apply elem_of_lookup_imap. by exists i, a.
Qed.

Lemma open_walks_nodup walks : NoDup (open_walks walks).
Proof.
  unfold open_walks.
  assert (Hn : NoDup (map fst (imap pair walks))).
  { apply NoDup_alt. intros i j x Hi Hj. rewrite list_lookup_fmap in Hi, Hj.
    rewrite list_lookup_imap in Hi, Hj.
    destruct (walks !! i), (walks !! j); cbn in Hi, Hj; congruence. }
  revert Hn. generalize (imap pair walks) as l. induction l as [|[k a] l IH]; [done|].
  cbn [map List.filter]. intros [Hk Hn]%NoDup_cons. cbn [snd].
  destruct (can_yield_more a); [|by apply IH]. cbn [map]. constructor; [|by apply IH].
  contradict Hk. apply list_elem_of_fmap in Hk as (x & -> & Hx). apply list_elem_of_fmap_2.
  rewrite list_elem_of_In in Hx |- *. by apply List.filter_In in Hx as [].
Qed.

Definition open_count (walks : list Walk) : nat := length (open_walks walks).

Lemma open_count_eq walks : open_count walks = length (List.filter can_yield_more walks).
Proof.
  unfold open_count, open_walks. rewrite length_map.
  induction walks as [|a walks IH] using rev_ind; [done|].
  rewrite imap_app, !List.filter_app, !length_app, IH. cbn. by destruct (can_yield_more a).
Qed.

Lemma div_ceil_covers a b : 0 < a -> 0 < b -> 1 <= div_ceil a b /\ a <= b * div_ceil a b.
Proof.
  intros Ha Hb. unfold div_ceil. pose proof (Z.div_mod (a + b - 1) b ltac:(lia)).
  pose proof (Z.mod_pos_bound (a + b - 1) b Hb). nia.
Qed.

(** A round that does not reach the limit closes a walk. *)
Lemma round_closes share walks walks' :
  (0 < open_count walks)%nat -> limit spec - total_kept walks <= Z.of_nat (open_count walks) * share ->
  Forall2 (fun a b => later a b /\ (can_yield_more a = false -> b = a) /\
     (can_yield_more a = true -> can_yield_more b = false \/ kept a + share <= kept b)) walks walks' ->
  total_kept walks' < limit spec -> (open_count walks' < open_count walks)%nat.
Proof using P_nil.
  rewrite !open_count_eq. intros Hpos Hshare Hall Hlt.
  enough (Hc : ((length (List.filter can_yield_more walks') <= length (List.filter can_yield_more walks))%nat /\
    ((length (List.filter can_yield_more walks') < length (List.filter can_yield_more walks))%nat \/
    total_kept walks + Z.of_nat (length (List.filter can_yield_more walks)) * share <= total_kept walks'))).
  { destruct Hc as [_ [Hc|Hc]]; [done|]. lia. }
  clear Hpos Hshare Hlt. induction Hall as [|a b walks walks' (Hl & Hs & Ho) Hall IH]; [cbn; lia|].
  destruct IH as [IH1 IH2]. unfold total_kept in *. cbn [List.filter sum_with foldr].
  pose proof (later_held a b Hl). pose proof (la_target _ _ Hl).
  assert (kept a <= kept b) by (unfold kept; lia).
  destruct (can_yield_more a) eqn:Ea; cbn [length].
  - destruct (Ho eq_refl) as [Hb|Hb]; [rewrite Hb; split; [lia|left; lia]|].
    destruct (can_yield_more b); cbn [length]; (split; [lia|]); [|left; lia].
    destruct IH2 as [IH2|IH2]; [left; lia|right]. unfold sum_with in *. lia.
  - rewrite (Hs eq_refl), Ea. split; [lia|].
    destruct IH2 as [IH2|IH2]; [left; lia|right]. unfold sum_with in *. lia.
Qed.

(** A round of [spread], when the limit is not reached and walks are open. *)
Lemma round_step fuel w id walks w' walks' r :
  Forall sane walks -> total_kept walks < limit spec -> open_walks walks <> [] ->
  let share := div_ceil (limit spec - total_kept walks) (Z.of_nat (length (open_walks walks))) in
  round net fuel w spec id share (open_walks walks) walks = Some (w', walks', Ok r) ->
  Forall sane walks' /\ total_kept walks' <= limit spec /\ Forall2 later walks walks' /\
  (total_kept walks' < limit spec -> (open_count walks' < open_count walks)%nat).
Proof using P_read P_nil P_app Hmax Hlimit.
  intros Hsane Hlt Hne share Er.
  assert (Hpos : (0 < open_count walks)%nat) by (unfold open_count; destruct (open_walks walks); cbn; [done|lia]).
  destruct (div_ceil_covers (limit spec - total_kept walks) (Z.of_nat (length (open_walks walks)))) as [D1 D2];
    [lia|unfold open_count in Hpos; lia|]. fold share in D1, D2.
  destruct (round_spec fuel share id D1 (open_walks walks) w walks w' walks' r) as (R1 & R2 & R3 & R4);
    [done|lia|apply open_walks_nodup|intros i; apply open_walks_spec|done|].
  split; [done|]. split; [done|]. split.
  - apply Forall2_same_length_lookup. split; [done|]. intros i a b Ha Hb. by destruct (R4 i a b Ha Hb).
  - intros Hlt'. refine (round_closes share walks walks' Hpos D2 _ Hlt').
    apply Forall2_same_length_lookup. split; [done|]. intros i a b Ha Hb.
    destruct (R4 i a b Ha Hb) as (L1 & L2 & L3). split_and!; [done| |].
    + intros Hc. apply L2. intros Hin. apply open_walks_spec in Hin as (a' & Ha' & Ho). congruence.
    + intros Ho. destruct L3 as [L3|L3]; [|lia|done]. apply open_walks_spec. by exists a.
Qed.

(** What [spread] leaves: the limit is met, or nothing can yield more. *)
Lemma spread_spec fuel rounds : forall w id walks w' walks' r,
  Forall sane walks -> total_kept walks <= limit spec ->
  spread net fuel rounds w spec id walks = Some (w', walks', Ok r) ->
  Forall2 later walks walks' /\ Forall sane walks' /\ total_kept walks' <= limit spec /\
  (total_kept walks' = limit spec \/ Forall (fun a => can_yield_more a = false) walks').
Proof using P_read P_nil P_app Hmax Hlimit.
  assert (Hrefl : forall l, Forall2 later l l).
  { intros l. apply Forall_Forall2_diag, Forall_forall. intros a _. apply later_refl. }
  induction rounds as [|rounds IH]; intros w id walks w' walks' r Hsane Htot; [done|]. cbn [spread].
  destruct (Z.leb_spec (limit spec) (total_kept walks)) as [Hle|Hlt].
  { intros [= <- <- _]. split_and!; try done. left. lia. }
  destruct (open_walks walks) as [|j open] eqn:Eo.
  { intros [= <- <- _]. split_and!; try done. right. apply Forall_forall. intros a Ha.
    apply not_true_iff_false. intros Ho. apply list_elem_of_lookup in Ha as [i Hi].
    assert (Hin : i ∈ open_walks walks) by (apply open_walks_spec; by exists a).
    rewrite Eo in Hin. by apply not_elem_of_nil in Hin. }
  rewrite <- Eo. destruct (round _ _ _ _ _ _ _ _) as [[[w1 walks1] [u|e]]|] eqn:Er;
    cbn [mbind option_bind]; [|done|done].
  destruct (round_step fuel w id walks w1 walks1 u) as (R1 & R2 & R3 & _); [done|done|by rewrite Eo|done|].
  intros Hs. destruct (IH _ _ _ _ _ _ R1 R2 Hs) as (I1 & I2 & I3 & I4). split_and!; try done.
  clear - R3 I1 P_app. revert walks' I1. induction R3 as [|a b l l' Hab Hl IH]; intros l2 I1;
    inversion I1; subst; constructor; [by eapply later_trans|by apply IH].
Qed.

Lemma spread_returns fuel rounds : forall w id walks,
  Forall sane walks -> total_kept walks <= limit spec ->
  Forall (fun a => (span a < fuel)%nat) walks -> (open_count walks < rounds)%nat ->
  is_Some (spread net fuel rounds w spec id walks).
Proof using P_read P_nil P_app Hmax Hlimit.
  induction rounds as [|rounds IH]; intros w id walks Hsane Htot Hf Hr; [lia|]. cbn [spread].
  destruct (Z.leb_spec (limit spec) (total_kept walks)) as [Hle|Hlt]; [by eexists|].
  destruct (open_walks walks) as [|j open] eqn:Eo; [by eexists|]. rewrite <- Eo.
  assert (Hne : open_walks walks <> []) by by rewrite Eo.
  set (share := div_ceil _ _).
  assert (D1 : 1 <= share).
  { apply (div_ceil_covers (limit spec - total_kept walks)); [lia|]. rewrite Eo. cbn. lia. }
  destruct (round_returns fuel share id D1 (open_walks walks) w walks) as (w1 & walks1 & r & Er & Hf1);
    [done|lia|apply open_walks_nodup|intros i; apply open_walks_spec|done|].
  rewrite Er. cbn [mbind option_bind]. destruct r as [u|e]; [|by eexists].
  destruct (round_step fuel w id walks w1 walks1 u) as (R1 & R2 & _ & R4); [done|done|done|done|].
  destruct (Z.lt_ge_cases (total_kept walks1) (limit spec)) as [Hlt1|Hge1].
  - apply IH; [done|done|done|]. specialize (R4 Hlt1). lia.
  - destruct rounds as [|rounds].
    + assert (0 < open_count walks)%nat by (unfold open_count; rewrite Eo; cbn; lia). lia.
    + cbn [spread]. rewrite (proj2 (Z.leb_le (limit spec) (total_kept walks1))) by lia. by eexists.
Qed.

End walks.

End TailFacts.
