(* ===== verification/BackwardLog.v ===== *)
(** Lemmas on the backward read: the walks that are planned, what windows give whatever
    the leaders answer, and what they give against leaders that serve a log. *)

From stdpp Require Import sorting.
From S2P Require Import Prelude Sanitize ErrorCodes Retry BatchDecode BatchDecodeFacts Fetch Coordinator Consumer Scan ScanFacts ScanYield Backward BackwardFacts.
From Stdlib Require Import Sorting.Sorted.

(** ** Planned walks *)

Module TailPlan.
Import ReadFetch Tail TailFacts.

(** Where the walk of a partition starts. *)
Definition anchored (spec : TailSpec) (log_start log_end bound : Z) : Prop :=
  log_start <= bound <= log_end /\
  match anchor spec with
  | LogEnd => bound = log_end
  | AtOffset offset => bound = clamp_bound (i64_saturating_add offset 1) log_start log_end
  | AtTimestamp _ => True
  end.

Record planned (spec : TailSpec) (s : Walk) : Prop := {
  pl_collected : collected s = [];
  pl_target : target s = 0;
  pl_trimmed : trimmed s = false;
  pl_start : 0 <= log_start s;
  pl_anchored : anchored spec (log_start s) (log_end s) (window_end s);
}.

Section plan.
Context `{KafkaProtocol, Batch.RecordCodec} {W : Type} (net : Scan.ReadNet W) (spec : TailSpec).

(** [ListOffsets] never gives a negative offset ([ListOffsets.read_list]). *)
Definition offsets_not_negative : Prop := forall w topic p leader time w' offset,
  Scan.list_one net w topic p leader time = (w', Ok (Some offset)) -> 0 <= offset.

Context (Hoff : offsets_not_negative).

Lemma bounds_ordered w topic p leader w' lo hi :
  Scan.bounds net w topic p leader = (w', Ok (lo, hi)) -> 0 <= lo <= hi.
Proof using Hoff.
  unfold Scan.bounds. destruct (Scan.list_one _ _ _ _ _ _) as [w1 [first|]] eqn:E1; [|done].
  destruct (Scan.list_one _ w1 _ _ _ _) as [w2 [last|]] eqn:E2; cbn; [|done].
  intros [= _ <- <-]. split; [|lia]. destruct first as [o|]; cbn; [by eapply Hoff|lia].
Qed.

Lemma clamp_bound_range b lo hi : lo <= hi -> lo <= clamp_bound b lo hi <= hi.
Proof. intros Hle. unfold clamp_bound, clamp. lia. Qed.

Lemma resolve_anchor_spec w topic p leader lo hi w' bound :
  lo <= hi -> resolve_anchor net w topic p leader (anchor spec) lo hi = (w', Ok bound) ->
  anchored spec lo hi bound.
Proof.
  intros Hle. unfold resolve_anchor, anchored. destruct (anchor spec).
  - intros [= _ <-]. lia.
  - intros [= _ <-]. split; [by apply clamp_bound_range|done].
  - destruct (Scan.list_one _ _ _ _ _ _) as [w1 [[found|]|]]; cbn; [|intros [= _ <-]; lia|done].
    intros [= _ <-]. split; [by apply clamp_bound_range|done].
Qed.

Lemma plan_walks_planned wanted : forall w w' walks,
  plan_walks net w spec wanted = (w', Ok walks) ->
  Forall (planned spec) walks /\ map partition walks = wanted.
Proof using Hoff.
  induction wanted as [|p wanted IH]; intros w w' walks; cbn [plan_walks]; [by intros [= _ <-]|].
  destruct (Scan.leader_for _ _ _ _) as [w1 [leader|]]; [|done].
  destruct (Scan.bounds _ _ _ _ _) as [w2 [[lo hi]|]] eqn:Eb; [|done].
  destruct (resolve_anchor _ _ _ _ _ _ _ _) as [w3 [bound|]] eqn:Ea; [|done].
  specialize (IH w3). destruct (plan_walks net w3 spec wanted) as [w4 [rest|]]; cbn; [|done].
  intros [= _ <-]. destruct (IH _ _ eq_refl) as [I1 <-]. split; [|done].
  pose proof (bounds_ordered _ _ _ _ _ _ _ Eb) as Hb. constructor; [|done].
  split; try done; [cbn; lia|]. eapply resolve_anchor_spec; [cbn; lia|done].
Qed.

(** The walks a read spreads its limit over. *)
Lemma start_walks_spec walks started :
  start_walks spec walks = Some started -> Forall (planned spec) walks ->
  1 <= max_step spec /\ map partition started = map partition walks /\
  Forall (planned spec) started /\ Forall sane started /\ total_kept started = 0.
Proof.
  unfold start_walks. destruct (Z.ltb_spec (max_step spec) 1); [done|]. intros [= <-] Hw.
  set (st := clamp _ _ _). assert (Hst : 1 <= st) by (unfold st, clamp; lia).
  split; [done|]. clearbody st. induction Hw as [|s walks [P1 P2 P3 P4 P5] Hw IH]; [by cbn|].
  destruct IH as (I1 & I2 & I3 & I4). cbn [map]. split_and!.
  - cbn. by rewrite I1.
  - constructor; [|done]. by split.
  - constructor; [|done]. split; cbn; [done|unfold I64_MIN; lia|lia|].
    intros _. unfold held. cbn. lia.
  - unfold total_kept in *. cbn [sum_with foldr]. unfold sum_with in I4. rewrite I4.
    unfold kept, held. cbn. rewrite P1, P2. done.
Qed.

(** The shape of a successful read. *)
Lemma tail_walks fuel w w' tails :
  tail net fuel w spec = Some (w', Returned (Ok tails)) ->
  tails = [] \/
  exists w1 wanted walks started w2 w3 id final u,
    plan_walks net w1 spec wanted = (w2, Ok walks) /\ start_walks spec walks = Some started /\
    spread net fuel fuel w2 spec id started = Some (w3, final, Ok u) /\
    tails = map (fun walk => finish (trim_to_target walk)) final.
Proof.
  unfold tail. destruct (Scan.refresh_topic _ _ _) as [w1 [[info|]|]]; [|done|done].
  destruct (default _ _) as [|p wanted]; [intros [= _ <-]; by left|].
  destruct (plan_walks _ _ _ _) as [w2 [walks|]] eqn:Ep; [|done].
  destruct (start_walks spec walks) as [started|] eqn:Es; [|done].
  destruct (spread _ _ _ _ _ _ _) as [[[w3 final] [u|]]|] eqn:Esp; cbn; [|done|done].
  intros [= _ <-]. right. by exists w1, (p :: wanted), walks, started, w2, w3, (Scan.ti_id info), final, u.
Qed.

End plan.

(** ** Trimming *)

Definition tail_length (t : PartitionTail) : Z := Z.of_nat (length (t_records t)).

Definition trimmed_tail (s : Walk) : PartitionTail := finish (trim_to_target s).

Lemma trimmed_length s : 0 <= target s -> tail_length (trimmed_tail s) = kept s.
Proof.
  intros Ht. unfold tail_length, trimmed_tail, kept, held. cbn.
  rewrite length_drop. unfold held. lia.
Qed.

Lemma trimmed_total l : Forall sane l -> sum_with tail_length (map trimmed_tail l) = total_kept l.
Proof.
  induction 1 as [|s l [_ _ Ht _] Hl IH]; [done|]. unfold total_kept, sum_with in *. cbn.
  by rewrite IH, trimmed_length.
Qed.

Lemma closed_tail s :
  can_yield_more s = false -> trimmed s = false ->
  t_records (trimmed_tail s) = collected s /\ reached_log_start (trimmed_tail s) = true.
Proof.
  intros [Hm Ht]%orb_false_iff Htr. cbn. rewrite Htr, Ht. apply Z.ltb_ge in Ht.
  replace (Z.to_nat (held s - target s)) with 0%nat by lia. split; [done|].
  change (has_more (trim_to_target s)) with (has_more s). by rewrite Hm.
Qed.

Lemma reached_tail s :
  reached_log_start (trimmed_tail s) = true ->
  has_more s = false /\ t_records (trimmed_tail s) = collected s.
Proof.
  cbn. change (has_more (trim_to_target s)) with (has_more s).
  intros [Hm%negb_true_iff Ht%negb_true_iff]%andb_true_iff. apply orb_false_iff in Ht as [_ Ht].
  apply Z.ltb_ge in Ht. by replace (Z.to_nat (held s - target s)) with 0%nat by lia.
Qed.

Lemma records_suffix s : t_records (trimmed_tail s) `suffix_of` collected s.
Proof. cbn. eexists. symmetry. apply take_drop. Qed.

End TailPlan.

(** ** Windows *)

Module TailWindow.
Import ReadFetch Tail TailFacts TailPlan.

Section windows.
Context `{KafkaProtocol, Batch.RecordCodec} {W : Type} (net : Scan.ReadNet W) (spec : TailSpec).

(** The records of a window. *)
Definition in_window (lo hi : Z) (r : Batch.DRecord) : bool :=
  (lo <=? Batch.r_offset r) && (Batch.r_offset r <? hi) && Scan.passes (record_filter spec) r.

Definition decoded_of (outcomes : list Batch.RecordOutcome) : list Batch.DRecord :=
  flat_map (fun o => match o with Batch.Decoded r => [r] | Batch.Malformed _ _ _ _ => [] end) outcomes.

Lemma window_outcomes lo hi outcomes : forall last l bad,
  let '(last', l', bad') := foldl (take_outcome spec lo hi) (last, l, bad) outcomes in
  l' = l ++ List.filter (in_window lo hi) (decoded_of outcomes) /\
  match outcomes with
  | [] => last' = last
  | o :: _ => last' = Scan.last_offset_of (List.last outcomes o)
  end.
Proof.
  induction outcomes as [|o outcomes IH]; intros last l bad; [by rewrite app_nil_r|].
  cbn [foldl]. unfold take_outcome at 2.
  assert (Hlast : forall x, match outcomes with
    | [] => x = Scan.last_offset_of o
    | o' :: _ => x = Scan.last_offset_of (List.last outcomes o')
    end -> x = Scan.last_offset_of (List.last (o :: outcomes) o)).
  { intros x. destruct outcomes as [|o' outcomes]; [done|]. intros ->. cbn [List.last].
    clear. revert o'. induction outcomes as [|o2 l IH]; intros o'; [done|]. cbn [List.last] in *.
    destruct l; [done|]. apply IH. }
  destruct o as [r|? ? ? ?].
  - specialize (IH (Scan.last_offset_of (Batch.Decoded r))
                  (if in_window lo hi r then l ++ [r] else l) bad).
    unfold in_window at 1 in IH. destruct (foldl _ _ _) as [[last' l'] bad'].
    destruct IH as [-> I2]. split; [|by apply Hlast].
    cbn [decoded_of flat_map app List.filter]. destruct (in_window lo hi r); [by rewrite <- app_assoc|done].
  - match goal with |- context [foldl _ (?a, ?b, ?c) _] => specialize (IH a b c) end.
    destruct (foldl _ _ _) as [[last' l'] bad']. destruct IH as [-> I2]. by split; [|apply Hlast].
Qed.

(** ** Whatever the leaders answer *)

Definition below (p lo hi : Z) (l : list Batch.DRecord) : Prop :=
  Forall (fun r => lo <= Batch.r_offset r < hi /\ Scan.passes (record_filter spec) r = true /\
                   Batch.r_topic r = topic spec /\ Batch.r_partition r = p) l.

Lemma decode_below p data r :
  Batch.Decoded r ∈ Batch.outcomes (decode spec p data) ->
  Batch.r_topic r = topic spec /\ Batch.r_partition r = p.
Proof.
  unfold decode, Batch.decode_records_with_aborted.
  destruct (Batch.decode_partition _ _ _ _ _) as [out|] eqn:E; [|by intros ?%not_elem_of_nil].
  intros Hr. cbn in Hr.
  pose proof (DecodedFacts.decode_partition_records (topic spec) p _
    (fun r => Batch.r_topic r = topic spec /\ Batch.r_partition r = p)
    (fun _ _ _ _ _ _ => conj eq_refl eq_refl) _ _ _ E) as Ha.
  unfold DecodedFacts.all_records in Ha. rewrite Forall_forall in Ha. exact (Ha _ Hr).
Qed.

Lemma read_below fuel : forall w p leader id lo hi offset l bad reads w' l' bad' reads',
  below p lo hi l ->
  read_window_from net fuel w spec p leader id lo hi offset l bad reads = Some (w', Ok (l', bad', reads')) ->
  below p lo hi l'.
Proof.
  induction fuel as [|fuel IH]; intros w p leader id lo hi offset l bad reads w' l' bad' reads' Hl; [done|].
  cbn [read_window_from]. destruct (hi <=? offset); [by intros [= _ <- _ _]|].
  destruct (fetch _ _ _ _ _ _ _ _) as [w1 [fetched|]]; [|done].
  destruct (List.find _ fetched) as [data|]; [|by intros [= _ <- _ _]].
  pose proof (decode_below p data) as Hd.
  destruct (Batch.outcomes (decode spec p data)) as [|o os]; [by intros [= _ <- _ _]|].
  pose proof (window_outcomes lo hi (o :: os) offset l bad) as Ht.
  destruct (foldl _ _ _) as [[last l1] bad1]. destruct Ht as [-> _].
  assert (Hl1 : below p lo hi (l ++ List.filter (in_window lo hi) (decoded_of (o :: os)))).
  { apply Forall_app. split; [done|]. apply Forall_forall. intros r Hr.
    rewrite list_elem_of_In in Hr. apply List.filter_In in Hr as [Hr Hw].
    apply andb_true_iff in Hw as [[H1%Z.leb_le H2%Z.ltb_lt]%andb_true_iff H3].
    apply in_flat_map in Hr as ([r'|] & Hr & Hin); [|done]. destruct Hin as [->|[]].
    rewrite <- list_elem_of_In in Hr. destruct (Hd r Hr) as [-> ->]. done. }
  destruct (_ <=? offset); [by intros [= _ <- _ _]|]. by apply IH.
Qed.

Lemma below_app p lo mid hi l1 l2 :
  lo <= mid <= hi -> below p lo mid l1 -> below p mid hi l2 -> below p lo hi (l1 ++ l2).
Proof.
  intros Hm H1 H2. apply Forall_app. split; (eapply Forall_impl; [eassumption|]);
    cbn; intros r (? & ? & ?); split; try done; lia.
Qed.

End windows.

End TailWindow.

(** ** Leaders that serve a log *)

Module TailLog.
Import ReadFetch Tail TailFacts TailPlan TailWindow.

Definition earlier (r1 r2 : Batch.DRecord) : Prop := Batch.r_offset r1 < Batch.r_offset r2.

(** The last offset of a batch. *)
Definition last_of (b : list Batch.DRecord) : Z :=
  match b with [] => 0 | r :: _ => Batch.r_offset (List.last b r) end.

(** The batches a fetch from an offset starts with. *)
Definition rest_of (batches : list (list Batch.DRecord)) (offset : Z) : list (list Batch.DRecord) :=
  List.filter (fun b => offset <=? last_of b) batches.

Lemma last_of_snoc b r : last_of (b ++ [r]) = Batch.r_offset r.
Proof.
  unfold last_of. destruct (b ++ [r]) as [|x l] eqn:E; [by destruct b|]. rewrite <- E.
  by rewrite List.last_last.
Qed.

Lemma last_greatest b r : StronglySorted earlier b -> r ∈ b -> Batch.r_offset r <= last_of b.
Proof.
  intros Hs Hr. destruct b as [|x b _] using rev_ind; [by apply not_elem_of_nil in Hr|].
  rewrite last_of_snoc. apply elem_of_app in Hr as [Hr|Hr%list_elem_of_singleton]; [|by subst].
  apply Z.lt_le_incl, (StronglySorted_app_1_elem_of _ _ _ _ _ Hs Hr). by left.
Qed.

Lemma last_elem b : b <> [] -> exists r, r ∈ b /\ last_of b = Batch.r_offset r.
Proof.
  intros Hb. destruct b as [|x b _] using rev_ind; [done|]. exists x.
  rewrite last_of_snoc. split; [apply elem_of_app; right; by left|done].
Qed.

Lemma in_concat {A} (x : A) l ls : x ∈ l -> l ∈ ls -> x ∈ concat ls.
Proof.
  intros Hx Hl. rewrite list_elem_of_In, List.in_concat. exists l. by rewrite <- !list_elem_of_In.
Qed.

Lemma concat_filter_sorted f (batches : list (list Batch.DRecord)) :
  StronglySorted earlier (concat batches) -> StronglySorted earlier (concat (List.filter f batches)).
Proof.
  induction batches as [|b batches IH]; [done|]. cbn [concat List.filter].
  intros (H1 & H2 & H3)%StronglySorted_app. destruct (f b); [|by apply IH].
  cbn [concat]. apply StronglySorted_app. split_and!; [|done|by apply IH].
  intros x y Hx Hy. apply H1; [done|]. rewrite list_elem_of_In in Hy.
  apply List.in_concat in Hy as (l & Hl & Hy). apply List.filter_In in Hl as [Hl _].
  eapply in_concat; by rewrite list_elem_of_In.
Qed.

(** A batch's place among the others: everything after it is past its last offset. *)
Lemma rest_next b1 b b2 :
  StronglySorted earlier (concat (b1 ++ b :: b2)) -> Forall (fun b => b <> []) (b1 ++ b :: b2) ->
  rest_of (b1 ++ b :: b2) (last_of b + 1) = b2 /\
  Forall (fun r => last_of b + 1 <= Batch.r_offset r) (concat b2).
Proof.
  rewrite concat_app, Forall_app. cbn [concat].
  intros (H1 & _ & (H2 & H3 & H4)%StronglySorted_app)%StronglySorted_app [N1 [Nb N2]%Forall_cons].
  destruct (last_elem b Nb) as (rb & Hrb & Eb).
  assert (Hafter : forall r, r ∈ concat b2 -> last_of b + 1 <= Batch.r_offset r).
  { intros r Hr. specialize (H2 rb r Hrb Hr). unfold earlier in H2. lia. }
  split; [|by apply Forall_forall]. unfold rest_of. rewrite List.filter_app. cbn [List.filter].
  rewrite (proj2 (Z.leb_gt _ (last_of b))) by lia.
  assert (E1 : List.filter (fun b0 => last_of b + 1 <=? last_of b0) b1 = []).
  { induction b1 as [|x b1 IH]; [done|]. apply Forall_cons in N1 as [Nx N1].
    cbn [concat] in H1. cbn [List.filter]. destruct (last_elem x Nx) as (rx & Hrx & Ex).
    assert (Batch.r_offset rx < Batch.r_offset rb).
    { apply (H1 rx rb); apply elem_of_app; by left. }
    rewrite (proj2 (Z.leb_gt _ _)) by lia. apply IH; [|done].
    intros y z Hy Hz. apply H1; [|done]. apply elem_of_app. by right. }
  rewrite E1. cbn [app]. clear E1 H1 H3.
  induction b2 as [|x b2 IH]; [done|]. apply Forall_cons in N2 as [Nx N2]. cbn [List.filter concat] in *.
  destruct (last_elem x Nx) as (rx & Hrx & Ex).
  rewrite (proj2 (Z.leb_le _ _)).
  - f_equal. apply IH; [| |done|].
    + intros y z Hy Hz. apply H2; [done|]. apply elem_of_app. by right.
    + by apply StronglySorted_app in H4 as (_ & _ & ?).
    + intros r Hr. apply Hafter, elem_of_app. by right.
  - rewrite Ex. apply Hafter, elem_of_app. by left.
Qed.

Lemma rest_rest batches o n : o <= n -> rest_of (rest_of batches o) n = rest_of batches n.
Proof.
  intros Ho. unfold rest_of. induction batches as [|b batches IH]; [done|]. cbn [List.filter].
  destruct (Z.leb_spec o (last_of b)); cbn [List.filter]; rewrite IH; [done|].
  by rewrite (proj2 (Z.leb_gt n (last_of b))) by lia.
Qed.

Section log.
Context `{KafkaProtocol, Batch.RecordCodec} {W : Type} (net : Scan.ReadNet W) (spec : TailSpec).
Context (log : Z -> list (list Batch.DRecord)).

(** Leaders that serve the batches of a log, none without its last record: a fetch gives
    at least one batch, from the one that holds the offset on. *)
Record serves_log : Prop := {
  sl_sorted : forall p, StronglySorted earlier (concat (log p));
  sl_batches : forall p, Forall (fun b => b <> []) (log p);
  sl_range : forall p r, r ∈ concat (log p) -> I64_MIN <= Batch.r_offset r < I64_MAX;
  sl_answers : forall p leader w id offset w' l,
    fetch (Scan.node net leader) w (topic spec) id [window_target spec p offset] 0
      (fetch_max_bytes spec) (visibility spec) = (w', Ok l) ->
    exists data k, List.find (fun f => f_partition f =? p) l = Some data /\ (0 < k)%nat /\
      Batch.outcomes (decode spec p data)
      = map Batch.Decoded (concat (take k (rest_of (log p) offset)));
}.

(** The records of a window of the log. *)
Definition matching (p lo hi : Z) : list Batch.DRecord :=
  List.filter (in_window spec lo hi) (concat (log p)).

Lemma take_none {A} k (l : list A) : (0 < k)%nat -> take k l = [] -> l = [].
Proof. destruct k, l; try done. lia. Qed.

Lemma decoded_of_map l : decoded_of (map Batch.Decoded l) = l.
Proof. induction l as [|r l IH]; [done|]. cbn. by rewrite <- IH at 2. Qed.

Lemma filter_none {A} (f : A -> bool) l : Forall (fun x => f x = false) l -> List.filter f l = [].
Proof. induction 1 as [|x l Hx Hl IH]; [done|]. cbn. by rewrite Hx. Qed.

Lemma out_of_window lo hi r : Batch.r_offset r < lo \/ hi <= Batch.r_offset r -> in_window spec lo hi r = false.
Proof.
  unfold in_window. intros [Hr|Hr]; [by rewrite (proj2 (Z.leb_gt lo _))|].
  rewrite (proj2 (Z.ltb_ge _ hi)) by done. by rewrite andb_false_r.
Qed.

(** From an offset on, a window gives the records of the batches from there. *)
Lemma read_from_log (Hlog : serves_log) fuel : forall w p leader id lo hi offset l bad reads w' l' bad' reads',
  (offset = lo \/ Forall (fun r => offset <= Batch.r_offset r) (concat (rest_of (log p) offset))) ->
  read_window_from net fuel w spec p leader id lo hi offset l bad reads = Some (w', Ok (l', bad', reads')) ->
  l' = l ++ List.filter (in_window spec lo hi) (concat (rest_of (log p) offset)).
Proof.
  destruct Hlog as [L1 L2 L3 L4].
  induction fuel as [|fuel IH]; intros w p leader id lo hi offset l bad reads w' l' bad' reads' Ho; [done|].
  cbn [read_window_from]. destruct (Z.leb_spec hi offset) as [Hhi|Hhi].
  { intros [= _ <- _ _]. rewrite filter_none; [by rewrite app_nil_r|]. apply Forall_forall.
    intros r Hr. apply out_of_window. destruct Ho as [->|Ho]; [lia|].
    rewrite Forall_forall in Ho. specialize (Ho r Hr). lia. }
  destruct (fetch _ _ _ _ _ _ _ _) as [w1 [fetched|]] eqn:Ef; [|done].
  destruct (L4 _ _ _ _ _ _ _ Ef) as (data & k & -> & Hk & ->).
  set (bs := rest_of (log p) offset) in *.
  assert (Hbs : StronglySorted earlier (concat bs)) by (by apply concat_filter_sorted).
  assert (Hne : Forall (fun b => b <> []) bs).
  { specialize (L2 p). rewrite Forall_forall in L2 |- *. intros b Hb. apply L2.
    unfold bs, rest_of in Hb. rewrite list_elem_of_In in Hb |- *. by apply List.filter_In in Hb as []. }
  assert (Hsub : forall b, b ∈ bs -> b ∈ log p /\ offset <= last_of b).
  { intros b Hb. unfold bs, rest_of in Hb. rewrite list_elem_of_In in Hb |- *.
    apply List.filter_In in Hb as [? ?%Z.leb_le]. done. }
  pose proof (take_drop k bs) as Hsplit. destruct (take k bs) as [|b b1 _] eqn:Ek using rev_ind.
  { assert (Hnil : bs = []) by (by eapply take_none). rewrite Hnil. cbn.
    intros [= _ <- _ _]. by rewrite app_nil_r. }
  rewrite <- app_assoc in Hsplit. cbn [app] in Hsplit. rewrite <- Hsplit in Hbs, Hne.
  destruct (rest_next _ _ _ Hbs Hne) as [R1 R2].
  destruct (Hsub b) as [Hb Hbo]; [rewrite <- Hsplit; apply elem_of_app; right; by left|].
  assert (Hbne : b <> []).
  { rewrite Forall_app, Forall_cons in Hne. by destruct Hne as [_ [? _]]. }
  destruct b as [|x b0 _] using rev_ind; [done|]. rewrite last_of_snoc in *.
  pose proof (window_outcomes spec lo hi (map Batch.Decoded (concat (b1 ++ [b0 ++ [x]]))) offset l bad) as Ht.
  rewrite decoded_of_map in Ht.
  assert (Eo : concat (b1 ++ [b0 ++ [x]]) = (concat b1 ++ b0) ++ [x]).
  { rewrite concat_app. cbn. by rewrite app_nil_r, app_assoc. }
  rewrite Eo in *. rewrite map_app in *. cbn [map] in *.
  destruct (map Batch.Decoded (concat b1 ++ b0) ++ [Batch.Decoded x]) as [|o os] eqn:Eos; [by destruct (map _ _)|].
  assert (El : List.last (o :: os) o = Batch.Decoded x) by (rewrite <- Eos; apply List.last_last).
  rewrite El in Ht.
  destruct (foldl _ _ (o :: os)) as [[last l1] bad1]. destruct Ht as [-> ->]. cbn [Scan.last_offset_of].
  assert (Hx : I64_MIN <= Batch.r_offset x < I64_MAX).
  { apply (L3 p). eapply in_concat; [|exact Hb]. apply elem_of_app. right. by left. }
  assert (En : i64_saturating_add (Batch.r_offset x) 1 = Batch.r_offset x + 1).
  { apply clamp_small. unfold I64_MIN, I64_MAX in *. lia. }
  rewrite En, (proj2 (Z.leb_gt _ offset)) by lia. intros Hr.
  assert (Erest : rest_of (log p) (Batch.r_offset x + 1) = drop k bs).
  { rewrite <- (rest_rest (log p) offset) by lia. fold bs. by rewrite <- Hsplit at 1. }
  apply IH in Hr; [|right; by rewrite Erest]. rewrite Hr, Erest, <- app_assoc. f_equal.
  rewrite <- List.filter_app. f_equal. rewrite <- Hsplit at 2.
  rewrite concat_app. cbn [concat]. by rewrite !app_assoc.
Qed.

(** A window read against the log gives the window of the log. *)
Lemma read_window_log (Hlog : serves_log) fuel w p leader id lo hi w' l bad reads :
  read_window net fuel w spec p leader id lo hi = Some (w', Ok (l, bad, reads)) ->
  l = matching p lo hi.
Proof.
  intros Hr. apply (read_from_log Hlog) in Hr; [|by left]. rewrite Hr. clear Hr. cbn [app]. unfold matching.
  destruct Hlog as [L1 _ _ _]. specialize (L1 p). unfold rest_of.
  induction (log p) as [|b batches IH]; [done|]. cbn [List.filter concat] in *.
  apply StronglySorted_app in L1 as (L1 & L2 & L3). rewrite List.filter_app.
  destruct (Z.leb_spec lo (last_of b)) as [Hb|Hb]; cbn [concat]; rewrite ?List.filter_app, IH by done; [done|].
  rewrite (filter_none _ b); [done|]. apply Forall_forall. intros r Hin. apply out_of_window. left.
  pose proof (last_greatest b r L2 Hin). lia.
Qed.

Lemma matching_nil p x : matching p x x = [].
Proof.
  apply filter_none, Forall_forall. intros r _. apply out_of_window. lia.
Qed.

Lemma matching_app (Hlog : serves_log) p lo mid hi :
  lo <= mid <= hi -> matching p lo mid ++ matching p mid hi = matching p lo hi.
Proof.
  intros Hm. destruct Hlog as [L1 _ _ _]. specialize (L1 p). unfold matching.
  induction L1 as [|r l Hl IH Hr]; [done|]. cbn [List.filter].
  destruct (Z.lt_ge_cases (Batch.r_offset r) mid) as [Hlt|Hge].
  - rewrite (out_of_window mid hi r) by lia.
    assert (E : in_window spec lo mid r = in_window spec lo hi r).
    { unfold in_window. by rewrite (proj2 (Z.ltb_lt _ mid)), (proj2 (Z.ltb_lt _ hi)) by lia. }
    rewrite E. destruct (in_window spec lo hi r); [cbn; by rewrite IH|done].
  - rewrite (out_of_window lo mid r) by lia.
    assert (E : in_window spec mid hi r = in_window spec lo hi r).
    { unfold in_window. by rewrite (proj2 (Z.leb_le mid _)), (proj2 (Z.leb_le lo _)) by lia. }
    assert (En : List.filter (in_window spec lo mid) l = []).
    { apply filter_none. eapply Forall_impl; [exact Hr|]. intros r' Hr'. apply out_of_window.
      unfold earlier in Hr'. lia. }
    rewrite E. rewrite En in IH |- *. cbn [app] in *.
    by destruct (in_window spec lo hi r); [f_equal|].
Qed.

End log.

End TailLog.
