(* ===== verification/BackwardProperties.v ===== *)
(** What a backward read promises: it returns, it gives at most the limit and only
    records below the anchor, and against leaders that serve a log it gives the newest
    ones. *)

From stdpp Require Import sorting.
From S2P Require Import Prelude Sanitize ErrorCodes Retry BatchDecode BatchDecodeFacts Fetch Coordinator Consumer Scan ScanFacts ScanYield ScanProperties Backward BackwardFacts BackwardLog.
From Stdlib Require Import Sorting.Sorted.

Module TailProperties.
Import ReadFetch Tail TailFacts TailPlan TailWindow TailLog.

Section shape.
Context `{KafkaProtocol, Batch.RecordCodec} {W : Type} (net : Scan.ReadNet W) (spec : TailSpec).
Context (P : Z -> Z -> Z -> list Batch.DRecord -> Prop).
Context (P_read : forall fuel w p leader id lo hi w' l bad reads,
  read_window net fuel w spec p leader id lo hi = Some (w', Ok (l, bad, reads)) -> P p lo hi l).
Context (P_nil : forall p x, P p x x []).
Context (P_app : forall p lo mid hi l1 l2,
  lo <= mid <= hi -> P p lo mid l1 -> P p mid hi l2 -> P p lo hi (l1 ++ l2)).

(** A walk that gathered its window and may be trimmed. *)
Definition gathered (s : Walk) (bound : Z) : Prop :=
  anchored spec (log_start s) (log_end s) bound /\ log_start s <= window_end s <= bound /\
  trimmed s = false /\ sane s /\ P (partition s) (window_end s) bound (collected s).

(** The walks a successful read ends with. *)
Lemma tail_shape fuel w w' tails :
  0 <= limit spec <= USIZE_MAX -> offsets_not_negative net ->
  tail net fuel w spec = Some (w', Returned (Ok tails)) ->
  exists final bounds, tails = map trimmed_tail final /\ Forall2 gathered final bounds /\
    sum_with tail_length tails = total_kept final /\ total_kept final <= limit spec /\
    (total_kept final = limit spec \/ Forall (fun a => can_yield_more a = false) final).
Proof using P_read P_nil P_app.
  intros Hlim Hoff Ht.
  destruct (tail_walks net spec fuel w w' tails Ht) as [->|(w1 & wanted & walks & started & w2 & w3 & id & final & u & E1 & E2 & E3 & ->)].
  { exists [], []. split_and!; try done; [cbn; lia|by right]. }
  destruct (plan_walks_planned net spec Hoff wanted _ _ _ E1) as [Hp _].
  destruct (start_walks_spec spec walks started E2 Hp) as (Hm & _ & Hps & Hss & Hk).
  destruct (spread_spec net spec P P_read P_nil P_app Hm (proj2 Hlim) fuel fuel w2 id started w3 final u)
    as (S1 & S2 & S3 & S4); [done|lia|done|].
  exists final, (map window_end started). split; [done|]. split.
  - clear - S1 S2 Hps. induction S1 as [|s f started final Hl Hls IH]; [constructor|].
    apply Forall_cons in S2 as [Hf S2]. apply Forall_cons in Hps as [[P1 P2 P3 P4 P5] Hps].
    cbn [map]. constructor; [|by apply IH].
    destruct Hl as [L1 L2 L0 L3 L4 L5 L6 (n & L7 & L8)]. pose proof P5 as [P6 _].
    unfold gathered. rewrite L0, L1, L2, L3. split_and!; try done; [apply L5; lia|].
    by rewrite L7, P1, app_nil_r.
  - split_and!; [by apply trimmed_total|done|done].
Qed.

End shape.

(** Whatever the leaders answer, a backward read returns: each loop ends within the
    offsets its windows span, and a round that does not meet the limit retires a walk. *)
Theorem tail_returns `{KafkaProtocol, Batch.RecordCodec} {W} (net : Scan.ReadNet W) spec w :
  0 <= limit spec <= USIZE_MAX -> offsets_not_negative net ->
  exists fuel0, forall fuel, (fuel0 <= fuel)%nat -> is_Some (tail net fuel w spec).
Proof.
  intros Hlim Hoff. unfold tail. destruct (Scan.refresh_topic _ _ _) as [w1 [[info|]|]];
    [|exists 0%nat; by eexists|exists 0%nat; by eexists].
  destruct (default _ _) as [|p wanted]; [exists 0%nat; by eexists|].
  destruct (plan_walks net w1 spec (p :: wanted)) as [w2 [walks|]] eqn:Ep; [|exists 0%nat; by eexists].
  destruct (plan_walks_planned net spec Hoff _ _ _ _ Ep) as [Hp _].
  destruct (start_walks spec walks) as [started|] eqn:Es; [|exists 0%nat; by eexists].
  destruct (start_walks_spec spec walks started Es Hp) as (Hm & _ & Hps & Hss & Hk).
  exists (S (sum_list_with span started + length started)). intros fuel Hf.
  assert (Hspan : Forall (fun a => (span a < fuel)%nat) started).
  { apply Forall_forall. intros a Ha.
    assert (span a <= sum_list_with span started)%nat; [|lia].
    clear - Ha. induction started as [|b l IH]; [by apply not_elem_of_nil in Ha|].
    cbn. apply elem_of_cons in Ha as [->|Ha]; [lia|]. specialize (IH Ha). lia. }
  assert (Hopen : (open_count started < fuel)%nat).
  { rewrite open_count_eq. pose proof (List.filter_length_le can_yield_more started). lia. }
  destruct (spread_returns net spec (fun _ _ _ _ => True) (fun _ _ _ _ _ _ _ _ _ _ _ _ => I)
              (fun _ _ => I) (fun _ _ _ _ _ _ _ _ _ => I) Hm (proj2 Hlim) fuel fuel w2
              (Scan.ti_id info) started Hss) as [[[w3 final] r] E]; [lia|done|done|].
  rewrite E. cbn. by eexists.
Qed.

(** Whatever the leaders answer, a backward read gives at most its limit, and only
    records of the topic that pass the filter, below the anchor and not below the log
    start; and when it gives fewer, every walk reached its log start. *)
Theorem tail_is_bounded `{KafkaProtocol, Batch.RecordCodec} {W} (net : Scan.ReadNet W) spec fuel w w' tails :
  0 <= limit spec <= USIZE_MAX -> offsets_not_negative net ->
  tail net fuel w spec = Some (w', Returned (Ok tails)) ->
  sum_with tail_length tails <= limit spec /\
  (sum_with tail_length tails < limit spec -> Forall (fun t => reached_log_start t = true) tails) /\
  Forall (fun t => exists bound, anchored spec (t_log_start t) (t_log_end t) bound /\
            below spec (t_partition t) (t_log_start t) bound (t_records t)) tails.
Proof.
  intros Hlim Hoff Ht.
  destruct (tail_shape net spec (below spec)
    (fun fuel w p leader id lo hi w' l bad reads =>
       read_below net spec fuel w p leader id lo hi lo [] 0 0 w' l bad reads (Forall_nil_2 _))
    (fun _ _ => Forall_nil_2 _) (below_app spec) fuel w w' tails Hlim Hoff Ht)
    as (final & bounds & -> & Hg & Hsum & Hle & Hend).
  rewrite Hsum. split_and!; [done| |].
  - intros Hlt. destruct Hend as [Hend|Hend]; [lia|]. clear - Hg Hend.
    induction Hg as [|s b final bounds (_ & _ & Htr & _) Hg IH]; [constructor|].
    apply Forall_cons in Hend as [Hc Hend]. constructor; [|by apply IH]. by apply closed_tail.
  - clear - Hg. induction Hg as [|s b final bounds (Ha & Hr & _ & _ & Hb) Hg IH]; [constructor|].
    constructor; [|exact IH]. exists b. split; [exact Ha|].
    unfold below in *. eapply Forall_impl; [apply (Forall_drop _ (Z.to_nat (held s - target s)) _ Hb)|].
    cbn. intros r (? & ? & ? & ?). split_and!; try done; lia.
Qed.

(** What a tail should hold. *)
Definition newest (spec : TailSpec) (log : Z -> list (list Batch.DRecord)) (t : PartitionTail)
    (bound : Z) : Prop :=
  anchored spec (t_log_start t) (t_log_end t) bound /\
  t_records t `suffix_of` matching spec log (t_partition t) (t_log_start t) bound /\
  (reached_log_start t = true ->
   t_records t = matching spec log (t_partition t) (t_log_start t) bound).

(** C28: Against leaders that serve a log whose batches keep their last record, the tail of
    each partition is the newest end of what matches below the anchor, all of it when it
    reports the log start, and the tails together hold the limit or all there is. *)
Theorem tail_returns_the_newest `{KafkaProtocol, Batch.RecordCodec} {W} (net : Scan.ReadNet W) spec
    log fuel w w' tails :
  0 <= limit spec <= USIZE_MAX -> offsets_not_negative net -> serves_log net spec log ->
  tail net fuel w spec = Some (w', Returned (Ok tails)) ->
  exists bounds, Forall2 (newest spec log) tails bounds /\
    sum_with tail_length tails
    = Z.min (limit spec)
        (sum_with (fun '(t, bound) =>
           Z.of_nat (length (matching spec log (t_partition t) (t_log_start t) bound)))
           (zip tails bounds)).
Proof.
  intros Hlim Hoff Hlog Ht.
  destruct (tail_shape net spec (fun p lo hi l => l = matching spec log p lo hi)
    (fun fuel w p leader id lo hi w' l bad reads => read_window_log net spec log Hlog fuel w p leader id lo hi w' l bad reads)
    (fun p x => eq_sym (matching_nil spec log p x))
    (fun p lo mid hi l1 l2 Hm E1 E2 =>
       eq_trans (f_equal2 app E1 E2) (matching_app net spec log Hlog p lo mid hi Hm))
    fuel w w' tails Hlim Hoff Ht)
    as (final & bounds & -> & Hg & Hsum & Hle & Hend).
  exists bounds.
  assert (Hnew : Forall2 (newest spec log) (map trimmed_tail final) bounds).
  { clear - Hg Hlog. induction Hg as [|s b final bounds (Ha & Hr & _ & _ & Hc) Hg IH]; [constructor|].
    cbn [map]. constructor; [|exact IH].
    pose proof (matching_app net spec log Hlog (partition s) (log_start s) (window_end s) b Hr) as Happ.
    rewrite <- Hc in Happ. split; [exact Ha|]. split.
    - change (t_records (trimmed_tail s) `suffix_of` matching spec log (partition s) (log_start s) b).
      rewrite <- Happ. apply suffix_app_r, records_suffix.
    - intros [Hm Hrec]%reached_tail.
      change (t_records (trimmed_tail s) = matching spec log (partition s) (log_start s) b).
      rewrite Hrec, <- Happ. apply Z.ltb_ge in Hm.
      replace (window_end s) with (log_start s) by lia. by rewrite matching_nil. }
  split; [done|]. rewrite Hsum.
  assert (Htot : total_kept final <= sum_with (fun '(t, bound) =>
      Z.of_nat (length (matching spec log (t_partition t) (t_log_start t) bound))) (zip (map trimmed_tail final) bounds)).
  { rewrite <- Hsum. clear - Hnew. induction Hnew as [|t b tails bounds (_ & Hs & _) Hn IH]; [done|].
    cbn. apply suffix_length in Hs. unfold tail_length at 1. unfold sum_with in IH. lia. }
  destruct Hend as [Hend|Hend]; [lia|].
  enough (total_kept final = sum_with (fun '(t, bound) =>
      Z.of_nat (length (matching spec log (t_partition t) (t_log_start t) bound))) (zip (map trimmed_tail final) bounds)) by lia.
  rewrite <- Hsum. clear - Hnew Hend Hg. revert Hnew.
  induction Hg as [|s b final bounds (_ & _ & Htr & _) Hg IH]; [done|]. cbn [map]. intros Hnew.
  inversion Hnew as [|? ? ? ? (_ & _ & Hn1) Hn2]; subst. apply Forall_cons in Hend as [Hc Hend].
  destruct (closed_tail s Hc Htr) as [_ Hreach]. specialize (Hn1 Hreach).
  cbn [zip zip_with sum_with foldr]. specialize (IH Hend Hn2). unfold sum_with in IH. rewrite IH.
  unfold tail_length at 1. by rewrite <- Hn1.
Qed.

(** ** Witnesses, on the topic of the scan *)

Import ScanDemo.

Definition demo : Scan.ReadNet unit := demo_net two_logs 2.

Definition served (p : Z) : list (list Batch.DRecord) :=
  map (fun r => [r]) (decoded_of (Batch.outcomes (decode (new "t" 3) p
    {| f_partition := p; f_records := serve two_logs p 0; f_high_watermark := 2;
       f_last_stable_offset := 2; f_log_start_offset := 0; f_aborted := [] |}))).

Definition log_0 := Eval vm_compute in served 0.
Definition log_1 := Eval vm_compute in served 1.

Definition demo_log (p : Z) : list (list Batch.DRecord) :=
  if p =? 0 then log_0 else if p =? 1 then log_1 else [].

Lemma demo_list_offsets : offsets_not_negative demo.
Proof.
  intros w topic p leader time w' offset. cbn. intros [= _ <-]. by destruct (time =? _).
Qed.

Lemma demo_log_cases p : p = 0 \/ p = 1 \/ demo_log p = [] /\ two_logs p = [].
Proof.
  unfold demo_log, two_logs. destruct (Z.eqb_spec p 0); [by left|].
  destruct (Z.eqb_spec p 1); [by right; left|]. by right; right.
Qed.

Lemma demo_serves limit : serves_log demo (new "t" limit) demo_log.
Proof.
  split.
  - intros p. destruct (demo_log_cases p) as [->|[->|[-> _]]]; [| |constructor];
      repeat constructor.
  - intros p. destruct (demo_log_cases p) as [->|[->|[-> _]]]; [| |constructor];
      repeat constructor; discriminate.
  - intros p r.
    assert (Hall : forallb (fun r => (I64_MIN <=? Batch.r_offset r) && (Batch.r_offset r <? I64_MAX))
                     (concat (demo_log p)) = true).
    { by destruct (demo_log_cases p) as [->|[->|[-> _]]]; vm_compute. }
    rewrite forallb_forall in Hall. rewrite list_elem_of_In. intros Hr.
    specialize (Hall r Hr). apply andb_true_iff in Hall as [H1%Z.leb_le H2%Z.ltb_lt]. by split.
  - intros p leader w id offset w' l. pose proof (ScanProperties.demo_fetch leader w) as Hf.
    unfold ScanProperties.demo in Hf. fold demo in Hf. rewrite Hf. clear Hf. intros [= _ <-].
    exists (ScanProperties.answer (window_target (new "t" limit) p offset)), 2%nat.
    split; [cbn; by rewrite Z.eqb_refl|]. split; [lia|].
    unfold ScanProperties.answer. cbn [window_target ft_partition ft_offset]. unfold serve.
    destruct (demo_log_cases p) as [->|[->|[-> ->]]]; [| |reflexivity].
    all: unfold rest_of; cbn [two_logs demo_log log_0 log_1 Z.eqb Pos.eqb List.filter d_last plain last_of
           List.last Batch.r_offset].
    all: destruct (Z.leb_spec offset 0); destruct (Z.leb_spec offset 1); try (exfalso; lia);
      vm_compute; reflexivity.
Qed.

Definition demo_tails : list PartitionTail :=
  match tail demo 10 tt (new "t" 3) with Some (_, Returned (Ok tails)) => tails | _ => [] end.

Lemma demo_tail : tail demo 10 tt (new "t" 3) = Some (tt, Returned (Ok demo_tails)).
Proof. vm_compute. reflexivity. Qed.

Lemma tail_returns_witness :
  exists fuel0, forall fuel, (fuel0 <= fuel)%nat -> is_Some (tail demo fuel tt (new "t" 3)).
Proof. apply (tail_returns demo (new "t" 3) tt); [cbn; unfold USIZE_MAX; lia|exact demo_list_offsets]. Defined.

Lemma tail_is_bounded_witness :
  map tail_length demo_tails = [2; 1] /\ sum_with tail_length demo_tails <= 3.
Proof.
  split; [vm_compute; reflexivity|].
  refine (proj1 (tail_is_bounded demo (new "t" 3) 10 tt tt demo_tails _ demo_list_offsets demo_tail)).
  cbn. unfold USIZE_MAX. lia.
Defined.

Lemma tail_returns_the_newest_witness :
  map (fun t => map Batch.r_offset (t_records t)) demo_tails = [[0; 1]; [1]] /\
  exists bounds, Forall2 (newest (new "t" 3) demo_log) demo_tails bounds.
Proof.
  split; [vm_compute; reflexivity|].
  destruct (tail_returns_the_newest demo (new "t" 3) demo_log 10 tt tt demo_tails) as (bounds & Hb & _).
  - cbn. unfold USIZE_MAX. lia.
  - exact demo_list_offsets.
  - apply demo_serves.
  - exact demo_tail.
  - by exists bounds.
Defined.

(** ** Where the backward read falls short of its documentation *)

(** Per partition: the offsets, and whether the log start was reached. *)
Definition seen (o : option (unit * Outcome)) : option (list (Z * list Z * bool)) :=
  match o with
  | Some (_, Returned (Ok tails)) =>
      Some (map (fun t => (t_partition t, map Batch.r_offset (t_records t), reached_log_start t)) tails)
  | _ => None
  end.

(** A batch over offsets 0 to 9 that compaction left with records 0 and 1 is returned
    twice. *)
Example tail_repeats_a_compacted_batch :
  seen (tail (demo_net (fun _ => [{| d_base := 0; d_last := 9; d_time := 5; d_epoch := 8 |}]) 10)
          100 tt (with_partitions [0] (new "t" 50)))
  = Some [(0, [0; 1; 0; 1], true)].
Proof. vm_compute. reflexivity. Qed.

(** A fetch that brings only a control batch ends the window: the record after it is
    missed, and the tail says that nothing older is left. *)
Example tail_stops_at_a_control_batch :
  seen (tail (answering (fun f => records_as (first_batch
                 (fun _ => [{| d_base := 0; d_last := 0; d_time := 5; d_epoch := 7 |}; plain 1 6])
                 (Fetcher.fp_partition f) (Fetcher.fp_fetch_offset f)) 2 f) (demo_net two_logs 2))
          100 tt (with_partitions [0] (new "t" 50)))
  = Some [(0, [], true)].
Proof. vm_compute. reflexivity. Qed.

(** Both records of the partition are returned, and the log start is not reported: the
    offsets below the first record hold nothing. *)
Example no_further_page_not_reported :
  seen (tail (demo_net (fun _ => [plain 100 5; plain 101 6]) 102) 100 tt (with_partitions [0] (new "t" 2)))
  = Some [(0, [100; 101], false)].
Proof. vm_compute. reflexivity. Qed.

(** A topic the broker refuses is an empty tail, where the forward scan fails. *)
Example refused_topic_is_empty :
  let refused := {|
    Scan.refresh_topic w name := (w, Ok (Some {| Scan.ti_error := Some ErrorCode.TopicAuthorizationFailed;
                                                 Scan.ti_id := []; Scan.ti_partitions := [] |}));
    Scan.leader_for := Scan.leader_for demo; Scan.list_one := Scan.list_one demo; Scan.node := Scan.node demo |} in
  seen (tail refused 100 tt (new "t" 2)) = Some [] /\
  is_ok (Scan.scan refused tt (Scan.new "t")).2 = false.
Proof. vm_compute. done. Qed.

(** [max_step] of 0 panics. *)
Example zero_step_panics :
  tail demo 100 tt
    (with_max_step 0 (new "t" 3))
  = Some (tt, Panicked).
Proof. vm_compute. reflexivity. Qed.

End TailProperties.
