(* ===== verification/Idempotence.v ===== *)
(** Producer identities and per-partition sequence numbers
    ([crates/kafka-produce/src/idempotence.rs]). *)

From S2P Require Import Prelude ErrorCodes.

Module Idempotence.
Import ErrorCode.

Definition FIRST_SEQUENCE : Z := 0.

(** The identity a broker issued this producer. *)
Record ProducerIdentity : Type := { producer_id : Z; producer_epoch : Z }.

#[export] Instance ProducerIdentity_eq_dec : EqDecision ProducerIdentity.
Proof. solve_decision. Defined.

(** What one batch stamps onto its records. *)
Record BatchIdentity : Type := {
  b_producer_id : Z;
  b_producer_epoch : Z;
  base_sequence : Z;
  transactional : bool;
}.

(** The request of [InitProducerId] and the answer's fields. *)
Record InitProducerIdRequest : Type := {
  transactional_id : option string;
  transaction_timeout_ms : Z;
}.

Record InitProducerIdResponse : Type := {
  resp_error_code : Z;
  resp_producer_id : Z;
  resp_producer_epoch : Z;
}.

Definition idempotent_request : InitProducerIdRequest :=
  {| transactional_id := None; transaction_timeout_ms := I32_MAX |}.

(** Claim a producer id for idempotent, non-transactional writes, given what any
    broker answers to the request. *)
Definition init_producer_id `{KafkaProtocol}
    (send_any : InitProducerIdRequest -> result InitProducerIdResponse Error.Error)
    : result ProducerIdentity Error.Error :=
  let? response := send_any idempotent_request in
  match from_code (resp_error_code response) with
  | Some code => Err (Error.from_code code None)
  | None => Ok {| producer_id := resp_producer_id response;
                  producer_epoch := resp_producer_epoch response |}
  end.

(** Whether a broker error means the producer state is gone. *)
Definition invalidates_producer_state (code : ErrorCode) : bool :=
  match code with
  | UnknownProducerId | OutOfOrderSequenceNumber | InvalidProducerEpoch => true
  | _ => false
  end.

(** Per-partition sequence numbers. *)
Record Sequences : Type := { next : gmap (string * Z) Z }.

Definition default_sequences : Sequences := {| next := ∅ |}.

(** [i32::try_from(count).unwrap_or(i32::MAX)] for a count. *)
Definition count_i32 (count : nat) : Z := try_from_or I32_MAX I32_MAX (Z.of_nat count).

(** Reserve [count] numbers for a partition and return the base. *)
Definition reserve (self : Sequences) (key : string * Z) (count : nat) : Sequences * Z :=
  let reserved := default FIRST_SEQUENCE (next self !! key) in
  ({| next := <[key := i32_wrapping_add reserved (count_i32 count)]> (next self) |}, reserved).

(** Give a reservation back. *)
Definition release (self : Sequences) (key : string * Z) (base : Z) : Sequences :=
  {| next := <[key := base]> (next self) |}.

(** Forget everything. *)
Definition reset (self : Sequences) : Sequences := {| next := ∅ |}.

End Idempotence.

(** ** Lemmas *)

Module IdempotenceFacts.
Import Idempotence.

(** The next number of a partition. *)
Definition expected (self : Sequences) (key : string * Z) : Z :=
  default FIRST_SEQUENCE (next self !! key).

Lemma reserve_base self key count : (reserve self key count).2 = expected self key.
Proof. done. Qed.

Lemma reserve_expected self key count :
  expected (reserve self key count).1 key = i32_wrap (expected self key + count_i32 count).
Proof. unfold expected. simpl. by rewrite lookup_insert_eq. Qed.

Lemma reserve_expected_ne self key count key' :
  key <> key' -> expected (reserve self key count).1 key' = expected self key'.
Proof. intros Hne. unfold expected. simpl. by rewrite lookup_insert_ne. Qed.

Lemma release_expected self key base : expected (release self key base) key = base.
Proof. unfold expected. simpl. by rewrite lookup_insert_eq. Qed.

Lemma release_expected_ne self key base key' :
  key <> key' -> expected (release self key base) key' = expected self key'.
Proof. intros Hne. unfold expected. simpl. by rewrite lookup_insert_ne. Qed.

Lemma reset_expected self key : expected (reset self) key = FIRST_SEQUENCE.
Proof. unfold expected. simpl. by rewrite lookup_empty. Qed.

(** The bases of consecutive reservations of one partition, from a base. *)
Fixpoint bases (base : Z) (counts : list nat) : list Z :=
  match counts with
  | [] => []
  | n :: counts => base :: bases (i32_wrap (base + count_i32 n)) counts
  end.

(** What consecutive reservations return. *)
Fixpoint reserve_all (self : Sequences) (key : string * Z) (counts : list nat)
    : Sequences * list Z :=
  match counts with
  | [] => (self, [])
  | n :: counts =>
      let '(self, base) := reserve self key n in
      let '(self, rest) := reserve_all self key counts in
      (self, base :: rest)
  end.

Lemma reserve_all_bases counts : forall self key,
  (reserve_all self key counts).2 = bases (expected self key) counts.
Proof.
  induction counts as [|n counts IH]; intros self key; cbn [reserve_all bases]; [done|].
  pose proof (reserve_expected self key n) as He. pose proof (reserve_base self key n) as Hb.
  destruct (reserve self key n) as [self' base]. cbn [fst snd] in He, Hb.
  specialize (IH self' key). rewrite He in IH.
  destruct (reserve_all self' key counts) as [self'' rest]. cbn [snd] in *. by rewrite IH, Hb.
Qed.

Lemma reserve_all_other counts : forall self key key',
  key <> key' -> expected (reserve_all self key counts).1 key' = expected self key'.
Proof.
  induction counts as [|n counts IH]; intros self key key' Hne; cbn [reserve_all]; [done|].
  pose proof (reserve_expected_ne self key n key' Hne) as He.
  destruct (reserve self key n) as [self' base]. specialize (IH self' key key' Hne).
  destruct (reserve_all self' key counts) as [self'' rest]. cbn [fst] in *. congruence.
Qed.

(** The base of the [i]th reservation is the wrapped sum of the counts before it. *)
Lemma bases_sum counts : forall base i b,
  in_i32 base -> bases base counts !! i = Some b ->
  b = i32_wrap (base + sum_with count_i32 (take i counts)).
Proof.
  induction counts as [|n counts IH]; intros base i b Hbase Hi; [done|].
  destruct i as [|i]; cbn [bases lookup list_lookup] in Hi.
  - injection Hi as <-. unfold sum_with. simpl. rewrite Z.add_0_r. by rewrite i32_wrap_small.
  - apply IH in Hi; [|apply i32_wrap_range]. subst b. cbn [take].
    rewrite i32_wrap_add_l. f_equal. unfold sum_with. cbn [foldr]. lia.
Qed.

End IdempotenceFacts.

(** ** Properties *)

Module IdempotenceProperties.
Import Idempotence IdempotenceFacts.

(** The sequence numbers of a partition leave no gap:
    the base of each reserved batch is the 32-bit wrapped sum of the record counts
    before it, a batch that was not appended gives its numbers back so that the
    next one starts at its base, and no other partition's numbering is touched by
    any of it. *)
Theorem sequences_contiguous self key key' (counts : list nat) (n : nat) i b :
  in_i32 (expected self key) ->
  (reserve_all self key counts).2 !! i = Some b ->
  key <> key' ->
  b = i32_wrap (expected self key + sum_with count_i32 (take i counts))
  /\ (let '(self1, base) := reserve self key n in
      (reserve (release self1 key base) key n).2 = base
      /\ expected (release self1 key base) key' = expected self key')
  /\ expected (reserve_all self key counts).1 key' = expected self key'.
Proof.
  intros Hin Hi Hne. split_and!.
  - rewrite reserve_all_bases in Hi. by eapply bases_sum.
  - destruct (reserve self key n) as [self1 base] eqn:E. split.
    + by rewrite reserve_base, release_expected.
    + rewrite release_expected_ne by done.
      pose proof (reserve_expected_ne self key n key' Hne) as H. by rewrite E in H.
  - by apply reserve_all_other.
Qed.

(** Three batches across the wrap-around. *)
Lemma sequences_contiguous_witness :
  (reserve_all (release default_sequences ("t"%string, 0) (I32_MAX - 4)) ("t"%string, 0)
     [3; 5; 1]%nat).2 !! 2%nat = Some (I32_MIN + 3)
  /\ I32_MIN + 3 = i32_wrap (I32_MAX - 4 + 8).
Proof.
  assert (H : (reserve_all (release default_sequences ("t"%string, 0) (I32_MAX - 4))
                 ("t"%string, 0) [3; 5; 1]%nat).2 !! 2%nat = Some (I32_MIN + 3))
    by (vm_compute; reflexivity).
  split; [exact H|].
  destruct (sequences_contiguous (release default_sequences ("t"%string, 0) (I32_MAX - 4))
              ("t"%string, 0) ("u"%string, 0) [3; 5; 1]%nat 1 2 (I32_MIN + 3)) as [E _];
    [unfold in_i32; vm_compute; split; discriminate|exact H|discriminate|].
  exact E.
Defined.

End IdempotenceProperties.
