(* ===== verification/Transactions.v ===== *)
(** The transactional producer's state and its coordinator calls
    ([crates/kafka-produce/src/transactions.rs]).

    An operation that awaits the coordinator holds the lock only before and after
    the round trip, so each is split where it awaits: a [_request] definition
    checks the state and builds the request, [call_coordinator] is the round trip,
    and a [_settle] definition is the section that runs on the answer.  The
    operation composes them; [step] below lets the sections of concurrent callers
    interleave in any order. *)

From S2P Require Import Prelude Sanitize ErrorCodes ApiKeys Retry Idempotence.
From Stdlib Require Import QArith.
Open Scope Z_scope.

Module Transactions.
Import ErrorCode Idempotence.

Definition TRANSACTION_TIMEOUT_MS : Z := 60000.

(** Whether an error code means "ask the coordinator again". *)
Definition coordinator_not_ready (code : ErrorCode) : bool :=
  match code with
  | NotCoordinator | CoordinatorNotAvailable | CoordinatorLoadInProgress
  | ConcurrentTransactions => true
  | _ => false
  end.

(** A producer's transactional state. *)
Record State : Type := {
  identity_ : option ProducerIdentity;
  open : bool;
  enrolled : gset (string * Z);
  fenced : bool;
}.

Definition default_state : State :=
  {| identity_ := None; open := false; enrolled := ∅; fenced := false |}.

(** The shared object: the id, and the mutex, which may be poisoned. *)
Record Transactions : Type := {
  transactional_id : string;
  poisoned : bool;
  state : State;
}.

Definition new (transactional_id : string) : Transactions :=
  {| transactional_id := transactional_id; poisoned := false; state := default_state |}.

Definition with_state (self : Transactions) (state : State) : Transactions :=
  {| transactional_id := transactional_id self; poisoned := poisoned self; state := state |}.

Definition lock (self : Transactions) : result State Error.Error :=
  if poisoned self
  then Err (Error.InvalidRequest "the transactional state is poisoned; build a new producer")
  else Ok (state self).

Definition identity (self : Transactions) : option ProducerIdentity :=
  match lock self with Ok state => identity_ state | Err _ => None end.

Definition is_open (self : Transactions) : bool :=
  match lock self with Ok state => open state | Err _ => false end.

Definition check_live (state : State) : result unit Error.Error :=
  if fenced state then
    Err (Error.from_code ProducerFenced (Some (text_of_string
           "another producer with this transactional id has taken over; this one is permanently fenced")))
  else Ok tt.

Definition is_fencing (error : Error.Error) : bool :=
  match Error.code_of error with
  | Some ProducerFenced | Some InvalidProducerEpoch => true
  | _ => false
  end.

(** Note a fencing error, so that every later call fails the same way. *)
Definition note (self : Transactions) (error : Error.Error) : Transactions :=
  if is_fencing error then
    match lock self with
    | Ok state =>
        with_state self {| identity_ := identity_ state; open := false;
                           enrolled := enrolled state; fenced := true |}
    | Err _ => self
    end
  else self.

Section calls.
Context `{KafkaProtocol}.

(** ** One coordinator round trip *)

(** What the loop makes of one answer, and whether it drops the cached
    coordinator: it does when the coordinator is wrong, not when it is busy. *)
Definition judge {R} (code_of : R -> Z) (answer : result R Error.Error)
    : result (Retry.Verdict R Error.Error) Error.Error * bool :=
  match answer with
  | Err e => (Err e, false)
  | Ok response =>
      match from_code (code_of response) with
      | Some code =>
          if coordinator_not_ready code
          then (Ok (Retry.Reask (Ok response)), negb (bool_decide (code = ConcurrentTransactions)))
          else (Ok (Retry.Settled response), false)
      | None => (Ok (Retry.Settled response), false)
      end
  end.

(** The answers of one call, attempt by attempt, with the clock and the jitter. *)
Record CallEnv (R : Type) : Type := {
  answers : nat -> result R Error.Error;
  clock : nat -> Z;
  jitter : nat -> Q;
}.

(** The re-asked round trip, before the answer is judged. *)
Definition round_trip {R} (fuel : nat) (policy : Retry.RetryPolicy) (started : Z)
    (env : CallEnv R) (code_of : R -> Z) : option (result R Error.Error) :=
  Retry.reask fuel policy
    {| Retry.attempt_fn := fun i _ => (judge code_of (answers R env i)).1;
       Retry.now := clock R env;
       Retry.sample := jitter R env |} None started.

(** What the call makes of what the loop ended with: an answer that still carries
    an error code is an error, and a fencing one is noted. *)
Definition settle_call {R} (self : Transactions) (code_of : R -> Z)
    (answer : result R Error.Error) : Transactions * result R Error.Error :=
  match answer with
  | Err e => (self, Err e)
  | Ok response =>
      match from_code (code_of response) with
      | Some code =>
          let error := Error.from_code code None in
          (note self error, Err error)
      | None => (self, Ok response)
      end
  end.

Definition call_coordinator {R} (fuel : nat) (policy : Retry.RetryPolicy) (started : Z)
    (self : Transactions) (env : CallEnv R) (code_of : R -> Z)
    : option (Transactions * result R Error.Error) :=
  settle_call self code_of <$> round_trip fuel policy started env code_of.

(** ** [init] *)

Definition init_request (self : Transactions) : result InitProducerIdRequest Error.Error :=
  let? state := lock self in
  let? _ := check_live state in
  Ok {| Idempotence.transactional_id := Some (transactional_id self);
        transaction_timeout_ms := TRANSACTION_TIMEOUT_MS |}.

Definition init_settle (self : Transactions) (response : InitProducerIdResponse)
    : Transactions * result unit Error.Error :=
  match lock self with
  | Err e => (self, Err e)
  | Ok state =>
      (with_state self
         {| identity_ := Some {| producer_id := resp_producer_id response;
                                 producer_epoch := resp_producer_epoch response |};
            open := false; enrolled := ∅; fenced := fenced state |}, Ok tt)
  end.

Definition init_code (response : InitProducerIdResponse) : Z := resp_error_code response.

(** ** [begin] *)

Definition begin (self : Transactions) : Transactions * result unit Error.Error :=
  match lock self with
  | Err e => (self, Err e)
  | Ok state =>
      match check_live state with
      | Err e => (self, Err e)
      | Ok _ =>
          match identity_ state with
          | None =>
              (self, Err (Error.InvalidRequest
                            "init_transactions must be called before begin_transaction"))
          | Some _ =>
              if open state then
                (self, Err (Error.InvalidRequest
                              "a transaction is already open; commit or abort it first"))
              else
                (with_state self {| identity_ := identity_ state; open := true;
                                    enrolled := ∅; fenced := fenced state |}, Ok tt)
          end
      end
  end.

(** ** [unenrolled] and [enrol] *)

Definition unenrolled (self : Transactions) (partitions : list (string * Z)) : list (string * Z) :=
  match lock self with
  | Err _ => []
  | Ok state =>
      if open state then filter (fun key => key ∉ enrolled state) partitions else []
  end.

Record AddPartitionsToTxnRequest : Type := {
  add_transactional_id : string;
  add_producer_id : Z;
  add_producer_epoch : Z;
  add_topics : list (string * list Z);
}.

(** Per topic, the partitions with their error codes. *)
Record AddPartitionsToTxnResponse : Type := {
  results_by_topic : list (string * list (Z * Z));
}.

(** The first code that is not zero, or zero. *)
Definition first_code (codes : list Z) : Z := default 0 (head (filter (fun c => c <> 0) codes)).

Definition add_code (response : AddPartitionsToTxnResponse) : Z :=
  first_code (flat_map (fun '(_, ps) => map snd ps) (results_by_topic response)).

Definition claimed (state : State) : result ProducerIdentity Error.Error :=
  ok_or (identity_ state) (Error.InvalidRequest "no transactional producer id has been claimed").

Definition enrol_request (self : Transactions) (partitions : list (string * Z))
    : result AddPartitionsToTxnRequest Error.Error :=
  let? state := lock self in
  let? _ := check_live state in
  let? identity := claimed state in
  let by_topic :=
    foldl (fun m '(topic, partition) => push_to m topic partition) ∅ partitions in
  Ok {| add_transactional_id := transactional_id self;
        add_producer_id := producer_id identity;
        add_producer_epoch := producer_epoch identity;
        add_topics := map_to_list by_topic |}.

(** The first partition whose code is an error, with the text that names it. *)
Definition first_refusal (suffix : string) (results : list (string * list (Z * Z)))
    : option Error.Error :=
  head
    (flat_map (fun '(topic, ps) =>
       omap (fun '(index, code) =>
               (fun c => Error.from_code c
                  (Some (text_of_string (topic +:+ "-" +:+ pretty index +:+ suffix))))
               <$> from_code code) ps) results).

Definition enrol_settle (self : Transactions) (partitions : list (string * Z))
    (response : AddPartitionsToTxnResponse) : Transactions * result unit Error.Error :=
  match first_refusal ": could not be added to the transaction" (results_by_topic response) with
  | Some error => (note self error, Err error)
  | None =>
      match lock self with
      | Err e => (self, Err e)
      | Ok state =>
          (with_state self {| identity_ := identity_ state; open := open state;
                              enrolled := list_to_set partitions ∪ enrolled state;
                              fenced := fenced state |}, Ok tt)
      end
  end.

(** ** [send_offsets] *)

Record GroupMetadata : Type := {
  group_id : string;
  generation : Z;
  member_id : string;
  instance_id : option string;
}.

Record AddOffsetsToTxnRequest : Type := {
  ao_transactional_id : string;
  ao_producer_id : Z;
  ao_producer_epoch : Z;
  ao_group_id : string;
}.

Record TxnOffsetCommitRequest : Type := {
  tc_transactional_id : string;
  tc_group_id : string;
  tc_producer_id : Z;
  tc_producer_epoch : Z;
  tc_generation_id : Z;
  tc_member_id : string;
  tc_group_instance_id : option string;
  tc_topics : list (string * list (Z * Z));
}.

Record TxnOffsetCommitResponse : Type := { tc_results : list (string * list (Z * Z)) }.

Definition commit_code (response : TxnOffsetCommitResponse) : Z :=
  first_code (flat_map (fun '(_, ps) => map snd ps) (tc_results response)).

Definition send_offsets_check (self : Transactions) : result ProducerIdentity Error.Error :=
  let? state := lock self in
  let? _ := check_live state in
  if negb (open state)
  then Err (Error.InvalidRequest "no transaction is open; offsets can only be sent inside one")
  else claimed state.

Definition add_offsets_request (self : Transactions) (identity : ProducerIdentity)
    (group : GroupMetadata) : AddOffsetsToTxnRequest :=
  {| ao_transactional_id := transactional_id self;
     ao_producer_id := producer_id identity;
     ao_producer_epoch := producer_epoch identity;
     ao_group_id := group_id group |}.

Definition offset_commit_request (self : Transactions) (identity : ProducerIdentity)
    (group : GroupMetadata) (offsets : list ((string * Z) * Z)) : TxnOffsetCommitRequest :=
  {| tc_transactional_id := transactional_id self;
     tc_group_id := group_id group;
     tc_producer_id := producer_id identity;
     tc_producer_epoch := producer_epoch identity;
     tc_generation_id := generation group;
     tc_member_id := member_id group;
     tc_group_instance_id := instance_id group;
     tc_topics :=
       map_to_list
         (foldl (fun m '((topic, partition), offset) =>
                   push_to m topic (partition, offset)) ∅ offsets) |}.

Definition commit_settle (self : Transactions) (response : TxnOffsetCommitResponse)
    : Transactions * result unit Error.Error :=
  match first_refusal
          ": offset could not be committed in the transaction; abort it rather than committing a partial one"
          (tc_results response) with
  | Some error => (note self error, Err error)
  | None => (self, Ok tt)
  end.

(** ** [end] *)

Record EndTxnRequest : Type := {
  end_transactional_id : string;
  end_producer_id : Z;
  end_producer_epoch : Z;
  committed : bool;
}.

Record EndTxnResponse : Type := {
  end_error_code : Z;
  next_producer_id : Z;
  next_producer_epoch : Z;
}.

Definition end_code (response : EndTxnResponse) : Z := end_error_code response.

Definition end_request (self : Transactions) (commit : bool) : result EndTxnRequest Error.Error :=
  let? state := lock self in
  let? _ := check_live state in
  if negb (open state) then Err (Error.InvalidRequest "no transaction is open")
  else
    let? identity := claimed state in
    Ok {| end_transactional_id := transactional_id self;
          end_producer_id := producer_id identity;
          end_producer_epoch := producer_epoch identity;
          committed := commit |}.

(** [EndTxn] v5 answers with the identity of the next transaction; an older
    broker leaves both fields at [-1]. *)
Definition end_settle (self : Transactions) (response : EndTxnResponse)
    : Transactions * result unit Error.Error :=
  match lock self with
  | Err e => (self, Err e)
  | Ok state =>
      (with_state self
         {| identity_ :=
              if (0 <=? next_producer_id response) && (0 <=? next_producer_epoch response)
              then Some {| producer_id := next_producer_id response;
                           producer_epoch := next_producer_epoch response |}
              else identity_ state;
            open := false; enrolled := ∅; fenced := fenced state |}, Ok tt)
  end.

(** ** The whole operations, nothing else running meanwhile *)

(** What every operation's calls share: the fuel of the re-ask loop, the policy,
    and the instant the call starts. *)
Record Call : Type := { fuel : nat; policy : Retry.RetryPolicy; started : Z }.

Definition call {R} (c : Call) (self : Transactions) (env : CallEnv R) (code_of : R -> Z)
    (settle : Transactions -> R -> Transactions * result unit Error.Error)
    : option (Transactions * result unit Error.Error) :=
  match call_coordinator (fuel c) (policy c) (started c) self env code_of with
  | None => None
  | Some (self, Err e) => Some (self, Err e)
  | Some (self, Ok response) => Some (settle self response)
  end.

Definition init (c : Call) (self : Transactions)
    (cluster : InitProducerIdRequest -> CallEnv InitProducerIdResponse)
    : option (Transactions * result unit Error.Error) :=
  match init_request self with
  | Err e => Some (self, Err e)
  | Ok request => call c self (cluster request) init_code init_settle
  end.

Definition enrol (c : Call) (self : Transactions)
    (cluster : AddPartitionsToTxnRequest -> CallEnv AddPartitionsToTxnResponse)
    (partitions : list (string * Z)) : option (Transactions * result unit Error.Error) :=
  match partitions with
  | [] => Some (self, Ok tt)
  | _ =>
      match enrol_request self partitions with
      | Err e => Some (self, Err e)
      | Ok request =>
          call c self (cluster request) add_code (fun self => enrol_settle self partitions)
      end
  end.

Definition send_offsets (c : Call) (self : Transactions)
    (coordinator : AddOffsetsToTxnRequest -> CallEnv Z)
    (group_coordinator : TxnOffsetCommitRequest -> CallEnv TxnOffsetCommitResponse)
    (group : GroupMetadata) (offsets : list ((string * Z) * Z))
    : option (Transactions * result unit Error.Error) :=
  match send_offsets_check self with
  | Err e => Some (self, Err e)
  | Ok identity =>
      match call_coordinator (fuel c) (policy c) (started c) self
              (coordinator (add_offsets_request self identity group)) (fun code => code) with
      | None => None
      | Some (self, Err e) => Some (self, Err e)
      | Some (self, Ok _) =>
          call c self (group_coordinator (offset_commit_request self identity group offsets))
            commit_code commit_settle
      end
  end.

Definition end_ (c : Call) (self : Transactions)
    (cluster : EndTxnRequest -> CallEnv EndTxnResponse) (commit : bool)
    : option (Transactions * result unit Error.Error) :=
  match end_request self commit with
  | Err e => Some (self, Err e)
  | Ok request => call c self (cluster request) end_code end_settle
  end.

End calls.

End Transactions.
