(* ===== verification/TransactionsFacts.v ===== *)
(** Lemmas and properties of the transactional state: what survives any
    interleaving of its critical sections, and what each operation does. *)

From S2P Require Import Prelude Sanitize ErrorCodes ApiKeys Retry Idempotence Transactions.
From Stdlib Require Import QArith.
Open Scope Z_scope.

(** ** Interleavings *)

Module TransactionSteps.
Import Transactions.

Section step.
Context `{KafkaProtocol}.

(** One critical section of any operation, or a panic inside one.  Concurrent
    callers and the accumulator interleave at this grain. *)
Inductive step : Transactions -> Transactions -> Prop :=
  | step_note t e : step t (note t e)
  | step_init t response : step t (init_settle t response).1
  | step_begin t : step t (begin t).1
  | step_enrol t partitions response : step t (enrol_settle t partitions response).1
  | step_commit t response : step t (commit_settle t response).1
  | step_end t response : step t (end_settle t response).1
  | step_poison t :
      step t {| transactional_id := transactional_id t; poisoned := true; state := state t |}.

Definition steps : Transactions -> Transactions -> Prop := rtc step.

End step.

(** An open transaction has an identity, and a fenced producer has none open. *)
Definition wf (t : Transactions) : Prop :=
  (open (state t) = true -> is_Some (identity_ (state t)))
  /\ (fenced (state t) = true -> open (state t) = false).

End TransactionSteps.

(** ** Lemmas *)

Module TransactionsFacts.
Import ErrorCode Idempotence Transactions TransactionSteps.

Section facts.
Context `{KafkaProtocol}.

Lemma note_cases t e :
  note t e = t
  \/ note t e = with_state t {| identity_ := identity_ (state t); open := false;
                                enrolled := enrolled (state t); fenced := true |}.
Proof. unfold note, lock. destruct (is_fencing e), (poisoned t); auto. Qed.

Lemma note_enrolled t e : enrolled (state (note t e)) = enrolled (state t).
Proof. by destruct (note_cases t e) as [-> | ->]. Qed.

Lemma begin_cases t :
  ((begin t).1 = t /\ is_ok (begin t).2 = false)
  \/ (poisoned t = false /\ fenced (state t) = false /\ is_Some (identity_ (state t))
      /\ open (state t) = false
      /\ begin t = (with_state t {| identity_ := identity_ (state t); open := true;
                                    enrolled := ∅; fenced := fenced (state t) |}, Ok tt)).
Proof.
  unfold begin, lock. destruct (poisoned t) eqn:Hp; [by left|]. unfold check_live.
  destruct (fenced (state t)) eqn:Hf; [by left|].
  destruct (identity_ (state t)) eqn:Hi; [|by left].
  destruct (open (state t)) eqn:Ho; [by left|]. right. split_and!; eauto.
Qed.

Lemma wf_note t e : wf t -> wf (note t e).
Proof. intros Hwf. destruct (note_cases t e) as [-> | ->]; [done|]. by split. Qed.

Lemma enrol_settle_cases t ps r :
  (exists e, enrol_settle t ps r = (note t e, Err e))
  \/ (poisoned t = true /\ (enrol_settle t ps r).1 = t /\ is_ok (enrol_settle t ps r).2 = false)
  \/ enrol_settle t ps r
     = (with_state t {| identity_ := identity_ (state t); open := open (state t);
                        enrolled := list_to_set ps ∪ enrolled (state t);
                        fenced := fenced (state t) |}, Ok tt).
Proof.
  unfold enrol_settle, lock. destruct (first_refusal _ _) as [e|]; [left; by exists e|].
  destruct (poisoned t); [right; by left|by right; right].
Qed.

Lemma commit_settle_cases t r : exists e, (commit_settle t r).1 = t \/ (commit_settle t r).1 = note t e.
Proof.
  unfold commit_settle. destruct (first_refusal _ _) as [e|]; [|exists (Error.ConnectionClosed "")];
    [exists e; by right|by left].
Qed.

(** Every section keeps the invariant. *)
Lemma step_wf t t' : step t t' -> wf t -> wf t'.
Proof.
  intros Hs Hwf. destruct Hs as [t e|t r|t|t ps r|t r|t r|t].
  - by apply wf_note.
  - unfold init_settle, lock. destruct (poisoned t); [done|]. by split.
  - destruct (begin_cases t) as [[-> _]|(_ & Hf & Hi & _ & ->)]; [done|].
    split; simpl; [done|]. by rewrite Hf.
  - destruct (enrol_settle_cases t ps r) as [[e ->]|[(_ & -> & _)| ->]]; [by apply wf_note|done..].
  - destruct (commit_settle_cases t r) as [e [-> | ->]]; [done|by apply wf_note].
  - unfold end_settle, lock. destruct (poisoned t); [done|]. by split.
  - done.
Qed.

(** Fencing and poisoning are never undone. *)
Lemma step_fenced t t' : step t t' -> fenced (state t) = true -> wf t -> fenced (state t') = true.
Proof.
  intros Hs Hf Hwf. destruct Hs as [t e|t r|t|t ps r|t r|t r|t].
  - by destruct (note_cases t e) as [-> | ->].
  - unfold init_settle, lock. by destruct (poisoned t).
  - destruct (begin_cases t) as [[-> _]|(_ & Hf' & _)]; [done|congruence].
  - destruct (enrol_settle_cases t ps r) as [[e ->]|[(_ & -> & _)| ->]]; [|done..].
    by destruct (note_cases t e) as [-> | ->].
  - destruct (commit_settle_cases t r) as [e [-> | ->]]; [done|].
    by destruct (note_cases t e) as [-> | ->].
  - unfold end_settle, lock. by destruct (poisoned t).
  - done.
Qed.

Lemma steps_invariant t t' :
  steps t t' -> wf t -> wf t' /\ (fenced (state t) = true -> fenced (state t') = true).
Proof.
  induction 1 as [|t1 t2 t3 Hs _ IH]; intros Hwf; [done|].
  destruct IH as [Hwf' Hf]; [by eapply step_wf|]. split; [done|].
  intros Hf1. apply Hf. by eapply step_fenced.
Qed.

(** *** The whole operations are made of steps *)

Lemma settle_call_steps {R} t (code_of : R -> Z) answer t' r :
  settle_call t code_of answer = (t', r) -> steps t t'.
Proof.
  unfold settle_call. destruct answer as [response|e]; [|by intros [= <- _]].
  destruct (from_code _); intros [= <- _]; [apply rtc_once, step_note|done].
Qed.

Lemma call_steps {R} c t (env : CallEnv R) code_of settle t' r :
  (forall t response, step t (settle t response).1) ->
  call c t env code_of settle = Some (t', r) -> steps t t'.
Proof.
  intros Hset. unfold call, call_coordinator.
  destruct (round_trip _ _ _ _ _) as [answer|]; simpl; [|done].
  destruct (settle_call t code_of answer) as [t1 [response|e]] eqn:E;
    apply settle_call_steps in E; [|by intros [= <- _]].
  intros [= Hr]. transitivity t1; [exact E|]. apply rtc_once.
  specialize (Hset t1 response). by rewrite Hr in Hset.
Qed.

Lemma init_steps c t cluster t' r : init c t cluster = Some (t', r) -> steps t t'.
Proof.
  unfold init. destruct (init_request t); [|by intros [= <- _]].
  apply call_steps. intros. apply step_init.
Qed.

Lemma enrol_steps c t cluster ps t' r : enrol c t cluster ps = Some (t', r) -> steps t t'.
Proof.
  unfold enrol. destruct ps as [|p ps]; [by intros [= <- _]|].
  destruct (enrol_request t (p :: ps)); [|by intros [= <- _]].
  apply call_steps. intros. apply step_enrol.
Qed.

Lemma end_steps c t cluster commit t' r : end_ c t cluster commit = Some (t', r) -> steps t t'.
Proof.
  unfold end_. destruct (end_request t commit); [|by intros [= <- _]].
  apply call_steps. intros. apply step_end.
Qed.

Lemma send_offsets_steps c t co gr group offsets t' r :
  send_offsets c t co gr group offsets = Some (t', r) -> steps t t'.
Proof.
  unfold send_offsets. destruct (send_offsets_check t) as [i|]; [|by intros [= <- _]].
  unfold call_coordinator at 1. destruct (round_trip _ _ _ _ _) as [answer|]; simpl; [|done].
  destruct (settle_call t _ answer) as [t1 [response|e]] eqn:E;
    apply settle_call_steps in E; [|by intros [= <- _]].
  intros Hc. transitivity t1; [exact E|].
  eapply call_steps; [|exact Hc]. intros. apply step_commit.
Qed.

(** *** What a call returns *)

(** The loop ends with one of the answers, just as it came. *)
Lemma round_trip_answer {R} fuel policy started (env : CallEnv R) code_of answer :
  round_trip fuel policy started env code_of = Some answer ->
  exists k, (k < fuel)%nat /\ answers R env k = answer
    /\ forall j, (j < k)%nat ->
         exists response code, answers R env j = Ok response
           /\ from_code (code_of response) = Some code /\ coordinator_not_ready code = true
           /\ (judge code_of (answers R env j)).2 = negb (bool_decide (code = ConcurrentTransactions)).
Proof.
  intros Hrt. apply RetryFacts.reask_loop_ends in Hrt as (k & Hk & He & Hj).
  exists k. split; [done|]. unfold RetryFacts.ends in He. cbn [Retry.attempt_fn] in He.
  simpl in He. split.
  - unfold judge in He. destruct (answers R env k) as [response|e]; [|done].
    destruct (from_code (code_of response)) as [code|]; [|done].
    destruct (coordinator_not_ready code); [by destruct He as [-> _]|done].
  - intros j Hlt. destruct (Hj j Hlt) as (r & Hask & _). cbn [Retry.attempt_fn] in Hask.
    simpl in Hask. unfold judge in *. destruct (answers R env j) as [response|]; [|done].
    destruct (from_code (code_of response)) as [code|] eqn:Hc; [|done].
    destruct (coordinator_not_ready code) eqn:Hr; [|done]. by exists response, code.
Qed.

(** The answer a call hands to its section carries no error code; otherwise its
    error is an answer's, or a response's code without a message. *)
Lemma call_inv {R} c t (env : CallEnv R) code_of settle t' r :
  call c t env code_of settle = Some (t', r) ->
  (exists e, r = Err e /\ (t' = t \/ t' = note t e)
     /\ ((exists i, answers R env i = Err e) \/ exists code, e = Error.from_code code None))
  \/ (exists response, from_code (code_of response) = None /\ settle t response = (t', r)
        /\ exists i, answers R env i = Ok response).
Proof.
  unfold call, call_coordinator.
  destruct (round_trip _ _ _ _ _) as [answer|] eqn:Hrt; simpl; [|done].
  apply round_trip_answer in Hrt as (i & _ & Hi & _).
  unfold settle_call. destruct answer as [response|e]; [|intros [= <- <-]; left; eauto 10].
  destruct (from_code (code_of response)) as [code|] eqn:Hc; [intros [= <- <-]; left; eauto 10|].
  intros [= Hr]. right. exists response. eauto.
Qed.

Lemma check_live_Err s : fenced s = true ->
  exists e, check_live s = Err e /\ Error.code_of e = Some ProducerFenced.
Proof. intros Hf. unfold check_live. rewrite Hf. eexists. split; [done|]. by vm_compute. Qed.

(** A dead producer: poisoned, or fenced. *)
Lemma dead_refusal t :
  poisoned t = true \/ fenced (state t) = true ->
  exists e, (poisoned t = false -> Error.code_of e = Some ProducerFenced)
    /\ (forall A (k : State -> result A Error.Error),
          (let? state := lock t in let? _ := check_live state in k state) = Err e)
    /\ begin t = (t, Err e).
Proof.
  unfold begin, lock. destruct (poisoned t).
  - intros _. eexists. split_and!; [done|by intros|done].
  - intros [?|Hf]; [done|]. destruct (check_live_Err _ Hf) as (e & He & Hc). exists e.
    split_and!; [done|intros; simpl; by rewrite He|by rewrite He].
Qed.

Lemma first_code_zero codes : first_code codes = 0 <-> Forall (fun c => c = 0) codes.
Proof.
  unfold first_code. induction codes as [|c codes IH]; [split; [constructor|done]|].
  rewrite filter_cons. destruct (decide (c <> 0)) as [Hc|Hc]; simpl.
  - split; [done|]. intros Hall. by inversion Hall.
  - rewrite IH, Forall_cons. split; [split; [lia|done]|tauto].
Qed.

Lemma omap_nil {A B} (f : A -> option B) l : omap f l = [] <-> Forall (fun x => f x = None) l.
Proof.
  induction l as [|x l IH]; simpl; [split; [constructor|done]|].
  rewrite Forall_cons, <- IH. destruct (f x); naive_solver.
Qed.

(** No partition is refused exactly when no code is an error. *)
Lemma first_refusal_None suffix results :
  first_refusal suffix results = None
  <-> Forall (fun '(_, ps) => Forall (fun '(_, code) => from_code code = None) ps) results.
Proof.
  unfold first_refusal.
  match goal with |- head ?l = None <-> _ =>
    assert (Hh : head l = None <-> l = []) by (by destruct l) end.
  rewrite Hh, flat_map_nil. apply Forall_iff. intros [topic ps].
  rewrite omap_nil. apply Forall_iff. intros [index code]. by destruct (from_code code).
Qed.

(** Every code of a response is the zero the call looked for. *)
Lemma codes_zero (results : list (string * list (Z * Z))) :
  first_code (flat_map (fun '(_, ps) => map snd ps) results) = 0
  <-> Forall (fun '(_, ps) => Forall (fun '(_, code) => code = 0) ps) results.
Proof.
  rewrite first_code_zero. induction results as [|[topic ps] results IH]; simpl;
    [split; constructor|].
  rewrite Forall_app, Forall_cons, IH. f_equiv.
  rewrite list.Forall_fmap. apply Forall_iff. by intros [index code].
Qed.

End facts.

End TransactionsFacts.

(** ** Properties *)

Module TransactionsProperties.
Import ErrorCode Idempotence Transactions TransactionSteps TransactionsFacts.

Section lemmas.
Context `{KafkaProtocol}.

Lemma refused t :
  poisoned t = true \/ fenced (state t) = true ->
  exists e, (poisoned t = false -> Error.code_of e = Some ProducerFenced)
    /\ begin t = (t, Err e)
    /\ (forall c cluster, init c t cluster = Some (t, Err e))
    /\ (forall c cluster p ps, enrol c t cluster (p :: ps) = Some (t, Err e))
    /\ (forall c co gr group offsets, send_offsets c t co gr group offsets = Some (t, Err e))
    /\ (forall c cluster commit, end_ c t cluster commit = Some (t, Err e)).
Proof.
  intros Hd. destruct (dead_refusal t Hd) as (e & Hc & Hk & Hb). exists e.
  unfold init, enrol, send_offsets, end_, init_request, enrol_request, send_offsets_check,
    end_request. split_and!; [done|done|..]; intros; by rewrite Hk.
Qed.

(** What an enrolment leaves when the state is not touched meanwhile. *)
Lemma enrol_settle_Ok t ps response t' :
  enrol_settle t ps response = (t', Ok tt) ->
  first_refusal ": could not be added to the transaction" (results_by_topic response) = None
  /\ poisoned t = false
  /\ state t' = {| identity_ := identity_ (state t); open := open (state t);
                   enrolled := list_to_set ps ∪ enrolled (state t);
                   fenced := fenced (state t) |}
  /\ poisoned t' = false.
Proof.
  unfold enrol_settle, lock. destruct (first_refusal _ _); [done|].
  destruct (poisoned t) eqn:Hp; [done|]. intros [= <-]. by split_and!.
Qed.

End lemmas.

(** Fencing is permanent.  However the critical sections
    of concurrent operations interleave, once a fencing error was noted the
    producer never has a transaction open again, and every operation refuses,
    without asking a coordinator, with the same fencing error (or the poisoned
    lock's). *)
Theorem fencing_is_permanent `{KafkaProtocol} t t' :
  wf t -> fenced (state t) = true -> steps t t' ->
  is_open t' = false
  /\ exists e, (poisoned t' = false -> Error.code_of e = Some ProducerFenced)
       /\ begin t' = (t', Err e)
       /\ (forall c cluster, init c t' cluster = Some (t', Err e))
       /\ (forall c cluster p ps, enrol c t' cluster (p :: ps) = Some (t', Err e))
       /\ (forall c co gr group offsets, send_offsets c t' co gr group offsets = Some (t', Err e))
       /\ (forall c cluster commit, end_ c t' cluster commit = Some (t', Err e)).
Proof.
  intros Hwf Hf Hs. destruct (steps_invariant _ _ Hs Hwf) as [[_ Hopen] Hf']. specialize (Hf' Hf).
  split; [|by apply refused; right].
  unfold is_open, lock. destruct (poisoned t'); [done|]. by apply Hopen.
Qed.

(** C38: However operations interleave, from a new producer on an
    open transaction has a claimed identity and is not fenced; and every whole
    operation is such an interleaving. *)
Theorem open_has_identity `{KafkaProtocol} name t :
  steps (new name) t ->
  (is_open t = true -> is_Some (identity t) /\ fenced (state t) = false)
  /\ (forall c cluster t' r, init c t cluster = Some (t', r) -> steps (new name) t')
  /\ (forall c cluster ps t' r, enrol c t cluster ps = Some (t', r) -> steps (new name) t')
  /\ (forall c co gr group offsets t' r,
        send_offsets c t co gr group offsets = Some (t', r) -> steps (new name) t')
  /\ (forall c cluster commit t' r, end_ c t cluster commit = Some (t', r) -> steps (new name) t').
Proof.
  intros Hs. destruct (steps_invariant _ _ Hs) as [[Hid Hf] _]; [by split|]. split_and!.
  - unfold is_open, identity, lock. destruct (poisoned t); [done|]. intros Ho.
    split; [by apply Hid|]. destruct (fenced (state t)) eqn:E; [|done].
    rewrite Hf in Ho; done.
  - intros * Hi. etrans; [exact Hs|by eapply init_steps].
  - intros * Hi. etrans; [exact Hs|by eapply enrol_steps].
  - intros * Hi. etrans; [exact Hs|by eapply send_offsets_steps].
  - intros * Hi. etrans; [exact Hs|by eapply end_steps].
Qed.

(** Enrolling partitions enrols all of them or
    none: when it succeeds, in an open transaction, none of them is left to enrol
    and no partition of the coordinator's answer carried an error; when it fails,
    the enrolled set is what it was. *)
Theorem enrolment_is_all_or_nothing `{KafkaProtocol} c t cluster ps t' r :
  enrol c t cluster ps = Some (t', r) ->
  match r with
  | Ok _ =>
      unenrolled t' ps = []
      /\ (ps <> [] -> enrolled (state t') = list_to_set ps ∪ enrolled (state t)
          /\ exists request response i,
               enrol_request t ps = Ok request /\ answers _ (cluster request) i = Ok response
               /\ Forall (fun '(_, results) =>
                            Forall (fun '(_, code) => from_code code = None) results)
                    (results_by_topic response))
  | Err _ => enrolled (state t') = enrolled (state t)
  end.
Proof.
  unfold enrol. destruct ps as [|p ps].
  { intros [= <- <-]. split; [|done]. unfold unenrolled, lock.
    by destruct (poisoned t), (open (state t)). }
  destruct (enrol_request t (p :: ps)) as [request|e] eqn:Hr; [|by intros [= <- <-]].
  intros [(e & -> & [-> | ->] & _)|(response & _ & Hset & i & Hi)]%call_inv;
    [done|apply note_enrolled|].
  destruct r as [[]|e].
  - apply enrol_settle_Ok in Hset as (Hnone & Hp & Hst & Hp'). split.
    + unfold unenrolled, lock. rewrite Hp', Hst. cbn [open enrolled].
      destruct (open (state t)); [|done].
      apply elem_of_nil_inv. intros key Hin. apply list_elem_of_filter in Hin. set_solver.
    + intros _. rewrite Hst. split; [done|]. exists request, response, i.
      by rewrite first_refusal_None in Hnone.
  - destruct (enrol_settle_cases t (p :: ps) response) as [[e' E]|[(_ & E & _)|E]];
      rewrite Hset in E; [injection E as -> _; apply note_enrolled|by simpl in E; subst|done].
Qed.

(** Ending a transaction that was open: the
    request carries the identity in use and the caller's choice; when it succeeds
    the transaction is closed, the next one uses the identity the coordinator
    answered with (KIP-890), or the same one when the answer holds the [-1] of an
    older broker; and the next transaction starts with nothing enrolled. *)
Theorem ending_adopts_the_next_identity `{KafkaProtocol} c t cluster commit t' :
  end_ c t cluster commit = Some (t', Ok tt) -> fenced (state t) = false ->
  exists i response n,
    identity t = Some i /\ is_open t = true /\ is_open t' = false
    /\ answers _ (cluster {| end_transactional_id := transactional_id t;
                             end_producer_id := producer_id i;
                             end_producer_epoch := producer_epoch i;
                             committed := commit |}) n = Ok response
    /\ identity t'
       = Some (if (0 <=? next_producer_id response) && (0 <=? next_producer_epoch response)
               then {| producer_id := next_producer_id response;
                       producer_epoch := next_producer_epoch response |}
               else i)
    /\ exists t'', begin t' = (t'', Ok tt) /\ is_open t'' = true
         /\ forall ps, unenrolled t'' ps = ps.
Proof.
  unfold end_, end_request, identity, is_open, lock. intros He Hlive.
  destruct (poisoned t) eqn:Hp; [done|]. cbn [result_bind] in He. unfold check_live in He.
  rewrite Hlive in He. cbn [result_bind] in He.
  destruct (open (state t)) eqn:Ho; [|done]. cbn [negb] in He. unfold claimed in He.
  destruct (identity_ (state t)) as [i|] eqn:Hi; [|done]. cbn [ok_or result_bind] in He.
  apply call_inv in He as [(e & He & _)|(response & _ & Hset & n & Hn)]; [done|].
  unfold end_settle, lock in Hset. rewrite Hp in Hset. injection Hset as <-.
  exists i, response, n. cbn [poisoned with_state state open identity_].
  rewrite Hp, Hi. split_and!; [done|done|done|exact Hn|by case_match|].
  unfold begin, lock, check_live. cbn [poisoned with_state state open identity_ fenced].
  rewrite Hp, Hlive.
  destruct (if _ && _ then Some _ else Some i) as [i'|] eqn:Ei; [|by case_match].
  eexists. split; [done|]. cbn [poisoned with_state state open]. rewrite Hp.
  split; [done|]. intros ps. unfold unenrolled, lock.
  cbn [poisoned with_state state open enrolled]. rewrite Hp.
  apply list_filter_all, Forall_true. set_solver.
Qed.


(** A coordinator call returns once the clock passes
    its budget: it asks again only while the coordinator answers that it is not
    ready, drops the cached coordinator exactly when the answer says the
    coordinator is wrong (a busy one is kept), and what it returns is never an
    answer that still carries an error code: that code becomes the error, and a
    fencing one fences the producer. *)
Theorem coordinator_call_settles `{KafkaProtocol} {R} (c : Call) t (env : CallEnv R)
    (code_of : R -> Z) (n : nat) :
  RetryFacts.wf (policy c) -> (forall i, RetryFacts.drawn (policy c) (jitter R env i)) ->
  started c + Retry.coordinator_timeout (policy c) <= clock R env n -> (n < fuel c)%nat ->
  exists k answer,
    (k < fuel c)%nat /\ answers R env k = answer
    /\ (forall j, (j < k)%nat ->
         exists response code, answers R env j = Ok response
           /\ from_code (code_of response) = Some code /\ coordinator_not_ready code = true
           /\ (judge code_of (answers R env j)).2 = negb (bool_decide (code = ConcurrentTransactions)))
    /\ call_coordinator (fuel c) (policy c) (started c) t env code_of
       = Some match answer with
              | Err e => (t, Err e)
              | Ok response =>
                  match from_code (code_of response) with
                  | None => (t, Ok response)
                  | Some code => (note t (Error.from_code code None), Err (Error.from_code code None))
                  end
              end.
Proof.
  intros Hwf Hs Hb Hn.
  destruct (RetryFacts.reask_loop_returns (policy c)
    {| Retry.attempt_fn := fun i _ => (judge code_of (answers R env i)).1;
       Retry.now := clock R env; Retry.sample := jitter R env |}
    (started c + Retry.coordinator_timeout (policy c)) n (fuel c) 0 1) as [answer Hrt];
    [intros; by apply (RetryFacts.delay_bounds (policy c)); [|apply Hs]|done|done|].
  pose proof (round_trip_answer (fuel c) (policy c) (started c) env code_of answer Hrt)
    as (k & Hk & Ha & Hj).
  exists k, answer. split_and!; [done|done|done|].
  unfold call_coordinator, round_trip, Retry.reask. cbn [default]. rewrite Hrt. simpl.
  unfold settle_call. destruct answer as [response|]; [|done]. by destruct (from_code _).
Qed.

(** When the coordinator refuses a partition of an
    enrolment, the error the caller gets never names it: the call already turns
    the first non-zero partition code into an error without a message, and the
    per-partition pass after it, which would name the partition, only ever sees
    success.  (Every non-zero code is an error, and zero is none.) *)
Theorem refusal_never_names_partition `{KafkaProtocol} c t cluster ps t' e :
  (forall code, from_code code = None <-> code = 0) ->
  enrol c t cluster ps = Some (t', Err e) ->
  enrol_request t ps = Err e
  \/ (exists request i, answers _ (cluster request) i = Err e)
  \/ (exists code, e = Error.from_code code None).
Proof.
  intros Hlaw. unfold enrol. destruct ps as [|p ps]; [done|].
  destruct (enrol_request t (p :: ps)) as [request|e'] eqn:Hr; [|intros [= _ <-]; by left].
  intros [(e' & [= <-] & _ & [[i Hi]|Hc])|(response & Hcode & Hset & _)]%call_inv;
    [right; left; eauto|by right; right|].
  exfalso. rewrite Hlaw in Hcode. unfold add_code in Hcode. rewrite codes_zero in Hcode.
  unfold enrol_settle in Hset. rewrite (proj2 (first_refusal_None _ _)) in Hset.
  - unfold enrol_request in Hr. unfold lock in *. by destruct (poisoned t).
  - eapply Forall_impl; [exact Hcode|]. intros [topic results] Hps.
    eapply Forall_impl; [exact Hps|]. intros [index code] ->. by apply Hlaw.
Qed.

(** *** Witnesses *)

#[local] Instance demo_protocol : KafkaProtocol := {|
  try_from_code c :=
    if c =? 0 then None
    else if c =? 16 then Some ResponseError.NotCoordinator
    else Some ResponseError.ConcurrentTransactions;
  is_retriable _ := true;
|}.

Definition demo_call : Call :=
  {| fuel := 40; policy := Retry.default_policy; started := 0 |}.

(** Not ready twice, then the given answer; a second passes per attempt. *)
Definition demo_env {R} (busy done_ : R) : CallEnv R := {|
  answers i := if (i <? 2)%nat then Ok busy else Ok done_;
  clock i := Z.of_nat i * Retry.SECOND;
  jitter _ := 0%Q;
|}.

Definition demo_t (fenced_ : bool) : Transactions := {|
  transactional_id := "tx"; poisoned := false;
  state := {| identity_ := Some {| producer_id := 7; producer_epoch := 2 |};
              open := negb fenced_; enrolled := ∅; fenced := fenced_ |};
|}.

Definition end_busy : EndTxnResponse :=
  {| end_error_code := 16; next_producer_id := -1; next_producer_epoch := -1 |}.
Definition end_done : EndTxnResponse :=
  {| end_error_code := 0; next_producer_id := 7; next_producer_epoch := 3 |}.

Lemma fencing_is_permanent_witness :
  is_open (init_settle (demo_t true)
             {| resp_error_code := 0; resp_producer_id := 9; resp_producer_epoch := 0 |}).1 = false.
Proof.
  refine (proj1 (fencing_is_permanent (demo_t true) _ _ _ _)).
  - split; [discriminate|reflexivity].
  - reflexivity.
  - apply rtc_once, step_init.
Defined.

Lemma open_has_identity_witness :
  let t := (begin (init_settle (new "tx")
     {| resp_error_code := 0; resp_producer_id := 9; resp_producer_epoch := 0 |}).1).1 in
  is_open t = true /\ is_Some (identity t).
Proof.
  intros t. split; [reflexivity|].
  refine (proj1 (proj1 (open_has_identity "tx" t _) _)); [|reflexivity].
  eapply rtc_l; [apply step_init|]. apply rtc_once, step_begin.
Defined.

Definition add_answer (code : Z) : AddPartitionsToTxnResponse :=
  {| results_by_topic := [("orders"%string, [(0, 0); (1, code)])] |}.

Lemma enrolment_is_all_or_nothing_witness :
  exists t',
    enrol demo_call (demo_t false) (fun _ => demo_env (add_answer 16) (add_answer 0))
      [("orders"%string, 0); ("orders"%string, 1)] = Some (t', Ok tt)
    /\ unenrolled t' [("orders"%string, 0); ("orders"%string, 1)] = [].
Proof.
  assert (Hok : (fun r => is_ok r.2) <$>
     enrol demo_call (demo_t false) (fun _ => demo_env (add_answer 16) (add_answer 0))
       [("orders"%string, 0); ("orders"%string, 1)] = Some true) by (vm_compute; reflexivity).
  destruct (enrol demo_call (demo_t false) (fun _ => demo_env (add_answer 16) (add_answer 0))
       [("orders"%string, 0); ("orders"%string, 1)]) as [[t' [[]|e]]|] eqn:E;
    [|discriminate Hok|discriminate Hok].
  exists t'. split; [reflexivity|].
  exact (proj1 (enrolment_is_all_or_nothing demo_call (demo_t false) _ _ t' (Ok tt) E)).
Defined.

Lemma ending_adopts_the_next_identity_witness :
  exists t',
    end_ demo_call (demo_t false) (fun _ => demo_env end_busy end_done) true = Some (t', Ok tt)
    /\ is_open t' = false.
Proof.
  assert (Hok : (fun r => is_ok r.2) <$>
     end_ demo_call (demo_t false) (fun _ => demo_env end_busy end_done) true = Some true)
    by (vm_compute; reflexivity).
  destruct (end_ demo_call (demo_t false) (fun _ => demo_env end_busy end_done) true)
    as [[t' [[]|e]]|] eqn:E; [|discriminate Hok|discriminate Hok].
  exists t'. split; [reflexivity|].
  destruct (ending_adopts_the_next_identity demo_call (demo_t false) _ true t' E eq_refl)
    as (i & response & n & _ & _ & Ho & _).
  exact Ho.
Defined.

Lemma coordinator_call_settles_witness :
  is_Some (call_coordinator 40 Retry.default_policy 0 (demo_t false)
             (demo_env end_busy end_done) end_code).
Proof.
  destruct (coordinator_call_settles demo_call (demo_t false) (demo_env end_busy end_done)
              end_code 35) as (k & answer & _ & _ & _ & E).
  - unfold RetryFacts.wf. vm_compute. repeat split; discriminate.
  - intros i. unfold RetryFacts.drawn, Qle. vm_compute. split; discriminate.
  - vm_compute. discriminate.
  - vm_compute. lia.
  - exists (match answer with
              | Err e => (demo_t false, Err e)
              | Ok response =>
                  match from_code (end_code response) with
                  | None => (demo_t false, Ok response)
                  | Some code => (note (demo_t false) (Error.from_code code None),
                                  Err (Error.from_code code None))
                  end
              end).
    exact E.
Defined.

Lemma refusal_never_names_partition_witness :
  exists t' code,
    enrol demo_call (demo_t false) (fun _ => demo_env (add_answer 16) (add_answer 51))
      [("orders"%string, 0)] = Some (t', Err (Error.from_code code None)).
Proof.
  destruct (enrol demo_call (demo_t false) (fun _ => demo_env (add_answer 16) (add_answer 51))
      [("orders"%string, 0)]) as [[t' [[]|e]]|] eqn:E;
    [vm_compute in E; discriminate| |vm_compute in E; discriminate].
  destruct (refusal_never_names_partition demo_call (demo_t false)
              (fun _ => demo_env (add_answer 16) (add_answer 51)) [("orders"%string, 0)] t' e)
    as [Hr|[(request & i & Hi)|[code ->]]].
  - intros code. unfold from_code. simpl. destruct (Z.eqb_spec code 0) as [->|Hne];
      [split; reflexivity|]. destruct (code =? 16); (split; [discriminate|intros ->; destruct (Hne eq_refl)]).
  - exact E.
  - vm_compute in Hr. discriminate Hr.
  - simpl in Hi. destruct (i <? 2)%nat; discriminate Hi.
  - exists t', code. reflexivity.
Defined.

End TransactionsProperties.
