(* ===== verification/Encode.v ===== *)
(** The producer's configuration, its records, and their encoding into one v2
    batch ([crates/kafka-produce/src/config.rs], [record.rs], [encode.rs]).

    The byte format is [kafka_protocol]'s [RecordBatchEncoder] and the zstd codec
    is [zstd]'s: both are fields of [RecordEncoder]. *)

From S2P Require Import Prelude ErrorCodes ApiKeys Retry Idempotence BatchDecode.

Module ProducerConfig.

Inductive Acks : Type := Leader | All.

Definition wire (self : Acks) : Z :=
  match self with
  | Leader => 1
  | All => -1
  end.

Inductive Compression : Type := NoCompression | Gzip | Snappy | Lz4 | Zstd.

#[global] Instance Compression_eq_dec : EqDecision Compression.
Proof. solve_decision. Defined.

(** How a producer writes; durations are in nanoseconds. *)
Record ProducerConfig : Type := {
  acks : Acks;
  compression : Compression;
  delivery_timeout : Z;
  retry : Retry.RetryPolicy;
  linger : Z;
  batch_size : Z;
  max_request_size : Z;
  buffer_memory : Z;
  idempotent : bool;
  transactional_id : option string;
}.

Definition new : ProducerConfig := {|
  acks := All;
  compression := NoCompression;
  delivery_timeout := 30 * Retry.SECOND;
  retry := Retry.default_policy;
  linger := 0;
  batch_size := 16 * 1024;
  max_request_size := 1024 * 1024;
  buffer_memory := 32 * 1024 * 1024;
  idempotent := true;
  transactional_id := None;
|}.

(** The settings that only take a value. *)
Definition with_retry (self : ProducerConfig) (retry_ : Retry.RetryPolicy) : ProducerConfig := {|
  acks := acks self; compression := compression self; delivery_timeout := delivery_timeout self;
  retry := retry_; linger := linger self; batch_size := batch_size self;
  max_request_size := max_request_size self; buffer_memory := buffer_memory self;
  idempotent := idempotent self; transactional_id := transactional_id self |}.

Definition with_acks (self : ProducerConfig) (acks_ : Acks) : ProducerConfig := {|
  acks := acks_; compression := compression self; delivery_timeout := delivery_timeout self;
  retry := retry self; linger := linger self; batch_size := batch_size self;
  max_request_size := max_request_size self; buffer_memory := buffer_memory self;
  idempotent := idempotent self; transactional_id := transactional_id self |}.

Definition with_compression (self : ProducerConfig) (compression_ : Compression) : ProducerConfig := {|
  acks := acks self; compression := compression_; delivery_timeout := delivery_timeout self;
  retry := retry self; linger := linger self; batch_size := batch_size self;
  max_request_size := max_request_size self; buffer_memory := buffer_memory self;
  idempotent := idempotent self; transactional_id := transactional_id self |}.

Definition with_delivery_timeout (self : ProducerConfig) (timeout : Z) : ProducerConfig := {|
  acks := acks self; compression := compression self; delivery_timeout := timeout;
  retry := retry self; linger := linger self; batch_size := batch_size self;
  max_request_size := max_request_size self; buffer_memory := buffer_memory self;
  idempotent := idempotent self; transactional_id := transactional_id self |}.

Definition with_linger (self : ProducerConfig) (linger_ : Z) : ProducerConfig := {|
  acks := acks self; compression := compression self; delivery_timeout := delivery_timeout self;
  retry := retry self; linger := linger_; batch_size := batch_size self;
  max_request_size := max_request_size self; buffer_memory := buffer_memory self;
  idempotent := idempotent self; transactional_id := transactional_id self |}.

Definition with_batch_size (self : ProducerConfig) (bytes : Z) : ProducerConfig := {|
  acks := acks self; compression := compression self; delivery_timeout := delivery_timeout self;
  retry := retry self; linger := linger self; batch_size := bytes;
  max_request_size := max_request_size self; buffer_memory := buffer_memory self;
  idempotent := idempotent self; transactional_id := transactional_id self |}.

Definition with_max_request_size (self : ProducerConfig) (bytes : Z) : ProducerConfig := {|
  acks := acks self; compression := compression self; delivery_timeout := delivery_timeout self;
  retry := retry self; linger := linger self; batch_size := batch_size self;
  max_request_size := bytes; buffer_memory := buffer_memory self; idempotent := idempotent self;
  transactional_id := transactional_id self |}.

Definition with_buffer_memory (self : ProducerConfig) (bytes : Z) : ProducerConfig := {|
  acks := acks self; compression := compression self; delivery_timeout := delivery_timeout self;
  retry := retry self; linger := linger self; batch_size := batch_size self;
  max_request_size := max_request_size self; buffer_memory := bytes;
  idempotent := idempotent self; transactional_id := transactional_id self |}.

Definition with_idempotent (self : ProducerConfig) (idempotent : bool) : ProducerConfig := {|
  acks := acks self; compression := compression self;
  delivery_timeout := delivery_timeout self; retry := retry self; linger := linger self;
  batch_size := batch_size self; max_request_size := max_request_size self;
  buffer_memory := buffer_memory self; idempotent := idempotent;
  transactional_id := transactional_id self;
|}.

Definition with_transactional_id (self : ProducerConfig) (id : string) : ProducerConfig := {|
  acks := acks self; compression := compression self;
  delivery_timeout := delivery_timeout self; retry := retry self; linger := linger self;
  batch_size := batch_size self; max_request_size := max_request_size self;
  buffer_memory := buffer_memory self; idempotent := true;
  transactional_id := Some id;
|}.

Definition max_in_flight (self : ProducerConfig) : Z := if idempotent self then 5 else 1.

(** [Duration::as_millis]. *)
Definition as_millis (d : Z) : Z := d / Retry.MILLI.

Definition delivery_timeout_ms (self : ProducerConfig) : Z :=
  try_from_or I32_MAX I32_MAX (as_millis (delivery_timeout self)).

Definition buffer_memory_permits (self : ProducerConfig) : Z :=
  try_from_or USIZE_MAX USIZE_MAX (try_from_or U32_MAX U32_MAX (buffer_memory self)).

End ProducerConfig.

Module ProducerRecord.

(** What a caller hands over. *)
Record ProducerRecord : Type := {
  topic : string;
  partition : option Z;
  key : option bytes;
  value : option bytes;
  headers : list (string * option bytes);
  timestamp : option Z;
}.

(** A record with nothing but a topic. *)
Definition new_record (topic_ : string) : ProducerRecord := {|
  topic := topic_; partition := None; key := None; value := None; headers := []; timestamp := None |}.

Definition with_maybe_partition (self : ProducerRecord) (partition_ : option Z) : ProducerRecord := {|
  topic := topic self; partition := partition_; key := key self; value := value self;
  headers := headers self; timestamp := timestamp self |}.

Definition with_partition (self : ProducerRecord) (partition_ : Z) : ProducerRecord :=
  with_maybe_partition self (Some partition_).

Definition with_key (self : ProducerRecord) (key_ : bytes) : ProducerRecord := {|
  topic := topic self; partition := partition self; key := Some key_; value := value self;
  headers := headers self; timestamp := timestamp self |}.

Definition with_value (self : ProducerRecord) (value_ : bytes) : ProducerRecord := {|
  topic := topic self; partition := partition self; key := key self; value := Some value_;
  headers := headers self; timestamp := timestamp self |}.

Definition with_header (self : ProducerRecord) (name : string) (value_ : bytes) : ProducerRecord := {|
  topic := topic self; partition := partition self; key := key self; value := value self;
  headers := headers self ++ [(name, Some value_)]; timestamp := timestamp self |}.

Definition with_null_header (self : ProducerRecord) (name : string) : ProducerRecord := {|
  topic := topic self; partition := partition self; key := key self; value := value self;
  headers := headers self ++ [(name, None)]; timestamp := timestamp self |}.

Definition with_timestamp (self : ProducerRecord) (timestamp_ : Z) : ProducerRecord := {|
  topic := topic self; partition := partition self; key := key self; value := value self;
  headers := headers self; timestamp := Some timestamp_ |}.

(** What comes back. *)
Record RecordMetadata : Type := {
  md_topic : string;
  md_partition : Z;
  md_offset : Z;
  md_timestamp : option Z;
}.

End ProducerRecord.

Module Encode.
Import ProducerConfig ProducerRecord Idempotence.

Definition RECORD_BATCH_V2 : Z := 2.
Definition ZSTD_LEVEL : Z := 3.

(** [kafka_protocol]'s sentinels. *)
Definition NO_PARTITION_LEADER_EPOCH : Z := -1.
Definition NO_PRODUCER_ID : Z := -1.
Definition NO_PRODUCER_EPOCH : Z := -1.
Definition NO_SEQUENCE : Z := -1.

Definition compression_wire (self : Compression) : Batch.Compression :=
  match self with
  | NoCompression => Batch.NoCompression
  | Gzip => Batch.Gzip
  | Snappy => Batch.Snappy
  | Lz4 => Batch.Lz4
  | Zstd => Batch.Zstd
  end.

(** [kafka_protocol::records::Record] as the encoder takes it. *)
Record WireRecord : Type := {
  w_transactional : bool;
  w_control : bool;
  w_partition_leader_epoch : Z;
  w_producer_id : Z;
  w_producer_epoch : Z;
  w_timestamp_type : Batch.TimestampType;
  w_offset : Z;
  w_sequence : Z;
  w_timestamp : Z;
  w_key : option bytes;
  w_value : option bytes;
  w_headers : list (string * option bytes);
}.

(** The third-party encoder, with an optional compressor of the encoded records,
    and [zstd]'s compressor at a level. *)
Class RecordEncoder : Type := {
  kp_encode :
    list WireRecord -> Z -> Batch.Compression ->
    option (bytes -> Batch.Compression -> result bytes string) -> result bytes string;
  zstd_copy_encode : bytes -> Z -> result bytes string;
}.

(** Inserting into an [IndexMap]: a name that is present keeps its place and takes
    the new value. *)
Fixpoint index_insert (l : list (string * option bytes)) (name : string) (value : option bytes)
    : list (string * option bytes) :=
  match l with
  | [] => [(name, value)]
  | (n, v) :: l => if decide (n = name) then (n, value) :: l else (n, v) :: index_insert l name value
  end.

(** [collect::<IndexMap<_, _>>()]. *)
Definition collect_headers (l : list (string * option bytes)) : list (string * option bytes) :=
  foldl (fun acc '(name, value) => index_insert acc name value) [] l.

Definition wire_record (now : Z) (identity : option BatchIdentity) (index : nat)
    (record : ProducerRecord) : WireRecord := {|
  w_transactional := match identity with Some id => transactional id | None => false end;
  w_control := false;
  w_partition_leader_epoch := NO_PARTITION_LEADER_EPOCH;
  w_producer_id := match identity with Some id => b_producer_id id | None => NO_PRODUCER_ID end;
  w_producer_epoch :=
    match identity with Some id => b_producer_epoch id | None => NO_PRODUCER_EPOCH end;
  w_timestamp_type := Batch.Creation;
  w_offset := try_from_or I64_MAX 0 (Z.of_nat index);
  w_sequence :=
    i32_wrapping_add (match identity with Some id => base_sequence id | None => NO_SEQUENCE end)
      (try_from_or I32_MAX 0 (Z.of_nat index));
  w_timestamp := default now (timestamp record);
  w_key := key record;
  w_value := value record;
  w_headers := collect_headers (headers record);
|}.

(** Compress a batch's encoded records with zstd; another codec is refused. *)
Definition compress_zstd `{RecordEncoder} (records : bytes) (c : Batch.Compression)
    : result bytes string :=
  if decide (c = Batch.Zstd) then zstd_copy_encode records ZSTD_LEVEL
  else Err "the zstd compressor was handed another codec's batch"%string.

(** Encode records into one v2 batch. *)
Definition encode_batch `{RecordEncoder} (records : list ProducerRecord)
    (compression : Compression) (now : Z) (identity : option BatchIdentity)
    : result bytes Error.Error :=
  let wire := imap (wire_record now identity) records in
  let encoded :=
    if decide (compression = Zstd)
    then kp_encode wire RECORD_BATCH_V2 (compression_wire compression) (Some compress_zstd)
    else kp_encode wire RECORD_BATCH_V2 (compression_wire compression) None in
  match encoded with
  | Ok buffer => Ok buffer
  | Err error => Err (Error.InvalidRequest ("could not encode a record batch: " +:+ error))
  end.

End Encode.

(** ** Lemmas *)

Module EncodeFacts.
Import ProducerConfig ProducerRecord Idempotence Encode.

(** How [RecordBatchEncoder] finds the end of a batch: it goes on while the next
    record agrees with the first on every field of the header, and on the
    difference of offset and sequence. *)
Definition same_batch (a b : WireRecord) : Prop :=
  w_transactional a = w_transactional b /\ w_control a = w_control b
  /\ w_partition_leader_epoch a = w_partition_leader_epoch b
  /\ w_producer_id a = w_producer_id b /\ w_producer_epoch a = w_producer_epoch b
  /\ w_timestamp_type a = w_timestamp_type b
  /\ w_offset a - w_sequence a = w_offset b - w_sequence b.

Lemma wire_sequence now id index record :
  Z.of_nat index <= I32_MAX ->
  w_sequence (wire_record now (Some id) index record)
  = i32_wrap (base_sequence id + Z.of_nat index)
  /\ w_offset (wire_record now (Some id) index record) = Z.of_nat index.
Proof.
  intros Hi. unfold wire_record, try_from_or, i32_wrapping_add. cbn [w_sequence w_offset].
  rewrite (proj2 (Z.leb_le _ I32_MAX)) by done.
  rewrite (proj2 (Z.leb_le _ I64_MAX)) by (unfold I32_MAX, I64_MAX in *; lia). done.
Qed.

Lemma index_insert_lookup l name value n v :
  NoDup l.*1 ->
  (n, v) ∈ index_insert l name value <-> (n = name /\ v = value) \/ (n <> name /\ (n, v) ∈ l).
Proof.
  induction l as [|[n' v'] l IH]; cbn [index_insert]; intros Hnd.
  - rewrite list_elem_of_singleton. split; [intros [= -> ->]; auto|].
    intros [[-> ->]|[_ Hin]]; [done|by apply elem_of_nil in Hin].
  - apply NoDup_cons in Hnd as [Hn Hnd]. cbn [fst] in Hn. case_decide as Hd.
    + subst n'. rewrite !elem_of_cons. split.
      * intros [[= -> ->]|Hin]; [auto|right]. split; [|auto]. intros ->.
        destruct Hn. apply list_elem_of_fmap. by exists (name, v).
      * intros [[-> ->]|[Hne [[= -> ->]|Hin]]]; [by left|by destruct Hne|by right].
    + rewrite !elem_of_cons, IH by done. clear -Hd. naive_solver.
Qed.

Lemma index_insert_NoDup l name value :
  NoDup l.*1 -> NoDup (index_insert l name value).*1 /\
  forall n, n ∈ (index_insert l name value).*1 -> n = name \/ n ∈ l.*1.
Proof.
  induction l as [|[n' v'] l IH]; cbn [index_insert fmap list_fmap fst]; intros Hnd.
  - split; [apply NoDup_singleton|]. intros n. rewrite list_elem_of_singleton. auto.
  - apply NoDup_cons in Hnd as [Hn Hnd]. case_decide as Hd; cbn [fmap list_fmap fst].
    + split; [by apply NoDup_cons|]. auto.
    + destruct (IH Hnd) as [IH1 IH2]. split.
      * apply NoDup_cons. split; [|done]. intros [->|Hin]%IH2; done.
      * intros n. rewrite !elem_of_cons. intros [->|[->|Hin]%IH2]; auto.
Qed.

(** The last value given to a name. *)
Definition last_value (name : string) (l : list (string * option bytes)) : option (option bytes) :=
  snd <$> last (filter (fun h => h.1 = name) l).

Lemma collect_headers_spec l :
  NoDup (collect_headers l).*1
  /\ forall name v, (name, v) ∈ collect_headers l <-> last_value name l = Some v.
Proof.
  unfold collect_headers, last_value. induction l as [|[n x] l [IH1 IH2]] using rev_ind.
  - split; [constructor|]. intros name v. split; [intros Hin; by apply elem_of_nil in Hin|done].
  - rewrite foldl_snoc. split; [by apply index_insert_NoDup|]. intros name v.
    rewrite index_insert_lookup, IH2 by done. rewrite filter_app, filter_cons. cbn [fst].
    case_decide as Hd.
    + subst n. rewrite filter_nil, last_snoc. simpl. naive_solver.
    + rewrite filter_nil, app_nil_r. naive_solver.
Qed.

End EncodeFacts.

(** ** Properties *)

Module EncodeProperties.
Import ProducerConfig ProducerRecord Idempotence Encode EncodeFacts.

(** The records of one batch are numbered so
    that the encoder writes them as one batch: record [i] has offset [i] and
    sequence base plus [i] (wrapped to 32 bits), and as long as the batch's
    sequences do not cross the 32-bit wrap every record agrees with the first on
    all that ends a batch; a timestamp the caller did not choose is the batch's
    one clock reading; and of a header name that repeats exactly the last value is
    written. *)
Theorem encoded_records_are_one_batch records now id i record :
  Z.of_nat (length records) <= I32_MAX ->
  in_i32 (base_sequence id) -> base_sequence id + Z.of_nat (length records) <= I32_MAX + 1 ->
  records !! i = Some record ->
  exists w first,
    imap (wire_record now (Some id)) records !! i = Some w
    /\ imap (wire_record now (Some id)) records !! 0%nat = Some first
    /\ same_batch first w
    /\ w_offset w = Z.of_nat i /\ w_sequence w = base_sequence id + Z.of_nat i
    /\ w_timestamp w = default now (timestamp record)
    /\ NoDup (w_headers w).*1
    /\ forall name v, (name, v) ∈ w_headers w <-> last_value name (headers record) = Some v.
Proof.
  intros Hlen Hbase Hroom Hi. pose proof (lookup_lt_Some _ _ _ Hi) as Hlt.
  destruct records as [|r0 records]; [done|].
  exists (wire_record now (Some id) i record), (wire_record now (Some id) 0 r0).
  rewrite !list_lookup_imap, Hi. cbn [lookup list_lookup fmap option_fmap option_map].
  destruct (wire_sequence now id i record) as [Hs Ho]; [lia|].
  destruct (wire_sequence now id 0 r0) as [Hs0 Ho0]; [lia|].
  unfold in_i32 in Hbase. unfold I32_MAX, I32_MIN in *.
  rewrite i32_wrap_small in Hs, Hs0 by (unfold in_i32, I32_MAX, I32_MIN; lia).
  split_and!; [done|done| |done|done|done|apply collect_headers_spec..].
  unfold same_batch. rewrite Hs, Ho, Hs0, Ho0. split_and!; try done. lia.
Qed.

Definition demo_record (h : list (string * option bytes)) : ProducerRecord :=
  {| topic := "t"; partition := None; key := None; value := None; headers := h;
     timestamp := None |}.

Lemma encoded_records_are_one_batch_witness :
  exists w, imap (wire_record 5 (Some {| b_producer_id := 7; b_producer_epoch := 0;
                                         base_sequence := 40; transactional := false |}))
              [demo_record []; demo_record [("a"%string, None); ("a"%string, Some [])]]
              !! 1%nat = Some w
    /\ w_sequence w = 41.
Proof.
  destruct (encoded_records_are_one_batch
              [demo_record []; demo_record [("a"%string, None); ("a"%string, Some [])]] 5
              {| b_producer_id := 7; b_producer_epoch := 0; base_sequence := 40;
                 transactional := false |} 1
              (demo_record [("a"%string, None); ("a"%string, Some [])]))
    as (w & first & Hw & _ & _ & _ & Hs & _).
  - vm_compute. discriminate.
  - unfold in_i32. vm_compute. split; discriminate.
  - vm_compute. discriminate.
  - reflexivity.
  - exists w. split; [exact Hw|exact Hs].
Defined.

End EncodeProperties.
