(* ===== verification/Dispatch.v ===== *)
(** One [Produce] round trip and its retries ([crates/kafka-produce/src/dispatch.rs]).

    The cluster handle, the connection, the clock and the jitter are the record
    [Net] over an abstract world [W]: a call takes the world and returns the next
    one with its answer.  Requests to different leaders, which the code awaits
    together, are made one after the other; nothing below depends on their
    order. *)

From S2P Require Import Prelude Sanitize ErrorCodes ApiKeys Retry Idempotence BatchDecode Encode.
From Stdlib Require Import QArith.
Open Scope Z_scope.

Module Dispatch.
Import ProducerConfig.

Definition PRODUCE_TOPIC_ID_VERSION : Z := 13.

(** One partition's encoded batch, waiting for the wire. *)
Record Outbound : Type := {
  topic : string;
  partition : Z;
  encoded : bytes;
  deadline : Z;
}.

Definition key (self : Outbound) : string * Z := (topic self, partition self).

(** What the broker said about one partition's batch. *)
Record Ack : Type := {
  base_offset : Z;
  log_append_time_ms : option Z;
}.

(** Why one attempt failed. *)
Inductive Attempt : Type :=
  | Rejected (error : Error.Error)
  | Ambiguous (error : Error.Error).

Definition into_error (self : Attempt) : Error.Error :=
  match self with
  | Rejected error | Ambiguous error => error
  end.

(** ** The messages *)

Record PartitionProduceData : Type := { pp_index : Z; pp_records : option bytes }.

Record TopicProduceData : Type := {
  tp_name : string;
  tp_topic_id : bytes;
  tp_partition_data : list PartitionProduceData;
}.

Record ProduceRequest : Type := {
  pr_transactional_id : option string;
  pr_acks : Z;
  pr_timeout_ms : Z;
  pr_topic_data : list TopicProduceData;
}.

Record PartitionProduceResponse : Type := {
  index : Z;
  error_code : Z;
  error_message : option text;
  resp_base_offset : Z;
  resp_log_append_time_ms : Z;
}.

Record TopicProduceResponse : Type := {
  name : string;
  topic_id : bytes;
  partition_responses : list PartitionProduceResponse;
}.

Record ProduceResponse : Type := { responses : list TopicProduceResponse }.

(** ** The world a dispatcher acts on *)

Record Net (W : Type) : Type := {
  now : W -> W * Z;
  jitter : W -> W * Q;
  sleep_until : W -> Z -> W;
  leader_for : W -> string -> Z -> W * result Z Error.Error;
  negotiated_for : W -> W * result Z Error.Error;
  snapshot_topic_id : W -> string -> option bytes;
  refresh_topic_id : W -> string -> W * result (option bytes) Error.Error;
  pool_get : W -> Z -> W * result unit Error.Error;
  send : W -> Z -> ProduceRequest -> W * result ProduceResponse Error.Error;
  invalidate : W -> W;
}.
Arguments now {W}.
Arguments jitter {W}.
Arguments sleep_until {W}.
Arguments leader_for {W}.
Arguments negotiated_for {W}.
Arguments snapshot_topic_id {W}.
Arguments refresh_topic_id {W}.
Arguments pool_get {W}.
Arguments send {W}.
Arguments invalidate {W}.

Section dispatch.
Context `{KafkaProtocol} {W : Type} (net : Net W) (config : ProducerConfig).

(** Whether another attempt is allowed: the delivery deadline outranks both
    budgets, a moved leader is bounded by time and anything else by attempts, and
    an ambiguous failure may only be repeated under idempotence. *)
Definition retriable (w : W) (self : Attempt) (attempt started : Z) (policy : Retry.RetryPolicy)
    (idempotent : bool) (deadline : Z) : W * bool :=
  let error := into_error self in
  let '(w, t) := now net w in
  if deadline <=? t then (w, false)
  else
    let '(w, budget_left) :=
      if Error.needs_metadata_refresh error then
        let '(w, t) := now net w in
        (w, Z.max 0 (t - started) <? Retry.coordinator_timeout policy)
      else (w, Retry.should_retry policy attempt) in
    (w, match self with
        | Rejected _ => Error.retriable error && budget_left
        | Ambiguous _ => idempotent && Error.retriable error && budget_left
        end).

(** One batch's outcome in a round, the batch handed back with a failure. *)
Definition Item : Type := ((string * Z) * result Ack Attempt) * option Outbound.

(** ** Building a request *)

(** The topic's uuid, as the metadata cache knows it. *)
Definition lookup_topic_id (w : W) (topic : string) : W * result bytes Error.Error :=
  match snapshot_topic_id net w topic with
  | Some id => (w, Ok id)
  | None =>
      let '(w, refreshed) := refresh_topic_id net w topic in
      (w, let? found := refreshed in
          ok_or found
            (Error.from_code ErrorCode.UnknownTopicOrPartition (Some (text_of_string topic))))
  end.

Definition ZERO_ID : bytes := replicate 16 Byte.x00.

(** The topics of the request, each under exactly the field this version has. *)
Fixpoint build_topics (w : W) (version : Z) (by_topic : list (string * list PartitionProduceData))
    : W * result (list TopicProduceData) Error.Error :=
  match by_topic with
  | [] => (w, Ok [])
  | (topic, partitions) :: rest =>
      let '(w, designated) :=
        if PRODUCE_TOPIC_ID_VERSION <=? version then
          let '(w, id) := lookup_topic_id w topic in
          (w, let? id := id in
              if decide (id = ZERO_ID)
              then Err (Error.InvalidRequest
                          (topic +:+ ": Produce v" +:+ pretty version
                           +:+ " identifies topics by id, and no topic id is known"))
              else Ok (""%string, id))
        else (w, Ok (topic, ZERO_ID)) in
      match designated with
      | Err e => (w, Err e)
      | Ok (name, id) =>
          let '(w, rest) := build_topics w version rest in
          (w, let? rest := rest in
              Ok ({| tp_name := name; tp_topic_id := id; tp_partition_data := partitions |} :: rest))
      end
  end.

(** The broker's budget: what remains of the nearest deadline, never more than the
    configured timeout. *)
Definition request_timeout_ms (remaining : Z) : Z :=
  Z.max (Z.min (try_from_or I32_MAX I32_MAX (as_millis remaining)) (delivery_timeout_ms config)) 0.

Definition build_request (w : W) (group : list Outbound) (version : Z)
    : W * result ProduceRequest Error.Error :=
  let by_topic :=
    foldl (fun m outbound =>
             push_to m (topic outbound)
               {| pp_index := partition outbound; pp_records := Some (encoded outbound) |})
      (∅ : gmap string _) group in
  let '(w, topic_data) := build_topics w version (map_to_list by_topic) in
  match topic_data with
  | Err e => (w, Err e)
  | Ok topic_data =>
      let '(w, remaining) :=
        match list_min (map deadline group) with
        | Some deadline => let '(w, t) := now net w in (w, Z.max 0 (deadline - t))
        | None => (w, delivery_timeout config)
        end in
      (w, Ok {| pr_transactional_id := transactional_id config;
                pr_acks := wire (acks config);
                pr_timeout_ms := request_timeout_ms remaining;
                pr_topic_data := topic_data |})
  end.

(** ** Reading a response *)

(** The answers, by partition index; a later one replaces an earlier one. *)
Definition answers (response : ProduceResponse) : gmap Z PartitionProduceResponse :=
  foldl (fun m p => <[index p := p]> m) ∅
    (flat_map partition_responses (responses response)).

Definition read_one (answers : gmap Z PartitionProduceResponse) (outbound : Outbound) : Item :=
  match answers !! partition outbound with
  | Some p =>
      match ErrorCode.from_code (error_code p) with
      | Some code =>
          (key outbound, Err (Rejected (Error.from_code code (error_message p))), Some outbound)
      | None =>
          (key outbound,
           Ok {| base_offset := resp_base_offset p;
                 log_append_time_ms :=
                   if 0 <=? resp_log_append_time_ms p
                   then Some (resp_log_append_time_ms p) else None |}, None)
      end
  | None =>
      (key outbound,
       Err (Ambiguous (Error.InvalidRequest
              (topic outbound +:+ "-" +:+ pretty (partition outbound)
               +:+ ": the broker did not answer a partition we sent"))), Some outbound)
  end.

Definition read_response (response : ProduceResponse) (group : list Outbound) : list Item :=
  map (read_one (answers response)) group.

(** ** Sending *)

(** A failure that applies to the whole group: each batch gets a clone of the
    error. *)
Definition fail_group (kind : Error.Error -> Attempt) (error : Error.Error)
    (group : list Outbound) : list Item :=
  map (fun outbound => (key outbound, Err (kind (Error.clone error)), Some outbound)) group.

(** One request carrying every batch bound for one broker: a failure before the
    request is on the wire is a rejection, one after is ambiguous. *)
Definition send_to (w : W) (leader : Z) (group : list Outbound) : W * list Item :=
  let '(w, version) := negotiated_for net w in
  match version with
  | Err error => (w, fail_group Rejected error group)
  | Ok version =>
      let '(w, request) := build_request w group version in
      match request with
      | Err error => (w, fail_group Rejected error group)
      | Ok request =>
          let '(w, connection) := pool_get net w leader in
          match connection with
          | Err error => (w, fail_group Rejected error group)
          | Ok _ =>
              let '(w, response) := send net w leader request in
              match response with
              | Ok response => (w, read_response response group)
              | Err error => (w, fail_group Ambiguous error group)
              end
          end
      end
  end.

(** Route every batch: the groups by leader, and the batches that have none. *)
Fixpoint route (w : W) (batches : list Outbound) (groups : gmap Z (list Outbound))
    (results : list Item) : W * gmap Z (list Outbound) * list Item :=
  match batches with
  | [] => (w, groups, results)
  | outbound :: batches =>
      let '(w, leader) := leader_for net w (topic outbound) (partition outbound) in
      match leader with
      | Ok leader => route w batches (push_to groups leader outbound) results
      | Err error =>
          route w batches groups
            (results ++ [(key outbound, Err (Rejected error), Some outbound)])
      end
  end.

Fixpoint send_groups (w : W) (groups : list (Z * list Outbound)) : W * list Item :=
  match groups with
  | [] => (w, [])
  | (leader, group) :: groups =>
      let '(w, items) := send_to w leader group in
      let '(w, rest) := send_groups w groups in
      (w, items ++ rest)
  end.

(** One pass over the batches. *)
Definition round (w : W) (batches : list Outbound) : W * list Item :=
  let '(w, groups, results) := route w batches ∅ [] in
  let '(w, sent) := send_groups w (map_to_list groups) in
  (w, results ++ sent).

(** ** The retry loop *)

Definition Resolved : Type := (string * Z) * result Ack Error.Error.

(** What a round's items do: those that are resolved, those that are retried, and
    whether the metadata should be refreshed. *)
Fixpoint settle_round (w : W) (attempt started : Z) (items : list Item)
    : W * list Resolved * list Outbound * bool :=
  match items with
  | [] => (w, [], [], false)
  | (key, Ok ack, _) :: items =>
      let '(w, resolved, retry, refresh) := settle_round w attempt started items in
      (w, (key, Ok ack) :: resolved, retry, refresh)
  | (key, Err failure, outbound) :: items =>
      let '(w, deadline) :=
        match outbound with
        | Some outbound => (w, deadline outbound)
        | None => now net w
        end in
      let '(w, may_retry) :=
        retriable w failure attempt started (retry config) (idempotent config) deadline in
      let '(w, resolved, retry, refresh) := settle_round w attempt started items in
      let refresh := Error.needs_metadata_refresh (into_error failure) || refresh in
      match may_retry, outbound with
      | true, Some outbound => (w, resolved, outbound :: retry, refresh)
      | _, _ => (w, (key, Err (into_error failure)) :: resolved, retry, refresh)
      end
  end.

(** The pause before the next round. *)
Definition pause (w : W) (attempt : Z) (retry : list Outbound) : W :=
  let '(w, sample) := jitter net w in
  let delay := Retry.delay (ProducerConfig.retry config) sample (u32_saturating_add attempt 1) in
  if delay =? 0 then w
  else
    let '(w, t) := now net w in
    match list_min (map deadline retry) with
    | Some nearest => sleep_until net w (Z.min nearest (t + delay))
    | None => sleep_until net w (t + delay)
    end.

(** [while !pending.is_empty()]; [None] when the fuel runs out. *)
Fixpoint dispatch_loop (fuel : nat) (w : W) (pending : list Outbound) (attempt started : Z)
    (resolved : list Resolved) : option (W * list Resolved) :=
  match fuel with
  | O => None
  | S fuel =>
      match pending with
      | [] => Some (w, resolved)
      | _ =>
          let '(w, items) := round w pending in
          let '(w, done_, retry, refresh) := settle_round w attempt started items in
          match retry with
          | [] => Some (w, resolved ++ done_)
          | _ =>
              let w := if refresh then invalidate net w else w in
              let w := pause w attempt retry in
              dispatch_loop fuel w retry (u32_saturating_add attempt 1) started (resolved ++ done_)
          end
      end
  end.

(** Send every batch, and return a result for each. *)
Definition dispatch (fuel : nat) (w : W) (batches : list Outbound)
    : option (W * list Resolved) :=
  let '(w, started) := now net w in
  dispatch_loop fuel w batches 1 started [].

End dispatch.

End Dispatch.
