(* ===== verification/DispatchFacts.v ===== *)
(** Lemmas and properties of the dispatcher: one result per batch, termination,
    and which failures are ever sent again. *)

From S2P Require Import Prelude Sanitize ErrorCodes ApiKeys Retry Idempotence BatchDecode Encode Dispatch.
From Stdlib Require Import QArith.
Open Scope Z_scope.

(** ** Specifications *)

Module DispatchSpec.
Import ProducerConfig Dispatch.

Section spec.
Context `{KafkaProtocol} {W : Type} (net : Net W) (config : ProducerConfig).

(** The rounds a dispatch makes: for each, the outcome of every batch sent in it. *)
Fixpoint rounds (fuel : nat) (w : W) (pending : list Outbound) (attempt started : Z)
    : list (list Item) :=
  match fuel with
  | O => []
  | S fuel =>
      match pending with
      | [] => []
      | _ =>
          let '(w, items) := round net config w pending in
          let '(w, _, retry, refresh) := settle_round net config w attempt started items in
          items ::
          match retry with
          | [] => []
          | _ =>
              let w := if refresh then invalidate net w else w in
              rounds fuel (pause net config w attempt retry) retry
                (u32_saturating_add attempt 1) started
          end
      end
  end.

Definition dispatch_rounds (fuel : nat) (w : W) (batches : list Outbound) : list (list Item) :=
  let '(w, started) := now net w in
  rounds fuel w batches 1 started.

End spec.

(** The batch an item is about. *)
Definition item_key (it : Item) : string * Z := it.1.1.

(** A failure hands its batch back, a success does not. *)
Definition item_ok (it : Item) : Prop :=
  match it.1.2, it.2 with
  | Err _, Some outbound => key outbound = item_key it
  | Ok _, None => True
  | _, _ => False
  end.

(** A world with a clock: nothing turns it back, a reading is never before it, and
    routing a batch takes time. *)
Record Clocked {W} (net : Net W) (clock : W -> Z) : Prop := {
  clk_now : forall w, clock w <= (now net w).2 <= clock (now net w).1;
  clk_jitter : forall w, clock w <= clock (jitter net w).1;
  clk_sleep : forall w t, clock w <= clock (sleep_until net w t);
  clk_leader : forall w t p, clock w < clock (leader_for net w t p).1;
  clk_negotiated : forall w, clock w <= clock (negotiated_for net w).1;
  clk_refresh : forall w t, clock w <= clock (refresh_topic_id net w t).1;
  clk_pool : forall w l, clock w <= clock (pool_get net w l).1;
  clk_send : forall w l r, clock w <= clock (send net w l r).1;
  clk_invalidate : forall w, clock w <= clock (invalidate net w);
}.

End DispatchSpec.

(** ** Lemmas *)

Module DispatchFacts.
Import ProducerConfig Dispatch DispatchSpec.

Section keys.
Context `{KafkaProtocol} {W : Type} (net : Net W) (config : ProducerConfig).

Lemma read_one_ok m o : item_ok (read_one m o) /\ item_key (read_one m o) = key o.
Proof.
  unfold read_one. destruct (m !! partition o) as [p|]; [|done].
  by destruct (ErrorCode.from_code (error_code p)).
Qed.

Lemma fail_group_ok kind e group : Forall item_ok (fail_group kind e group).
Proof. apply list.Forall_fmap, Forall_true. done. Qed.

Lemma fail_group_keys kind e group : map item_key (fail_group kind e group) = map key group.
Proof. unfold fail_group. rewrite map_map. done. Qed.

Lemma send_to_ok w leader group :
  Forall item_ok (send_to net config w leader group).2
  /\ map item_key (send_to net config w leader group).2 = map key group.
Proof.
  assert (Hf : forall kind e, Forall item_ok (fail_group kind e group)
                 /\ map item_key (fail_group kind e group) = map key group).
  { intros kind e. split; [apply fail_group_ok|apply fail_group_keys]. }
  unfold send_to.
  destruct (negotiated_for net w) as [w1 [version|e]]; [|apply Hf].
  destruct (build_request net config w1 group version) as [w2 [request|e]]; [|apply Hf].
  destruct (pool_get net w2 leader) as [w3 [[]|e]]; [|apply Hf].
  destruct (send net w3 leader request) as [w4 [response|e]]; [|apply Hf].
  cbn [snd]. unfold read_response. split.
  - apply list.Forall_fmap, Forall_true. intros o. apply read_one_ok.
  - rewrite map_map. apply map_ext. intros o. apply read_one_ok.
Qed.

Lemma send_groups_ok groups : forall w,
  Forall item_ok (send_groups net config w groups).2
  /\ map item_key (send_groups net config w groups).2
     = map (fun x => key x.2) (flat_map (fun '(k, l) => map (pair k) l) groups).
Proof.
  induction groups as [|[leader group] groups IH]; intros w; cbn [send_groups]; [done|].
  pose proof (send_to_ok w leader group) as [H1 H2].
  destruct (send_to net config w leader group) as [w1 items].
  pose proof (IH w1) as [H3 H4]. destruct (send_groups net config w1 groups) as [w2 rest].
  cbn [snd flat_map] in *. split; [by apply Forall_app|].
  by rewrite !map_app, H2, H4, map_map.
Qed.

Lemma route_ok batches : forall w groups results,
  Forall item_ok results ->
  let '(_, groups', results') := route net w batches groups results in
  Forall item_ok results'
  /\ map item_key results' ++ map (fun x => key x.2) (flat groups')
     ≡ₚ map item_key results ++ map (fun x => key x.2) (flat groups) ++ map key batches.
Proof.
  induction batches as [|o batches IH]; intros w groups results Hr; cbn [route].
  { split; [done|]. simpl. by rewrite app_nil_r. }
  destruct (leader_for net w (topic o) (partition o)) as [w1 [leader|e]].
  - specialize (IH w1 (push_to groups leader o) results Hr).
    destruct (route _ _ _ _ _) as [[w2 groups'] results']. destruct IH as [H1 H2].
    split; [done|]. rewrite H2, flat_push, map_app. simpl. solve_Permutation.
  - specialize (IH w1 groups (results ++ [(key o, Err (Rejected e), Some o)])).
    destruct (route _ _ _ _ _) as [[w2 groups'] results']. destruct IH as [H1 H2].
    { apply Forall_app. split; [done|]. by constructor. }
    split; [done|]. rewrite H2, map_app. simpl. solve_Permutation.
Qed.

(** A round reports each of its batches once. *)
Lemma round_ok w batches :
  Forall item_ok (round net config w batches).2
  /\ map item_key (round net config w batches).2 ≡ₚ map key batches.
Proof.
  unfold round. pose proof (route_ok batches w ∅ []) as Hr.
  destruct (route net w batches ∅ []) as [[w1 groups] results].
  destruct Hr as [H1 H2]; [constructor|].
  pose proof (send_groups_ok (map_to_list groups) w1) as [H3 H4].
  destruct (send_groups net config w1 (map_to_list groups)) as [w2 sent].
  cbn [snd] in *. split; [by apply Forall_app|].
  rewrite map_app, H4. fold (flat groups). rewrite H2, flat_empty. done.
Qed.

(** Settling splits the batches of a round into the resolved and the retried. *)
Lemma settle_round_ok items : forall w attempt started,
  Forall item_ok items ->
  let '(_, resolved, retry, _) := settle_round net config w attempt started items in
  map fst resolved ++ map key retry ≡ₚ map item_key items.
Proof.
  induction items as [|[[k outcome] outbound] items IH]; intros w attempt started Hok; [simpl; reflexivity|].
  apply Forall_cons in Hok as [Hit Hok]. cbn [settle_round].
  destruct outcome as [ack|failure].
  - specialize (IH w attempt started Hok).
    destruct (settle_round net config w attempt started items) as [[[w1 resolved] rs] refresh].
    simpl. by rewrite IH.
  - destruct (match outbound with Some _ => _ | None => _ end) as [w1 dl].
    destruct (retriable _ _ _ _ _ _ _ _) as [w2 may].
    specialize (IH w2 attempt started Hok).
    destruct (settle_round net config w2 attempt started items) as [[[w3 resolved] rs] refresh].
    destruct outbound as [o|]; [|done]. unfold item_ok in Hit. cbn [fst snd] in Hit.
    destruct may; simpl; rewrite <- IH; [rewrite Hit; solve_Permutation|reflexivity].
Qed.

Lemma dispatch_loop_keys fuel : forall w pending attempt started resolved w' out,
  dispatch_loop net config fuel w pending attempt started resolved = Some (w', out) ->
  map fst out ≡ₚ map fst resolved ++ map key pending.
Proof.
  induction fuel as [|fuel IH]; intros w pending attempt started resolved w' out; [done|].
  cbn [dispatch_loop]. destruct pending as [|p pending].
  { intros [= _ <-]. by rewrite app_nil_r. }
  pose proof (round_ok w (p :: pending)) as [H1 H2].
  destruct (round net config w (p :: pending)) as [w1 items]. cbn [snd] in *.
  pose proof (settle_round_ok items w1 attempt started H1) as H3.
  destruct (settle_round net config w1 attempt started items) as [[[w2 done_] rs] refresh].
  destruct rs as [|r rs].
  - intros [= _ <-]. rewrite map_app, <- H2, <- H3. simpl. by rewrite app_nil_r.
  - intros Hl%IH. rewrite Hl, map_app, <- H2, <- H3. by rewrite app_assoc.
Qed.

End keys.

(** *** Where the batches of a round come from *)

Section batches.
Context `{KafkaProtocol} {W : Type} (net : Net W) (config : ProducerConfig) (P : Outbound -> Prop).

(** The batch an item hands back satisfies [P]. *)
Definition back (it : Item) : Prop := forall o, it.2 = Some o -> P o.

Lemma back_map f group :
  (forall o, P o -> back (f o)) -> Forall P group -> Forall back (map f group).
Proof. intros Hf HP. apply list.Forall_fmap. eapply Forall_impl; [exact HP|]. intros o. apply Hf. Qed.

Lemma send_to_back w leader group :
  Forall P group -> Forall back (send_to net config w leader group).2.
Proof.
  intros HP.
  assert (Hf : forall kind e, Forall back (fail_group kind e group)).
  { intros kind e. apply back_map; [|done]. by intros o Ho o' [= <-]. }
  unfold send_to.
  destruct (negotiated_for net w) as [w1 [version|e]]; [|apply Hf].
  destruct (build_request net config w1 group version) as [w2 [request|e]]; [|apply Hf].
  destruct (pool_get net w2 leader) as [w3 [[]|e]]; [|apply Hf].
  destruct (send net w3 leader request) as [w4 [response|e]]; [|apply Hf].
  apply back_map; [|done]. intros o Ho o'. unfold read_one.
  destruct (_ !! _) as [p|]; [destruct (ErrorCode.from_code _)|]; simpl; congruence.
Qed.

Lemma send_groups_back groups : forall w,
  Forall (fun g => Forall P g.2) groups -> Forall back (send_groups net config w groups).2.
Proof.
  induction groups as [|[leader group] groups IH]; intros w HP; cbn [send_groups]; [constructor|].
  apply Forall_cons in HP as [Hg HP]. pose proof (send_to_back w leader group Hg) as H1.
  destruct (send_to net config w leader group) as [w1 items]. pose proof (IH w1 HP) as H2.
  destruct (send_groups net config w1 groups) as [w2 rest]. by apply Forall_app.
Qed.

Lemma push_to_Forall (groups : gmap Z (list Outbound)) leader o :
  map_Forall (fun _ g => Forall P g) groups -> P o ->
  map_Forall (fun _ g => Forall P g) (push_to groups leader o).
Proof.
  intros Hg Ho l g. unfold push_to. rewrite lookup_partial_alter.
  case_decide as Hd; [|apply Hg]. intros [= <-]. apply Forall_app. split; [|by constructor].
  subst l. destruct (groups !! leader) as [g|] eqn:E; simpl; [by eapply Hg|constructor].
Qed.

Lemma route_back batches : forall w groups results,
  Forall P batches -> map_Forall (fun _ g => Forall P g) groups -> Forall back results ->
  let '(_, groups', results') := route net w batches groups results in
  map_Forall (fun _ g => Forall P g) groups' /\ Forall back results'.
Proof.
  induction batches as [|o batches IH]; intros w groups results Hb Hg Hr; cbn [route]; [done|].
  apply Forall_cons in Hb as [Ho Hb].
  destruct (leader_for net w (topic o) (partition o)) as [w1 [leader|e]].
  - apply IH; [done|by apply push_to_Forall|done].
  - apply IH; [done|done|]. apply Forall_app. split; [done|]. constructor; [|constructor].
    by intros o' [= <-].
Qed.

Lemma round_back w batches : Forall P batches -> Forall back (round net config w batches).2.
Proof.
  intros HP. unfold round. pose proof (route_back batches w ∅ [] HP) as Hr.
  destruct (route net w batches ∅ []) as [[w1 groups] results].
  destruct Hr as [Hg Hres]; [apply map_Forall_empty|constructor|].
  pose proof (send_groups_back (map_to_list groups) w1) as H2.
  destruct (send_groups net config w1 (map_to_list groups)) as [w2 sent].
  apply Forall_app. split; [done|]. apply H2.
  apply map_Forall_to_list in Hg. eapply Forall_impl; [exact Hg|]. by intros [].
Qed.

Lemma settle_round_back items : forall w attempt started,
  Forall back items -> Forall P (settle_round net config w attempt started items).1.2.
Proof.
  induction items as [|[[k outcome] outbound] items IH]; intros w attempt started Hb;
    cbn [settle_round]; [constructor|].
  apply Forall_cons in Hb as [Hit Hb]. destruct outcome as [ack|failure].
  - specialize (IH w attempt started Hb).
    by destruct (settle_round net config w attempt started items) as [[[w1 resolved] rs] refresh].
  - destruct (match outbound with Some _ => _ | None => _ end) as [w1 dl].
    destruct (retriable _ _ _ _ _ _ _ _) as [w2 may].
    specialize (IH w2 attempt started Hb).
    destruct (settle_round net config w2 attempt started items) as [[[w3 resolved] rs] refresh].
    destruct may, outbound as [o|]; [|done..]. constructor; [by apply Hit|done].
Qed.

End batches.

(** *** Time *)

Section time.
Context `{KafkaProtocol} {W : Type} (net : Net W) (config : ProducerConfig).
Context (clock : W -> Z) (Hclk : Clocked net clock).

Lemma now_clock w : clock w <= clock (now net w).1.
Proof using Hclk. pose proof (clk_now _ _ Hclk w). lia. Qed.

Lemma retriable_clock w failure attempt started policy idem dl :
  clock w <= clock (retriable net w failure attempt started policy idem dl).1
  /\ (dl <= clock w -> (retriable net w failure attempt started policy idem dl).2 = false).
Proof using Hclk.
  unfold retriable. pose proof (clk_now _ _ Hclk w) as H1.
  destruct (now net w) as [w1 t]. cbn [fst snd] in H1.
  destruct (Z.leb_spec dl t) as [Hle|Hlt]; [split; [simpl; lia|done]|].
  destruct (Error.needs_metadata_refresh _).
  - pose proof (now_clock w1). destruct (now net w1) as [w2 t2]. simpl in *. split; lia.
  - simpl. split; lia.
Qed.

Lemma build_topics_clock l : forall w version, clock w <= clock (build_topics net w version l).1.
Proof using Hclk.
  induction l as [|[t ps] l IH]; intros w version; cbn [build_topics]; [simpl; lia|].
  match goal with |- context [let '(_, _) := ?d in _] =>
    assert (Hd : clock w <= clock d.1); [|destruct d as [w1 [[nm i]|e]]] end.
  - destruct (PRODUCE_TOPIC_ID_VERSION <=? version); [|simpl; lia].
    unfold lookup_topic_id. destruct (snapshot_topic_id net w t) as [i|]; [simpl; lia|].
    pose proof (clk_refresh _ _ Hclk w t). by destruct (refresh_topic_id net w t) as [w1 r].
  - specialize (IH w1 version). destruct (build_topics net w1 version l). simpl in *. lia.
  - done.
Qed.

Lemma build_request_clock w group version :
  clock w <= clock (build_request net config w group version).1.
Proof using Hclk.
  unfold build_request.
  match goal with |- context [build_topics net w version ?l] =>
    pose proof (build_topics_clock l w version) as H1; destruct (build_topics net w version l) as [w1 td]
  end.
  cbn [fst] in H1. destruct td as [td|e]; [|done].
  destruct (list_min _); [|done]. pose proof (now_clock w1).
  destruct (now net w1) as [w2 t]. simpl in *. lia.
Qed.

Lemma send_to_clock w leader group : clock w <= clock (send_to net config w leader group).1.
Proof using Hclk.
  unfold send_to. pose proof (clk_negotiated _ _ Hclk w).
  destruct (negotiated_for net w) as [w1 [version|e]]; [|done]. cbn [fst] in *.
  pose proof (build_request_clock w1 group version).
  destruct (build_request net config w1 group version) as [w2 [request|e]]; [|simpl in *; lia].
  cbn [fst] in *. pose proof (clk_pool _ _ Hclk w2 leader).
  destruct (pool_get net w2 leader) as [w3 [[]|e]]; [|simpl in *; lia]. cbn [fst] in *.
  pose proof (clk_send _ _ Hclk w3 leader request).
  destruct (send net w3 leader request) as [w4 [response|e]]; simpl in *; lia.
Qed.

Lemma send_groups_clock groups : forall w, clock w <= clock (send_groups net config w groups).1.
Proof using Hclk.
  induction groups as [|[leader group] groups IH]; intros w; cbn [send_groups]; [simpl; lia|].
  pose proof (send_to_clock w leader group). destruct (send_to net config w leader group) as [w1 items].
  specialize (IH w1). destruct (send_groups net config w1 groups). simpl in *. lia.
Qed.

Lemma route_clock batches : forall w groups results,
  clock w <= clock (route net w batches groups results).1.1
  /\ (batches <> [] -> clock w < clock (route net w batches groups results).1.1).
Proof using Hclk.
  induction batches as [|o batches IH]; intros w groups results; cbn [route]; [split; [simpl; lia|done]|].
  pose proof (clk_leader _ _ Hclk w (topic o) (partition o)).
  destruct (leader_for net w (topic o) (partition o)) as [w1 [leader|e]]; cbn [fst] in *;
    [destruct (IH w1 (push_to groups leader o) results) as [H1 _]
    |destruct (IH w1 groups (results ++ [(key o, Err (Rejected e), Some o)])) as [H1 _]];
    split; lia.
Qed.

Lemma round_clock w batches :
  batches <> [] -> clock w < clock (round net config w batches).1.
Proof using Hclk.
  intros Hne. unfold round. pose proof (proj2 (route_clock batches w ∅ []) Hne) as H1.
  destruct (route net w batches ∅ []) as [[w1 groups] results].
  pose proof (send_groups_clock (map_to_list groups) w1).
  destruct (send_groups net config w1 (map_to_list groups)). simpl in *. lia.
Qed.

Lemma settle_round_clock items : forall w attempt started,
  clock w <= clock (settle_round net config w attempt started items).1.1.1
  /\ (Forall item_ok items -> Forall (back (fun o => deadline o <= clock w)) items ->
      (settle_round net config w attempt started items).1.2 = []).
Proof using Hclk.
  induction items as [|[[k outcome] outbound] items IH]; intros w attempt started;
    cbn [settle_round]; [split; [simpl; lia|done]|].
  destruct outcome as [ack|failure].
  - destruct (IH w attempt started) as [IH1 IH2].
    destruct (settle_round net config w attempt started items) as [[[w1 resolved] rs] refresh].
    cbn [fst snd] in *. split; [done|]. intros [_ H1]%Forall_cons [_ H2]%Forall_cons. by apply IH2.
  - assert (Hw1 : exists w1 dl, (match outbound with
                   | Some outbound => (w, deadline outbound) | None => now net w end) = (w1, dl)
                 /\ clock w <= clock w1
                 /\ forall o, outbound = Some o -> w1 = w /\ dl = deadline o).
    { destruct outbound as [o|]; [exists w, (deadline o); split_and!; [done|lia|by intros o' [= <-]]|].
      pose proof (now_clock w). destruct (now net w) as [w1 t]. by exists w1, t. }
    destruct Hw1 as (w1 & dl & -> & Hle & Hdl).
    pose proof (retriable_clock w1 failure attempt started (retry config) (idempotent config) dl)
      as [H1 H2].
    destruct (retriable _ _ _ _ _ _ _ _) as [w2 may]. cbn [fst snd] in *.
    destruct (IH w2 attempt started) as [IH1 IH2].
    destruct (settle_round net config w2 attempt started items) as [[[w3 resolved] rs] refresh].
    cbn [fst snd] in *.
    split; [destruct may, outbound; simpl; lia|].
    intros [Ho H3]%Forall_cons [Hb H4]%Forall_cons.
    assert (Hrs : rs = []).
    { apply IH2; [done|]. eapply Forall_impl; [exact H4|]. intros it Hit o Ho'.
      specialize (Hit o Ho'). simpl in *. lia. }
    destruct outbound as [o|]; [|done]. destruct (Hdl o eq_refl) as [-> ->].
    rewrite H2; [by rewrite Hrs|]. by apply Hb.
Qed.

Lemma pause_clock w attempt rs : clock w <= clock (pause net config w attempt rs).
Proof using Hclk.
  unfold pause. pose proof (clk_jitter _ _ Hclk w). destruct (jitter net w) as [w1 q]. cbn [fst] in *.
  destruct (_ =? 0); [done|]. pose proof (now_clock w1). destruct (now net w1) as [w2 t].
  cbn [fst] in *. destruct (list_min _).
  - etrans; [|apply (clk_sleep _ _ Hclk)]. lia.
  - etrans; [|apply (clk_sleep _ _ Hclk)]. lia.
Qed.

(** One nanosecond of fuel per nanosecond of budget is enough. *)
Lemma dispatch_loop_total fuel : forall w pending attempt started resolved D,
  Forall (fun o => deadline o <= D) pending -> Z.max 0 (D - clock w) < Z.of_nat fuel ->
  is_Some (dispatch_loop net config fuel w pending attempt started resolved).
Proof using Hclk.
  induction fuel as [|fuel IH]; intros w pending attempt started resolved D HD Hf; [lia|].
  cbn [dispatch_loop]. destruct pending as [|p pending]; [eauto|].
  pose proof (round_clock w (p :: pending) ltac:(done)) as H1.
  pose proof (proj1 (round_ok net config w (p :: pending))) as H2.
  pose proof (round_back net config (fun o => deadline o <= D) w (p :: pending) HD) as H3.
  destruct (round net config w (p :: pending)) as [w1 items]. cbn [fst snd] in *.
  pose proof (settle_round_clock items w1 attempt started) as [H4 H5].
  pose proof (settle_round_back net config (fun o => deadline o <= D) items w1 attempt started H3) as H6.
  destruct (settle_round net config w1 attempt started items) as [[[w2 done_] rs] refresh].
  cbn [fst snd] in *. destruct rs as [|r rs]; [eauto|].
  assert (Hlt : clock w1 < D).
  { apply Z.nle_gt. intros Hle. enough (r :: rs = []) by done. apply H5; [done|].
    eapply Forall_impl; [exact H3|]. intros it Hit o Ho. specialize (Hit o Ho). simpl in *. lia. }
  apply (IH _ _ _ _ _ D); [done|].
  set (w3 := if refresh then _ else _).
  assert (clock w2 <= clock w3).
  { subst w3. destruct refresh; [apply (clk_invalidate _ _ Hclk)|lia]. }
  pose proof (pause_clock w3 attempt (r :: rs)). lia.
Qed.

End time.

End DispatchFacts.

(** *** What is sent again *)

Module ResendFacts.
Import ProducerConfig Dispatch DispatchSpec DispatchFacts.

Section resend.
Context `{KafkaProtocol} {W : Type} (net : Net W) (config : ProducerConfig).

(** An outcome that is only safe to repeat under idempotence. *)
Definition ambiguous (it : Item) : Prop :=
  match it.1.2 with Err (Ambiguous _) => True | _ => False end.

Lemma retriable_ambiguous w e attempt started policy dl :
  (retriable net w (Ambiguous e) attempt started policy false dl).2 = false.
Proof.
  unfold retriable. destruct (now net w) as [w1 t]. destruct (dl <=? t); [done|].
  destruct (Error.needs_metadata_refresh _); [|done]. by destruct (now net w1).
Qed.

(** Without idempotence, an ambiguous outcome is final. *)
Lemma settle_round_ambiguous items : forall w attempt started,
  idempotent config = false -> Forall item_ok items -> NoDup (map item_key items) ->
  let '(_, resolved, retry, _) := settle_round net config w attempt started items in
  forall k e o, (k, Err (Ambiguous e), o) ∈ items ->
    (k, Err e) ∈ resolved /\ (k ∉ map key retry).
Proof.
  induction items as [|[[k outcome] outbound] items IH]; intros w attempt started Hid Hok Hnd.
  { simpl. intros k e o Hin. by apply elem_of_nil in Hin. }
  pose proof (settle_round_ok net config ((k, outcome, outbound) :: items) w attempt started Hok)
    as Hkeys.
  apply Forall_cons in Hok as [Hit Hok]. simpl in Hnd. apply NoDup_cons in Hnd as [Hn Hnd].
  cbn [settle_round] in *. destruct outcome as [ack|failure].
  - specialize (IH w attempt started Hid Hok Hnd).
    destruct (settle_round net config w attempt started items) as [[[w1 resolved] rs] refresh].
    cbv beta iota zeta in *. intros k' e o [E|Hin]%elem_of_cons; [discriminate E|]. destruct (IH k' e o Hin). split; [by right|done].
  - destruct (match outbound with Some _ => _ | None => _ end) as [w1 dl].
    pose proof (fun e (E : failure = Ambiguous e) =>
      retriable_ambiguous w1 e attempt started (retry config) dl) as Hmay.
    destruct (retriable _ _ _ _ _ _ _ _) as [w2 may] eqn:Er.
    pose proof (settle_round_ok net config items w2 attempt started Hok) as Hrest.
    specialize (IH w2 attempt started Hid Hok Hnd).
    destruct (settle_round net config w2 attempt started items) as [[[w3 resolved] rs] refresh].
    assert (Hrs : k ∉ map key rs).
    { intros Hin. apply Hn. fold (map item_key items). rewrite <- Hrest. apply elem_of_app. by right. }
    unfold item_ok in Hit. cbn [fst snd] in Hit. destruct outbound as [o'|]; [|done].
    destruct may; cbv beta iota zeta in *; intros k' e o [[= -> <- ->]|Hin]%elem_of_cons.
    + specialize (Hmay e eq_refl). rewrite Hid in Er. by rewrite Er in Hmay.
    + destruct (IH k' e o Hin) as [IH1 IH2]. split; [done|]. simpl. rewrite Hit.
      intros [->|?]%elem_of_cons; [|done]. apply Hn. apply list_elem_of_fmap.
      by exists (k, Err (Ambiguous e), o).
    + split; [by left|done].
    + destruct (IH k' e o Hin) as [IH1 IH2]. split; [by right|done].
Qed.

(** Only batches that were pending are sent. *)
Lemma rounds_keys fuel : forall w pending attempt started,
  Forall (fun items => forall k, k ∈ map item_key items -> k ∈ map key pending)
    (rounds net config fuel w pending attempt started).
Proof.
  induction fuel as [|fuel IH]; intros w pending attempt started; [constructor|].
  cbn [rounds]. destruct pending as [|p pending]; [constructor|].
  pose proof (round_ok net config w (p :: pending)) as [H1 H2].
  destruct (round net config w (p :: pending)) as [w1 items]. cbn [snd] in *.
  pose proof (settle_round_ok net config items w1 attempt started H1) as H3.
  destruct (settle_round net config w1 attempt started items) as [[[w2 done_] rs] refresh].
  constructor; [intros k; by rewrite H2|]. destruct rs as [|r rs]; [constructor|].
  eapply Forall_impl; [apply IH|]. intros items' Hk k Hin%Hk.
  rewrite <- H2, <- H3. apply elem_of_app. by right.
Qed.

Lemma NoDup_app_r {A} (l k m : list A) : l ++ k ≡ₚ m -> NoDup m -> NoDup k.
Proof. intros E Hnd. rewrite <- E in Hnd. apply NoDup_app in Hnd as (_ & _ & Hnd). exact Hnd. Qed.

Lemma dispatch_loop_incl fuel : forall w pending attempt started resolved w' out x,
  dispatch_loop net config fuel w pending attempt started resolved = Some (w', out) ->
  x ∈ resolved -> x ∈ out.
Proof.
  induction fuel as [|fuel IH]; intros w pending attempt started resolved w' out x; [done|].
  cbn [dispatch_loop]. destruct pending as [|p pending]; [by intros [= _ <-]|].
  destruct (round net config w (p :: pending)) as [w1 items].
  destruct (settle_round net config w1 attempt started items) as [[[w2 done_] rs] refresh].
  destruct rs as [|r rs]; [intros [= _ <-] Hin; apply elem_of_app; by left|].
  intros Hl Hin. eapply IH; [exact Hl|]. apply elem_of_app. by left.
Qed.

Lemma ambiguous_is_last fuel : forall w pending attempt started resolved w' out pre items post k e o,
  idempotent config = false -> NoDup (map key pending) ->
  dispatch_loop net config fuel w pending attempt started resolved = Some (w', out) ->
  rounds net config fuel w pending attempt started = pre ++ items :: post ->
  (k, Err (Ambiguous e), o) ∈ items ->
  (k, Err e) ∈ out /\ Forall (fun later => k ∉ map item_key later) post.
Proof.
  induction fuel as [|fuel IH];
    intros w pending attempt started resolved w' out pre items post k e o Hid Hnd; [done|].
  cbn [dispatch_loop rounds]. destruct pending as [|p pending]; [by destruct pre|].
  pose proof (round_ok net config w (p :: pending)) as [H1 H2].
  destruct (round net config w (p :: pending)) as [w1 its]. cbn [snd] in *.
  pose proof (settle_round_ok net config its w1 attempt started H1) as H3.
  rewrite <- H2 in Hnd.
  pose proof (settle_round_ambiguous its w1 attempt started Hid H1 Hnd) as H4.
  destruct (settle_round net config w1 attempt started its) as [[[w2 done_] rs] refresh].
  pose proof (NoDup_app_r _ _ _ H3 Hnd) as Hnd'.
  intros Hl Hr Hin. destruct pre as [|its' pre].
  - injection Hr as <- Hpost. destruct (H4 k e o Hin) as [H5 H6]. destruct rs as [|r rs].
    + injection Hl as _ <-. subst post. split; [|constructor]. apply elem_of_app. by right.
    + split; [eapply dispatch_loop_incl; [exact Hl|]; apply elem_of_app; by right|].
      rewrite <- Hpost. eapply Forall_impl; [apply rounds_keys|].
      intros later Hk Hlater. by apply H6, Hk.
  - injection Hr as -> Hr. destruct rs as [|r rs]; [by destruct pre|].
    eapply IH; [done|exact Hnd'|exact Hl|exact Hr|exact Hin].
Qed.

End resend.

End ResendFacts.

(** ** Properties *)

Module DispatchProperties.
Import ProducerConfig Dispatch DispatchSpec DispatchFacts ResendFacts.

(** C30: Dispatching returns, and with exactly one
    result per batch: as long as time passes (routing a batch takes at least a
    nanosecond and no call turns the clock back), the retry loop ends by the
    latest deadline of its batches, with one result under the key of each,
    whatever the cluster answers. *)
Theorem dispatch_resolves_every_batch `{KafkaProtocol} {W} (net : Net W) config clock fuel w
    batches D :
  Clocked net clock -> Forall (fun o => deadline o <= D) batches ->
  Z.max 0 (D - clock w) < Z.of_nat fuel ->
  exists w' out, dispatch net config fuel w batches = Some (w', out)
    /\ map fst out ≡ₚ map key batches.
Proof.
  intros Hclk HD Hf. unfold dispatch. pose proof (now_clock net clock Hclk w).
  destruct (now net w) as [w1 started]. cbn [fst] in *.
  destruct (dispatch_loop_total net config clock Hclk fuel w1 batches 1 started [] D HD)
    as [[w' out] Hout]; [lia|].
  exists w', out. split; [done|]. by apply dispatch_loop_keys in Hout.
Qed.

(** C31: Without idempotence a batch whose outcome is
    unknown is never sent again: in whatever round its request failed in flight,
    or was not answered, it appears in no later round, and the caller gets that
    attempt's own error. *)
Theorem ambiguous_never_resent `{KafkaProtocol} {W} (net : Net W) config fuel w batches w' out
    pre items post k e o :
  idempotent config = false -> NoDup (map key batches) ->
  dispatch net config fuel w batches = Some (w', out) ->
  dispatch_rounds net config fuel w batches = pre ++ items :: post ->
  (k, Err (Ambiguous e), o) ∈ items ->
  (k, Err e) ∈ out /\ Forall (fun later => k ∉ map item_key later) post.
Proof.
  unfold dispatch, dispatch_rounds. intros Hid Hnd Hd Hr Hin.
  destruct (now net w) as [w1 started].
  eapply (ambiguous_is_last net config fuel w1 batches 1 started []); done.
Qed.

(** The answers of a response are told apart by the
    partition index alone: two batches of one request for the same index of
    different topics get the same acknowledgement, whichever of them the broker
    answered. *)
Theorem answers_ignore_topics `{KafkaProtocol} response group o1 o2 ack :
  o1 ∈ group -> o2 ∈ group -> partition o1 = partition o2 ->
  (key o1, Ok ack, None) ∈ read_response response group ->
  (key o2, Ok ack, None) ∈ read_response response group.
Proof.
  unfold read_response. intros _ Hin2 Hp Hin.
  apply list_elem_of_fmap in Hin as (o & Ho & _). apply list_elem_of_fmap. exists o2. split; [|done].
  assert (partition o = partition o1) as Hpo.
  { unfold read_one in Ho. destruct (_ !! _) as [p|]; [destruct (ErrorCode.from_code _)|];
      by injection Ho. }
  assert (E : partition o2 = partition o) by congruence.
  unfold read_one in *. rewrite E.
  destruct (_ !! _) as [p|]; [|done]. destruct (ErrorCode.from_code _); [done|].
  by injection Ho as _ _ ->.
Qed.

(** A batch refused with
    [NOT_ENOUGH_REPLICAS_AFTER_APPEND], which says that its records are in the
    log, counts as a rejection and is sent again even without idempotence, while
    attempts and deadline last. *)
Theorem appended_rejection_is_resent `{KafkaProtocol} {W} (net : Net W) w message attempt started
    policy dl :
  ErrorCode.retriable ErrorCode.NotEnoughReplicasAfterAppend = true ->
  (now net w).2 < dl -> Retry.should_retry policy attempt = true ->
  (retriable net w
     (Rejected (Error.from_code ErrorCode.NotEnoughReplicasAfterAppend message))
     attempt started policy false dl).2 = true.
Proof.
  intros Hr Hd Ha. unfold retriable. destruct (now net w) as [w1 t]. cbn [snd] in Hd.
  rewrite (proj2 (Z.leb_gt dl t)) by done. cbn [into_error].
  change (Error.needs_metadata_refresh _) with false. cbn iota.
  change (Error.retriable _) with (ErrorCode.retriable ErrorCode.NotEnoughReplicasAfterAppend).
  by rewrite Hr, Ha.
Qed.

(** *** Witnesses *)

#[local] Instance demo_protocol : KafkaProtocol := {|
  try_from_code c :=
    if c =? 0 then None
    else if c =? 6 then Some ResponseError.NotLeaderOrFollower
    else Some ResponseError.NotEnoughReplicasAfterAppend;
  is_retriable _ := true;
|}.

(** The world is the clock: each routing takes a second, the leader is unknown for
    the first three seconds, and the connection dies in flight. *)
Definition demo_net : Net Z := {|
  now w := (w, w);
  jitter w := (w, 0%Q);
  sleep_until w t := Z.max w t;
  leader_for w topic partition :=
    (w + Retry.SECOND,
     if w <? 3 * Retry.SECOND
     then Err (Error.from_code ErrorCode.NotLeaderOrFollower None) else Ok 1);
  negotiated_for w := (w, Ok 9);
  snapshot_topic_id w topic := None;
  refresh_topic_id w topic := (w, Ok None);
  pool_get w leader := (w, Ok tt);
  send w leader request := (w, Err (Error.ConnectionClosed "broker-1"));
  invalidate w := w;
|}.

Lemma demo_net_clocked : Clocked demo_net (fun w => w).
Proof. split; simpl; intros; unfold Retry.SECOND; lia. Qed.

Definition demo_batch (t : string) (p : Z) : Outbound :=
  {| topic := t; partition := p; encoded := []; deadline := 20 * Retry.SECOND |}.

(** At most seven nanoseconds before its deadline. *)
Definition late : Z := 20 * Retry.SECOND - 7.

Lemma dispatch_resolves_every_batch_witness :
  exists w' out, dispatch demo_net new 30 late [demo_batch "a" 0; demo_batch "b" 1] = Some (w', out)
    /\ map fst out ≡ₚ [("a"%string, 0); ("b"%string, 1)].
Proof.
  apply (dispatch_resolves_every_batch demo_net new (fun w => w) 30 late
           [demo_batch "a" 0; demo_batch "b" 1] (20 * Retry.SECOND)).
  - exact demo_net_clocked.
  - repeat constructor; unfold demo_batch; simpl; lia.
  - vm_compute. reflexivity.
Defined.

Lemma ambiguous_never_resent_witness :
  exists w' out,
    dispatch demo_net (with_idempotent new false) 30 (2 * Retry.SECOND) [demo_batch "a" 0]
      = Some (w', out)
    /\ (("a"%string, 0), Err (Error.ConnectionClosed "broker-1")) ∈ out.
Proof.
  assert (Hd : is_Some (dispatch demo_net (with_idempotent new false) 30 (2 * Retry.SECOND)
                          [demo_batch "a" 0])) by (vm_compute; eexists; reflexivity).
  assert (Hr : exists pre items,
    dispatch_rounds demo_net (with_idempotent new false) 30 (2 * Retry.SECOND) [demo_batch "a" 0]
      = pre ++ items :: []
    /\ (("a"%string, 0), Err (Ambiguous (Error.ConnectionClosed "broker-1")),
        Some (demo_batch "a" 0)) ∈ items).
  { eexists [_], _. split; [vm_compute; reflexivity|]. left. }
  destruct Hd as [[w' out] Hd]. destruct Hr as (pre & items & Hr & Hin).
  exists w', out. split; [exact Hd|].
  refine (proj1 (ambiguous_never_resent demo_net (with_idempotent new false) 30 (2 * Retry.SECOND)
     [demo_batch "a" 0] w' out pre items [] ("a"%string, 0) (Error.ConnectionClosed "broker-1")
     (Some (demo_batch "a" 0)) _ _ Hd Hr Hin)).
  - reflexivity.
  - repeat constructor. intros Hn. apply elem_of_nil in Hn. exact Hn.
Defined.

(** The broker refuses a-0 and appends b-0; a-0 is reported as delivered. *)
Definition crossed_response : ProduceResponse := {| responses := [
  {| name := "a"; topic_id := ZERO_ID; partition_responses :=
       [{| index := 0; error_code := 6; error_message := None; resp_base_offset := -1;
           resp_log_append_time_ms := -1 |}] |};
  {| name := "b"; topic_id := ZERO_ID; partition_responses :=
       [{| index := 0; error_code := 0; error_message := None; resp_base_offset := 42;
           resp_log_append_time_ms := -1 |}] |} ] |}.

Lemma answers_ignore_topics_witness :
  (("a"%string, 0), Ok {| base_offset := 42; log_append_time_ms := None |}, None)
  ∈ read_response crossed_response [demo_batch "a" 0; demo_batch "b" 0].
Proof.
  apply (answers_ignore_topics crossed_response [demo_batch "a" 0; demo_batch "b" 0]
           (demo_batch "b" 0) (demo_batch "a" 0)).
  - right. left.
  - left.
  - reflexivity.
  - vm_compute. right. left.
Defined.

Lemma appended_rejection_is_resent_witness :
  (retriable demo_net 0
     (Rejected (Error.from_code ErrorCode.NotEnoughReplicasAfterAppend None))
     1 0 Retry.default_policy false 5).2 = true.
Proof. apply appended_rejection_is_resent; reflexivity. Defined.

End DispatchProperties.
