(* ===== verification/Accumulator.v ===== *)
(** Batching with bounded memory ([crates/kafka-produce/src/accumulator.rs]).

    The actor that owns every batch is a record, and each of its methods a
    function from it: the clock, the cluster's answers and the transactional
    state, which it shares with the caller, come in as arguments; the records it
    resolves come out as a list of deliveries.  [System] is what runs: the
    command queue, the actor, the spawned send tasks and their completions, with
    [step] for each thing that can happen next. *)

From S2P Require Import Prelude Sanitize ErrorCodes ApiKeys Retry Idempotence Transactions BatchDecode Encode Dispatch.
From Stdlib Require Import QArith.
Open Scope Z_scope.

Module Accumulator.
Import ProducerConfig ProducerRecord Idempotence.

Definition RECORD_OVERHEAD : Z := 32.
Definition HEADER_OVERHEAD : Z := 8.

Definition opt_len (o : option bytes) : Z :=
  match o with Some b => Z.of_nat (length b) | None => 0 end.

(** What one record costs the buffer. *)
Definition accounted_size (record : ProducerRecord) : Z :=
  let headers :=
    sum_with (fun '(name, value) =>
      usize_saturating_add
        (usize_saturating_add (Z.of_nat (String.length name)) (opt_len value)) HEADER_OVERHEAD)
      (headers record) in
  usize_saturating_add
    (usize_saturating_add
       (usize_saturating_add RECORD_OVERHEAD (opt_len (key record))) (opt_len (value record)))
    headers.

(** Semaphore permits are counted in [u32]; a size past that is clamped. *)
Definition permits_for (size : Z) : Z := try_from_or U32_MAX U32_MAX size.

(** A record waiting for the wire: the channel of its answer is named by a number,
    and it holds the permits it acquired. *)
Record Queued : Type := {
  record : ProducerRecord;
  deadline : Z;
  respond : Z;
  permit : Z;
}.

(** A record resolved with its outcome. *)
Definition Delivery : Type := Queued * result RecordMetadata Error.Error.

Definition resolve (outcome : result RecordMetadata Error.Error) (queued : Queued) : Delivery :=
  (queued, outcome).

(** One partition's batch, open or closed. *)
Record Batch : Type := {
  records : list Queued;
  bytes_ : Z;
  opened_at : Z;
}.

Definition earliest_deadline (self : Batch) : option Z := list_min (map deadline (records self)).

Definition new_batch (now : Z) : Batch := {| records := []; bytes_ := 0; opened_at := now |}.

(** What the actor knows about one partition. *)
Record PartitionState : Type := {
  open : option Batch;
  pending : list Batch;
  in_flight : bool;
}.

Definition default_partition : PartitionState :=
  {| open := None; pending := []; in_flight := false |}.

Definition idle (self : PartitionState) : bool :=
  match open self, pending self with
  | None, [] => negb (in_flight self)
  | _, _ => false
  end.

(** A batch handed to a send task. *)
Record Ready : Type := {
  topic : string;
  partition : Z;
  ready_records : list Queued;
  identity : option BatchIdentity;
}.

Inductive Command : Type :=
  | Append (topic : string) (partition : Z) (queued : Queued)
  | Flush (waiter : Z).

(** What a send task finished with. *)
Record Completed : Type := {
  partitions_done : list (string * Z);
  released : list ((string * Z) * Z);
  reset_identity : bool;
}.

(** The task that owns every batch. *)
Record Actor : Type := {
  config : ProducerConfig;
  partitions : gmap (string * Z) PartitionState;
  flush_waiters : list Z;
  actor_identity : option ProducerIdentity;
  identity_attempts : Z;
  sequences : Sequences;
}.

Definition new_actor (config : ProducerConfig) : Actor := {|
  config := config; partitions := ∅; flush_waiters := []; actor_identity := None;
  identity_attempts := 0; sequences := default_sequences;
|}.

Definition with_partitions (self : Actor) (partitions : gmap (string * Z) PartitionState)
    : Actor := {|
  config := config self; partitions := partitions; flush_waiters := flush_waiters self;
  actor_identity := actor_identity self; identity_attempts := identity_attempts self;
  sequences := sequences self;
|}.

Definition with_identity (self : Actor) (identity : option ProducerIdentity) (attempts : Z)
    (sequences : Sequences) : Actor := {|
  config := config self; partitions := partitions self; flush_waiters := flush_waiters self;
  actor_identity := identity; identity_attempts := attempts; sequences := sequences;
|}.

Definition with_waiters (self : Actor) (waiters : list Z) : Actor := {|
  config := config self; partitions := partitions self; flush_waiters := waiters;
  actor_identity := actor_identity self; identity_attempts := identity_attempts self;
  sequences := sequences self;
|}.

(** ** Batches *)

(** Close the open batch. *)
Definition close (state : PartitionState) : PartitionState :=
  match open state with
  | Some batch => {| open := None; pending := pending state ++ [batch];
                     in_flight := in_flight state |}
  | None => state
  end.

(** Whether a record of [size] would push the open batch past either bound. *)
Definition would_overflow (config : ProducerConfig) (state : PartitionState) (size : Z) : bool :=
  match open state with
  | Some open =>
      let would_be := usize_saturating_add (bytes_ open) size in
      negb (bool_decide (records open = []))
      && ((batch_size config <? would_be) || (max_request_size config <? would_be))
  | None => false
  end.

Definition push_batch (batch : Batch) (queued : Queued) (size : Z) : Batch :=
  {| records := records batch ++ [queued];
     bytes_ := usize_saturating_add (bytes_ batch) size;
     opened_at := opened_at batch |}.

(** [Actor::append] on the partition's state. *)
Definition append_to (config : ProducerConfig) (now : Z) (queued : Queued)
    (state : PartitionState) : PartitionState :=
  let size := accounted_size (record queued) in
  let state := if would_overflow config state size then close state else state in
  let open := push_batch (default (new_batch now) (open state)) queued size in
  let state := {| open := Some open; pending := pending state; in_flight := in_flight state |} in
  if batch_size config <=? bytes_ open then close state else state.

Definition append (self : Actor) (now : Z) (topic : string) (partition : Z) (queued : Queued)
    : Actor :=
  let state := default default_partition (partitions self !! (topic, partition)) in
  with_partitions self
    (<[(topic, partition) := append_to (config self) now queued state]> (partitions self)).

Definition close_all (self : Actor) : Actor := with_partitions self (close <$> partitions self).

Definition linger_expired (linger now : Z) (state : PartitionState) : bool :=
  match open state with
  | Some open => opened_at open + linger <=? now
  | None => false
  end.

Definition close_expired (self : Actor) (now : Z) : Actor :=
  with_partitions self
    ((fun state => if linger_expired (linger (config self)) now state then close state else state)
       <$> partitions self).

Definition handle (self : Actor) (now : Z) (command : Command) : Actor :=
  match command with
  | Append topic partition queued => append self now topic partition queued
  | Flush respond =>
      let self := close_all self in
      with_waiters self (flush_waiters self ++ [respond])
  end.

(** ** Completions *)

(** Apply a finished send task's bookkeeping. *)
Definition settle (self : Actor) (completed : Completed) : Actor :=
  let partitions :=
    foldl (fun m key =>
             alter (fun state => {| open := open state; pending := pending state;
                                    in_flight := false |}) key m)
      (partitions self) (partitions_done completed) in
  let sequences :=
    foldl (fun s '(key, base) => release s key base) (sequences self) (released completed) in
  let self := with_identity (with_partitions self partitions)
                (actor_identity self) (identity_attempts self) sequences in
  if reset_identity completed
  then with_identity self None (identity_attempts self) (reset sequences)
  else self.

(** ** Expiry *)

Definition is_live (now : Z) (queued : Queued) : bool := now <? deadline queued.

(** The records of a batch whose deadline has passed are resolved. *)
Definition drop_expired (now budget : Z) (batch : Batch) : Batch * list Delivery :=
  if forallb (is_live now) (records batch) then (batch, [])
  else
    let live := filter (fun q => is_live now q = true) (records batch) in
    let dead := filter (fun q => is_live now q = false) (records batch) in
    ({| records := live;
        bytes_ := sum_with (fun q => accounted_size (record q)) live;
        opened_at := opened_at batch |},
     map (fun q =>
            let overshoot := Z.max 0 (now - deadline q) in
            resolve (Err (Error.Timeout (ApiKey.code ApiKey.Produce)
                            (Z.min (budget + overshoot) Retry.DURATION_MAX))) q) dead).

Definition nonempty (batch : Batch) : bool := negb (bool_decide (records batch = [])).

Definition expire_state (now budget : Z) (state : PartitionState)
    : PartitionState * list Delivery :=
  let open_ := drop_expired now budget <$> open state in
  let pending_ := map (drop_expired now budget) (pending state) in
  ({| open := match open_ with
              | Some (batch, _) => if nonempty batch then Some batch else None
              | None => None
              end;
      pending := filter (fun batch => nonempty batch = true) (map fst pending_);
      in_flight := in_flight state |},
   match open_ with Some (_, dead) => dead | None => [] end ++ flat_map snd pending_).

(** Fail every buffered record whose delivery deadline has passed. *)
Definition expire_overdue (self : Actor) (now : Z) : Actor * list Delivery :=
  let expire := expire_state now (delivery_timeout (config self)) in
  (with_partitions self ((fun state => (expire state).1) <$> partitions self),
   flat_map (fun '(_, state) => (expire state).2) (map_to_list (partitions self))).

(** The records of a partition that are buffered, in the order they will leave. *)
Definition buffered (state : PartitionState) : list Queued :=
  flat_map records (pending state) ++ match open state with Some b => records b | None => [] end.

(** Resolve every buffered record with an error, and drain the buffers: the open
    batch's first, then the closed ones'. *)
Definition fail_state (error : Error.Error) (state : PartitionState) : list Delivery :=
  map (resolve (Err (Error.clone error)))
    (match open state with Some b => records b | None => [] end
     ++ flat_map records (pending state)).

Definition drained (state : PartitionState) : PartitionState :=
  {| open := None; pending := []; in_flight := in_flight state |}.

Definition fail_buffered (partitions : gmap (string * Z) PartitionState) (error : Error.Error)
    : gmap (string * Z) PartitionState * list Delivery :=
  (drained <$> partitions, flat_map (fun '(_, state) => fail_state error state) (map_to_list partitions)).

Definition has_work (self : Actor) : bool :=
  existsb (fun '(_, state) => negb (bool_decide (length (pending state) = 0%nat)))
    (map_to_list (partitions self)).

(** ** Wake-ups *)

Definition option_min (a b : option Z) : option Z := list_min (option_list a ++ option_list b).

(** Combine the linger deadline with the identity-retry one. *)
Definition earliest_wake (open identity_retry : option Z) (now : Z) : option Z :=
  option_min open ((fun delay => now + delay) <$> identity_retry).

Definition state_batches (state : PartitionState) : list Batch :=
  option_list (open state) ++ pending state.

(** The earliest moment the actor must wake on its own. *)
Definition next_deadline (self : Actor) (now : Z) (sample : Q) : option Z :=
  let states := map snd (map_to_list (partitions self)) in
  let open :=
    list_min (omap (fun state => (fun b => opened_at b + linger (config self)) <$> open state) states) in
  let blocked_on_identity :=
    idempotent (config self) && bool_decide (actor_identity self = None) && has_work self in
  let identity_retry :=
    if blocked_on_identity
    then Some (Retry.delay (retry (config self)) sample
                 (u32_saturating_add (identity_attempts self) 1))
    else None in
  let expiry := list_min (omap earliest_deadline (flat_map state_batches states)) in
  option_min (earliest_wake open identity_retry now) expiry.

(** ** Identity and enrolment *)

Section cluster.
Context `{KafkaProtocol}.

(** Claim a producer id before the first idempotent batch goes out; a transactional
    producer's is read from the shared state, and a new one restarts the
    numbering. *)
Definition ensure_identity (self : Actor) (transactions : option Transactions.Transactions)
    (send_any : InitProducerIdRequest -> result InitProducerIdResponse Error.Error)
    : Actor * list Delivery :=
  match transactions with
  | Some transactions =>
      let current := Transactions.identity transactions in
      if decide (current = actor_identity self) then (self, [])
      else (with_identity self current (identity_attempts self) (reset (sequences self)), [])
  | None =>
      if negb (idempotent (config self)) || negb (bool_decide (actor_identity self = None))
         || negb (has_work self)
      then (self, [])
      else
        match init_producer_id send_any with
        | Ok identity => (with_identity self (Some identity) 0 (sequences self), [])
        | Err error =>
            if Error.retriable error then
              (with_identity self (actor_identity self)
                 (u32_saturating_add (identity_attempts self) 1) (sequences self), [])
            else
              let '(partitions, failed) := fail_buffered (partitions self) error in
              (with_partitions self partitions, failed)
        end
  end.

(** Partitions that are free and have a closed batch. *)
Definition waiting (self : Actor) : list (string * Z) :=
  map fst (filter (fun '(_, state) =>
                     negb (in_flight state) && negb (bool_decide (length (pending state) = 0%nat))
                     = true) (map_to_list (partitions self))).

(** The closed batches of a partition fail; the open one stays. *)
Definition fail_pending (error : Error.Error) (acc : gmap (string * Z) PartitionState * list Delivery)
    (key : string * Z) : gmap (string * Z) PartitionState * list Delivery :=
  match acc.1 !! key with
  | Some state =>
      (<[key := {| open := open state; pending := []; in_flight := in_flight state |}]> acc.1,
       acc.2 ++ map (resolve (Err (Error.clone error))) (flat_map records (pending state)))
  | None => acc
  end.

(** Tell the coordinator about every partition this transaction is about to write
    to, before the first batch reaches it. *)
Definition ensure_enrolled (self : Actor) (transactions : option Transactions.Transactions)
    (enrol : list (string * Z) -> result unit Error.Error) : Actor * list Delivery :=
  match transactions with
  | None => (self, [])
  | Some transactions =>
      if negb (Transactions.is_open transactions) then (self, [])
      else
        match Transactions.unenrolled transactions (waiting self) with
        | [] => (self, [])
        | missing =>
            match enrol missing with
            | Ok _ => (self, [])
            | Err error =>
                let '(partitions, failed) := foldl (fail_pending error) (partitions self, []) missing in
                (with_partitions self partitions, failed)
            end
        end
  end.

(** ** Dispatch *)

(** Take the next batch of one partition, when it is free and may go. *)
Definition dispatch_one (self : Actor) (transactional : bool) (enrolled : gset (string * Z))
    (snapshot : string * Z -> option Z)
    (acc : gmap (string * Z) PartitionState * Sequences * gmap (option Z) (list Ready))
    (entry : (string * Z) * PartitionState)
    : gmap (string * Z) PartitionState * Sequences * gmap (option Z) (list Ready) :=
  let '(partitions, sequences, groups) := acc in
  let '(key, state) := entry in
  if in_flight state then acc
  else if transactional && bool_decide (key ∉ enrolled) then acc
  else
    match pending state with
    | [] => acc
    | batch :: rest =>
        let partitions :=
          <[key := {| open := open state; pending := rest; in_flight := true |}]> partitions in
        let '(sequences, identity) :=
          match actor_identity self with
          | Some issued =>
              let '(sequences, base) := reserve sequences key (length (records batch)) in
              (sequences, Some {| b_producer_id := producer_id issued;
                                  b_producer_epoch := producer_epoch issued;
                                  base_sequence := base;
                                  Idempotence.transactional := transactional |})
          | None => (sequences, None)
          end in
        (partitions, sequences,
         push_to groups (snapshot key)
           {| topic := key.1; partition := key.2; ready_records := records batch;
              identity := identity |})
    end.

(** Hand every partition that is free and has work to a send task, grouped by the
    leader the snapshot names. *)
Definition dispatch_ready (self : Actor) (transactions : option Transactions.Transactions)
    (snapshot : string * Z -> option Z) : Actor * list (list Ready) :=
  if idempotent (config self) && bool_decide (actor_identity self = None) then (self, [])
  else
    let transactional :=
      match transactions with Some t => Transactions.is_open t | None => false end in
    let enrolled :=
      if transactional then
        match transactions with
        | Some t => filter (fun key => Transactions.unenrolled t [key] = []) (dom (partitions self))
        | None => ∅
        end
      else ∅ in
    let '(partitions, sequences, groups) :=
      foldl (dispatch_one self transactional enrolled snapshot)
        (partitions self, sequences self, ∅) (map_to_list (partitions self)) in
    (with_identity (with_partitions self partitions)
       (actor_identity self) (identity_attempts self) sequences,
     map snd (map_to_list groups)).

(** ** The end of a turn *)

Definition is_idle (self : Actor) : bool :=
  forallb (fun '(_, state) => idle state) (map_to_list (partitions self)).

Definition settle_flushes (self : Actor) : Actor * list Z :=
  if bool_decide (flush_waiters self = []) || negb (is_idle self) then (self, [])
  else (with_waiters self [], flush_waiters self).

Definition forget_idle (self : Actor) : Actor :=
  with_partitions self (filter (fun '(_, state) => idle state = false) (partitions self)).

(** What wakes the actor. *)
Inductive Event : Type :=
  | Received (command : Command)
  | HandlesGone
  | Finished (completed : Completed)
  | DeadlinePassed.

(** What a turn reads besides the actor: the clock at the event and at the expiry,
    the transactional state as [ensure_identity], [ensure_enrolled] and
    [dispatch_ready] each find it, the cluster's answers, and the snapshot. *)
Record TurnEnv : Type := {
  event_now : Z;
  expiry_now : Z;
  tx_identity : option Transactions.Transactions;
  tx_enrol : option Transactions.Transactions;
  tx_dispatch : option Transactions.Transactions;
  init_answer : InitProducerIdRequest -> result InitProducerIdResponse Error.Error;
  enrol_answer : list (string * Z) -> result unit Error.Error;
  leaders : string * Z -> option Z;
}.

Definition handle_event (self : Actor) (now : Z) (event : Event) : Actor :=
  match event with
  | Received command => handle self now command
  | HandlesGone => close_all self
  | Finished completed => settle self completed
  | DeadlinePassed => close_expired self now
  end.

(** One turn of [run]'s loop: the actor, the records it resolved, the groups it
    spawned a send task for, and the flushes it answered. *)
Definition turn (self : Actor) (env : TurnEnv) (event : Event)
    : Actor * list Delivery * list (list Ready) * list Z :=
  let self := handle_event self (event_now env) event in
  let '(self, expired) := expire_overdue self (expiry_now env) in
  let '(self, failed) := ensure_identity self (tx_identity env) (init_answer env) in
  let '(self, refused) := ensure_enrolled self (tx_enrol env) (enrol_answer env) in
  let '(self, spawned) := dispatch_ready self (tx_dispatch env) (leaders env) in
  let '(self, flushed) := settle_flushes self in
  (forget_idle self, expired ++ failed ++ refused, spawned, flushed).

End cluster.

End Accumulator.
