(* ===== verification/AccumulatorFacts.v ===== *)
(** Lemmas on the accumulator's operations: what each does to the records a
    partition buffers, to the shape of its batches, and to the whole map. *)

From S2P Require Import Prelude Sanitize ErrorCodes ApiKeys Retry Idempotence Transactions BatchDecode Encode Dispatch Accumulator.
From Stdlib Require Import QArith.
Open Scope Z_scope.

Module AccumulatorFacts.
Import ProducerConfig ProducerRecord Idempotence Accumulator.

(** ** One partition *)

Definition size_of (q : Queued) : Z := accounted_size (record q).

Lemma accounted_size_pos r : 0 < accounted_size r.
Proof.
  unfold accounted_size, usize_saturating_add, USIZE_MAX, RECORD_OVERHEAD.
  assert (Ho : forall o, 0 <= opt_len o) by (intros [b|]; simpl; lia).
  set (hs := sum_with _ _).
  assert (0 <= hs).
  { apply sum_with_nonneg. intros [name value]. specialize (Ho value).
    unfold usize_saturating_add, USIZE_MAX, HEADER_OVERHEAD. lia. }
  pose proof (Ho (key r)). pose proof (Ho (value r)). lia.
Qed.

Definition total (l : list Queued) : Z := sum_with size_of l.

Lemma total_nonneg l : 0 <= total l.
Proof. apply sum_with_nonneg. intros q. pose proof (accounted_size_pos (record q)). unfold size_of. lia. Qed.

Lemma total_cons q l : total (q :: l) = size_of q + total l.
Proof. done. Qed.

Lemma size_of_pos q : 0 < size_of q.
Proof. apply accounted_size_pos. Qed.

Lemma total_app l1 l2 : total (l1 ++ l2) = total l1 + total l2.
Proof. apply sum_with_app. Qed.

Lemma total_sublist l1 l2 : sublist l1 l2 -> total l1 <= total l2.
Proof.
  induction 1 as [|q l1 l2 _ IH|q l1 l2 _ IH]; rewrite ?total_cons; [done|lia|].
  pose proof (size_of_pos q). lia.
Qed.

Lemma buffered_close st : buffered (close st) = buffered st.
Proof.
  unfold close, buffered. destruct (open st) as [b|] eqn:E; simpl; [|by rewrite E].
  rewrite flat_map_app. simpl. by rewrite !app_nil_r.
Qed.

Lemma in_flight_close st : in_flight (close st) = in_flight st.
Proof. unfold close. by destruct (open st). Qed.

Lemma in_flight_append config now q st : in_flight (append_to config now q st) = in_flight st.
Proof.
  unfold append_to. destruct (would_overflow _ _ _), (_ <=? _);
    rewrite ?in_flight_close; simpl; by rewrite ?in_flight_close.
Qed.

(** A record joins the end of its partition's line. *)
Lemma buffered_append config now q st :
  buffered (append_to config now q st) = buffered st ++ [q].
Proof.
  unfold append_to. set (st1 := if would_overflow _ _ _ then _ else _).
  assert (H1 : buffered st1 = buffered st).
  { subst st1. destruct (would_overflow _ _ _); [apply buffered_close|done]. }
  set (open_ := push_batch _ _ _).
  assert (H2 : buffered {| open := Some open_; pending := pending st1; in_flight := in_flight st1 |}
               = buffered st ++ [q]).
  { rewrite <- H1. unfold buffered, open_, push_batch. cbn [open pending records].
    destruct (open st1); simpl; by rewrite ?app_nil_r, ?app_assoc. }
  destruct (_ <=? _); [by rewrite buffered_close|done].
Qed.

(** ** Batches *)

(** A batch holds a record; its size is the accounted sum (past what a machine word
    holds, nothing is claimed); and unless it holds a single record it is within
    both bounds. *)
Definition wf_batch (config : ProducerConfig) (b : Batch) : Prop :=
  records b <> []
  /\ Z.min (total (records b)) USIZE_MAX = Z.min (bytes_ b) USIZE_MAX
  /\ ((2 <= length (records b))%nat ->
      Z.min (total (records b)) USIZE_MAX <= batch_size config
      /\ Z.min (total (records b)) USIZE_MAX <= max_request_size config).

Definition wf_state (config : ProducerConfig) (st : PartitionState) : Prop :=
  Forall (wf_batch config) (state_batches st).

Lemma wf_state_close config st : wf_state config st -> wf_state config (close st).
Proof.
  unfold wf_state, close, state_batches. destruct (open st) as [b|] eqn:E; simpl; [|by rewrite E].
  rewrite Forall_app, !Forall_cons. intros [Hb Hp]. by split_and!.
Qed.

Lemma wf_push config b q now :
  match b with Some b => wf_batch config b | None => True end ->
  would_overflow config {| open := b; pending := []; in_flight := false |} (size_of q) = false ->
  wf_batch config (push_batch (default (new_batch now) b) q (size_of q)).
Proof.
  pose proof (size_of_pos q) as Hq. intros Hb Ho.
  unfold wf_batch, push_batch. cbn [records bytes_].
  rewrite total_app, (total_cons q []). change (total []) with 0. destruct b as [b|]; cbn [default from_option id].
  - destruct Hb as (Hne & Hsz & _). unfold would_overflow in Ho. cbn [open] in Ho.
    rewrite bool_decide_false in Ho by done. cbn [negb andb] in Ho.
    apply orb_false_iff in Ho as [H1 H2]. unfold usize_saturating_add in *.
    pose proof (total_nonneg (records b)). split_and!; [by destruct (records b)|lia|lia].
  - unfold new_batch, usize_saturating_add. cbn [records bytes_ app]. change (total []) with 0.
    split_and!; [done|lia|simpl; lia].
Qed.

Lemma would_overflow_open config st st' size :
  open st = open st' -> would_overflow config st size = would_overflow config st' size.
Proof. unfold would_overflow. by intros ->. Qed.

Lemma open_close st : open (close st) = None.
Proof. unfold close. by destruct (open st) eqn:E. Qed.

Lemma wf_state_append config now q st :
  wf_state config st -> wf_state config (append_to config now q st).
Proof.
  intros Hst. unfold append_to. fold (size_of q).
  set (st1 := if would_overflow config st (size_of q) then close st else st).
  assert (H1 : wf_state config st1).
  { subst st1. destruct (would_overflow _ _ _); [by apply wf_state_close|done]. }
  assert (H2 : would_overflow config st1 (size_of q) = false).
  { subst st1. destruct (would_overflow config st (size_of q)) eqn:E; [|done].
    unfold would_overflow. by rewrite open_close. }
  set (open_ := push_batch _ _ _).
  assert (H3 : wf_batch config open_).
  { apply wf_push.
    - destruct (open st1) as [b|] eqn:E; [|done]. unfold wf_state, state_batches in H1.
      rewrite E in H1. by apply Forall_cons in H1 as [? _].
    - by rewrite <- (would_overflow_open config st1). }
  assert (H4 : wf_state config {| open := Some open_; pending := pending st1;
                                  in_flight := in_flight st1 |}).
  { unfold wf_state, state_batches in *. apply Forall_app in H1 as [_ H1]. simpl. by constructor. }
  destruct (_ <=? _); [by apply wf_state_close|done].
Qed.

(** ** Expiry *)

Lemma filter_bool_split {A} (f : A -> bool) l :
  l ≡ₚ filter (fun x => f x = true) l ++ filter (fun x => f x = false) l.
Proof.
  induction l as [|x l IH]; [done|]. rewrite !filter_cons.
  destruct (f x) eqn:E.
  - rewrite decide_True, decide_False by congruence. simpl. by rewrite <- IH.
  - rewrite decide_False, decide_True by congruence. rewrite IH at 1. solve_Permutation.
Qed.

Lemma drop_expired_cases now budget b :
  drop_expired now budget b = (b, [])
  \/ (records (drop_expired now budget b).1 = filter (fun q => is_live now q = true) (records b)
      /\ bytes_ (drop_expired now budget b).1 = total (records (drop_expired now budget b).1)
      /\ map fst (drop_expired now budget b).2 = filter (fun q => is_live now q = false) (records b)).
Proof.
  unfold drop_expired. destruct (forallb _ _); [by left|right]. cbn [fst snd records bytes_].
  split_and!; [done|done|]. rewrite map_map. apply map_id.
Qed.

Lemma drop_expired_split now budget b :
  records b ≡ₚ records (drop_expired now budget b).1 ++ map fst (drop_expired now budget b).2.
Proof.
  destruct (drop_expired_cases now budget b) as [->|(-> & _ & ->)]; simpl; [by rewrite app_nil_r|].
  apply filter_bool_split.
Qed.

Lemma drop_expired_sublist now budget b :
  sublist (records (drop_expired now budget b).1) (records b).
Proof.
  destruct (drop_expired_cases now budget b) as [->|(-> & _ & _)]; [done|apply sublist_filter].
Qed.

(** What a batch keeps is live, and what it gives up has expired. *)
Lemma drop_expired_live now budget b :
  Forall (fun q => now < deadline q) (records (drop_expired now budget b).1)
  /\ Forall (fun d => deadline d.1 <= now) (drop_expired now budget b).2.
Proof.
  unfold drop_expired. destruct (forallb _ _) eqn:E.
  - split; [|constructor]. apply Forall_forall. intros q Hq. rewrite forallb_forall in E.
    apply list_elem_of_In, E in Hq. unfold is_live in Hq. lia.
  - cbn [fst snd records]. split.
    + apply Forall_forall. intros q [Hq _]%list_elem_of_filter. unfold is_live in Hq. lia.
    + apply list.Forall_fmap, Forall_forall. intros q [Hq _]%list_elem_of_filter.
      unfold is_live in Hq. simpl. lia.
Qed.

Lemma wf_drop_expired config now budget b :
  wf_batch config b -> nonempty (drop_expired now budget b).1 = true ->
  wf_batch config (drop_expired now budget b).1.
Proof.
  intros (Hne & Hsz & Hb) Hn. unfold nonempty in Hn. apply negb_true_iff, bool_decide_eq_false in Hn.
  pose proof (drop_expired_sublist now budget b) as Hsub.
  pose proof (total_sublist _ _ Hsub) as Hle. pose proof (sublist_length _ _ Hsub) as Hlen.
  destruct (drop_expired_cases now budget b) as [E|(_ & Hbytes & _)].
  - rewrite E in *. by split_and!.
  - split_and!; [done|by rewrite Hbytes|]. intros H2.
    destruct Hb as [Hb1 Hb2]; [lia|]. lia.
Qed.

Lemma flat_map_perm {A B} (f g : A -> list B) l :
  (forall x, x ∈ l -> f x ≡ₚ g x) -> flat_map f l ≡ₚ flat_map g l.
Proof.
  induction l as [|x l IH]; intros Hfg; simpl; [done|].
  rewrite (Hfg x) by left. rewrite IH; [done|]. intros y Hy. apply Hfg. by right.
Qed.

Lemma flat_map_split {A B} (f g h : A -> list B) l :
  (forall x, x ∈ l -> f x ≡ₚ g x ++ h x) -> flat_map f l ≡ₚ flat_map g l ++ flat_map h l.
Proof.
  intros Hf. rewrite (flat_map_perm f (fun x => g x ++ h x)) by done. clear Hf.
  induction l as [|x l IH]; simpl; [done|]. rewrite IH. solve_Permutation.
Qed.

Lemma flat_map_compose {A B C} (f : A -> B) (g : B -> list C) l :
  flat_map g (map f l) = flat_map (fun x => g (f x)) l.
Proof. induction l; simpl; congruence. Qed.

Lemma flat_map_map_out {A B C} (f : B -> C) (g : A -> list B) l :
  map f (flat_map g l) = flat_map (fun x => map f (g x)) l.
Proof. induction l; simpl; [done|]. by rewrite map_app, IHl. Qed.

Lemma flat_map_nonempty l :
  flat_map records (filter (fun b => nonempty b = true) l) = flat_map records l.
Proof.
  induction l as [|b l IH]; [done|]. rewrite filter_cons. simpl.
  destruct (decide (nonempty b = true)) as [Hb|Hb]; simpl; rewrite IH; [done|].
  unfold nonempty in Hb. apply not_true_iff_false, negb_false_iff, bool_decide_eq_true in Hb.
  by rewrite Hb.
Qed.

Lemma open_records_nonempty b :
  match (if nonempty b then Some b else None) with Some b => records b | None => [] end = records b.
Proof. unfold nonempty. case_bool_decide as E; simpl; [by rewrite E|done]. Qed.

Lemma buffered_expire_split now budget st :
  buffered st ≡ₚ buffered (expire_state now budget st).1 ++ map fst (expire_state now budget st).2.
Proof.
  unfold buffered, expire_state. cbn [fst snd open pending].
  rewrite flat_map_nonempty, map_app, flat_map_map_out, !flat_map_compose.
  rewrite (flat_map_split records (fun b => records (drop_expired now budget b).1)
             (fun b => map fst (drop_expired now budget b).2))
    by (intros b _; apply drop_expired_split).
  destruct (open st) as [b|]; simpl.
  - destruct (drop_expired now budget b) as [b' dead] eqn:E.
    rewrite open_records_nonempty. pose proof (drop_expired_split now budget b) as Hb.
    rewrite E in Hb. simpl in Hb. rewrite Hb. solve_Permutation.
  - solve_Permutation.
Qed.

Lemma flat_map_sublist {A B} (f g : A -> list B) l :
  (forall x, sublist (f x) (g x)) -> sublist (flat_map f l) (flat_map g l).
Proof. intros Hfg. induction l; simpl; [done|]. apply sublist_app; [apply Hfg|done]. Qed.

Lemma buffered_expire_sublist now budget st :
  sublist (buffered (expire_state now budget st).1) (buffered st).
Proof.
  unfold buffered, expire_state. cbn [fst snd open pending].
  rewrite flat_map_nonempty, !flat_map_compose. apply sublist_app.
  - apply (flat_map_sublist (fun b => records (drop_expired now budget b).1)). intros b. apply drop_expired_sublist.
  - destruct (open st) as [b|]; simpl; [|done].
    destruct (drop_expired now budget b) as [b' dead] eqn:E. rewrite open_records_nonempty.
    pose proof (drop_expired_sublist now budget b) as Hb. by rewrite E in Hb.
Qed.

Lemma wf_expire config now budget st :
  wf_state config st -> wf_state config (expire_state now budget st).1.
Proof.
  unfold wf_state, state_batches, expire_state. cbn [fst open pending].
  rewrite !Forall_app. intros [Ho Hp]. split.
  - destruct (open st) as [b|]; simpl in *; [|constructor]. apply Forall_cons in Ho as [Ho _].
    pose proof (wf_drop_expired config now budget b Ho) as Hb.
    destruct (drop_expired now budget b) as [b' dead]. destruct (nonempty b') eqn:En; [|constructor].
    simpl. constructor; [by apply Hb|constructor].
  - apply Forall_forall. intros b' [Hn Hin]%list_elem_of_filter.
    rewrite map_map in Hin. apply list_elem_of_fmap in Hin as (b & -> & Hin).
    rewrite Forall_forall in Hp. by apply wf_drop_expired; [apply Hp|].
Qed.

(** ** All partitions *)

Abbreviation Partitions := (gmap (string * Z) PartitionState).

Definition all_buffered (m : Partitions) : list Queued :=
  flat_map (fun '(_, st) => buffered st) (map_to_list m).

(** The state of a partition the actor may not have an entry for. *)
Definition look (m : Partitions) (k : string * Z) : PartitionState :=
  default default_partition (m !! k).

Lemma all_buffered_empty : all_buffered ∅ = [].
Proof. unfold all_buffered. by rewrite map_to_list_empty. Qed.

Lemma all_buffered_insert m k st :
  all_buffered (<[k := st]> m) ≡ₚ buffered st ++ all_buffered (delete k m).
Proof.
  unfold all_buffered. rewrite <- insert_delete_eq.
  rewrite map_to_list_insert by apply lookup_delete_eq. done.
Qed.

Lemma all_buffered_look m k : all_buffered m ≡ₚ buffered (look m k) ++ all_buffered (delete k m).
Proof.
  unfold look. destruct (m !! k) as [st|] eqn:E.
  - rewrite <- (insert_id m k st E) at 1. apply all_buffered_insert.
  - by rewrite delete_id.
Qed.

Lemma all_buffered_fmap (f : PartitionState -> PartitionState) (d : PartitionState -> list Queued) m :
  (forall st, buffered st ≡ₚ buffered (f st) ++ d st) ->
  all_buffered m ≡ₚ all_buffered (f <$> m) ++ flat_map (fun '(_, st) => d st) (map_to_list m).
Proof.
  intros Hf. unfold all_buffered. rewrite map_to_list_fmap.
  induction (map_to_list m) as [|[k st] l IH]; simpl; [done|].
  rewrite IH, (Hf st). solve_Permutation.
Qed.

Lemma all_buffered_fmap_same (f : PartitionState -> PartitionState) m :
  (forall st, buffered (f st) = buffered st) -> all_buffered (f <$> m) ≡ₚ all_buffered m.
Proof.
  intros Hf. rewrite (all_buffered_fmap f (fun _ => []) m).
  - replace (flat_map _ (map_to_list m)) with (@nil Queued); [by rewrite app_nil_r|].
    induction (map_to_list m) as [|[] l IH]; [done|]. simpl. done.
  - intros st. by rewrite Hf, app_nil_r.
Qed.

Lemma idle_inv st : idle st = true <-> open st = None /\ pending st = [] /\ in_flight st = false.
Proof.
  unfold idle. destruct (open st); [split; [done|by intros []]|].
  destruct (pending st); [|split; [done|by intros (_ & ? & _)]].
  rewrite negb_true_iff. naive_solver.
Qed.

Lemma idle_default st : idle st = true -> st = default_partition.
Proof. rewrite idle_inv. destruct st; simpl. by intros (-> & -> & ->). Qed.

Lemma all_buffered_forget m :
  all_buffered (filter (fun '(_, st) => idle st = false) m) ≡ₚ all_buffered m.
Proof.
  induction m as [|k st m Hk IH] using map_ind; [by rewrite map_filter_empty|].
  rewrite all_buffered_insert, delete_id by done.
  destruct (idle st) eqn:E.
  - rewrite map_filter_insert_False by (rewrite E; done). rewrite delete_id by done.
    rewrite IH. apply idle_default in E as ->. done.
  - rewrite map_filter_insert_True by done. rewrite all_buffered_insert, delete_id.
    + by rewrite IH.
    + apply map_lookup_filter_None. by left.
Qed.

Lemma look_fmap (f : PartitionState -> PartitionState) m k :
  f default_partition = default_partition -> look (f <$> m) k = f (look m k).
Proof. intros Hf. unfold look. rewrite lookup_fmap. by destruct (m !! k). Qed.

Lemma look_insert m k st : look (<[k := st]> m) k = st.
Proof. unfold look. by rewrite lookup_insert_eq. Qed.

Lemma look_insert_ne m k k' st : k <> k' -> look (<[k := st]> m) k' = look m k'.
Proof. intros Hne. unfold look. by rewrite lookup_insert_ne. Qed.

Lemma look_forget m k : look (filter (fun '(_, st) => idle st = false) m) k = look m k.
Proof.
  unfold look. rewrite map_lookup_filter. destruct (m !! k) as [st|]; simpl; [|done].
  case_guard as Hg; simpl; [done|]. apply not_false_iff_true in Hg. by apply idle_default in Hg.
Qed.

(** ** One partition's dispatch *)

Definition ready_key (r : Ready) : string * Z := (topic r, partition r).

(** What one dispatched batch [r] takes from its partition. *)
Definition taken (m m' : Partitions) (r : Ready) : Prop :=
  exists b rest, in_flight (look m (ready_key r)) = false
    /\ pending (look m (ready_key r)) = b :: rest
    /\ ready_records r = records b
    /\ look m' (ready_key r) = {| open := open (look m (ready_key r)); pending := rest;
                                  in_flight := true |}.

(** What a pass over some partitions did: the batches [D] it took. *)
Record Dispatched (m m' : Partitions) (D : list Ready) : Prop := {
  dis_keys : NoDup (map ready_key D);
  dis_other : forall k, k ∉ map ready_key D -> m' !! k = m !! k;
  dis_taken : Forall (taken m m') D;
  dis_buffered : all_buffered m ≡ₚ flat_map ready_records D ++ all_buffered m';
}.

Lemma dispatched_nil m : Dispatched m m [].
Proof. split; [constructor|done|constructor|done]. Qed.

(** Taking one more batch, of a partition not touched so far. *)
Lemma dispatched_cons m k st b rest r m' D :
  m !! k = Some st -> in_flight st = false -> pending st = b :: rest ->
  ready_key r = k -> ready_records r = records b -> k ∉ map ready_key D ->
  Dispatched (<[k := {| open := open st; pending := rest; in_flight := true |}]> m) m' D ->
  Dispatched m m' (r :: D).
Proof.
  intros Hk Hf Hp Hr Hrec Hn [H1 H2 H3 H4].
  assert (Hm' : m' !! k = Some {| open := open st; pending := rest; in_flight := true |}).
  { rewrite H2 by done. apply lookup_insert_eq. }
  assert (Hlook : look m k = st) by (unfold look; by rewrite Hk).
  split.
  - simpl. rewrite Hr. by constructor.
  - intros k' Hk'. simpl in Hk'. rewrite Hr, not_elem_of_cons in Hk'. destruct Hk' as [Hne Hk'].
    rewrite H2 by done. by rewrite lookup_insert_ne.
  - constructor.
    + exists b, rest. rewrite Hr, Hlook. split_and!; [done..|]. unfold look. by rewrite Hm'.
    + rewrite Forall_forall in H3 |- *. intros r' Hin.
      assert (Hne : ready_key r' <> k).
      { intros E. apply Hn. rewrite <- E. apply list_elem_of_fmap. by exists r'. }
      destruct (H3 r' Hin) as (b' & rest' & Ht). exists b', rest'.
      by rewrite look_insert_ne in Ht by done.
  - simpl. rewrite Hrec, <- app_assoc, <- H4, (all_buffered_look m k), Hlook, all_buffered_insert.
    unfold buffered. cbn [open pending]. rewrite Hp. simpl. by rewrite <- !app_assoc.
Qed.

Section pass.
Context (self : Actor) (transactional : bool) (enrolled : gset (string * Z)).
Context (snapshot : string * Z -> option Z).

(** The numbering after a pass, and the stamps of its batches. *)
Definition stamped (s s' : Sequences) (D : list Ready) : Prop :=
  Forall (fun r => identity r
     = (fun issued => {| b_producer_id := producer_id issued;
                         b_producer_epoch := producer_epoch issued;
                         base_sequence := IdempotenceFacts.expected s (ready_key r);
                         Idempotence.transactional := transactional |}) <$> actor_identity self) D
  /\ (forall k, k ∉ map ready_key D -> IdempotenceFacts.expected s' k = IdempotenceFacts.expected s k)
  /\ (forall r, r ∈ D -> actor_identity self <> None ->
        IdempotenceFacts.expected s' (ready_key r)
        = i32_wrap (IdempotenceFacts.expected s (ready_key r) + count_i32 (length (ready_records r)))).

Lemma dispatch_pass l : forall m s g m' s' g',
  NoDup l.*1 -> (forall k st, (k, st) ∈ l -> m !! k = Some st) ->
  foldl (dispatch_one self transactional enrolled snapshot) (m, s, g) l = (m', s', g') ->
  exists D, map snd (flat g') ≡ₚ map snd (flat g) ++ D
    /\ Dispatched m m' D /\ stamped s s' D
    /\ (forall k, k ∈ map ready_key D -> k ∈ l.*1)
    /\ (transactional = true -> Forall (fun r => ready_key r ∈ enrolled) D).
Proof.
  induction l as [|[k st] l IH]; intros m s g m' s' g' Hnd Hl Hfold.
  { injection Hfold as <- <- <-. exists []. rewrite app_nil_r.
    split_and!; [done|apply dispatched_nil| |set_solver|constructor].
    split_and!; [constructor|done|]. intros r Hr. by apply elem_of_nil in Hr. }
  cbn [foldl fmap list_fmap fst] in *. apply NoDup_cons in Hnd as [Hk Hnd].
  assert (Hskip : dispatch_one self transactional enrolled snapshot (m, s, g) (k, st) = (m, s, g) ->
    exists D, map snd (flat g') ≡ₚ map snd (flat g) ++ D
    /\ Dispatched m m' D /\ stamped s s' D
    /\ (forall k', k' ∈ map ready_key D -> k' ∈ k :: l.*1)
    /\ (transactional = true -> Forall (fun r => ready_key r ∈ enrolled) D)).
  { intros E. rewrite E in Hfold.
    destruct (IH m s g m' s' g') as (D & H1 & H2 & H3 & H4 & H5); [done| |done|].
    - intros k' st' Hin. apply Hl. by right.
    - exists D. split_and!; [done..| |done]. intros k' Hin. right. by apply H4. }
  cbn [dispatch_one] in Hskip, Hfold.
  destruct (in_flight st) eqn:Hfl; [by apply Hskip|].
  destruct (transactional && bool_decide (k ∉ enrolled)) eqn:Htx; [by apply Hskip|].
  destruct (pending st) as [|b rest] eqn:Hp; [by apply Hskip|]. clear Hskip.
  set (m1 := <[k := _]> m) in Hfold.
  destruct (match actor_identity self with Some _ => _ | None => _ end) as [s1 id1] eqn:Hid.
  set (r := {| topic := k.1; partition := k.2; ready_records := records b; identity := id1 |}) in Hfold.
  assert (Hrk : ready_key r = k) by (by destruct k).
  destruct (IH m1 s1 (push_to g (snapshot k) r) m' s' g') as (D & H1 & H2 & H3 & H4 & H5); [done| |done|].
  { intros k' st' Hin. subst m1. rewrite lookup_insert_ne; [apply Hl; by right|].
    intros ->. apply Hk. apply list_elem_of_fmap. by exists (k', st'). }
  assert (HkD : k ∉ map ready_key D) by (intros Hin; by apply Hk, H4).
  assert (Hs1 : (forall k', k' <> k -> IdempotenceFacts.expected s1 k' = IdempotenceFacts.expected s k')
    /\ id1 = (fun issued => {| b_producer_id := producer_id issued;
                         b_producer_epoch := producer_epoch issued;
                         base_sequence := IdempotenceFacts.expected s k;
                         Idempotence.transactional := transactional |}) <$> actor_identity self
    /\ (actor_identity self <> None -> IdempotenceFacts.expected s1 k
         = i32_wrap (IdempotenceFacts.expected s k + count_i32 (length (records b))))).
  { destruct (actor_identity self) as [issued|]; [|by injection Hid as <- <-].
    pose proof (IdempotenceFacts.reserve_base s k (length (records b))) as E1.
    pose proof (IdempotenceFacts.reserve_expected s k (length (records b))) as E2.
    pose proof (fun k' => IdempotenceFacts.reserve_expected_ne s k (length (records b)) k') as E3.
    destruct (reserve s k (length (records b))) as [s2 base]. injection Hid as <- <-.
    cbn [fst snd] in *. split_and!; [intros k' Hne; by apply E3|simpl; by rewrite E1|done]. }
  destruct Hs1 as (Hs1 & Hid1 & Hs1k). destruct H3 as (H31 & H32 & H33).
  exists (r :: D). split_and!.
  - rewrite H1, flat_push, map_app. simpl. by rewrite <- app_assoc.
  - by eapply dispatched_cons; [apply Hl; left|..].
  - split_and!.
    + constructor; [by rewrite Hrk|]. rewrite Forall_forall in H31 |- *. intros r' Hin.
      rewrite H31 by done. rewrite Hs1; [done|]. intros E. apply HkD. rewrite <- E.
      apply list_elem_of_fmap. by exists r'.
    + intros k' Hk'. cbn [map] in Hk'. rewrite Hrk, not_elem_of_cons in Hk'.
      destruct Hk' as [Hne Hk']. rewrite H32 by done. by apply Hs1.
    + intros r' [->|Hin]%elem_of_cons Hne.
      * rewrite Hrk, H32 by done. by apply Hs1k.
      * rewrite H33, Hs1; [done| |done|done]. intros E. apply HkD. rewrite <- E.
        apply list_elem_of_fmap. by exists r'.
  - intros k'. cbn [map]. rewrite Hrk, !elem_of_cons. intros [->|Hin]; [by left|right; by apply H4].
  - intros Ht. constructor; [|by apply H5]. rewrite Hrk. rewrite Ht in Htx. simpl in Htx.
    apply bool_decide_eq_false in Htx. by destruct (decide (k ∈ enrolled)).
Qed.

End pass.

End AccumulatorFacts.
