(* ===== verification/TurnFacts.v ===== *)
(** What one turn of the accumulator's loop does to the buffered records, the
    partitions in flight and the batches: its operations composed. *)

From S2P Require Import Prelude Sanitize ErrorCodes ApiKeys Retry Idempotence Transactions BatchDecode Encode Dispatch Accumulator AccumulatorFacts.
From Stdlib Require Import QArith.
Open Scope Z_scope.

Module TurnFacts.
Import ProducerConfig ProducerRecord Idempotence Accumulator AccumulatorFacts.

Definition wf_all (c : ProducerConfig) (m : Partitions) : Prop :=
  map_Forall (fun _ st => wf_state c st) m.

(** ** Operations that only resolve buffered records *)

(** Some buffered records are resolved; the others keep their order, nothing starts
    or ends on the wire, and batches stay well formed. *)
Record Resolves (c : ProducerConfig) (m m' : Partitions) (out : list Delivery) : Prop := {
  rs_buffered : all_buffered m ≡ₚ all_buffered m' ++ map fst out;
  rs_line : forall k, sublist (buffered (look m' k)) (buffered (look m k));
  rs_flight : forall k, in_flight (look m' k) = in_flight (look m k);
  rs_wf : wf_all c m -> wf_all c m';
}.

Lemma resolves_refl c m : Resolves c m m [].
Proof. split; [by rewrite app_nil_r|done|done|done]. Qed.

Lemma resolves_trans c m1 m2 m3 out1 out2 :
  Resolves c m1 m2 out1 -> Resolves c m2 m3 out2 -> Resolves c m1 m3 (out1 ++ out2).
Proof.
  intros [A1 A2 A3 A4] [B1 B2 B3 B4]. split.
  - rewrite A1, B1, map_app. solve_Permutation.
  - intros k. etrans; [apply B2|apply A2].
  - intros k. by rewrite B3, A3.
  - auto.
Qed.

(** The same function on every partition. *)
Lemma resolves_fmap c (f : PartitionState -> PartitionState) (d : PartitionState -> list Delivery) m :
  f default_partition = default_partition ->
  (forall st, buffered st ≡ₚ buffered (f st) ++ map fst (d st)) ->
  (forall st, sublist (buffered (f st)) (buffered st)) ->
  (forall st, in_flight (f st) = in_flight st) ->
  (forall st, wf_state c st -> wf_state c (f st)) ->
  Resolves c m (f <$> m) (flat_map (fun '(_, st) => d st) (map_to_list m)).
Proof.
  intros H0 H1 H2 H3 H4. split.
  - rewrite (all_buffered_fmap f (fun st => map fst (d st))) by done. f_equiv.
    rewrite flat_map_map_out. apply reflexive_eq, flat_map_ext. by intros [].
  - intros k. rewrite look_fmap by done. apply H2.
  - intros k. rewrite look_fmap by done. apply H3.
  - intros Hwf k st. rewrite lookup_fmap. destruct (m !! k) as [st'|] eqn:E; simpl; [|done].
    intros [= <-]. apply H4. by eapply Hwf.
Qed.

Lemma expire_resolves self now :
  Resolves (config self) (partitions self) (partitions (expire_overdue self now).1)
    (expire_overdue self now).2
  /\ config (expire_overdue self now).1 = config self.
Proof.
  split; [|done]. unfold expire_overdue. cbn [fst snd partitions with_partitions].
  apply (resolves_fmap (config self)
           (fun st => (expire_state now (delivery_timeout (config self)) st).1)
           (fun st => (expire_state now (delivery_timeout (config self)) st).2)); try done.
  - apply buffered_expire_split.
  - apply buffered_expire_sublist.
  - apply wf_expire.
Qed.

Lemma wf_drained c st : wf_state c (drained st).
Proof. constructor. Qed.

Lemma fail_buffered_resolves c m e :
  Resolves c m (fail_buffered m e).1 (fail_buffered m e).2.
Proof.
  unfold fail_buffered. cbn [fst snd].
  apply (resolves_fmap c drained (fail_state e)); try done.
  - intros st. unfold fail_state. rewrite map_map. cbn [fst resolve]. rewrite map_id.
    unfold buffered. simpl. apply Permutation_app_comm.
  - intros st. apply sublist_nil_l.
  - intros st _. apply wf_drained.
Qed.

Lemma identity_resolves `{KafkaProtocol} self tx send_any :
  Resolves (config self) (partitions self) (partitions (ensure_identity self tx send_any).1)
    (ensure_identity self tx send_any).2
  /\ config (ensure_identity self tx send_any).1 = config self.
Proof.
  unfold ensure_identity. destruct tx as [t|].
  { destruct (decide _); (split; [apply resolves_refl|done]). }
  destruct (_ || _); [split; [apply resolves_refl|done]|].
  destruct (init_producer_id send_any) as [i|e]; [split; [apply resolves_refl|done]|].
  destruct (Error.retriable e); [split; [apply resolves_refl|done]|].
  split; [|done]. apply (fail_buffered_resolves (config self) (partitions self) e).
Qed.

Lemma fail_pending_resolves c e keys : forall m out,
  exists out', (foldl (fail_pending e) (m, out) keys).2 = out ++ out'
    /\ Resolves c m (foldl (fail_pending e) (m, out) keys).1 out'.
Proof.
  induction keys as [|k keys IH]; intros m out.
  { exists []. cbn [foldl fst snd]. rewrite app_nil_r. split; [done|apply resolves_refl]. }
  cbn [foldl]. unfold fail_pending at 2 4. cbn [fst snd].
  destruct (m !! k) as [st|] eqn:Hk; [|apply IH].
  set (st' := {| open := open st; pending := []; in_flight := in_flight st |}).
  set (o := map _ _). destruct (IH (<[k := st']> m) (out ++ o)) as (out' & -> & Hr).
  exists (o ++ out'). split; [by rewrite app_assoc|].
  eapply resolves_trans; [|exact Hr].
  assert (Hlook : look m k = st) by (unfold look; by rewrite Hk).
  split.
  - rewrite all_buffered_insert, (all_buffered_look m k), Hlook. subst o st'. rewrite map_map.
    cbn [fst resolve]. rewrite map_id. unfold buffered. cbn [open pending flat_map].
    solve_Permutation.
  - intros k'. destruct (decide (k = k')) as [<-|Hne]; [|by rewrite look_insert_ne].
    rewrite look_insert, Hlook. unfold buffered, st'. simpl. apply sublist_inserts_l. done.
  - intros k'. destruct (decide (k = k')) as [<-|Hne]; [|by rewrite look_insert_ne].
    by rewrite look_insert, Hlook.
  - intros Hwf. apply map_Forall_insert_2; [|done]. pose proof (Hwf k st Hk) as Hst.
    unfold wf_state, state_batches in *. apply Forall_app in Hst as [Ho _]. simpl.
    by rewrite app_nil_r.
Qed.

Lemma enrolled_resolves self tx enrol :
  Resolves (config self) (partitions self) (partitions (ensure_enrolled self tx enrol).1)
    (ensure_enrolled self tx enrol).2
  /\ config (ensure_enrolled self tx enrol).1 = config self.
Proof.
  unfold ensure_enrolled. destruct tx as [t|]; [|split; [apply resolves_refl|done]].
  destruct (negb _); [split; [apply resolves_refl|done]|].
  destruct (Transactions.unenrolled _ _) as [|k keys]; [split; [apply resolves_refl|done]|].
  destruct (enrol (k :: keys)) as [[]|e]; [split; [apply resolves_refl|done]|].
  destruct (fail_pending_resolves (config self) e (k :: keys) (partitions self) [])
    as (out & H1 & H2).
  destruct (foldl _ _ _) as [m failed]. cbn [fst snd app] in *. subst. by split.
Qed.

(** ** The event *)

(** The record an event brings, and its partition. *)
Definition incoming (event : Event) : list ((string * Z) * Queued) :=
  match event with
  | Received (Append topic partition queued) => [((topic, partition), queued)]
  | _ => []
  end.

(** The partitions an event frees. *)
Definition freed_by (event : Event) : list (string * Z) :=
  match event with Finished completed => partitions_done completed | _ => [] end.

(** The records of a keyed list that are for one partition. *)
Definition at_key {A} (k : string * Z) (l : list ((string * Z) * A)) : list A :=
  map snd (filter (fun x => x.1 = k) l).

Lemma at_key_app {A} k (l1 l2 : list ((string * Z) * A)) :
  at_key k (l1 ++ l2) = at_key k l1 ++ at_key k l2.
Proof. unfold at_key. by rewrite filter_app, map_app. Qed.

Lemma at_key_cons {A} k k' (x : A) l :
  at_key k ((k', x) :: l) = if decide (k' = k) then x :: at_key k l else at_key k l.
Proof. unfold at_key. rewrite filter_cons. simpl. by destruct (decide (k' = k)). Qed.

(** What an event does before the turn's passes. *)
Record Handled (c : ProducerConfig) (m m' : Partitions) (event : Event) : Prop := {
  hd_buffered : all_buffered m' ≡ₚ all_buffered m ++ map snd (incoming event);
  hd_line : forall k, buffered (look m' k) = buffered (look m k) ++ at_key k (incoming event);
  hd_flight : forall k, in_flight (look m' k)
      = in_flight (look m k) && negb (bool_decide (k ∈ freed_by event));
  hd_wf : wf_all c m -> wf_all c m';
}.

Lemma handled_fmap c (f : PartitionState -> PartitionState) m event :
  incoming event = [] -> freed_by event = [] ->
  f default_partition = default_partition ->
  (forall st, buffered (f st) = buffered st) -> (forall st, in_flight (f st) = in_flight st) ->
  (forall st, wf_state c st -> wf_state c (f st)) ->
  Handled c m (f <$> m) event.
Proof.
  intros Hi Hfr H0 H1 H2 H3. split.
  - rewrite Hi, app_nil_r. by apply all_buffered_fmap_same.
  - intros k. rewrite look_fmap, H1, Hi by done. unfold at_key. by rewrite app_nil_r.
  - intros k. rewrite look_fmap, H2, Hfr, bool_decide_false by (done || apply not_elem_of_nil).
    by rewrite andb_true_r.
  - intros Hwf k st. rewrite lookup_fmap. destruct (m !! k) as [st'|] eqn:E; simpl; [|done].
    intros [= <-]. apply H3. by eapply Hwf.
Qed.

Lemma handled_append c m now t p q :
  Handled c m
    (<[(t, p) := append_to c now q (look m (t, p))]> m) (Received (Append t p q)).
Proof.
  split; cbn [incoming freed_by map snd].
  - rewrite all_buffered_insert, buffered_append, (all_buffered_look m (t, p)). solve_Permutation.
  - intros k. rewrite at_key_cons. destruct (decide ((t, p) = k)) as [<-|Hne].
    + by rewrite look_insert, buffered_append.
    + rewrite look_insert_ne by done. unfold at_key. simpl. by rewrite app_nil_r.
  - intros k. rewrite bool_decide_false by apply not_elem_of_nil. rewrite andb_true_r.
    destruct (decide ((t, p) = k)) as [<-|Hne]; [|by rewrite look_insert_ne].
    by rewrite look_insert, in_flight_append.
  - intros Hwf. apply map_Forall_insert_2; [|done]. apply wf_state_append.
    unfold look. destruct (m !! (t, p)) as [st|] eqn:E; simpl; [by eapply Hwf|constructor].
Qed.

(** Freeing partitions touches only the flag. *)
Definition land (st : PartitionState) : PartitionState :=
  {| open := open st; pending := pending st; in_flight := false |}.

Lemma land_look keys : forall (m : Partitions) k,
  look (foldl (fun m key => alter land key m) m keys) k
  = if decide (k ∈ keys) then land (look m k) else look m k.
Proof.
  induction keys as [|k' keys IH]; intros m k; cbn [foldl].
  - rewrite decide_False by apply not_elem_of_nil. done.
  - rewrite IH. assert (Ha : look (alter land k' m) k = if decide (k = k') then land (look m k) else look m k).
    { unfold look. rewrite lookup_alter. case_decide as Hd.
      - subst. rewrite decide_True by done. by destruct (m !! k).
      - rewrite decide_False by congruence. done. }
    rewrite Ha. destruct (decide (k ∈ keys)), (decide (k = k')), (decide (k ∈ k' :: keys));
      try done; set_solver.
Qed.

Lemma land_buffered keys : forall (m : Partitions),
  all_buffered (foldl (fun m key => alter land key m) m keys) ≡ₚ all_buffered m.
Proof.
  induction keys as [|k keys IH]; intros m; cbn [foldl]; [done|]. rewrite IH.
  destruct (m !! k) as [st|] eqn:E.
  - rewrite <- (insert_id m k st E) at 1. rewrite alter_insert_eq.
    rewrite all_buffered_insert, (all_buffered_look m k). unfold look. by rewrite E.
  - by rewrite alter_id by (intros x Hx; by rewrite E in Hx).
Qed.

Lemma land_wf c keys : forall (m : Partitions),
  wf_all c m -> wf_all c (foldl (fun m key => alter land key m) m keys).
Proof.
  induction keys as [|k keys IH]; intros m Hwf; cbn [foldl]; [done|]. apply IH.
  intros k' st. rewrite lookup_alter_Some. intros [(<- & st' & Hst & ->)|[_ Hst]];
    [exact (Hwf _ _ Hst)|exact (Hwf _ _ Hst)].
Qed.

Lemma settle_partitions self completed :
  partitions (settle self completed)
  = foldl (fun m key => alter land key m) (partitions self) (partitions_done completed)
  /\ config (settle self completed) = config self.
Proof. unfold settle. by destruct (reset_identity completed). Qed.

Lemma handle_event_handled self now event :
  Handled (config self) (partitions self) (partitions (handle_event self now event)) event
  /\ config (handle_event self now event) = config self.
Proof.
  destruct event as [[t p q|w]| |completed|]; cbn [handle_event handle].
  - split; [|done]. apply handled_append.
  - split; [|done]. apply handled_fmap; try done; [apply buffered_close|apply in_flight_close|
      apply wf_state_close].
  - split; [|done]. apply handled_fmap; try done; [apply buffered_close|apply in_flight_close|
      apply wf_state_close].
  - destruct (settle_partitions self completed) as [Hp Hc]. rewrite Hp. split; [|done].
    split; cbn [incoming freed_by map].
    + by rewrite app_nil_r, land_buffered.
    + intros k. rewrite land_look. unfold at_key. simpl. rewrite app_nil_r. by case_decide.
    + intros k. rewrite land_look. case_decide as Hd.
      * rewrite bool_decide_true by done. simpl. by rewrite andb_false_r.
      * rewrite bool_decide_false by done. by rewrite andb_true_r.
    + apply land_wf.
  - split; [|done]. apply (handled_fmap _ (fun state => if linger_expired _ _ state then _ else _));
      try done.
    + intros st. destruct (linger_expired _ _ _); [apply buffered_close|done].
    + intros st. destruct (linger_expired _ _ _); [apply in_flight_close|done].
    + intros st. destruct (linger_expired _ _ _); [apply wf_state_close|done].
Qed.

(** ** Dispatch *)

Lemma concat_groups {A B} `{Countable A} (g : gmap A (list B)) :
  concat (map snd (map_to_list g)) = map snd (flat g).
Proof.
  unfold flat. induction (map_to_list g) as [|[k l] ls IH]; simpl; [done|].
  rewrite map_app, map_map, IH. simpl. by rewrite map_id.
Qed.

Lemma dispatched_perm m m' D D' : D ≡ₚ D' -> Dispatched m m' D -> Dispatched m m' D'.
Proof.
  intros E [H1 H2 H3 H4].
  assert (Ek : map ready_key D ≡ₚ map ready_key D') by (by apply Permutation_map).
  split.
  - by rewrite <- Ek.
  - intros k. rewrite <- Ek. apply H2.
  - by rewrite <- E.
  - rewrite H4. f_equiv. by apply Permutation_flat_map.
Qed.

Lemma stamped_perm self tx s s' D D' : D ≡ₚ D' -> stamped self tx s s' D -> stamped self tx s s' D'.
Proof.
  intros E (H1 & H2 & H3).
  assert (Ek : map ready_key D ≡ₚ map ready_key D') by (by apply Permutation_map).
  split_and!.
  - by rewrite <- E.
  - intros k. rewrite <- Ek. apply H2.
  - intros r. rewrite <- E. apply H3.
Qed.

(** What the dispatch of a turn did. *)
Lemma dispatch_ready_spec self tx leaders :
  let out := dispatch_ready self tx leaders in
  let D := concat out.2 in
  Dispatched (partitions self) (partitions out.1) D
  /\ config out.1 = config self /\ flush_waiters out.1 = flush_waiters self
  /\ actor_identity out.1 = actor_identity self
  /\ stamped self (match tx with Some t => Transactions.is_open t | None => false end)
       (sequences self) (sequences out.1) D
  /\ (idempotent (config self) = true -> D <> [] -> actor_identity self <> None)
  /\ (forall t, tx = Some t -> Transactions.is_open t = true ->
       Forall (fun r => Transactions.unenrolled t [ready_key r] = []) D).
Proof.
  unfold dispatch_ready. destruct (_ && _) eqn:Hhold; cbn [fst snd concat].
  { split_and!; [apply dispatched_nil|done|done|done| |done|].
    - split_and!; [constructor|done|]. intros r Hr. by apply elem_of_nil in Hr.
    - intros t _ _. constructor. }
  set (transactional := match tx with Some t => Transactions.is_open t | None => false end).
  set (enrolled := if transactional then _ else _).
  destruct (foldl _ _ _) as [[m s] g] eqn:Hfold. cbn [fst snd].
  apply (dispatch_pass self transactional enrolled leaders) in Hfold as (D & H1 & H2 & H3 & H4 & H5).
  2: { apply NoDup_fst_map_to_list. }
  2: { intros k st Hin. by apply elem_of_map_to_list in Hin. }
  assert (HD : D ≡ₚ concat (map snd (map_to_list g))).
  { rewrite concat_groups, H1, flat_empty. done. }
  split_and!; [by eapply dispatched_perm|done|done|done|by eapply stamped_perm| |].
  - intros Hi _ Hn. rewrite Hi, Hn in Hhold. by rewrite bool_decide_true in Hhold.
  - intros t -> Ho. assert (Ht : transactional = true) by done. specialize (H5 Ht).
    rewrite <- HD. eapply Forall_impl; [exact H5|]. intros r. subst enrolled. rewrite Ht.
    rewrite elem_of_filter. by intros [Hr _].
Qed.

Lemma wf_tail c st b rest fl :
  wf_state c st -> pending st = b :: rest ->
  wf_batch c b /\ wf_state c {| open := open st; pending := rest; in_flight := fl |}.
Proof.
  unfold wf_state, state_batches. rewrite !Forall_app. cbn [open pending].
  intros [Ho Hp] E. rewrite E in Hp. apply Forall_cons in Hp as [Hb Hr]. done.
Qed.

(** Of distinct keys at most one batch is for a given partition. *)
Lemma filter_key_nil D k : (k ∉ map ready_key D) -> filter (fun r => ready_key r = k) D = [].
Proof.
  intros Hk. apply list_filter_none, Forall_forall. intros r Hr E. apply Hk. rewrite <- E.
  apply list_elem_of_fmap. by exists r.
Qed.

Lemma filter_key_one D r : NoDup (map ready_key D) -> r ∈ D ->
  filter (fun r' => ready_key r' = ready_key r) D = [r].
Proof.
  induction D as [|r' D IH]; intros Hnd Hin; [by apply elem_of_nil in Hin|].
  simpl in Hnd. apply NoDup_cons in Hnd as [Hn Hnd]. apply elem_of_cons in Hin as [->|Hin].
  - rewrite filter_cons, decide_True by done. by rewrite filter_key_nil.
  - rewrite filter_cons, decide_False; [by apply IH|]. intros E. apply Hn. rewrite E.
    apply list_elem_of_fmap. by exists r.
Qed.

Lemma dispatched_line m m' D k :
  Dispatched m m' D ->
  flat_map ready_records (filter (fun r => ready_key r = k) D) ++ buffered (look m' k)
  = buffered (look m k)
  /\ in_flight (look m' k) = in_flight (look m k) || bool_decide (k ∈ map ready_key D)
  /\ (k ∈ map ready_key D -> in_flight (look m k) = false).
Proof.
  intros [H1 H2 H3 _]. destruct (decide (k ∈ map ready_key D)) as [Hin|Hin].
  - apply list_elem_of_fmap in Hin as (r & -> & Hin).
    rewrite Forall_forall in H3. destruct (H3 r Hin) as (b & rest & Hfl & Hp & Hr & Hm').
    rewrite filter_key_one by done. cbn [flat_map]. rewrite Hm', Hr, app_nil_r.
    unfold buffered. cbn [open pending in_flight]. rewrite Hp. cbn [flat_map].
    rewrite bool_decide_true, orb_true_r by (apply list_elem_of_fmap; by exists r).
    split_and!; [by rewrite <- app_assoc|done|done].
  - rewrite filter_key_nil, bool_decide_false, orb_false_r by done.
    assert (E : look m' k = look m k) by (unfold look; by rewrite H2). by rewrite E.
Qed.

Lemma dispatched_wf c m m' D :
  Dispatched m m' D -> wf_all c m ->
  wf_all c m' /\ Forall (fun r => exists b, ready_records r = records b /\ wf_batch c b) D.
Proof.
  intros [H1 H2 H3 _] Hwf.
  assert (Hlook : forall k, wf_state c (look m k)).
  { intros k. unfold look. destruct (m !! k) as [st|] eqn:E; [by eapply Hwf|constructor]. }
  rewrite Forall_forall in H3. split.
  - intros k st Hst. destruct (decide (k ∈ map ready_key D)) as [Hin|Hin].
    + apply list_elem_of_fmap in Hin as (r & -> & Hin).
      destruct (H3 r Hin) as (b & rest & _ & Hp & _ & Hm').
      unfold look in Hm' at 1. rewrite Hst in Hm'. simpl in Hm'. subst st.
      by eapply wf_tail.
    + rewrite H2 in Hst by done. by eapply Hwf.
  - apply Forall_forall. intros r Hin. destruct (H3 r Hin) as (b & rest & _ & Hp & Hr & _).
    exists b. split; [done|]. by eapply (wf_tail c _ b rest false).
Qed.

(** ** The whole turn *)

(** Everything a turn does to the partitions. *)
Record Turned (c : ProducerConfig) (m m' : Partitions) (event : Event) (out : list Delivery)
    (D : list Ready) (answered : list Z) : Prop := {
  tn_buffered : all_buffered m ++ map snd (incoming event)
                ≡ₚ all_buffered m' ++ flat_map ready_records D ++ map fst out;
  tn_line : forall k,
    sublist (flat_map ready_records (filter (fun r => ready_key r = k) D) ++ buffered (look m' k))
      (buffered (look m k) ++ at_key k (incoming event));
  tn_keys : NoDup (map ready_key D);
  tn_free : forall k, k ∈ map ready_key D -> in_flight (look m k) = true -> k ∈ freed_by event;
  tn_flight : forall k, in_flight (look m' k)
    = (in_flight (look m k) && negb (bool_decide (k ∈ freed_by event)))
      || bool_decide (k ∈ map ready_key D);
  tn_wf : wf_all c m -> wf_all c m'
    /\ Forall (fun r => exists b, ready_records r = records b /\ wf_batch c b) D;
  tn_flush : answered <> [] -> forall k, look m' k = default_partition;
}.

Lemma turn_spec `{KafkaProtocol} self env event self' out spawned answered :
  turn self env event = (self', out, spawned, answered) ->
  config self' = config self
  /\ Turned (config self) (partitions self) (partitions self') event out (concat spawned) answered.
Proof.
  unfold turn. set (s1 := handle_event self (event_now env) event).
  pose proof (handle_event_handled self (event_now env) event) as [Hh Hc1]. fold s1 in Hh, Hc1.
  pose proof (expire_resolves s1 (expiry_now env)) as [R2 Hc2].
  destruct (expire_overdue s1 (expiry_now env)) as [s2 expired]. cbn [fst snd] in *.
  pose proof (identity_resolves s2 (tx_identity env) (init_answer env)) as [R3 Hc3].
  destruct (ensure_identity s2 (tx_identity env) (init_answer env)) as [s3 failed]. cbn [fst snd] in *.
  pose proof (enrolled_resolves s3 (tx_enrol env) (enrol_answer env)) as [R4 Hc4].
  destruct (ensure_enrolled s3 (tx_enrol env) (enrol_answer env)) as [s4 refused]. cbn [fst snd] in *.
  pose proof (dispatch_ready_spec s4 (tx_dispatch env) (leaders env)) as (Hd & Hc5 & Hw5 & _).
  destruct (dispatch_ready s4 (tx_dispatch env) (leaders env)) as [s5 groups]. cbn [fst snd] in *.
  assert (Hs6 : partitions (settle_flushes s5).1 = partitions s5
                /\ config (settle_flushes s5).1 = config s5
                /\ ((settle_flushes s5).2 <> [] -> is_idle s5 = true)).
  { unfold settle_flushes. destruct (_ || _) eqn:E; [done|]. split_and!; [done|done|].
    intros _. apply orb_false_iff in E as [_ E]. by apply negb_false_iff in E. }
  destruct (settle_flushes s5) as [s6 waiters]. cbn [fst snd] in Hs6. destruct Hs6 as (Hp6 & Hc6 & Hidle).
  intros [= <- <- <- <-].
  split; [unfold forget_idle; cbn [config with_partitions]; congruence|].
  rewrite Hc2 in R3. rewrite Hc3, Hc2 in R4. rewrite Hc1 in R2, R3, R4.
  pose proof (resolves_trans _ _ _ _ _ _ (resolves_trans _ _ _ _ _ _ R2 R3) R4) as [A1 A2 A3 A4].
  destruct Hh as [B1 B2 B3 B4].
  assert (Hl : forall k, look (partitions (forget_idle s6)) k = look (partitions s5) k).
  { intros k. unfold forget_idle. cbn [partitions with_partitions]. by rewrite look_forget, Hp6. }
  split.
  - unfold forget_idle. cbn [partitions with_partitions]. rewrite all_buffered_forget, Hp6.
    rewrite <- B1, A1, (dis_buffered _ _ _ Hd), !map_app. solve_Permutation.
  - intros k. rewrite Hl. destruct (dispatched_line _ _ _ k Hd) as [-> _].
    rewrite <- B2. apply A2.
  - apply (dis_keys _ _ _ Hd).
  - intros k Hin Hfl. destruct (dispatched_line _ _ _ k Hd) as (_ & _ & Hfree).
    specialize (Hfree Hin). rewrite A3, B3, Hfl in Hfree. simpl in Hfree.
    apply negb_false_iff, bool_decide_eq_true in Hfree. done.
  - intros k. rewrite Hl. destruct (dispatched_line _ _ _ k Hd) as (_ & -> & _). by rewrite A3, B3.
  - intros Hwf. destruct (dispatched_wf (config self) _ _ _ Hd) as [H1 H2]; [by apply A4, B4|].
    split; [|done]. intros k st. unfold forget_idle. cbn [partitions with_partitions].
    rewrite map_lookup_filter_Some, Hp6. intros [Hst _]. by eapply H1.
  - intros Hne k. specialize (Hidle Hne). rewrite Hl. unfold look.
    destruct (partitions s5 !! k) as [st|] eqn:E; [|done]. simpl.
    unfold is_idle in Hidle. rewrite forallb_forall in Hidle.
    specialize (Hidle (k, st)). rewrite <- list_elem_of_In, elem_of_map_to_list in Hidle.
    by apply idle_default, Hidle.
Qed.

End TurnFacts.
