(* ===== verification/ProducerSystem.v ===== *)
(** The send task ([send_group] of [crates/kafka-produce/src/accumulator.rs]), the
    caller's handle ([Accumulator::append]), and the system they form with the
    actor: command queue, spawned tasks, completions, and the memory semaphore. *)

From S2P Require Import Prelude Sanitize ErrorCodes ApiKeys Retry Idempotence Transactions BatchDecode Encode Dispatch Accumulator.
From Stdlib Require Import QArith.
Open Scope Z_scope.

(** What a send task asks of the dispatcher: one result per batch, under its key.
    [ProducerSystemFacts] has the instance the real dispatcher gives. *)
Class Dispatches : Type := {
  run_dispatch : list Dispatch.Outbound -> list Dispatch.Resolved;
  run_dispatch_keys : forall batches, map fst (run_dispatch batches) ≡ₚ map Dispatch.key batches;
}.

Module SendGroup.
Import ProducerConfig ProducerRecord Idempotence Accumulator.

Definition producer_gone : Error.Error := Error.ConnectionClosed "the producer".

(** What [send_group] has while it encodes: the completion so far, the batches for
    the wire, and the records and bases they belong to. *)
Record Encoding : Type := {
  done_ : list (string * Z);
  freed : list ((string * Z) * Z);
  outbound : list Dispatch.Outbound;
  waiting_ : gmap (string * Z) (list Queued);
  bases : gmap (string * Z) Z;
  encode_failed : list Delivery;
}.

Definition no_encoding : Encoding := {|
  done_ := []; freed := []; outbound := []; waiting_ := ∅; bases := ∅; encode_failed := [] |}.

Section send.
Context `{KafkaProtocol, Encode.RecordEncoder}.

Definition ready_key (ready : Ready) : string * Z :=
  (Accumulator.topic ready, Accumulator.partition ready).

Definition encode_ready (compression : Compression) (now_ms now : Z) (acc : Encoding)
    (ready : Ready) : Encoding :=
  let key := ready_key ready in
  let bases :=
    match Accumulator.identity ready with
    | Some identity => <[key := base_sequence identity]> (bases acc)
    | None => bases acc
    end in
  match Encode.encode_batch (map record (ready_records ready)) compression now_ms
          (Accumulator.identity ready) with
  | Ok encoded => {|
      done_ := done_ acc ++ [key];
      freed := freed acc;
      outbound := outbound acc ++
        [{| Dispatch.topic := Accumulator.topic ready;
            Dispatch.partition := Accumulator.partition ready;
            Dispatch.encoded := encoded;
            Dispatch.deadline := default now (list_min (map deadline (ready_records ready))) |}];
      waiting_ := <[key := ready_records ready]> (waiting_ acc);
      bases := bases;
      encode_failed := encode_failed acc |}
  | Err error => {|
      done_ := done_ acc ++ [key];
      freed := freed acc ++
        match bases !! key with Some base => [(key, base)] | None => [] end;
      outbound := outbound acc;
      waiting_ := waiting_ acc;
      bases := delete key bases;
      encode_failed := encode_failed acc
        ++ map (resolve (Err (Error.clone error))) (ready_records ready) |}
  end.

(** What it has while it reads the results. *)
Record Settling : Type := {
  unsettled : gmap (string * Z) (list Queued);
  unspent : gmap (string * Z) Z;
  given_back : list ((string * Z) * Z);
  lost_identity : bool;
  settled : list Delivery;
}.

(** Where each record of an acknowledged batch landed. *)
Definition metadata (key : string * Z) (ack : Dispatch.Ack) (index : nat) : RecordMetadata := {|
  md_topic := key.1;
  md_partition := key.2;
  md_offset :=
    if Z.of_nat index <=? I64_MAX
    then i64_saturating_add (Dispatch.base_offset ack) (Z.of_nat index)
    else Dispatch.base_offset ack;
  md_timestamp := Dispatch.log_append_time_ms ack;
|}.

Definition settle_one (acc : Settling) (result_ : Dispatch.Resolved) : Settling :=
  let '(key, outcome) := result_ in
  match unsettled acc !! key with
  | None => acc
  | Some queued =>
      let base := unspent acc !! key in
      match outcome with
      | Ok ack => {|
          unsettled := delete key (unsettled acc);
          unspent := delete key (unspent acc);
          given_back := given_back acc;
          lost_identity := lost_identity acc;
          settled := settled acc
            ++ imap (fun index => resolve (Ok (metadata key ack index))) queued |}
      | Err error => {|
          unsettled := delete key (unsettled acc);
          unspent := delete key (unspent acc);
          given_back := given_back acc
            ++ match base with Some base => [(key, base)] | None => [] end;
          lost_identity := lost_identity acc
            || match Error.code_of error with
               | Some code => invalidates_producer_state code
               | None => false
               end;
          settled := settled acc ++ map (resolve (Err (Error.clone error))) queued |}
      end
  end.

(** Anything the dispatcher did not answer for. *)
Definition settle_rest (acc : Settling) (entry : (string * Z) * list Queued) : Settling :=
  let '(key, queued) := entry in {|
    unsettled := unsettled acc;
    unspent := delete key (unspent acc);
    given_back := given_back acc
      ++ match unspent acc !! key with Some base => [(key, base)] | None => [] end;
    lost_identity := lost_identity acc;
    settled := settled acc ++ map (resolve (Err producer_gone)) queued |}.

(** Encode a group of batches, send them, and resolve every record. *)
Definition send_group (run : list Dispatch.Outbound -> list Dispatch.Resolved)
    (compression : Compression) (now_ms now : Z) (group : list Ready)
    : Completed * list Delivery :=
  let enc := foldl (encode_ready compression now_ms now) no_encoding group in
  match outbound enc with
  | [] =>
      ({| partitions_done := done_ enc; released := freed enc; reset_identity := false |},
       encode_failed enc)
  | batches =>
      let acc :=
        foldl settle_one
          {| unsettled := waiting_ enc; unspent := bases enc; given_back := freed enc;
             lost_identity := false; settled := encode_failed enc |} (run batches) in
      let acc := foldl settle_rest acc (map_to_list (unsettled acc)) in
      ({| partitions_done := done_ enc; released := given_back acc;
          reset_identity := lost_identity acc |}, settled acc)
  end.

End send.

End SendGroup.

Module System.
Import ProducerConfig ProducerRecord Idempotence Accumulator SendGroup.

(** The largest record the handle accepts. *)
Definition record_limit (config : ProducerConfig) : Z :=
  Z.min (max_request_size config) (buffer_memory config).

(** Everything that exists between a caller and the wire.  [accepted] is what the
    handle took, in order, under the partition it is for; [sent] the batches handed
    to send tasks, in order; [delivered] what was resolved. *)
Record System : Type := {
  actor : Actor;
  closing : bool;
  memory : Z;
  commands : list Command;
  tasks : list (list Ready);
  completions : list Completed;
  accepted : list ((string * Z) * Queued);
  sent : list Ready;
  delivered : list Delivery;
  flushed : list Z;
}.

Definition start (config : ProducerConfig) : System := {|
  actor := new_actor config; closing := false; memory := buffer_memory_permits config;
  commands := []; tasks := []; completions := []; accepted := []; sent := [];
  delivered := []; flushed := [];
|}.

Definition permits (l : list Delivery) : Z := sum_with (fun d => permit d.1) l.

(** The record ran out of [delivery_timeout] before it could be delivered. *)
Definition delivery_expired (started now : Z) : Error.Error :=
  Error.Timeout (ApiKey.code ApiKey.Produce) (Z.max 0 (now - started)).

(** The handle's [append] of a record at the instant [now] of its wait for permits,
    which began at [started]: [None] while it waits on.  The caller goes on to
    queue the command; the queue's own bound delays that send, and keeps its
    order. *)
Definition handle_append (config : ProducerConfig) (closed : bool) (memory started now : Z)
    (topic : string) (record : ProducerRecord) (respond : Z)
    : option (result Queued Error.Error) :=
  let size := accounted_size record in
  let deadline := default started (Retry.checked_add started (delivery_timeout config)) in
  if record_limit config <? size then
    Some (Err (Error.from_code ErrorCode.MessageTooLarge
                 (Some (text_of_string
                    (topic +:+ ": the record is " +:+ pretty size
                     +:+ " bytes, over the " +:+ pretty (record_limit config) +:+ " byte limit")))))
  else if closed then Some (Err producer_gone)
  else if permits_for size <=? memory then
    Some (Ok {| Accumulator.record := record; deadline := deadline;
                respond := respond; permit := permits_for size |})
  else if deadline <=? now then Some (Err (delivery_expired started now))
  else None.

Section step.
Context `{KafkaProtocol, Encode.RecordEncoder}.

(** What a turn leaves of the rest of the system. *)
Definition after_turn (s : System) (closing_ : bool) (commands_ : list Command)
    (completions_ : list Completed)
    (out : Actor * list Delivery * list (list Ready) * list Z) : System :=
  let '(actor_, resolved, spawned, answered) := out in {|
    actor := actor_; closing := closing_;
    memory := memory s + permits resolved;
    commands := commands_;
    tasks := tasks s ++ spawned;
    completions := completions_;
    accepted := accepted s;
    sent := sent s ++ concat spawned;
    delivered := delivered s ++ resolved;
    flushed := flushed s ++ answered |}.

(** What can happen next. *)
Inductive step : System -> System -> Prop :=
  (** a caller's record gets its permits and is queued *)
  | step_append s started now topic partition record respond queued :
      handle_append (config (actor s)) false (memory s) started now topic record respond
        = Some (Ok queued) ->
      step s {| actor := actor s; closing := closing s;
                memory := memory s - permit queued;
                commands := commands s ++ [Append topic partition queued];
                tasks := tasks s; completions := completions s;
                accepted := accepted s ++ [((topic, partition), queued)]; sent := sent s;
                delivered := delivered s; flushed := flushed s |}
  (** a caller asks for a flush *)
  | step_flush s waiter :
      step s {| actor := actor s; closing := closing s; memory := memory s;
                commands := commands s ++ [Flush waiter];
                tasks := tasks s; completions := completions s; accepted := accepted s;
                sent := sent s;
                delivered := delivered s; flushed := flushed s |}
  (** the actor takes a command *)
  | step_command s env command rest :
      closing s = false -> commands s = command :: rest ->
      step s (after_turn s false rest (completions s) (turn (actor s) env (Received command)))
  (** the last handle is gone *)
  | step_gone s env :
      closing s = false -> commands s = [] ->
      step s (after_turn s true [] (completions s) (turn (actor s) env HandlesGone))
  (** the actor takes a completion *)
  | step_completion s env completed rest :
      completions s = completed :: rest ->
      step s (after_turn s (closing s) (commands s) rest (turn (actor s) env (Finished completed)))
  (** a deadline passes *)
  | step_deadline s env :
      step s (after_turn s (closing s) (commands s) (completions s)
                (turn (actor s) env DeadlinePassed))
  (** one of the send tasks ends *)
  | step_task s before group after `{Dispatches} now_ms now completed resolved :
      tasks s = before ++ group :: after ->
      send_group run_dispatch (compression (config (actor s))) now_ms now group
        = (completed, resolved) ->
      step s {| actor := actor s; closing := closing s;
                memory := memory s + permits resolved;
                commands := commands s; tasks := before ++ after;
                completions := completions s ++ [completed];
                accepted := accepted s; sent := sent s; delivered := delivered s ++ resolved;
                flushed := flushed s |}.

Definition reachable (config : ProducerConfig) (s : System) : Prop := rtc step (start config) s.

End step.

End System.
