(* ===== verification/ProducerSystemFacts.v ===== *)
(** Lemmas and properties of the producing system: the send task, the invariant of
    every reachable state, and what it means for a caller. *)

From S2P Require Import Prelude Sanitize ErrorCodes ApiKeys Retry Idempotence Transactions BatchDecode Encode Dispatch DispatchFacts Accumulator AccumulatorFacts TurnFacts ProducerSystem.
From Stdlib Require Import QArith.
Open Scope Z_scope.

(** ** The send task *)

Module SendGroupFacts.
Import ProducerConfig ProducerRecord Idempotence Accumulator AccumulatorFacts SendGroup.

Section send.
Context `{KafkaProtocol, Encode.RecordEncoder}.

Lemma flat_snd_insert {A} (m : gmap (string * Z) (list A)) k l :
  m !! k = None ->
  flat_map snd (map_to_list (<[k := l]> m)) ≡ₚ l ++ flat_map snd (map_to_list m).
Proof. intros Hk. rewrite map_to_list_insert by done. done. Qed.

Lemma flat_snd_delete {A} (m : gmap (string * Z) (list A)) k l :
  m !! k = Some l ->
  flat_map snd (map_to_list m) ≡ₚ l ++ flat_map snd (map_to_list (delete k m)).
Proof.
  intros Hk. rewrite <- (insert_delete_id m k l Hk) at 1.
  apply flat_snd_insert, lookup_delete_eq.
Qed.

(** After encoding, each batch's records wait for a result or have failed. *)
Lemma encode_group compression now_ms now group : forall acc,
  NoDup (map AccumulatorFacts.ready_key group) ->
  (forall k, k ∈ map AccumulatorFacts.ready_key group -> waiting_ acc !! k = None) ->
  let acc' := foldl (encode_ready compression now_ms now) acc group in
  done_ acc' = done_ acc ++ map AccumulatorFacts.ready_key group
  /\ flat_map snd (map_to_list (waiting_ acc')) ++ map fst (encode_failed acc')
     ≡ₚ flat_map snd (map_to_list (waiting_ acc)) ++ map fst (encode_failed acc)
        ++ flat_map ready_records group
  /\ (outbound acc' = [] -> outbound acc = [] -> waiting_ acc' = waiting_ acc).
Proof.
  induction group as [|r group IH]; intros acc Hnd Hw; cbn [foldl map flat_map].
  { rewrite !app_nil_r. by split_and!. }
  cbn [map] in Hnd. apply NoDup_cons in Hnd as [Hr Hnd].
  set (acc1 := encode_ready compression now_ms now acc r).
  assert (Hk : SendGroup.ready_key r = AccumulatorFacts.ready_key r) by done.
  assert (H1 : done_ acc1 = done_ acc ++ [AccumulatorFacts.ready_key r]
    /\ (forall k, k <> AccumulatorFacts.ready_key r -> waiting_ acc1 !! k = waiting_ acc !! k)
    /\ flat_map snd (map_to_list (waiting_ acc1)) ++ map fst (encode_failed acc1)
       ≡ₚ flat_map snd (map_to_list (waiting_ acc)) ++ map fst (encode_failed acc) ++ ready_records r
    /\ (outbound acc1 = [] -> waiting_ acc1 = waiting_ acc /\ outbound acc = [])).
  { subst acc1. unfold encode_ready. rewrite Hk.
    destruct (Encode.encode_batch _ _ _ _) as [encoded|e];
      cbn [done_ waiting_ encode_failed outbound].
    - split_and!; [done| | |].
      + intros k Hne. by rewrite lookup_insert_ne.
      + rewrite flat_snd_insert by (apply Hw; left). solve_Permutation.
      + intros E. apply app_eq_nil in E as [_ E]. done.
    - split_and!; [done|done| |done].
      rewrite map_app, map_map. cbn [fst resolve]. by rewrite map_id. }
  destruct H1 as (H1 & H2 & H3 & H4).
  destruct (IH acc1) as (I1 & I2 & I3); [done| |].
  { intros k Hin. rewrite H2; [apply Hw; by right|]. intros ->. done. }
  split_and!.
  - rewrite I1, H1, <- app_assoc. done.
  - rewrite I2, app_assoc, H3, !app_assoc. done.
  - intros E1 E2. destruct (decide (outbound acc1 = [])) as [E|E].
    + rewrite I3 by done. by apply H4.
    + exfalso. apply E. clear -E1. revert E1. generalize acc1. clear acc1.
      induction group as [|r' group IH]; intros acc1 E1; [done|]. cbn [foldl] in E1.
      apply IH in E1. unfold encode_ready in E1.
      destruct (Encode.encode_batch _ _ _ _); cbn [outbound] in E1; [|done].
      by apply app_eq_nil in E1 as [_ ?].
Qed.

Lemma settle_one_keeps acc res :
  flat_map snd (map_to_list (unsettled (settle_one acc res))) ++ map fst (settled (settle_one acc res))
  ≡ₚ flat_map snd (map_to_list (unsettled acc)) ++ map fst (settled acc).
Proof.
  unfold settle_one. destruct res as [k outcome]. destruct (unsettled acc !! k) as [queued|] eqn:E; [|done].
  rewrite (flat_snd_delete _ _ _ E).
  destruct outcome as [ack|e]; cbn [unsettled settled]; rewrite map_app.
  - match goal with |- context [?t] =>
      lazymatch t with map fst (imap _ queued) => assert (Hi : t = queued) end end.
    { apply list_eq. intros i. rewrite list_lookup_fmap, list_lookup_imap.
      by destruct (queued !! i). }
    rewrite Hi. solve_Permutation.
  - rewrite map_map. cbn [fst resolve]. rewrite map_id. solve_Permutation.
Qed.

Lemma settle_rest_keeps l : forall acc,
  map fst (settled (foldl settle_rest acc l)) ≡ₚ map fst (settled acc) ++ flat_map snd l.
Proof.
  induction l as [|[k queued] l IH]; intros acc; cbn [foldl flat_map]; [by rewrite app_nil_r|].
  rewrite IH. cbn [settle_rest settled snd]. rewrite map_app, map_map.
  cbn [fst resolve]. rewrite map_id. by rewrite app_assoc.
Qed.

(** A send task frees the partitions of its group, and resolves each of their
    records once, whatever the dispatcher answers. *)
Lemma send_group_spec run compression now_ms now group completed resolved :
  NoDup (map AccumulatorFacts.ready_key group) ->
  send_group run compression now_ms now group = (completed, resolved) ->
  partitions_done completed = map AccumulatorFacts.ready_key group
  /\ map fst resolved ≡ₚ flat_map ready_records group.
Proof.
  intros Hnd. unfold send_group.
  destruct (encode_group compression now_ms now group no_encoding) as (H1 & H2 & H3);
    [done|intros; apply lookup_empty|].
  set (enc := foldl _ _ _) in *. cbn [done_ no_encoding app waiting_ encode_failed] in *.
  rewrite map_to_list_empty in H2. cbn [flat_map app map] in H2.
  destruct (outbound enc) as [|o os] eqn:Eo.
  - intros [= <- <-]. split; [done|].
    rewrite H3, map_to_list_empty in H2 by done. done.
  - set (start_ := {| unsettled := _ |}). set (acc := foldl settle_one start_ _).
    assert (Hacc : flat_map snd (map_to_list (unsettled acc)) ++ map fst (settled acc)
                   ≡ₚ flat_map ready_records group).
    { rewrite <- H2. subst acc. change (waiting_ enc) with (unsettled start_).
      change (encode_failed enc) with (settled start_). generalize start_. clear start_ H2.
      induction (run (o :: os)) as [|res rs IH]; intros start_; cbn [foldl]; [done|].
      rewrite IH. apply settle_one_keeps. }
    intros [= <- <-]. cbn [partitions_done]. split; [done|].
    rewrite settle_rest_keeps, <- Hacc. apply Permutation_app_comm.
Qed.

End send.

End SendGroupFacts.

(** ** The real dispatcher behind a send task *)

(** Over a net whose calls take time, [Dispatch.dispatch] keeps the send task's
    contract from any world: one nanosecond of fuel per nanosecond left before the
    latest deadline, and there is one result per batch. *)
Module Dispatcher.
Import ProducerConfig Dispatch DispatchSpec DispatchFacts.

Section dispatcher.
Context `{KafkaProtocol} {W : Type} (net : Net W) (config : ProducerConfig).
Context (clock : W -> Z) (Hclk : Clocked net clock).

Definition latest (w : W) (batches : list Outbound) : Z :=
  foldr Z.max (clock w) (map deadline batches).

Definition fuel_for (w : W) (batches : list Outbound) : nat :=
  S (Z.to_nat (latest w batches - clock w)).

Definition run_net (w : W) (batches : list Outbound) : list Resolved :=
  match dispatch net config (fuel_for w batches) w batches with
  | Some (_, out) => out
  | None => []
  end.

Lemma latest_bound w batches :
  clock w <= latest w batches /\ Forall (fun o => deadline o <= latest w batches) batches.
Proof using Type.
  unfold latest. induction batches as [|o batches [IH1 IH2]]; cbn [map foldr].
  - split; [lia|constructor].
  - split; [lia|]. constructor; [lia|]. eapply Forall_impl; [exact IH2|].
    intros o' Ho'. simpl in *. lia.
Qed.

Lemma run_net_keys w batches : map fst (run_net w batches) ≡ₚ map key batches.
Proof using Hclk.
  unfold run_net, dispatch, fuel_for. destruct (latest_bound w batches) as [Hw Hb].
  pose proof (now_clock net clock Hclk w) as Hn. destruct (now net w) as [w1 started].
  cbn [fst] in Hn.
  destruct (dispatch_loop_total net config clock Hclk (S (Z.to_nat (latest w batches - clock w)))
              w1 batches 1 started [] _ Hb) as [[w' out] Hout]; [lia|].
  rewrite Hout. by apply dispatch_loop_keys in Hout.
Qed.

(** The contract, discharged. *)
Definition dispatcher (w : W) : Dispatches :=
  {| run_dispatch := run_net w; run_dispatch_keys := run_net_keys w |}.

End dispatcher.

End Dispatcher.

(** ** The invariant *)

Module SystemFacts.
Import ProducerConfig ProducerRecord Idempotence Accumulator AccumulatorFacts TurnFacts SendGroup System.

(** The records still in the command queue, under their partition. *)
Definition queued_of (l : list Command) : list ((string * Z) * Queued) :=
  flat_map (fun c => match c with
                     | Append topic partition queued => [((topic, partition), queued)]
                     | Flush _ => []
                     end) l.

(** The partitions on the wire: of the running tasks, and of the completions the
    actor has not seen yet. *)
Definition on_wire (s : System) : list (string * Z) :=
  map AccumulatorFacts.ready_key (concat (tasks s)) ++ flat_map partitions_done (completions s).

(** The records nobody has resolved yet: queued, buffered, or in a send task. *)
Definition outstanding (s : System) : list Queued :=
  map snd (queued_of (commands s)) ++ all_buffered (partitions (actor s))
  ++ flat_map ready_records (concat (tasks s)).

Definition line (s : System) (k : string * Z) : list Queued :=
  flat_map ready_records (filter (fun r => AccumulatorFacts.ready_key r = k) (sent s))
  ++ buffered (look (partitions (actor s)) k) ++ at_key k (queued_of (commands s)).

Record Inv (c : ProducerConfig) (s : System) : Prop := {
  i_config : config (actor s) = c;
  i_conserve : map snd (accepted s) ≡ₚ outstanding s ++ map fst (delivered s);
  i_memory : memory s + sum_with permit (outstanding s) = buffer_memory_permits c;
  i_free : 0 <= memory s;
  i_accepted : Forall (fun x => permit x.2 = permits_for (size_of x.2)
                                /\ size_of x.2 <= record_limit c) (accepted s);
  i_wire : NoDup (on_wire s);
  i_flight : forall k, in_flight (look (partitions (actor s)) k) = bool_decide (k ∈ on_wire s);
  i_line : forall k, sublist (line s k) (at_key k (accepted s));
  i_wf : wf_all c (partitions (actor s));
  i_sent : Forall (fun r => exists b, ready_records r = records b /\ wf_batch c b) (sent s);
}.

Lemma sum_with_Permutation {A} (f : A -> Z) l1 l2 : l1 ≡ₚ l2 -> sum_with f l1 = sum_with f l2.
Proof. unfold sum_with. induction 1; simpl in *; lia. Qed.

Lemma permits_map out : permits out = sum_with permit (map fst out).
Proof. unfold permits, sum_with. induction out; simpl; congruence. Qed.

Lemma permits_for_pos n : 0 < n -> 0 < permits_for n <= n.
Proof. unfold permits_for, try_from_or, U32_MAX. intros Hn. destruct (n <=? _) eqn:E; lia. Qed.

Lemma try_from_pos bound d n : 0 <= bound -> 0 <= d -> 0 <= n -> 0 <= try_from_or bound d n.
Proof. unfold try_from_or. intros. destruct (n <=? bound); lia. Qed.

Lemma sum_permits_nonneg l : Forall (fun q => 0 <= permit q) l -> 0 <= sum_with permit l.
Proof. unfold sum_with. induction 1; simpl; lia. Qed.

Lemma accepted_permits c s :
  Forall (fun x => permit x.2 = permits_for (size_of x.2) /\ size_of x.2 <= record_limit c)
    (accepted s) ->
  Forall (fun q => 0 <= permit q) (map snd (accepted s)).
Proof.
  intros Ha. apply list.Forall_fmap. eapply Forall_impl; [exact Ha|]. intros [k q] [Hp _]. simpl in *.
  pose proof (permits_for_pos (size_of q) (size_of_pos q)). lia.
Qed.

Lemma start_inv c : 0 <= buffer_memory c -> Inv c (start c).
Proof.
  intros Hm. unfold start. split; unfold outstanding, line, on_wire;
    cbn [actor commands accepted tasks completions sent delivered memory partitions new_actor
         config queued_of map flat_map concat app].
  - done.
  - rewrite all_buffered_empty. done.
  - rewrite all_buffered_empty. unfold sum_with. simpl. lia.
  - unfold buffer_memory_permits. apply try_from_pos; [done..|]. apply try_from_pos; done.
  - constructor.
  - constructor.
  - intros k. rewrite bool_decide_false by apply not_elem_of_nil. done.
  - intros k. done.
  - apply map_Forall_empty.
  - constructor.
Qed.

(** A record accepted by the handle. *)
Lemma append_inv c s started now topic partition record respond queued :
  Inv c s ->
  handle_append (config (actor s)) false (memory s) started now topic record respond
    = Some (Ok queued) ->
  Inv c {| actor := actor s; closing := closing s; memory := memory s - permit queued;
           commands := commands s ++ [Append topic partition queued];
           tasks := tasks s; completions := completions s;
           accepted := accepted s ++ [((topic, partition), queued)]; sent := sent s;
           delivered := delivered s; flushed := flushed s |}.
Proof.
  intros [H1 H2 H3 H4 H5 H6 H7 H8 H9 H10] Ha. unfold handle_append in Ha. rewrite H1 in Ha.
  destruct (record_limit c <? accounted_size record) eqn:Hl; [done|].
  destruct (permits_for (accounted_size record) <=? memory s) eqn:Hp;
    [|destruct (_ <=? now); done].
  injection Ha as <-. set (queued := {| Accumulator.record := record |}) in *.
  assert (Hq : queued_of (commands s ++ [Append topic partition queued])
               = queued_of (commands s) ++ [((topic, partition), queued)]).
  { unfold queued_of. by rewrite flat_map_app. }
  split; unfold outstanding, line, on_wire in *;
    cbn [actor commands accepted tasks completions sent delivered memory] in *;
    rewrite ?Hq; try done.
  - rewrite !map_app, H2. simpl. solve_Permutation.
  - rewrite <- H3. rewrite !map_app, !sum_with_app.
    change (sum_with permit (map snd [(topic, partition, queued)])) with (permit queued + 0). lia.
  - cbn [permit queued]. lia.
  - apply Forall_app. split; [done|]. constructor; [|constructor].
    split; [done|]. unfold size_of. cbn [snd]. cbn [Accumulator.record queued]. lia.
  - intros k. rewrite !at_key_app, !app_assoc. apply sublist_app; [|done].
    rewrite <- app_assoc. apply H8.
Qed.

(** A turn, given how its event came off the queues. *)
Lemma turn_inv `{KafkaProtocol} c s env event closing_ commands_ completions_ :
  Inv c s ->
  queued_of (commands s) = incoming event ++ queued_of commands_ ->
  flat_map partitions_done (completions s) = freed_by event ++ flat_map partitions_done completions_ ->
  Inv c (after_turn s closing_ commands_ completions_ (turn (actor s) env event)).
Proof.
  intros [H1 H2 H3 H4 H5 H6 H7 H8 H9 H10] Hcmd Hcomp.
  destruct (turn (actor s) env event) as [[[a out] spawned] answered] eqn:Ht.
  apply turn_spec in Ht as (Hc & [T1 T2 T3 T4 T5 T6 _]). rewrite H1 in *.
  destruct (T6 H9) as [W1 W2]. set (D := concat spawned) in *.
  assert (Hout : outstanding (after_turn s closing_ commands_ completions_ (a, out, spawned, answered))
                 ++ map fst out ≡ₚ outstanding s).
  { unfold outstanding. cbn [after_turn commands actor tasks].
    rewrite Hcmd, map_app, concat_app, flat_map_app. fold D.
    assert (E : map snd (incoming event) ++ all_buffered (partitions (actor s))
            ≡ₚ all_buffered (partitions a) ++ flat_map ready_records D ++ map fst out).
    { rewrite <- T1. apply Permutation_app_comm. }
    transitivity (map snd (queued_of commands_) ++ flat_map ready_records (concat (tasks s))
                  ++ (map snd (incoming event) ++ all_buffered (partitions (actor s))));
      [rewrite E|]; solve_Permutation. }
  assert (Hwire : on_wire s ≡ₚ freed_by event
            ++ (map AccumulatorFacts.ready_key (concat (tasks s)) ++ flat_map partitions_done completions_)).
  { unfold on_wire. rewrite Hcomp. solve_Permutation. }
  rewrite Hwire in H6. apply NoDup_app in H6 as (N1 & N2 & N3).
  set (rest := map AccumulatorFacts.ready_key (concat (tasks s)) ++ flat_map partitions_done completions_) in *.
  assert (Hwire' : on_wire (after_turn s closing_ commands_ completions_ (a, out, spawned, answered))
            ≡ₚ map AccumulatorFacts.ready_key D ++ rest).
  { unfold on_wire. cbn [after_turn tasks completions]. rewrite concat_app, map_app.
    fold D. subst rest. solve_Permutation. }
  assert (Hin : forall k, in_flight (look (partitions (actor s)) k) = true
                <-> k ∈ freed_by event \/ k ∈ rest).
  { intros k. rewrite H7, bool_decide_eq_true, Hwire, elem_of_app. done. }
  set (s' := after_turn s closing_ commands_ completions_ (a, out, spawned, answered)) in *.
  assert (Em : memory s' = memory s + sum_with permit (map fst out)) by (rewrite <- permits_map; done).
  assert (Ed : delivered s' = delivered s ++ out) by done.
  assert (Ea : accepted s' = accepted s) by done.
  split.
  - change (config a = c). by rewrite Hc.
  - rewrite Ea, Ed, H2, <- Hout, map_app. solve_Permutation.
  - rewrite Em, <- H3, <- (sum_with_Permutation permit _ _ Hout), sum_with_app. lia.
  - rewrite Em. enough (0 <= sum_with permit (map fst out)) by lia.
    pose proof (accepted_permits c s H5) as Hall.
    rewrite H2, <- Hout in Hall. rewrite !Forall_app in Hall. destruct Hall as [[_ Hall] _].
    by apply sum_permits_nonneg.
  - done.
  - rewrite Hwire'. apply NoDup_app. split_and!; [done| |done].
    intros k Hk Hr. apply (N2 k); [|done].
    apply (T4 k Hk). apply Hin. by right.
  - intros k. change (partitions (actor s')) with (partitions a). rewrite T5. apply eq_bool_prop_intro.
    rewrite orb_True, andb_True, negb_True, !bool_decide_spec, Is_true_true, Hin.
    rewrite Hwire', elem_of_app. split.
    + intros [[[Hk|Hk] Hn]|Hk]; [done|by right|by left].
    + intros [Hk|Hk]; [by right|left]. split; [by right|]. intros Hf. by apply (N2 k).
  - intros k. rewrite Ea. unfold line, s'. cbn [after_turn sent actor commands].
    rewrite filter_app, flat_map_app. fold D.
    etrans; [|apply H8]. unfold line. rewrite Hcmd, at_key_app.
    rewrite <- !app_assoc. apply sublist_app; [done|].
    rewrite !app_assoc. apply sublist_app; [|done]. apply T2.
  - exact W1.
  - change (sent s') with (sent s ++ D). apply Forall_app. by split.
Qed.

Lemma task_inv `{KafkaProtocol, Encode.RecordEncoder} c s before group after run now_ms now completed resolved :
  Inv c s -> tasks s = before ++ group :: after ->
  send_group run (compression (config (actor s))) now_ms now group = (completed, resolved) ->
  Inv c {| actor := actor s; closing := closing s; memory := memory s + permits resolved;
           commands := commands s; tasks := before ++ after;
           completions := completions s ++ [completed]; accepted := accepted s; sent := sent s;
           delivered := delivered s ++ resolved; flushed := flushed s |}.
Proof.
  intros [H1 H2 H3 H4 H5 H6 H7 H8 H9 H10] Ht Hs.
  assert (Hwire : on_wire s ≡ₚ map AccumulatorFacts.ready_key group
            ++ (map AccumulatorFacts.ready_key (concat (before ++ after))
                ++ flat_map partitions_done (completions s))).
  { unfold on_wire. rewrite Ht, !concat_app. cbn [concat]. rewrite !map_app. solve_Permutation. }
  assert (Hnd : NoDup (map AccumulatorFacts.ready_key group)).
  { rewrite Hwire in H6. by apply NoDup_app in H6 as (? & _). }
  apply SendGroupFacts.send_group_spec in Hs as [Hd Hr]; [|done].
  assert (Hout : forall s', actor s' = actor s -> commands s' = commands s ->
            tasks s' = before ++ after -> outstanding s' ++ map fst resolved ≡ₚ outstanding s).
  { intros s' E1 E2 E3. unfold outstanding. rewrite E1, E2, E3, Ht, !concat_app. cbn [concat].
    rewrite !flat_map_app, Hr. solve_Permutation. }
  set (s' := {| actor := actor s; tasks := _ |}).
  specialize (Hout s' eq_refl eq_refl eq_refl).
  assert (Hwire' : on_wire s' ≡ₚ on_wire s).
  { rewrite Hwire. unfold on_wire, s'. cbn [tasks completions].
    rewrite flat_map_app. cbn [flat_map]. rewrite Hd, app_nil_r. solve_Permutation. }
  split; try done.
  - cbn [accepted delivered s']. rewrite H2, <- Hout, map_app. solve_Permutation.
  - cbn [memory s']. rewrite <- H3, <- (sum_with_Permutation permit _ _ Hout), sum_with_app, permits_map.
    lia.
  - cbn [memory s']. rewrite permits_map. enough (0 <= sum_with permit (map fst resolved)) by lia.
    pose proof (accepted_permits c s H5) as Hall.
    rewrite H2, <- Hout in Hall. rewrite !Forall_app in Hall. destruct Hall as [[_ Hall] _].
    by apply sum_permits_nonneg.
  - by rewrite Hwire'.
  - intros k. cbn [actor s']. rewrite H7. apply bool_decide_ext. by rewrite Hwire'.
Qed.

Lemma step_inv `{KafkaProtocol, Encode.RecordEncoder} c s s' : step s s' -> Inv c s -> Inv c s'.
Proof.
  intros Hs Hi. destruct Hs as [s now topic partition record respond queued Ha|s waiter
    |s env command rest Hcl Hc|s env Hcl Hc|s env completed rest Hc|s env
    |s before group after disp now_ms now completed resolved Ht Hg].
  - by eapply append_inv.
  - destruct Hi as [H1 H2 H3 H4 H5 H6 H7 H8 H9 H10].
    assert (Hq : queued_of (commands s ++ [Flush waiter]) = queued_of (commands s)).
    { unfold queued_of. rewrite flat_map_app. simpl. by rewrite app_nil_r. }
    split; unfold outstanding, line, on_wire in *;
      cbn [actor commands accepted tasks completions sent delivered memory] in *;
      rewrite ?Hq; try done.
  - apply turn_inv; [done| |done]. rewrite Hc. by destruct command.
  - apply turn_inv; [done|by rewrite Hc|done].
  - apply turn_inv; [done|done|]. by rewrite Hc.
  - by apply turn_inv.
  - by eapply task_inv.
Qed.

Lemma reachable_inv `{KafkaProtocol, Encode.RecordEncoder} c s :
  0 <= buffer_memory c -> reachable c s -> Inv c s.
Proof.
  intros Hm Hr. unfold reachable in Hr. pose proof (start_inv c Hm) as Hi. revert Hi.
  induction Hr as [|s1 s2 s3 Hs _ IH]; [done|]. intros Hi. apply IH. by eapply step_inv.
Qed.

(** Permits are sizes, except that a huge record alone may hold all of them. *)
Lemma total_permits l :
  Forall (fun q => permit q = permits_for (size_of q)) l -> sum_with permit l <= U32_MAX ->
  total l <= sum_with permit l \/ exists q, l = [q].
Proof.
  induction 1 as [|q l Hq Hl IH]; [left; done|].
  assert (Hnn : 0 <= sum_with permit l).
  { apply sum_permits_nonneg. eapply Forall_impl; [exact Hl|]. intros q' ->.
    pose proof (permits_for_pos _ (size_of_pos q')). lia. }
  rewrite total_cons. change (sum_with permit (q :: l)) with (permit q + sum_with permit l).
  intros Hs. pose proof (permits_for_pos _ (size_of_pos q)) as Hpos. rewrite <- Hq in Hpos.
  assert (Hcase : permit q = size_of q \/ permit q = U32_MAX).
  { rewrite Hq. unfold permits_for, try_from_or. destruct (_ <=? _); auto. }
  destruct l as [|q' l]; [right; by exists q|]. left.
  assert (Hpos' : 0 < sum_with permit (q' :: l)).
  { apply Forall_cons in Hl as [Hq' Hl]. pose proof (permits_for_pos _ (size_of_pos q')).
    assert (0 <= sum_with permit l).
    { apply sum_permits_nonneg. eapply Forall_impl; [exact Hl|]. intros q'' ->.
      pose proof (permits_for_pos _ (size_of_pos q'')). lia. }
    change (sum_with permit (q' :: l)) with (permit q' + sum_with permit l). lia. }
  destruct Hcase as [E|E]; [|lia]. destruct IH as [IH|[q'' [= -> ->]]]; [lia|lia|].
  apply Forall_cons in Hl as [Hq'' _]. rewrite total_cons.
  change (sum_with permit [q'']) with (permit q'' + 0) in *. change (total []) with 0.
  enough (permit q'' = size_of q'') by lia. rewrite Hq''. unfold permits_for, try_from_or in *.
  destruct (size_of q'' <=? U32_MAX) eqn:E2; [done|]. lia.
Qed.

Lemma bounded_total B l :
  Forall (fun q => permit q = permits_for (size_of q) /\ size_of q <= B) l ->
  sum_with permit l <= Z.min B U32_MAX -> 0 <= B -> total l <= B.
Proof.
  intros Hl Hs HB. destruct (total_permits l) as [H|[q ->]]; [|lia|lia|].
  - eapply Forall_impl; [exact Hl|]. by intros q [Hq _].
  - apply Forall_cons in Hl as [[_ Hq] _]. rewrite total_cons. change (total []) with 0. lia.
Qed.

Lemma outstanding_sizes c s : Inv c s ->
  Forall (fun q => permit q = permits_for (size_of q) /\ size_of q <= buffer_memory c) (outstanding s).
Proof.
  intros Hi. pose proof (i_accepted _ _ Hi) as Ha.
  assert (Hall : Forall (fun q => permit q = permits_for (size_of q) /\ size_of q <= buffer_memory c)
                   (map snd (accepted s))).
  { apply list.Forall_fmap. eapply Forall_impl; [exact Ha|]. intros [k q] [H1 H2].
    split; [done|]. unfold record_limit in H2. simpl in *. lia. }
  rewrite (i_conserve _ _ Hi) in Hall. by apply Forall_app in Hall as [Hall _].
Qed.

(** A finished flush finds nothing buffered and nothing on the wire. *)
Lemma flushed_idle `{KafkaProtocol} c s env event closing_ commands_ completions_ a out spawned answered :
  Inv c (after_turn s closing_ commands_ completions_ (a, out, spawned, answered)) ->
  turn (actor s) env event = (a, out, spawned, answered) -> answered <> [] ->
  outstanding (after_turn s closing_ commands_ completions_ (a, out, spawned, answered))
  ≡ₚ map snd (queued_of commands_).
Proof.
  set (s' := after_turn _ _ _ _ _). intros Hi Ht Hne.
  apply turn_spec in Ht as [_ Ht]. pose proof (tn_flush _ _ _ _ _ _ _ Ht Hne) as Hd.
  assert (Hbuf : all_buffered (partitions a) = []).
  { unfold all_buffered. apply flat_map_nil. apply Forall_forall. intros [k st] Hin.
    apply elem_of_map_to_list in Hin. specialize (Hd k). unfold look in Hd. rewrite Hin in Hd.
    simpl in Hd. by subst st. }
  assert (Hwire : on_wire s' = []).
  { apply elem_of_nil_inv. intros k Hk. pose proof (i_flight _ _ Hi k) as Hf.
    rewrite bool_decide_true in Hf by done. change (partitions (actor s')) with (partitions a) in Hf.
    by rewrite Hd in Hf. }
  assert (Htasks : concat (tasks s') = []).
  { unfold on_wire in Hwire. apply app_eq_nil in Hwire as [Hw _]. by destruct (concat (tasks s')). }
  unfold outstanding. rewrite Htasks. change (partitions (actor s')) with (partitions a).
  change (commands s') with commands_. rewrite Hbuf. simpl. by rewrite app_nil_r.
Qed.

(** A step that answers a flush leaves nothing of what was accepted but what is still queued. *)
Lemma flush_resolves `{KafkaProtocol, Encode.RecordEncoder} c s s' :
  0 <= buffer_memory c -> reachable c s -> step s s' -> flushed s' <> flushed s ->
  map snd (accepted s') ≡ₚ map snd (queued_of (commands s')) ++ map fst (delivered s').
Proof.
  intros Hm Hr Hs Hne. pose proof (step_inv c s s' Hs (reachable_inv c s Hm Hr)) as Hi.
  rewrite (i_conserve _ _ Hi). f_equiv.
  assert (Hturn : forall env event cl cs cps,
    s' = after_turn s cl cs cps (turn (actor s) env event) ->
    outstanding s' ≡ₚ map snd (queued_of (commands s'))).
  { intros env event cl cs cps ->.
    destruct (turn (actor s) env event) as [[[a out] spawned] answered] eqn:Ht.
    rewrite (flushed_idle c s env event cl cs cps a out spawned answered); [done|done|done|].
    intros ->. apply Hne. cbn [after_turn flushed]. by rewrite app_nil_r. }
  destruct Hs; cbn [flushed] in Hne; try done; by eapply Hturn.
Qed.

End SystemFacts.
