(* ===== verification/ProducerProperties.v ===== *)
(** What the producing system promises a caller: every property is a consequence
    of the invariant of its reachable states, or of one operation's lemmas. *)

From S2P Require Import Prelude Sanitize ErrorCodes ApiKeys Retry Idempotence Transactions BatchDecode Encode Dispatch DispatchFacts Accumulator AccumulatorFacts TurnFacts ProducerSystem ProducerSystemFacts.
From Stdlib Require Import QArith.
Open Scope Z_scope.

(** ** More of the send task *)

Module OutcomeFacts.
Import ProducerConfig ProducerRecord Idempotence Accumulator AccumulatorFacts SendGroup.

Section outcomes.
Context `{KafkaProtocol, Encode.RecordEncoder}.

(** What the records of a batch are told. *)
Definition told (k : string * Z) (queued : list Queued) (outcome : result Dispatch.Ack Error.Error)
    : list Delivery :=
  match outcome with
  | Ok ack => imap (fun index => resolve (Ok (metadata k ack index))) queued
  | Err e => map (resolve (Err (Error.clone e))) queued
  end.

Lemma settle_one_settled acc res : exists more, settled (settle_one acc res) = settled acc ++ more.
Proof.
  unfold settle_one. destruct res as [k outcome].
  destruct (unsettled acc !! k); [|exists []; by rewrite app_nil_r].
  destruct outcome; eexists; done.
Qed.

Lemma settle_settled rs : forall acc,
  exists more, settled (foldl settle_one acc rs) = settled acc ++ more.
Proof.
  induction rs as [|res rs IH]; intros acc; cbn [foldl]; [exists []; by rewrite app_nil_r|].
  destruct (IH (settle_one acc res)) as [m ->]. destruct (settle_one_settled acc res) as [m' ->].
  exists (m' ++ m). by rewrite app_assoc.
Qed.

Lemma settle_given_back rs : forall acc x,
  x ∈ given_back acc -> x ∈ given_back (foldl settle_one acc rs).
Proof.
  induction rs as [|[k outcome] rs IH]; intros acc x Hx; cbn [foldl]; [done|]. apply IH.
  unfold settle_one. destruct (unsettled acc !! k); [|done].
  destruct outcome; cbn [given_back]; [done|]. apply elem_of_app. by left.
Qed.

Lemma settle_one_other acc k k' outcome : k <> k' ->
  unsettled (settle_one acc (k, outcome)) !! k' = unsettled acc !! k'
  /\ unspent (settle_one acc (k, outcome)) !! k' = unspent acc !! k'.
Proof.
  intros Hne. unfold settle_one. destruct (unsettled acc !! k); [|done].
  destruct outcome; cbn [unsettled unspent]; by rewrite !lookup_delete_ne.
Qed.

(** A result under a key that is waiting reaches that key's records, and an error
    gives the batch's numbers back. *)
Lemma settle_tells rs : forall acc k queued outcome,
  NoDup (map fst rs) -> (k, outcome) ∈ rs -> unsettled acc !! k = Some queued ->
  (forall d, d ∈ told k queued outcome -> d ∈ settled (foldl settle_one acc rs))
  /\ (forall base, unspent acc !! k = Some base -> is_ok outcome = false ->
      (k, base) ∈ given_back (foldl settle_one acc rs)).
Proof.
  induction rs as [|[k' outcome'] rs IH]; intros acc k queued outcome Hnd Hin Hk;
    [by apply elem_of_nil in Hin|].
  cbn [map fst] in Hnd. apply NoDup_cons in Hnd as [Hn Hnd]. cbn [foldl].
  apply elem_of_cons in Hin as [[= <- <-]|Hin].
  - assert (Hs : settled (settle_one acc (k, outcome)) = settled acc ++ told k queued outcome).
    { unfold settle_one. rewrite Hk. by destruct outcome. }
    destruct (settle_settled rs (settle_one acc (k, outcome))) as [more Hm]. split.
    + intros d Hd. rewrite Hm, Hs, !elem_of_app. auto.
    + intros base Hb Ho. apply settle_given_back. unfold settle_one. rewrite Hk.
      destruct outcome as [|e]; [done|]. cbn [given_back]. rewrite Hb, elem_of_app.
      right. left.
  - assert (Hne : k' <> k).
    { intros ->. apply Hn. apply list_elem_of_fmap. by exists (k, outcome). }
    destruct (settle_one_other acc k' k outcome' Hne) as [E1 E2].
    destruct (IH (settle_one acc (k', outcome')) k queued outcome Hnd Hin) as [I1 I2];
      [by rewrite E1|]. split; [done|]. intros base. rewrite <- E2. apply I2.
Qed.

(** Encoding one group: a batch that encodes waits under its key with its base. *)
Lemma encode_other compression now_ms now group : forall acc k,
  (k ∉ map AccumulatorFacts.ready_key group) ->
  waiting_ (foldl (encode_ready compression now_ms now) acc group) !! k = waiting_ acc !! k
  /\ bases (foldl (encode_ready compression now_ms now) acc group) !! k = bases acc !! k.
Proof.
  induction group as [|r group IH]; intros acc k Hk; cbn [foldl]; [done|].
  cbn [map] in Hk. apply not_elem_of_cons in Hk as [Hne Hk].
  destruct (IH (encode_ready compression now_ms now acc r) k Hk) as [-> ->].
  unfold encode_ready. change (SendGroup.ready_key r) with (AccumulatorFacts.ready_key r).
  destruct (Encode.encode_batch _ _ _ _); cbn [waiting_ bases];
    destruct (identity r); rewrite ?lookup_insert_ne, ?lookup_delete_ne, ?lookup_insert_ne by done;
    done.
Qed.

Lemma encode_outbound compression now_ms now group : forall acc o,
  o ∈ outbound acc -> o ∈ outbound (foldl (encode_ready compression now_ms now) acc group).
Proof.
  induction group as [|r group IH]; intros acc o Ho; cbn [foldl]; [done|]. apply IH.
  unfold encode_ready. destruct (Encode.encode_batch _ _ _ _); cbn [outbound]; [|done].
  apply elem_of_app. by left.
Qed.

Lemma encode_waits compression now_ms now group : forall acc r encoded,
  NoDup (map AccumulatorFacts.ready_key group) -> r ∈ group ->
  Encode.encode_batch (map record (ready_records r)) compression now_ms (identity r) = Ok encoded ->
  let acc' := foldl (encode_ready compression now_ms now) acc group in
  waiting_ acc' !! AccumulatorFacts.ready_key r = Some (ready_records r)
  /\ (forall i, identity r = Some i ->
      bases acc' !! AccumulatorFacts.ready_key r = Some (base_sequence i))
  /\ outbound acc' <> [].
Proof.
  induction group as [|r' group IH]; intros acc r encoded Hnd Hin He; [by apply elem_of_nil in Hin|].
  cbn [map] in Hnd. apply NoDup_cons in Hnd as [Hn Hnd]. cbn [foldl].
  apply elem_of_cons in Hin as [->|Hin]; [|by eapply IH].
  destruct (encode_other compression now_ms now group (encode_ready compression now_ms now acc r')
              _ Hn) as [-> ->].
  set (acc1 := encode_ready compression now_ms now acc r').
  assert (Hacc : waiting_ acc1 !! AccumulatorFacts.ready_key r' = Some (ready_records r')
    /\ (forall i, identity r' = Some i -> bases acc1 !! AccumulatorFacts.ready_key r' = Some (base_sequence i))
    /\ exists o, o ∈ outbound acc1).
  { subst acc1. unfold encode_ready. rewrite He. cbn [waiting_ bases outbound].
    split_and!; [apply lookup_insert_eq| |].
    - intros i ->. apply lookup_insert_eq.
    - eexists. apply elem_of_app. right. left. }
  destruct Hacc as (H1 & H2 & o & H3). split_and!; [done|done|].
  apply (encode_outbound compression now_ms now group) in H3. intros E. rewrite E in H3.
  by apply elem_of_nil in H3.
Qed.

Lemma encode_keys compression now_ms now group : forall acc,
  sublist (map Dispatch.key (outbound (foldl (encode_ready compression now_ms now) acc group)))
    (map Dispatch.key (outbound acc) ++ map AccumulatorFacts.ready_key group).
Proof.
  induction group as [|r group IH]; intros acc; cbn [foldl map]; [by rewrite app_nil_r|].
  etrans; [apply IH|]. rewrite (cons_middle (AccumulatorFacts.ready_key r)), app_assoc.
  apply sublist_app; [|done]. unfold encode_ready.
  destruct (Encode.encode_batch _ _ _ _); cbn [outbound].
  - by rewrite map_app.
  - by apply sublist_inserts_r.
Qed.

Lemma settle_rest_incl l : forall acc,
  (forall d, d ∈ settled acc -> d ∈ settled (foldl settle_rest acc l))
  /\ (forall x, x ∈ given_back acc -> x ∈ given_back (foldl settle_rest acc l)).
Proof.
  induction l as [|[k queued] l IH]; intros acc; cbn [foldl]; [done|].
  destruct (IH (settle_rest acc (k, queued))) as [I1 I2].
  split; intros x Hx; [apply I1|apply I2]; cbn [settle_rest settled given_back];
    apply elem_of_app; by left.
Qed.

End outcomes.

(** The offset a record of an acknowledged batch is told, when it exists. *)
Lemma metadata_offset r ack i :
  0 <= Dispatch.base_offset ack -> Dispatch.base_offset ack + Z.of_nat i <= I64_MAX ->
  metadata (AccumulatorFacts.ready_key r) ack i
  = {| md_topic := topic r; md_partition := partition r;
       md_offset := Dispatch.base_offset ack + Z.of_nat i;
       md_timestamp := Dispatch.log_append_time_ms ack |}.
Proof.
  intros Hb Hle. unfold metadata, i64_saturating_add. rewrite (proj2 (Z.leb_le _ I64_MAX)) by lia.
  rewrite clamp_small by (unfold I64_MIN; lia). done.
Qed.

(** What giving bases back leaves of a partition's numbering. *)
Lemma released_expected l : forall s k,
  ((k ∉ map fst l) ->
     IdempotenceFacts.expected (foldl (fun s '(key, base) => release s key base) s l) k
     = IdempotenceFacts.expected s k)
  /\ (k ∈ map fst l ->
     (k, IdempotenceFacts.expected (foldl (fun s '(key, base) => release s key base) s l) k) ∈ l).
Proof.
  induction l as [|[k' base] l IH] using rev_ind; intros s k.
  { split; [done|]. intros Hk. by apply elem_of_nil in Hk. }
  rewrite foldl_snoc, map_app. destruct (IH s k) as [IH1 IH2]. cbn [map fst].
  rewrite !elem_of_app, list_elem_of_singleton. destruct (decide (k' = k)) as [->|Hne].
  - rewrite IdempotenceFacts.release_expected. split; [tauto|]. intros _. right. left.
  - rewrite IdempotenceFacts.release_expected_ne by done. split; [tauto|].
    intros [Hk|Hk]; [left; by apply IH2|congruence].
Qed.

(** A buffered record is in a batch of a partition the map holds. *)
Lemma buffered_batch m k q : q ∈ buffered (look m k) ->
  exists st b, st ∈ map snd (map_to_list m) /\ open (look m k) = open st
    /\ b ∈ state_batches st /\ q ∈ records b.
Proof.
  unfold look. destruct (m !! k) as [st|] eqn:Hk; [|intros Hq; by apply elem_of_nil in Hq].
  simpl. intros Hq. exists st.
  assert (Hin : st ∈ map snd (map_to_list m)).
  { apply list_elem_of_fmap. exists (k, st). by rewrite elem_of_map_to_list. }
  unfold buffered, state_batches in *. apply elem_of_app in Hq as [Hq|Hq].
  - apply list_elem_of_In, in_flat_map in Hq as (b & Hb & Hqb).
    exists b. rewrite elem_of_app, !list_elem_of_In. rewrite <- list_elem_of_In. auto.
  - destruct (open st) as [b|]; [|by apply elem_of_nil in Hq].
    exists b. split_and!; [done|done| |done]. apply elem_of_app. left. left.
Qed.

(** The nearest deadline of all batches is no later than any record's. *)
Lemma expiry_le l st b q : st ∈ l -> b ∈ state_batches st -> q ∈ records b ->
  exists me, list_min (omap earliest_deadline (flat_map state_batches l)) = Some me
    /\ me <= deadline q.
Proof.
  intros Hst Hb Hq. destruct (list_min_le (map deadline (records b)) (deadline q)) as (mb & Hmb & Hle).
  { apply list_elem_of_fmap. by exists q. }
  destruct (list_min_le (omap earliest_deadline (flat_map state_batches l)) mb) as (me & Hme & Hle').
  { apply list_elem_of_omap. exists b. split; [|done].
    apply list_elem_of_In, in_flat_map. exists st. by rewrite <- !list_elem_of_In. }
  exists me. split; [done|lia].
Qed.

End OutcomeFacts.

(** ** Properties *)

Module ProducerProperties.
Import ProducerConfig ProducerRecord Idempotence Accumulator AccumulatorFacts TurnFacts SendGroup System SystemFacts OutcomeFacts.

(** C1: No record is lost and none is answered twice.  In
    every reachable state each record the handle accepted is in exactly one place
    — the command queue, a partition's batches, a send task, or resolved — and
    once nothing is outstanding every accepted record was resolved exactly once. *)
Theorem records_resolved_once `{KafkaProtocol, Encode.RecordEncoder} c s :
  0 <= buffer_memory c -> reachable c s ->
  map snd (accepted s) ≡ₚ outstanding s ++ map fst (delivered s)
  /\ (outstanding s = [] -> map snd (accepted s) ≡ₚ map fst (delivered s)).
Proof.
  intros Hm Hr. pose proof (i_conserve _ _ (reachable_inv c s Hm Hr)) as Hc.
  split; [done|]. intros E. by rewrite E in Hc.
Qed.

(** C2: Per partition, order is the callers' order.  In
    every reachable state the records handed to the wire, then those still in its
    batches, then those in the command queue, are a subsequence of the records
    accepted for that partition: nothing overtakes, though records that expired
    or failed while buffered are missing. *)
Theorem order_kept_per_partition `{KafkaProtocol, Encode.RecordEncoder} c s k :
  0 <= buffer_memory c -> reachable c s ->
  sublist
    (flat_map ready_records (filter (fun r => AccumulatorFacts.ready_key r = k) (sent s))
     ++ buffered (look (partitions (actor s)) k) ++ at_key k (queued_of (commands s)))
    (at_key k (accepted s)).
Proof. intros Hm Hr. apply (i_line _ _ (reachable_inv c s Hm Hr)). Qed.

(** At most one batch per partition is on the wire, in every
    reachable state: the partitions of all running send tasks and of completions
    the actor has not seen are pairwise distinct, and are exactly the partitions
    the actor marks as in flight. *)
Theorem one_batch_in_flight `{KafkaProtocol, Encode.RecordEncoder} c s k :
  0 <= buffer_memory c -> reachable c s ->
  NoDup (map AccumulatorFacts.ready_key (concat (tasks s))
         ++ flat_map partitions_done (completions s))
  /\ (in_flight (look (partitions (actor s)) k) = true
      <-> k ∈ map AccumulatorFacts.ready_key (concat (tasks s))
              ++ flat_map partitions_done (completions s)).
Proof.
  intros Hm Hr. pose proof (reachable_inv c s Hm Hr) as Hi. split; [apply (i_wire _ _ Hi)|].
  rewrite (i_flight _ _ Hi). apply bool_decide_eq_true.
Qed.

(** C29: The buffer bound is real.  In every reachable state the
    accounted sizes of all records that were accepted and not resolved add up to
    at most [buffer_memory], and the permits they hold with the free ones are
    exactly what the semaphore was made with. *)
Theorem memory_is_bounded `{KafkaProtocol, Encode.RecordEncoder} c s :
  0 <= buffer_memory c -> reachable c s ->
  total (outstanding s) <= buffer_memory c
  /\ memory s + sum_with permit (outstanding s) = buffer_memory_permits c /\ 0 <= memory s.
Proof.
  intros Hm Hr. pose proof (reachable_inv c s Hm Hr) as Hi.
  pose proof (i_memory _ _ Hi) as Hmem. pose proof (i_free _ _ Hi) as Hfree.
  split; [|done].
  apply bounded_total; [by apply outstanding_sizes| |done].
  - unfold buffer_memory_permits in Hmem. unfold try_from_or in Hmem.
    unfold U32_MAX, USIZE_MAX in *.
    destruct (buffer_memory c <=? 2 ^ 32 - 1) eqn:E; destruct (_ <=? 2 ^ 64 - 1) eqn:E2; lia.
Qed.

(** Handing a record over always ends: it is refused at
    once when its accounted size is over the smaller of [max_request_size] and
    [buffer_memory], it is answered once its deadline has passed, and whenever
    nothing is outstanding the permits it needs are free, so a record that is
    not refused can never wait for memory that does not exist. *)
Theorem append_is_never_stuck `{KafkaProtocol, Encode.RecordEncoder} c s started now topic record
    respond :
  0 <= buffer_memory c -> reachable c s ->
  let answer := handle_append c false (memory s) started now topic record respond in
  (record_limit c < accounted_size record ->
     exists e, answer = Some (Err e) /\ Error.code_of e = Some ErrorCode.MessageTooLarge)
  /\ (default started (Retry.checked_add started (delivery_timeout c)) <= now -> is_Some answer)
  /\ (outstanding s = [] -> accounted_size record <= record_limit c ->
     exists queued, answer = Some (Ok queued) /\ permit queued <= memory s).
Proof.
  intros Hm Hr answer. subst answer. unfold handle_append. split_and!.
  - intros Hl. rewrite (proj2 (Z.ltb_lt _ _)) by done. by eexists.
  - intros Hd. destruct (_ <? accounted_size record); [done|].
    destruct (permits_for _ <=? _); [done|]. by rewrite (proj2 (Z.leb_le _ _)).
  - intros Ho Hl. pose proof (i_memory _ _ (reachable_inv c s Hm Hr)) as Hmem.
    rewrite Ho in Hmem. change (sum_with permit []) with 0 in Hmem.
    assert (Hfit : permits_for (accounted_size record) <= memory s).
    { pose proof (accounted_size_pos record). unfold record_limit in Hl.
      unfold buffer_memory_permits, permits_for, try_from_or, U32_MAX, USIZE_MAX in *.
      repeat match goal with
             | |- context [?a <=? ?b] => destruct (Z.leb_spec a b)
             | H : context [?a <=? ?b] |- _ => destruct (Z.leb_spec a b)
             end; lia. }
    rewrite (proj2 (Z.ltb_ge _ _)) by lia. rewrite (proj2 (Z.leb_le _ _)) by done.
    eexists. split; [done|]. exact Hfit.
Qed.

(** In every reachable state every batch of every partition,
    and every batch that was ever handed to the wire, holds at least one record,
    and unless it holds a single record its accounted size is within both
    [batch_size] and [max_request_size]. *)
Theorem batches_are_bounded `{KafkaProtocol, Encode.RecordEncoder} c s :
  0 <= buffer_memory c -> reachable c s ->
  (forall k b, b ∈ state_batches (look (partitions (actor s)) k) -> wf_batch c b)
  /\ Forall (fun r => exists b, ready_records r = records b /\ wf_batch c b) (sent s).
Proof.
  intros Hm Hr. pose proof (reachable_inv c s Hm Hr) as Hi. split; [|apply (i_sent _ _ Hi)].
  intros k b Hb. unfold look in Hb. destruct (partitions (actor s) !! k) as [st|] eqn:E;
    [|by apply elem_of_nil in Hb].
  pose proof (i_wf _ _ Hi k st E) as Hst. unfold wf_state in Hst.
  rewrite Forall_forall in Hst. by apply Hst.
Qed.


(** A flush is answered only when nothing is left:
    whenever a step of a reachable state answers a flush, every record that was
    accepted and taken off the command queue — all those appended before the
    flush was asked for — has been resolved. *)
Theorem flush_waits_for_everything `{KafkaProtocol, Encode.RecordEncoder} c s s' :
  0 <= buffer_memory c -> reachable c s -> step s s' -> flushed s' <> flushed s ->
  map snd (accepted s') ≡ₚ map snd (queued_of (commands s')) ++ map fst (delivered s').
Proof. apply flush_resolves. Qed.

(** C39: The actor always has a reason to wake.  While a partition
    buffers a record, the loop's next deadline exists and is no later than the
    record's delivery deadline, nor than the linger of the batch that is still
    open; and while closed batches wait for a producer id, no later than the retry
    delay from now. *)
Theorem no_lost_wakeup (a : Actor) now sample k q :
  q ∈ buffered (look (partitions a) k) ->
  exists t, next_deadline a now sample = Some t /\ t <= deadline q
    /\ (forall b, open (look (partitions a) k) = Some b -> t <= opened_at b + linger (config a))
    /\ (idempotent (config a) = true -> actor_identity a = None -> has_work a = true ->
        t <= now + Retry.delay (retry (config a)) sample
                     (u32_saturating_add (identity_attempts a) 1)).
Proof.
  intros Hq. destruct (buffered_batch (partitions a) k q Hq) as (st & b & Hin & Hopen & Hb & Hqb).
  destruct (expiry_le (map snd (map_to_list (partitions a))) st b q Hin Hb Hqb) as (me & Hme & Hmeq).
  unfold next_deadline. rewrite Hme.
  match goal with |- context [earliest_wake ?o ?r now] => set (open_ := o); set (retry_ := r) end.
  assert (Hall : forall x, x ∈ option_list (earliest_wake open_ retry_ now) ++ [me] ->
    exists t, option_min (earliest_wake open_ retry_ now) (Some me) = Some t /\ t <= x).
  { intros x Hx. apply (list_min_le _ x Hx). }
  destruct (Hall me) as (t & Ht & Htm); [apply elem_of_app; right; left|].
  assert (Hle : forall x, x ∈ option_list open_ ++ option_list ((fun d => now + d) <$> retry_) -> t <= x).
  { intros x Hx. destruct (list_min_le _ x Hx) as (w & Hw & Hwx).
    destruct (Hall w) as (t' & Ht' & Htw); [|rewrite Ht in Ht'; injection Ht' as <-; lia].
    unfold earliest_wake, option_min. rewrite Hw. left. }
  exists t. split_and!; [done|by etrans| |].
  - intros b' Hb'. rewrite Hopen in Hb'.
    destruct (list_min_le (omap (fun state => (fun b => opened_at b + linger (config a)) <$> open state)
                (map snd (map_to_list (partitions a)))) (opened_at b' + linger (config a)))
      as (mo & Hmo & Hmob).
    { apply list_elem_of_omap. exists st. by rewrite Hb'. }
    etrans; [|exact Hmob]. apply Hle. subst open_. rewrite Hmo. left.
  - intros Hidem Hnone Hwork. apply Hle. subst retry_. rewrite Hidem, Hnone, Hwork.
    rewrite bool_decide_true by done. apply elem_of_app. right. left.
Qed.

(** What leaves the buffers is stamped in order.  An
    idempotent producer dispatches nothing without an identity; each dispatched
    batch, one per partition, carries the identity in use, the partition's next
    sequence number, which advances by the batch's record count, and the
    transactional bit exactly when a transaction is open; and inside a
    transaction only enrolled partitions are dispatched. *)
Theorem dispatch_stamps_batches (a : Actor) tx leaders r issued :
  r ∈ concat (dispatch_ready a tx leaders).2 -> actor_identity a = Some issued ->
  identity r
    = Some {| b_producer_id := producer_id issued; b_producer_epoch := producer_epoch issued;
              base_sequence := IdempotenceFacts.expected (sequences a) (AccumulatorFacts.ready_key r);
              Idempotence.transactional :=
                match tx with Some t => Transactions.is_open t | None => false end |}
  /\ IdempotenceFacts.expected (sequences (dispatch_ready a tx leaders).1) (AccumulatorFacts.ready_key r)
     = i32_wrap (IdempotenceFacts.expected (sequences a) (AccumulatorFacts.ready_key r)
                 + count_i32 (length (ready_records r)))
  /\ (forall t, tx = Some t -> Transactions.is_open t = true ->
       Transactions.unenrolled t [AccumulatorFacts.ready_key r] = [])
  /\ NoDup (map AccumulatorFacts.ready_key (concat (dispatch_ready a tx leaders).2)).
Proof.
  intros Hin Hid. pose proof (dispatch_ready_spec a tx leaders) as (Hd & _ & _ & _ & Hs & _ & Htx).
  destruct Hs as (S1 & _ & S3). rewrite Forall_forall in S1. split_and!.
  - rewrite (S1 r Hin), Hid. done.
  - apply S3; [done|]. by rewrite Hid.
  - intros t Ht Ho. specialize (Htx t Ht Ho). rewrite Forall_forall in Htx. by apply Htx.
  - apply (dis_keys _ _ _ Hd).
Qed.

(** C35: A send task tells each record what became of
    its batch: if the dispatcher acknowledged it, the record at index [i] is told
    the batch's base offset plus [i]; if it failed, every record is told that
    error, and the batch's sequence numbers are given back. *)
Theorem acked_records_get_their_offsets `{KafkaProtocol, Encode.RecordEncoder, Dispatches}
    compression now_ms now group completed resolved r encoded outcome :
  NoDup (map AccumulatorFacts.ready_key group) ->
  send_group run_dispatch compression now_ms now group = (completed, resolved) ->
  r ∈ group ->
  Encode.encode_batch (map record (ready_records r)) compression now_ms (identity r) = Ok encoded ->
  (AccumulatorFacts.ready_key r, outcome)
    ∈ run_dispatch (outbound (foldl (encode_ready compression now_ms now) no_encoding group)) ->
  match outcome with
  | Ok ack => forall i q, ready_records r !! i = Some q ->
      0 <= Dispatch.base_offset ack -> Dispatch.base_offset ack + Z.of_nat i <= I64_MAX ->
      (q, Ok {| md_topic := topic r; md_partition := partition r;
                md_offset := Dispatch.base_offset ack + Z.of_nat i;
                md_timestamp := Dispatch.log_append_time_ms ack |}) ∈ resolved
  | Err e =>
      (forall q, q ∈ ready_records r -> (q, Err (Error.clone e)) ∈ resolved)
      /\ (forall i, identity r = Some i ->
          (AccumulatorFacts.ready_key r, base_sequence i) ∈ released completed)
  end.
Proof.
  intros Hnd Hs Hr He Hout. unfold send_group in Hs.
  destruct (encode_waits compression now_ms now group no_encoding r encoded Hnd Hr He)
    as (E1 & E2 & E3).
  pose proof (encode_keys compression now_ms now group no_encoding) as Hsub.
  cbn [outbound no_encoding map app] in Hsub.
  set (enc := foldl _ _ _) in *.
  assert (Hkeys : NoDup (map fst (run_dispatch (outbound enc)))).
  { rewrite run_dispatch_keys. by eapply sublist_NoDup. }
  destruct (outbound enc) as [|o os] eqn:Eo; [done|].
  set (start_ := {| unsettled := _ |}) in Hs.
  destruct (settle_tells (run_dispatch (o :: os)) start_ (AccumulatorFacts.ready_key r)
              (ready_records r) outcome Hkeys Hout E1) as [T1 T2].
  set (acc := foldl settle_one start_ _) in *.
  destruct (settle_rest_incl (map_to_list (unsettled acc)) acc) as [R1 R2].
  injection Hs as <- <-. destruct outcome as [ack|e]; cbn [told] in T1.
  - intros i q Hi Hb Hle. apply R1, T1. apply list_elem_of_lookup. exists i.
    rewrite list_lookup_imap, Hi. cbn [fmap option_fmap option_map]. unfold resolve.
    by rewrite metadata_offset.
  - split.
    + intros q Hq. apply R1, T1. apply list_elem_of_fmap. by exists q.
    + intros i Hi. cbn [released]. apply R2, (T2 (base_sequence i)); [by apply E2|done].
Qed.

(** A completion that lost the producer id drops it and
    restarts every partition's numbering at zero; any other keeps the identity and
    moves only the partitions it released, each back to a base it released. *)
Theorem reset_restarts_numbering (a : Actor) completed k :
  (reset_identity completed = true ->
     actor_identity (settle a completed) = None
     /\ IdempotenceFacts.expected (sequences (settle a completed)) k = FIRST_SEQUENCE)
  /\ (reset_identity completed = false ->
     actor_identity (settle a completed) = actor_identity a
     /\ ((k ∉ map fst (released completed)) ->
         IdempotenceFacts.expected (sequences (settle a completed)) k
         = IdempotenceFacts.expected (sequences a) k)
     /\ (k ∈ map fst (released completed) ->
         (k, IdempotenceFacts.expected (sequences (settle a completed)) k) ∈ released completed)).
Proof.
  split.
  - intros Hr. unfold settle. rewrite Hr. split; [done|]. apply IdempotenceFacts.reset_expected.
  - intros Hr. unfold settle. rewrite Hr. split; [done|]. cbn [sequences with_identity].
    apply released_expected.
Qed.

(** A reset does not reach the batches that were on the
    wire when it happened: one that fails afterwards gives back its base under the
    old identity, and its partition's numbering under the new one starts there
    instead of at zero. *)
Theorem straggler_survives_reset (a : Actor) lost late k base :
  reset_identity lost = true -> reset_identity late = false -> released late = [(k, base)] ->
  actor_identity (settle (settle a lost) late) = None
  /\ IdempotenceFacts.expected (sequences (settle (settle a lost) late)) k = base.
Proof.
  intros H1 H2 H3. unfold settle at 1 3. rewrite H2, H3. cbn [foldl actor_identity sequences with_identity].
  split.
  - unfold settle. by rewrite H1.
  - apply IdempotenceFacts.release_expected.
Qed.

(** *** Witnesses *)

#[local] Instance demo_protocol : KafkaProtocol :=
  {| try_from_code c := None; is_retriable _ := true |}.

#[local] Instance demo_encoder : Encode.RecordEncoder :=
  {| Encode.kp_encode wire _ _ _ := Ok (map (fun _ => Byte.x01) wire);
     Encode.zstd_copy_encode b _ := Ok b |}.

(** The world is the clock; every request is answered, at base offset 42. *)
Definition demo_net : Dispatch.Net Z := {|
  Dispatch.now w := (w, w);
  Dispatch.jitter w := (w, 0%Q);
  Dispatch.sleep_until w t := Z.max w t;
  Dispatch.leader_for w topic partition := (w + Retry.SECOND, Ok 1);
  Dispatch.negotiated_for w := (w, Ok 9);
  Dispatch.snapshot_topic_id w topic := None;
  Dispatch.refresh_topic_id w topic := (w, Ok None);
  Dispatch.pool_get w leader := (w, Ok tt);
  Dispatch.send w leader request :=
    (w, Ok {| Dispatch.responses := [
       {| Dispatch.name := "t"; Dispatch.topic_id := Dispatch.ZERO_ID;
          Dispatch.partition_responses := [
            {| Dispatch.index := 0; Dispatch.error_code := 0; Dispatch.error_message := None;
               Dispatch.resp_base_offset := 42; Dispatch.resp_log_append_time_ms := -1 |} ] |} ] |});
  Dispatch.invalidate w := w;
|}.

Lemma demo_clocked : DispatchSpec.Clocked demo_net (fun w => w).
Proof. split; simpl; intros; unfold Retry.SECOND; lia. Qed.

(** The world of the send task, five nanoseconds before the records' deadlines. *)
#[local] Instance demo_dispatches : Dispatches :=
  Dispatcher.dispatcher demo_net new (fun w => w) demo_clocked (30 * Retry.SECOND - 5).

Definition demo_record (v : string) : ProducerRecord :=
  {| ProducerRecord.topic := "t"; ProducerRecord.partition := None; key := None;
     value := Some (replicate (String.length v) Byte.x78); headers := []; timestamp := None |}.

Definition demo_queued (v : string) (respond : Z) : Queued :=
  {| Accumulator.record := demo_record v; deadline := 30 * Retry.SECOND; respond := respond;
     permit := permits_for (accounted_size (demo_record v)) |}.

Definition demo_env : TurnEnv := {|
  event_now := 1; expiry_now := 1; tx_identity := None; tx_enrol := None; tx_dispatch := None;
  init_answer _ := Ok {| resp_error_code := 0; resp_producer_id := 7; resp_producer_epoch := 0 |};
  enrol_answer _ := Ok tt;
  leaders _ := Some 1;
|}.

Definition demo_append (s : System) (v : string) (respond : Z) : System := {|
  actor := actor s; closing := closing s;
  memory := memory s - permit (demo_queued v respond);
  commands := commands s ++ [Append "t" 0 (demo_queued v respond)];
  tasks := tasks s; completions := completions s;
  accepted := accepted s ++ [(("t"%string, 0), demo_queued v respond)]; sent := sent s;
  delivered := delivered s; flushed := flushed s |}.

Definition demo_flush (s : System) : System := {|
  actor := actor s; closing := closing s; memory := memory s;
  commands := commands s ++ [Flush 9]; tasks := tasks s; completions := completions s;
  accepted := accepted s; sent := sent s; delivered := delivered s; flushed := flushed s |}.

Definition demo_turn (s : System) : System :=
  match commands s with
  | command :: rest =>
      after_turn s false rest (completions s) (turn (actor s) demo_env (Received command))
  | [] => s
  end.

(** Two records and a flush are queued and taken: the batch of both is on the wire. *)
Definition demo_queued_up : System :=
  demo_append (demo_turn (demo_turn (demo_flush (demo_append (demo_append (start new) "x" 1) "xx" 2))))
    "xxx" 3.

Definition demo_sent : System := demo_turn demo_queued_up.

Lemma demo_append_step s v respond :
  handle_append (config (actor s)) false (memory s) 0 0 "t" (demo_record v) respond
    = Some (Ok (demo_queued v respond)) -> step s (demo_append s v respond).
Proof. intros E. exact (step_append s 0 0 "t" 0 (demo_record v) respond _ E). Qed.

Lemma demo_turn_step s : closing s = false -> commands s <> [] -> step s (demo_turn s).
Proof.
  intros Hc Hne. unfold demo_turn. destruct (commands s) as [|command rest] eqn:E; [done|].
  by apply step_command.
Qed.

Lemma demo_reachable : reachable new demo_queued_up /\ reachable new demo_sent.
Proof.
  assert (H : reachable new demo_queued_up).
  { eapply rtc_l; [apply (demo_append_step (start new) "x" 1); vm_compute; reflexivity|].
    eapply rtc_l; [apply (demo_append_step _ "xx" 2); vm_compute; reflexivity|].
    eapply rtc_l; [apply (step_flush _ 9)|].
    eapply rtc_l; [apply demo_turn_step; vm_compute; [reflexivity|discriminate]|].
    eapply rtc_l; [apply demo_turn_step; vm_compute; [reflexivity|discriminate]|].
    eapply rtc_l; [apply (demo_append_step _ "xxx" 3); vm_compute; reflexivity|]. apply rtc_refl. }
  split; [done|]. eapply rtc_r; [exact H|]. apply demo_turn_step; vm_compute; [reflexivity|discriminate].
Qed.

(** The task ends, and the actor takes its completion: the flush is answered. *)
Definition demo_group : list Ready := concat (tasks demo_sent).

Definition demo_resolved : Completed * list Delivery :=
  send_group run_dispatch NoCompression 0 0 demo_group.

Definition demo_acked : System := {|
  actor := actor demo_sent; closing := closing demo_sent;
  memory := memory demo_sent + permits demo_resolved.2;
  commands := commands demo_sent; tasks := []; completions := [demo_resolved.1];
  accepted := accepted demo_sent; sent := sent demo_sent;
  delivered := delivered demo_sent ++ demo_resolved.2; flushed := flushed demo_sent |}.

Definition demo_completion (s : System) : System :=
  match completions s with
  | completed :: rest =>
      after_turn s (closing s) (commands s) rest (turn (actor s) demo_env (Finished completed))
  | [] => s
  end.

Lemma demo_completion_step s : completions s <> [] -> step s (demo_completion s).
Proof.
  intros Hne. unfold demo_completion. destruct (completions s) as [|completed rest] eqn:E; [done|].
  by apply step_completion.
Qed.

Lemma demo_acked_reachable : reachable new demo_acked.
Proof.
  eapply rtc_r; [apply demo_reachable|].
  assert (Ht : tasks demo_sent = [] ++ demo_group :: []) by (vm_compute; reflexivity).
  assert (Hc : completions demo_sent ++ [demo_resolved.1] = [demo_resolved.1])
    by (vm_compute; reflexivity).
  unfold demo_acked. rewrite <- Hc.
  apply (step_task demo_sent [] demo_group [] 0 0 demo_resolved.1 demo_resolved.2 Ht).
  vm_compute. reflexivity.
Qed.

Lemma records_resolved_once_witness :
  map snd (accepted demo_acked)
    ≡ₚ outstanding demo_acked ++ map fst (delivered demo_acked)
  /\ outstanding demo_acked = [demo_queued "xxx" 3] /\ length (delivered demo_acked) = 2%nat.
Proof.
  split; [|split; vm_compute; reflexivity].
  apply (records_resolved_once new demo_acked); [vm_compute; discriminate|exact demo_acked_reachable].
Defined.

Lemma order_kept_per_partition_witness :
  sublist [demo_queued "x" 1; demo_queued "xx" 2; demo_queued "xxx" 3]
    (at_key ("t"%string, 0) (accepted demo_sent)).
Proof.
  assert (E : flat_map ready_records
                (filter (fun r => AccumulatorFacts.ready_key r = ("t"%string, 0)) (sent demo_sent))
              ++ buffered (look (partitions (actor demo_sent)) ("t"%string, 0))
              ++ at_key ("t"%string, 0) (queued_of (commands demo_sent))
              = [demo_queued "x" 1; demo_queued "xx" 2; demo_queued "xxx" 3])
    by (vm_compute; reflexivity).
  rewrite <- E. apply (order_kept_per_partition new demo_sent);
    [vm_compute; discriminate|exact (proj2 demo_reachable)].
Defined.

Lemma one_batch_in_flight_witness :
  in_flight (look (partitions (actor demo_sent)) ("t"%string, 0)) = true.
Proof.
  apply (one_batch_in_flight new demo_sent ("t"%string, 0));
    [vm_compute; discriminate|exact (proj2 demo_reachable)|].
  vm_compute. left.
Defined.

Lemma memory_is_bounded_witness :
  total (outstanding demo_sent) <= buffer_memory new /\ total (outstanding demo_sent) = 102.
Proof.
  split; [|vm_compute; reflexivity].
  apply (memory_is_bounded new demo_sent);
    [vm_compute; discriminate|exact (proj2 demo_reachable)].
Defined.

Lemma append_is_never_stuck_witness :
  exists queued,
    handle_append new false (memory (start new)) 0 0 "t" (demo_record "x") 1 = Some (Ok queued)
    /\ permit queued <= memory (start new).
Proof.
  apply (append_is_never_stuck new (start new) 0 0 "t" (demo_record "x") 1);
    [vm_compute; discriminate|apply rtc_refl|reflexivity|vm_compute; discriminate].
Defined.

Lemma batches_are_bounded_witness :
  exists r, sent demo_sent = [r] /\ length (ready_records r) = 2%nat
    /\ exists b, ready_records r = records b /\ wf_batch new b.
Proof.
  assert (E : length (sent demo_sent) = 1%nat
              /\ map (fun r => length (ready_records r)) (sent demo_sent) = [2%nat])
    by (vm_compute; auto).
  destruct (batches_are_bounded new demo_sent ltac:(vm_compute; discriminate)
              (proj2 demo_reachable)) as [_ Hall].
  destruct (sent demo_sent) as [|r rest]; [destruct E; discriminate|].
  destruct rest as [|r' rest]; [|destruct E; discriminate].
  apply Forall_cons in Hall as [Hr _]. destruct E as [_ E]. injection E as E.
  exists r. split; [reflexivity|]. split; [exact E|exact Hr].
Defined.

Lemma flush_waits_for_everything_witness :
  flushed (demo_completion demo_acked) = [9]
  /\ map snd (accepted (demo_completion demo_acked))
    ≡ₚ map snd (queued_of (commands (demo_completion demo_acked)))
       ++ map fst (delivered (demo_completion demo_acked)).
Proof.
  assert (F : flushed (demo_completion demo_acked) = [9]) by (vm_compute; reflexivity).
  split; [exact F|].
  apply (flush_waits_for_everything new demo_acked);
    [vm_compute; discriminate|exact demo_acked_reachable|
     apply demo_completion_step; vm_compute; discriminate|].
  rewrite F. vm_compute. discriminate.
Defined.

(** An actor whose open batch lingers for a second. *)
Definition demo_open : Actor :=
  append (new_actor new) 5 "t" 0 (demo_queued "x" 1).

Lemma no_lost_wakeup_witness :
  exists t, next_deadline demo_open 6 0%Q = Some t /\ t <= 5.
Proof.
  destruct (no_lost_wakeup demo_open 6 0%Q ("t"%string, 0) (demo_queued "x" 1))
    as (t & Ht & _ & Hopen & _); [vm_compute; left|].
  exists t. split; [exact Ht|].
  apply (Hopen {| records := [demo_queued "x" 1]; bytes_ := 33; opened_at := 5 |}).
  vm_compute. reflexivity.
Defined.

(** The same actor with an identity and a closed batch. *)
Definition demo_ready : Actor :=
  with_identity (close_all demo_open) (Some {| producer_id := 7; producer_epoch := 1 |}) 0
    (release default_sequences ("t"%string, 0) 40).

Lemma dispatch_stamps_batches_witness :
  exists r, concat (dispatch_ready demo_ready None (fun _ => None)).2 = [r]
    /\ identity r = Some {| b_producer_id := 7; b_producer_epoch := 1; base_sequence := 40;
                            Idempotence.transactional := false |}.
Proof.
  assert (E : exists r, concat (dispatch_ready demo_ready None (fun _ => None)).2 = [r]
              /\ AccumulatorFacts.ready_key r = ("t"%string, 0))
    by (eexists; split; [vm_compute; reflexivity|vm_compute; reflexivity]).
  destruct E as (r & E & Hk). exists r. split; [exact E|].
  destruct (dispatch_stamps_batches demo_ready None (fun _ => None) r
              {| producer_id := 7; producer_epoch := 1 |}) as [Hid _].
  - rewrite E. left.
  - reflexivity.
  - rewrite Hid, Hk. vm_compute. reflexivity.
Defined.

Lemma acked_records_get_their_offsets_witness :
  exists r, demo_group = [r]
  /\ (demo_queued "xx" 2, Ok {| md_topic := "t"; md_partition := 0; md_offset := 43;
                                md_timestamp := None |}) ∈ demo_resolved.2.
Proof.
  assert (E : exists r, demo_group = [r] /\ AccumulatorFacts.ready_key r = ("t"%string, 0)
                /\ ready_records r !! 1%nat = Some (demo_queued "xx" 2)
                /\ Encode.encode_batch (map record (ready_records r)) NoCompression 0 (identity r)
                   = Ok [Byte.x01; Byte.x01])
    by (eexists; split; [vm_compute; reflexivity|]; repeat split; vm_compute; reflexivity).
  destruct E as (r & Hg & Hk & Hq & He). exists r. split; [exact Hg|].
  pose proof (acked_records_get_their_offsets NoCompression 0 0 demo_group demo_resolved.1
    demo_resolved.2 r [Byte.x01; Byte.x01]
    (Ok {| Dispatch.base_offset := 42; Dispatch.log_append_time_ms := None |})) as A.
  cbv beta iota in A. rewrite Hk in A.
  assert (Ht : topic r = "t"%string /\ partition r = 0)
    by (unfold AccumulatorFacts.ready_key in Hk; injection Hk as -> ->; auto).
  destruct Ht as [Ht Hp]. rewrite Ht, Hp in A.
  apply (fun h1 h2 h3 h4 h5 h6 h7 => A h1 h2 h3 h4 h5 1%nat _ Hq h6 h7).
  - rewrite Hg. simpl. apply NoDup_singleton.
  - unfold demo_resolved. destruct (send_group _ _ _ _ _). reflexivity.
  - rewrite Hg. left.
  - exact He.
  - vm_compute. left.
  - vm_compute. discriminate.
  - vm_compute. discriminate.
Defined.

Lemma straggler_survives_reset_witness :
  IdempotenceFacts.expected
    (sequences (settle (settle demo_ready
       {| partitions_done := []; released := []; reset_identity := true |})
       {| partitions_done := [("t"%string, 0)]; released := [(("t"%string, 0), 40)];
          reset_identity := false |})) ("t"%string, 0) = 40.
Proof. apply straggler_survives_reset; reflexivity. Defined.

End ProducerProperties.
