(* ===== verification/Producer.v ===== *)
(** The producer's front end ([crates/kafka-produce/src/producer.rs]): a record's partition, the
    calls on the accumulator, and the transactional calls; and the producing system together with
    the calls that end transactions.

    What a call meets (the cluster handle, the random draw, the accumulator, the transaction
    coordinators) is the class [ProducerWorld].  [Front] takes the same calls apart at their
    awaits, over [ProducerSystem.System]. *)

From S2P Require Import Prelude Sanitize ErrorCodes ApiKeys Retry Effects Partition Idempotence Transactions Connection Metadata Encode Accumulator ProducerSystem.

(** What the coordinators answer to one transactional call. *)
Record Coordinators : Type := {
  tx_call : Transactions.Call;
  on_init : Idempotence.InitProducerIdRequest -> Transactions.CallEnv Idempotence.InitProducerIdResponse;
  on_add_offsets : Transactions.AddOffsetsToTxnRequest -> Transactions.CallEnv Z;
  on_commit_offsets : Transactions.TxnOffsetCommitRequest -> Transactions.CallEnv Transactions.TxnOffsetCommitResponse;
  on_end : Transactions.EndTxnRequest -> Transactions.CallEnv Transactions.EndTxnResponse;
}.

(** What is around a producer.  A receiver is a number; [received] is what awaiting it gives, and
    [None] if the sender was dropped. *)
Class ProducerWorld (W : Type) : Type := {
  snapshot : W -> Metadata.MetadataSnapshot;
  refresh_topics : list string -> W -> result Metadata.MetadataSnapshot Error.Error * W;
  random_range : Z -> W -> Z * W;
  append_record : string -> Z -> ProducerRecord.ProducerRecord -> W -> result Z Error.Error * W;
  flush_buffer : W -> result unit Error.Error * W;
  received : Z -> W -> option (result ProducerRecord.RecordMetadata Error.Error) * W;
  coordinators : W -> Coordinators * W;
}.

Module Producer.
Import Error Eff ProducerConfig ProducerRecord.

(** A producer, and what its clones share: [spawned] is whether the accumulator's cell is set.
    [appended] is what was handed to the accumulator. *)
Record Producer (W : Type) : Type := {
  config : ProducerConfig;
  partitioner : Partition.Partitioner;
  spawned : bool;
  transactions : option Transactions.Transactions;
  appended : list (string * Z * ProducerRecord);
  world : W;
}.
#[global] Arguments config {W}.
#[global] Arguments partitioner {W}.
#[global] Arguments spawned {W}.
#[global] Arguments transactions {W}.
#[global] Arguments appended {W}.
#[global] Arguments world {W}.

Section producer.
Context {W : Type} `{!ProducerWorld W, !KafkaProtocol}.
Abbreviation Producer := (Producer W).
Abbreviation M := (Eff.M Producer).

Definition new (w : W) (config : ProducerConfig) : Producer := {|
  config := config; partitioner := Partition.new; spawned := false;
  transactions := Transactions.new <$> transactional_id config; appended := []; world := w |}.

(** The connections of a producer that opens its own cluster. *)
Definition connection_config (config : ProducerConfig) (connection : ConnectionConfig.ConnectionConfig)
    : ConnectionConfig.ConnectionConfig :=
  ConnectionConfig.with_max_in_flight connection (Z.to_nat (max_in_flight config)).
Definition connect (open : ConnectionConfig.ConnectionConfig -> result W Error)
    (connection : ConnectionConfig.ConnectionConfig) (config : ProducerConfig) : result Producer Error :=
  let? w := open (connection_config config connection) in
  Ok (new w config).

(** [Producer::max_in_flight] is what the pool was configured with, not what the producer asks. *)
Definition pool_max_in_flight (connection : ConnectionConfig.ConnectionConfig) : nat :=
  ConnectionConfig.max_in_flight connection.

Definition with_world (w : W) (self : Producer) : Producer := {|
  config := config self; partitioner := partitioner self; spawned := spawned self;
  transactions := transactions self; appended := appended self; world := w |}.
Definition with_partitioner (p : Partition.Partitioner) (self : Producer) : Producer := {|
  config := config self; partitioner := p; spawned := spawned self;
  transactions := transactions self; appended := appended self; world := world self |}.
Definition with_transactions (t : Transactions.Transactions) (self : Producer) : Producer := {|
  config := config self; partitioner := partitioner self; spawned := spawned self;
  transactions := Some t; appended := appended self; world := world self |}.

(** An await on what is outside. *)
Definition outside {A} (f : W -> result A Error * W) : M A :=
  fun self => let '(r, w) := f (world self) in Some (r, with_world w self).

(** The accumulator, spawned on first use. *)
Definition accumulator : M unit :=
  put (fun self => {|
    config := config self; partitioner := partitioner self; spawned := true;
    transactions := transactions self; appended := appended self; world := world self |}).

(** ** Where a record goes *)

Definition implausible (topic : string) : Error :=
  InvalidRequest (topic +:+ ": implausible partition count").

(** [i32::try_from] of the number of partitions. *)
Definition count_of (topic : string) (info : Metadata.TopicInfo) : result Z Error :=
  let n := Z.of_nat (length (Metadata.partitions info)) in
  if n <=? I32_MAX then Ok n else Err (implausible topic).

Definition partition_count (topic : string) : M Z :=
  get_state (fun self =>
    match Metadata.topic (snapshot (world self)) topic with
    | Some info => ret (count_of topic info)
    | None =>
        let! refreshed := outside (refresh_topics [topic]) in
        match Metadata.topic refreshed topic with
        | None =>
            ret (Err (from_code ErrorCode.UnknownTopicOrPartition (Some (text_of_string topic))))
        | Some info => ret (count_of topic info)
        end
    end).

(** [Partitioner::assign], with its random draw. *)
Definition assign (topic : string) (key : option bytes) (count : Z) : M (option Z) :=
  fun self =>
    let '(drawn, w) := random_range count (world self) in
    let '(chosen, p) := Partition.assign (partitioner self) topic key count drawn in
    Some (Ok chosen, with_partitioner p (with_world w self)).

Definition no_such_partition (topic : string) (explicit count : Z) : Error :=
  InvalidRequest (topic +:+ ": partition " +:+ pretty explicit +:+ " does not exist; the topic has "
                  +:+ pretty count).

Definition resolve_partition (record : ProducerRecord) : M Z :=
  let! count := partition_count (topic record) in
  match partition record with
  | Some explicit =>
      if (explicit <? 0) || (count <=? explicit)
      then ret (Err (no_such_partition (topic record) explicit count))
      else ret (Ok explicit)
  | None =>
      let! chosen := assign (topic record) (key record) count in
      ret (ok_or chosen (InvalidRequest (topic record +:+ ": topic has no partitions")))
  end.

(** ** Records *)

(** Accept a record, and give the receiver of its outcome. *)
Definition enqueue (record : ProducerRecord) : M Z :=
  let! p := resolve_partition record in
  let! _ := accumulator in
  let! _ := put (fun self => {|
    config := config self; partitioner := partitioner self; spawned := spawned self;
    transactions := transactions self; appended := appended self ++ [(topic record, p, record)];
    world := world self |}) in
  outside (append_record (topic record) p record).

(** [Delivery::poll], once it is ready: a dropped sender is a producer that is gone. *)
Definition await_delivery (receiver : Z) : M RecordMetadata :=
  outside (fun w => let '(r, w) := received receiver w in
                    (default (Err SendGroup.producer_gone) r, w)).

Definition send (record : ProducerRecord) : M RecordMetadata :=
  let! receiver := enqueue record in
  await_delivery receiver.

Definition flush : M unit := let! _ := accumulator in outside flush_buffer.

(** ** Transactions *)

Definition no_transactional_id : Error :=
  InvalidRequest ("this producer has no transactional id; set one with "
                  +:+ "ProducerConfig::with_transactional_id").

(** An operation on [self.transactional()?]. *)
Definition transactional
    (f : Coordinators -> Transactions.Transactions -> option (Transactions.Transactions * result unit Error)) : M unit :=
  fun self =>
    match transactions self with
    | None => Some (Err no_transactional_id, self)
    | Some t =>
        let '(c, w) := coordinators (world self) in
        match f c t with
        | None => None
        | Some (t, r) => Some (r, with_transactions t (with_world w self))
        end
    end.

Definition init_transactions : M unit :=
  transactional (fun c t => Transactions.init (tx_call c) t (on_init c)).

Definition begin_transaction : M unit := transactional (fun _ t => Some (Transactions.begin t)).

Definition send_offsets_to_transaction (offsets : list ((string * Z) * Z)) (group : Transactions.GroupMetadata)
    : M unit :=
  if bool_decide (offsets = []) then ret (Ok tt)
  else transactional (fun c t =>
         Transactions.send_offsets (tx_call c) t (on_add_offsets c) (on_commit_offsets c) group offsets).

Definition end_transaction (commit : bool) : M unit :=
  transactional (fun c t => Transactions.end_ (tx_call c) t (on_end c) commit).

Definition commit_transaction : M unit := let! _ := flush in end_transaction true.
Definition abort_transaction : M unit := let! _ := flush in end_transaction false.

Definition in_transaction (self : Producer) : bool :=
  match transactions self with Some t => Transactions.is_open t | None => false end.

End producer.

End Producer.

(** ** The calls that end transactions, and the system they wait for

    [commit_transaction] and [abort_transaction] taken apart at their awaits: the flush command
    is queued, the actor answers it, the coordinator is asked. *)

Module Front.
Import ProducerConfig Accumulator SendGroup System.

Inductive Phase : Type := Flushing | Ending.

(** A call: [covered] is what the producer had accepted when it was made. *)
Record EndCall : Type := {
  commit : bool;
  waiter : Z;
  covered : list ((string * Z) * Queued);
  phase : Phase;
}.

(** [ended] are the requests that coordinators were asked, each with the call's [covered]. *)
Record Front : Type := {
  system : System;
  waiters : list Z;
  calls : list EndCall;
  ended : list (Transactions.EndTxnRequest * list ((string * Z) * Queued));
}.

Definition start (config : ProducerConfig) : Front := {|
  system := System.start config; waiters := []; calls := []; ended := [] |}.

(** The flushes that wait in the queue. *)
Definition flushes (l : list Command) : list Z :=
  flat_map (fun c => match c with Flush w => [w] | Append _ _ _ => [] end) l.

Definition ask_flush (s : System) (w : Z) : System := {|
  actor := actor s; closing := closing s; memory := memory s; commands := commands s ++ [Flush w];
  tasks := tasks s; completions := completions s; accepted := accepted s; sent := sent s;
  delivered := delivered s; flushed := flushed s |}.

Section step.
Context `{KafkaProtocol, Encode.RecordEncoder}.

Inductive step : Front -> Front -> Prop :=
  (** the system moves, and no flush is asked for *)
  | step_system f s' :
      System.step (system f) s' ->
      (forall w, w ∈ flushes (commands s') -> w ∈ flushes (commands (system f))) ->
      step f {| system := s'; waiters := waiters f; calls := calls f; ended := ended f |}
  (** a caller flushes; the waiter of a flush is a channel of its own *)
  | step_flush f w :
      w ∉ waiters f ->
      step f {| system := ask_flush (system f) w; waiters := w :: waiters f; calls := calls f; ended := ended f |}
  (** a caller commits or aborts: it flushes first *)
  | step_call f w commit :
      w ∉ waiters f ->
      step f {| system := ask_flush (system f) w; waiters := w :: waiters f;
                calls := {| commit := commit; waiter := w; covered := accepted (system f); phase := Flushing |}
                         :: calls f;
                ended := ended f |}
  (** the flush of a call is answered *)
  | step_flushed f before call after :
      calls f = before ++ call :: after -> phase call = Flushing -> waiter call ∈ flushed (system f) ->
      step f {| system := system f; waiters := waiters f;
                calls := before ++ {| commit := commit call; waiter := waiter call; covered := covered call;
                                      phase := Ending |} :: after;
                ended := ended f |}
  (** the call asks the coordinator, in the transactional state it finds *)
  | step_end f before call after t request :
      calls f = before ++ call :: after -> phase call = Ending ->
      Transactions.end_request t (commit call) = Ok request ->
      step f {| system := system f; waiters := waiters f; calls := before ++ after;
                ended := ended f ++ [(request, covered call)] |}
  (** the call is refused, or dropped by its caller *)
  | step_dropped f before call after :
      calls f = before ++ call :: after ->
      step f {| system := system f; waiters := waiters f; calls := before ++ after; ended := ended f |}.

Definition reachable (config : ProducerConfig) (f : Front) : Prop := rtc step (start config) f.

End step.

End Front.

(** * Lemmas and properties

    Lemmas on the producer's front end, and its properties: where records go, and what a
    call that ends a transaction waits for. *)

From S2P Require Import Dispatch AccumulatorFacts TurnFacts ProducerSystemFacts.
From Stdlib Require Import QArith.
Open Scope Z_scope.

(** ** Flushes through a turn of the actor *)

Module FrontFacts.
Import ProducerConfig ProducerRecord Idempotence Accumulator SendGroup System SystemFacts Front.

(** The flushes an event asks for. *)
Definition asked_by (event : Event) : list Z :=
  match event with Received (Flush w) => [w] | _ => [] end.

Lemma handle_event_waiters self now event :
  flush_waiters (handle_event self now event) = flush_waiters self ++ asked_by event.
Proof.
  destruct event as [[t p q|w]| |completed|]; cbn; rewrite ?app_nil_r; try done.
  unfold settle. by destruct (reset_identity completed).
Qed.

Lemma expire_waiters self now : flush_waiters (expire_overdue self now).1 = flush_waiters self.
Proof. done. Qed.

Lemma identity_waiters `{KafkaProtocol} self tx answer :
  flush_waiters (ensure_identity self tx answer).1 = flush_waiters self.
Proof. unfold ensure_identity. by repeat case_match. Qed.

Lemma enrolled_waiters self tx answer : flush_waiters (ensure_enrolled self tx answer).1 = flush_waiters self.
Proof. unfold ensure_enrolled. by repeat case_match; simplify_eq/=. Qed.

Lemma dispatch_waiters self tx leaders : flush_waiters (dispatch_ready self tx leaders).1 = flush_waiters self.
Proof. unfold dispatch_ready. by repeat case_match; simplify_eq/=. Qed.

(** A turn keeps or answers the flushes it finds and the one it is asked for. *)
Lemma turn_waiters `{KafkaProtocol} self env event self' out spawned answered :
  turn self env event = (self', out, spawned, answered) ->
  flush_waiters self' ++ answered = flush_waiters self ++ asked_by event.
Proof.
  unfold turn. rewrite <- (handle_event_waiters self (event_now env)).
  set (s1 := handle_event _ _ _). pose proof (expire_waiters s1 (expiry_now env)) as E2.
  destruct (expire_overdue s1 (expiry_now env)) as [s2 expired].
  pose proof (identity_waiters s2 (tx_identity env) (init_answer env)) as E3.
  destruct (ensure_identity s2 _ _) as [s3 failed].
  pose proof (enrolled_waiters s3 (tx_enrol env) (enrol_answer env)) as E4.
  destruct (ensure_enrolled s3 _ _) as [s4 refused].
  pose proof (dispatch_waiters s4 (tx_dispatch env) (leaders env)) as E5.
  destruct (dispatch_ready s4 _ _) as [s5 groups]. cbn [fst] in *.
  unfold settle_flushes. destruct (bool_decide _ || _); intros [= <- <- <- <-]; cbn; rewrite ?app_nil_r; congruence.
Qed.

(** ** The queue is first in, first out *)

Lemma queued_of_app l1 l2 : queued_of (l1 ++ l2) = queued_of l1 ++ queued_of l2.
Proof. apply flat_map_app. Qed.

Definition fifo (s : System) : Prop := exists taken, accepted s = taken ++ queued_of (commands s).

(** A turn that takes [incoming] off the queue. *)
Lemma after_turn_fields s cl cs cps out :
  accepted (after_turn s cl cs cps out) = accepted s /\ commands (after_turn s cl cs cps out) = cs
  /\ actor (after_turn s cl cs cps out) = out.1.1.1 /\ flushed (after_turn s cl cs cps out) = flushed s ++ out.2
  /\ delivered (after_turn s cl cs cps out) = delivered s ++ out.1.1.2.
Proof. by destruct out as [[[? ?] ?] ?]. Qed.

(** What a step does to the queue and to what was accepted. *)
Inductive queue_move (s s' : System) : Prop :=
  | move_append x command :
      accepted s' = accepted s ++ [x] -> commands s' = commands s ++ [command] -> queued_of [command] = [x] ->
      flush_waiters (actor s') = flush_waiters (actor s) -> flushed s' = flushed s -> queue_move s s'
  | move_flush w :
      accepted s' = accepted s -> commands s' = commands s ++ [Flush w] ->
      flush_waiters (actor s') = flush_waiters (actor s) -> flushed s' = flushed s -> queue_move s s'
  | move_turn incoming answered :
      accepted s' = accepted s -> commands s = incoming ++ commands s' -> (length incoming <= 1)%nat ->
      flush_waiters (actor s') ++ answered = flush_waiters (actor s) ++ flushes incoming ->
      flushed s' = flushed s ++ answered -> queue_move s s'.

Lemma turn_moves `{KafkaProtocol} s env event cl cs cps incoming :
  commands s = incoming ++ cs -> (length incoming <= 1)%nat -> flushes incoming = asked_by event ->
  queue_move s (after_turn s cl cs cps (turn (actor s) env event)).
Proof.
  intros Hc Hl Hf. destruct (turn (actor s) env event) as [[[a out] spawned] answered] eqn:Ht.
  apply (move_turn _ _ incoming answered); try done. cbn. rewrite (turn_waiters _ _ _ _ _ _ _ Ht). by rewrite Hf.
Qed.

Lemma step_moves `{KafkaProtocol, Encode.RecordEncoder} s s' :
  System.step s s' -> queue_move s s' /\ exists more, delivered s' = delivered s ++ more.
Proof.
  intros Hs. destruct Hs as [? ? ? t p| | | | | |]; (split; [|first [eexists; apply after_turn_fields|by exists []; rewrite app_nil_r|by eexists]]).
  - by eapply (move_append _ _ _ (Append t p queued)).
  - by eapply move_flush.
  - apply (turn_moves _ _ _ _ _ _ [command]); [done|cbn; lia|]. by destruct command.
  - apply (turn_moves _ _ _ _ _ _ []); [done|cbn; lia|done].
  - apply (turn_moves _ _ _ _ _ _ []); [done|cbn; lia|done].
  - apply (turn_moves _ _ _ _ _ _ []); [done|cbn; lia|done].
  - apply (move_turn _ _ [] []); cbn; rewrite ?app_nil_r; [done..|lia|done|done].
Qed.

Lemma fifo_move s s' : queue_move s s' -> fifo s -> fifo s'.
Proof.
  intros [x c Ea Ec Ex _ _|w Ea Ec _ _|incoming answered Ea Ec _ _ _] [taken E]; unfold fifo; rewrite Ea.
  - exists taken. by rewrite Ec, queued_of_app, Ex, E, app_assoc.
  - exists taken. by rewrite Ec, queued_of_app, app_nil_r.
  - exists (taken ++ queued_of incoming). by rewrite E, Ec, queued_of_app, app_assoc.
Qed.

(** ** What a flush waits for *)

(** A flush covers what was accepted before it was asked for: no more of the queue is behind
    it than was accepted since, and once it is taken off the queue, no more is left. *)
Record waits (s : System) (w : Z) (covered later : list ((string * Z) * Queued)) : Prop := {
  wt_accepted : accepted s = covered ++ later;
  wt_queued : forall pre post, commands s = pre ++ Flush w :: post ->
                (length (queued_of post) <= length later)%nat;
  wt_taken : w ∈ flush_waiters (actor s) \/ w ∈ flushed s ->
                (length (queued_of (commands s)) <= length later)%nat;
  wt_resolved : w ∈ flushed s -> map snd covered ⊆+ map fst (delivered s);
}.

Lemma app_last {A} (pre post l : list A) x y :
  l ++ [y] = pre ++ x :: post -> (post = [] /\ x = y) \/ exists post', post = post' ++ [y] /\ l = pre ++ x :: post'.
Proof.
  destruct post as [|p post'] using rev_ind; intros E.
  - left. by apply app_inj_tail in E as [_ ->].
  - right. exists post'. change (x :: post' ++ [p]) with ((x :: post') ++ [p]) in E.
    rewrite app_assoc in E. by apply app_inj_tail in E as [-> ->].
Qed.

(** A flush that was just asked for covers everything. *)
Lemma waits_start s w :
  w ∉ flushes (commands s) -> w ∉ flush_waiters (actor s) -> w ∉ flushed s ->
  waits (ask_flush s w) w (accepted s) [].
Proof.
  intros Hc Ha Hf. split; cbn; [by rewrite app_nil_r| |naive_solver|done].
  intros pre post [[-> _]|(post' & _ & E)]%app_last; [done|]. exfalso. apply Hc. rewrite E.
  unfold flushes. rewrite flat_map_app, elem_of_app. right. left.
Qed.

(** The part that was taken off the queue holds what a flush covers. *)
Lemma covered_is_taken {A} (covered later taken queue : list A) :
  covered ++ later = taken ++ queue -> (length queue <= length later)%nat -> exists l, taken = covered ++ l.
Proof.
  intros E Hl. apply app_eq_inv in E as [(k & -> & ->)|(k & -> & ->)]; [|by exists k].
  rewrite length_app in Hl. destruct k as [|? ?]; [|cbn in Hl; lia]. exists []. by rewrite !app_nil_r.
Qed.

Lemma in_flushes w l : Flush w ∈ l <-> w ∈ flushes l.
Proof.
  unfold flushes. induction l as [|[t p q|v] l IH]; cbn; [set_solver|set_solver|].
  rewrite !elem_of_cons, IH. naive_solver.
Qed.

(** The queue shrinks in the sight of a flush. *)
Lemma waits_queue s s' w covered later :
  queue_move s s' -> waits s w covered later ->
  exists later', accepted s' = covered ++ later'
    /\ (forall pre post, commands s' = pre ++ Flush w :: post -> (length (queued_of post) <= length later')%nat)
    /\ (w ∈ flush_waiters (actor s') \/ w ∈ flushed s' -> (length (queued_of (commands s')) <= length later')%nat).
Proof.
  intros [x c Ea Ec Ex Ew Ef|v Ea Ec Ew Ef|incoming answered Ea Ec Hi Ew Ef] [Wa Wq Wt _]; rewrite Ea, Wa.
  - exists (later ++ [x]). rewrite Ec, Ew, Ef, queued_of_app, Ex, !length_app. split_and!.
    + by rewrite app_assoc.
    + intros pre post [[-> _]|(post' & -> & E)]%app_last; [cbn; lia|]. apply Wq in E.
      rewrite queued_of_app, Ex, length_app. cbn. lia.
    + intros [H|H]; specialize (Wt ltac:(tauto)); cbn; lia.
  - exists later. rewrite Ec, Ew, Ef, queued_of_app, app_nil_r. split_and!; [done| |done].
    intros pre post [[-> _]|(post' & -> & E)]%app_last; [cbn; lia|].
    rewrite queued_of_app, app_nil_r. by eapply Wq.
  - exists later. split_and!; [done| |].
    + intros pre post E. apply (Wq (incoming ++ pre)). by rewrite Ec, E, app_assoc.
    + intros Hw. assert (w ∈ flush_waiters (actor s) \/ w ∈ flushed s \/ w ∈ flushes incoming) as [H|[H|H]].
      { rewrite Ef, elem_of_app in Hw. assert (w ∈ flush_waiters (actor s') ++ answered \/ w ∈ flushed s) as H
          by (rewrite elem_of_app; tauto). rewrite Ew, elem_of_app in H. tauto. }
      1,2: specialize (Wt ltac:(tauto)); rewrite Ec, queued_of_app, length_app in Wt; lia.
      destruct incoming as [|i [|]]; [by apply elem_of_nil in H| |cbn in Hi; lia].
      apply in_flushes, list_elem_of_singleton in H as <-. by apply (Wq []).
Qed.

Lemma waits_step `{KafkaProtocol, Encode.RecordEncoder} c s s' w covered later :
  0 <= buffer_memory c -> System.reachable c s -> fifo s -> System.step s s' -> waits s w covered later ->
  exists later', waits s' w covered later'.
Proof.
  intros Hm Hr Hf Hs Hw. destruct (step_moves _ _ Hs) as [Hq [more Hmore]].
  destruct (waits_queue _ _ _ _ _ Hq Hw) as (later' & Ea & Eq & Et). exists later'. split; try done.
  intros Hin. destruct (decide (w ∈ flushed s)) as [Hold|Hnew].
  - rewrite Hmore, map_app. etrans; [by apply (wt_resolved _ _ _ _ Hw)|]. apply submseteq_inserts_r. done.
  - pose proof (flush_resolves c s s' Hm Hr Hs ltac:(intros E; by rewrite E in Hin)) as Hp.
    destruct (fifo_move _ _ Hq Hf) as [taken E]. specialize (Et (or_intror Hin)).
    destruct (covered_is_taken covered later' taken (queued_of (commands s'))) as [l ->]; [congruence|done|].
    rewrite E, !map_app, (Permutation_app_comm _ (map snd (queued_of _))) in Hp.
    apply Permutation_app_inv_l in Hp. rewrite <- Hp. apply submseteq_inserts_r. done.
Qed.

(** ** The invariant of the calls *)

Record Fronted `{KafkaProtocol, Encode.RecordEncoder} (c : ProducerConfig) (f : Front) : Prop := {
  fr_reachable : System.reachable c (system f);
  fr_fifo : fifo (system f);
  fr_waiters : forall w, w ∈ flushes (commands (system f)) \/ w ∈ flush_waiters (actor (system f))
                         \/ w ∈ flushed (system f) -> w ∈ waiters f;
  fr_calls : Forall (fun call => waiter call ∈ waiters f
                       /\ (exists later, waits (system f) (waiter call) (covered call) later)
                       /\ (phase call = Ending -> waiter call ∈ flushed (system f))) (calls f);
  fr_ended : Forall (fun e => map snd e.2 ⊆+ map fst (delivered (system f))) (ended f);
}.

Section fronted.
Context `{KafkaProtocol, Encode.RecordEncoder} (c : ProducerConfig).
Hypothesis memory_is_counted : 0 <= buffer_memory c.

Lemma fronted_start : Fronted c (start c).
Proof.
  split; cbn; try done; [apply rtc_refl|by exists []|]. intros w Hw. set_solver.
Qed.

(** The waiters of the flushes that a step of the system leaves were there before. *)
Lemma known_waiters s s' w :
  queue_move s s' -> (forall v, v ∈ flushes (commands s') -> v ∈ flushes (commands s)) ->
  w ∈ flushes (commands s') \/ w ∈ flush_waiters (actor s') \/ w ∈ flushed s' ->
  w ∈ flushes (commands s) \/ w ∈ flush_waiters (actor s) \/ w ∈ flushed s.
Proof.
  intros Hq Hnew [Hw|Hw]; [left; by apply Hnew|].
  destruct Hq as [x command _ _ _ Ew Ef|v _ _ Ew Ef|incoming answered _ Ec _ Ew Ef]; rewrite Ef in Hw.
  - right. by rewrite <- Ew.
  - right. by rewrite <- Ew.
  - assert (w ∈ flush_waiters (actor s) ++ flushes incoming \/ w ∈ flushed s) as H1
      by (rewrite <- Ew; rewrite elem_of_app in *; tauto).
    rewrite Ec. unfold flushes in *. rewrite flat_map_app, !elem_of_app in *. tauto.
Qed.

(** A flush is asked for through a channel of its own. *)
Lemma fronted_flush f w cs :
  w ∉ waiters f ->
  Forall (fun call => waiter call = w /\ covered call = accepted (system f) /\ phase call = Flushing) cs ->
  Fronted c f ->
  Fronted c {| system := ask_flush (system f) w; waiters := w :: waiters f; calls := cs ++ calls f; ended := ended f |}.
Proof.
  intros Hw Hcs [Hr Hf Hk Hcalls Hended].
  assert (Hs : System.step (system f) (ask_flush (system f) w)) by apply System.step_flush.
  split; cbn.
  - by eapply rtc_r.
  - destruct (step_moves _ _ Hs) as [Hq _]. by eapply fifo_move.
  - intros v. unfold flushes. rewrite flat_map_app, elem_of_app. cbn. intros Hv.
    apply elem_of_cons. destruct (decide (v = w)); [by left|right]. apply Hk. set_solver.
  - rewrite Forall_forall in Hcs, Hcalls. apply Forall_app. split; apply Forall_forall; intros call Hin.
    + destruct (Hcs call Hin) as (-> & -> & ->). split; [left|]. split; [|done].
      exists []. apply waits_start; intros ?; apply Hw, Hk; tauto.
    + destruct (Hcalls call Hin) as (Hc & [later Hl] & He). split; [by right|]. split; [|done].
      by eapply waits_step.
  - done.
Qed.

Lemma fronted_step f f' : step f f' -> Fronted c f -> Fronted c f'.
Proof.
  intros Hs Hi. pose proof Hi as [Hr Hf Hk Hcalls Hended].
  destruct Hs as [f s' Hs Hnew|f w Hw|f w b Hw|f before call after E Hp Hin
    |f before call after t request E Hp Ht|f before call after E].
  - destruct (step_moves _ _ Hs) as [Hq [more Hmore]]. split; cbn.
    + by eapply rtc_r.
    + by eapply fifo_move.
    + intros w Hw. apply Hk. by eapply known_waiters.
    + apply (Forall_impl _ _ _ Hcalls). intros call (Hc & [later Hl] & He). split; [done|].
      split; [by eapply waits_step|]. intros Hp. specialize (He Hp).
      destruct Hq as [? ? _ _ _ _ Ef|? _ _ _ Ef|? ? _ _ _ _ Ef]; rewrite Ef; [done|done|].
      apply elem_of_app. by left.
    + apply (Forall_impl _ _ _ Hended). intros e He. rewrite Hmore, map_app. etrans; [exact He|].
      by apply submseteq_inserts_r.
  - by apply (fronted_flush f w []).
  - apply (fronted_flush f w [_]); [done| |done]. by repeat constructor.
  - split; cbn; try done. rewrite E in Hcalls. apply Forall_app in Hcalls as [H1 H2].
    apply Forall_app. split; [done|]. apply Forall_cons in H2 as [(Hc & Hl & _) H2].
    constructor; [|done]. by split_and!.
  - rewrite E in Hcalls. apply Forall_app in Hcalls as [H1 ((Hc & [later Hl] & He) & H2)%Forall_cons].
    split; cbn; try done; apply Forall_app; (split; [done|]); [done|].
    repeat constructor. cbn. apply (wt_resolved _ _ _ _ Hl), He, Hp.
  - rewrite E in Hcalls. apply Forall_app in Hcalls as [H1 [_ H2]%Forall_cons].
    split; cbn; try done. by apply Forall_app.
Qed.

Lemma fronted f : reachable c f -> Fronted c f.
Proof.
  intros Hr. unfold reachable in Hr. pose proof fronted_start as Hi. revert Hi.
  induction Hr as [|f1 f2 f3 Hs _ IH]; [done|]. intros Hi. apply IH. by eapply fronted_step.
Qed.

End fronted.

End FrontFacts.

(** ** Where records go *)

(** A random number is in the range it is drawn from. *)
Class DrawLaws (W : Type) `{!ProducerWorld W} : Prop := {
  draw_in_range : forall n w, 0 <= (random_range n w).1 < Z.max 1 n;
}.

Module RecordFacts.
Import Error Eff ProducerConfig ProducerRecord Producer.

Section records.
Context {W : Type} `{!ProducerWorld W, !DrawLaws W, !KafkaProtocol}.
Implicit Types (s : Producer W) (record : ProducerRecord).

(** A view of the metadata that a call can have of a topic: the snapshot it finds, or, if that
    lacks the topic, the answer to a refresh. *)
Definition sees (w : W) (topic : string) (view : Metadata.MetadataSnapshot) : Prop :=
  view = snapshot w
  \/ (Metadata.topic (snapshot w) topic = None /\ exists w', refresh_topics [topic] w = (Ok view, w')).

(** The partition of a record that was handed over: one that the topic has; the one it names,
    the one of its key, or the one the topic is stuck to. *)
Definition placed (w : W) (sticky : gmap string Z) record (p : Z) : Prop :=
  exists view info,
    sees w (topic record) view /\ Metadata.topic view (topic record) = Some info
    /\ let n := Z.of_nat (length (Metadata.partitions info)) in
       0 <= p < n
       /\ match partition record, key record with
          | Some q, _ => p = q
          | None, Some k => p = Partition.partition_for_key k n
          | None, None => sticky !! topic record = Some p
          end.

Lemma count_of_Ok t info n :
  count_of t info = Ok n -> n = Z.of_nat (length (Metadata.partitions info)) /\ 0 <= n <= I32_MAX.
Proof. unfold count_of. destruct (_ <=? _) eqn:E; intros [= <-]. lia. Qed.

Lemma partition_count_sees t s n s' :
  partition_count t s = Some (Ok n, s') ->
  (exists view info, sees (world s) t view /\ Metadata.topic view t = Some info
     /\ n = Z.of_nat (length (Metadata.partitions info)) /\ 0 <= n <= I32_MAX)
  /\ appended s' = appended s /\ partitioner s' = partitioner s.
Proof.
  unfold partition_count, get_state. destruct (Metadata.topic (snapshot (world s)) t) as [info|] eqn:E.
  - intros [= Hn <-]. apply count_of_Ok in Hn as [-> Hn]. split; [|done].
    exists (snapshot (world s)), info. split_and!; [by left|done|done|lia..].
  - intros (view & s1 & Ho & Hk)%try_inv. unfold outside in Ho.
    destruct (refresh_topics [t] (world s)) as [r w] eqn:Er. injection Ho as -> <-.
    destruct (Metadata.topic view t) as [info|] eqn:Ev; [|done].
    injection Hk as Hn <-. apply count_of_Ok in Hn as [-> Hn]. split; [|done].
    exists view, info. split_and!; [right; eauto|done|done|lia..].
Qed.

Lemma partition_count_keeps t s r s' :
  partition_count t s = Some (r, s') -> appended s' = appended s.
Proof.
  unfold partition_count, get_state. destruct (Metadata.topic _ _); [by intros [= _ <-]|].
  intros (r1 & s1 & Ho & Hk)%bind_inv. unfold outside in Ho.
  destruct (refresh_topics [t] (world s)) as [r2 w]. injection Ho as -> <-.
  destruct r1 as [view|e]; [|by injection Hk as _ <-].
  destruct (Metadata.topic view t); by injection Hk as _ <-.
Qed.

Lemma assigned t k n s r s' :
  PartitionFacts.wf (partitioner s) -> n <= I32_MAX -> assign t k n s = Some (r, s') ->
  exists chosen, r = Ok chosen /\ appended s' = appended s
    /\ forall p, chosen = Some p ->
         0 <= p < n /\ match k with
                       | Some k => p = Partition.partition_for_key k n
                       | None => Partition.sticky (partitioner s') !! t = Some p
                       end.
Proof.
  intros Hwf Hn. unfold assign. pose proof (draw_in_range n (world s)) as Hd.
  destruct (random_range n (world s)) as [drawn w]. cbn [fst] in Hd.
  destruct (Partition.assign (partitioner s) t k n drawn) as [chosen q] eqn:E. intros [= <- <-].
  exists chosen. split; [done|]. split; [done|]. intros p ->. cbn.
  unfold Partition.assign in E. destruct (n <=? 0) eqn:Hp; [done|].
  destruct k as [k|].
  - injection E as <- <-. split; [apply PartitionFacts.partition_for_key_range; lia|done].
  - pose proof (PartitionFacts.sticky_for_chosen (partitioner s) t n drawn ltac:(lia) (Hwf t) ltac:(lia)) as Hc.
    unfold Partition.sticky_for in E, Hc. cbn in Hc. injection E as <- <-. split; [done|].
    cbn. by rewrite lookup_insert_eq.
Qed.

(** What a call that accepts a record hands over. *)
Lemma enqueue_places record s r s' :
  PartitionFacts.wf (partitioner s) -> enqueue record s = Some (r, s') ->
  (exists p, appended s' = appended s ++ [(topic record, p, record)]
     /\ placed (world s) (Partition.sticky (partitioner s')) record p)
  \/ (appended s' = appended s /\ exists e, r = Err e).
Proof.
  intros Hwf (rp & s1 & Hres & Hk)%bind_inv. unfold resolve_partition in Hres.
  apply bind_inv in Hres as (rc & s2 & Hcount & Hrest). destruct rc as [n|e].
  2:{ right. injection Hrest as <- <-. injection Hk as <- <-. split; [by eapply partition_count_keeps|by eexists]. }
  destruct (partition_count_sees _ _ _ _ Hcount) as ((view & info & Hsees & Hinfo & En & Hn) & Ha & Hq).
  assert (Hgo : forall p, rp = Ok p -> appended s1 = appended s ->
    (0 <= p < n /\ match partition record, key record with
                   | Some q, _ => p = q
                   | None, Some k => p = Partition.partition_for_key k n
                   | None, None => Partition.sticky (partitioner s1) !! topic record = Some p
                   end) ->
    exists p, appended s' = appended s ++ [(topic record, p, record)]
      /\ placed (world s) (Partition.sticky (partitioner s')) record p).
  { intros p -> Ha1 Hp. exists p. unfold bind, accumulator, put, outside in Hk. cbn in Hk.
    destruct (append_record (topic record) p record (world s1)) as [r2 w]. injection Hk as <- <-.
    cbn. rewrite Ha1. split; [done|]. exists view, info. by rewrite <- En. }
  destruct (partition record) as [explicit|] eqn:Ep.
  - destruct ((explicit <? 0) || (n <=? explicit)) eqn:Hr; injection Hrest as <- <-.
    + right. injection Hk as <- <-. split; [done|by eexists].
    + left. apply (Hgo explicit); [done|done|]. split; [lia|done].
  - apply bind_inv in Hrest as (chosen & s3 & Has & Hret). rewrite <- Hq in Hwf.
    destruct (assigned _ _ _ _ _ _ Hwf (proj2 Hn) Has) as (c & -> & Ha3 & Hc). injection Hret as <- <-.
    destruct c as [p|].
    + left. apply (Hgo p); [done|congruence|]. destruct (Hc p eq_refl) as [Hp Hm]. split; [done|].
      by destruct (key record).
    + right. injection Hk as <- <-. split; [congruence|by eexists].
Qed.

Lemma partition_count_partitioner t s r s' :
  partition_count t s = Some (r, s') -> partitioner s' = partitioner s.
Proof.
  unfold partition_count, get_state. destruct (Metadata.topic _ _); [by intros [= _ <-]|].
  intros (r1 & s1 & Ho & Hk)%bind_inv. unfold outside in Ho.
  destruct (refresh_topics [t] (world s)) as [r2 w]. injection Ho as -> <-.
  destruct r1 as [view|e]; [|by injection Hk as _ <-].
  destruct (Metadata.topic view t); by injection Hk as _ <-.
Qed.

(** The partitioner stays in order. *)
Lemma enqueue_wf record s r s' :
  PartitionFacts.wf (partitioner s) -> enqueue record s = Some (r, s') -> PartitionFacts.wf (partitioner s').
Proof.
  intros Hwf (rp & s1 & Hres & Hk)%bind_inv.
  assert (H1 : PartitionFacts.wf (partitioner s1)).
  { apply bind_inv in Hres as (rc & s2 & Hcount & Hrest). pose proof (partition_count_partitioner _ _ _ _ Hcount) as Hq.
    destruct rc as [n|e]; [|injection Hrest as _ <-; by rewrite Hq].
    destruct (partition_count_sees _ _ _ _ Hcount) as ((_ & _ & _ & _ & _ & Hn) & _).
    destruct (partition record); [destruct (_ || _); injection Hrest as _ <-; by rewrite Hq|].
    apply bind_inv in Hrest as (chosen & s3 & Has & Hret).
    assert (partitioner s1 = partitioner s3) as -> by (destruct chosen; by injection Hret as _ <-).
    unfold assign in Has. pose proof (draw_in_range n (world s2)) as Hd.
    destruct (random_range n (world s2)) as [drawn w]. rewrite Hq in Has. cbn [fst] in Hd.
    pose proof (PartitionFacts.assign_wf _ (topic record) (key record) n drawn Hwf (proj2 Hn) Hd) as Hw.
    destruct (Partition.assign _ _ _ _ _) as [c q]. by injection Has as _ <-. }
  destruct rp as [p|e]; [|by injection Hk as _ <-].
  unfold bind, accumulator, put, outside in Hk. cbn in Hk.
  destruct (append_record (topic record) p record (world s1)) as [r2 w]. by injection Hk as _ <-.
Qed.

End records.

End RecordFacts.

(** ** Properties *)

Module FrontProperties.
Import ProducerConfig ProducerRecord Idempotence Accumulator SendGroup System SystemFacts Front FrontFacts.

(** C3: What ends a transaction waits for its records. In every reachable state of the
    producing system and its callers, each request to commit or to abort that was sent to a
    coordinator is of a call before which every record that the producer had accepted was resolved. *)
Theorem ending_waits_for_its_records `{KafkaProtocol, Encode.RecordEncoder} c f :
  0 <= buffer_memory c -> Front.reachable c f ->
  Forall (fun '(request, covered) => map snd covered ⊆+ map fst (delivered (system f))) (ended f).
Proof.
  intros Hm Hr. pose proof (fr_ended _ _ (fronted c Hm f Hr)) as He.
  apply (Forall_impl _ _ _ He). by intros [request covered].
Qed.

(** C36: A record reaches a partition that exists. A call that accepts a record hands it to
    the accumulator once, for a partition that its topic has in the metadata the call sees: the one it
    names, the one of its key, or the one the topic is stuck to; or it fails and hands over nothing. *)
Theorem records_reach_a_partition_that_exists {W : Type} `{!ProducerWorld W, !DrawLaws W, !KafkaProtocol}
    record (s : Producer.Producer W) r s' :
  PartitionFacts.wf (Producer.partitioner s) -> Producer.enqueue record s = Some (r, s') ->
  PartitionFacts.wf (Producer.partitioner s')
  /\ ((exists p, Producer.appended s' = Producer.appended s ++ [(ProducerRecord.topic record, p, record)]
        /\ RecordFacts.placed (Producer.world s) (Partition.sticky (Producer.partitioner s')) record p)
      \/ (Producer.appended s' = Producer.appended s /\ exists e, r = Err e)).
Proof.
  intros Hwf He. split; [by eapply RecordFacts.enqueue_wf|by apply RecordFacts.enqueue_places].
Qed.

(** *** A transaction, and a record that expires in it *)

#[local] Instance demo_protocol : KafkaProtocol :=
  {| try_from_code c := None; is_retriable _ := true |}.
#[local] Instance demo_encoder : Encode.RecordEncoder :=
  {| Encode.kp_encode wire _ _ _ := Ok (map (fun _ => Byte.x01) wire); Encode.zstd_copy_encode b _ := Ok b |}.

Definition demo_record : ProducerRecord := with_value (with_key (new_record "t") [Byte.x6b]) [Byte.x76].
Definition demo_queued : Queued := {|
  Accumulator.record := demo_record; deadline := 30 * Retry.SECOND; respond := 1;
  permit := permits_for (accounted_size demo_record) |}.

(** The clock is past every deadline. *)
Definition demo_env : TurnEnv := {|
  event_now := 1; expiry_now := 31 * Retry.SECOND; tx_identity := None; tx_enrol := None; tx_dispatch := None;
  init_answer _ := Err (Error.ConnectionClosed "broker:9092"); enrol_answer _ := Ok tt; leaders _ := None |}.

Definition demo_config : ProducerConfig := with_transactional_id new "orders".
Definition demo_open : Transactions.Transactions := {|
  Transactions.transactional_id := "orders"; Transactions.poisoned := false;
  Transactions.state := {| Transactions.identity_ := Some {| producer_id := 7; producer_epoch := 0 |};
                           Transactions.open := true; Transactions.enrolled := ∅; Transactions.fenced := false |} |}.

Definition demo_append (s : System) : System := {|
  actor := actor s; closing := closing s; memory := memory s - permit demo_queued;
  commands := commands s ++ [Append "t" 0 demo_queued]; tasks := tasks s; completions := completions s;
  accepted := accepted s ++ [(("t"%string, 0), demo_queued)]; sent := sent s;
  delivered := delivered s; flushed := flushed s |}.
Definition demo_turn (s : System) : System :=
  match commands s with
  | command :: rest => after_turn s false rest (completions s) (turn (actor s) demo_env (Received command))
  | [] => s
  end.

Definition demo_called : Front :=
  let s := demo_append (System.start demo_config) in {|
  system := demo_turn (demo_turn (ask_flush s 9)); waiters := [9];
  calls := [{| commit := true; waiter := 9; covered := accepted s; phase := Flushing |}]; ended := [] |}.

Definition demo_request : Transactions.EndTxnRequest := {|
  Transactions.end_transactional_id := "orders"; Transactions.end_producer_id := 7;
  Transactions.end_producer_epoch := 0; Transactions.committed := true |}.
Definition demo_ended : Front := {|
  system := system demo_called; waiters := [9]; calls := []; ended := [(demo_request, [(("t"%string, 0), demo_queued)])] |}.

Lemma demo_step_turn ws cs es (s : System) :
  closing s = false -> commands s <> [] ->
  step {| system := s; waiters := ws; calls := cs; ended := es |}
       {| system := demo_turn s; waiters := ws; calls := cs; ended := es |}.
Proof.
  intros Hc Hne. unfold demo_turn. destruct (commands s) as [|command rest] eqn:E; [done|].
  apply (step_system {| system := s; waiters := ws; calls := cs; ended := es |}).
  - by apply System.step_command.
  - intros w. destruct (after_turn_fields s false rest (completions s) (turn (actor s) demo_env (Received command)))
      as (_ & -> & _). cbn [system]. rewrite E. unfold flushes. cbn. rewrite elem_of_app. by right.
Qed.

Lemma demo_ended_reachable : Front.reachable demo_config demo_ended.
Proof.
  eapply rtc_l.
  { apply (step_system _ (demo_append (System.start demo_config))).
    - apply (System.step_append (System.start demo_config) 0 0 "t" 0 demo_record 1 demo_queued). vm_compute. reflexivity.
    - by intros w. }
  eapply rtc_l; [apply (step_call _ 9 true); by intros ?%elem_of_nil|].
  eapply rtc_l; [apply demo_step_turn; vm_compute; [reflexivity|discriminate]|].
  eapply rtc_l; [apply demo_step_turn; vm_compute; [reflexivity|discriminate]|].
  eapply rtc_l; [eapply (step_flushed _ [] _ []); [reflexivity|reflexivity|vm_compute; left]|].
  eapply rtc_l; [eapply (step_end _ [] _ [] demo_open demo_request); reflexivity|].
  apply rtc_refl.
Qed.

Lemma ending_waits_for_its_records_witness :
  Forall (fun '(request, covered) => map snd covered ⊆+ map fst (delivered (system demo_ended))) (ended demo_ended)
  /\ map fst (ended demo_ended) = [demo_request].
Proof.
  split; [|reflexivity].
  apply (ending_waits_for_its_records demo_config demo_ended); [vm_compute; discriminate|exact demo_ended_reachable].
Defined.

(** The transaction is committed all the same when its record was lost. *)
Example commit_without_its_record :
  Front.reachable demo_config demo_ended
  /\ map (fun e => (Transactions.committed e.1, length e.2)) (ended demo_ended) = [(true, 1%nat)]
  /\ Forall (fun d => d.1 = demo_queued /\ is_ok d.2 = false) (delivered (system demo_ended)).
Proof. split; [exact demo_ended_reachable|]. split; [reflexivity|]. vm_compute. by repeat constructor. Qed.

(** *** A topic of three partitions, and one that the brokers refuse *)

Definition demo_topic (name : string) (n : nat) (error : option ErrorCode.ErrorCode) : Metadata.TopicInfo := {|
  Metadata.name := name; Metadata.topic_id := Metadata.ZERO; Metadata.internal := false;
  Metadata.partitions := map (fun i => {|
    Metadata.partition := Z.of_nat i; Metadata.leader := Some 1; Metadata.leader_epoch := 0; Metadata.replicas := [1];
    Metadata.isr := [1]; Metadata.offline_replicas := []; Metadata.partition_error := None |}) (seq 0 n);
  Metadata.topic_error := error |}.

Definition no_answer {R} : Transactions.CallEnv R := {|
  Transactions.answers _ := Err producer_gone; Transactions.clock _ := 0; Transactions.jitter _ := 0%Q |}.

(** The world is the list of the topics that were refreshed. *)
#[local] Instance demo_world : ProducerWorld (list string) := {|
  snapshot _ := Metadata.new 0 [] [demo_topic "t" 3 None] None None;
  refresh_topics names w :=
    (Ok (Metadata.new 1 [] (map (fun t => demo_topic t 0 (Some ErrorCode.UnknownTopicOrPartition)) names) None None),
     w ++ names);
  random_range n w := (0, w);
  append_record _ _ _ w := (Ok 1, w);
  flush_buffer w := (Ok tt, w);
  received _ w := (None, w);
  coordinators w := ({| tx_call := {| Transactions.fuel := 1; Transactions.policy := Retry.default_policy;
                                      Transactions.started := 0 |};
      on_init _ := no_answer;
      on_add_offsets _ := no_answer;
      on_commit_offsets _ := no_answer;
      on_end _ := no_answer |}, w) |}.
#[local] Instance demo_draws : DrawLaws (list string).
Proof. split. intros n w. cbn. lia. Qed.

Lemma records_reach_a_partition_that_exists_witness :
  exists p s', Producer.enqueue demo_record (Producer.new [] new) = Some (Ok 1, s')
    /\ Producer.appended s' = [("t"%string, p, demo_record)]
    /\ RecordFacts.placed [] (Partition.sticky (Producer.partitioner s')) demo_record p.
Proof.
  destruct (Producer.enqueue demo_record (Producer.new [] new)) as [[r s']|] eqn:E; [|vm_compute in E; discriminate].
  assert (r = Ok 1) as -> by (vm_compute in E; congruence).
  destruct (records_reach_a_partition_that_exists demo_record (Producer.new [] new) (Ok 1) s') as [_ [(p & Ha & Hp)|(_ & e & He)]];
    [apply map_Forall_empty|exact E| |discriminate He].
  exists p, s'. split; [reflexivity|]. exact (conj Ha Hp).
Defined.

(** What a broker says of a topic is not looked at: a topic that does not exist, or is not
    there yet, fails with an error that is not worth retrying. *)
Example refused_topic_has_no_partitions :
  exists s', Producer.send (new_record "u") (Producer.new [] new)
    = Some (Err (Error.InvalidRequest "u: topic has no partitions"), s')
  /\ Error.retriable (Error.InvalidRequest "u: topic has no partitions") = false.
Proof. eexists. split; vm_compute; reflexivity. Qed.

End FrontProperties.
