(* ===== verification/ExactlyOnce.v ===== *)
(** Consuming, transforming and producing exactly once (KIP-447): what a consumer tells a
    transactional producer ([group_metadata] and the accessors of the four consumers of
    [crates/kafka-consume/src/consumer.rs], [crates/kafka-meta/src/group.rs]), and that the offsets
    a producer commits in its transaction are those the consumer would commit itself. *)

From S2P Require Import Prelude Sanitize ErrorCodes ApiKeys Retry Effects BatchDecode Fetch Connection Metadata Consumer ConsumerProperties Group Assignors Classic Idempotence Transactions TransactionsFacts Encode Partition Producer.
From Stdlib Require Import QArith.
Open Scope Z_scope.

(** ** What each consumer says of itself *)

Module Standalone.
Import Offsets Consumer.

(** [Consumer::retry_policy]; [cluster] is the policy of the cluster. *)
Definition retry_policy (cluster : Retry.RetryPolicy) (self : Consumer) : Retry.RetryPolicy :=
  default cluster (retry (config self)).

(** [Consumer::connect]. *)
Definition connect {W} (open : result W Error.Error) (config : ConsumerConfig)
    : result (W * Consumer) Error.Error :=
  let? w := open in
  Ok (w, new config).

(** No member of anything: an empty member id, and the sentinel. *)
Definition group_metadata (self : Consumer) : result GroupMetadata.ConsumerGroupMetadata Error.Error :=
  let? group := group self in
  Ok (GroupMetadata.new group).

End Standalone.

Module Member.
Import Offsets Consumer Membership GroupConsumer.

Section member.
Context `{KafkaProtocol, Batch.RecordCodec} {W : Type} (gn : GroupNet W).

Definition assignment (self : GroupConsumer) : list (string * Z) := assignment_keys (inner self).
Definition member_id (self : GroupConsumer) : string := Membership.member_id (membership self).
Definition lag (self : GroupConsumer) (topic : string) (partition : Z) : option Z :=
  Consumer.lag (inner self) topic partition.
Definition positions (self : GroupConsumer) : list ((string * Z) * Z) := Consumer.positions (inner self).
Definition committed (w : W) (self : GroupConsumer) : W * result (gmap (string * Z) CommittedOffset) Error.Error :=
  Consumer.committed (net gn) w (inner self).

Definition group_metadata (self : GroupConsumer) : result GroupMetadata.ConsumerGroupMetadata Error.Error :=
  let? group := group (inner self) in
  Ok (GroupMetadata.with_maybe_instance_id
        (GroupMetadata.with_generation
           (GroupMetadata.with_member_id (GroupMetadata.new group) (Membership.member_id (membership self)))
           (member_epoch (membership self)))
        (instance_id (membership self))).

End member.

End Member.

Module ClassicMember.
Import Offsets Consumer GroupConsumer ClassicMembership ClassicConsumer.

Section classic.
Context `{KafkaProtocol, Batch.RecordCodec} {W : Type} (cn : ClassicNet W).

Definition assignment (self : ClassicConsumer) : list (string * Z) := assignment_keys (c_inner self).
Definition member_id (self : ClassicConsumer) : string := c_member_id (c_member self).
Definition is_leader (self : ClassicConsumer) : bool := leader (c_member self).
Definition positions (self : ClassicConsumer) : list ((string * Z) * Z) := Consumer.positions (c_inner self).
Definition committed (w : W) (self : ClassicConsumer) : W * result (gmap (string * Z) CommittedOffset) Error.Error :=
  Consumer.committed (net (base cn)) w (c_inner self).

Definition group_metadata (self : ClassicConsumer) : result GroupMetadata.ConsumerGroupMetadata Error.Error :=
  let? group := group (c_inner self) in
  Ok (GroupMetadata.with_maybe_instance_id
        (GroupMetadata.with_generation
           (GroupMetadata.with_member_id (GroupMetadata.new group) (c_member_id (c_member self)))
           (generation_id (c_member self)))
        (c_instance_id (c_member self))).

End classic.

End ClassicMember.

Module Negotiated.
Import Offsets GroupConsumer ClassicMembership NegotiatedConsumer.

Section negotiated.
Context `{KafkaProtocol, Batch.RecordCodec} {W : Type} (cn : ClassicNet W).

Definition committed (w : W) (self : NegotiatedConsumer) : W * result (gmap (string * Z) CommittedOffset) Error.Error :=
  match self with
  | Group consumer => Member.committed (base cn) w consumer
  | AsClassic consumer => ClassicMember.committed cn w consumer
  end.
Definition assignment (self : NegotiatedConsumer) : list (string * Z) :=
  match self with
  | Group consumer => Member.assignment consumer
  | AsClassic consumer => ClassicMember.assignment consumer
  end.
Definition member_id (self : NegotiatedConsumer) : string :=
  match self with
  | Group consumer => Member.member_id consumer
  | AsClassic consumer => ClassicMember.member_id consumer
  end.
Definition positions (self : NegotiatedConsumer) : list ((string * Z) * Z) :=
  match self with
  | Group consumer => Member.positions consumer
  | AsClassic consumer => ClassicMember.positions consumer
  end.
Definition group_metadata (self : NegotiatedConsumer) : result GroupMetadata.ConsumerGroupMetadata Error.Error :=
  match self with
  | Group consumer => Member.group_metadata consumer
  | AsClassic consumer => ClassicMember.group_metadata consumer
  end.

End negotiated.

End Negotiated.

(** The identity as the transactions' requests read it: the same Rust type. *)
Definition carried (g : GroupMetadata.ConsumerGroupMetadata) : Transactions.GroupMetadata := {|
  Transactions.group_id := GroupMetadata.group_id g; Transactions.generation := GroupMetadata.generation g;
  Transactions.member_id := GroupMetadata.member_id g; Transactions.instance_id := GroupMetadata.instance_id g |}.

(** ** The interface a transform has of its consumer

    What the loop of [Producer::send_offsets_to_transaction]'s documentation uses: where the
    consumer is, who it is, and, for comparison, its own commit.  [net] is the consumer's world. *)

Class Commits {W : Type} (net : Consumer.Net W) (C : Type) : Type := {
  positions_of : C -> list ((string * Z) * Z);
  metadata_of : C -> result GroupMetadata.ConsumerGroupMetadata Error.Error;
  commit_of : W -> C -> W * result (list ((string * Z) * result unit Error.Error)) Error.Error;
}.
#[global] Arguments commit_of {W} net {C _}.

(** A membership, or none, as an identity in a group. *)
Definition identity_in (group : string) (who : option Offsets.CommitAs) : GroupMetadata.ConsumerGroupMetadata := {|
  GroupMetadata.group_id := group;
  GroupMetadata.member_id := match who with Some m => Offsets.ca_member_id m | None => "" end;
  GroupMetadata.generation := match who with Some m => Offsets.ca_epoch m | None => Offsets.NOT_A_MEMBER end;
  GroupMetadata.instance_id := match who with Some m => Offsets.ca_instance_id m | None => None end |}.

(** Its laws: everything is said of one consumer inside, under one membership. *)
Class CommitsLaws `{KafkaProtocol} {W} (net : Consumer.Net W) (C : Type) `{!Commits net C} : Type := {
  inside : C -> Consumer.Consumer;
  who : C -> option Offsets.CommitAs;
  inside_positions c : positions_of c = Consumer.positions (inside c);
  inside_metadata c :
    metadata_of c = let? group := Consumer.group (inside c) in Ok (identity_in group (who c));
  inside_commit w c : commit_of net w c = Consumer.commit_as net w (inside c) (who c);
}.

Section instances.
Context `{KafkaProtocol, Batch.RecordCodec} {W : Type}.

#[global] Instance standalone_commits (net : Consumer.Net W) : Commits net Consumer.Consumer := {|
  positions_of := Consumer.positions; metadata_of := Standalone.group_metadata; commit_of := Consumer.commit net |}.
#[global, refine] Instance standalone_laws (net : Consumer.Net W) : CommitsLaws net Consumer.Consumer := {|
  inside c := c; who _ := None |}.
Proof. all: done. Defined.

#[global] Instance member_commits (gn : GroupConsumer.GroupNet W)
    : Commits (GroupConsumer.net gn) GroupConsumer.GroupConsumer := {|
  positions_of := Member.positions; metadata_of := Member.group_metadata; commit_of := GroupConsumer.commit gn |}.
#[global, refine] Instance member_laws (gn : GroupConsumer.GroupNet W)
    : CommitsLaws (GroupConsumer.net gn) GroupConsumer.GroupConsumer := {|
  inside := GroupConsumer.inner; who c := Some (GroupConsumer.commit_identity c) |}.
Proof. all: done. Defined.

Context (cn : ClassicMembership.ClassicNet W).
Abbreviation net := (GroupConsumer.net (ClassicMembership.base cn)).

#[global] Instance classic_commits : Commits net ClassicConsumer.ClassicConsumer := {|
  positions_of := ClassicMember.positions; metadata_of := ClassicMember.group_metadata;
  commit_of := ClassicConsumer.commit cn |}.
#[global, refine] Instance classic_laws : CommitsLaws net ClassicConsumer.ClassicConsumer := {|
  inside := ClassicConsumer.c_inner; who c := Some (ClassicConsumer.commit_identity c) |}.
Proof. all: done. Defined.

#[global] Instance negotiated_commits : Commits net NegotiatedConsumer.NegotiatedConsumer := {|
  positions_of := Negotiated.positions; metadata_of := Negotiated.group_metadata;
  commit_of := NegotiatedConsumer.commit cn |}.
#[global, refine] Instance negotiated_laws : CommitsLaws net NegotiatedConsumer.NegotiatedConsumer := {|
  inside c := match c with
              | NegotiatedConsumer.Group c => inside (net := net) c
              | NegotiatedConsumer.AsClassic c => inside (net := net) c
              end;
  who c := match c with
           | NegotiatedConsumer.Group c => who (net := net) c
           | NegotiatedConsumer.AsClassic c => who (net := net) c
           end |}.
Proof. all: by intros; case_match. Defined.

End instances.

(** ** What is committed in a transaction *)

Module ExactlyOnceFacts.
Import ErrorCode Idempotence Offsets Transactions.

(** The partitions of a transactional commit, with the offset each carries. *)
Definition txn_entries (request : TxnOffsetCommitRequest) : list ((string * Z) * Z) :=
  flat_map (fun '(topic, l) => map (fun '(partition, offset) => ((topic, partition), offset)) l)
    (tc_topics request).

(** The same commit: the same membership of the same group, and the same offsets. *)
Definition same_commit (theirs : TxnOffsetCommitRequest) (own : OffsetCommitRequest) : Prop :=
  tc_group_id theirs = oc_group_id own /\ tc_generation_id theirs = oc_epoch own
  /\ tc_member_id theirs = oc_member_id own /\ tc_group_instance_id theirs = oc_group_instance_id own
  /\ txn_entries theirs ≡ₚ ConsumerProperties.commit_entries own.

Section facts.
Context `{KafkaProtocol}.

Lemma txn_entries_offsets t identity group offsets :
  txn_entries (offset_commit_request t identity group offsets) ≡ₚ offsets.
Proof.
  unfold txn_entries, offset_commit_request. cbn [tc_topics]. set (by_topic := foldl _ _ _).
  assert (E : flat_map (fun '(topic, l) => map (fun '(partition, offset) => ((topic, partition), offset)) l)
                (map_to_list by_topic)
            = map (fun x => ((x.1, x.2.1), x.2.2)) (flat by_topic)).
  { unfold flat. induction (map_to_list by_topic) as [|[topic l] m IH]; [done|].
    cbn [flat_map]. rewrite map_app, map_map, IH. f_equal. apply map_ext. by intros []. }
  rewrite E. unfold by_topic.
  rewrite (flat_foldl _ (fun x => x.1.1) (fun x => (x.1.2, x.2))) by (intros m [[t' p] o]; done).
  rewrite flat_empty. cbn [app]. rewrite map_map. apply Permutation_refl'.
  etrans; [|apply map_id]. apply map_ext. by intros [[t' p] o].
Qed.

(** An answer of the loop that is let through carries no error. *)
Lemma call_coordinator_Ok {R} fuel policy started t (env : CallEnv R) code_of t' response :
  call_coordinator fuel policy started t env code_of = Some (t', Ok response) ->
  t' = t /\ from_code (code_of response) = None /\ exists i, answers R env i = Ok response.
Proof.
  unfold call_coordinator. destruct (round_trip _ _ _ _ _) as [answer|] eqn:Hrt; [|done].
  apply TransactionsFacts.round_trip_answer in Hrt as (i & _ & Hi & _). cbn. unfold settle_call.
  destruct answer as [r|e]; [|done]. destruct (from_code (code_of r)) eqn:Hc; [done|].
  intros [= <- <-]. eauto.
Qed.

Lemma commit_settle_Ok t response t' :
  commit_settle t response = (t', Ok tt) ->
  t' = t /\ Forall (fun '(_, ps) => Forall (fun '(_, code) => from_code code = None) ps) (tc_results response).
Proof.
  unfold commit_settle. destruct (first_refusal _ _) eqn:E; [done|]. intros [= <-].
  split; [done|]. by apply TransactionsFacts.first_refusal_None in E.
Qed.

(** Offsets that were sent: both coordinators let them through, under one identity. *)
Lemma send_offsets_Ok c t co gr group offsets t' :
  send_offsets c t co gr group offsets = Some (t', Ok tt) ->
  t' = t /\ exists identity, send_offsets_check t = Ok identity
    /\ (exists i code, answers Z (co (add_offsets_request t identity group)) i = Ok code /\ from_code code = None)
    /\ (exists i response,
          answers _ (gr (offset_commit_request t identity group offsets)) i = Ok response
          /\ Forall (fun '(_, ps) => Forall (fun '(_, code) => from_code code = None) ps) (tc_results response)).
Proof.
  unfold send_offsets. destruct (send_offsets_check t) as [identity|] eqn:Hc; [|done].
  destruct (call_coordinator _ _ _ _ _ _) as [[t1 [code|]]|] eqn:H1; [|done|done].
  apply call_coordinator_Ok in H1 as (-> & H1 & i & Hi). intros H2.
  apply TransactionsFacts.call_inv in H2 as [(e & He & _)|(response & _ & Hs & j & Hj)]; [done|].
  apply commit_settle_Ok in Hs as [-> Hs]. split; [done|]. exists identity. eauto 10.
Qed.

(** The request that ends a transaction goes out under the identity its offsets went out under. *)
Lemma check_ends t identity commit :
  send_offsets_check t = Ok identity ->
  is_open t = true
  /\ end_request t commit = Ok {| end_transactional_id := transactional_id t;
       end_producer_id := producer_id identity; end_producer_epoch := producer_epoch identity;
       committed := commit |}.
Proof.
  unfold send_offsets_check, end_request, is_open. destruct (lock t) as [s|]; [|done]. cbn.
  destruct (check_live s) as [[]|]; [|done]. destruct (open s); [|done]. cbn.
  by intros ->.
Qed.

(** *** The offsets of a consumer *)

Context {W} (net : Consumer.Net W) {C} `{!Commits net C, !CommitsLaws net C}.

Lemma own_commit (c : C) g :
  metadata_of c = Ok g -> positions_of c <> [] ->
  exists own, (forall w, commit_of net w c
      = (let '(w, answer) := Consumer.ask_commit net w (GroupMetadata.group_id g) own in
         (w, let? response := answer in Ok (read_commit response))))
    /\ forall t identity, same_commit (offset_commit_request t identity (carried g) (positions_of c)) own.
Proof.
  rewrite inside_metadata, inside_positions. unfold Consumer.group.
  destruct (Consumer.group_id (Consumer.config (inside c))) as [group|] eqn:Eg; [|done].
  cbn. intros [= <-] Hne.
  assert (Ha : Consumer.assignment (inside c) <> ∅)
    by (intros E; apply Hne; unfold Consumer.positions; by rewrite E, map_to_list_empty).
  set (offsets := (fun a => {| co_offset := Consumer.position_ a; co_metadata := None |})
                    <$> Consumer.assignment (inside c)).
  exists (commit_request group (who c) offsets). split.
  - intros w. rewrite inside_commit. unfold Consumer.commit_as, Consumer.group, Consumer.commit_offsets.
    rewrite Eg. cbn [ok_or]. fold offsets.
    by rewrite decide_False by (unfold offsets; by rewrite fmap_empty_iff).
  - intros t identity. split_and!; try by destruct (who c).
    rewrite txn_entries_offsets, ConsumerProperties.commit_request_entries. unfold offsets, Consumer.positions.
    rewrite map_to_list_fmap. apply Permutation_refl'. symmetry. etrans; [apply map_map|].
    apply map_ext. by intros [k a].
Qed.

End facts.

End ExactlyOnceFacts.

(** ** Properties *)

Module ExactlyOnceProperties.
Import ErrorCode Idempotence Offsets Transactions ExactlyOnceFacts.

(** C4: Offsets that were sent into a transaction are the consumer's own commit.  Whatever kind of
    consumer it is, when its positions and identity were accepted, the group's coordinator let
    through, without an error for any partition, exactly one commit: the one the consumer would make
    itself, under the same group, member, generation and instance, of the same offsets.  The group
    was added to the transaction before, and that transaction, still open, is the one that the next
    end commits or aborts, under the same producer id and epoch. *)
Theorem offsets_travel_with_the_transaction `{KafkaProtocol} {W} (net : Consumer.Net W) {C} `{!Commits net C}
    `{!CommitsLaws net C} {V} `{!ProducerWorld V} (c : C) (p p' : Producer.Producer V) g :
  metadata_of c = Ok g -> positions_of c <> [] ->
  Producer.send_offsets_to_transaction (positions_of c) (carried g) p = Some (Ok tt, p') ->
  exists t identity own,
    Producer.transactions p = Some t /\ Producer.transactions p' = Some t /\ Producer.in_transaction p' = true
    /\ (forall w, commit_of net w c
        = (let '(w, answer) := Consumer.ask_commit net w (GroupMetadata.group_id g) own in
           (w, let? response := answer in Ok (read_commit response))))
    /\ (let asked := (coordinators (Producer.world p)).1 in
        let request := offset_commit_request t identity (carried g) (positions_of c) in
        same_commit request own
        /\ (exists i code,
              answers Z (on_add_offsets asked (add_offsets_request t identity (carried g))) i = Ok code
              /\ from_code code = None)
        /\ (exists i response,
              answers _ (on_commit_offsets asked request) i = Ok response
              /\ Forall (fun '(_, ps) => Forall (fun '(_, code) => from_code code = None) ps) (tc_results response)))
    /\ forall commit, end_request t commit
         = Ok {| end_transactional_id := transactional_id t; end_producer_id := producer_id identity;
                 end_producer_epoch := producer_epoch identity; committed := commit |}.
Proof.
  intros Hg Hne. unfold Producer.send_offsets_to_transaction, Producer.transactional.
  rewrite bool_decide_eq_false_2 by done. destruct (Producer.transactions p) as [t|] eqn:Et; [|done].
  destruct (coordinators (Producer.world p)) as [asked v] eqn:Ec.
  destruct (send_offsets _ _ _ _ _ _) as [[t1 r]|] eqn:Hs; [|done]. intros [= -> <-].
  apply send_offsets_Ok in Hs as (-> & identity & Hc & Hadd & Hcommit).
  destruct (own_commit net c g Hg Hne) as (own & Hown & Hsame).
  exists t, identity, own. cbn [fst].
  split_and!; [done|done|by eapply (check_ends t identity true)|done|apply Hsame|done|done|].
  intros commit. by eapply check_ends.
Qed.

(** *** A group consumer of two partitions, and the producer of its results *)

#[local] Instance demo_protocol : KafkaProtocol := {| try_from_code _ := None; is_retriable _ := true |}.

Definition demo_group : GroupConsumer.GroupNet (nat * unit) := {|
  GroupConsumer.net := ConsumerDemo.demo_net;
  GroupConsumer.ask_heartbeat w _ _ := (w, Err (Error.ConnectionClosed "broker:9092"));
  GroupConsumer.now w := (w, 0); GroupConsumer.draw_id w := (w, "billing-1"%string);
  GroupConsumer.on_revoke w _ := w; GroupConsumer.on_assign w _ := w |}.
Definition demo_position (offset : Z) : Consumer.Assigned := Consumer.fresh_assigned offset.
Definition demo_consumer : Consumer.Consumer :=
  Consumer.with_assignment (Consumer.new (Consumer.with_group_id Consumer.new_config "billing"))
    (<[("orders"%string, 0) := demo_position 42]> {[("orders"%string, 1) := demo_position 7]}).

(** The coordinators let everything through. *)
Definition demo_answer {R} (r : R) : CallEnv R := {| answers _ := Ok r; clock _ := 0; jitter _ := 0%Q |}.
#[local] Instance demo_world : ProducerWorld unit := {|
  snapshot _ := Metadata.new 0 [] [] None None;
  refresh_topics _ w := (Ok (Metadata.new 0 [] [] None None), w);
  random_range _ w := (0, w);
  append_record _ _ _ w := (Ok 1, w);
  flush_buffer w := (Ok tt, w);
  received _ w := (None, w);
  coordinators w := ({| tx_call := {| fuel := 1; policy := Retry.default_policy; started := 0 |};
      on_init _ := demo_answer {| resp_error_code := 0; resp_producer_id := 7; resp_producer_epoch := 0 |};
      on_add_offsets _ := demo_answer 0;
      on_commit_offsets r := demo_answer {| tc_results := map (fun '(t, l) => (t, map (fun x => (x.1, 0)) l)) (tc_topics r) |};
      on_end _ := demo_answer {| end_error_code := 0; next_producer_id := -1; next_producer_epoch := -1 |} |}, w) |}.

Definition demo_producer : Producer.Producer unit :=
  Producer.with_transactions {| transactional_id := "tx"; poisoned := false;
      state := {| identity_ := Some {| producer_id := 7; producer_epoch := 2 |}; open := true;
                  enrolled := ∅; fenced := false |} |}
    (Producer.new tt Encode.ProducerConfig.new).
Definition demo_member : GroupConsumer.GroupConsumer := {|
  GroupConsumer.inner := demo_consumer;
  GroupConsumer.membership :=
    Membership.with_identity (Membership.new "billing" ["orders"%string] None 300000 "billing-1") "billing-1" 4 5000;
  GroupConsumer.ever_joined := true; GroupConsumer.auto_commit := false; GroupConsumer.listener := false;
  GroupConsumer.pending := None |}.
Definition demo_metadata : GroupMetadata.ConsumerGroupMetadata := {|
  GroupMetadata.group_id := "billing"; GroupMetadata.member_id := "billing-1";
  GroupMetadata.generation := 4; GroupMetadata.instance_id := None |}.

Lemma offsets_travel_with_the_transaction_witness :
  exists t identity own,
    Producer.transactions demo_producer = Some t
    /\ (forall w, GroupConsumer.commit demo_group w demo_member
        = (let '(w, answer) := Consumer.ask_commit (GroupConsumer.net demo_group) w "billing" own in
           (w, let? response := answer in Ok (read_commit response))))
    /\ same_commit (offset_commit_request t identity (carried demo_metadata) (Member.positions demo_member)) own
    /\ map fst (txn_entries (offset_commit_request t identity (carried demo_metadata) (Member.positions demo_member)))
       = [("orders"%string, 0); ("orders"%string, 1)].
Proof.
  destruct (Producer.send_offsets_to_transaction (Member.positions demo_member) (carried demo_metadata) demo_producer)
    as [[[[]|e] p']|] eqn:E; [|vm_compute in E; discriminate|vm_compute in E; discriminate].
  destruct (offsets_travel_with_the_transaction (GroupConsumer.net demo_group) demo_member demo_producer p' demo_metadata)
    as (t & identity & own & Ht & _ & _ & Hown & (Hsame & _) & _); [reflexivity|vm_compute; discriminate|exact E|].
  exists t, identity, own. split; [exact Ht|]. split; [exact Hown|]. split; [exact Hsame|].
  vm_compute. reflexivity.
Defined.

End ExactlyOnceProperties.
