(* ===== verification/PoolSteps.v ===== *)
(** The broker connection pool under concurrent callers ([crates/kafka-meta/src/pool.rs]).

    [Cluster] has the pool's calls as functions, one at a time.  Here the same calls are taken apart
    at their awaits, over what they share: the map of slots, each slot behind a lock of its own, and
    the addresses.  A slot is a number ([Arc<Slot>]); a task that holds the number keeps the slot
    when the map forgets it.  The map of slots and the addresses are behind locks that no task holds
    across an await, so each access to them is one step. *)

From S2P Require Import Prelude Sanitize Text ErrorCodes Retry Cluster.
From Stdlib Require Import QArith.
Open Scope Z_scope.

Module PoolSteps.
Import Error Pool.

(** A connection that was opened: through which slot, to which address and as which broker. *)
Record Opened : Type := { via : nat; peer : text; node : option Z; live : bool }.

(** A slot: its state, the task that has its lock, and the endpoint it was made for. *)
Record Slot : Type := { made_for : Endpoint; state : SlotState nat; holder : option nat }.

(** One thing to connect to. *)
Record Candidate : Type := { endpoint : Endpoint; address : text }.

Definition node_of (e : Endpoint) : option Z := match e with Node id => Some id | Bootstrap _ => None end.

(** A call of the pool: what it was to connect to, what is left of that, and the last error of a
    known broker and of a bootstrap address. *)
Record Call : Type := {
  asked : list Candidate;
  left_ : list Candidate;
  known_error : option Error;
  bootstrap_error : option Error;
}.

(** Where a task is: about to look its slot up, waiting for the slot's lock, connecting under the
    lock, or back; between the two locks of [learn_addresses]; or closing connections. *)
Inductive Task : Type :=
  | Looking (c : Candidate) (call : Call)
  | Waiting (slot : nat) (c : Candidate) (call : Call)
  | Dialling (slot : nat) (c : Candidate) (call : Call)
  | Returned (call : Call) (outcome : result nat Error)
  | Learning (fresh : gmap Z text)
  | Closing (slots : list nat).

(** What happened to the slots: a connection attempt began, or failed, with the pause it set. *)
Inductive Happened : Type :=
  | Began (slot : nat) (at_ : Z)
  | Failed (slot : nat) (at_ delay : Z).

Record State : Type := {
  clock : Z;
  slots : gmap Endpoint nat;
  arena : list Slot;
  addresses : gmap Z text;
  opened : list Opened;
  tasks : gmap nat Task;
  history : list Happened;
}.

Definition start : State := {|
  clock := 0; slots := ∅; arena := []; addresses := ∅; opened := []; tasks := ∅; history := [] |}.

Definition set_task (t : nat) (task : Task) (s : State) : State := {|
  clock := clock s; slots := slots s; arena := arena s; addresses := addresses s; opened := opened s;
  tasks := <[t := task]> (tasks s); history := history s |}.
Definition set_arena (i : nat) (slot : Slot) (s : State) : State := {|
  clock := clock s; slots := slots s; arena := <[i := slot]> (arena s); addresses := addresses s;
  opened := opened s; tasks := tasks s; history := history s |}.
Definition set_opened (l : list Opened) (s : State) : State := {|
  clock := clock s; slots := slots s; arena := arena s; addresses := addresses s; opened := l;
  tasks := tasks s; history := history s |}.
Definition happened (h : Happened) (s : State) : State := {|
  clock := clock s; slots := slots s; arena := arena s; addresses := addresses s; opened := opened s;
  tasks := tasks s; history := history s ++ [h] |}.

Definition is_live (s : State) (k : nat) : bool :=
  match opened s !! k with Some o => live o | None => false end.

(** [Connection::close], or its end for any other reason. *)
Definition shut (k : nat) (s : State) : State :=
  set_opened (alter (fun o => {| via := via o; peer := peer o; node := node o; live := false |}) k (opened s)) s.

(** *** What a call does next *)

Definition no_bootstrap : Error := InvalidRequest "no bootstrap addresses were configured".

(** The next candidate, or the error of the call: a known broker's before a bootstrap address's. *)
Definition advance (call : Call) : Task :=
  match left_ call with
  | c :: l => Looking c {| asked := asked call; left_ := l; known_error := known_error call;
                           bootstrap_error := bootstrap_error call |}
  | [] => Returned call (Err (default (default no_bootstrap (bootstrap_error call)) (known_error call)))
  end.

(** A candidate failed. *)
Definition failed (c : Candidate) (error : Error) (call : Call) : Task :=
  advance
    match endpoint c with
    | Node _ => {| asked := asked call; left_ := left_ call; known_error := Some error;
                   bootstrap_error := bootstrap_error call |}
    | Bootstrap _ => {| asked := asked call; left_ := left_ call; known_error := known_error call;
                        bootstrap_error := Some error |}
    end.

Definition calling (l : list Candidate) : Task :=
  advance {| asked := l; left_ := l; known_error := None; bootstrap_error := None |}.

Definition known (l : list (Z * text)) : list Candidate :=
  map (fun '(id, a) => {| endpoint := Node id; address := a |}) l.
Definition bootstraps (l : list text) : list Candidate :=
  map (fun a => {| endpoint := Bootstrap a; address := a |}) l.

Section pool.
Context `{KafkaProtocol} (retry : Retry.RetryPolicy) (bootstrap : list text).

(** *** The calls *)

(** [get]: the address is read, and nothing is known of the slot yet. *)
Definition get (s : State) (id : Z) : Task :=
  match addresses s !! id with
  | Some a => calling (known [(id, a)])
  | None =>
      Returned {| asked := []; left_ := []; known_error := None; bootstrap_error := None |}
        (Err (from_code ErrorCode.LeaderNotAvailable
               (Some (text_of_string ("no known address for broker " +:+ pretty id
                        +:+ "; the metadata naming it is stale")))))
  end.

(** [any], in some order of the addresses, and [bootstrap_connection]. *)
Definition any (order : list (Z * text)) : Task := calling (known order ++ bootstraps bootstrap).
Definition bootstrap_connection : Task := calling (bootstraps bootstrap).

(** [slot_or_create]. *)
Definition look_up (t : nat) (c : Candidate) (call : Call) (s : State) : State :=
  match slots s !! endpoint c with
  | Some i => set_task t (Waiting i c call) s
  | None =>
      let i := length (arena s) in
      set_task t (Waiting i c call) {|
        clock := clock s; slots := <[endpoint c := i]> (slots s);
        arena := arena s ++ [{| made_for := endpoint c; state := default_slot; holder := None |}];
        addresses := addresses s; opened := opened s; tasks := tasks s; history := history s |}
  end.

(** A slot with no live connection: an error within its backoff, or the lock kept to connect. *)
Definition locked_dead (t i : nat) (slot : Slot) (c : Candidate) (call : Call) (s : State) : State :=
  let cleared := {| connection := None; consecutive_failures := consecutive_failures (state slot);
                    next_attempt := next_attempt (state slot) |} in
  if match next_attempt (state slot) with Some next => clock s <? next | None => false end then
    set_task t (failed c (ConnectionClosed (Str.string_of_text (address c))) call)
      (set_arena i {| made_for := made_for slot; state := cleared; holder := None |} s)
  else
    happened (Began i (clock s))
      (set_task t (Dialling i c call)
         (set_arena i {| made_for := made_for slot; state := cleared; holder := Some t |} s)).

(** What [connect] does when it gets the lock, up to its next await. *)
Definition locked (t i : nat) (slot : Slot) (c : Candidate) (call : Call) (s : State) : State :=
  match connection (state slot) with
  | Some k => if is_live s k then set_task t (Returned call (Ok k)) s else locked_dead t i slot c call s
  | None => locked_dead t i slot c call s
  end.

(** [Connection::connect_as] is back, with a connection or an error; [sample] is the jitter drawn.
    The lock goes with the end of [connect]. *)
Definition connected (t i : nat) (slot : Slot) (c : Candidate) (call : Call) (error : option Error) (sample : Q)
    (s : State) : State :=
  match error with
  | None =>
      let k := length (opened s) in
      set_task t (Returned call (Ok k))
        (set_arena i {| made_for := made_for slot;
                        state := {| connection := Some k; consecutive_failures := 0; next_attempt := None |};
                        holder := None |}
          (set_opened (opened s ++ [{| via := i; peer := address c; node := node_of (endpoint c); live := true |}]) s))
  | Some error =>
      let failures := u32_saturating_add (consecutive_failures (state slot)) 1 in
      let delay := Retry.delay retry sample (u32_saturating_add failures 1) in
      happened (Failed i (clock s) delay)
        (set_task t (failed c error call)
          (set_arena i {| made_for := made_for slot;
                          state := {| connection := None; consecutive_failures := failures;
                                      next_attempt := Some (clock s + delay) |};
                          holder := None |} s))
  end.

(** A future that is dropped lets go of what it holds, and changes nothing else. *)
Definition dropped (t : nat) (s : State) : State :=
  let s' := match tasks s !! t with
            | Some (Dialling i _ _) =>
                match arena s !! i with
                | Some slot => set_arena i {| made_for := made_for slot; state := state slot; holder := None |} s
                | None => s
                end
            | _ => s
            end in
  {| clock := clock s'; slots := slots s'; arena := arena s'; addresses := addresses s'; opened := opened s';
     tasks := delete t (tasks s'); history := history s' |}.

(** *** Learning addresses, closing connections *)

Definition stays (fresh : gmap Z text) (e : Endpoint) : bool :=
  match e with Node id => bool_decide (is_Some (fresh !! id)) | Bootstrap _ => true end.

(** [learn_addresses] takes the lock of the slots, lets go of it, and takes that of the addresses. *)
Definition forget (t : nat) (fresh : gmap Z text) (s : State) : State :=
  set_task t (Learning fresh) {|
    clock := clock s; slots := filter (fun entry => stays fresh entry.1 = true) (slots s); arena := arena s;
    addresses := addresses s; opened := opened s; tasks := tasks s; history := history s |}.
Definition learnt (t : nat) (fresh : gmap Z text) (s : State) : State := {|
  clock := clock s; slots := slots s; arena := arena s; addresses := fresh; opened := opened s;
  tasks := delete t (tasks s); history := history s |}.

(** [evict], and [close] over the slots that the map has, in some order. *)
Definition evict (id : Z) (s : State) : Task :=
  Closing (match slots s !! Node id with Some i => [i] | None => [] end).
Definition close (s : State) : Task := Closing (map snd (map_to_list (slots s))).

(** Under the lock of the first slot, its connection is taken and closed. *)
Definition close_first (t i : nat) (slot : Slot) (l : list nat) (s : State) : State :=
  match connection (state slot) with
  | Some k =>
      set_task t (Closing l)
        (shut k (set_arena i {| made_for := made_for slot;
                                state := {| connection := None;
                                            consecutive_failures := consecutive_failures (state slot);
                                            next_attempt := next_attempt (state slot) |};
                                holder := holder slot |} s))
  | None => set_task t (Closing l) s
  end.

(** ** Steps

    A step of a task, named by what it does.  The lock of a slot goes to any of those that wait. *)

Inductive Event : Type :=
  | LookUp (t : nat)
  | Lock (t : nat)
  | Connected (t : nat) (error : option Error) (sample : Q)
  | Learnt (t : nat).

Definition free (s : State) (i : nat) : option Slot :=
  match arena s !! i with
  | Some slot => match holder slot with None => Some slot | Some _ => None end
  | None => None
  end.

Definition exec (event : Event) (s : State) : option State :=
  match event with
  | LookUp t => match tasks s !! t with Some (Looking c call) => Some (look_up t c call s) | _ => None end
  | Lock t =>
      match tasks s !! t with
      | Some (Waiting i c call) => (fun slot => locked t i slot c call s) <$> free s i
      | Some (Closing (i :: l)) => (fun slot => close_first t i slot l s) <$> free s i
      | _ => None
      end
  | Connected t error sample =>
      match tasks s !! t with
      | Some (Dialling i c call) => (fun slot => connected t i slot c call error sample s) <$> arena s !! i
      | _ => None
      end
  | Learnt t => match tasks s !! t with Some (Learning fresh) => Some (learnt t fresh s) | _ => None end
  end.

(** A sample that the jitter can be, where one is drawn. *)
Definition fair_event (event : Event) : Prop :=
  match event with Connected _ _ sample => RetryFacts.drawn retry sample | _ => True end.

(** What the callers and the outside do: a call begins or is dropped, a connection ends, time passes. *)
Inductive outside : State -> State -> Prop :=
  | out_get s t id : tasks s !! t = None -> outside s (set_task t (get s id) s)
  | out_any s t order :
      tasks s !! t = None -> order ≡ₚ map_to_list (addresses s) -> outside s (set_task t (any order) s)
  | out_bootstrap s t : tasks s !! t = None -> outside s (set_task t bootstrap_connection s)
  | out_learn s t fresh : tasks s !! t = None -> fresh <> ∅ -> outside s (forget t fresh s)
  | out_evict s t id : tasks s !! t = None -> outside s (set_task t (evict id s) s)
  | out_close s t : tasks s !! t = None -> outside s (set_task t (close s) s)
  | out_drop s t : is_Some (tasks s !! t) -> outside s (dropped t s)
  | out_ends s k : outside s (shut k s)
  | out_tick s d : 0 <= d -> outside s {|
      clock := clock s + d; slots := slots s; arena := arena s; addresses := addresses s; opened := opened s;
      tasks := tasks s; history := history s |}.

Definition step (s s' : State) : Prop :=
  outside s s' \/ exists event, fair_event event /\ exec event s = Some s'.

Definition reachable (s : State) : Prop := rtc step start s.

End pool.

End PoolSteps.
