(* ===== verification/PoolStepsFacts.v ===== *)
(** Facts and properties of the pool under concurrent callers: its invariant, the pace of its
    connection attempts, and that its calls come back. *)

From S2P Require Import Prelude Sanitize Text ErrorCodes Retry Cluster PoolSteps.
From Stdlib Require Import QArith.
Open Scope Z_scope.

Module PoolStepsFacts.
Import Error Pool PoolSteps.

(** ** The invariant of slots, locks and connections *)

Definition call_ok (c : Candidate) (call : Call) : Prop := c ∈ asked call /\ left_ call ⊆ asked call.

Definition slot_for (s : State) (i : nat) (e : Endpoint) : Prop :=
  exists slot, arena s !! i = Some slot /\ made_for slot = e.

(** What a task may rely on: its slot is one of its endpoint, and what it returned was opened
    for something that it asked for. *)
Definition task_ok (s : State) (task : Task) : Prop :=
  match task with
  | Looking c call => call_ok c call
  | Waiting i c call => call_ok c call /\ slot_for s i (endpoint c)
  | Dialling i c call => call_ok c call /\ slot_for s i (endpoint c)
  | Returned call (Ok k) =>
      exists o c, opened s !! k = Some o /\ c ∈ asked call /\ slot_for s (via o) (endpoint c)
  | Returned _ (Err _) => True
  | Learning _ => True
  | Closing l => Forall (fun i => is_Some (arena s !! i)) l
  end.

Definition holds (s : State) (t i : nat) : Prop := exists c call, tasks s !! t = Some (Dialling i c call).

(** A slot: its lock is with the task that connects through it, which finds no connection, and
    what it keeps was opened through it. *)
Record slot_ok (s : State) (i : nat) (slot : Slot) : Prop := {
  so_holder t : holder slot = Some t <-> holds s t i;
  so_empty t : holder slot = Some t -> connection (state slot) = None;
  so_kept k : connection (state slot) = Some k -> exists o, opened s !! k = Some o /\ via o = i;
}.

(** A connection that was opened: as the broker of its slot, which keeps it as long as it lives. *)
Definition opened_ok (s : State) (k : nat) (o : Opened) : Prop :=
  exists slot, arena s !! via o = Some slot /\ node o = node_of (made_for slot)
    /\ (live o = true -> connection (state slot) = Some k).

Record Wf (s : State) : Prop := {
  wf_slots e i : slots s !! e = Some i -> slot_for s i e;
  wf_arena i slot : arena s !! i = Some slot -> slot_ok s i slot;
  wf_opened k o : opened s !! k = Some o -> opened_ok s k o;
  wf_tasks t task : tasks s !! t = Some task -> task_ok s task;
}.

(** *** What a step leaves of the rest

    A step is of one task [t], at one slot [i] (out of range if it is at none). *)
Record at_slot (t i : nat) (s s' : State) : Prop := {
  as_arena j : j <> i -> arena s' !! j = arena s !! j;
  as_made slot : arena s !! i = Some slot -> slot_for s' i (made_for slot);
  as_tasks u : u <> t -> tasks s' !! u = tasks s !! u;
  as_opened k o : opened s !! k = Some o ->
    exists o', opened s' !! k = Some o' /\ via o' = via o /\ node o' = node o /\ (live o' = true -> live o = true);
  as_held j : holds s t j -> j = i;
  as_free u slot : arena s !! i = Some slot -> holder slot = Some u -> u = t;
}.

Lemma slot_for_step t i s s' j e : at_slot t i s s' -> slot_for s j e -> slot_for s' j e.
Proof.
  intros Ha (slot & Hj & <-). destruct (decide (j = i)) as [->|Hne].
  - by apply (as_made _ _ _ _ Ha).
  - exists slot. by rewrite (as_arena _ _ _ _ Ha).
Qed.

Lemma task_ok_step t i s s' task : at_slot t i s s' -> task_ok s task -> task_ok s' task.
Proof.
  intros Ha. destruct task as [c call|j c call|j c call|call [k|e]|fresh|l]; cbn; try done.
  - intros [Hc Hs]. split; [done|]. by eapply slot_for_step.
  - intros [Hc Hs]. split; [done|]. by eapply slot_for_step.
  - intros (o & c & Ho & Hc & Hs). destruct (as_opened _ _ _ _ Ha k o Ho) as (o' & Ho' & Ev & _).
    exists o', c. rewrite Ev. split_and!; [done|done|]. by eapply slot_for_step.
  - intros Hl. apply (Forall_impl _ _ _ Hl). intros j [slot Hj].
    destruct (slot_for_step t i s s' j (made_for slot) Ha) as (slot' & -> & _); [by exists slot|done].
Qed.

Lemma holds_other t i s s' u j : at_slot t i s s' -> u <> t -> holds s' u j <-> holds s u j.
Proof. intros Ha Hu. unfold holds. by rewrite (as_tasks _ _ _ _ Ha u Hu). Qed.

(** Everything else is as it was: what is left to show is of the task, the slot, and what was
    opened through it. *)
Lemma wf_step t i s s' :
  Wf s -> at_slot t i s s' ->
  (forall e j, slots s' !! e = Some j -> slot_for s' j e) ->
  (forall slot, arena s' !! i = Some slot -> slot_ok s' i slot) ->
  (forall k o, opened s' !! k = Some o -> opened s !! k = None \/ via o = i -> opened_ok s' k o) ->
  (forall task, tasks s' !! t = Some task -> task_ok s' task) ->
  (forall j, holds s' t j -> j = i) ->
  Wf s'.
Proof.
  intros Hwf Ha Hslots Harena Hopened Htask Hheld. split; [done| | |].
  - intros j slot Hj. destruct (decide (j = i)) as [->|Hne]; [by apply Harena|].
    rewrite (as_arena _ _ _ _ Ha) in Hj by done. destruct (wf_arena s Hwf j slot Hj) as [Hh He Hk]. split.
    + intros u. destruct (decide (u = t)) as [->|Hu]; [|by rewrite (holds_other _ _ _ _ _ _ Ha Hu)].
      rewrite Hh. split; intros Hx; destruct Hne; [by apply (as_held _ _ _ _ Ha)|by apply Hheld].
    + done.
    + intros k (o & Ho & Ev)%Hk. destruct (as_opened _ _ _ _ Ha k o Ho) as (o' & Ho' & Ev' & _).
      exists o'. split; [done|congruence].
  - intros k o Ho. destruct (decide (via o = i)) as [Hv|Hv]; [apply Hopened; [done|by right]|].
    destruct (opened s !! k) as [o0|] eqn:E; [|apply Hopened; [done|by left]].
    destruct (as_opened _ _ _ _ Ha k o0 E) as (o' & Ho' & Ev & En & El). simplify_eq.
    destruct (wf_opened s Hwf k o0 E) as (slot & Hs & Hn & Hl). exists slot.
    rewrite Ev, (as_arena _ _ _ _ Ha) by congruence. split_and!; [done|congruence|]. intros Hlive. by apply Hl, El.
  - intros u task Hu. destruct (decide (u = t)) as [->|Hne]; [by apply Htask|].
    rewrite (as_tasks _ _ _ _ Ha) in Hu by done. eapply task_ok_step; [done|]. by eapply wf_tasks.
Qed.

(** *** The steps *)

Lemma lookup_past {A} (l : list A) : l !! length l = None.
Proof. apply lookup_ge_None. lia. Qed.

Lemma lookup_snoc {A} (l : list A) x : (l ++ [x]) !! length l = Some x.
Proof. by rewrite lookup_app_r, Nat.sub_diag by lia. Qed.

Lemma slot_for_lt s i e : slot_for s i e -> (i < length (arena s))%nat.
Proof. intros (slot & Hi & _). by eapply lookup_lt_Some. Qed.

Lemma via_lt s k o : Wf s -> opened s !! k = Some o -> (via o < length (arena s))%nat.
Proof. intros Hwf Ho. destruct (wf_opened s Hwf k o Ho) as (slot & Hs & _). by eapply lookup_lt_Some. Qed.

Definition not_dialling (task : Task) : Prop := match task with Dialling _ _ _ => False | _ => True end.

Lemma not_held s t task : tasks s !! t = Some task -> not_dialling task -> forall j, ~ holds s t j.
Proof. intros Ht Hn j (c & call & E). simplify_eq. exact Hn. Qed.

Lemma not_held_fresh s t : tasks s !! t = None -> forall j, ~ holds s t j.
Proof. intros Ht j (c & call & E). congruence. Qed.

(** A step that only moves its task, and lets connections end, maybe. *)
Lemma wf_moved t s s' :
  Wf s -> arena s' = arena s -> (forall j, ~ holds s t j) -> (forall j, ~ holds s' t j) ->
  (forall u, u <> t -> tasks s' !! u = tasks s !! u) ->
  (forall k, opened s' !! k = opened s !! k
     \/ exists o o', opened s !! k = Some o /\ opened s' !! k = Some o' /\ via o' = via o /\ node o' = node o
          /\ (live o' = true -> live o = true)) ->
  (forall e j, slots s' !! e = Some j -> slots s !! e = Some j) ->
  (forall task, tasks s' !! t = Some task -> task_ok s task) -> Wf s'.
Proof.
  intros Hwf Ea Hold Hnew Hu Ho Hs Ht.
  assert (Hat : at_slot t (length (arena s)) s s').
  { split; try (rewrite lookup_past; done); [by rewrite Ea|done| |by intros j ?%Hold].
    intros k o Hk. destruct (Ho k) as [E|(o0 & o' & E & E' & ?)]; [|simplify_eq; eauto].
    exists o. by rewrite E. }
  apply (wf_step t (length (arena s)) s s' Hwf Hat).
  - intros e j Hj. unfold slot_for. rewrite Ea. by apply (wf_slots s Hwf), Hs.
  - rewrite Ea, lookup_past. done.
  - intros k o Hk [Hn|Hv].
    + destruct (Ho k) as [E|(o0 & o' & E & _)]; congruence.
    + destruct (Ho k) as [E|(o0 & o' & E & E' & Ev & _)].
      * rewrite E in Hk. pose proof (via_lt s k o Hwf Hk). lia.
      * pose proof (via_lt s k o0 Hwf E). simplify_eq. lia.
  - intros task Hk. by eapply task_ok_step, Ht.
  - by intros j ?%Hnew.
Qed.

Lemma wf_set_task t task s :
  Wf s -> (forall j, ~ holds s t j) -> not_dialling task -> task_ok s task -> Wf (set_task t task s).
Proof.
  intros Hwf Hn Hd Hk. apply (wf_moved t s); try done; cbn.
  - intros j (c & call & E). cbn in E. rewrite lookup_insert_eq in E. by simplify_eq.
  - intros u Hu. by rewrite lookup_insert_ne.
  - by left.
  - intros task'. rewrite lookup_insert_eq. by intros [= <-].
Qed.

Lemma wf_shut k s : Wf s -> Wf (shut k s).
Proof.
  intros Hwf. apply (wf_moved (fresh (dom (tasks s))) s); try done; cbn.
  - apply not_held_fresh, not_elem_of_dom, is_fresh.
  - apply not_held_fresh. cbn. apply not_elem_of_dom, is_fresh.
  - intros j. destruct (decide (j = k)) as [->|Hne]; [|left; by rewrite list_lookup_alter_ne].
    rewrite list_lookup_alter_eq. destruct (opened s !! k) as [o|]; [right|by left]. by eexists _, _.
  - intros task Hk. by eapply wf_tasks.
Qed.

(** *** What a call does next *)

Lemma advance_ok s call : left_ call ⊆ asked call -> task_ok s (advance call) /\ not_dialling (advance call).
Proof.
  intros Hl. unfold advance. destruct (left_ call) as [|c l] eqn:E; [done|]. split; [|done].
  cbn. split; set_solver.
Qed.

Lemma failed_ok s c error call :
  left_ call ⊆ asked call -> task_ok s (failed c error call) /\ not_dialling (failed c error call).
Proof. intros Hl. unfold failed. destruct (endpoint c); by apply advance_ok. Qed.

Lemma calling_ok s l : task_ok s (calling l) /\ not_dialling (calling l).
Proof. by apply advance_ok. Qed.

Lemma look_up_wf t c call s : Wf s -> tasks s !! t = Some (Looking c call) -> Wf (look_up t c call s).
Proof.
  intros Hwf Ht. pose proof (wf_tasks s Hwf t _ Ht) as Hc. cbn in Hc.
  pose proof (not_held s t _ Ht I) as Hn. unfold look_up. destruct (slots s !! endpoint c) as [i|] eqn:E.
  - apply wf_set_task; [done|done|done|]. split; [done|]. by apply (wf_slots s Hwf).
  - apply (wf_step t (length (arena s)) s); [done| | | | | |]; cbn.
    + split; cbn; try (rewrite lookup_past; done); try (by intros j ?%Hn).
      * intros j Hj. destruct (decide (j < length (arena s))%nat); [by apply lookup_app_l|].
        rewrite (lookup_ge_None_2 (arena s)) by lia. apply lookup_ge_None. rewrite length_app. cbn. lia.
      * intros u Hu. by rewrite lookup_insert_ne.
      * eauto.
    + intros e j. destruct (decide (e = endpoint c)) as [->|He].
      * rewrite lookup_insert_eq. intros [= <-]. eexists. split; [apply lookup_snoc|done].
      * rewrite lookup_insert_ne by done. intros (slot & Hj & Hm)%(wf_slots s Hwf). exists slot. cbn.
        split; [|done]. apply lookup_app_l_Some. done.
    + intros slot. rewrite lookup_snoc. intros [= <-]. split; cbn; try done.
      intros u. split; [done|]. intros (c' & call' & Hu). cbn in Hu.
      destruct (decide (u = t)) as [->|Hne]; [rewrite lookup_insert_eq in Hu; done|].
      rewrite lookup_insert_ne in Hu by done. destruct (wf_tasks s Hwf u _ Hu) as [_ Hlt%slot_for_lt]. lia.
    + intros k o Hk [Hx|Hv]; [congruence|]. pose proof (via_lt s k o Hwf Hk). lia.
    + rewrite lookup_insert_eq. intros task [= <-]. cbn. split; [done|]. eexists. split; [apply lookup_snoc|done].
    + intros j (c' & call' & Hu). cbn in Hu. by rewrite lookup_insert_eq in Hu.
Qed.

(** *** A step under the lock of a slot *)

Lemma not_held_insert t task s : not_dialling task -> forall j, ~ holds (set_task t task s) t j.
Proof. intros Hn j (c & call & E). cbn in E. rewrite lookup_insert_eq in E. simplify_eq. exact Hn. Qed.

Lemma wf_slot t i slot slot' s s' :
  Wf s -> arena s !! i = Some slot -> arena s' = <[i := slot']> (arena s) -> slots s' = slots s ->
  made_for slot' = made_for slot ->
  (forall u, u <> t -> tasks s' !! u = tasks s !! u) ->
  (forall u, holder slot = Some u -> u = t) -> (forall u, holder slot' = Some u -> u = t) ->
  (forall j, holds s t j -> j = i) -> (forall j, holds s' t j -> j = i) ->
  (holder slot' = Some t <-> holds s' t i) -> (holder slot' = Some t -> connection (state slot') = None) ->
  (forall k o, opened s !! k = Some o ->
     exists o', opened s' !! k = Some o' /\ via o' = via o /\ node o' = node o /\ (live o' = true -> live o = true)) ->
  (forall k o', opened s' !! k = Some o' -> opened s !! k = None -> via o' = i /\ node o' = node_of (made_for slot)) ->
  (forall k o', opened s' !! k = Some o' -> via o' = i -> live o' = true -> connection (state slot') = Some k) ->
  (forall k, connection (state slot') = Some k -> exists o, opened s' !! k = Some o /\ via o = i) ->
  (forall task, tasks s' !! t = Some task -> task_ok s' task) -> Wf s'.
Proof.
  intros Hwf Hi Ea Es Hm Hu Hfree Hmine Hold Hnew Hh He Ho Hfresh Hlive Hkept Ht.
  pose proof (lookup_lt_Some _ _ _ Hi) as Hlt.
  assert (Hi' : arena s' !! i = Some slot') by (by rewrite Ea, list_lookup_insert_eq).
  assert (Hat : at_slot t i s s').
  { split; try done; [| |by intros u slot0; rewrite Hi; intros [= <-]; apply Hfree].
    - intros j Hj. by rewrite Ea, list_lookup_insert_ne.
    - intros slot0. rewrite Hi. intros [= <-]. by exists slot'. }
  apply (wf_step t i s s' Hwf Hat); [| | |done|done].
  - intros e j. rewrite Es. intros Hj. eapply slot_for_step; [done|]. by apply (wf_slots s Hwf).
  - rewrite Hi'. intros slot0 [= <-]. split; [|intros u Hx; pose proof (Hmine u Hx) as ->; by apply He|done].
    intros u. destruct (decide (u = t)) as [->|Hne]; [done|]. split; [by intros ?%Hmine|].
    rewrite (holds_other _ _ _ _ _ _ Hat Hne). intros Hx. destruct Hne. apply Hfree.
    by apply (so_holder _ _ _ (wf_arena s Hwf i slot Hi)).
  - intros k o Hk Hcase. destruct (opened s !! k) as [o0|] eqn:E.
    + destruct Hcase as [|Hv]; [done|]. destruct (Ho k o0 E) as (o' & Hk' & Ev & En & _). simplify_eq.
      destruct (wf_opened s Hwf k o0 E) as (slot0 & Hs & Hn & _). exists slot'. rewrite Ev in *.
      split_and!; [done|congruence|]. apply Hlive; [done|by rewrite Ev].
    + destruct (Hfresh k o Hk E) as [Ev En]. exists slot'. rewrite Ev. split_and!; [done|congruence|].
      intros Hl. by apply (Hlive k o).
Qed.

(** The slot of a task that connects: it has the lock. *)
Lemma held_slot s t i c call : Wf s -> tasks s !! t = Some (Dialling i c call) ->
  exists slot, arena s !! i = Some slot /\ made_for slot = endpoint c /\ call_ok c call
    /\ holder slot = Some t /\ connection (state slot) = None.
Proof.
  intros Hwf Ht. destruct (wf_tasks s Hwf t _ Ht) as [Hc (slot & Hi & Hm)]. exists slot.
  destruct (wf_arena s Hwf i slot Hi) as [Hh He _].
  assert (holder slot = Some t) as Hx by (apply Hh; by exists c, call).
  split_and!; [done|done|done|done|by apply (He t)].
Qed.

(** No live connection was opened through a slot that keeps none. *)
Lemma kept_live s i slot k o :
  Wf s -> arena s !! i = Some slot -> opened s !! k = Some o -> via o = i -> live o = true ->
  connection (state slot) = Some k.
Proof.
  intros Hwf Hi Ho <- Hl. destruct (wf_opened s Hwf k o Ho) as (slot' & Hi' & _ & Hc). simplify_eq. by apply Hc.
Qed.

Lemma is_live_spec s k : is_live s k = true <-> exists o, opened s !! k = Some o /\ live o = true.
Proof. unfold is_live. destruct (opened s !! k); naive_solver. Qed.

(** A connection that lived is not there if the one the slot keeps is dead. *)
Lemma none_lives s i slot :
  Wf s -> arena s !! i = Some slot ->
  match connection (state slot) with Some k => is_live s k = false | None => True end ->
  forall k o, opened s !! k = Some o -> via o = i -> live o = false.
Proof.
  intros Hwf Hi Hd k o Ho Hv. destruct (live o) eqn:El; [|done].
  rewrite (kept_live s i slot k o Hwf Hi Ho Hv El) in Hd. unfold is_live in Hd. rewrite Ho in Hd. congruence.
Qed.

Lemma locked_dead_wf t i slot c call s :
  Wf s -> tasks s !! t = Some (Waiting i c call) -> free s i = Some slot ->
  match connection (state slot) with Some k => is_live s k = false | None => True end ->
  Wf (locked_dead t i slot c call s).
Proof.
  intros Hwf Ht Hf Hd. destruct (wf_tasks s Hwf t _ Ht) as [[Hc Hl] Hs].
  pose proof (not_held s t _ Ht I) as Hn. unfold free in Hf. destruct (arena s !! i) as [slot0|] eqn:Hi; [|done].
  destruct (holder slot0) eqn:Hh; [done|]. simplify_eq.
  pose proof (none_lives s i slot Hwf Hi Hd) as Hdead. unfold locked_dead.
  match goal with |- Wf (if ?b then _ else _) => destruct b end.
  - eapply (wf_slot t i slot _ s); [done|done|reflexivity|..]; cbn; try done; try (by intros; simplify_eq).
    + intros u Hu. by rewrite lookup_insert_ne.
    + by intros j ?%Hn.
    + intros j ?%not_held_insert; [done|by apply failed_ok].
    + split; [done|]. intros ?%not_held_insert; [done|by apply failed_ok].
    + eauto.
    + intros k o Ho Hv Hlive. by rewrite (Hdead k o Ho Hv) in Hlive.
    + intros task. rewrite lookup_insert_eq. intros [= <-]. by apply failed_ok.
  - eapply (wf_slot t i slot _ s); [done|done|reflexivity|..]; cbn; try done; try (by intros; simplify_eq).
    + intros u Hu. by rewrite lookup_insert_ne.
    + by intros j ?%Hn.
    + intros j (c' & call' & E). cbn in E. rewrite lookup_insert_eq in E. by simplify_eq.
    + split; [|done]. intros _. exists c, call. cbn. by rewrite lookup_insert_eq.
    + eauto.
    + intros k o Ho Hv Hlive. by rewrite (Hdead k o Ho Hv) in Hlive.
    + intros task. rewrite lookup_insert_eq. intros [= <-]. cbn. split; [done|].
      destruct Hs as (slot0 & Hi0 & Hm). simplify_eq. eexists. cbn.
      split; [by apply list_lookup_insert_eq; eapply lookup_lt_Some|exact Hm].
Qed.

Lemma locked_wf t i slot c call s :
  Wf s -> tasks s !! t = Some (Waiting i c call) -> free s i = Some slot -> Wf (locked t i slot c call s).
Proof.
  intros Hwf Ht Hf. unfold locked. destruct (connection (state slot)) as [k|] eqn:Ek;
    [|apply locked_dead_wf; [done..|by rewrite Ek]].
  destruct (is_live s k) eqn:El; [|apply locked_dead_wf; [done..|by rewrite Ek]].
  destruct (wf_tasks s Hwf t _ Ht) as [[Hc _] Hs]. unfold free in Hf.
  destruct (arena s !! i) as [slot0|] eqn:Hi; [|done]. destruct (holder slot0); [done|]. simplify_eq.
  destruct (so_kept _ _ _ (wf_arena s Hwf i slot Hi) k Ek) as (o & Ho & Hv).
  apply wf_set_task; [done|by eapply not_held|done|]. exists o, c. by rewrite Hv.
Qed.

Section retry.
Context (retry : Retry.RetryPolicy).

Lemma connected_wf t i slot c call error sample s :
  Wf s -> tasks s !! t = Some (Dialling i c call) -> arena s !! i = Some slot ->
  Wf (connected retry t i slot c call error sample s).
Proof.
  intros Hwf Ht Hi. destruct (held_slot s t i c call Hwf Ht) as (slot0 & Hi0 & Hm & [Hc Hl] & Hh & He).
  simplify_eq. pose proof (none_lives s i slot Hwf Hi) as Hdead. rewrite He in Hdead. specialize (Hdead I).
  assert (Hold : forall j, holds s t j -> j = i) by (intros j (? & ? & ?); by simplify_eq).
  unfold connected. destruct error as [error|].
  - eapply (wf_slot t i slot _ s); [done|done|reflexivity|..]; cbn; try done; try (by intros; simplify_eq).
    + intros u Hu. by rewrite lookup_insert_ne.
    + intros j ?%not_held_insert; [done|by apply failed_ok].
    + split; [done|]. intros ?%not_held_insert; [done|by apply failed_ok].
    + eauto.
    + intros k o Ho Hv Hlive. by rewrite (Hdead k o Ho Hv) in Hlive.
    + intros task. rewrite lookup_insert_eq. intros [= <-]. by apply failed_ok.
  - eapply (wf_slot t i slot _ s); [done|done|reflexivity|..]; cbn; try done; try (by intros; simplify_eq).
    + intros u Hu. by rewrite lookup_insert_ne.
    + by intros j ?%not_held_insert.
    + split; [done|]. by intros ?%not_held_insert.
    + intros k o Ho. exists o. split; [by apply lookup_app_l_Some|done].
    + intros k o' [?|[Hk Ho]]%lookup_app_Some Hn; [congruence|].
      apply list_lookup_singleton_Some in Ho as [_ <-]. by rewrite Hm.
    + intros k o' [Ho|[Hk Ho]]%lookup_app_Some Hv Hlive; [by rewrite (Hdead k o' Ho Hv) in Hlive|].
      apply list_lookup_singleton_Some in Ho as [Hz _]. f_equal. lia.
    + intros k [= <-]. eexists. by split; [apply lookup_snoc|].
    + intros task. rewrite lookup_insert_eq. intros [= <-]. eexists _, c.
      split; [apply lookup_snoc|]. split; [done|]. eexists. cbn.
      split; [by apply list_lookup_insert_eq; eapply lookup_lt_Some|done].
Qed.

Lemma dropped_wf t s : Wf s -> Wf (dropped t s).
Proof.
  intros Hwf. unfold dropped. destruct (tasks s !! t) as [[c call|i c call|i c call|call r|fresh|l]|] eqn:Ht.
  3: { destruct (held_slot s t i c call Hwf Ht) as (slot & Hi & Hm & _ & Hh & He). rewrite Hi.
    pose proof (none_lives s i slot Hwf Hi) as Hdead. rewrite He in Hdead. specialize (Hdead I).
    eapply (wf_slot t i slot _ s); [done|done|reflexivity|..]; cbn; try done.
    + intros u Hu. by rewrite lookup_delete_ne.
    + intros u Hu. congruence.
    + intros j (? & ? & ?). by simplify_eq.
    + intros j (? & ? & E). cbn in E. by rewrite lookup_delete_eq in E.
    + split; [done|]. intros (? & ? & E). cbn in E. by rewrite lookup_delete_eq in E.
    + eauto.
    + intros k o Ho Hv. congruence.
    + intros k o Ho Hv Hlive. by rewrite (Hdead k o Ho Hv) in Hlive.
    + intros k E. congruence.
    + intros task. by rewrite lookup_delete_eq. }
  all: apply (wf_moved t s); try done; cbn;
    [ first [exact (not_held s t _ Ht I)|exact (not_held_fresh s t Ht)]
    | intros j (? & ? & E); cbn in E; by rewrite lookup_delete_eq in E
    | intros u Hu; by rewrite lookup_delete_ne
    | by left
    | intros task; by rewrite lookup_delete_eq ].
Qed.

Lemma close_first_wf t i slot l s :
  Wf s -> tasks s !! t = Some (Closing (i :: l)) -> free s i = Some slot -> Wf (close_first t i slot l s).
Proof.
  intros Hwf Ht Hf. pose proof (wf_tasks s Hwf t _ Ht) as [_ Hl]%Forall_cons.
  pose proof (not_held s t _ Ht I) as Hn. unfold free in Hf. destruct (arena s !! i) as [slot0|] eqn:Hi; [|done].
  destruct (holder slot0) eqn:Hh; [done|]. simplify_eq. unfold close_first.
  destruct (connection (state slot)) as [k|] eqn:Ek; [|by apply wf_set_task].
  assert (Hother : forall k' o, k' <> k -> opened s !! k' = Some o -> via o = i -> live o = false).
  { intros k' o Hk Ho Hv. destruct (live o) eqn:E; [|done]. pose proof (kept_live s i slot k' o Hwf Hi Ho Hv E). congruence. }
  eapply (wf_slot t i slot _ s); [done|done|reflexivity|..]; cbn; try done; try (by intros; simplify_eq).
  - intros u Hu. by rewrite lookup_insert_ne.
  - by intros j ?%Hn.
  - by intros j ?%not_held_insert.
  - rewrite Hh. split; [done|]. by intros ?%not_held_insert.
  - intros k' o Ho. destruct (decide (k' = k)) as [->|Hk].
    + rewrite list_lookup_alter_eq, Ho. by eexists.
    + rewrite list_lookup_alter_ne by done. eauto.
  - intros k' o' Ho Hnone. destruct (decide (k' = k)) as [->|Hk].
    + rewrite list_lookup_alter_eq, Hnone in Ho. done.
    + rewrite list_lookup_alter_ne in Ho by done. congruence.
  - intros k' o' Ho Hv Hlive. destruct (decide (k' = k)) as [->|Hk].
    + rewrite list_lookup_alter_eq in Ho. destruct (opened s !! k); simplify_eq/=.
    + rewrite list_lookup_alter_ne in Ho by done. by rewrite (Hother k' o' Hk Ho Hv) in Hlive.
  - intros task. rewrite lookup_insert_eq. intros [= <-]. cbn. apply (Forall_impl _ _ _ Hl).
    intros j Hj. rewrite lookup_lt_is_Some, length_insert. by rewrite <- lookup_lt_is_Some.
Qed.

Lemma learnt_wf t fresh s : Wf s -> tasks s !! t = Some (Learning fresh) -> Wf (learnt t fresh s).
Proof.
  intros Hwf Ht. apply (wf_moved t s); try done; cbn.
  - exact (not_held s t _ Ht I).
  - intros j (? & ? & E). cbn in E. by rewrite lookup_delete_eq in E.
  - intros u Hu. by rewrite lookup_delete_ne.
  - by left.
  - intros task. by rewrite lookup_delete_eq.
Qed.

Lemma forget_wf t fresh s : Wf s -> tasks s !! t = None -> Wf (forget t fresh s).
Proof.
  intros Hwf Ht. apply (wf_moved t s); try done; cbn.
  - by apply not_held_fresh.
  - intros j (? & ? & E). cbn in E. by rewrite lookup_insert_eq in E.
  - intros u Hu. by rewrite lookup_insert_ne.
  - by left.
  - intros e j [Hj _]%map_lookup_filter_Some. done.
  - intros task. rewrite lookup_insert_eq. by intros [= <-].
Qed.

Lemma exec_wf event s s' : Wf s -> exec retry event s = Some s' -> Wf s'.
Proof.
  intros Hwf. destruct event as [t|t|t error sample|t]; cbn;
    destruct (tasks s !! t) as [[c call|i c call|i c call|call r|fresh|[|i l]]|] eqn:Ht; try done.
  - intros [= <-]. by apply look_up_wf.
  - destruct (free s i) as [slot|] eqn:Hf; [|done]. intros [= <-]. by apply locked_wf.
  - destruct (free s i) as [slot|] eqn:Hf; [|done]. intros [= <-]. by apply close_first_wf.
  - destruct (arena s !! i) as [slot|] eqn:Hi; [|done]. intros [= <-]. by apply connected_wf.
  - intros [= <-]. by apply learnt_wf.
Qed.

Context `{KafkaProtocol} (bootstrap : list text).

Lemma outside_wf s s' : Wf s -> outside bootstrap s s' -> Wf s'.
Proof.
  intros Hwf Ho. destruct Ho as [s t id Ht|s t order Ht Hp|s t Ht|s t fresh Ht Hne|s t id Ht|s t Ht|s t Ht|s k|s d Hd].
  - pose proof (not_held_fresh s t Ht) as Hn. unfold get. destruct (addresses s !! id).
    + apply wf_set_task; [done|done|apply (calling_ok s)|apply calling_ok].
    + by apply wf_set_task.
  - apply wf_set_task; [done|by apply not_held_fresh|apply (calling_ok s)|apply calling_ok].
  - apply wf_set_task; [done|by apply not_held_fresh|apply (calling_ok s)|apply calling_ok].
  - by apply forget_wf.
  - apply wf_set_task; [done|by apply not_held_fresh|done|]. cbn.
    destruct (slots s !! Node id) as [i|] eqn:E; [|constructor]. constructor; [|constructor].
    apply (wf_slots s Hwf) in E as (slot & -> & _). done.
  - apply wf_set_task; [done|by apply not_held_fresh|done|]. cbn. apply Forall_map, Forall_forall.
    intros [e i] Hin%elem_of_map_to_list. apply (wf_slots s Hwf) in Hin as (slot & Hi & _). by exists slot.
  - by apply dropped_wf.
  - by apply wf_shut.
  - apply (wf_moved (fresh (dom (tasks s))) s); try done; cbn.
    + apply not_held_fresh, not_elem_of_dom, is_fresh.
    + apply not_held_fresh. cbn. apply not_elem_of_dom, is_fresh.
    + by left.
    + intros task Hk. by eapply wf_tasks.
Qed.

Lemma start_wf : Wf start.
Proof. by split. Qed.

Lemma reachable_wf s : reachable retry bootstrap s -> Wf s.
Proof.
  intros Hr. unfold reachable in Hr. pose proof start_wf as Hi. revert Hi.
  induction Hr as [|s1 s2 s3 Hs _ IH]; [done|]. intros Hi. apply IH.
  destruct Hs as [Hs|(event & _ & Hs)]; [by eapply outside_wf|by eapply exec_wf].
Qed.

(** ** The pace of connection attempts *)

(** A failed attempt is past, or its slot, which nobody has, still waits for it. *)
Record Paced (s : State) : Prop := {
  pa_past i at_ d : Failed i at_ d ∈ history s ->
    0 <= d <= Retry.max_delay retry
    /\ (at_ + d <= clock s \/ exists slot n, arena s !! i = Some slot /\ holder slot = None
         /\ next_attempt (state slot) = Some n /\ at_ + d <= n);
  pa_next i slot n : arena s !! i = Some slot -> next_attempt (state slot) = Some n ->
    n <= clock s + Retry.max_delay retry;
  pa_gap a b i at_ d began : (a < b)%nat -> history s !! a = Some (Failed i at_ d) ->
    history s !! b = Some (Began i began) -> at_ + d <= began;
}.

(** A step that leaves the waits of the slots that nobody has, and nothing happened. *)
Record calm (s s' : State) : Prop := {
  ca_history : history s' = history s;
  ca_clock : clock s <= clock s';
  ca_kept i slot : arena s !! i = Some slot -> holder slot = None ->
    exists slot', arena s' !! i = Some slot' /\ holder slot' = None
      /\ next_attempt (state slot') = next_attempt (state slot);
  ca_new i slot' n : arena s' !! i = Some slot' -> next_attempt (state slot') = Some n ->
    exists slot, arena s !! i = Some slot /\ next_attempt (state slot) = Some n;
}.

Lemma paced_calm s s' : Paced s -> calm s s' -> Paced s'.
Proof.
  intros [Hp Hn Hg] [Eh Hc Hk Hnew]. split; rewrite ?Eh; [|intros i slot n Hi En|done].
  - intros i at_ d Hin. destruct (Hp i at_ d Hin) as [Hd [Hx|(slot & n & Hi & Hh & En & Hle)]];
      (split; [done|]); [left; lia|right].
    destruct (Hk i slot Hi Hh) as (slot' & Hi' & Hh' & En'). exists slot', n. by rewrite En'.
  - destruct (Hnew i slot n Hi En) as (slot0 & Hi0 & En0). pose proof (Hn i slot0 n Hi0 En0). lia.
Qed.

Lemma calm_same s s' : history s' = history s -> clock s <= clock s' -> arena s' = arena s -> calm s s'.
Proof. intros Hh Hc Ha. split; [done|done|rewrite Ha; eauto..]. Qed.

(** One slot is written, with the wait it had or, if somebody had it, with none. *)
Lemma calm_slot s s' i slot slot' :
  arena s !! i = Some slot -> history s' = history s -> clock s <= clock s' -> arena s' = <[i := slot']> (arena s) ->
  (next_attempt (state slot') = next_attempt (state slot)
   \/ holder slot <> None /\ next_attempt (state slot') = None) ->
  (holder slot = None -> holder slot' = None) -> calm s s'.
Proof.
  intros Hi Hh Hc Ha Hn Hholder. pose proof (lookup_lt_Some _ _ _ Hi) as Hlt. split; [done|done|rewrite Ha..].
  - intros j slot0 Hj Hnone. destruct (decide (j = i)) as [->|Hne].
    + exists slot'. rewrite list_lookup_insert_eq by done. simplify_eq. split_and!; [done|auto|]. by destruct Hn as [?|[? _]].
    + exists slot0. by rewrite list_lookup_insert_ne.
  - intros j slot0 n Hj En. destruct (decide (j = i)) as [->|Hne].
    + rewrite list_lookup_insert_eq in Hj by done. simplify_eq. exists slot. split; [done|].
      destruct Hn as [E|[_ E]]; congruence.
    + rewrite list_lookup_insert_ne in Hj by done. eauto.
Qed.

(** An attempt begins when the wait of its slot is over. *)
Lemma paced_began s s' i slot slot' :
  Paced s -> arena s !! i = Some slot -> arena s' = <[i := slot']> (arena s) -> clock s' = clock s ->
  history s' = history s ++ [Began i (clock s)] ->
  (forall n, next_attempt (state slot) = Some n -> n <= clock s) ->
  next_attempt (state slot') = next_attempt (state slot) -> Paced s'.
Proof.
  intros [Hp Hn Hg] Hi Ha Hc Hh Hover En. pose proof (lookup_lt_Some _ _ _ Hi) as Hlt.
  assert (Hpast : forall at_ d, Failed i at_ d ∈ history s -> at_ + d <= clock s).
  { intros at_ d Hin. destruct (Hp i at_ d Hin) as [_ [?|(slot0 & n & Hi0 & _ & E & ?)]]; [done|].
    simplify_eq. specialize (Hover n E). lia. }
  split; rewrite ?Hh, ?Hc, ?Ha.
  - intros j at_ d [Hin|Hin%list_elem_of_singleton]%elem_of_app; [|done]. destruct (decide (j = i)) as [->|Hne].
    + split; [by eapply Hp|]. left. by apply Hpast.
    + destruct (Hp j at_ d Hin) as [Hd Hx]. split; [done|]. by rewrite list_lookup_insert_ne.
  - intros j slot0 n Hj. destruct (decide (j = i)) as [->|Hne].
    + rewrite list_lookup_insert_eq in Hj by done. simplify_eq. rewrite En. by apply (Hn i).
    + rewrite list_lookup_insert_ne in Hj by done. by apply (Hn j).
  - intros a b j at_ d began Hab Ha' [Hb|[Hb Hb']]%lookup_app_Some.
    + rewrite lookup_app_l in Ha' by (apply lookup_lt_Some in Hb; lia). by eapply (Hg a b).
    + apply list_lookup_singleton_Some in Hb' as [Hz Hb']. simplify_eq.
      rewrite lookup_app_l in Ha' by lia. by apply Hpast, (list_elem_of_lookup_2 _ a).
Qed.

(** An attempt fails: it was the only one of its slot, and the earlier ones are past. *)
Lemma paced_failed s s' i slot slot' d :
  Paced s -> arena s !! i = Some slot -> holder slot <> None -> arena s' = <[i := slot']> (arena s) ->
  clock s' = clock s -> history s' = history s ++ [Failed i (clock s) d] -> 0 <= d <= Retry.max_delay retry ->
  holder slot' = None -> next_attempt (state slot') = Some (clock s + d) -> Paced s'.
Proof.
  intros [Hp Hn Hg] Hi Hheld Ha Hc Hh Hd Hholder En. pose proof (lookup_lt_Some _ _ _ Hi) as Hlt.
  split; rewrite ?Hh, ?Hc, ?Ha.
  - intros j at_ d' [Hin|Hin%list_elem_of_singleton]%elem_of_app.
    + destruct (Hp j at_ d' Hin) as [Hd' Hx]. split; [done|]. destruct (decide (j = i)) as [->|Hne].
      * left. destruct Hx as [?|(slot0 & n & Hi0 & Hnone & _)]; [done|]. congruence.
      * by rewrite list_lookup_insert_ne.
    + simplify_eq. split; [done|right]. exists slot', (clock s + d). by rewrite list_lookup_insert_eq.
  - intros j slot0 n Hj. destruct (decide (j = i)) as [->|Hne].
    + rewrite list_lookup_insert_eq in Hj by done. simplify_eq. rewrite En. intros [= <-]. lia.
    + rewrite list_lookup_insert_ne in Hj by done. by apply (Hn j).
  - intros a b j at_ d' began Hab Ha' [Hb|[Hb Hb']]%lookup_app_Some.
    + rewrite lookup_app_l in Ha' by (apply lookup_lt_Some in Hb; lia). by eapply (Hg a b).
    + by apply list_lookup_singleton_Some in Hb' as [_ ?].
Qed.

Lemma free_slot s i slot : free s i = Some slot -> arena s !! i = Some slot /\ holder slot = None.
Proof. unfold free. destruct (arena s !! i); [|done]. destruct (holder _) eqn:E; [done|]. by intros [= <-]. Qed.

Hypothesis policy_wf : RetryFacts.wf retry.

Lemma locked_dead_paced t i slot c call s : Paced s -> free s i = Some slot -> Paced (locked_dead t i slot c call s).
Proof.
  intros Hp [Hi Hh]%free_slot. unfold locked_dead.
  destruct (match next_attempt (state slot) with Some n => clock s <? n | None => false end) eqn:E.
  - apply (paced_calm s); [done|]. eapply (calm_slot s _ i slot); [done|done| |reflexivity|by left|done]. done.
  - eapply (paced_began s _ i slot); [done|done|reflexivity|done|done| |done].
    intros n En. rewrite En in E. lia.
Qed.

Lemma exec_paced event s s' :
  Wf s -> Paced s -> fair_event retry event -> exec retry event s = Some s' -> Paced s'.
Proof.
  intros Hwf Hp Hfair. destruct event as [t|t|t error sample|t]; cbn;
    destruct (tasks s !! t) as [[c call|i c call|i c call|call r|fresh|[|i l]]|] eqn:Ht; try done.
  - intros [= <-]. apply (paced_calm s); [done|]. unfold look_up. destruct (slots s !! endpoint c); [by apply calm_same|].
    split; cbn; [done|done| |].
    + intros j slot Hj Hh. exists slot. split; [by apply lookup_app_l_Some|done].
    + intros j slot n [Hj|[_ Hj]]%lookup_app_Some En; [eauto|].
      apply list_lookup_singleton_Some in Hj as [_ <-]. done.
  - destruct (free s i) as [slot|] eqn:Hf; [|done]. intros [= <-]. unfold locked.
    destruct (connection (state slot)); [destruct (is_live s n)|]; [|by apply locked_dead_paced..].
    apply (paced_calm s); [done|]. by apply calm_same.
  - destruct (free s i) as [slot|] eqn:Hf; [|done]. intros [= <-]. apply (paced_calm s); [done|].
    apply free_slot in Hf as [Hi Hh]. unfold close_first. destruct (connection (state slot)); [|by apply calm_same].
    eapply (calm_slot s _ i slot); [done|done| |reflexivity|by left|done]. done.
  - destruct (arena s !! i) as [slot|] eqn:Hi; [|done]. intros [= <-].
    destruct (held_slot s t i c call Hwf Ht) as (slot0 & Hi0 & _ & _ & Hh & _). simplify_eq.
    assert (Hheld : holder slot <> None) by congruence. unfold connected. destruct error as [error|].
    + eapply (paced_failed s _ i slot); [done|done|done|reflexivity|done|done| |done|done].
      by apply RetryFacts.delay_bounds.
    + apply (paced_calm s); [done|].
      eapply (calm_slot s _ i slot); [done|done| |reflexivity|right; done|done]. done.
  - intros [= <-]. apply (paced_calm s); [done|]. by apply calm_same.
Qed.

Lemma outside_paced s s' : Paced s -> outside bootstrap s s' -> Paced s'.
Proof.
  intros Hp Ho. apply (paced_calm s); [done|].
  destruct Ho; try (by apply calm_same); [|apply calm_same; cbn; [done|lia|done]].
  unfold dropped. destruct (tasks s !! t) as [[c call|i c call|i c call|call r|fresh|l]|]; try (by apply calm_same).
  destruct (arena s !! i) as [slot|] eqn:Hi; [|by apply calm_same].
  eapply (calm_slot s _ i slot); [done|done| |reflexivity|by left|done]. done.
Qed.

Lemma reachable_paced s : reachable retry bootstrap s -> Paced s.
Proof.
  intros Hr. assert (Hi : Paced start).
  { split; cbn; [by intros i at_ d ?%elem_of_nil|done|done]. }
  unfold reachable in Hr. pose proof start_wf as Hwf. revert Hwf Hi.
  induction Hr as [|s1 s2 s3 Hs _ IH]; [done|]. intros Hwf Hi.
  destruct Hs as [Hs|(event & Hf & Hs)]; apply IH;
    [by eapply outside_wf|by eapply outside_paced|by eapply exec_wf|by eapply exec_paced].
Qed.

End retry.

(** ** Calls come back *)

(** How many steps a task is from its end at most. *)
Definition distance (task : Task) : nat :=
  match task with
  | Looking _ call => 3 * length (left_ call) + 3
  | Waiting _ _ call => 3 * length (left_ call) + 2
  | Dialling _ _ call => 3 * length (left_ call) + 1
  | Returned _ _ => 0
  | Learning _ => 1
  | Closing l => length l
  end.

Definition total (m : gmap nat Task) : nat := sum_list_with (fun x => distance x.2) (map_to_list m).

Lemma distance_delete m t task : m !! t = Some task -> total m = (distance task + total (delete t m))%nat.
Proof.
  intros Ht. unfold total. rewrite <- (insert_delete_id m t task Ht) at 1.
  rewrite map_to_list_insert by apply lookup_delete_eq. done.
Qed.

Lemma distance_insert m t task task' :
  m !! t = Some task -> (total (<[t := task']> m) + distance task = total m + distance task')%nat.
Proof.
  intros Ht. rewrite (distance_delete m t task Ht), (distance_delete (<[t := task']> m) t task')
    by apply lookup_insert_eq.
  rewrite delete_insert_eq. lia.
Qed.

Lemma advance_distance call : (distance (advance call) <= 3 * length (left_ call))%nat.
Proof. unfold advance. destruct (left_ call); cbn; lia. Qed.

Lemma failed_distance c error call : (distance (failed c error call) <= 3 * length (left_ call))%nat.
Proof. unfold failed. destruct (endpoint c); etrans; [apply advance_distance|done|apply advance_distance|done]. Qed.

Lemma set_task_less t task task' m :
  m !! t = Some task -> (distance task' < distance task)%nat -> (total (<[t := task']> m) < total m)%nat.
Proof. intros Ht Hd. pose proof (distance_insert m t task task' Ht). lia. Qed.

Lemma exec_less retry event s s' :
  exec retry event s = Some s' -> (total (tasks s') < total (tasks s))%nat.
Proof.
  destruct event as [t|t|t error sample|t]; cbn;
    destruct (tasks s !! t) as [[c call|i c call|i c call|call r|fresh|[|i l]]|] eqn:Ht; try done.
  - intros [= <-]. unfold look_up. destruct (slots s !! endpoint c); (eapply set_task_less; [done|cbn; lia]).
  - destruct (free s i) as [slot|]; [|done]. intros [= <-]. unfold locked.
    pose proof (failed_distance c (ConnectionClosed (Str.string_of_text (address c))) call).
    assert (Hd : (total (tasks (locked_dead t i slot c call s)) < total (tasks s))%nat).
    { unfold locked_dead. match goal with |- context [if ?b then _ else _] => destruct b end;
        (eapply set_task_less; [done|]); cbn in *; lia. }
    destruct (connection (state slot)); [destruct (is_live s n)|]; [|done..].
    eapply set_task_less; [done|]. cbn. lia.
  - destruct (free s i) as [slot|]; [|done]. intros [= <-]. unfold close_first.
    destruct (connection (state slot)); (eapply set_task_less; [done|cbn; lia]).
  - destruct (arena s !! i) as [slot|]; [|done]. intros [= <-]. unfold connected.
    destruct error as [error|]; [|eapply set_task_less; [done|cbn; lia]].
    pose proof (failed_distance c error call). eapply set_task_less; [done|]. cbn in *. lia.
  - intros [= <-]. cbn. rewrite (distance_delete _ _ _ Ht). cbn. lia.
Qed.

(** What a task that is not back can do: move itself, whatever a connection attempt ends with, or
    wait for the task that connects through its slot, which can. *)
Definition moves (retry : Retry.RetryPolicy) (s : State) (t : nat) : Prop :=
  is_Some (exec retry (LookUp t) s) \/ is_Some (exec retry (Lock t) s) \/ is_Some (exec retry (Learnt t) s)
  \/ forall error sample, is_Some (exec retry (Connected t error sample) s).

Lemma dialling_moves retry s t i : Wf s -> holds s t i -> moves retry s t.
Proof.
  intros Hwf (c & call & Ht). do 3 right. intros error sample. cbn. rewrite Ht.
  destruct (held_slot s t i c call Hwf Ht) as (slot & -> & _). done.
Qed.

Lemma lock_or_wait s i e : Wf s -> slot_for s i e -> is_Some (free s i) \/ exists u, holds s u i.
Proof.
  intros Hwf (slot & Hi & _). unfold free. rewrite Hi. destruct (holder slot) as [u|] eqn:Hh; [right|by left].
  exists u. by apply (so_holder _ _ _ (wf_arena s Hwf i slot Hi)).
Qed.

Lemma somebody_moves retry s t task :
  Wf s -> tasks s !! t = Some task -> (0 < distance task)%nat ->
  moves retry s t \/ exists u i, holds s u i /\ moves retry s u.
Proof.
  intros Hwf Ht Hd. pose proof (wf_tasks s Hwf t task Ht) as Hok.
  destruct task as [c call|i c call|i c call|call r|fresh|[|i l]]; cbn in Hd; try lia.
  - left. left. cbn. by rewrite Ht.
  - destruct Hok as [_ Hs]. destruct (lock_or_wait s i _ Hwf Hs) as [[slot Hf]|[u Hu]].
    + left. right. left. cbn. by rewrite Ht, Hf.
    + right. exists u, i. split; [done|]. by eapply dialling_moves.
  - left. eapply dialling_moves; [done|]. by exists c, call.
  - left. right. right. left. cbn. by rewrite Ht.
  - apply Forall_cons in Hok as [[slot Hi] _].
    destruct (lock_or_wait s i (made_for slot) Hwf) as [[slot' Hf]|[u Hu]]; [by exists slot| |].
    + left. right. left. cbn. by rewrite Ht, Hf.
    + right. exists u, i. split; [done|]. by eapply dialling_moves.
Qed.

End PoolStepsFacts.

(** ** Properties *)

Module PoolStepsProperties.
Import Error Pool PoolSteps PoolStepsFacts.

(** Every slot is the one the map has for its endpoint. *)
Definition remembered (s : State) : Prop :=
  forall i slot, arena s !! i = Some slot -> slots s !! made_for slot = Some i.

(** A step makes no slot that the map has not. *)
Definition makes_known (s s' : State) : Prop :=
  forall i slot', arena s' !! i = Some slot' ->
    slots s' !! made_for slot' = Some i \/ exists slot, arena s !! i = Some slot /\ made_for slot = made_for slot'.

Lemma known_same s s' : arena s' = arena s -> makes_known s s'.
Proof. intros Ha i slot' Hi. right. exists slot'. by rewrite <- Ha. Qed.

Lemma known_insert s s' i slot slot' :
  arena s !! i = Some slot -> arena s' = <[i := slot']> (arena s) -> made_for slot' = made_for slot -> makes_known s s'.
Proof.
  intros Hi Ha Hm j slot0. rewrite Ha. destruct (decide (j = i)) as [->|Hne].
  - rewrite list_lookup_insert_eq by (by eapply lookup_lt_Some). intros [= <-]. right. by exists slot.
  - rewrite list_lookup_insert_ne by done. right. by exists slot0.
Qed.

Section known.
Context `{KafkaProtocol} (retry : Retry.RetryPolicy) (bootstrap : list text).

Lemma exec_known event s s' : exec retry event s = Some s' -> makes_known s s'.
Proof.
  destruct event as [t|t|t error sample|t]; cbn;
    destruct (tasks s !! t) as [[c call|i c call|i c call|call r|fresh|[|i l]]|] eqn:Ht; try done.
  - intros [= <-]. unfold look_up. destruct (slots s !! endpoint c); [by apply known_same|].
    intros j slot' [Hj|[Hge Hj]]%lookup_app_Some; [right; by exists slot'|left].
    apply list_lookup_singleton_Some in Hj as [Hz <-]. cbn. rewrite lookup_insert_eq. f_equal. lia.
  - destruct (free s i) as [slot|] eqn:Hf; [|done]. intros [= <-]. apply free_slot in Hf as [Hi _].
    assert (Hd : makes_known s (locked_dead t i slot c call s)).
    { unfold locked_dead. match goal with |- context [if ?b then _ else _] => destruct b end;
        (eapply known_insert; [exact Hi|reflexivity|done]). }
    unfold locked. destruct (connection (state slot)); [destruct (is_live s n)|]; [|done..]. by apply known_same.
  - destruct (free s i) as [slot|] eqn:Hf; [|done]. intros [= <-]. apply free_slot in Hf as [Hi _].
    unfold close_first. destruct (connection (state slot)); [|by apply known_same].
    eapply known_insert; [exact Hi|reflexivity|done].
  - destruct (arena s !! i) as [slot|] eqn:Hi; [|done]. intros [= <-]. unfold connected.
    destruct error; (eapply known_insert; [exact Hi|reflexivity|done]).
  - intros [= <-]. by apply known_same.
Qed.

Lemma outside_known s s' : outside bootstrap s s' -> makes_known s s'.
Proof.
  intros Ho. destruct Ho; try (by apply known_same).
  unfold dropped. destruct (tasks s !! t) as [[c call|i c call|i c call|call r|fresh|l]|]; try (by apply known_same).
  destruct (arena s !! i) as [slot|] eqn:Hi; [|by apply known_same].
  eapply known_insert; [exact Hi|reflexivity|done].
Qed.

(** A run in which the map of slots only grows. *)
Definition grows (s s' : State) : Prop := step retry bootstrap s s' /\ slots s ⊆ slots s'.

Lemma grown_remembered s : rtc grows start s -> remembered s.
Proof.
  intros Hr. assert (Hi : remembered start) by by intros i slot. revert Hi.
  induction Hr as [|s1 s2 s3 [Hs Hsub] _ IH]; [done|]. intros Hi. apply IH. intros i slot' Hslot.
  assert (Hk : makes_known s1 s2)
    by (destruct Hs as [Hs|(event & _ & Hs)]; [by apply outside_known|by eapply exec_known]).
  destruct (Hk i slot' Hslot) as [|(slot & Hs1 & <-)]; [done|].
  eapply lookup_weaken; [by apply Hi|done].
Qed.

Lemma grown_reachable s : rtc grows start s -> reachable retry bootstrap s.
Proof. intros Hr. eapply rtc_subrel; [|exact Hr]. by intros ? ? [? _]. Qed.

Lemma live_at s i slot k o :
  reachable retry bootstrap s -> arena s !! i = Some slot -> opened s !! k = Some o -> via o = i -> live o = true ->
  connection (state slot) = Some k.
Proof. intros Hr. by apply kept_live, (reachable_wf retry bootstrap). Qed.

End known.

(** C16: However callers of the pool interleave, come and go, one connection serves all callers of a
    slot.  No two live connections were opened through one slot; one task at most connects through
    it, and then none of its connections is alive.  So long as the map of slots forgets none, a
    broker has one live connection at most.  And a caller that got a connection got one that was
    opened for something it asked for, as the broker that was asked for. *)
Theorem one_connection_serves_all `{KafkaProtocol} (retry : Retry.RetryPolicy) (bootstrap : list text) s :
  reachable retry bootstrap s ->
  (forall k k' o o', opened s !! k = Some o -> opened s !! k' = Some o' ->
     live o = true -> live o' = true -> via o = via o' -> k = k')
  /\ (forall t i, holds s t i ->
        (forall u, holds s u i -> u = t) /\ forall k o, opened s !! k = Some o -> via o = i -> live o = false)
  /\ (rtc (grows retry bootstrap) start s ->
      forall k k' o o' e, opened s !! k = Some o -> opened s !! k' = Some o' -> live o = true -> live o' = true ->
        slot_for s (via o) e -> slot_for s (via o') e -> k = k')
  /\ (forall t call k, tasks s !! t = Some (Returned call (Ok k)) ->
        exists o c, opened s !! k = Some o /\ c ∈ asked call /\ slot_for s (via o) (endpoint c)
          /\ node o = node_of (endpoint c)).
Proof.
  intros Hr. pose proof (reachable_wf retry bootstrap s Hr) as Hwf.
  assert (Hone : forall k k' o o', opened s !! k = Some o -> opened s !! k' = Some o' ->
            live o = true -> live o' = true -> via o = via o' -> k = k').
  { intros k k' o o' Hk Hk' Hl Hl' Hv. destruct (wf_opened s Hwf k o Hk) as (slot & Hs & _ & Hc).
    specialize (Hc Hl). rewrite (kept_live s _ slot k' o' Hwf Hs Hk' (eq_sym Hv) Hl') in Hc. congruence. }
  split_and!; [done| | |].
  - intros t i Hh. pose proof Hh as (c & call & Ht).
    destruct (held_slot s t i c call Hwf Ht) as (slot & Hi & _ & _ & Hholder & He). split.
    + intros u Hu%(so_holder _ _ _ (wf_arena s Hwf i slot Hi)). congruence.
    + intros k o Hk Hv. destruct (live o) eqn:El; [|done].
      pose proof (kept_live s i slot k o Hwf Hi Hk Hv El). congruence.
  - intros Hg k k' o o' e Hk Hk' Hl Hl' (slot & Hs & <-) (slot' & Hs' & Hm).
    pose proof (grown_remembered retry bootstrap s Hg) as Hrem.
    apply (Hone k k' o o' Hk Hk' Hl Hl'). apply Hrem in Hs, Hs'. congruence.
  - intros t call k Ht. destruct (wf_tasks s Hwf t _ Ht) as (o & c & Ho & Hc & Hs). exists o, c.
    destruct (wf_opened s Hwf k o Ho) as (slot & Hi & Hn & _). split_and!; [done|done|done|].
    destruct Hs as (slot' & Hi' & <-). simplify_eq. done.
Qed.

(** C19: Attempts keep their distance.  After a connection attempt of a slot failed, no task begins
    another through that slot before the pause that the failure set is over, whoever asks and
    however often; the pause is at most the policy's longest, so no slot is ever closed to callers
    for longer than that. *)
Theorem attempts_keep_their_distance `{KafkaProtocol} (retry : Retry.RetryPolicy) (bootstrap : list text) s :
  RetryFacts.wf retry -> reachable retry bootstrap s ->
  (forall a b i at_ d began, (a < b)%nat -> history s !! a = Some (Failed i at_ d) ->
     history s !! b = Some (Began i began) -> at_ + d <= began)
  /\ (forall i at_ d, Failed i at_ d ∈ history s -> 0 <= d <= Retry.max_delay retry)
  /\ (forall i slot n, arena s !! i = Some slot -> next_attempt (state slot) = Some n ->
        n <= clock s + Retry.max_delay retry).
Proof.
  intros Hp Hr. destruct (reachable_paced retry bootstrap Hp s Hr) as [Hpast Hnext Hgap].
  split_and!; [done| |done]. intros i at_ d Hin. by apply (Hpast i at_ d).
Qed.

(** A run of the tasks alone, of a number of steps. *)
Inductive runs (retry : Retry.RetryPolicy) : nat -> State -> State -> Prop :=
  | runs_none s : runs retry 0 s s
  | runs_step n event s s1 s' : exec retry event s = Some s1 -> runs retry n s1 s' -> runs retry (S n) s s'.

(** C17: Calls of the pool come back.  From any state it can be in, the tasks left to themselves make
    a bounded number of steps in any order; and a task that is not back moves, or the one that
    connects through the slot it waits for does, whatever its attempt ends with.  So when nothing
    moves everybody is back: no lock is left behind, and no two tasks wait for each other. *)
Theorem pool_calls_come_back `{KafkaProtocol} (retry : Retry.RetryPolicy) (bootstrap : list text) s :
  reachable retry bootstrap s ->
  (forall n s', runs retry n s s' -> (n + total (tasks s') <= total (tasks s))%nat)
  /\ (forall t task, tasks s !! t = Some task -> (0 < distance task)%nat ->
        moves retry s t \/ exists u i, holds s u i /\ moves retry s u)
  /\ ((forall t, ~ moves retry s t) -> forall t task, tasks s !! t = Some task -> distance task = 0%nat).
Proof.
  intros Hr. pose proof (reachable_wf retry bootstrap s Hr) as Hwf. split_and!.
  - intros n s' Hn. clear Hr Hwf. induction Hn as [s|n event s s1 s' He _ IH]; [done|].
    pose proof (exec_less retry event s s1 He). lia.
  - intros t task. by apply somebody_moves.
  - intros Hnone t task Ht. destruct (decide (distance task = 0%nat)) as [|Hd]; [done|].
    destruct (somebody_moves retry s t task Hwf Ht) as [Hm|(u & _ & _ & Hm)]; [lia|by apply Hnone in Hm..].
Qed.

(** *** Two callers and one broker *)

#[local] Instance demo_protocol : KafkaProtocol := {| try_from_code _ := None; is_retriable _ := true |}.

Definition demo_retry : Retry.RetryPolicy := Retry.default_policy.
Definition demo_bootstrap : list text := [text_of_string "b:1"].
Definition old_home : text := text_of_string "a:1".
Definition new_home : text := text_of_string "a:2".

(** The tasks' steps, one after the other. *)
Definition ran (l : list Event) (s : State) : State :=
  foldl (fun s event => default s (exec demo_retry event s)) s l.

(** What a task has come back with. *)
Definition returned (task : Task) : option nat :=
  match task with Returned _ (Ok k) => Some k | _ => None end.
Definition is_back (task : Task) : bool := match task with Returned _ _ => true | _ => false end.

Definition opens (t : nat) : Event := Connected t None 0.
Definition refused (t : nat) : Event := Connected t (Some (ConnectionClosed "a:1")) 0.

Lemma demo_policy : RetryFacts.wf demo_retry.
Proof. unfold RetryFacts.wf. vm_compute. repeat split; discriminate. Qed.

Lemma demo_sample : RetryFacts.drawn demo_retry 0.
Proof. split; vm_compute; discriminate. Qed.

Lemma ran_reachable l s :
  Forall (fair_event demo_retry) l -> reachable demo_retry demo_bootstrap s ->
  reachable demo_retry demo_bootstrap (ran l s).
Proof.
  unfold ran. revert s. induction l as [|event l IH]; intros s Hl Hs; [done|].
  apply Forall_cons in Hl as [He Hl]. cbn. apply IH; [done|].
  destruct (exec demo_retry event s) as [s'|] eqn:E; cbn; [|done].
  eapply rtc_r; [exact Hs|]. right. by exists event.
Qed.

Lemma then_outside s s' :
  reachable demo_retry demo_bootstrap s -> outside demo_bootstrap s s' -> reachable demo_retry demo_bootstrap s'.
Proof. intros Hs Ho. eapply rtc_r; [exact Hs|by left]. Qed.

(** The metadata names broker 1, and two callers want it. *)
Definition learns (t : nat) (home : text) (s : State) : State := ran [Learnt t] (forget t {[1 := home]} s).
Definition wants (t : nat) (s : State) : State := set_task t (get s 1) s.
Definition demo_waiting : State :=
  ran [LookUp 1; LookUp 2; Lock 1] (wants 2 (wants 1 (learns 0 old_home start))).
Definition demo_shared : State := ran [opens 1; Lock 2] demo_waiting.

Ltac fair := repeat first [apply Forall_nil_2|apply Forall_cons_2]; first [exact I|exact demo_sample].
Ltac reached :=
  repeat first
    [ apply ran_reachable; [fair|]
    | apply rtc_refl
    | eapply then_outside; [|first [by apply out_get|by apply out_learn|by apply out_close|by apply out_evict
                                   |apply out_drop; by eexists|by apply out_ends]] ].

Lemma demo_waiting_reachable : reachable demo_retry demo_bootstrap demo_waiting.
Proof. unfold demo_waiting, wants, learns. reached. Qed.

Lemma one_connection_serves_all_witness :
  reachable demo_retry demo_bootstrap demo_shared
  /\ tasks demo_shared !! 1%nat
     = Some (Returned {| asked := known [(1, old_home)]; left_ := []; known_error := None; bootstrap_error := None |} (Ok 0%nat))
  /\ tasks demo_shared !! 2%nat = tasks demo_shared !! 1%nat
  /\ exists o c, opened demo_shared !! 0%nat = Some o /\ c ∈ known [(1, old_home)]
       /\ slot_for demo_shared (via o) (endpoint c) /\ node o = node_of (endpoint c).
Proof.
  assert (Hr : reachable demo_retry demo_bootstrap demo_shared).
  { unfold demo_shared. apply ran_reachable; [fair|exact demo_waiting_reachable]. }
  split; [exact Hr|]. split; [vm_compute; reflexivity|]. split; [vm_compute; reflexivity|].
  destruct (one_connection_serves_all demo_retry demo_bootstrap demo_shared Hr) as (_ & _ & _ & Hgot).
  apply (Hgot 1%nat {| asked := known [(1, old_home)]; left_ := []; known_error := None; bootstrap_error := None |}).
  vm_compute. reflexivity.
Defined.

Ltac demo := repeat first [exact demo_waiting_reachable|progress unfold demo_shared|progress reached].

(** A refusal, and a caller that waits for the pause to be over. *)
Definition later (d : Z) (s : State) : State := {|
  clock := clock s + d; slots := slots s; arena := arena s; addresses := addresses s; opened := opened s;
  tasks := tasks s; history := history s |}.
Definition demo_refused : State := ran [refused 1; Lock 2] demo_waiting.
Definition demo_again : State := ran [LookUp 3; Lock 3] (wants 3 (later Retry.SECOND demo_refused)).

Lemma demo_again_reachable : reachable demo_retry demo_bootstrap demo_again.
Proof.
  unfold demo_again, wants. apply ran_reachable; [fair|].
  eapply then_outside; [|by apply out_get]. eapply then_outside; [|by apply out_tick].
  unfold demo_refused. apply ran_reachable; [fair|exact demo_waiting_reachable].
Qed.

Lemma attempts_keep_their_distance_witness :
  history demo_again = [Began 0 0; Failed 0 0 (100 * Retry.MILLI); Began 0 Retry.SECOND]
  /\ 0 + 100 * Retry.MILLI <= Retry.SECOND
  /\ option_map is_back (tasks demo_again !! 2%nat) = Some true.
Proof.
  split; [vm_compute; reflexivity|]. split; [|vm_compute; reflexivity].
  destruct (attempts_keep_their_distance demo_retry demo_bootstrap demo_again demo_policy demo_again_reachable)
    as (Hgap & _).
  apply (Hgap 1%nat 2%nat 0%nat 0 (100 * Retry.MILLI) Retry.SECOND); [lia|vm_compute; reflexivity..].
Defined.

Lemma pool_calls_come_back_witness :
  total (tasks demo_waiting) = 3%nat
  /\ (forall n s', runs demo_retry n demo_waiting s' -> (n + total (tasks s') <= 3)%nat)
  /\ (moves demo_retry demo_waiting 2 \/ exists u i, holds demo_waiting u i /\ moves demo_retry demo_waiting u).
Proof.
  destruct (pool_calls_come_back demo_retry demo_bootstrap demo_waiting demo_waiting_reachable) as (Hn & Hm & _).
  split; [vm_compute; reflexivity|]. split; [exact Hn|].
  eapply (Hm 2%nat); [vm_compute; reflexivity|cbn; lia].
Defined.

(** *** What the locks do not do *)

(** A broker that the metadata drops and names again is connected to twice, while callers still
    have the first connection. *)
Example relearnt_broker_has_two_connections :
  let gone := ran [Learnt 3] (forget 3 {[2 := new_home]} demo_shared) in
  let s := ran [LookUp 5; Lock 5; opens 5] (wants 5 (learns 4 old_home gone)) in
  reachable demo_retry demo_bootstrap s
  /\ map (fun o => (node o, peer o, live o)) (opened s) = [(Some 1, old_home, true); (Some 1, old_home, true)].
Proof.
  split; [|vm_compute; reflexivity]. unfold wants, learns. cbv zeta. demo.
Qed.

(** A broker that moved is spoken to at the address it left, as long as that connection lives. *)
Example moved_broker_keeps_its_connection :
  let s := ran [LookUp 4; Lock 4] (wants 4 (learns 3 new_home demo_shared)) in
  reachable demo_retry demo_bootstrap s
  /\ option_map returned (tasks s !! 4%nat) = Some (Some 0%nat)
  /\ map (fun o => (peer o, live o)) (opened s) = [(old_home, true)] /\ addresses s !! 1 = Some new_home.
Proof.
  split; [|vm_compute; done]. unfold wants, learns. cbv zeta. demo.
Qed.

(** [close] is not the end: a call that waits behind it connects again. *)
Example close_leaves_a_connection :
  let s := ran [opens 1; Lock 3; Lock 2; opens 2] (set_task 3 (close demo_waiting) demo_waiting) in
  reachable demo_retry demo_bootstrap s
  /\ tasks s !! 3%nat = Some (Closing []) /\ map live (opened s) = [false; true].
Proof. split; [|vm_compute; done]. cbv zeta. demo. Qed.

(** An eviction that waits closes whatever connection is there when its turn comes, which can be a
    new one. *)
Example eviction_closes_the_new_connection :
  let s := ran [opens 1; Lock 3; Lock 2] (set_task 3 (evict 1 demo_waiting) demo_waiting) in
  reachable demo_retry demo_bootstrap s
  /\ option_map returned (tasks s !! 1%nat) = Some (Some 0%nat) /\ map live (opened s) = [false].
Proof. split; [|vm_compute; done]. cbv zeta. demo. Qed.

(** An attempt that its caller drops is no failure: the next caller attempts at once. *)
Example dropped_attempt_sets_no_pause :
  let s := ran [Lock 2] (dropped 1 demo_waiting) in
  reachable demo_retry demo_bootstrap s
  /\ history s = [Began 0 0; Began 0 0]
  /\ map (fun slot => consecutive_failures (state slot)) (arena s) = [0].
Proof. split; [|vm_compute; done]. cbv zeta. demo. Qed.

End PoolStepsProperties.
