(* ===== verification/PoolRefinement.v ===== *)
(** The pool's steps and the pool's calls: a call of [PoolSteps] that nobody disturbs is
    [Cluster.connect], which the properties of [ClusterProperties] are about. *)

From S2P Require Import Prelude Sanitize Text ErrorCodes Retry Effects Metadata Cluster PoolSteps PoolStepsFacts.
From Stdlib Require Import QArith.
Open Scope Z_scope.

Module PoolRefinement.
Import Error Pool PoolSteps PoolStepsFacts.

(** What is around a pool, as [PoolSteps] has it: the clock, the connections, and how the next
    connection attempt ends, with the jitter drawn if it fails. *)
Record World : Type := {
  w_clock : Z;
  w_opened : list (text * option Z * bool);
  w_error : option Error;
  w_sample : Q;
}.

Definition set_w_opened (l : list (text * option Z * bool)) (w : World) : World := {|
  w_clock := w_clock w; w_opened := l; w_error := w_error w; w_sample := w_sample w |}.

#[export] Instance world_network : Cluster.Network World nat unit := {|
  Cluster.dial addr id w :=
    match w_error w with
    | None => (Ok (length (w_opened w)), set_w_opened (w_opened w ++ [(addr, id, true)]) w)
    | Some error => (Err error, w)
    end;
  Cluster.is_closed k w := match w_opened w !! k with Some (_, _, live) => negb live | None => true end;
  Cluster.close_connection k w := set_w_opened (alter (fun o => (o.1, false)) k (w_opened w)) w;
  Cluster.metadata_version _ _ := None;
  Cluster.find_coordinator_version _ _ := Err no_bootstrap;
  Cluster.send_metadata _ _ w := (Err no_bootstrap, w);
  Cluster.send_find_coordinator _ _ w := (Err no_bootstrap, w);
  Cluster.send_request _ _ w := (Err no_bootstrap, w);
  Cluster.now := w_clock;
  Cluster.jitter_sample w := (w_sample w, w);
  Cluster.sleep _ w := w;
  Cluster.entries m _ := map_to_list m;
|}.

Section refinement.
Context `{KafkaProtocol} (config : Cluster.ClusterConfig) (error : option Error) (sample : Q).
Abbreviation retry := (Cluster.retry config).

(** The states of the slots that the map has. *)
Definition slot_states (s : State) : gmap Endpoint (SlotState nat) :=
  (fun i => default default_slot (state <$> arena s !! i)) <$> slots s.

Definition seen (o : Opened) : text * option Z * bool := (peer o, node o, live o).

(** A state of the steps as one of the calls. *)
Definition pool_of (s : State) : Cluster.State (W := World) (Conn := nat) := {|
  Cluster.slots := slot_states s; Cluster.addresses := addresses s;
  Cluster.snapshot := Metadata.new 0 [] [] None None; Cluster.coordinators := ∅;
  Cluster.world := {| w_clock := clock s; w_opened := map seen (opened s); w_error := error; w_sample := sample |} |}.

(** The steps of one call, with nobody else's between. *)
Definition alone (t : nat) (s : State) : State :=
  foldl (fun s event => default s (exec retry event s)) s [LookUp t; Lock t; Connected t error sample].

(** *** The map and the slots behind it *)

Lemma slot_state_at s e i slot :
  slots s !! e = Some i -> arena s !! i = Some slot -> slot_states s !! e = Some (state slot).
Proof. intros He Hi. unfold slot_states. rewrite lookup_fmap, He. cbn. by rewrite Hi. Qed.

Lemma slot_states_write s s' e i slot' :
  Wf s -> slots s !! e = Some i -> arena s' = <[i := slot']> (arena s) -> slots s' = slots s ->
  slot_states s' = <[e := state slot']> (slot_states s).
Proof.
  intros Hwf He Ha Hs. destruct (wf_slots s Hwf e i He) as (slot & Hi & Hm).
  apply map_eq. intros e'. unfold slot_states. rewrite Ha, Hs, lookup_fmap.
  destruct (decide (e' = e)) as [->|Hne].
  - rewrite lookup_insert_eq, He. cbn. by rewrite list_lookup_insert_eq by (by eapply lookup_lt_Some).
  - rewrite lookup_insert_ne, lookup_fmap by done. destruct (slots s !! e') as [j|] eqn:Ej; [|done]. cbn.
    rewrite list_lookup_insert_ne; [done|]. intros ->.
    destruct (wf_slots s Hwf e' j Ej) as (slot0 & Hj & Hm'). congruence.
Qed.

(** The world sees the life of a connection. *)
Lemma closed_as_seen s k :
  Cluster.is_closed (Resp := unit) k (Cluster.world (pool_of s)) = negb (is_live s k).
Proof.
  cbn. rewrite list_lookup_fmap. unfold is_live. by destruct (opened s !! k).
Qed.

Lemma pool_of_eq s cs :
  Cluster.slots cs = slot_states s -> Cluster.addresses cs = addresses s ->
  Cluster.snapshot cs = Metadata.new 0 [] [] None None -> Cluster.coordinators cs = ∅ ->
  Cluster.world cs = {| w_clock := clock s; w_opened := map seen (opened s); w_error := error; w_sample := sample |} ->
  cs = pool_of s.
Proof. destruct cs. cbn. unfold pool_of. by intros -> -> -> -> ->. Qed.

(** What a task has to show for a result. *)
Definition shows (c : Candidate) (call : Call) (r : result nat Error) : Task :=
  match r with Ok k => Returned call (Ok k) | Err e => failed c e call end.

(** The steps under the lock, of a slot that nobody has. *)
Definition under_lock (t : nat) (s : State) : State :=
  foldl (fun s event => default s (exec retry event s)) s [Lock t; Connected t error sample].

Lemma not_connected t e q s :
  (forall i c call, tasks s !! t <> Some (Dialling i c call)) -> exec retry (Connected t e q) s = None.
Proof.
  intros Hn. cbn. destruct (tasks s !! t) as [[]|] eqn:E; try done. by destruct (Hn _ _ _ eq_refl).
Qed.

(** A slot with no live connection, under its lock. *)
Lemma dead_connects t i slot c call s :
  Wf s -> tasks s !! t = Some (Waiting i c call) -> slots s !! endpoint c = Some i ->
  arena s !! i = Some slot -> holder slot = None ->
  let dead := locked_dead t i slot c call s in
  let s' := default dead (exec retry (Connected t error sample) dead) in
  exists r, tasks s' !! t = Some (shows c call r)
    /\ Cluster.dial_slot config (endpoint c) (address c) (node_of (endpoint c)) (state slot) (pool_of s)
       = Some (r, pool_of s').
Proof.
  intros Hwf Ht He Hi Hh. cbv zeta. pose proof (lookup_lt_Some _ _ _ Hi) as Hlt.
  assert (Hw : forall s' slot', arena s' = <[i := slot']> (arena s) -> slots s' = slots s ->
            slot_states s' = <[endpoint c := state slot']> (slot_states s)).
  { intros s' slot'. by apply slot_states_write. }
  unfold Cluster.dial_slot, Eff.get_state, Eff.try_, Eff.bind, Eff.put.
  change (Cluster.now (Resp := unit) (Cluster.world (Cluster.set_slot ?e ?x (pool_of s)))) with (clock s).
  unfold locked_dead.
  destruct (match next_attempt (state slot) with Some n => clock s <? n | None => false end).
  - exists (Err (ConnectionClosed (Str.string_of_text (address c)))).
    rewrite not_connected; cbn [default]; [split; [by cbn; rewrite lookup_insert_eq|]|].
    + unfold Eff.ret. do 2 f_equal. apply pool_of_eq; try done.
      match goal with |- _ = slot_states ?s' => by rewrite (Hw s' _ eq_refl eq_refl) end.
    + cbn. rewrite lookup_insert_eq. intros ? ? ? [= E].
      destruct (failed_ok s c (ConnectionClosed (Str.string_of_text (address c))) call) as [_ Hd];
        [apply (wf_tasks s Hwf t _ Ht)|]. by rewrite E in Hd.
  - set (dead := happened _ _). assert (Hd : tasks dead !! t = Some (Dialling i c call))
      by (cbn; by rewrite lookup_insert_eq).
    assert (Ei : arena dead !! i = Some {| made_for := made_for slot;
        state := {| connection := None; consecutive_failures := consecutive_failures (state slot);
                    next_attempt := next_attempt (state slot) |}; holder := Some t |})
      by (cbn; by rewrite list_lookup_insert_eq).
    assert (Ex : exec retry (Connected t error sample) dead
        = Some (connected retry t i {| made_for := made_for slot;
            state := {| connection := None; consecutive_failures := consecutive_failures (state slot);
                    next_attempt := next_attempt (state slot) |}; holder := Some t |} c call error sample dead))
      by (cbn [exec]; by rewrite Hd, Ei).
    rewrite Ex. cbn [default].
    unfold Cluster.outside, Cluster.draw_delay. cbn. destruct error as [e|] eqn:Ee; cbn.
    + exists (Err e). split; [by rewrite lookup_insert_eq|]. unfold Eff.ret. do 2 f_equal.
      apply pool_of_eq; try done; [|by rewrite Ee].
      match goal with |- _ = slot_states ?s' => rewrite (Hw s' _ (list_insert_insert_eq _ _ _ _) eq_refl) end.
      cbn. by rewrite insert_insert_eq.
    + rewrite length_map. exists (Ok (length (opened s))). split; [by rewrite lookup_insert_eq|].
      unfold Eff.ret. do 2 f_equal. apply pool_of_eq; try done.
      * match goal with |- _ = slot_states ?s' => rewrite (Hw s' _ (list_insert_insert_eq _ _ _ _) eq_refl) end.
        cbn. by rewrite insert_insert_eq.
      * cbn. by rewrite map_app, Ee.
Qed.

(** A task that is past [slot_or_create], with the lock free. *)
Lemma waiting_connects t i slot c call s :
  Wf s -> tasks s !! t = Some (Waiting i c call) -> slots s !! endpoint c = Some i ->
  arena s !! i = Some slot -> holder slot = None ->
  exists r, tasks (under_lock t s) !! t = Some (shows c call r)
    /\ Cluster.connect config (endpoint c) (address c) (node_of (endpoint c)) (pool_of s)
       = Some (r, pool_of (under_lock t s)).
Proof.
  intros Hwf Ht He Hi Hh.
  assert (El : exec retry (Lock t) s = Some (locked t i slot c call s))
    by (cbn; rewrite Ht; unfold free; by rewrite Hi, Hh).
  unfold under_lock. cbn [foldl]. rewrite El. cbn [default id].
  unfold Cluster.connect, Eff.get_state, Eff.try_ at 1, Eff.bind at 1, Eff.put.
  change (Cluster.slots (pool_of s)) with (slot_states s). rewrite (slot_state_at s _ i slot He Hi). cbn [default id].
  assert (Eput : Cluster.set_slot (endpoint c) (state slot) (pool_of s) = pool_of s).
  { apply pool_of_eq; try done. cbn. apply insert_id. by eapply slot_state_at. }
  rewrite Eput. unfold locked.
  destruct (connection (state slot)) as [k|] eqn:Ek; [rewrite closed_as_seen; destruct (is_live s k); cbn [negb]|].
  - exists (Ok k). rewrite not_connected; cbn; [|by rewrite lookup_insert_eq].
    split; [by rewrite lookup_insert_eq|done].
  - by apply dead_connects.
  - by apply dead_connects.
Qed.

(** [slot_or_create] of the steps and of the calls. *)
Lemma created_slot s e (s' : State) :
  Wf s -> slots s !! e = None -> slots s' = <[e := length (arena s)]> (slots s) ->
  arena s' = arena s ++ [{| made_for := e; state := default_slot; holder := None |}] ->
  slot_states s' = <[e := default_slot]> (slot_states s).
Proof.
  intros Hwf He Hs Ha. apply map_eq. intros e'. unfold slot_states. rewrite Hs, Ha, lookup_fmap.
  destruct (decide (e' = e)) as [->|Hne].
  - rewrite !lookup_insert_eq. cbn. by rewrite lookup_snoc.
  - rewrite !lookup_insert_ne, lookup_fmap by done. destruct (slots s !! e') as [j|] eqn:Ej; [|done]. cbn.
    destruct (wf_slots s Hwf e' j Ej) as (slot & Hj & _). by rewrite Hj, (lookup_app_l_Some _ _ _ _ Hj).
Qed.

Lemma connect_creates (cs : Cluster.State) e a n :
  Cluster.slots cs !! e = None ->
  Cluster.connect (Conn := nat) (W := World) config e a n cs
  = Cluster.connect config e a n (Cluster.set_slot e default_slot cs).
Proof.
  intros He. unfold Cluster.connect, Eff.get_state, Eff.try_, Eff.bind, Eff.put.
  assert (E : Cluster.set_slot e default_slot (Cluster.set_slot e default_slot cs) = Cluster.set_slot e default_slot cs)
    by (unfold Cluster.set_slot; cbn; by rewrite insert_insert_eq).
  change (Cluster.slots (Cluster.set_slot e default_slot cs)) with (<[e := default_slot]> (Cluster.slots cs)).
  rewrite He, lookup_insert_eq. cbn [default id]. by rewrite E.
Qed.

End refinement.

End PoolRefinement.

(** ** Properties *)

Module PoolRefinementProperties.
Import Error Pool PoolSteps PoolStepsFacts PoolRefinement.

(** C18: A call that nobody disturbs is the sequential pool's.  In any state the pool can be in,
    with the lock of its slot free or no slot there, the steps of a task that is about to connect,
    taken without another's between, leave the task with what [Cluster.connect] returns and the pool
    as [Cluster.connect] leaves it, for every end of the connection attempt. *)
Theorem undisturbed_call_is_connect `{KafkaProtocol} (config : Cluster.ClusterConfig) (bootstrap : list text)
    (error : option Error) (sample : Q) s t c call :
  reachable (Cluster.retry config) bootstrap s -> tasks s !! t = Some (Looking c call) ->
  (forall i slot, slots s !! endpoint c = Some i -> arena s !! i = Some slot -> holder slot = None) ->
  exists r, tasks (alone config error sample t s) !! t = Some (shows c call r)
    /\ Cluster.connect config (endpoint c) (address c) (node_of (endpoint c)) (pool_of error sample s)
       = Some (r, pool_of error sample (alone config error sample t s)).
Proof.
  intros Hr Ht Hfree. pose proof (reachable_wf _ _ s Hr) as Hwf.
  assert (El : exec (Cluster.retry config) (LookUp t) s = Some (look_up t c call s)) by (cbn; by rewrite Ht).
  unfold alone. cbn [foldl]. rewrite El. cbn [default].
  pose proof (look_up_wf t c call s Hwf Ht) as Hwf'. unfold look_up in *.
  destruct (slots s !! endpoint c) as [i|] eqn:Ec.
  - destruct (wf_slots s Hwf _ i Ec) as (slot & Hi & _).
    apply (waiting_connects config error sample t i slot c call (set_task t (Waiting i c call) s)); try done.
    + cbn. by rewrite lookup_insert_eq.
    + by apply (Hfree i).
  - set (s1 := set_task t _ _).
    assert (E1 : pool_of error sample s1 = Cluster.set_slot (endpoint c) default_slot (pool_of error sample s)).
    { symmetry. apply pool_of_eq; try done. by rewrite (created_slot s (endpoint c) s1 Hwf Ec eq_refl eq_refl). }
    rewrite connect_creates, <- E1; [|cbn; unfold slot_states; by rewrite lookup_fmap, Ec].
    eapply (waiting_connects config error sample t (length (arena s)) _ c call s1); [done| | |apply lookup_snoc|done].
    + cbn. by rewrite lookup_insert_eq.
    + cbn. by rewrite lookup_insert_eq.
Qed.

#[local] Instance demo_protocol : KafkaProtocol := {| try_from_code _ := None; is_retriable _ := true |}.

Definition demo_config : Cluster.ClusterConfig := Cluster.default_config [text_of_string "b:1"].
Definition demo_candidate : Candidate := {| endpoint := Bootstrap (text_of_string "b:1"); address := text_of_string "b:1" |}.
Definition demo_call : Call := {|
  asked := bootstraps (Cluster.bootstrap demo_config); left_ := []; known_error := None; bootstrap_error := None |}.
Definition demo_start : State := set_task 1 (bootstrap_connection (Cluster.bootstrap demo_config)) start.

Lemma undisturbed_call_is_connect_witness :
  Cluster.connect demo_config (Bootstrap (text_of_string "b:1")) (text_of_string "b:1") None (pool_of None 0 demo_start)
  = Some (Ok 0%nat, pool_of None 0 (alone demo_config None 0 1 demo_start)).
Proof.
  destruct (undisturbed_call_is_connect demo_config (Cluster.bootstrap demo_config) None 0 demo_start 1 demo_candidate
              demo_call) as (r & Hr & Hc).
  - eapply rtc_l; [|apply rtc_refl]. left. by apply out_bootstrap.
  - reflexivity.
  - intros i slot E. discriminate E.
  - assert (r = Ok 0%nat) as -> by (vm_compute in Hr; destruct r; congruence). exact Hc.
Defined.

End PoolRefinementProperties.
